(* ===== verification/_CoqProject ===== *)
-Q . S2P
Prelude.v
Traces.v
GoStrings.v
Json.v
Sha256.v
World.v
Envelope.v
PirGate.v
LeaseBook.v
ChainTypes.v
ClusterTypes.v
LeaseNames.v
CrdManifest.v
Hostname.v
Inventory.v
InventoryLoop.v
InventorySound.v
InventoryMetrics.v
NullInventory.v
GpuRequest.v
InventorySample.v
ReservationService.v
ReservationSound.v
BidOrder.v
BidOrderSound.v
BidService.v
DeployMonitor.v
DeployManager.v
DeployManagerSound.v
ManifestManager.v
ManifestManagerSound.v
ManifestManagerSample.v
ClusterService.v
ClusterServiceSound.v
DeployCluster.v
DeployClusterSound.v
ManifestService.v
ManifestServiceSound.v
BalanceChecker.v
OperatorCommon.v
ProxyConfig.v
HostRoutes.v
HostnameOperator.v
HostnameOperatorSound.v
MetalLb.v
IpOperator.v
IpOperatorSound.v
IpOperatorSample.v
KubeDeclare.v
Pricing.v
KubeObjects.v
Workload.v
WorkloadSound.v
NetPol.v
NetPolSound.v
KubeApi.v
KubeApply.v
KubeApplySound.v
KubeDeploy.v
KubeDeploySound.v
KubeSample.v
NodeDiscovery.v
NodeDiscoverySound.v
Gateway.v
GatewaySound.v
GatewayHandlers.v
GatewayHandlersSound.v
Pconfig.v
PconfigSound.v
Sha512.v
Webhook.v
WebhookSound.v
Attestation.v
AttestationSound.v
Migrations.v
MigrationsSound.v
LeaseStatus.v
InventoryState.v
InventoryStateSound.v
ProviderAttributes.v
