(* ===== verification/Prelude.v ===== *)
(** * rezerve provider: a verification development

    The program is the Go provider under [src/provider]: a daemon that bids on
    orders of a marketplace, keeps an inventory of a Kubernetes cluster, places
    the replicas of the orders it wins, and guards allocation behind a private
    market (the PIR gate).  This library models the parts that decide and
    account, and proves what makes them correct.

    ** Parts and files

    - Foundations.  [Prelude]: results, calls that may panic, integers at
      their width, the order of Go maps.  [Traces]: runs of a step function and
      their invariants.  [GoStrings]: the functions of [strings], [strconv],
      [encoding/hex], [encoding/base64] and [encoding/base32] the code uses.
      [Json]: [encoding/json] as used (Marshal, Unmarshal of objects), with a
      parser that is total.  [Sha256], [Sha512]: the hashes,
      executable.  [World]: environment variables, files and HTTP answers.
    - Private market.  [Envelope]: [pirgate/envelope.go] (sealed bids, their
      JSON form, their commitment).  [PirGate]: [pirgate/gate.go] (the decision
      to allocate) and [pirgate/match.go] (the commitment store and its HTTP
      handler).  [LeaseBook]: [gateway/pir/lease.go], [access.go], [serve.go]
      (the book of leases in memory or in a file, bearers, containers).
    - Chain and cluster data.  [ChainTypes]: resources, groups, manifests of
      the chain SDK.  [ClusterTypes]: [cluster/types/v1beta3] (TEE types,
      runtime classes, options), attribute parsing and interconnect attributes.
      [LeaseNames]: identifiers in custom resources, namespaces, IP sharing
      keys, endpoint counts.  [CrdManifest]:
      [pkg/apis/akash.network/v2beta2] and the cluster settings of
      [cluster/kube/builder/builder.go].
    - Inventory.  [Inventory]: [cluster/kube/operators/clients/inventory]
      ([newInventory], [tryAdjust] and its parts, [Adjust], [Metrics]).
      [InventoryLoop]: the placement loop with its backward jump.
      [InventorySound], [InventoryMetrics], [GpuRequest]: its properties.
      [NullInventory]: [cluster/types/v1beta3/clients/inventory].
      [InventorySample]: a cluster to evaluate on.
    - Services.  [Hostname]: [cluster/hostname.go].  [ReservationService]:
      [cluster/inventory.go] and [cluster/reservation.go], the goroutine that
      owns the reservations, one event per arm of its select.
      [ReservationSound]: its contract and runs of it.
    - Bid engine.  [BidOrder]: [bidengine/order.go], the monitor of one order
      from its query to its cleanup, with the gate; [BidOrderSound].
      [BidService]: [bidengine/service.go], the monitors and
      the catch-up over pages of orders.  [ProviderAttributes]:
      [bidengine/provider_attributes.go], signed and current attributes.
    - Manifests.  [ManifestManager]: [manifest/manager.go] with the checks of a
      submitted manifest; [ManifestService]: [manifest/service.go] and
      [watchdog.go]; with [...Sound] files.
    - Deployments.  [ClusterService]: [cluster/service.go] with the managers it
      owns.  [DeployManager]: the state machine of [cluster/manager.go];
      [DeployCluster]: what its deploys and teardowns call, with
      [manager_cleanup.go]; [DeployMonitor]: [cluster/monitor.go].
      [BalanceChecker]: [balance_checker.go], the escrow checks.
    - Operators.  [OperatorCommon]: [operator/common], the ignore list and the
      prepared results.  [ProxyConfig]: the proxy settings of a hostname as
      ingress annotations and as a gateway snippet.  [HostRoutes]: lease
      labels, ingresses and [cluster/kube/gateway].  [HostnameOperator]:
      [operator/hostname]; [HostnameOperatorSound].
      [MetalLb]: the services that pass an address through; [IpOperator]:
      [operator/ip], with [IpOperatorSound], which has the barrier before its
      web data, and [IpOperatorSample].  [NodeDiscovery]:
      [operator/inventory/node-discovery.go] with its configuration, GPU
      registry and interconnect; [NodeDiscoverySound].  [InventoryState]: the
      storage drivers, the nodes and the published state of the same operator;
      [InventoryStateSound].
    - Kubernetes.  [KubeObjects], [Workload], [NetPol]: the builders of
      [cluster/kube/builder]; [KubeApi]: a server that answers or refuses each
      request; [KubeApply]: [apply.go] and [cleanup.go]; [KubeDeploy]:
      [Deploy], its recovery, [TeardownLease]; [KubeDeclare]: the resources of
      hostnames and addresses ([client_hostname.go], [client_ip.go]);
      [LeaseStatus]: what [client.go] reports of a lease; their properties in the [...Sound] files, [KubeSample].
    - Prices.  [Pricing]: [bidengine/pricing.go] and [shellscript.go].
    - Gateway.  [Gateway]: [gateway/utils], the authentication, middlewares and
      routes of [gateway/rest], the interceptor of [gateway/grpc];
      [GatewayHandlers]: the handlers behind them, commands in pods and
      attestation; [GatewaySound], [GatewayHandlersSound].
    - Accounts.  [Pconfig]: [tools/pconfig], its memory and database stores,
      with [PconfigSound].
    - Attestation.  [Webhook]: [cluster/kube/webhook], the admission of pods;
      [Attestation]: [sidecar/attestation], the quotes of the guest; each with
      a [...Sound] file.
    - Migrations.  [Migrations]: [migrations] and the start of
      [cmd/provider-services/cmd/migrate_run.go]; [MigrationsSound].
    - Concrete runs and witnesses are in the [...Sample] files, or at the end of
      the file that holds the theorems.

    ** How the code is represented

    A function that returns an error is a [result], one that may panic an
    [outcome].  Code that keeps state takes and returns it.  A goroutine with a
    select is a step function on events; an arm that is not ready is an event
    that is not enabled, and what an arm receives is the argument of the event,
    so theorems about runs hold for every interleaving.  Pointers are values,
    except where sharing is observable: the scheduler parameters of a manifest
    are locations of a store.  Integers are [Z]; a conversion or an addition
    that can wrap is written with [u64], [i64] or the like.

    Code outside the repository is a parameter with the facts relied on: the
    AEAD ([Aead], [AeadLaws]), Unicode case mapping ([GoUnicode]), bech32
    ([Cosmos], [Owners]), the network, the file system and docker ([Network],
    [FileSystem], [Docker]), protocol names ([Protocols]), resource quantities ([Quantities], [PairOps], [PairLaws]), typed attribute
    access ([ChainSdk]), commit levels ([CommitLevels]), groups and paths of
    the market ([ChainGroups], [OrderPaths], [DeploymentPaths]), validation of
    manifests ([ManifestSdk]), escrow arithmetic ([Escrow], [Chain]), name-based
    UUIDs ([Uuid]), error texts and ports ([ErrorTexts], [ExposePorts]), retries
    ([ConflictRetries]), tokens and their claims ([Ajwt], [AjwtOps],
    [AjwtLaws]), paths of leases ([ChainPaths]), certificates and keys ([Pki],
    [PkiLaws]), decimals and shell scripts of prices, decimals of
    annotations ([ParseFloat]), and the order of maps
    ([MapOrder]).  Each has a concrete
    instance, used by the witnesses.  Calls of the API server and the chain are
    answered by arguments of the step; where the order of calls matters the
    function returns them with their answers, and the routes of the hostname
    operator are read off what it wrote.

    The inventory service knows its inventory through an interface,
    [InventoryOps] with [InventoryLaws] and [InventorySafe]; the cluster
    inventory is proved to implement it ([kube_ops], [kube_laws], [kube_safe]).
    The cluster service knows the inventory service through [Reservations],
    which [ReservationService] is proved to implement ([svc_reservations]).
    The stores of accounts are instances of [Storage], and each is proved to
    refine the same map ([Refines], [memory_refines], [bolt_refines]).

    ** What is shown

    - A sealed bid opens to itself, its JSON form is read back, and its
      commitment determines it up to a collision of SHA-256; the gate opens
      exactly under its documented conditions; the query and the match server
      agree, also through the LCD form; the lease book implements a map in both
      storage modes, a closed lease admits nobody, nothing is served without
      the gate.
    - [Adjust] always returns, changes nothing when it refuses, and otherwise
      accounts for every replica on every node and storage class without
      over-committing, separating the members of interconnect groups; GPU
      requests narrow once; totals in [Metrics] drop by the load.
    - Manifests and lease identifiers survive storage; names are valid.
    - Hostnames of one owner are out of reach of the others; transfers work.
    - The inventory service implements a list of held reservations, conserves
      external ports, does not promise leased IPs twice and does not panic once
      an inventory is there.
    - A monitor of an order gives back every reservation it does not win with,
      bids only under its conditions and closes a bid at most once; every open
      order gets a monitor.
    - Every manifest request is answered once; what is published was submitted
      and accepted for leases and groups of the chain; watchdogs close exactly
      what they should; the service drains.
    - Every deployed lease holds a reservation, and a closed one gives back one;
      a manager runs one thing at a time, loses no update and ends after its
      teardown; a deploy declares exactly the hostnames the lease holds.
    - No monitored lease is left unchecked, and funds are withdrawn exactly when
      they are due.
    - A hostname is never routed to two leases, as long as deletions name the
      lease that has it; a gateway route is published
      only after its filters; what is rendered for nginx is accepted by it and
      cannot be used to inject directives; routes are read back after a restart.
    - Every question about attributes is answered.
    - An address is served by one lease, as long as declarations are orderly;
      the barrier counts its visitors.
    - A container's requests fit its limits; selectors pick the pods of their
      own service; roles grant the reading that was asked for; network policies
      isolate a lease in both directions, up to the IPv4 addresses that are
      neither public nor private; applying an object stores all or reports, but
      for deployments and network policies; on a server that carries out what it
      is asked, a deployed lease runs the workloads of its manifest; its services
      are fixed; a teardown reports what the server refused it.
    - What a node reports as allocated is what its pods ask for and their volumes
      in memory once more for every further container; the labels made for it
      admit the workloads the inventory places on it; the storage that is
      published as allocated is what the volumes of its class take, as long as
      volumes and classes do not change under the driver.
    - The status of a lease has its controllers with their own hostnames, or the
      error of the server; a deployed lease is reported whole.
    - Claims are earned by a certificate, a signed token or the PIR gate; a
      request reaches its handler exactly when it may; a migration moves only
      what its destination declares; the pod of a shell does not depend on the
      order of a listing.
    - The stores of accounts answer alike, where what is deleted is there and
      keys are of the kinds they keep.
    - A confidential pod that has not opted out runs beside the attestation
      sidecar or is refused, and the pods of a lease stay within what is paid for
      with the sidecar, or the least there can be; a quote is evidence for the
      nonce and the channel it was asked for; the output of the GPU helper is
      read back where there is room for what it announces.
    - A start runs the migrations for newer versions than the recorded one, none
      for older and none that succeeded before; routes made of ingresses are the same connections.
    - Runs in which the code does not do what it means to are theorems too;
      their comments say what is wrong.

    ** Bounds and fuel

    The JSON parser, the reader of the GPU helper's output and the placement
    loop take fuel.  For the first two it is the length of the input, of which
    every step consumes something.  For the
    placement loop it is computed from the units and the nodes
    ([InventoryLoop]), and [adjust_accounts] states that the loop returns.
    Waiting for a container ([waitLeaseServing]) runs over a given list of
    answers, since the code polls for thirty seconds; so does waiting for a
    gateway filter.  Teardown retries fifty times, as the code does.

    ** Not modelled

    Kubernetes and chain I/O, TLS, gRPC and HTTP servers, the web sockets of
    logs and events, logging, metrics gauges, the JSON of the operators' web
    data, generated clients and deep copies, commands and their flags, the pods
    that probe hardware, storage back ends, the ACME client, and the Rust
    crate.  Of the API server: what it does on its own, such as emptying a
    namespace that was deleted; requests are for the objects of one lease, so
    that their namespace is not an argument.  Constants of the objects no theorem
    looks at (the path match and the kind of the parent in a migrated route) are
    left out; the estimate of the blocks a balance lasts ([LeaseCalcBlocks]) is a
    function of the chain's library that is taken to return. *)

From stdpp Require Export base tactics list strings gmap sorting.
From Stdlib Require Export ZArith Lia.

Declare Scope go_scope.
Delimit Scope go_scope with go.

(** ** Error results *)

(** A Go function returning [(T, error)] is a [result]: the value, or the
    error.  The callers below never use the value next to a non-nil error
    unless the model says so explicitly. *)
Inductive result (E A : Type) : Type :=
| Ok (a : A)
| Err (e : E).

Arguments Ok {E A} a.
Arguments Err {E A} e.

#[export] Instance result_eq_dec {E A} `{EqDecision E} `{EqDecision A} :
  EqDecision (result E A).
Proof. solve_decision. Defined.

Definition rbind {E A B} (r : result E A) (k : A → result E B) : result E B :=
  match r with Ok a => k a | Err e => Err e end.

Definition is_ok {E A} (r : result E A) : bool :=
  match r with Ok _ => true | Err _ => false end.

Notation "'let*' x ':=' c 'in' k" := (rbind c (λ x, k))
  (at level 10, x pattern, c at level 100, k at level 200) : go_scope.

Lemma Ok_inj {E A} (a b : A) : @Ok E A a = Ok b → a = b.
Proof. congruence. Qed.

Lemma rbind_ok {E A B} (r : result E A) (k : A → result E B) b :
  rbind r k = Ok b ↔ ∃ a, r = Ok a ∧ k a = Ok b.
Proof. destruct r; naive_solver. Qed.

(** ** Calls that may panic

    A nil dereference, an index out of range or a write to a nil map ends the
    call; [Panic] is that outcome. *)
Inductive outcome (A : Type) := Ret (a : A) | Panic.
Arguments Ret {A} a.
Arguments Panic {A}.

Definition obind {A B} (o : outcome A) (k : A → outcome B) : outcome B :=
  match o with Ret a => k a | Panic => Panic end.

(** [p.f] on a pointer: a panic when it is nil. *)
Definition deref {A} (p : option A) : outcome A :=
  match p with Some a => Ret a | None => Panic end.

Notation "'let!' x ':=' c 'in' k" := (obind c (λ x, k))
  (at level 10, x pattern, c at level 100, k at level 200) : go_scope.

Lemma obind_ret {A B} (o : outcome A) (k : A → outcome B) b :
  obind o k = Ret b ↔ ∃ a, o = Ret a ∧ k a = Ret b.
Proof. destruct o; naive_solver. Qed.

(** ** Maps *)

(** The order in which Go ranges over a map. *)
Class MapOrder := {
  map_order : ∀ A, list A → list A;
  map_order_perm : ∀ A (l : list A), map_order A l ≡ₚ l
}.

(** The order of the list of a map, for concrete runs. *)
Definition listed_order : MapOrder := {| map_order := λ A l, l; map_order_perm := λ A l, reflexivity l |}.

(** ** Machine integers *)

Definition u8 (z : Z) : Z := z mod 2 ^ 8.
Definition u32 (z : Z) : Z := z mod 2 ^ 32.
Definition u64 (z : Z) : Z := z mod 2 ^ 64.

(** Two's complement reading of the low 64 bits. *)
Definition i64 (z : Z) : Z :=
  let m := u64 z in if decide (m < 2 ^ 63)%Z then m else (m - 2 ^ 64)%Z.

(** The same for 32 bits. *)
Definition i32 (z : Z) : Z := let m := u32 z in if decide (m < 2 ^ 31)%Z then m else (m - 2 ^ 32)%Z.

Lemma u32_id z : (0 ≤ z < 2 ^ 32)%Z → u32 z = z.
Proof. intros. by apply Z.mod_small. Qed.

Lemma i32_u32 z : i32 (u32 z) = i32 z.
Proof. unfold i32, u32. by rewrite Z.mod_mod. Qed.

Lemma u32_i32 z : u32 (i32 z) = u32 z.
Proof.
  unfold i32. case_decide; [unfold u32; by rewrite Z.mod_mod|]. unfold u32.
  rewrite <- (Z.mod_add _ 1) by done. by replace (z mod 2 ^ 32 - 2 ^ 32 + 1 * 2 ^ 32)%Z with (z mod 2 ^ 32)%Z by lia; rewrite Z.mod_mod.
Qed.

Lemma i32_idem z : i32 (i32 z) = i32 z.
Proof. by rewrite <- i32_u32, u32_i32, i32_u32. Qed.

Lemma u64_id z : (0 ≤ z < 2 ^ 64)%Z → u64 z = z.
Proof. intros. by apply Z.mod_small. Qed.

Lemma u64_range z : (0 ≤ u64 z < 2 ^ 64)%Z.
Proof. by apply Z.mod_pos_bound. Qed.

Lemma i64_id z : (- 2 ^ 63 ≤ z < 2 ^ 63)%Z → i64 z = z.
Proof.
  intros Hz. unfold i64, u64.
  destruct (decide (0 ≤ z)%Z) as [H0|H0].
  - rewrite Z.mod_small by lia. by case_decide; lia.
  - assert (z mod 2 ^ 64 = z + 2 ^ 64)%Z as ->.
    { rewrite <- (Z_mod_plus_full z 1 (2 ^ 64)), Z.mul_1_l. apply Z.mod_small. lia. }
    by case_decide; lia.
Qed.
