(* ===== verification/Traces.v ===== *)
(** * Runs of a step function

    A component with a loop is a partial step function on events that returns
    the new state and what was done.  A run collects the events and the actions;
    invariants of runs are proved step by step, and a concrete run by
    evaluation. *)
From S2P Require Import Prelude.

Section runs.
Context {S E A : Type} (step : S → E → option (S * list A)).

Inductive runs (s0 : S) : list E → list A → S → Prop :=
| runs_nil : runs s0 [] [] s0
| runs_snoc es acts s1 e s2 acts1 :
    runs s0 es acts s1 → step s1 e = Some (s2, acts1) → runs s0 (es ++ [e]) (acts ++ acts1) s2.

(** An invariant that relates the state to the trace so far. *)
Lemma runs_invariant (P : list E → list A → S → Prop) s0 :
  P [] [] s0 →
  (∀ es acts s e s' acts1, P es acts s → step s e = Some (s', acts1) → P (es ++ [e])%list (acts ++ acts1)%list s') →
  ∀ es acts s, runs s0 es acts s → P es acts s.
Proof. intros H0 Hstep es acts s Hrun. induction Hrun; eauto. Qed.

Lemma runs_cons s e s1 a1 es acts s2 :
  step s e = Some (s1, a1) → runs s1 es acts s2 → runs s (e :: es) (a1 ++ acts) s2.
Proof.
  intros He. induction 1 as [|es acts s2 e' s3 acts' Hrun IH Hstep].
  - rewrite app_nil_r. apply (runs_snoc s [] [] s e s1 a1); [constructor|done].
  - rewrite app_assoc. change (e :: es ++ [e'])%list with ((e :: es) ++ [e'])%list. by econstructor.
Qed.

Lemma runs_app s es acts s1 es' acts' s2 :
  runs s es acts s1 → runs s1 es' acts' s2 → runs s (es ++ es') (acts ++ acts') s2.
Proof.
  intros H1. induction 1 as [|es' acts' s2 e s3 a _ IH Hstep]; [by rewrite !app_nil_r|].
  rewrite !app_assoc. by econstructor.
Qed.

(** The state after a list of events that are all enabled. *)
Fixpoint exec (s : S) (es : list E) : option (list A * S) :=
  match es with
  | [] => Some ([], s)
  | e :: es =>
      '(s1, acts) ← step s e;
      '(acts', s2) ← exec s1 es;
      Some ((acts ++ acts')%list, s2)
  end.

Lemma exec_runs s es acts s' : exec s es = Some (acts, s') → runs s es acts s'.
Proof.
  revert s acts. induction es as [|e es IH]; intros s acts; cbn; [intros [= <- <-]; constructor|].
  destruct (step s e) as [[s1 a1]|] eqn:E0; cbn; [|done].
  destruct (exec s1 es) as [[acts' s2]|] eqn:Ee; cbn; [|done]. intros [= <- <-].
  eapply runs_cons; [done|by apply IH].
Qed.

End runs.
