(* ===== verification/GoStrings.v ===== *)
(** * Go byte strings

    The part of Go's [strings], [bytes], [encoding/hex], [encoding/binary],
    [encoding/base64], [net/url] and [strconv] packages the modelled code
    uses.  A Go [string] and a Go [[]byte] are both a sequence of bytes, a
    [string] of 8-bit [ascii] characters here: the conversion between the two
    is the identity.  Unicode case mapping of non-ASCII text is the one part
    that is left abstract ([GoUnicode]). *)

From S2P Require Import Prelude.
From Stdlib Require Import Ascii String.
From stdpp Require Import pretty.
Local Open Scope N_scope.

(** [+:+] computes on a constructor again (stdpp blocks it). *)
#[global] Arguments String.append !_ _ : simpl nomatch.

(** ** Bytes *)

Definition code (c : ascii) : N := N_of_ascii c.
Definition byte_of (n : N) : ascii := ascii_of_N n.
Definition in_range (lo hi : N) (c : ascii) : bool := (lo <=? code c) && (code c <=? hi).
Definition is_upper : ascii → bool := in_range 65 90.
Definition is_lower : ascii → bool := in_range 97 122.
Definition is_digit : ascii → bool := in_range 48 57.
(** '0'..'9' and 'a'..'f'. *)
Definition is_lhex (c : ascii) : bool := is_digit c || in_range 97 102 c.
Definition is_ascii (c : ascii) : bool := code c <? 128.
Definition lower_ascii (c : ascii) : ascii := if is_upper c then byte_of (code c + 32) else c.
Definition upper_ascii (c : ascii) : ascii := if is_lower c then byte_of (code c - 32) else c.

(** ** Sequences of bytes *)

Fixpoint str_forall (p : ascii → bool) (s : string) : bool :=
  match s with EmptyString => true | String c s' => p c && str_forall p s' end.

Fixpoint str_map (f : ascii → ascii) (s : string) : string :=
  match s with EmptyString => EmptyString | String c s' => String (f c) (str_map f s') end.

Fixpoint str_take (n : nat) (s : string) : string :=
  match n, s with
  | S n, String c s' => String c (str_take n s')
  | _, _ => EmptyString
  end.

Fixpoint str_drop (n : nat) (s : string) : string :=
  match n, s with
  | S n, String _ s' => str_drop n s'
  | _, _ => s
  end.

Fixpoint str_rev_app (s acc : string) : string :=
  match s with EmptyString => acc | String c s' => str_rev_app s' (String c acc) end.
Definition str_rev (s : string) : string := str_rev_app s EmptyString.

(** ** strings.ToLower

    On ASCII text the mapping is byte by byte; on other text it is Go's
    Unicode table, which is not modelled. *)
Class GoUnicode := unicode_lower : string → string.

Definition ToLower `{GoUnicode} (s : string) : string :=
  if str_forall is_ascii s then str_map lower_ascii s else unicode_lower s.

(** ** strings.TrimSpace

    The length in bytes of a leading white space character: the ASCII ones,
    and the UTF-8 encodings of U+0085, U+00A0, U+1680, U+2000..U+200A,
    U+2028, U+2029, U+202F, U+205F and U+3000. *)
Definition is_ascii_space (c : ascii) : bool := in_range 9 13 c || (code c =? 32).

Definition space3 (a b c : N) : bool :=
  ((a =? 225) && (b =? 154) && (c =? 128)) ||
  ((a =? 226) && (b =? 128) &&
     (((128 <=? c) && (c <=? 138)) || (c =? 168) || (c =? 169) || (c =? 175))) ||
  ((a =? 226) && (b =? 129) && (c =? 159)) ||
  ((a =? 227) && (b =? 128) && (c =? 128)).

Definition space2 (a b : N) : bool := (a =? 194) && ((b =? 133) || (b =? 160)).

Definition space_len (s : string) : nat :=
  match s with
  | EmptyString => 0
  | String a s1 =>
      if is_ascii_space a then 1%nat
      else match s1 with
           | EmptyString => 0%nat
           | String b s2 =>
               if space2 (code a) (code b) then 2%nat
               else match s2 with
                    | EmptyString => 0%nat
                    | String c _ => if space3 (code a) (code b) (code c) then 3%nat else 0%nat
                    end
           end
  end.

(** The same on a reversed string, for the trailing side. *)
Definition space_len_rev (s : string) : nat :=
  match s with
  | EmptyString => 0
  | String a s1 =>
      if is_ascii_space a then 1%nat
      else match s1 with
           | EmptyString => 0%nat
           | String b s2 =>
               if space2 (code b) (code a) then 2%nat
               else match s2 with
                    | EmptyString => 0%nat
                    | String c _ => if space3 (code c) (code b) (code a) then 3%nat else 0%nat
                    end
           end
  end.

Fixpoint trim_go (len : string → nat) (fuel : nat) (s : string) : string :=
  match fuel with
  | O => s
  | S fuel => match len s with O => s | n => trim_go len fuel (str_drop n s) end
  end.

Definition TrimSpace (s : string) : string :=
  let l := trim_go space_len (String.length s) s in
  str_rev (trim_go space_len_rev (String.length l) (str_rev l)).

(** ** Prefixes and suffixes *)

Definition HasPrefix (s p : string) : bool := String.prefix p s.
Definition HasSuffix (s p : string) : bool := String.prefix (str_rev p) (str_rev s).
Definition TrimPrefix (s p : string) : string :=
  if HasPrefix s p then str_drop (String.length p) s else s.
Definition TrimSuffix (s p : string) : string :=
  if HasSuffix s p then str_take (String.length s - String.length p) s else s.

(** strings.LastIndex for a non-empty [sep]. *)
Fixpoint LastIndex (s sep : string) : option nat :=
  match s with
  | EmptyString => None
  | String _ s' =>
      match LastIndex s' sep with
      | Some i => Some (S i)
      | None => if String.prefix sep s then Some O else None
      end
  end.

(** strings.Split for a one-byte separator. *)
Fixpoint split_go (sep : ascii) (s cur : string) : list string :=
  match s with
  | EmptyString => [str_rev cur]
  | String c s' =>
      if (c =? sep)%char then str_rev cur :: split_go sep s' EmptyString
      else split_go sep s' (String c cur)
  end.
Definition Split (s : string) (sep : ascii) : list string := split_go sep s EmptyString.

(** strings.FieldsFunc, for a predicate on ASCII bytes. *)
Fixpoint fields_go (p : ascii → bool) (s cur : string) : list string :=
  match s with
  | EmptyString => match cur with EmptyString => [] | _ => [str_rev cur] end
  | String c s' =>
      if p c then match cur with
                  | EmptyString => fields_go p s' EmptyString
                  | _ => str_rev cur :: fields_go p s' EmptyString
                  end
      else fields_go p s' (String c cur)
  end.
Definition FieldsFunc (s : string) (p : ascii → bool) : list string := fields_go p s EmptyString.

(** ** encoding/hex *)

Definition hex_digit (n : N) : ascii := if n <? 10 then byte_of (48 + n) else byte_of (87 + n).

Definition hex_value (c : ascii) : option N :=
  if is_digit c then Some (code c - 48)
  else if in_range 97 102 c then Some (code c - 87)
  else if in_range 65 70 c then Some (code c - 55)
  else None.

Fixpoint hex_EncodeToString (s : string) : string :=
  match s with
  | EmptyString => EmptyString
  | String c s' =>
      String (hex_digit (code c / 16)) (String (hex_digit (code c mod 16)) (hex_EncodeToString s'))
  end.

Fixpoint hex_DecodeString (s : string) : option string :=
  match s with
  | EmptyString => Some EmptyString
  | String a (String b s') =>
      match hex_value a, hex_value b, hex_DecodeString s' with
      | Some x, Some y, Some r => Some (String (byte_of (16 * x + y)) r)
      | _, _, _ => None
      end
  | String _ EmptyString => None
  end.

(** ** encoding/binary: the 8 little-endian bytes of a 64-bit length *)

Fixpoint le_bytes (k : nat) (n : N) : string :=
  match k with
  | O => EmptyString
  | S k => String (byte_of (n mod 256)) (le_bytes k (n / 256))
  end.
Definition PutUint64 (n : N) : string := le_bytes 8 n.

Definition strlen (s : string) : N := N.of_nat (String.length s).

(** ** encoding/base64 *)

Definition b64_digit (n : N) : ascii :=
  if n <? 26 then byte_of (65 + n)
  else if n <? 52 then byte_of (71 + n)
  else if n <? 62 then byte_of (n - 4)
  else if n =? 62 then "+"%char else "/"%char.

(** Value of a digit, in the standard or in the URL alphabet. *)
Definition b64_value (url : bool) (c : ascii) : option N :=
  if is_upper c then Some (code c - 65)
  else if is_lower c then Some (code c - 71)
  else if is_digit c then Some (code c + 4)
  else if (c =? (if url then "-" else "+"))%char then Some 62
  else if (c =? (if url then "_" else "/"))%char then Some 63
  else None.

(** StdEncoding.EncodeToString. *)
Fixpoint b64_EncodeToString (s : string) : string :=
  match s with
  | EmptyString => EmptyString
  | String x EmptyString =>
      let n := code x * 16 in
      String (b64_digit (n / 64)) (String (b64_digit (n mod 64)) "==")
  | String x (String y EmptyString) =>
      let n := (code x * 256 + code y) * 4 in
      String (b64_digit (n / 4096)) (String (b64_digit (n / 64 mod 64))
        (String (b64_digit (n mod 64)) "="))
  | String x (String y (String z s')) =>
      let n := (code x * 256 + code y) * 256 + code z in
      String (b64_digit (n / 262144)) (String (b64_digit (n / 4096 mod 64))
        (String (b64_digit (n / 64 mod 64)) (String (b64_digit (n mod 64))
          (b64_EncodeToString s'))))
  end.

Definition b64_one (a b : N) : string :=
  String (byte_of ((a * 64 + b) / 16)) EmptyString.
Definition b64_two (a b c : N) : string :=
  let n := (a * 64 + b) * 64 + c in
  String (byte_of (n / 1024)) (String (byte_of (n / 4 mod 256)) EmptyString).
Definition b64_three (a b c d : N) (r : string) : string :=
  let n := ((a * 64 + b) * 64 + c) * 64 + d in
  String (byte_of (n / 65536)) (String (byte_of (n / 256 mod 256)) (String (byte_of (n mod 256)) r)).

(** DecodeString on text without line breaks; [pad] selects the padded
    encodings (StdEncoding, URLEncoding) or the raw ones. *)
Fixpoint b64_decode (url pad : bool) (s : string) : option string :=
  let v := b64_value url in
  match s with
  | EmptyString => Some EmptyString
  | String a (String b (String c (String d s'))) =>
      match v a, v b, v c, v d with
      | Some a, Some b, Some c, Some d => b64_three a b c d <$> b64_decode url pad s'
      | Some a, Some b, Some c, None =>
          if pad && (d =? "=")%char && (s' =? "")%string then Some (b64_two a b c) else None
      | Some a, Some b, None, None =>
          if pad && (c =? "=")%char && (d =? "=")%char && (s' =? "")%string
          then Some (b64_one a b) else None
      | _, _, _, _ => None
      end
  | String a (String b (String c EmptyString)) =>
      match v a, v b, v c with
      | Some a, Some b, Some c => if pad then None else Some (b64_two a b c)
      | _, _, _ => None
      end
  | String a (String b EmptyString) =>
      match v a, v b with
      | Some a, Some b => if pad then None else Some (b64_one a b)
      | _, _ => None
      end
  | String _ EmptyString => None
  end.

Fixpoint str_filter (p : ascii → bool) (s : string) : string :=
  match s with
  | EmptyString => EmptyString
  | String c s' => if p c then String c (str_filter p s') else str_filter p s'
  end.

(** The decoders skip carriage returns and line feeds. *)
Definition not_eol (c : ascii) : bool := negb ((code c =? 10) || (code c =? 13)).
Definition b64_DecodeString (url pad : bool) (s : string) : option string :=
  b64_decode url pad (str_filter not_eol s).

(** ** net/url *)

Definition upper_hex_digit (n : N) : ascii := if n <? 10 then byte_of (48 + n) else byte_of (55 + n).

(** Bytes a path segment keeps as they are. *)
Definition path_plain (c : ascii) : bool :=
  is_upper c || is_lower c || is_digit c ||
  negb (str_forall (λ d, negb (d =? c)%char) "-_.~$&+:=@").

Fixpoint PathEscape (s : string) : string :=
  match s with
  | EmptyString => EmptyString
  | String c s' =>
      if path_plain c then String c (PathEscape s')
      else String "%" (String (upper_hex_digit (code c / 16))
             (String (upper_hex_digit (code c mod 16)) (PathEscape s')))
  end.

(** [None] is the error of a malformed escape. *)
Fixpoint PathUnescape (s : string) : option string :=
  match s with
  | EmptyString => Some EmptyString
  | String c s' =>
      if (c =? "%")%char then
        match s' with
        | String a (String b r) =>
            match hex_value a, hex_value b, PathUnescape r with
            | Some x, Some y, Some t => Some (String (byte_of (16 * x + y)) t)
            | _, _, _ => None
            end
        | _ => None
        end
      else String c <$> PathUnescape s'
  end.

(** ** Lemmas *)

Create HintDb gostr.

(** Decide a boolean statement about one byte by running over all of them. *)
Definition all_bytes : list ascii := map (λ n, byte_of (N.of_nat n)) (seq 0 256).

Lemma code_lt c : code c < 256.
Proof. apply N_ascii_bounded. Qed.

Lemma byte_of_code c : byte_of (code c) = c.
Proof. apply ascii_N_embedding. Qed.

Lemma code_byte_of n : n < 256 → code (byte_of n) = n.
Proof. apply N_ascii_embedding. Qed.

#[export] Hint Resolve code_lt : gostr.
#[export] Hint Rewrite byte_of_code : gostr.

Lemma elem_of_all_bytes c : c ∈ all_bytes.
Proof.
  unfold all_bytes. rewrite list_elem_of_In, in_map_iff.
  exists (N.to_nat (code c)). rewrite N2Nat.id, byte_of_code. split; [done|].
  apply in_seq. pose proof (code_lt c). lia.
Qed.

Lemma bytes_forall (p : ascii → bool) : forallb p all_bytes = true → ∀ c, p c = true.
Proof. rewrite forallb_forall. intros H c. apply H, list_elem_of_In, elem_of_all_bytes. Qed.

(** [by_bytes]: close a goal [b = true] that depends on one byte. *)
Ltac by_bytes c :=
  revert c; match goal with
  | |- ∀ c, @?b c = true => apply (bytes_forall b); vm_compute; reflexivity
  end.

(** A fact on every [n < k], by computation. *)
Lemma N_forall_lt (p : N → bool) (k : nat) :
  forallb (λ n, p (N.of_nat n)) (seq 0 k) = true → ∀ n, n < N.of_nat k → p n = true.
Proof.
  rewrite forallb_forall. intros H n Hn.
  rewrite <- (N2Nat.id n). apply H, in_seq. lia.
Qed.

Lemma str_forall_impl (p q : ascii → bool) s :
  (∀ c, p c = true → q c = true) → str_forall p s = true → str_forall q s = true.
Proof. intros Hpq. induction s; simpl; rewrite ?andb_true_iff; naive_solver. Qed.

Lemma str_forall_app p s t : str_forall p (s +:+ t) = str_forall p s && str_forall p t.
Proof. induction s; simpl; [done|]. by rewrite IHs, andb_assoc. Qed.

Lemma str_map_id f s : (∀ c, f c = c) → str_map f s = s.
Proof. intros Hf. induction s; simpl; congruence. Qed.

Lemma str_map_forall_id (p : ascii → bool) f s :
  (∀ c, p c = true → f c = c) → str_forall p s = true → str_map f s = s.
Proof. intros Hf. induction s; simpl; [done|]. rewrite andb_true_iff. intros []. f_equal; auto. Qed.

Lemma str_app_nil_r s : s +:+ EmptyString = s.
Proof. induction s; simpl; [done|]. by f_equal. Qed.

Lemma str_app_assoc (s t u : string) : (s +:+ t) +:+ u = s +:+ (t +:+ u).
Proof. induction s; simpl; [done|]. by f_equal. Qed.

Lemma str_length_app s t : String.length (s +:+ t) = (String.length s + String.length t)%nat.
Proof. induction s; simpl; auto. Qed.

Lemma str_app_cons c s t : String c s +:+ t = String c (s +:+ t).
Proof. done. Qed.

Lemma str_app_nil_l s : EmptyString +:+ s = s.
Proof. done. Qed.

Lemma str_length_cons c s : String.length (String c s) = S (String.length s).
Proof. done. Qed.

#[export] Hint Rewrite str_app_assoc str_app_cons str_app_nil_r str_app_nil_l : str_norm.
#[export] Hint Rewrite str_length_app str_length_cons : str_len.

Lemma str_rev_app_spec s acc : str_rev_app s acc = str_rev s +:+ acc.
Proof.
  unfold str_rev. revert acc. induction s as [|c s IH]; intros acc; simpl; [done|].
  rewrite (IH (String c acc)), (IH (String c EmptyString)), str_app_assoc. done.
Qed.

Lemma str_rev_cons c s : str_rev (String c s) = str_rev s +:+ String c EmptyString.
Proof. unfold str_rev at 1. simpl. apply str_rev_app_spec. Qed.

Lemma str_rev_app_distr s t : str_rev (s +:+ t) = str_rev t +:+ str_rev s.
Proof.
  induction s as [|c s IH]; simpl.
  - by rewrite str_app_nil_r.
  - change (String c s +:+ t) with (String c (s +:+ t)).
    by rewrite !str_rev_cons, IH, str_app_assoc.
Qed.

Lemma str_rev_involutive s : str_rev (str_rev s) = s.
Proof.
  induction s as [|c s IH]; [done|].
  by rewrite str_rev_cons, str_rev_app_distr, IH.
Qed.

Lemma str_forall_rev p s : str_forall p (str_rev s) = str_forall p s.
Proof.
  induction s as [|c s IH]; [done|].
  rewrite str_rev_cons, str_forall_app, IH. simpl.
  by rewrite andb_true_r, andb_comm.
Qed.

Lemma str_take_drop n s : str_take n s +:+ str_drop n s = s.
Proof. revert s. induction n; intros []; simpl; try done. by f_equal. Qed.

Lemma str_take_length n s : String.length (str_take n s) = Nat.min n (String.length s).
Proof. revert s. induction n; intros []; simpl; auto. Qed.

Lemma str_drop_length n s : String.length (str_drop n s) = (String.length s - n)%nat.
Proof. revert s. induction n; intros []; simpl; auto. Qed.

Lemma str_take_all n s : (String.length s ≤ n)%nat → str_take n s = s.
Proof. revert s. induction n; intros []; simpl; intros; try lia; auto. f_equal. apply IHn. lia. Qed.

Lemma str_take_app s t : str_take (String.length s) (s +:+ t) = s.
Proof. induction s; simpl; [by destruct t|]. by f_equal. Qed.

Lemma str_drop_app s t : str_drop (String.length s) (s +:+ t) = t.
Proof. induction s; simpl; [by destruct t|done]. Qed.

Lemma str_prefix_app p s : String.prefix p (p +:+ s) = true.
Proof. induction p as [|c p IH]; simpl; [by destruct s|]. case_match; congruence. Qed.

Lemma str_prefix_spec p s : String.prefix p s = true ↔ ∃ t, s = p +:+ t.
Proof.
  split; [|intros [t ->]; apply str_prefix_app].
  revert s. induction p as [|c p IH]; intros s; [by eexists|].
  destruct s as [|d s]; simpl; [done|]. case_match; [|done]. subst.
  intros [t ->]%IH. by exists t.
Qed.

Lemma TrimPrefix_app p s : TrimPrefix (p +:+ s) p = s.
Proof. unfold TrimPrefix, HasPrefix. by rewrite str_prefix_app, str_drop_app. Qed.

Lemma str_app_inj s t u v :
  String.length s = String.length u → s +:+ t = u +:+ v → s = u ∧ t = v.
Proof.
  revert u. induction s as [|c s IH]; intros [|d u]; simpl; intros Hl E; try done.
  injection Hl as Hl; injection E as -> E. destruct (IH u Hl E). by subst.
Qed.

(** *** White space *)

Definition trimmed_char (c : ascii) : bool := is_ascii c && negb (is_ascii_space c).

Lemma trimmed_not_space c :
  trimmed_char c = true →
  is_ascii_space c = false ∧ (∀ a, space2 (code c) a = false) ∧
  (∀ a b, space3 (code c) a b = false) ∧
  (∀ a, space2 a (code c) = false) ∧ (∀ a b, space3 a b (code c) = false).
Proof.
  intros [Ha Hs]%andb_true_iff. apply negb_true_iff in Hs.
  unfold is_ascii in Ha. apply N.ltb_lt in Ha. unfold space2, space3.
  repeat split; intros; try done; apply not_true_is_false; rewrite ?orb_true_iff, ?andb_true_iff,
    ?orb_true_iff, ?andb_true_iff, ?orb_true_iff, ?N.eqb_eq, ?N.leb_le; lia.
Qed.

Lemma space_len_trimmed s : str_forall trimmed_char s = true → space_len s = 0%nat.
Proof.
  destruct s as [|a s]; [done|]. simpl.
  intros [(-> & H2 & H3 & _)%trimmed_not_space _]%andb_true_iff.
  destruct s as [|b [|c s]]; rewrite ?H2, ?H3; done.
Qed.

Lemma space_len_rev_trimmed s : str_forall trimmed_char s = true → space_len_rev s = 0%nat.
Proof.
  destruct s as [|a s]; [done|]. simpl.
  intros [(-> & _ & _ & H2 & H3)%trimmed_not_space _]%andb_true_iff.
  destruct s as [|b [|c s]]; rewrite ?H2, ?H3; done.
Qed.

Lemma trim_go_stop len fuel s : len s = 0%nat → trim_go len fuel s = s.
Proof. by destruct fuel; simpl; intros; simplify_eq; rewrite ?H. Qed.

Lemma TrimSpace_id s : str_forall trimmed_char s = true → TrimSpace s = s.
Proof.
  intros H. unfold TrimSpace.
  rewrite (trim_go_stop space_len) by by apply space_len_trimmed.
  rewrite trim_go_stop by (apply space_len_rev_trimmed; by rewrite str_forall_rev).
  apply str_rev_involutive.
Qed.

(** Only the two ends of a string matter. *)
Lemma TrimSpace_ends a t b u :
  trimmed_char a = true → trimmed_char b = true →
  str_rev (String a t) = String b u → TrimSpace (String a t) = String a t.
Proof.
  intros Ha Hb Hr. unfold TrimSpace.
  rewrite (trim_go_stop space_len).
  - rewrite Hr, trim_go_stop; [by rewrite <- Hr, str_rev_involutive|].
    simpl. destruct (trimmed_not_space _ Hb) as (-> & _ & _ & H2 & H3).
    destruct u as [|? [|? ?]]; by rewrite ?H2, ?H3.
  - simpl. destruct (trimmed_not_space _ Ha) as (-> & H2 & H3 & _).
    destruct t as [|? [|? ?]]; by rewrite ?H2, ?H3.
Qed.

(** *** Hexadecimal text *)

Lemma lhex_trimmed c : is_lhex c = true → trimmed_char c = true.
Proof. intros H. enough (implb (is_lhex c) (trimmed_char c) = true) by (rewrite H in *; done).
  clear H. by_bytes c. Qed.

Lemma lhex_lower c : is_lhex c = true → lower_ascii c = c.
Proof.
  intros H.
  enough (implb (is_lhex c) (lower_ascii c =? c)%char = true) as E.
  { rewrite H in E. by apply Ascii.eqb_eq. }
  clear H. by_bytes c.
Qed.

Lemma trimmed_ascii c : trimmed_char c = true → is_ascii c = true.
Proof. by intros [? _]%andb_true_iff. Qed.

Lemma ToLower_lhex `{GoUnicode} s : str_forall is_lhex s = true → ToLower s = s.
Proof.
  intros Hs. unfold ToLower.
  rewrite (str_forall_impl is_lhex is_ascii) by auto using lhex_trimmed, trimmed_ascii.
  by apply (str_map_forall_id is_lhex); [apply lhex_lower|].
Qed.

Lemma TrimSpace_lhex s : str_forall is_lhex s = true → TrimSpace s = s.
Proof. intros. by apply TrimSpace_id, (str_forall_impl is_lhex); [apply lhex_trimmed|]. Qed.

Lemma TrimPrefix_0x_lhex s : str_forall is_lhex s = true → TrimPrefix s "0x" = s.
Proof.
  intros Hs. unfold TrimPrefix, HasPrefix.
  destruct (String.prefix "0x" s) eqn:E; [|done].
  apply str_prefix_spec in E as [t ->]. done.
Qed.

Lemma hex_digit_lhex n : n < 16 → is_lhex (hex_digit n) = true ∧ hex_value (hex_digit n) = Some n.
Proof.
  intros Hn.
  assert (is_lhex (hex_digit n) && bool_decide (hex_value (hex_digit n) = Some n) = true) as E.
  { revert n Hn. apply (N_forall_lt _ 16). vm_compute. done. }
  apply andb_true_iff in E as [? ?%bool_decide_eq_true]. done.
Qed.

Lemma code_div_16 c : code c / 16 < 16.
Proof. pose proof (code_lt c). apply N.Div0.div_lt_upper_bound; lia. Qed.

Lemma code_mod_16 c : code c mod 16 < 16.
Proof. by apply N.mod_lt. Qed.

#[export] Hint Resolve code_div_16 code_mod_16 : gostr.

Lemma hex_encode_lhex s : str_forall is_lhex (hex_EncodeToString s) = true.
Proof.
  induction s as [|c s IH]; [done|]. simpl. rewrite IH.
  destruct (hex_digit_lhex (code c / 16)) as [-> _]; [auto with gostr|].
  by destruct (hex_digit_lhex (code c mod 16)) as [-> _]; [auto with gostr|].
Qed.

Lemma hex_encode_length s :
  String.length (hex_EncodeToString s) = (2 * String.length s)%nat.
Proof. induction s; simpl; lia. Qed.

Lemma hex_decode_encode s : hex_DecodeString (hex_EncodeToString s) = Some s.
Proof.
  induction s as [|c s IH]; [done|]. simpl. rewrite IH.
  destruct (hex_digit_lhex (code c / 16)) as [_ ->]; [auto with gostr|].
  destruct (hex_digit_lhex (code c mod 16)) as [_ ->]; [auto with gostr|].
  by rewrite <- (N.div_mod' (code c) 16), byte_of_code.
Qed.

#[export] Instance hex_encode_inj : Inj (=) (=) hex_EncodeToString.
Proof. intros s t E. apply (f_equal hex_DecodeString) in E. rewrite !hex_decode_encode in E. congruence. Qed.

(** *** Little-endian lengths *)

Lemma le_bytes_length k n : String.length (le_bytes k n) = k.
Proof. revert n. induction k; simpl; auto. Qed.

Lemma le_bytes_inj k n m :
  n < 256 ^ N.of_nat k → m < 256 ^ N.of_nat k → le_bytes k n = le_bytes k m → n = m.
Proof.
  revert n m. induction k as [|k IH]; intros n m Hn Hm; [simpl in *; lia|].
  simpl. intros [= Hb Hr].
  apply (f_equal code) in Hb. rewrite !code_byte_of in Hb by by apply N.mod_lt.
  rewrite Nat2N.inj_succ, N.pow_succ_r' in Hn, Hm.
  apply IH in Hr; [|apply N.Div0.div_lt_upper_bound; lia..].
  rewrite (N.div_mod' n 256), (N.div_mod' m 256). congruence.
Qed.

Lemma PutUint64_inj n m : n < 2 ^ 64 → m < 2 ^ 64 → PutUint64 n = PutUint64 m → n = m.
Proof. apply (le_bytes_inj 8). Qed.

(** *** Base64 *)

Lemma b64_digit_value n : n < 64 → b64_value false (b64_digit n) = Some n.
Proof.
  intros Hn. eapply bool_decide_eq_true_1.
  revert n Hn. apply (N_forall_lt _ 64). vm_compute. done.
Qed.

Definition b64_char (c : ascii) : bool := bool_decide (is_Some (b64_value false c)) || (c =? "=")%char.

Lemma b64_digit_char n : n < 64 → b64_char (b64_digit n) = true.
Proof. intros Hn. unfold b64_char. by rewrite b64_digit_value. Qed.

(** Induction in steps of three bytes. *)
Lemma string_ind3 (P : string → Prop) :
  P EmptyString → (∀ x, P (String x EmptyString)) →
  (∀ x y, P (String x (String y EmptyString))) →
  (∀ x y z s, P s → P (String x (String y (String z s)))) → ∀ s, P s.
Proof.
  intros H0 H1 H2 H3 s.
  enough (P s ∧ (∀ x, P (String x s)) ∧ (∀ x y, P (String x (String y s)))) by tauto.
  induction s as [|c s (IH1 & IH2 & IH3)]; eauto.
Qed.

Lemma b64_eq_none : b64_value false "=" = None.
Proof. done. Qed.

Ltac b64_digits :=
  repeat match goal with
  | |- context [b64_value false (b64_digit ?n)] =>
      rewrite (b64_digit_value n) by
        (try (by apply N.mod_lt); apply N.Div0.div_lt_upper_bound; lia)
  end.

Lemma b64_decode_encode s : b64_decode false true (b64_EncodeToString s) = Some s.
Proof.
  induction s as [|x|x y|x y z s IH] using string_ind3; [done|..];
    pose proof (code_lt x); try pose proof (code_lt y); try pose proof (code_lt z);
    cbn [b64_EncodeToString b64_decode]; rewrite ?b64_eq_none; b64_digits; simpl.
  - unfold b64_one. do 3 f_equal. rewrite <- (byte_of_code x) at 3. f_equal.
    rewrite N.mul_comm, <- N.div_mod'. by rewrite N.div_mul.
  - unfold b64_two. do 2 f_equal; [|f_equal];
      [rewrite <- (byte_of_code x) at 4|rewrite <- (byte_of_code y) at 4]; f_equal;
      zify; Z.to_euclidean_division_equations; lia.
  - rewrite IH. simpl. unfold b64_three. do 2 f_equal; [|f_equal; [|f_equal]];
      [rewrite <- (byte_of_code x) at 5|rewrite <- (byte_of_code y) at 5|rewrite <- (byte_of_code z) at 5];
      f_equal; zify; Z.to_euclidean_division_equations; lia.
Qed.

(** The digits of text without '?' and without bytes above 126 hold no slash. *)
Definition no_slash_src (c : ascii) : bool := (code c <? 127) && negb (code c =? 63).

Lemma no_slash_src_spec c : no_slash_src c = true → code c < 127 ∧ code c ≠ 63.
Proof. unfold no_slash_src. by rewrite andb_true_iff, N.ltb_lt, negb_true_iff, N.eqb_neq. Qed.

(** A digit that is not the last of the alphabet. *)
Definition b64_noslash (c : ascii) : bool := b64_char c && negb (c =? "/")%char.

Lemma b64_digit_noslash n : n < 63 → b64_noslash (b64_digit n) = true.
Proof. revert n. apply (N_forall_lt _ 63). vm_compute. done. Qed.

Lemma b64_encode_noslash s :
  str_forall no_slash_src s = true → str_forall b64_noslash (b64_EncodeToString s) = true.
Proof.
  induction s as [|x|x y|x y z s IH] using string_ind3; [done|..]; simpl str_forall;
    rewrite ?andb_true_iff; intros Hs; cbn [b64_EncodeToString str_forall];
    destruct_and?; repeat match goal with
      H : no_slash_src _ = true |- _ => apply no_slash_src_spec in H as [? ?] end;
    rewrite !b64_digit_noslash by (zify; Z.to_euclidean_division_equations; lia); [done..|].
  by rewrite IH.
Qed.

Lemma b64_noslash_plain c :
  b64_noslash c = true →
  path_plain c = true ∧ trimmed_char c = true ∧ not_eol c = true ∧ (c =? "%")%char = false ∧ (c =? "/")%char = false.
Proof.
  intros Hc.
  enough (implb (b64_noslash c) (path_plain c && trimmed_char c && not_eol c &&
            negb (c =? "%")%char && negb (c =? "/")%char) = true) as E.
  { rewrite Hc in E. simpl in E. rewrite !andb_true_iff, !negb_true_iff in E. tauto. }
  clear Hc. by_bytes c.
Qed.

Lemma str_filter_id p s : str_forall p s = true → str_filter p s = s.
Proof. induction s; simpl; [done|]. intros [-> ?]%andb_true_iff. f_equal. auto. Qed.

Lemma PathEscape_plain s : str_forall path_plain s = true → PathEscape s = s.
Proof. induction s; simpl; [done|]. intros [-> ?]%andb_true_iff. f_equal. auto. Qed.

Lemma PathUnescape_id s :
  str_forall (λ c, negb (c =? "%")%char) s = true → PathUnescape s = Some s.
Proof.
  induction s as [|c s IH]; [done|]. simpl str_forall. intros [Hc ?]%andb_true_iff.
  cbn [PathUnescape]. apply negb_true_iff in Hc. rewrite Hc, IH by done. done.
Qed.

Lemma split_no_sep sep s cur :
  str_forall (λ c, negb (c =? sep)%char) s = true → split_go sep s cur = [str_rev cur +:+ s].
Proof.
  revert cur. induction s as [|c s IH]; intros cur; simpl; [by rewrite str_app_nil_r|].
  intros [Hc ?]%andb_true_iff. apply negb_true_iff in Hc. rewrite Hc, IH by done.
  by rewrite str_rev_cons, str_app_assoc.
Qed.

Lemma split_sep sep a b cur :
  str_forall (λ c, negb (c =? sep)%char) a = true →
  split_go sep (a +:+ String sep b) cur = (str_rev cur +:+ a) :: split_go sep b EmptyString.
Proof.
  revert cur. induction a as [|c a IH]; intros cur.
  - rewrite str_app_nil_l, str_app_nil_r. cbn [split_go]. by rewrite Ascii.eqb_refl.
  - cbn [str_forall]. intros [Hc Ha]%andb_true_iff. apply negb_true_iff in Hc.
    rewrite str_app_cons. cbn [split_go]. rewrite Hc, IH by done. by rewrite str_rev_cons, str_app_assoc.
Qed.

(** *** PathEscape *)

Lemma upper_hex_digit_value n : n < 16 → hex_value (upper_hex_digit n) = Some n.
Proof.
  intros Hn. eapply bool_decide_eq_true_1.
  revert n Hn. apply (N_forall_lt _ 16). vm_compute. done.
Qed.

Lemma path_plain_not_percent c : path_plain c = true → (c =? "%")%char = false.
Proof.
  intros H. enough (implb (path_plain c) (negb (c =? "%")%char) = true) as E.
  { rewrite H in E. by apply negb_true_iff. }
  clear H. by_bytes c.
Qed.

Lemma PathUnescape_PathEscape s : PathUnescape (PathEscape s) = Some s.
Proof.
  induction s as [|c s IH]; [done|]. cbn [PathEscape].
  destruct (path_plain c) eqn:E.
  - cbn [PathUnescape]. by rewrite path_plain_not_percent, IH.
  - cbn [PathUnescape]. change ("%" =? "%")%char with true. cbn iota.
    rewrite !upper_hex_digit_value, IH by auto with gostr.
    by rewrite <- (N.div_mod' (code c) 16), byte_of_code.
Qed.

(** ** strconv.Itoa on a natural number *)

Definition Itoa (n : N) : string := pretty n.

Lemma pretty_char_code n : n < 10 → code (pretty_N_char n) = 48 + n.
Proof.
  intros Hn. apply N.eqb_eq. revert n Hn. apply (N_forall_lt _ 10). vm_compute. done.
Qed.

Lemma pretty_char_digit n : is_digit (pretty_N_char (n mod 10)) = true.
Proof.
  assert (n mod 10 < 10) by by apply N.mod_lt.
  unfold is_digit, in_range. rewrite pretty_char_code by done.
  apply andb_true_iff. rewrite !N.leb_le. generalize dependent (n mod 10). lia.
Qed.

(** A positive number starts with a non-zero digit, and holds only digits. *)
Lemma pretty_N_go_digits x s :
  0 < x → str_forall is_digit s = true →
  ∃ c t, pretty_N_go x s = String c t ∧ code c ≠ 48 ∧ str_forall is_digit (String c t) = true.
Proof.
  revert s. induction (N.lt_wf_0 x) as [x _ IH]; intros s Hx Hs.
  rewrite pretty_N_go_step by lia.
  destruct (decide (x < 10)) as [Hlt|Hge].
  - rewrite N.div_small, pretty_N_go_0 by done. eexists _, _. split; [done|].
    rewrite N.mod_small, pretty_char_code by done. split; [lia|]. simpl. rewrite Hs.
    rewrite <- (N.mod_small x 10) by done. by rewrite pretty_char_digit.
  - apply IH; [apply N.div_lt; lia| |simpl; by rewrite pretty_char_digit].
    apply N.div_str_pos. lia.
Qed.

(** *** Numbers inside names *)

Lemma str_split_at (p : ascii → bool) c s s' t t' :
  p c = false → str_forall p s = true → str_forall p s' = true → s +:+ String c t = s' +:+ String c t' → s = s' ∧ t = t'.
Proof.
  intros Hc. revert s'. induction s as [|a s IH]; intros [|a' s']; cbn.
  - by intros _ _ [= ->].
  - intros _ [Ha _]%andb_true_iff [= <- _]. congruence.
  - intros [Ha _]%andb_true_iff _ [= -> _]. congruence.
  - intros [_ Hs]%andb_true_iff [_ Hs']%andb_true_iff [= -> E]. by destruct (IH _ Hs Hs' E) as [-> ->].
Qed.

Lemma Itoa_digits n : str_forall is_digit (Itoa n) = true.
Proof.
  unfold Itoa, pretty, pretty_N. case_decide as E; [done|]. destruct (pretty_N_go_digits n "") as (c & t & -> & _ & Hd); [lia|done|done].
Qed.

Lemma Itoa_inj n m : Itoa n = Itoa m → n = m.
Proof. apply (inj pretty). Qed.

(** ** Sorting *)

(** [a <= b] and [a < b] of texts, byte by byte. *)
Definition string_le (a b : string) : bool := match String.compare a b with Gt => false | _ => true end.
Definition string_lt (a b : string) : bool := match String.compare a b with Lt => true | _ => false end.

(** [sort.Strings]. *)
Fixpoint insert_sorted (x : string) (l : list string) : list string :=
  match l with [] => [x] | y :: l' => if string_le x y then x :: l else y :: insert_sorted x l' end.
Definition sort_strings (l : list string) : list string := foldr insert_sorted [] l.

Lemma insert_sorted_perm x l : insert_sorted x l ≡ₚ x :: l.
Proof. induction l as [|y l IH]; cbn; [done|]. case_match; [done|]. rewrite IH. apply Permutation_swap. Qed.

Lemma sort_strings_perm l : sort_strings l ≡ₚ l.
Proof. induction l as [|x l IH]; cbn; [done|]. by rewrite insert_sorted_perm, IH. Qed.

Lemma ascii_lt_trans a b c : Ascii.compare a b = Lt → Ascii.compare b c = Lt → Ascii.compare a c = Lt.
Proof. unfold Ascii.compare. rewrite !N.compare_lt_iff. lia. Qed.

Lemma string_compare_trans a b c : String.compare a b = Lt → String.compare b c = Lt → String.compare a c = Lt.
Proof.
  revert b c. induction a as [|x a IH]; intros [|y b] [|z c]; cbn; try done.
  destruct (Ascii.compare x y) eqn:E1, (Ascii.compare y z) eqn:E2; try done; intros H1 H2.
  - apply Ascii.compare_eq_iff in E1 as ->. rewrite E2. by eapply IH.
  - apply Ascii.compare_eq_iff in E1 as ->. by rewrite E2.
  - apply Ascii.compare_eq_iff in E2 as ->. by rewrite E1.
  - by rewrite (ascii_lt_trans x y z).
Qed.

Lemma string_le_refl a : string_le a a = true.
Proof. unfold string_le. pose proof (String.compare_antisym a a) as E. by destruct (String.compare a a). Qed.

Lemma string_le_antisym a b : string_le a b = true → string_le b a = true → a = b.
Proof.
  unfold string_le. rewrite (String.compare_antisym b a). destruct (String.compare a b) eqn:E; cbn; try done.
  intros _ _. by apply String.compare_eq_iff.
Qed.

Lemma string_lt_le a b : string_lt a b = true → string_le a b = true.
Proof. unfold string_lt, string_le. by destruct (String.compare a b). Qed.

Lemma string_lt_false a b : string_lt a b = false → string_le b a = true.
Proof. unfold string_lt, string_le. rewrite (String.compare_antisym b a). by destruct (String.compare a b). Qed.

Lemma string_lt_le_trans a b c : string_lt a b = true → string_le b c = true → string_le a c = true.
Proof.
  unfold string_lt, string_le. destruct (String.compare a b) eqn:E1; try done. intros _.
  destruct (String.compare b c) eqn:E2; try done; intros _.
  - apply String.compare_eq_iff in E2 as ->. by rewrite E1.
  - by rewrite (string_compare_trans a b c).
Qed.
