(* ===== verification/Json.v ===== *)
(** * Go's encoding/json

    The JSON text syntax as [encoding/json] reads it ([json_parse]), the
    string encoding [json.Marshal] writes ([json_string]), and the rules by
    which a JSON value is stored into a Go struct field ([field_match]:
    exact key, or Unicode-folded key).  The components decode the parsed
    value into their own records. *)

From S2P Require Import Prelude GoStrings.
From Stdlib Require Import Ascii String.
From stdpp Require Import pretty.
Local Open Scope N_scope.

(** A number keeps its literal: what it means depends on the target type. *)
Inductive json : Type :=
| JNull
| JBool (b : bool)
| JNum (lit : string)
| JStr (s : string)
| JArr (l : list json)
| JObj (l : list (string * json)).

(** ** Text to value *)

Definition is_json_space (c : ascii) : bool :=
  (code c =? 32) || (code c =? 9) || (code c =? 10) || (code c =? 13).

Fixpoint skip_ws (s : string) : string :=
  match s with
  | String c s' => if is_json_space c then skip_ws s' else s
  | EmptyString => EmptyString
  end.

(** UTF-8 encoding of a code point. *)
Definition utf8_encode (r : N) : string :=
  if r <? 128 then String (byte_of r) EmptyString
  else if r <? 2048 then
    String (byte_of (192 + r / 64)) (String (byte_of (128 + r mod 64)) EmptyString)
  else if r <? 65536 then
    String (byte_of (224 + r / 4096)) (String (byte_of (128 + r / 64 mod 64))
      (String (byte_of (128 + r mod 64)) EmptyString))
  else
    String (byte_of (240 + r / 262144)) (String (byte_of (128 + r / 4096 mod 64))
      (String (byte_of (128 + r / 64 mod 64)) (String (byte_of (128 + r mod 64)) EmptyString))).

Definition rune_error : string := utf8_encode 65533.

Definition cont : ascii → bool := in_range 128 191.
Definition ok2 (a b : ascii) : bool := in_range 194 223 a && cont b.
Definition ok3 (a b c : ascii) : bool :=
  cont c &&
  ((code a =? 224) && in_range 160 191 b ||
   (code a =? 237) && in_range 128 159 b ||
   (in_range 225 236 a || in_range 238 239 a) && cont b).
Definition ok4 (a b c d : ascii) : bool :=
  cont c && cont d &&
  ((code a =? 240) && in_range 144 191 b ||
   (code a =? 244) && in_range 128 143 b ||
   in_range 241 243 a && cont b).

(** Replace each byte that starts no valid UTF-8 sequence by U+FFFD. *)
Fixpoint utf8_fix (s : string) : string :=
  match s with
  | EmptyString => EmptyString
  | String a s1 =>
      if is_ascii a then String a (utf8_fix s1)
      else match s1 with
      | EmptyString => rune_error
      | String b s2 =>
          if ok2 a b then String a (String b (utf8_fix s2))
          else match s2 with
          | EmptyString => rune_error +:+ utf8_fix s1
          | String c s3 =>
              if ok3 a b c then String a (String b (String c (utf8_fix s3)))
              else match s3 with
              | EmptyString => rune_error +:+ utf8_fix s1
              | String d s4 =>
                  if ok4 a b c d then String a (String b (String c (String d (utf8_fix s4))))
                  else rune_error +:+ utf8_fix s1
              end
          end
      end
  end.

Definition hex4 (a b c d : ascii) : option N :=
  match hex_value a, hex_value b, hex_value c, hex_value d with
  | Some a, Some b, Some c, Some d => Some (((a * 16 + b) * 16 + c) * 16 + d)
  | _, _, _, _ => None
  end.

Definition is_hi_surrogate (r : N) : bool := (55296 <=? r) && (r <=? 56319).
Definition is_lo_surrogate (r : N) : bool := (56320 <=? r) && (r <=? 57343).

Definition dquote : ascii := byte_of 34.
Definition bslash : ascii := byte_of 92.

Definition simple_escape (c : ascii) : option ascii :=
  let n := code c in
  if n =? 34 then Some dquote
  else if n =? 92 then Some bslash
  else if n =? 47 then Some (byte_of 47)
  else if n =? 98 then Some (byte_of 8)
  else if n =? 102 then Some (byte_of 12)
  else if n =? 110 then Some (byte_of 10)
  else if n =? 114 then Some (byte_of 13)
  else if n =? 116 then Some (byte_of 9)
  else None.

(** The text after the opening quote: the string, escapes resolved, and
    what follows the closing quote.  A lone surrogate is U+FFFD. *)
Fixpoint string_body (s : string) : option (string * string) :=
  match s with
  | EmptyString => None
  | String c s1 =>
      if code c =? 34 then Some (EmptyString, s1)
      else if code c <? 32 then None
      else if code c =? 92 then
        match s1 with
        | EmptyString => None
        | String e s2 =>
            if code e =? 117 then
              match s2 with
              | String a (String b (String c' (String d s3))) =>
                  match hex4 a b c' d with
                  | None => None
                  | Some r =>
                      if is_hi_surrogate r then
                        match s3 with
                        | String b1 (String u1 (String a1 (String b2 (String c2 (String d2 s4))))) =>
                            match hex4 a1 b2 c2 d2 with
                            | Some lo =>
                                if (code b1 =? 92) && (code u1 =? 117) && is_lo_surrogate lo then
                                  prod_map (String.append (utf8_encode
                                    (65536 + (r - 55296) * 1024 + (lo - 56320)))) id <$> string_body s4
                                else prod_map (String.append rune_error) id <$> string_body s3
                            | None => prod_map (String.append rune_error) id <$> string_body s3
                            end
                        | _ => prod_map (String.append rune_error) id <$> string_body s3
                        end
                      else
                        prod_map (String.append (if is_lo_surrogate r then rune_error
                                                 else utf8_encode r)) id <$> string_body s3
                  end
              | _ => None
              end
            else match simple_escape e with
                 | Some x => prod_map (String x) id <$> string_body s2
                 | None => None
                 end
        end
      else prod_map (String c) id <$> string_body s1
  end.

Definition parse_string (s : string) : option (string * string) :=
  prod_map utf8_fix id <$> string_body s.

Fixpoint digits (s : string) : string * string :=
  match s with
  | String c s' => if is_digit c then prod_map (String c) id (digits s') else (EmptyString, s)
  | EmptyString => (EmptyString, EmptyString)
  end.

(** The three parts of a number literal, each with the rest of the text. *)
Definition num_int (s : string) : option (string * string) :=
  match s with
  | String c s' =>
      if code c =? 48 then Some (String c EmptyString, s')
      else if is_digit c then Some (digits s) else None
  | EmptyString => None
  end.

Definition num_frac (s : string) : option (string * string) :=
  match s with
  | String c s' =>
      if code c =? 46 then
        match digits s' with (EmptyString, _) => None | (d, r) => Some (String c d, r) end
      else Some (EmptyString, s)
  | EmptyString => Some (EmptyString, EmptyString)
  end.

Definition num_exp (s : string) : option (string * string) :=
  match s with
  | String c s' =>
      if (code c =? 101) || (code c =? 69) then
        let '(sg, s2) := match s' with
                         | String g t => if (code g =? 43) || (code g =? 45)
                                         then (String g EmptyString, t) else (EmptyString, s')
                         | EmptyString => (EmptyString, s')
                         end in
        match digits s2 with (EmptyString, _) => None | (d, r) => Some (String c (sg +:+ d), r) end
      else Some (EmptyString, s)
  | EmptyString => Some (EmptyString, EmptyString)
  end.

Definition parse_number (s : string) : option (string * string) :=
  let '(sg, s1) := match s with
                   | String c t => if code c =? 45 then (String c EmptyString, t) else (EmptyString, s)
                   | EmptyString => (EmptyString, s)
                   end in
  '(i, s2) ← num_int s1; '(f, s3) ← num_frac s2; '(e, s4) ← num_exp s3;
  Some (sg +:+ i +:+ f +:+ e, s4).

Definition literal (w : string) (j : json) (s : string) : option (json * string) :=
  if String.prefix w s then Some (j, str_drop (String.length w) s) else None.

(** Nesting deeper than this is an error. *)
Definition maxNestingDepth : N := 10000.

(** A value, the elements of an array after its bracket or a comma, the
    members of an object after its brace or a comma. *)
Fixpoint parse_value (fuel : nat) (depth : N) (s : string) : option (json * string) :=
  match fuel with
  | O => None
  | S fuel =>
      match skip_ws s with
      | EmptyString => None
      | String c r =>
          let n := code c in
          if n =? 123 then
            if maxNestingDepth <=? depth then None else
            match skip_ws r with
            | String c2 r2 => if code c2 =? 125 then Some (JObj [], r2)
                              else prod_map JObj id <$> parse_members fuel (depth + 1) r
            | EmptyString => None
            end
          else if n =? 91 then
            if maxNestingDepth <=? depth then None else
            match skip_ws r with
            | String c2 r2 => if code c2 =? 93 then Some (JArr [], r2)
                              else prod_map JArr id <$> parse_elems fuel (depth + 1) r
            | EmptyString => None
            end
          else if n =? 34 then prod_map JStr id <$> parse_string r
          else if n =? 116 then literal "true" (JBool true) (String c r)
          else if n =? 102 then literal "false" (JBool false) (String c r)
          else if n =? 110 then literal "null" JNull (String c r)
          else prod_map JNum id <$> parse_number (String c r)
      end
  end
with parse_elems (fuel : nat) (depth : N) (s : string) : option (list json * string) :=
  match fuel with
  | O => None
  | S fuel =>
      '(j, r) ← parse_value fuel depth s;
      match skip_ws r with
      | String c r2 =>
          if code c =? 44 then prod_map (cons j) id <$> parse_elems fuel depth r2
          else if code c =? 93 then Some ([j], r2) else None
      | EmptyString => None
      end
  end
with parse_members (fuel : nat) (depth : N) (s : string) : option (list (string * json) * string) :=
  match fuel with
  | O => None
  | S fuel =>
      match skip_ws s with
      | String q s1 =>
          if code q =? 34 then
            '(k, s2) ← parse_string s1;
            match skip_ws s2 with
            | String col s3 =>
                if code col =? 58 then
                  '(j, r) ← parse_value fuel depth s3;
                  match skip_ws r with
                  | String c r2 =>
                      if code c =? 44 then prod_map (cons (k, j)) id <$> parse_members fuel depth r2
                      else if code c =? 125 then Some ([(k, j)], r2) else None
                  | EmptyString => None
                  end
                else None
            | EmptyString => None
            end
          else None
      | EmptyString => None
      end
  end.

(** json.Unmarshal's syntax: one value, surrounded by white space only.
    Every call reads at least one byte before the next two calls, so twice
    the length is enough fuel. *)
Definition json_parse (s : string) : option json :=
  '(j, r) ← parse_value (2 * String.length s + 2) 0 s;
  match skip_ws r with EmptyString => Some j | _ => None end.

(** ** Value to text *)

Definition u_escape (n : N) : string :=
  String bslash (String "u" (String (hex_digit (n / 4096)) (String (hex_digit (n / 256 mod 16))
    (String (hex_digit (n / 16 mod 16)) (String (hex_digit (n mod 16)) EmptyString))))).

Definition escape_byte (c : ascii) : string :=
  let n := code c in
  if (n =? 34) || (n =? 92) then String bslash (String c EmptyString)
  else if n =? 8 then String bslash "b"
  else if n =? 12 then String bslash "f"
  else if n =? 10 then String bslash "n"
  else if n =? 13 then String bslash "r"
  else if n =? 9 then String bslash "t"
  else if (n <? 32) || (n =? 60) || (n =? 62) || (n =? 38) then u_escape n
  else String c EmptyString.

(** Escapes of an ASCII byte, of U+2028 and U+2029, and of what is not
    UTF-8; other text is copied. *)
Fixpoint escape_body (s : string) : string :=
  match s with
  | EmptyString => EmptyString
  | String a s1 =>
      if is_ascii a then escape_byte a +:+ escape_body s1
      else match s1 with
      | EmptyString => u_escape 65533
      | String b s2 =>
          if ok2 a b then String a (String b (escape_body s2))
          else match s2 with
          | EmptyString => u_escape 65533 +:+ escape_body s1
          | String c s3 =>
              if ok3 a b c then
                (if (code a =? 226) && (code b =? 128) && ((code c =? 168) || (code c =? 169))
                 then u_escape (8232 + (code c - 168))
                 else String a (String b (String c EmptyString))) +:+ escape_body s3
              else match s3 with
              | EmptyString => u_escape 65533 +:+ escape_body s1
              | String d s4 =>
                  if ok4 a b c d then String a (String b (String c (String d (escape_body s4))))
                  else u_escape 65533 +:+ escape_body s1
              end
          end
      end
  end.

Definition json_string (s : string) : string :=
  String dquote (escape_body s +:+ String dquote EmptyString).

(** ** Struct fields *)

(** Folded name: ASCII letters in upper case, U+017F as S, U+212A as K. *)
Fixpoint fold_name (s : string) : string :=
  match s with
  | EmptyString => EmptyString
  | String a s1 =>
      let plain := String (upper_ascii a) (fold_name s1) in
      match s1 with
      | EmptyString => plain
      | String b s2 =>
          if (code a =? 197) && (code b =? 191) then String "S" (fold_name s2)
          else match s2 with
          | EmptyString => plain
          | String c s3 =>
              if (code a =? 226) && (code b =? 132) && (code c =? 170)
              then String "K" (fold_name s3) else plain
          end
      end
  end.

(** The field of [names] an object key is stored into. *)
Definition field_match (names : list string) (key : string) : option nat :=
  match list_find (λ n, n = key) names with
  | Some (i, _) => Some i
  | None => fst <$> list_find (λ n, fold_name n = fold_name key) names
  end.

(** Evaluate [field_match] on literal names and keys. *)
Ltac eval_fields :=
  repeat match goal with
  | |- context [field_match ?l ?k] =>
      let v := eval vm_compute in (field_match l k) in
      change (field_match l k) with v; cbn iota beta
  end.

(** Storing into a bool, a string, a byte of a [[]uint8]. *)
Definition into_bool (j : json) (old : bool) : option bool :=
  match j with JBool b => Some b | JNull => Some old | _ => None end.

Definition into_string (j : json) (old : string) : option string :=
  match j with JStr s => Some s | JNull => Some old | _ => None end.

(** Storing an object into a struct: [set i j v] stores [j] into field [i].
    Keys that name no field are skipped; [null] leaves the struct. *)
Definition into_struct {T} (names : list string) (set : nat → json → T → option T)
    (j : json) (old : T) : option T :=
  match j with
  | JNull => Some old
  | JObj kvs =>
      foldl (λ acc kv, t ← acc;
               match field_match names kv.1 with Some i => set i kv.2 t | None => Some t end)
            (Some old) kvs
  | _ => None
  end.

(** Storing into a pointer to a struct, allocated with [zero] when nil. *)
Definition into_ptr {T} (into : json → T → option T) (zero : T)
    (j : json) (old : option T) : option (option T) :=
  match j with
  | JNull => Some None
  | _ => Some <$> into j (default zero old)
  end.

(** An unsigned decimal literal below [bound], as [strconv.ParseUint]. *)
Fixpoint parse_uint_go (s : string) (acc : N) : option N :=
  match s with
  | EmptyString => Some acc
  | String c s' => if is_digit c then parse_uint_go s' (acc * 10 + (code c - 48)) else None
  end.
Definition parse_uint (bound : N) (s : string) : option N :=
  match s with
  | EmptyString => None
  | _ => n ← parse_uint_go s 0; if n <? bound then Some n else None
  end.

(** ** json.Marshal and json.MarshalIndent

    A layout gives the white space a printer puts at a line break of a given
    nesting and after a colon: none for [json.Marshal], a new line and the
    indentation for [json.MarshalIndent]. *)
Record layout := Layout { nl : nat → string; colon : string }.

Definition compact : layout := Layout (λ _, EmptyString) EmptyString.

Fixpoint indent2 (n : nat) : string :=
  match n with O => EmptyString | S n => String " " (String " " (indent2 n)) end.
(** MarshalIndent with an empty prefix and a two-space indent. *)
Definition indented : layout := Layout (λ n, String (byte_of 10) (indent2 n)) " ".

Section print.
Context (L : layout).

Fixpoint json_print (ind : nat) (j : json) : string :=
  match j with
  | JNull => "null"
  | JBool b => if b then "true" else "false"
  | JNum lit => lit
  | JStr s => json_string s
  | JArr [] => "[]"
  | JArr l =>
      String "[" (nl L (S ind) +:+
        (fix elems l := match l with
           | [] => EmptyString
           | [x] => json_print (S ind) x +:+ nl L ind +:+ "]"
           | x :: l => json_print (S ind) x +:+ String "," (nl L (S ind) +:+ elems l)
           end) l)
  | JObj [] => "{}"
  | JObj kvs =>
      String "{" (nl L (S ind) +:+
        (fix members kvs := match kvs with
           | [] => EmptyString
           | [(k, x)] => json_string k +:+ String ":" (colon L +:+ json_print (S ind) x +:+ nl L ind +:+ "}")
           | (k, x) :: kvs => json_string k +:+ String ":" (colon L +:+ json_print (S ind) x +:+
                                String "," (nl L (S ind) +:+ members kvs))
           end) kvs)
  end.

(** The text of a non-empty array after its bracket, and of a non-empty
    object after its brace, each up to and including the closing one. *)
Fixpoint print_elems (ind : nat) (l : list json) : string :=
  match l with
  | [] => EmptyString
  | [x] => json_print (S ind) x +:+ nl L ind +:+ "]"
  | x :: l => json_print (S ind) x +:+ String "," (nl L (S ind) +:+ print_elems ind l)
  end.

Fixpoint print_members (ind : nat) (kvs : list (string * json)) : string :=
  match kvs with
  | [] => EmptyString
  | [(k, x)] => json_string k +:+ String ":" (colon L +:+ json_print (S ind) x +:+ nl L ind +:+ "}")
  | (k, x) :: kvs => json_string k +:+ String ":" (colon L +:+ json_print (S ind) x +:+
                       String "," (nl L (S ind) +:+ print_members ind kvs))
  end.

Lemma print_elems_one ind x : print_elems ind [x] = json_print (S ind) x +:+ nl L ind +:+ "]".
Proof. done. Qed.

Lemma print_elems_more ind x y l :
  print_elems ind (x :: y :: l) =
  json_print (S ind) x +:+ String "," (nl L (S ind) +:+ print_elems ind (y :: l)).
Proof. done. Qed.

Lemma print_members_one ind k x :
  print_members ind [(k, x)] =
  json_string k +:+ String ":" (colon L +:+ json_print (S ind) x +:+ nl L ind +:+ "}").
Proof. done. Qed.

Lemma print_members_more ind k x kv kvs :
  print_members ind ((k, x) :: kv :: kvs) =
  json_string k +:+ String ":" (colon L +:+ json_print (S ind) x +:+
    String "," (nl L (S ind) +:+ print_members ind (kv :: kvs))).
Proof. done. Qed.

Lemma json_print_arr ind x l :
  json_print ind (JArr (x :: l)) = String "[" (nl L (S ind) +:+ print_elems ind (x :: l)).
Proof.
  cbn [json_print]. do 2 f_equal. revert x. induction l as [|y l IH]; intros x; [done|].
  rewrite (IH y). done.
Qed.

Lemma json_print_obj ind kv kvs :
  json_print ind (JObj (kv :: kvs)) = String "{" (nl L (S ind) +:+ print_members ind (kv :: kvs)).
Proof.
  cbn [json_print]. do 2 f_equal. revert kv. induction kvs as [|y kvs IH]; intros [k x]; [done|].
  rewrite (IH y). done.
Qed.

End print.

(** json.Marshal, json.MarshalIndent(v, "", "  ") and json.Encoder.Encode of
    a value already turned into a tree. *)
Definition json_Marshal (j : json) : string := json_print compact 0 j.
Definition json_MarshalIndent (j : json) : string := json_print indented 0 j.
Definition json_Encode (j : json) : string := json_Marshal j +:+ String (byte_of 10) EmptyString.

(** Well-formed trees: valid UTF-8 strings, decimal integer literals. *)
Definition utf8_valid (s : string) : bool := (utf8_fix s =? s)%string.

Definition nat_lit (s : string) : bool :=
  match s with
  | EmptyString => false
  | String c s' => if code c =? 48 then (s' =? "")%string else str_forall is_digit s
  end.
Definition int_lit (s : string) : bool :=
  match s with
  | String c s' => if code c =? 45 then nat_lit s' else nat_lit s
  | EmptyString => false
  end.

Fixpoint json_wf (j : json) : bool :=
  match j with
  | JNull | JBool _ => true
  | JNum lit => int_lit lit
  | JStr s => utf8_valid s
  | JArr l => forallb json_wf l
  | JObj kvs => forallb (λ kv, utf8_valid kv.1 && json_wf kv.2) kvs
  end.

Fixpoint json_depth (j : json) : N :=
  match j with
  | JArr l => 1 + foldr (λ j n, N.max (json_depth j) n) 0 l
  | JObj kvs => 1 + foldr (λ kv n, N.max (json_depth kv.2) n) 0 kvs
  | _ => 0
  end.

(** ** Lemmas: strings *)

(** Induction that follows [utf8_fix]: an ASCII byte, a valid sequence of two,
    three or four bytes, or a byte that starts none. *)
Lemma utf8_ind (P : string → Prop) :
  P EmptyString →
  (∀ a s, is_ascii a = true → P s → P (String a s)) →
  (∀ a b s, is_ascii a = false → ok2 a b = true → P s → P (String a (String b s))) →
  (∀ a b c s, is_ascii a = false → ok2 a b = false → ok3 a b c = true → P s →
     P (String a (String b (String c s)))) →
  (∀ a b c d s, is_ascii a = false → ok2 a b = false → ok3 a b c = false → ok4 a b c d = true → P s →
     P (String a (String b (String c (String d s))))) →
  (∀ a s, is_ascii a = false →
     utf8_fix (String a s) = rune_error +:+ utf8_fix s →
     escape_body (String a s) = u_escape 65533 +:+ escape_body s → P s → P (String a s)) →
  ∀ s, P s.
Proof.
  intros H0 H1 H2 H3 H4 H5 s.
  enough (∀ n s, (String.length s ≤ n)%nat → P s) by eauto.
  clear s. induction n as [|n IH]; intros [|a s1] Hn; simpl in Hn; try done; [lia|].
  destruct (is_ascii a) eqn:Ea; [apply H1; [done|apply IH; lia]|].
  assert (P s1) as Hs1 by (apply IH; lia).
  destruct s1 as [|b s2]; [apply H5; auto; cbn [utf8_fix escape_body]; by rewrite Ea, str_app_nil_r|].
  destruct (ok2 a b) eqn:E2; [apply H2; auto; apply IH; simpl in *; lia|].
  destruct s2 as [|c s3]; [apply H5; auto; cbn [utf8_fix escape_body]; by rewrite ?Ea, ?E2|].
  destruct (ok3 a b c) eqn:E3; [apply H3; auto; apply IH; simpl in *; lia|].
  destruct s3 as [|d s4];
    [apply H5; auto; cbn [utf8_fix escape_body]; by rewrite ?Ea, ?E2, ?E3|].
  destruct (ok4 a b c d) eqn:E4; [apply H4; auto; apply IH; simpl in *; lia|].
  apply H5; auto; cbn [utf8_fix escape_body]; by rewrite ?Ea, ?E2, ?E3, ?E4.
Qed.

Lemma high_byte_plain c : is_ascii c = false → code c =? 34 = false ∧ code c <? 32 = false ∧ code c =? 92 = false.
Proof. unfold is_ascii. rewrite N.ltb_ge, !N.eqb_neq, N.ltb_ge. lia. Qed.

Lemma string_body_high c s :
  is_ascii c = false → string_body (String c s) = prod_map (String c) id <$> string_body s.
Proof. intros (E1 & E2 & E3)%high_byte_plain. cbn [string_body]. by rewrite E1, E2, E3. Qed.

Lemma cont_high c : cont c = true → is_ascii c = false.
Proof. unfold cont, in_range, is_ascii. rewrite andb_true_iff, !N.leb_le, N.ltb_ge. tauto. Qed.

Lemma ok2_high a b : ok2 a b = true → is_ascii b = false.
Proof. intros [_ ?]%andb_true_iff. by apply cont_high. Qed.

Lemma in_range_high lo hi c : 128 <= lo → in_range lo hi c = true → is_ascii c = false.
Proof. unfold in_range, is_ascii. rewrite andb_true_iff, !N.leb_le, N.ltb_ge. lia. Qed.

Lemma ok3_high a b c : ok3 a b c = true → is_ascii b = false ∧ is_ascii c = false.
Proof.
  intros [Hc Hb]%andb_true_iff. split; [|by apply cont_high].
  apply orb_true_iff in Hb as [[[_ H]%andb_true_iff|[_ H]%andb_true_iff]%orb_true_iff|[_ H]%andb_true_iff];
    eapply in_range_high; try exact H; lia.
Qed.

Lemma ok4_high a b c d :
  ok4 a b c d = true → is_ascii b = false ∧ is_ascii c = false ∧ is_ascii d = false.
Proof.
  intros [[Hc Hd]%andb_true_iff Hb]%andb_true_iff. split_and!; [|by apply cont_high..].
  apply orb_true_iff in Hb as [[[_ H]%andb_true_iff|[_ H]%andb_true_iff]%orb_true_iff|[_ H]%andb_true_iff];
    eapply in_range_high; try exact H; lia.
Qed.

(** Reading back one escaped ASCII byte. *)
Lemma string_body_escape c s :
  is_ascii c = true →
  string_body (escape_byte c +:+ s) = prod_map (String c) id <$> string_body s.
Proof.
  destruct c as [[] [] [] [] [] [] [] []]; intros Ha;
    first [exfalso; clear -Ha; vm_compute in Ha; discriminate | reflexivity].
Qed.

Lemma string_body_u_escape_error s :
  string_body (u_escape 65533 +:+ s) = prod_map (String.append rune_error) id <$> string_body s.
Proof. done. Qed.

Lemma string_body_escape_body s rest :
  string_body (escape_body s +:+ String dquote rest) = Some (utf8_fix s, rest).
Proof.
  induction s as [|a s Ha IH|a b s Ha E2 IH|a b c s Ha E2 E3 IH|a b c d s Ha E2 E3 E4 IH|a s Ha Hf He IH]
    using utf8_ind; [done|..].
  - cbn [escape_body utf8_fix]. by rewrite Ha, str_app_assoc, string_body_escape, IH by done.
  - cbn [escape_body utf8_fix]. rewrite Ha, E2. simpl (_ +:+ _).
    by rewrite !string_body_high, IH by eauto using ok2_high.
  - cbn [escape_body utf8_fix]. rewrite Ha, E2, E3, str_app_assoc.
    destruct (ok3_high _ _ _ E3) as [Hb Hc].
    case_match eqn:E; [|simpl (_ +:+ _); by rewrite !string_body_high, IH by done].
    apply andb_true_iff in E as [[Ea Eb]%andb_true_iff Ec].
    apply N.eqb_eq in Ea, Eb. rewrite <- (byte_of_code a), <- (byte_of_code b), <- (byte_of_code c), Ea, Eb.
    apply orb_true_iff in Ec as [Ec|Ec]; apply N.eqb_eq in Ec; rewrite Ec;
      [transitivity (prod_map (String.append (utf8_encode 8232)) id <$>
         string_body (escape_body s +:+ String dquote rest))
      |transitivity (prod_map (String.append (utf8_encode 8233)) id <$>
         string_body (escape_body s +:+ String dquote rest))];
      first [by rewrite IH | done].
  - cbn [escape_body utf8_fix]. rewrite Ha, E2, E3, E4. simpl (_ +:+ _).
    destruct (ok4_high _ _ _ _ E4) as (? & ? & ?).
    by rewrite !string_body_high, IH by done.
  - by rewrite Hf, He, str_app_assoc, string_body_u_escape_error, IH.
Qed.

Lemma parse_json_string s rest :
  utf8_valid s = true →
  parse_string (escape_body s +:+ String dquote rest) = Some (s, rest).
Proof.
  intros Hs%String.eqb_eq. unfold parse_string. rewrite string_body_escape_body. simpl.
  by rewrite !Hs.
Qed.

(** ** Lemmas: numbers and white space *)

(** The text cannot continue a number literal. *)
Definition num_stop (s : string) : bool :=
  match s with
  | EmptyString => true
  | String c _ => negb (is_digit c || (code c =? 46) || (code c =? 101) || (code c =? 69))
  end.

Lemma digits_app d rest :
  str_forall is_digit d = true → num_stop rest = true → digits (d +:+ rest) = (d, rest).
Proof.
  intros Hd Hr. induction d as [|c d IH]; simpl in *.
  - destruct rest as [|c rest]; [done|]. simpl in *.
    apply negb_true_iff, orb_false_iff in Hr as [[[-> _]%orb_false_iff _]%orb_false_iff _]. done.
  - apply andb_true_iff in Hd as [-> Hd]. by rewrite IH.
Qed.

Lemma num_tail rest :
  num_stop rest = true → num_frac rest = Some (EmptyString, rest) ∧ num_exp rest = Some (EmptyString, rest).
Proof.
  destruct rest as [|c r]; [done|]. simpl.
  intros [[[_ ->]%orb_false_iff ->]%orb_false_iff ->]%negb_true_iff%orb_false_iff. done.
Qed.

Lemma num_int_lit lit rest :
  nat_lit lit = true → num_stop rest = true → num_int (lit +:+ rest) = Some (lit, rest).
Proof.
  destruct lit as [|c lit]; [done|]. intros Hl Hr. cbn [nat_lit] in Hl. simpl (_ +:+ _).
  cbn [num_int]. destruct (code c =? 48) eqn:E.
  - apply String.eqb_eq in Hl as ->. done.
  - assert (is_digit c = true) as -> by (by apply andb_true_iff in Hl as [? _]).
    by rewrite <- (digits_app (String c lit) rest).
Qed.

Lemma digit_codes c : is_digit c = true → 48 <= code c <= 57.
Proof. unfold is_digit, in_range. by rewrite andb_true_iff, !N.leb_le. Qed.

(** The first byte of an integer literal selects no other kind of value. *)
Lemma int_lit_head lit :
  int_lit lit = true → ∃ c l, lit = String c l ∧ (code c = 45 ∨ 48 <= code c <= 57).
Proof.
  destruct lit as [|c l]; [done|]. cbn [int_lit]. intros H. exists c, l. split; [done|].
  destruct (code c =? 45) eqn:E; [left; by apply N.eqb_eq|right].
  cbn [nat_lit] in H. destruct (code c =? 48) eqn:E0; [apply N.eqb_eq in E0; lia|].
  apply andb_true_iff in H as [H _]. by apply digit_codes.
Qed.

Lemma parse_number_lit lit rest :
  int_lit lit = true → num_stop rest = true → parse_number (lit +:+ rest) = Some (lit, rest).
Proof.
  intros Hl Hr. destruct (num_tail _ Hr) as [Hf He]. unfold parse_number.
  destruct lit as [|c l]; [done|]. cbn [int_lit] in Hl. simpl (String c l +:+ rest).
  destruct (code c =? 45) eqn:E; rewrite E; cbn iota beta.
  - rewrite num_int_lit by done. simpl. rewrite Hf. simpl. rewrite He. simpl.
    by rewrite !str_app_nil_r.
  - change (String c (l +:+ rest)) with (String c l +:+ rest).
    rewrite num_int_lit by done. simpl. rewrite Hf. simpl. rewrite He. simpl.
    by rewrite !str_app_nil_r.
Qed.

Definition all_ws : string → bool := str_forall is_json_space.

Lemma skip_ws_app w s : all_ws w = true → skip_ws (w +:+ s) = skip_ws s.
Proof. induction w as [|c w IH]; [done|]. simpl. by intros [-> ?]%andb_true_iff; auto. Qed.

Lemma skip_ws_head c s : is_json_space c = false → skip_ws (String c s) = String c s.
Proof. simpl. by intros ->. Qed.

Class LayoutOk (L : layout) : Prop := {
  nl_ws n : all_ws (nl L n) = true;
  colon_ws : all_ws (colon L) = true
}.

#[export] Instance compact_ok : LayoutOk compact.
Proof. done. Qed.

#[export] Instance indented_ok : LayoutOk indented.
Proof. split; [|done]. intros n. simpl. induction n; simpl; auto. Qed.

(** The first byte of a printed value is not white space. *)
Lemma json_print_head L ind j :
  json_wf j = true → ∃ c s, json_print L ind j = String c s ∧ is_json_space c = false.
Proof.
  destruct j as [|[]|lit|s|[|x l]|[|kv l]]; intros Hw; try (by eexists _, _).
  destruct (int_lit_head _ Hw) as (c & l & -> & Hc). eexists _, _. split; [done|].
  unfold is_json_space. rewrite !orb_false_iff, !N.eqb_neq. lia.
Qed.

Lemma skip_ws_print L ind j w rest :
  json_wf j = true → all_ws w = true →
  skip_ws (w +:+ json_print L ind j +:+ rest) = json_print L ind j +:+ rest.
Proof.
  intros Hj Hw. rewrite skip_ws_app by done.
  destruct (json_print_head L ind j Hj) as (c & s & -> & Hc). simpl (_ +:+ _).
  by apply skip_ws_head.
Qed.

(** What follows a value inside an array or object is no part of a number. *)
Lemma num_stop_ws w c s :
  all_ws w = true → num_stop (String c s) = true → num_stop (w +:+ String c s) = true.
Proof.
  destruct w as [|d w]; [done|]. simpl. intros [Hd _]%andb_true_iff _.
  unfold is_json_space in Hd. unfold is_digit, in_range.
  rewrite !orb_true_iff, !N.eqb_eq in Hd.
  apply negb_true_iff. rewrite !orb_false_iff, andb_false_iff, !N.leb_gt, !N.eqb_neq. lia.
Qed.

(** Induction over a tree with the hypothesis on every component. *)
Lemma json_ind' (P : json → Prop) :
  P JNull → (∀ b, P (JBool b)) → (∀ l, P (JNum l)) → (∀ s, P (JStr s)) →
  (∀ l, Forall P l → P (JArr l)) → (∀ kvs, Forall (λ kv, P kv.2) kvs → P (JObj kvs)) →
  ∀ j, P j.
Proof.
  intros HN HB HM HS HA HO. fix IH 1. intros [|b|l|s|l|kvs]; [done|apply HB|apply HM|apply HS|..].
  - apply HA. induction l as [|x l IHl]; constructor; [apply IH|apply IHl].
  - apply HO. induction kvs as [|[k x] kvs IHk]; constructor; [apply IH|apply IHk].
Qed.

(** ** The printed text parses back *)

Section print_parse.
Context (L : layout) `{!LayoutOk L}.

(** [j] printed at any nesting, after any white space and before anything
    that does not extend it, is read back, given enough fuel. *)
Definition parses (j : json) : Prop :=
  ∀ ind fuel d w rest,
    json_wf j = true → all_ws w = true → num_stop rest = true →
    d + json_depth j <= maxNestingDepth →
    (2 * String.length (json_print L ind j) ≤ fuel)%nat →
    parse_value fuel d (w +:+ json_print L ind j +:+ rest) = Some (j, rest).

Lemma parse_print_elems l :
  Forall parses l → ∀ ind fuel d w rest, l ≠ [] →
  forallb json_wf l = true → all_ws w = true →
  d + foldr (λ j n, N.max (json_depth j) n) 0 l <= maxNestingDepth →
  (2 * String.length (print_elems L ind l) + 1 ≤ fuel)%nat →
  parse_elems fuel d (w +:+ print_elems L ind l +:+ rest) = Some (l, rest).
Proof.
  induction 1 as [|x l Hx _ IH]; intros ind fuel d w rest Hne; [done|].
  cbn [forallb foldr]. intros [Hwf Hl]%andb_true_iff Hw Hd Hf.
  destruct fuel as [|fuel]; [lia|]. cbn [parse_elems].
  destruct l as [|y l];
    [rewrite print_elems_one in *|rewrite print_elems_more in *];
    autorewrite with str_len in Hf; autorewrite with str_norm.
  - rewrite Hx; [|done..| |lia|lia]; [|by apply num_stop_ws; [apply nl_ws|]].
    cbn [mbind option_bind]. by rewrite skip_ws_app by apply nl_ws.
  - rewrite Hx; [|done..|lia|lia].
    cbn [mbind option_bind]. rewrite skip_ws_head by done. change (code "," =? 44) with true.
    cbn iota. by rewrite IH by first [done | apply nl_ws | lia].
Qed.

Lemma parse_print_members kvs :
  Forall (λ kv, parses kv.2) kvs → ∀ ind fuel d w rest, kvs ≠ [] →
  forallb (λ kv, utf8_valid kv.1 && json_wf kv.2) kvs = true → all_ws w = true →
  d + foldr (λ kv n, N.max (json_depth kv.2) n) 0 kvs <= maxNestingDepth →
  (2 * String.length (print_members L ind kvs) + 1 ≤ fuel)%nat →
  parse_members fuel d (w +:+ print_members L ind kvs +:+ rest) = Some (kvs, rest).
Proof.
  induction 1 as [|[k x] l Hx _ IH]; intros ind fuel d w rest Hne; [done|].
  cbn [forallb foldr fst snd]. intros [[Hk Hwf]%andb_true_iff Hl]%andb_true_iff Hw Hd Hf.
  destruct fuel as [|fuel]; [lia|]. cbn [parse_members]. simpl in Hx.
  rewrite skip_ws_app by done.
  destruct l as [|kv l]; [rewrite print_members_one in *|rewrite print_members_more in *];
    unfold json_string in *; autorewrite with str_len in Hf; autorewrite with str_norm;
    rewrite skip_ws_head by done; change (code dquote =? 34) with true; cbn iota;
    rewrite parse_json_string by done; cbn [mbind option_bind];
    rewrite skip_ws_head by done; change (code ":" =? 58) with true; cbn iota.
  - rewrite Hx by first [done | apply colon_ws | by apply num_stop_ws; [apply nl_ws|] | lia].
    cbn [mbind option_bind]. by rewrite skip_ws_app by apply nl_ws.
  - rewrite Hx by first [done | apply colon_ws | lia].
    cbn [mbind option_bind]. rewrite skip_ws_head by done. change (code "," =? 44) with true.
    cbn iota. by rewrite IH by first [done | apply nl_ws | lia].
Qed.

(** The first byte after the bracket of a non-empty array or object does
    not close it. *)
Lemma print_elems_open ind x l rest :
  json_wf x = true →
  ∃ c t, skip_ws (nl L (S ind) +:+ print_elems L ind (x :: l) +:+ rest) = String c t ∧ code c =? 93 = false.
Proof.
  intros Hx. rewrite skip_ws_app by apply nl_ws.
  destruct (json_print_head L (S ind) x Hx) as (c & s & E & Hc).
  assert (code c =? 93 = false) as Hc'.
  { destruct x as [|[]|lit|s'|[|? ?]|[|? ?]]; simpl in E; unfold json_string in E; simplify_eq; try done.
    destruct (int_lit_head _ Hx) as (c' & l' & El & Hl). simplify_eq. apply N.eqb_neq. lia. }
  destruct l; rewrite ?print_elems_one, ?print_elems_more, E; autorewrite with str_norm;
    rewrite skip_ws_head by done; eauto.
Qed.

Lemma print_members_open ind kv kvs rest :
  ∃ t, skip_ws (nl L (S ind) +:+ print_members L ind (kv :: kvs) +:+ rest) = String dquote t.
Proof.
  rewrite skip_ws_app by apply nl_ws. destruct kv as [k x].
  destruct kvs; rewrite ?print_members_one, ?print_members_more; unfold json_string;
    autorewrite with str_norm; rewrite skip_ws_head by done; eauto.
Qed.

Lemma literal_app v j rest : literal v j (v +:+ rest) = Some (j, rest).
Proof. unfold literal. by rewrite str_prefix_app, str_drop_app. Qed.

Lemma parse_print j : parses j.
Proof.
  induction j as [|b|lit|s|l IH|kvs IH] using json_ind'; intros ind fuel d w rest Hwf Hw Hr Hd Hf;
    destruct fuel as [|fuel]; try (exfalso; destruct (json_print_head L ind _ Hwf) as (?&?&E&?);
      rewrite E in Hf; simpl in Hf; lia);
    cbn [parse_value]; rewrite skip_ws_print by done.
  - apply (literal_app "null").
  - destruct b; [apply (literal_app "true")|apply (literal_app "false")].
  - cbn [json_print]. destruct (int_lit_head _ Hwf) as (c & l & -> & Hc). rewrite str_app_cons.
    repeat match goal with |- context [code c =? ?n] => rewrite (proj2 (N.eqb_neq (code c) n)) by lia end.
    rewrite <- str_app_cons. by rewrite parse_number_lit by done.
  - cbn [json_print]. unfold json_string. autorewrite with str_norm.
    change (code dquote) with 34. cbn [N.eqb Pos.eqb]. by rewrite parse_json_string by done.
  - destruct l as [|x l].
    { change (json_print L ind (JArr []) +:+ rest) with (String "[" (String "]" rest)).
      change (code "[") with 91. cbn [N.eqb Pos.eqb]. cbn [json_depth foldr] in Hd.
      by rewrite (proj2 (N.leb_gt _ _)) by lia. }
    rewrite json_print_arr in *. autorewrite with str_len in Hf. autorewrite with str_norm.
    change (code "[") with 91. cbn [N.eqb Pos.eqb]. cbn [json_depth] in Hd.
    rewrite (proj2 (N.leb_gt _ _)) by lia.
    destruct (print_elems_open ind x l rest) as (c & t & Et & Ec);
      [by apply andb_true_iff in Hwf as [? _]|]. rewrite Et, Ec.
    by rewrite (parse_print_elems (x :: l)) by first [done | apply nl_ws | lia].
  - destruct kvs as [|kv kvs].
    { change (json_print L ind (JObj []) +:+ rest) with (String "{" (String "}" rest)).
      change (code "{") with 123. cbn [N.eqb Pos.eqb]. cbn [json_depth foldr] in Hd.
      by rewrite (proj2 (N.leb_gt _ _)) by lia. }
    rewrite json_print_obj in *. autorewrite with str_len in Hf. autorewrite with str_norm.
    change (code "{") with 123. cbn [N.eqb Pos.eqb]. cbn [json_depth] in Hd.
    rewrite (proj2 (N.leb_gt _ _)) by lia.
    destruct (print_members_open ind kv kvs rest) as (t & Et). rewrite Et.
    change (code dquote =? 125) with false. cbn iota.
    by rewrite (parse_print_members (kv :: kvs)) by first [done | apply nl_ws | lia].
Qed.

(** A printed tree, followed by white space, is parsed back to itself. *)
Lemma json_parse_print j w :
  json_wf j = true → json_depth j <= maxNestingDepth → all_ws w = true →
  json_parse (json_print L 0 j +:+ w) = Some j.
Proof.
  intros Hwf Hd Hw. unfold json_parse.
  change (json_print L 0 j +:+ w) with (EmptyString +:+ json_print L 0 j +:+ w) at 2.
  rewrite parse_print; [|done..| |lia|].
  - cbn [mbind option_bind]. rewrite <- (str_app_nil_r w), skip_ws_app by done. done.
  - destruct w as [|c w]; [done|]. by apply (num_stop_ws (String c w) "," "").
  - rewrite str_length_app. lia.
Qed.

End print_parse.

(** A printed object ends in its closing brace, so trimming white space
    leaves it alone. *)
Lemma print_members_last L ind kv kvs : ∃ pre, print_members L ind (kv :: kvs) = pre +:+ "}".
Proof.
  revert kv. induction kvs as [|kv' kvs IH]; intros [k x].
  - rewrite print_members_one.
    exists (json_string k +:+ String ":" (colon L +:+ json_print L (S ind) x +:+ nl L ind)).
    by autorewrite with str_norm.
  - rewrite print_members_more. destruct (IH kv') as [pre ->].
    exists (json_string k +:+ String ":" (colon L +:+ json_print L (S ind) x +:+
              String "," (nl L (S ind) +:+ pre))).
    by autorewrite with str_norm.
Qed.

Lemma TrimSpace_json_obj L ind kvs :
  TrimSpace (json_print L ind (JObj kvs)) = json_print L ind (JObj kvs).
Proof.
  destruct kvs as [|kv kvs]; [done|]. rewrite json_print_obj.
  destruct (print_members_last L ind kv kvs) as [pre ->].
  eapply (TrimSpace_ends _ _ "}"); [done..|].
  rewrite <- str_app_assoc, <- str_app_cons, str_rev_app_distr. done.
Qed.

(** ** Decimal numbers *)

Lemma Itoa_nat_lit n : nat_lit (Itoa n) = true.
Proof.
  unfold Itoa, pretty, pretty_N. case_decide as H; [done|].
  destruct (pretty_N_go_digits n EmptyString) as (c & t & -> & Hc & Hd); [lia|done|].
  cbn [nat_lit]. by rewrite (proj2 (N.eqb_neq _ _)).
Qed.

Lemma Itoa_int_lit n : int_lit (Itoa n) = true.
Proof.
  pose proof (Itoa_nat_lit n) as H. destruct (Itoa n) as [|c s]; [done|].
  cbn [int_lit]. destruct (code c =? 45) eqn:E; [|done].
  exfalso. apply N.eqb_eq in E. cbn [nat_lit] in H.
  destruct (code c =? 48) eqn:E'; [apply N.eqb_eq in E'; lia|].
  apply andb_true_iff in H as [H%digit_codes _]. lia.
Qed.

Lemma parse_uint_go_pretty x s : parse_uint_go (pretty_N_go x s) 0 = parse_uint_go s x.
Proof.
  revert s. induction (N.lt_wf_0 x) as [x _ IH]; intros s.
  destruct (decide (x = 0)) as [->|Hx]; [by rewrite pretty_N_go_0|].
  rewrite pretty_N_go_step by lia. rewrite IH by (apply N.div_lt; lia).
  cbn [parse_uint_go]. rewrite pretty_char_digit.
  assert (x mod 10 < 10) by by apply N.mod_lt.
  rewrite pretty_char_code by done. f_equal.
  pose proof (N.div_mod' x 10). generalize dependent (x mod 10). generalize (x / 10). lia.
Qed.

Lemma parse_uint_Itoa bound n : n < bound → parse_uint bound (Itoa n) = Some n.
Proof.
  intros Hn. unfold parse_uint.
  pose proof (Itoa_nat_lit n). destruct (Itoa n) eqn:E; [done|]. rewrite <- E. clear E.
  unfold Itoa, pretty, pretty_N. case_decide as H0.
  - subst. simpl. by rewrite (proj2 (N.ltb_lt _ _)).
  - rewrite parse_uint_go_pretty. simpl. by rewrite (proj2 (N.ltb_lt _ _)).
Qed.

(** ** ASCII text *)

Lemma utf8_valid_ascii s : str_forall is_ascii s = true → utf8_valid s = true.
Proof.
  intros Hs. apply String.eqb_eq. induction s as [|c s IH]; [done|].
  simpl in Hs. apply andb_true_iff in Hs as [Hc Hs]. cbn [utf8_fix]. by rewrite Hc, IH.
Qed.

(** Literal object keys are valid. *)
Ltac eval_valid :=
  repeat match goal with
  | |- context [utf8_valid (String ?a ?s)] => change (utf8_valid (String a s)) with true
  end.

Lemma utf8_valid_lhex s : str_forall is_lhex s = true → utf8_valid s = true.
Proof.
  intros. apply utf8_valid_ascii, (str_forall_impl is_lhex); auto using lhex_trimmed, trimmed_ascii.
Qed.

(** Text that needs no escape. *)
Lemma escape_body_lhex s : str_forall is_lhex s = true → escape_body s = s.
Proof.
  induction s as [|c s IH]; [done|]. simpl str_forall. intros [Hc Hs]%andb_true_iff.
  cbn [escape_body]. rewrite (trimmed_ascii c) by by apply lhex_trimmed.
  rewrite IH by done.
  enough ((escape_byte c =? String c EmptyString)%string = true) as ->%String.eqb_eq by done.
  enough (implb (is_lhex c) (escape_byte c =? String c EmptyString)%string = true) as E
    by by rewrite Hc in E.
  clear Hc. by_bytes c.
Qed.
