(* ===== verification/Sha256.v ===== *)
(** * Go's crypto/sha256

    SHA-256 (FIPS 180-4) over byte strings, executable, with 32-bit words as
    [N] reduced modulo 2^32. *)

From S2P Require Import Prelude GoStrings.
From Stdlib Require Import Ascii String.
Local Open Scope N_scope.

Definition w32 (n : N) : N := N.land n 4294967295.
Definition rotr (k x : N) : N := w32 (N.lor (N.shiftr x k) (N.shiftl x (32 - k))).
Definition not32 (x : N) : N := N.lxor x 4294967295.

Definition Ch (x y z : N) : N := N.lxor (N.land x y) (N.land (not32 x) z).
Definition Maj (x y z : N) : N := N.lxor (N.lxor (N.land x y) (N.land x z)) (N.land y z).
Definition Sigma0 (x : N) : N := N.lxor (N.lxor (rotr 2 x) (rotr 13 x)) (rotr 22 x).
Definition Sigma1 (x : N) : N := N.lxor (N.lxor (rotr 6 x) (rotr 11 x)) (rotr 25 x).
Definition sigma0 (x : N) : N := N.lxor (N.lxor (rotr 7 x) (rotr 18 x)) (N.shiftr x 3).
Definition sigma1 (x : N) : N := N.lxor (N.lxor (rotr 17 x) (rotr 19 x)) (N.shiftr x 10).

(** The round constants and the initial state are the first 32 bits of the
    fractional parts of the cube roots of the first 64 primes, and of the
    square roots of the first 8. *)
Definition is_prime (n : N) : bool :=
  forallb (λ d, negb (n mod N.of_nat d =? 0)) (seq 2 (N.to_nat n - 2)).
Definition primes : list N :=
  Eval vm_compute in List.filter is_prime (map N.of_nat (seq 2 310)).

(** Cube root of a number below 2^105, bit by bit. *)
Definition cube_root (n : N) : N :=
  foldl (λ r k, let r' := r + 2 ^ N.of_nat k in if r' * r' * r' <=? n then r' else r)
        0 (reverse (seq 0 36)).

Definition K256 : list N := Eval vm_compute in map (λ p, w32 (cube_root (p * 2 ^ 96))) primes.

Record hstate := HS { ha : N; hb : N; hc : N; hd : N; he : N; hf : N; hg : N; hh : N }.

Definition H0_256 : hstate :=
  Eval vm_compute in
  match map (λ p, w32 (N.sqrt (p * 2 ^ 64))) (take 8 primes) with
  | [a; b; c; d; e; f; g; h] => HS a b c d e f g h
  | _ => HS 0 0 0 0 0 0 0 0
  end.

(** The bytes as big-endian words; the padded message has a multiple of four. *)
Fixpoint be_words (s : string) : list N :=
  match s with
  | String a (String b (String c (String d s'))) =>
      (((code a * 256 + code b) * 256 + code c) * 256 + code d) :: be_words s'
  | _ => []
  end.

Definition be32 (n : N) : string :=
  String (byte_of (n / 16777216)) (String (byte_of (n / 65536 mod 256))
    (String (byte_of (n / 256 mod 256)) (String (byte_of (n mod 256)) EmptyString))).

Fixpoint zeros (n : nat) : string :=
  match n with O => EmptyString | S n => String (byte_of 0) (zeros n) end.

(** A one bit, zeros, and the bit length in 64 bits. *)
Definition pad (s : string) : string :=
  let l := strlen s in
  let z := N.to_nat ((119 - l mod 64) mod 64) in
  s +:+ String (byte_of 128) (zeros z) +:+ be32 (l * 8 / 4294967296 mod 4294967296)
    +:+ be32 (l * 8 mod 4294967296).

(** The message schedule, the last word first. *)
Fixpoint schedule (n : nat) (w : list N) : list N :=
  match n with
  | O => w
  | S n =>
      let at_ i := nth i w 0 in
      schedule n (w32 (sigma1 (at_ 1%nat) + at_ 6%nat + sigma0 (at_ 14%nat) + at_ 15%nat) :: w)
  end.

Definition round (h : hstate) (kw : N * N) : hstate :=
  let t1 := w32 (hh h + Sigma1 (he h) + Ch (he h) (hf h) (hg h) + kw.1 + kw.2) in
  let t2 := w32 (Sigma0 (ha h) + Maj (ha h) (hb h) (hc h)) in
  HS (w32 (t1 + t2)) (ha h) (hb h) (hc h) (w32 (hd h + t1)) (he h) (hf h) (hg h).

Definition compress (h : hstate) (block : list N) : hstate :=
  let w := reverse (schedule 48 (reverse block)) in
  let r := foldl round h (zip K256 w) in
  HS (w32 (ha h + ha r)) (w32 (hb h + hb r)) (w32 (hc h + hc r)) (w32 (hd h + hd r))
     (w32 (he h + he r)) (w32 (hf h + hf r)) (w32 (hg h + hg r)) (w32 (hh h + hh r)).

Fixpoint blocks (n : nat) (h : hstate) (ws : list N) : hstate :=
  match n with
  | O => h
  | S n => match ws with [] => h | _ => blocks n (compress h (take 16 ws)) (drop 16 ws) end
  end.

Definition sha256 (s : string) : string :=
  let ws := be_words (pad s) in
  let h := blocks (List.length ws) H0_256 ws in
  be32 (ha h) +:+ be32 (hb h) +:+ be32 (hc h) +:+ be32 (hd h) +:+
  be32 (he h) +:+ be32 (hf h) +:+ be32 (hg h) +:+ be32 (hh h).

Lemma sha256_length s : String.length (sha256 s) = 32%nat.
Proof. done. Qed.

Example sha256_abc :
  hex_EncodeToString (sha256 "abc")
  = "ba7816bf8f01cfea414140de5dae2223b00361a396177a9cb410ff61f20015ad".
Proof. vm_compute. reflexivity. Qed.

Example sha256_two_blocks :
  hex_EncodeToString (sha256 "abcdbcdecdefdefgefghfghighijhijkijkljklmklmnlmnomnopnopq")
  = "248d6a61d20638b8e5c026930c3e6039a33ce45964ff2167f6ecedd419db06c1".
Proof. vm_compute. reflexivity. Qed.

(** SHA-224: the same compression from another state, the second 32 bits of
    the fractional parts of the square roots of the 9th to 16th primes, and the
    first seven words of the result. *)
Definition H0_224 : hstate :=
  Eval vm_compute in
  match map (λ p, w32 (N.sqrt (p * 2 ^ 128))) (take 8 (drop 8 primes)) with
  | [a; b; c; d; e; f; g; h] => HS a b c d e f g h
  | _ => HS 0 0 0 0 0 0 0 0
  end.

Definition sha224 (s : string) : string :=
  let ws := be_words (pad s) in
  let h := blocks (List.length ws) H0_224 ws in
  be32 (ha h) +:+ be32 (hb h) +:+ be32 (hc h) +:+ be32 (hd h) +:+
  be32 (he h) +:+ be32 (hf h) +:+ be32 (hg h).

Lemma sha224_length s : String.length (sha224 s) = 28%nat.
Proof. done. Qed.

Example sha224_abc :
  hex_EncodeToString (sha224 "abc") = "23097d223405d8228642a477bda255b32aadbce4bda0b3f7e36c9da7".
Proof. vm_compute. reflexivity. Qed.
