(* ===== verification/World.v ===== *)
(** * The process environment: os, net/http

    What the code reads from the operating system and from the network.  The
    environment variables and the files are fixed while one operation runs;
    the network is an oracle that may answer each request differently, and
    every request made is recorded. *)

From S2P Require Import Prelude GoStrings.
From Stdlib Require Import Ascii String.

(** ** os.Getenv and os.ReadFile *)

Record Os := MkOs {
  Getenv : string → string;            (** the empty string when unset *)
  ReadFile : string → result string string
}.

(** ** net/http as a client *)

Record HttpReq := MkReq { rq_method : string; rq_url : string; rq_body : string }.

(** A response: its status, the bytes of its body that can be read, and
    whether reading past them ends in an error instead of the end of file. *)
Record HttpResp := MkResp { rs_status : Z; rs_body : string; rs_fails : bool }.

(** The answer of the network to a request, after the requests made before. *)
Class Network := {
  http_do : list HttpReq → HttpReq → result string HttpResp;
  (** http.NewRequest accepts the URL *)
  url_valid : string → bool
}.

(** An operation that may make requests: its result and the requests so far. *)
Definition netM (A : Type) : Type := list HttpReq → A * list HttpReq.

Definition net_ret {A} (a : A) : netM A := λ h, (a, h).
Definition net_bind {A B} (m : netM A) (k : A → netM B) : netM B :=
  λ h, let '(a, h') := m h in k a h'.

#[export] Instance netM_ret : MRet netM := @net_ret.
#[export] Instance netM_bind : MBind netM := λ A B k m, net_bind m k.

Definition c_Do `{Network} (req : HttpReq) : netM (result string HttpResp) :=
  λ h, (http_do h req, h ++ [req]).

Definition MethodGet : string := "GET".
Definition MethodPost : string := "POST".

Definition c_Get `{Network} (url : string) : netM (result string HttpResp) :=
  c_Do (MkReq MethodGet url EmptyString).

(** The first [n] bytes. *)
Fixpoint str_takeN (n : N) (s : string) : string :=
  match s with
  | EmptyString => EmptyString
  | String c s' => if decide (n = 0)%N then EmptyString else String c (str_takeN (n - 1) s')
  end.

(** io.ReadAll(io.LimitReader(body, n)): the bytes read, and the error. *)
Definition read_limited (n : N) (r : HttpResp) : string * bool :=
  (str_takeN n (rs_body r), rs_fails r && (strlen (rs_body r) <? n)%N).

Lemma str_takeN_all n s : (strlen s ≤ n)%N → str_takeN n s = s.
Proof.
  unfold strlen. revert n. induction s as [|c s IH]; intros n Hn; [done|]. simpl in *.
  case_decide; [lia|]. f_equal. apply IH. lia.
Qed.
