(* ===== verification/Envelope.v ===== *)
(** * pirgate/envelope.go: the encrypted bid envelope

    The out-of-band bid: a plaintext bid sealed with ChaCha20-Poly1305, its
    JSON form, and the 32-byte commitment [bid-commit-v1] over its fields.
    The AEAD ([golang.org/x/crypto/chacha20poly1305]) is a parameter with
    its documented laws. *)

From S2P Require Import Prelude GoStrings Json Sha256 World.
From Stdlib Require Import Ascii String.
Local Open Scope N_scope.

(** ** ChaCha20-Poly1305 *)

Class Aead := {
  aead_seal (key nonce plain aad : string) : string;
  aead_open (key nonce sealed aad : string) : option string
}.

(** The ciphertext carries a 16-byte tag and opens with what sealed it. *)
Class AeadLaws `{Aead} : Prop := {
  aead_seal_length k n p a : String.length (aead_seal k n p a) = (String.length p + 16)%nat;
  aead_open_seal k n p a : aead_open k n (aead_seal k n p a) a = Some p
}.

(** ** Byte arrays as JSON number arrays *)

Fixpoint marshal_bytes_tail (s : string) : string :=
  match s with
  | EmptyString => "]"
  | String c s' => String "," (Itoa (code c) +:+ marshal_bytes_tail s')
  end.

(** jsonBytes.MarshalJSON *)
Definition jsonBytes_MarshalJSON (j : string) : string :=
  match j with
  | EmptyString => "[]"
  | String c s' => String "[" (Itoa (code c) +:+ marshal_bytes_tail s')
  end.

(** One element stored into a [uint8]. *)
Definition into_uint8 (j : json) : option ascii :=
  match j with
  | JNum lit => byte_of <$> parse_uint 256 lit
  | JNull => Some (byte_of 0)
  | _ => None
  end.

Fixpoint into_bytes (l : list json) : option string :=
  match l with
  | [] => Some EmptyString
  | x :: l => c ← into_uint8 x; String c <$> into_bytes l
  end.

Section unicode.
Context `{GoUnicode}.

(** jsonBytes.UnmarshalJSON, on the value the decoder hands over. *)
Definition jsonBytes_UnmarshalJSON (j : json) : option string :=
  match j with
  | JNull => Some EmptyString
  | JStr s => hex_DecodeString (TrimPrefix (ToLower (TrimSpace s)) "0x")
  | JArr l => into_bytes l
  | _ => None
  end.

(** ** Envelopes and bids *)

Record Envelope := MkEnv {
  AskID : string;
  Nonce : string;
  Ciphertext : string;
  Mac : string
}.

Definition Envelope_zero : Envelope := MkEnv EmptyString EmptyString EmptyString EmptyString.

Record PlaintextBid := MkBid {
  Bid_AskID : string;
  BidderIdentity : string;
  PriceUakt : N;
  ProviderEndpoint : string
}.

Definition PlaintextBid_zero : PlaintextBid := MkBid EmptyString EmptyString 0 EmptyString.

Definition envelope_fields : list string := ["ask_id"; "nonce"; "ciphertext"; "mac"].

Definition set_envelope_field (i : nat) (j : json) (e : Envelope) : option Envelope :=
  match i with
  | 0%nat => (λ s, MkEnv s (Nonce e) (Ciphertext e) (Mac e)) <$> into_string j (AskID e)
  | 1%nat => (λ b, MkEnv (AskID e) b (Ciphertext e) (Mac e)) <$> jsonBytes_UnmarshalJSON j
  | 2%nat => (λ b, MkEnv (AskID e) (Nonce e) b (Mac e)) <$> jsonBytes_UnmarshalJSON j
  | _ => (λ b, MkEnv (AskID e) (Nonce e) (Ciphertext e) b) <$> jsonBytes_UnmarshalJSON j
  end.

Definition into_Envelope : json → Envelope → option Envelope :=
  into_struct envelope_fields set_envelope_field.

Definition bid_fields : list string := ["ask_id"; "bidder_identity"; "price_uakt"; "provider_endpoint"].

Definition into_uint64 (j : json) (old : N) : option N :=
  match j with JNum lit => parse_uint (2 ^ 64) lit | JNull => Some old | _ => None end.

Definition set_bid_field (i : nat) (j : json) (b : PlaintextBid) : option PlaintextBid :=
  match i with
  | 0%nat => (λ s, MkBid s (BidderIdentity b) (PriceUakt b) (ProviderEndpoint b)) <$> into_string j (Bid_AskID b)
  | 1%nat => (λ s, MkBid (Bid_AskID b) s (PriceUakt b) (ProviderEndpoint b)) <$> into_string j (BidderIdentity b)
  | 2%nat => (λ n, MkBid (Bid_AskID b) (BidderIdentity b) n (ProviderEndpoint b)) <$> into_uint64 j (PriceUakt b)
  | _ => (λ s, MkBid (Bid_AskID b) (BidderIdentity b) (PriceUakt b) s) <$> into_string j (ProviderEndpoint b)
  end.

Definition into_PlaintextBid : json → PlaintextBid → option PlaintextBid :=
  into_struct bid_fields set_bid_field.

(** What json.Marshal writes for the two structs. *)
Definition bytes_json (s : string) : json :=
  JArr (map (λ c, JNum (Itoa (code c))) (list_ascii_of_string s)).

Definition bid_json (b : PlaintextBid) : json :=
  JObj [("ask_id", JStr (Bid_AskID b)); ("bidder_identity", JStr (BidderIdentity b));
        ("price_uakt", JNum (Itoa (PriceUakt b))); ("provider_endpoint", JStr (ProviderEndpoint b))].

Definition envelope_json (e : Envelope) : json :=
  JObj [("ask_id", JStr (AskID e)); ("nonce", bytes_json (Nonce e));
        ("ciphertext", bytes_json (Ciphertext e)); ("mac", bytes_json (Mac e))].

(** ** Commitment *)

Definition bidCommitTag : string := "bid-commit-v1".

Fixpoint hash_parts (parts : list string) : string :=
  match parts with
  | [] => EmptyString
  | p :: parts => PutUint64 (strlen p) +:+ p +:+ hash_parts parts
  end.

(** The bytes written to the hash: tag, the tag's length in one byte, then
    each part after its length in 8 little-endian bytes. *)
Definition tagged_preimage (tag : string) (parts : list string) : string :=
  tag +:+ String (byte_of (strlen tag mod 256)) (hash_parts parts).

Definition taggedHash (tag : string) (parts : list string) : string :=
  sha256 (tagged_preimage tag parts).

Definition Envelope_Commitment (e : Envelope) : string :=
  taggedHash bidCommitTag [AskID e; Nonce e; Ciphertext e; Mac e].

Definition Envelope_CommitmentHex (e : Envelope) : string :=
  hex_EncodeToString (Envelope_Commitment e).

(** ** Sealing and opening *)

Definition aeadAAD (askID nonce : string) : string := PutUint64 (strlen askID) +:+ askID +:+ nonce.

(** [sessionKey] is 32 bytes and [nonce] 16; [random] is what rand.Read
    would put into an all-zero nonce. *)
Definition SealEnvelope `{Aead} (random : result string string)
    (bid : PlaintextBid) (sessionKey nonce : string) : result string Envelope :=
  if (BidderIdentity bid =? "")%string || (PriceUakt bid =? 0) then Err "empty bid"
  else
    match (if (nonce =? zeros 16)%string then random else Ok nonce) with
    | Err e => Err e
    | Ok nonce =>
        let plain := json_Marshal (bid_json bid) in
        let sealed := aead_seal sessionKey (str_take 12 nonce) plain (aeadAAD (Bid_AskID bid) nonce) in
        if (strlen sealed <? 16) then Err "aead short"
        else
          let k := (String.length sealed - 16)%nat in
          Ok (MkEnv (Bid_AskID bid) nonce (str_take k sealed) (str_drop k sealed +:+ zeros 16))
    end.

Definition Envelope_Open `{Aead} (e : Envelope) (sessionKey : string) : result string PlaintextBid :=
  if (strlen (Nonce e) <? 12) || (strlen (Ciphertext e) =? 0) || (strlen (Mac e) <? 16)
  then Err "truncated envelope"
  else
    let sealed := Ciphertext e +:+ str_take 16 (Mac e) in
    match aead_open sessionKey (str_take 12 (Nonce e)) sealed (aeadAAD (AskID e) (Nonce e)) with
    | None => Err "chacha auth"
    | Some plain =>
        match (j ← json_parse plain; into_PlaintextBid j PlaintextBid_zero) with
        | Some bid => Ok bid
        | None => Err "json"
        end
    end.

(** ** Parsing *)

Definition wrap_fields : list string := ["envelope"].

(** The seal command's wrapper: a struct with one envelope pointer. *)
Definition into_wrap : json → option Envelope → option (option Envelope) :=
  into_struct wrap_fields (λ _ j w, into_ptr into_Envelope Envelope_zero j w).

Definition ParseEnvelope (raw : string) : result string Envelope :=
  let raw := TrimSpace raw in
  match raw with
  | EmptyString => Err "empty envelope"
  | _ =>
      let direct :=
        match (j ← json_parse raw; into_Envelope j Envelope_zero) with
        | None => Err "json"
        | Some env =>
            if (AskID env =? "")%string || (strlen (Ciphertext env) =? 0)
            then Err "not a ChaCha envelope" else Ok env
        end in
      match (j ← json_parse raw; into_wrap j None) with
      | Some (Some env) => if (AskID env =? "")%string then direct else Ok env
      | _ => direct
      end
  end.

Definition ParseKey32 (s : string) : result string string :=
  match hex_DecodeString (TrimPrefix (ToLower (TrimSpace s)) "0x") with
  | Some b => if strlen b =? 32 then Ok b else Err "session key must be 32-byte hex"
  | None => Err "session key must be 32-byte hex"
  end.

Definition ParseNonce16 (s : string) : result string string :=
  if (TrimSpace s =? "")%string then Ok (zeros 16)
  else match hex_DecodeString (TrimPrefix (ToLower (TrimSpace s)) "0x") with
       | Some b => if strlen b =? 16 then Ok b else Err "nonce must be 16-byte hex"
       | None => Err "nonce must be 16-byte hex"
       end.

(** No envelope configured is [Ok None]. *)
Definition loadEnvelopeFromEnv (os : Os) : result string (option Envelope) :=
  let parse raw :=
    if (raw =? "")%string then Ok None
    else match ParseEnvelope raw with Ok e => Ok (Some e) | Err e => Err e end in
  let p := Getenv os "PIR_BID_ENVELOPE_FILE" in
  if (p =? "")%string then parse (TrimSpace (Getenv os "PIR_BID_ENVELOPE"))
  else match ReadFile os p with
       | Err e => Err e
       | Ok b => parse (TrimSpace b)
       end.

End unicode.

(** ** Lemmas *)

Lemma hash_parts_inj ps qs :
  Forall (λ p, strlen p < 2 ^ 64) ps → Forall (λ p, strlen p < 2 ^ 64) qs →
  hash_parts ps = hash_parts qs → ps = qs.
Proof.
  revert qs. induction ps as [|p ps IH]; intros [|q qs] Hp Hq; [done..|].
  inversion_clear Hp as [|? ? Hp1 Hps]. inversion_clear Hq as [|? ? Hq1 Hqs].
  cbn [hash_parts]. intros E.
  apply str_app_inj in E as [El E]; [|by unfold PutUint64; rewrite !le_bytes_length].
  apply PutUint64_inj in El; [|done..].
  apply str_app_inj in E as [-> E]; [|unfold strlen in El; lia].
  f_equal. auto.
Qed.

Lemma tagged_preimage_inj tag ps qs :
  Forall (λ p, strlen p < 2 ^ 64) ps → Forall (λ p, strlen p < 2 ^ 64) qs →
  tagged_preimage tag ps = tagged_preimage tag qs → ps = qs.
Proof.
  intros Hp Hq E. unfold tagged_preimage in E.
  apply str_app_inj in E as [_ [= E]]; [|done]. by apply hash_parts_inj.
Qed.

Lemma taggedHash_hex tag ps :
  str_forall is_lhex (hex_EncodeToString (taggedHash tag ps)) = true ∧
  String.length (hex_EncodeToString (taggedHash tag ps)) = 64%nat.
Proof. split; [apply hex_encode_lhex|]. by rewrite hex_encode_length. Qed.

Lemma jsonBytes_MarshalJSON_print s :
  jsonBytes_MarshalJSON s = json_print compact 0 (bytes_json s).
Proof.
  destruct s as [|c s]; [done|]. unfold bytes_json. simpl list_ascii_of_string.
  cbn [map]. rewrite json_print_arr. cbn [jsonBytes_MarshalJSON nl compact].
  rewrite str_app_nil_l. f_equal. revert c.
  induction s as [|d s IH]; intros c; [done|]. cbn [list_ascii_of_string map].
  rewrite print_elems_more. cbn [json_print nl compact marshal_bytes_tail].
  rewrite str_app_nil_l. f_equal. f_equal. apply IH.
Qed.

Lemma into_bytes_json s :
  into_bytes (map (λ c, JNum (Itoa (code c))) (list_ascii_of_string s)) = Some s.
Proof.
  induction s as [|c s IH]; [done|]. cbn [list_ascii_of_string map into_bytes into_uint8].
  rewrite parse_uint_Itoa by apply code_lt. simpl. rewrite IH. simpl.
  by rewrite byte_of_code.
Qed.

Lemma unmarshal_bytes_json `{GoUnicode} s : jsonBytes_UnmarshalJSON (bytes_json s) = Some s.
Proof. apply into_bytes_json. Qed.

Lemma bytes_json_wf s : json_wf (bytes_json s) = true.
Proof.
  apply forallb_forall. intros j [c [<- _]]%in_map_iff. apply Itoa_int_lit.
Qed.

Lemma bytes_json_depth s : json_depth (bytes_json s) = 1.
Proof.
  unfold bytes_json. cbn [json_depth].
  enough (foldr (λ j n, N.max (json_depth j) n) 0
            (map (λ c, JNum (Itoa (code c))) (list_ascii_of_string s)) = 0) as ->; [done|].
  induction s as [|c s IH]; [done|]. simpl. by rewrite IH.
Qed.

Definition bid_ok (b : PlaintextBid) : bool :=
  utf8_valid (Bid_AskID b) && utf8_valid (BidderIdentity b) &&
  utf8_valid (ProviderEndpoint b) && (PriceUakt b <? 2 ^ 64).

Lemma bid_json_parse b :
  bid_ok b = true →
  (j ← json_parse (json_Marshal (bid_json b)); into_PlaintextBid j PlaintextBid_zero) = Some b.
Proof.
  intros [[[H1 H2]%andb_true_iff H3]%andb_true_iff H4]%andb_true_iff. apply N.ltb_lt in H4.
  unfold json_Marshal. rewrite <- (str_app_nil_r (json_print _ _ _)).
  rewrite json_parse_print; [|apply _| |done|done].
  - cbn [mbind option_bind]. destruct b as [a i p e]. unfold into_PlaintextBid, bid_json. cbn -[parse_uint Itoa field_match].
    eval_fields. cbn -[parse_uint Itoa].
    by rewrite parse_uint_Itoa by done.
  - cbn [json_wf bid_json forallb fst snd]. eval_valid. by rewrite H1, H2, H3, Itoa_int_lit.
Qed.

Definition envelope_ok (e : Envelope) : bool := utf8_valid (AskID e).

Lemma envelope_json_wf e : envelope_ok e = true → json_wf (envelope_json e) = true.
Proof.
  intros He. unfold envelope_json. cbn [json_wf forallb fst snd]. eval_valid.
  by rewrite !bytes_json_wf, (He : utf8_valid (AskID e) = true).
Qed.

Lemma envelope_json_depth e : json_depth (envelope_json e) = 2.
Proof.
  unfold envelope_json. cbn [json_depth foldr snd]. by rewrite !bytes_json_depth.
Qed.

Lemma into_Envelope_json `{GoUnicode} e : into_Envelope (envelope_json e) Envelope_zero = Some e.
Proof.
  destruct e as [a n c m]. unfold into_Envelope, envelope_json. cbn -[bytes_json jsonBytes_UnmarshalJSON field_match].
  eval_fields. cbn -[bytes_json jsonBytes_UnmarshalJSON].
  by rewrite !unmarshal_bytes_json.
Qed.

(** Splitting a sealed text into its ciphertext and a tag padded to 32 bytes
    loses nothing: joining the ciphertext and the first 16 bytes restores it. *)
Lemma sealed_split sealed n :
  String.length sealed = (n + 16)%nat →
  str_take n sealed +:+ str_take 16 (str_drop n sealed +:+ zeros 16) = sealed ∧
  String.length (str_take n sealed) = n ∧
  String.length (str_drop n sealed +:+ zeros 16) = 32%nat.
Proof.
  intros Hl. pose proof (str_take_app (str_drop n sealed) (zeros 16)) as Ht.
  rewrite str_drop_length, Hl in Ht.
  replace (n + 16 - n)%nat with 16%nat in Ht by lia. rewrite Ht, str_take_drop.
  rewrite str_take_length, str_length_app, str_drop_length, Hl. simpl (String.length (zeros 16)).
  split_and!; [done|lia..].
Qed.

Lemma json_parse_compact j :
  json_wf j = true → json_depth j <= maxNestingDepth → json_parse (json_Marshal j) = Some j.
Proof.
  intros. unfold json_Marshal. rewrite <- (str_app_nil_r (json_print _ _ _)).
  by rewrite json_parse_print by (try apply _; done).
Qed.

(** The seal command's output form. *)
Definition wrapped_json (e : Envelope) : json := JObj [("envelope", envelope_json e)].

Lemma parse_wrapped `{GoUnicode} e :
  envelope_ok e = true →
  (j ← json_parse (json_Marshal (wrapped_json e)); into_wrap j None) = Some (Some e).
Proof.
  intros He. rewrite json_parse_compact.
  - cbn [mbind option_bind]. unfold into_wrap, wrapped_json. cbn -[field_match envelope_json into_ptr].
    eval_fields. cbn -[envelope_json into_ptr]. unfold into_ptr.
    change (default Envelope_zero None) with Envelope_zero.
    by rewrite into_Envelope_json.
  - unfold wrapped_json. cbn [json_wf forallb fst snd]. eval_valid. by rewrite envelope_json_wf.
  - unfold wrapped_json. cbn [json_depth foldr snd]. by rewrite envelope_json_depth.
Qed.

Lemma parse_direct `{GoUnicode} e :
  envelope_ok e = true →
  (j ← json_parse (json_Marshal (envelope_json e)); into_Envelope j Envelope_zero) = Some e ∧
  (j ← json_parse (json_Marshal (envelope_json e)); into_wrap j None) = Some None.
Proof.
  intros He. rewrite json_parse_compact; [|by apply envelope_json_wf|by rewrite envelope_json_depth].
  cbn [mbind option_bind]. rewrite into_Envelope_json. split; [done|].
  unfold into_wrap, envelope_json. cbn -[field_match bytes_json]. by eval_fields.
Qed.

(** ** Properties *)

(** Claim C24.  Sealing and opening round trip: whatever [SealEnvelope]
    accepts, the holder of the same session key opens to the same bid, for
    every bid whose text is valid UTF-8, given the AEAD's documented laws. *)
Theorem seal_open_roundtrip `{GoUnicode} `{AeadLaws} random bid key nonce e :
  bid_ok bid = true →
  String.length nonce = 16%nat →
  (∀ r, random = Ok r → String.length r = 16%nat) →
  SealEnvelope random bid key nonce = Ok e →
  Envelope_Open e key = Ok bid.
Proof.
  intros Hbid Hn Hr. unfold SealEnvelope. case_match; [done|].
  destruct (if (nonce =? zeros 16)%string then random else Ok nonce) as [n|] eqn:En; [|done].
  assert (String.length n = 16%nat) as Hln by (case_match; naive_solver). clear En.
  set (plain := json_Marshal (bid_json bid)).
  set (sealed := aead_seal key (str_take 12 n) plain (aeadAAD (Bid_AskID bid) n)).
  assert (String.length sealed = (String.length plain + 16)%nat) as Hls by apply aead_seal_length.
  assert (1 ≤ String.length plain)%nat as Hlp by (unfold plain; simpl; lia).
  destruct (strlen sealed <? 16); [done|]. intros <-%Ok_inj.
  replace (String.length sealed - 16)%nat with (String.length plain) by lia.
  destruct (sealed_split sealed _ Hls) as (Hs & Hc & Hm).
  unfold Envelope_Open. cbn [Nonce Ciphertext Mac AskID]. unfold strlen.
  rewrite Hc, Hm, Hln, Hs.
  rewrite (proj2 (N.eqb_neq _ _)) by lia. cbn [orb].
  change (N.of_nat 16 <? 12) with false. change (N.of_nat 32 <? 16) with false. cbn [orb].
  unfold sealed. rewrite aead_open_seal. unfold plain. by rewrite bid_json_parse.
Qed.

(** A cipher that satisfies the laws: the text itself, then sixteen zeros. *)
Module PlainAead.
#[export] Instance plain_aead : Aead := {
  aead_seal _ _ p _ := p +:+ zeros 16;
  aead_open _ _ s _ := Some (str_take (String.length s - 16) s)
}.
#[export] Instance plain_aead_laws : AeadLaws.
Proof.
  split; intros; cbn [aead_seal aead_open plain_aead]; rewrite str_length_app;
    change (String.length (zeros 16)) with 16%nat; [done|].
  replace (String.length p + 16 - 16)%nat with (String.length p) by lia.
  by rewrite str_take_app.
Qed.
Definition ascii_unicode : GoUnicode := λ s, s.
Definition sample_bid : PlaintextBid := MkBid "ask-1" "bidder" 7 "https://p.example".
Definition sample_nonce : string := "0123456789abcdef".
Definition sample_key : string := "00112233445566778899aabbccddeeff".
End PlainAead.

Lemma seal_open_roundtrip_witness :
  ∃ e, @SealEnvelope PlainAead.plain_aead (Err "rand") PlainAead.sample_bid PlainAead.sample_key PlainAead.sample_nonce = Ok e ∧
       @Envelope_Open PlainAead.plain_aead e PlainAead.sample_key = Ok PlainAead.sample_bid.
Proof.
  eexists. split; [vm_compute; reflexivity|].
  eapply (@seal_open_roundtrip PlainAead.ascii_unicode _ PlainAead.plain_aead_laws
            (Err "rand") _ _ PlainAead.sample_nonce); [vm_compute; reflexivity..|done|].
  vm_compute. reflexivity.
Defined.

(** The JSON form of an envelope parses back to the same envelope,
    both as the bare object and inside the seal command's wrapper, when it
    names an ask and carries a ciphertext. *)
Theorem parse_envelope_roundtrip `{GoUnicode} e :
  envelope_ok e = true → AskID e ≠ EmptyString → Ciphertext e ≠ EmptyString →
  ParseEnvelope (json_Marshal (envelope_json e)) = Ok e ∧
  ParseEnvelope (json_Marshal (wrapped_json e)) = Ok e.
Proof.
  intros He Ha Hc. apply String.eqb_neq in Ha.
  assert (strlen (Ciphertext e) =? 0 = false) as Hl.
  { unfold strlen. destruct (Ciphertext e); [done|]. apply N.eqb_neq. simpl. lia. }
  destruct (parse_direct e He) as [Hd Hw]. pose proof (parse_wrapped e He) as Hwr.
  unfold ParseEnvelope, json_Marshal, envelope_json, wrapped_json in *.
  rewrite !TrimSpace_json_obj, Hd, Hw, Hwr, Ha, Hl. by rewrite !json_print_obj.
Qed.

Lemma parse_envelope_roundtrip_witness :
  let e := MkEnv "ask-1" "0123456789ab" "ct" "mac" in
  ParseEnvelope (H := PlainAead.ascii_unicode) (json_Marshal (envelope_json e)) = Ok e ∧
  ParseEnvelope (H := PlainAead.ascii_unicode) (json_Marshal (wrapped_json e)) = Ok e.
Proof. apply parse_envelope_roundtrip; done. Defined.

(** The bytes the commitment hashes. *)
Definition commit_preimage (e : Envelope) : string :=
  tagged_preimage bidCommitTag [AskID e; Nonce e; Ciphertext e; Mac e].

(** The commitment binds the envelope up to SHA-256: the hashed
    encoding determines all four fields (no two envelopes share one, whatever
    bytes their fields hold), and commitment hex strings agree exactly when
    the hashes of the encodings do. *)
Theorem commitment_binding e1 e2 :
  Forall (λ p, strlen p < 2 ^ 64) [AskID e1; Nonce e1; Ciphertext e1; Mac e1] →
  Forall (λ p, strlen p < 2 ^ 64) [AskID e2; Nonce e2; Ciphertext e2; Mac e2] →
  (commit_preimage e1 = commit_preimage e2 ↔ e1 = e2) ∧
  (Envelope_CommitmentHex e1 = Envelope_CommitmentHex e2 ↔
   sha256 (commit_preimage e1) = sha256 (commit_preimage e2)).
Proof.
  intros H1 H2. split; split; [|by intros ->| |].
  - intros E%tagged_preimage_inj; [|done..]. destruct e1, e2. simpl in *. congruence.
  - by intros E%(inj hex_EncodeToString).
  - intros E. exact (f_equal hex_EncodeToString E).
Qed.

Lemma commitment_binding_witness :
  let e1 := MkEnv "ask-1" "0123456789ab" "ct" "mac" in
  let e2 := MkEnv "ask-1" "0123456789a" "bct" "mac" in
  commit_preimage e1 ≠ commit_preimage e2.
Proof.
  intros e1 e2 E. apply (commitment_binding e1 e2) in E; [done|repeat constructor..].
Defined.
