(* ===== verification/PirGate.v ===== *)
(** * pirgate/gate.go and pirgate/match.go: the private-market gate

    [Gate] is the allocate gate: commitments from the environment, the live
    commitment match query, the optional ZAP1 accept.  [MatchServer] is the
    local commitment store and its HTTP handler, which the query talks to. *)

From S2P Require Import Prelude GoStrings Json Sha256 World Envelope.
From Stdlib Require Import Ascii String.
Local Open Scope N_scope.

(** ** The JSON the two sides exchange *)

Record matchReq := MkMatchReq { AskCommitment : string; BidCommitment : string }.

Definition matchReq_zero : matchReq := MkMatchReq EmptyString EmptyString.

Definition matchReq_json (m : matchReq) : json :=
  JObj [("ask_commitment", JStr (AskCommitment m)); ("bid_commitment", JStr (BidCommitment m))].

Definition into_matchReq : json → matchReq → option matchReq :=
  into_struct ["ask_commitment"; "bid_commitment"]
    (λ i j m, match i with
              | 0%nat => (λ s, MkMatchReq s (BidCommitment m)) <$> into_string j (AskCommitment m)
              | _ => (λ s, MkMatchReq (AskCommitment m) s) <$> into_string j (BidCommitment m)
              end).

(** [Data] is nil or the [matches] of the nested object. *)
Record matchResp := MkMatchResp { Matches : bool; Data : option bool }.

Definition into_matchResp : json → matchResp → option matchResp :=
  into_struct ["matches"; "data"]
    (λ i j m, match i with
              | 0%nat => (λ b, MkMatchResp b (Data m)) <$> into_bool j (Matches m)
              | _ => MkMatchResp (Matches m) <$>
                       into_ptr (into_struct ["matches"] (λ _ j b, into_bool j b)) false j (Data m)
              end).

(** [data] is omitted when nil. *)
Definition matchResp_json (m : matchResp) : json :=
  JObj (("matches", JBool (Matches m)) ::
        match Data m with None => [] | Some b => [("data", JObj [("matches", JBool b)])] end).

Module Gate.
Section gate.
Context `{GoUnicode} `{Aead} `{Network}.
Variable os : Os.

Definition pirMode : bool :=
  (Getenv os "PIR_REQUIRE_COMMIT" =? "1")%string || (Getenv os "PIR_MODE" =? "1")%string.

(** Trim, lower-case, drop a leading 0x. *)
Definition normalize (s : string) : string := TrimPrefix (ToLower (TrimSpace s)) "0x".

(** [None] is the code's [("", false)]. *)
Definition hex64 (raw fileEnv : string) : option string :=
  let s := normalize (Getenv os raw) in
  let p := Getenv os fileEnv in
  let s := if (p =? "")%string then s
           else match ReadFile os p with Ok b => normalize b | Err _ => s end in
  if negb (strlen s =? 64) then None
  else if str_forall is_lhex s then Some s else None.

Definition Hex64Env : string → string → option string := hex64.

(** [Some matches] is [(matches, true)]. *)
Definition parseMatchJSON (raw : string) : option bool :=
  j ← json_parse raw;
  m ← into_matchResp j (MkMatchResp false None);
  match Data m with
  | Some b => Some b
  | None =>
      match j with
      | JObj kvs => if existsb (λ kv, (kv.1 =? "matches")%string) kvs then Some (Matches m) else None
      | _ => None
      end
  end.

Definition lcdSmartURL (rawURL queryJSON : string) : string :=
  let enc := PathEscape (b64_EncodeToString queryJSON) in
  match LastIndex rawURL "/smart/" with
  | Some i => str_take (i + String.length "/smart/") rawURL +:+ enc
  | None => if HasSuffix rawURL "/smart" then rawURL +:+ "/" +:+ enc else EmptyString
  end.

(** The query message: [{"match":{ask_commitment,bid_commitment}}]. *)
Definition match_body (ask bid : string) : string :=
  json_Marshal (JObj [("match", matchReq_json (MkMatchReq ask bid))]).

Definition body_limit : N := 65536.

(** The LCD form of the query. *)
Definition queryLcd (endpoint body : string) : netM (result string bool) :=
  let getURL := lcdSmartURL endpoint body in
  if (getURL =? "")%string then net_ret (Err "cw-pir-commit match query failed")
  else
    res ← c_Get getURL;
    match res with
    | Err e => net_ret (Err e)
    | Ok res =>
        let '(raw, rerr) := read_limited body_limit res in
        if rerr then net_ret (Err "read")
        else match parseMatchJSON raw with
             | Some matches => net_ret (Ok matches)
             | None => net_ret (Err ("commit match lcd json: " +:+ TrimSpace raw))
             end
    end.

Definition queryMatch (endpoint ask bid : string) : netM (result string bool) :=
  let body := match_body ask bid in
  if negb (url_valid endpoint) then net_ret (Err "request")
  else
    res ← c_Do (MkReq MethodPost endpoint body);
    match res with
    | Ok res =>
        let '(raw, rerr) := read_limited body_limit res in
        match (if rerr then None else parseMatchJSON raw) with
        | Some matches => net_ret (Ok matches)
        | None =>
            if ((200 <=? rs_status res) && (rs_status res <? 300))%Z
            then net_ret (Err ("commit match json: " +:+ TrimSpace raw))
            else queryLcd endpoint body
        end
    | Err _ => queryLcd endpoint body
    end.

(** ** ZAP1 *)

Record zap1Accept := MkZap {
  Accepted : bool; ZMatches : bool; Zap1Matches : bool;
  Zap1Halo2Accepted : bool; Zap1Halo2Stored : bool }.

Definition into_zap1Accept : json → zap1Accept → option zap1Accept :=
  into_struct ["accepted"; "matches"; "zap1_matches"; "zap1_halo2_accepted"; "zap1_halo2_stored"]
    (λ i j z, let '(MkZap a m zm ha hs) := z in
      match i with
      | 0%nat => (λ b, MkZap b m zm ha hs) <$> into_bool j a
      | 1%nat => (λ b, MkZap a b zm ha hs) <$> into_bool j m
      | 2%nat => (λ b, MkZap a m b ha hs) <$> into_bool j zm
      | 3%nat => (λ b, MkZap a m zm b hs) <$> into_bool j ha
      | _ => (λ b, MkZap a m zm ha b) <$> into_bool j hs
      end).

Definition zap1JSONOk (raw : string) : bool :=
  match (j ← json_parse raw; into_zap1Accept j (MkZap false false false false false)) with
  | None => false
  | Some z => Zap1Halo2Accepted z || Zap1Matches z || ZMatches z || Accepted z
  end.

Definition zap1Accepted : netM (result string bool) :=
  if negb (Getenv os "PIR_ZAP1_REQUIRE" =? "1")%string then net_ret (Ok true)
  else
    let u := Getenv os "PIR_ZAP1_ACCEPT_URL" in
    if negb (u =? "")%string then
      res ← c_Get u;
      match res with
      | Err e => net_ret (Err e)
      | Ok res =>
          let '(raw, rerr) := read_limited body_limit res in
          net_ret (if rerr then Err "read" else Ok (zap1JSONOk raw))
      end
    else
      let p := Getenv os "PIR_ZAP1_ACCEPT_FILE" in
      if (p =? "")%string
      then net_ret (Err "PIR_ZAP1_REQUIRE=1 needs PIR_ZAP1_ACCEPT_FILE or PIR_ZAP1_ACCEPT_URL")
      else net_ret (match ReadFile os p with Err e => Err e | Ok raw => Ok (zap1JSONOk raw) end).

(** ** The commitments *)

Record resolved := MkResolved { r_ask : string; r_bid : string; r_envLoaded : bool; r_ok : bool }.

(** A hex value the code holds as [""] when it is absent. *)
Definition hex_or_empty (o : option string) : string := default EmptyString o.

Definition session_key : string := Getenv os "PIR_SESSION_KEY".
Definition require_envelope : bool := (Getenv os "PIR_REQUIRE_ENVELOPE" =? "1")%string.

Definition resolveAskBid : resolved :=
  let oask := hex64 "PIR_ASK_COMMIT" "PIR_ASK_COMMIT_FILE" in
  let obid := hex64 "PIR_BID_COMMIT" "PIR_BID_COMMIT_FILE" in
  let ask := hex_or_empty oask in
  match loadEnvelopeFromEnv os with
  | Err _ => MkResolved EmptyString EmptyString false false
  | Ok None =>
      if require_envelope then MkResolved ask (hex_or_empty obid) false false
      else MkResolved ask (hex_or_empty obid) false
             (bool_decide (is_Some oask) && bool_decide (is_Some obid))
  | Ok (Some env) =>
      let derived := Envelope_CommitmentHex env in
      if match obid with Some bid => negb (bid =? derived)%string | None => false end
      then MkResolved ask derived true false
      else
        let opened :=
          if (session_key =? "")%string then true
          else match ParseKey32 session_key with
               | Err _ => false
               | Ok key => is_ok (Envelope_Open env key)
               end in
        MkResolved ask derived true (opened && bool_decide (is_Some oask))
  end.

Definition EnvelopeLoaded : bool :=
  match loadEnvelopeFromEnv os with Ok (Some _) => true | _ => false end.

Definition match_url : string := TrimSpace (Getenv os "PIR_COMMIT_MATCH_URL").

Definition CommitMatchURLSet : bool := negb (match_url =? "")%string.

Definition ok_true (r : result string bool) : bool := match r with Ok b => b | Err _ => false end.

Definition LiveCommitMatches : netM bool :=
  if (match_url =? "")%string then net_ret false
  else
    let r := resolveAskBid in
    if negb (r_ok r) then net_ret false
    else m ← queryMatch match_url (r_ask r) (r_bid r); net_ret (ok_true m).

(** The allocate gate. *)
Definition PirAllocationAllowed : netM bool :=
  if negb pirMode then net_ret true
  else
    let r := resolveAskBid in
    if negb (r_ok r) then net_ret false
    else if require_envelope && (match_url =? "")%string then net_ret false
    else
      matched ← (if (match_url =? "")%string then net_ret true
                 else m ← queryMatch match_url (r_ask r) (r_bid r); net_ret (ok_true m));
      if negb matched then net_ret false
      else z ← zap1Accepted; net_ret (ok_true z).

End gate.
End Gate.

(** ** The local commitment store and its handler *)

Module MatchServer.

(** Guarded by its mutex, so each call is one atomic step. *)
Record CommitStore := MkStore { s_ask : string; s_bid : string }.

Definition NewCommitStore (ask bid : string) : CommitStore := MkStore ask bid.

Definition Post (_ : CommitStore) (ask bid : string) : CommitStore := MkStore ask bid.

Definition Match (s : CommitStore) (ask bid : string) : bool :=
  negb (s_ask s =? "")%string && negb (s_bid s =? "")%string &&
  (s_ask s =? ask)%string && (s_bid s =? bid)%string.

(** A request as a handler sees it: the decoded path, the first value of a
    query parameter, the body and whether reading it fails. *)
Record SrvReq := MkSrvReq {
  q_method : string; q_path : string; q_get : string → string; q_body : string; q_fails : bool }.

Definition json_ok : HttpResp := MkResp 200 (json_Encode (JObj [("ok", JBool true)])) false.
Definition http_Error (msg : string) (status : Z) : HttpResp :=
  MkResp status (msg +:+ String (byte_of 10) EmptyString) false.
Definition http_NotFound : HttpResp := http_Error "404 page not found" 404.

Definition decode_wrap : json → option matchReq :=
  λ j, into_struct ["match"] (λ _ j m, into_matchReq j m) j matchReq_zero.

Definition decodeMatchBody (raw : string) : string * string :=
  let wrapped :=
    match (j ← json_parse raw; decode_wrap j) with
    | Some m => (AskCommitment m, BidCommitment m)
    | None => (EmptyString, EmptyString)
    end in
  match (j ← json_parse raw; into_matchReq j matchReq_zero) with
  | Some m =>
      if negb (AskCommitment m =? "")%string || negb (BidCommitment m =? "")%string
      then (AskCommitment m, BidCommitment m) else wrapped
  | None => wrapped
  end.

Definition writeMatch (store : CommitStore) (ask bid : string) : HttpResp :=
  MkResp 200 (json_Encode (matchResp_json (MkMatchResp (Match store ask bid) None))) false.

(** A malformed escape leaves the empty string; the four base64 variants are
    tried in turn, and text in none of them is taken as it is. *)
Definition decodeB64Query (enc : string) : string :=
  let enc := TrimSpace (default EmptyString (PathUnescape enc)) in
  match b64_DecodeString false true enc with
  | Some raw => raw
  | None =>
      match b64_DecodeString true true enc with
      | Some raw => raw
      | None =>
          match b64_DecodeString false false enc with
          | Some raw => raw
          | None => match b64_DecodeString true false enc with Some raw => raw | None => enc end
          end
      end
  end.

(** io.ReadAll(io.LimitReader(r.Body, 1<<16)) *)
Definition read_request (r : SrvReq) : option string :=
  if q_fails r && (strlen (q_body r) <? Gate.body_limit) then None
  else Some (str_takeN Gate.body_limit (q_body r)).

Definition handleMatch (store : CommitStore) (r : SrvReq) : HttpResp :=
  let from_body :=
    match read_request r with
    | None => http_Error "body" 400
    | Some raw => let '(ask, bid) := decodeMatchBody raw in writeMatch store ask bid
    end in
  if (q_method r =? MethodGet)%string then
    let '(ask, bid) := (q_get r "ask_commitment", q_get r "bid_commitment") in
    let '(ask, bid) :=
      if (ask =? "")%string && (bid =? "")%string then
        let qs := q_get r "query" in
        if (qs =? "")%string then (ask, bid) else decodeMatchBody (decodeB64Query qs)
      else (ask, bid) in
    if negb (ask =? "")%string || negb (bid =? "")%string then writeMatch store ask bid
    else from_body
  else from_body.

(** strings.Trim(s, "/") *)
Fixpoint trim_slash (s : string) : string :=
  match s with
  | String c s' => if (c =? "/")%char then trim_slash s' else s
  | EmptyString => EmptyString
  end.
Definition Trim_slash (s : string) : string := str_rev (trim_slash (str_rev (trim_slash s))).

Definition handleSmart (store : CommitStore) (r : SrvReq) : HttpResp :=
  let enc := Trim_slash (TrimPrefix (q_path r) "/smart/") in
  if (enc =? "")%string then handleMatch store r
  else let '(ask, bid) := decodeMatchBody (decodeB64Query enc) in writeMatch store ask bid.

Definition into_exec : json → option (option matchReq) :=
  λ j, into_struct ["post_commitments"] (λ _ j m, into_ptr into_matchReq matchReq_zero j m) j None.

Definition handleExecute (store : CommitStore) (r : SrvReq) : CommitStore * HttpResp :=
  match read_request r with
  | None => (store, http_Error "body" 400)
  | Some raw =>
      let direct :=
        match (j ← json_parse raw; into_matchReq j matchReq_zero) with
        | Some m => Post store (AskCommitment m) (BidCommitment m)
        | None => store
        end in
      (match (j ← json_parse raw; into_exec j) with
       | Some (Some m) => Post store (AskCommitment m) (BidCommitment m)
       | _ => direct
       end, json_ok)
  end.

(** net/http redirects a request whose path is not clean before any handler
    runs: a path is clean when it starts with a slash and has no empty, "."
    or ".." segment, a trailing slash apart. *)
Fixpoint clean_segments (l : list string) : bool :=
  match l with
  | [] => true
  | [x] => negb (x =? ".")%string && negb (x =? "..")%string
  | x :: l => negb (x =? "")%string && negb (x =? ".")%string && negb (x =? "..")%string && clean_segments l
  end.

Definition path_clean (p : string) : bool :=
  match p with
  | String c p' => (c =? "/")%char && clean_segments (Split p' "/")
  | EmptyString => false
  end.

(** CommitMatchHandler: the mux and its handlers; [None] is the redirect. *)
Definition CommitMatchHandler (store : CommitStore) (r : SrvReq) : option (CommitStore * HttpResp) :=
  let p := q_path r in
  if negb (path_clean p) then None
  else Some (
    if (p =? "/health")%string then (store, json_ok)
    else if (p =? "/match")%string || (p =? "/query")%string then (store, handleMatch store r)
    else if (p =? "/smart")%string || HasPrefix p "/smart/" then (store, handleSmart store r)
    else if (p =? "/execute")%string then handleExecute store r
    else if negb (p =? "/")%string then (store, http_NotFound)
    else if (q_method r =? MethodGet)%string then (store, json_ok)
    else (store, handleMatch store r)).

End MatchServer.

(** ** Lemmas on the gate *)

Module GateFacts.
Import Gate.

(** *** What an answer says

    A field of a JSON object: its values are stored in order, a null leaves it,
    and keys are matched as [encoding/json] folds them. *)
Definition named (name key : string) : bool := bool_decide (fold_name name = fold_name key).
Definition stored (name : string) (old : bool) (kvs : list (string * json)) : bool :=
  foldl (λ b kv, if named name kv.1 then match kv.2 with JBool b' => b' | _ => b end else b) old kvs.
(** Every value of these fields is a truth value or null. *)
Definition truth_values (names : list string) (kvs : list (string * json)) : Prop :=
  ∀ name kv, name ∈ names → kv ∈ kvs → named name kv.1 = true → kv.2 = JNull ∨ ∃ b, kv.2 = JBool b.

(** ZAP1 accepts: one of the four documented flags is true. *)
Definition zap1_flags : list string := ["accepted"; "matches"; "zap1_matches"; "zap1_halo2_accepted"; "zap1_halo2_stored"].
Definition says_accepted (raw : string) : Prop :=
  ∃ kvs, json_parse raw = Some (JObj kvs) ∧ truth_values zap1_flags kvs ∧
    (stored "zap1_halo2_accepted" false kvs = true ∨ stored "zap1_matches" false kvs = true
     ∨ stored "matches" false kvs = true ∨ stored "accepted" false kvs = true).

Lemma field_match_fold names key : NoDup (fold_name <$> names) → field_match names key = fst <$> list_find (λ n, fold_name n = fold_name key) names.
Proof.
  intros Hnd. unfold field_match. destruct (list_find (λ n, n = key) names) as [[i n]|] eqn:E; [|done].
  apply list_find_Some in E as (Hi & -> & _). destruct (list_find (λ n, fold_name n = fold_name key) names) as [[j m]|] eqn:E2.
  - apply list_find_Some in E2 as (Hj & Hm & _). cbn. f_equal. eapply NoDup_lookup; [exact Hnd|by rewrite list_lookup_fmap, Hi|rewrite list_lookup_fmap, Hj; cbn; congruence].
  - eapply list_find_None in E2. rewrite Forall_forall in E2. exfalso. eapply E2; [by eapply list_elem_of_lookup_2|done].
Qed.

Lemma truth_values_cons names kv kvs :
  truth_values names (kv :: kvs) ↔ (∀ name, name ∈ names → named name kv.1 = true → kv.2 = JNull ∨ ∃ b, kv.2 = JBool b) ∧ truth_values names kvs.
Proof.
  unfold truth_values. split.
  - intros Ht. split; [intros name Hn; apply (Ht name); [done|by left]|intros name kv' Hn Hk; apply (Ht name); [done|by right]].
  - intros [Hh Ht] name kv' Hn [->|Hk]%elem_of_cons; [by apply Hh|by apply Ht].
Qed.

(** A fold that has failed stays so. *)
Lemma struct_fold_None {T} (f : option T → string * json → option T) kvs : (∀ kv, f None kv = None) → foldl f None kvs = None.
Proof. intros Hf. induction kvs as [|kv kvs IH]; [done|]. cbn [foldl]. by rewrite Hf. Qed.

Lemma into_bool_spec j old : match into_bool j old with Some b => (j = JNull ∨ ∃ b, j = JBool b) ∧ b = match j with JBool b' => b' | _ => old end
                             | None => ¬ (j = JNull ∨ ∃ b, j = JBool b) end.
Proof. destruct j; cbn; naive_solver. Qed.

Lemma stored_cons name old kv kvs : stored name old (kv :: kvs) = stored name (if named name kv.1 then match kv.2 with JBool b => b | _ => old end else old) kvs.
Proof. done. Qed.

(** A struct of truth values: [get i] is its field [i], and [set] stores it. *)
Section flags.
Context {T : Type} (names : list string) (set : nat → json → T → option T) (get : nat → T → bool).
Hypothesis names_differ : NoDup (fold_name <$> names).
Hypothesis set_spec : ∀ i j t n, names !! i = Some n →
  match into_bool j (get i t) with
  | Some b => ∃ t', set i j t = Some t' ∧ get i t' = b ∧ ∀ k, k ≠ i → get k t' = get k t
  | None => set i j t = None
  end.

Lemma field_named key : match field_match names key with
  | Some i => ∃ n, names !! i = Some n ∧ named n key = true ∧ ∀ k m, names !! k = Some m → k ≠ i → named m key = false
  | None => ∀ n, n ∈ names → named n key = false
  end.
Proof.
  rewrite field_match_fold by done. unfold named. destruct (list_find _ names) as [[i n]|] eqn:E; cbn.
  - apply list_find_Some in E as (Hi & Hn & _). exists n. split_and!; [done|by apply bool_decide_eq_true|]. intros k m Hk Hne. apply bool_decide_eq_false. intros Hm.
    apply Hne. eapply NoDup_lookup; [exact names_differ|by rewrite list_lookup_fmap, Hk|rewrite list_lookup_fmap, Hi; cbn; congruence].
  - apply list_find_None in E. rewrite Forall_forall in E. intros n Hn. by apply bool_decide_eq_false, E.
Qed.

Lemma struct_decoded kvs t :
  match into_struct names set (JObj kvs) t with
  | Some t' => truth_values names kvs ∧ ∀ i n, names !! i = Some n → get i t' = stored n (get i t) kvs
  | None => ¬ truth_values names kvs
  end.
Proof.
  unfold into_struct. revert t. induction kvs as [|[key j] kvs IH]; intros t; cbn [foldl fst snd]; [split; [intros ? ? _ []%elem_of_nil|done]|].
  cbn [mbind option_bind fst snd]. pose proof (field_named key) as Hf. destruct (field_match names key) as [i|].
  - destruct Hf as (n & Hi & Hn & Hother). pose proof (set_spec i j t n Hi) as Hs. pose proof (into_bool_spec j (get i t)) as Hb. destruct (into_bool j (get i t)) as [b|].
    + destruct Hs as (t1 & -> & Hg & Hk). destruct Hb as [Hj Hb]. specialize (IH t1). destruct (foldl _ (Some t1) kvs) as [t'|]; [|rewrite truth_values_cons; tauto].
      destruct IH as [Ht Hget]. split; [rewrite truth_values_cons; by split|]. intros k m Hm. rewrite (Hget k m Hm), stored_cons. cbn [fst snd]. f_equal. destruct (decide (k = i)) as [->|Hne].
      * assert (m = n) as -> by congruence. by rewrite Hn, Hg, Hb.
      * by rewrite (Hother k m Hm Hne), Hk.
    + rewrite Hs, struct_fold_None, truth_values_cons by done. intros [Hj _]. apply Hb, (Hj n); [by eapply list_elem_of_lookup_2|done].
  - specialize (IH t). destruct (foldl _ (Some t) kvs) as [t'|]; [|rewrite truth_values_cons; tauto]. destruct IH as [Ht Hget]. split.
    + rewrite truth_values_cons. split; [|done]. intros n Hn E. cbn [fst] in E. by rewrite (Hf n Hn) in E.
    + intros i n Hi. rewrite (Hget i n Hi), stored_cons. cbn [fst snd]. by rewrite (Hf n) by (by eapply list_elem_of_lookup_2).
Qed.
End flags.

Definition zap1_get (i : nat) (z : zap1Accept) : bool :=
  match i with 0%nat => Accepted z | 1%nat => ZMatches z | 2%nat => Zap1Matches z | 3%nat => Zap1Halo2Accepted z | 4%nat => Zap1Halo2Stored z | _ => false end.

Lemma zap1_decoded kvs :
  match into_zap1Accept (JObj kvs) (MkZap false false false false false) with
  | Some z => truth_values zap1_flags kvs ∧ ∀ i n, zap1_flags !! i = Some n → zap1_get i z = stored n false kvs
  | None => ¬ truth_values zap1_flags kvs
  end.
Proof.
  pose proof (struct_decoded zap1_flags (λ i j z, let '(MkZap a m zm ha hs) := z in
      match i with
      | 0%nat => (λ b, MkZap b m zm ha hs) <$> into_bool j a
      | 1%nat => (λ b, MkZap a b zm ha hs) <$> into_bool j m
      | 2%nat => (λ b, MkZap a m b ha hs) <$> into_bool j zm
      | 3%nat => (λ b, MkZap a m zm b hs) <$> into_bool j ha
      | _ => (λ b, MkZap a m zm ha b) <$> into_bool j hs
      end) zap1_get) as Hd.
  assert (∀ i n, zap1_flags !! i = Some n → zap1_get i (MkZap false false false false false) = false) as Hz by (intros i m _; by destruct i as [|[|[|[|[|?]]]]]).
  unfold into_zap1Accept. fold zap1_flags. specialize (Hd ltac:(apply (bool_decide_unpack _); vm_compute; exact I)).
  match type of Hd with ?P → _ => assert P as HP end.
  { intros i j [a m zm ha hs] n Hi. apply lookup_lt_Some in Hi. cbn in Hi.
    destruct i as [|[|[|[|[|i]]]]]; try lia; cbn [zap1_get Accepted ZMatches Zap1Matches Zap1Halo2Accepted Zap1Halo2Stored];
      (destruct (into_bool j _) as [b|]; cbn; [|done]; eexists; split_and!; [done|done|]; intros [|[|[|[|[|k]]]]] Hk; try done). }
  specialize (Hd HP kvs (MkZap false false false false false)). destruct (into_struct _ _ _ _); [|done]. destruct Hd as [Ht Hg]. split; [done|]. intros i n Hi. by rewrite (Hg i n Hi), (Hz i n Hi).
Qed.

Lemma zap1_says raw : zap1JSONOk raw = true ↔ says_accepted raw.
Proof.
  unfold zap1JSONOk, says_accepted. destruct (json_parse raw) as [j|]; cbn [mbind option_bind]; [|naive_solver].
  destruct j as [| | | | |kvs]; try (split; [discriminate|by intros (? & [=] & _)]). pose proof (zap1_decoded kvs) as Hd. destruct (into_zap1Accept _ _) as [z|]; [|naive_solver].
  destruct Hd as [Ht Hg]. rewrite !orb_true_iff.
  split; [intros Hz; exists kvs; rewrite <- (Hg 3%nat "zap1_halo2_accepted"), <- (Hg 2%nat "zap1_matches"), <- (Hg 1%nat "matches"), <- (Hg 0%nat "accepted") by done; split_and!; [done|done|cbn; tauto]|].
  intros (kvs' & [= <-] & _ & Hz). rewrite <- (Hg 3%nat "zap1_halo2_accepted"), <- (Hg 2%nat "zap1_matches"), <- (Hg 1%nat "matches"), <- (Hg 0%nat "accepted") in Hz by done. cbn in Hz. tauto.
Qed.

(** The match endpoint: what the nested object says, or the field itself. *)
Definition data_stored (old : option bool) (kvs : list (string * json)) : option bool :=
  foldl (λ o kv, if named "data" kv.1 then match kv.2 with JNull => None | JObj kvs' => Some (stored "matches" (default false o) kvs') | _ => o end else o) old kvs.
Definition data_objects (kvs : list (string * json)) : Prop :=
  ∀ kv, kv ∈ kvs → named "data" kv.1 = true → kv.2 = JNull ∨ ∃ kvs', kv.2 = JObj kvs' ∧ truth_values ["matches"] kvs'.
Definition says_matches (raw : string) (b : bool) : Prop :=
  ∃ kvs, json_parse raw = Some (JObj kvs) ∧ truth_values ["matches"] kvs ∧ data_objects kvs ∧
    match data_stored None kvs with
    | Some d => d = b
    | None => (∃ j, ("matches", j) ∈ kvs) ∧ stored "matches" false kvs = b
    end.

Lemma nested_decoded kvs old :
  match into_struct ["matches"] (λ _ j b, into_bool j b) (JObj kvs) old with
  | Some b => truth_values ["matches"] kvs ∧ b = stored "matches" old kvs
  | None => ¬ truth_values ["matches"] kvs
  end.
Proof.
  pose proof (struct_decoded ["matches"] (λ _ j b, into_bool j b) (λ i b, match i with 0%nat => b | _ => false end)) as Hd.
  specialize (Hd ltac:(apply (bool_decide_unpack _); vm_compute; exact I)).
  match type of Hd with ?P → _ => assert P as HP end.
  { intros [|i] j b n Hi; [|done]. destruct (into_bool j b) as [b'|]; [|done]. exists b'. split_and!; [done|done|]. intros [|k] Hk; done. }
  specialize (Hd HP kvs old). destruct (into_struct _ _ _ _) as [b|]; [|done]. destruct Hd as [Ht Hg]. split; [done|]. exact (Hg 0%nat "matches" eq_refl).
Qed.

Definition data_value (j : json) : Prop := j = JNull ∨ ∃ kvs, j = JObj kvs ∧ truth_values ["matches"] kvs.

Lemma data_decoded j old :
  match into_ptr (into_struct ["matches"] (λ _ j b, into_bool j b)) false j old with
  | Some d => data_value j ∧ d = match j with JNull => None | JObj kvs => Some (stored "matches" (default false old) kvs) | _ => old end
  | None => ¬ data_value j
  end.
Proof.
  unfold data_value. destruct j as [| | | | |kvs]; cbn [into_ptr]; try (cbn; naive_solver).
  pose proof (nested_decoded kvs (default false old)) as Hd. destruct (into_struct _ _ _ _) as [b|]; cbn; naive_solver.
Qed.

Lemma data_objects_cons kv kvs : data_objects (kv :: kvs) ↔ (named "data" kv.1 = true → data_value kv.2) ∧ data_objects kvs.
Proof.
  unfold data_objects, data_value. split.
  - intros Hd. split; [apply Hd; by left|intros kv' Hk; apply Hd; by right].
  - intros [Hh Ht] kv' [->|Hk]%elem_of_cons; [by apply Hh|by apply Ht].
Qed.

Lemma data_stored_cons old kv kvs : data_stored old (kv :: kvs) =
  data_stored (if named "data" kv.1 then match kv.2 with JNull => None | JObj kvs' => Some (stored "matches" (default false old) kvs') | _ => old end else old) kvs.
Proof. done. Qed.

Ltac member_cons := rewrite truth_values_cons, data_objects_cons, ?stored_cons, ?data_stored_cons; cbn [fst snd].

Lemma resp_decoded kvs m d :
  match into_matchResp (JObj kvs) (MkMatchResp m d) with
  | Some r => (truth_values ["matches"] kvs ∧ data_objects kvs) ∧ Matches r = stored "matches" m kvs ∧ Data r = data_stored d kvs
  | None => ¬ (truth_values ["matches"] kvs ∧ data_objects kvs)
  end.
Proof.
  unfold into_matchResp, into_struct at 1. revert m d. induction kvs as [|[key j] kvs IH]; intros m d; cbn [foldl fst snd].
  { split_and!; [intros ? ? _ []%elem_of_nil|intros ? []%elem_of_nil|done..]. }
  cbn [mbind option_bind fst snd].
  pose proof (field_named ["matches"; "data"] ltac:(apply (bool_decide_unpack _); vm_compute; exact I) key) as Hf.
  destruct (field_match _ key) as [[|[|i]]|].
  - destruct Hf as (n & [= <-] & Hn & Ho). pose proof (Ho 1%nat "data" eq_refl ltac:(done)) as Hda. cbn [Matches Data]. pose proof (into_bool_spec j m) as Hb.
    destruct (into_bool j m) as [b|]; cbn [fmap option_fmap option_map].
    + destruct Hb as [Hj ->]. specialize (IH (match j with JBool b' => b' | _ => m end) d). destruct (foldl _ _ kvs) as [r|]; member_cons.
      * destruct IH as ([Ht Hd] & ? & ?). rewrite ?Hm, ?Hda, ?Hn. by split_and!.
      * intros [[_ Ht] [_ Hd]]. by apply IH.
    + rewrite struct_fold_None by done. member_cons. intros [[Hj _] _]. apply Hb, (Hj "matches"); [by left|done].
  - destruct Hf as (n & [= <-] & Hn & Ho). pose proof (Ho 0%nat "matches" eq_refl ltac:(done)) as Hm. cbn [Matches Data]. pose proof (data_decoded j d) as Hb.
    destruct (into_ptr _ _ _ _) as [d'|]; cbn [fmap option_fmap option_map].
    + destruct Hb as [Hj ->]. specialize (IH m (match j with JNull => None | JObj kvs' => Some (stored "matches" (default false d) kvs') | _ => d end)). destruct (foldl _ _ kvs) as [r|]; member_cons.
      * destruct IH as ([Ht Hd] & ? & ?). rewrite ?Hm, ?Hda, ?Hn. split_and!; try done. intros n ->%list_elem_of_singleton. by rewrite Hm.
      * intros [[_ Ht] [_ Hd]]. by apply IH.
    + rewrite struct_fold_None by done. member_cons. intros [_ [Hj _]]. by apply Hb, Hj.
  - by destruct Hf as (n & [=] & _).
  - pose proof (Hf "matches" ltac:(by left)) as Hm. pose proof (Hf "data" ltac:(by right; left)) as Hda. specialize (IH m d). destruct (foldl _ _ kvs) as [r|]; member_cons.
    + destruct IH as ([Ht Hd] & ? & ?). rewrite ?Hm, ?Hda, ?Hn. split_and!; try done. intros n ->%list_elem_of_singleton. by rewrite Hm.
    + intros [[_ Ht] [_ Hd]]. by apply IH.
Qed.

Lemma match_says raw b : parseMatchJSON raw = Some b ↔ says_matches raw b.
Proof.
  unfold parseMatchJSON, says_matches. destruct (json_parse raw) as [j|]; cbn [mbind option_bind]; [|naive_solver].
  destruct j as [| | | | |kvs]; try (cbn; naive_solver). pose proof (resp_decoded kvs false None) as Hd.
  destruct (into_matchResp _ _) as [r|]; cbn [mbind option_bind]; [|naive_solver].
  destruct Hd as ([Ht Ho] & Hm & Hd). rewrite Hd. destruct (data_stored None kvs) as [d|] eqn:E.
  - split; [intros [= ->]; exists kvs; by rewrite E|]. intros (? & [= <-] & _ & _ & Hb). rewrite E in Hb. by subst.
  - transitivity ((∃ j, ("matches", j) ∈ kvs) ∧ stored "matches" false kvs = b).
    + rewrite <- Hm. destruct (existsb _ kvs) eqn:Ee.
      * apply existsb_exists in Ee as ([k j] & Hin & Hk). apply String.eqb_eq in Hk. cbn in Hk. subst. apply list_elem_of_In in Hin. naive_solver.
      * split; [done|]. intros [[j Hin] _]. enough (existsb (λ kv, (kv.1 =? "matches")%string) kvs = true) by congruence.
        apply existsb_exists. exists ("matches", j). split; [by apply list_elem_of_In|done].
    + split; [intros Hb; exists kvs; by rewrite E|]. intros (? & [= <-] & _ & _ & Hb). by rewrite E in Hb.
Qed.

Section facts.
Context `{GoUnicode} `{Aead} `{Network}.
Variable os : Os.

Lemma hex64_spec raw f s :
  hex64 os raw f = Some s → String.length s = 64%nat ∧ str_forall is_lhex s = true.
Proof.
  unfold hex64. destruct (strlen _ =? 64) eqn:E; [|done]. simpl.
  destruct (str_forall is_lhex _) eqn:E2; [|done]. intros [= <-].
  apply N.eqb_eq in E. unfold strlen in E. split; [lia|done].
Qed.

(** A commitment as configured: the text of the named file where it can be
    read, the variable itself otherwise; trimmed, in lower case and without a
    leading 0x it is 64 hex digits. *)
Definition configured (raw fileEnv s : string) : Prop :=
  let file := Getenv os fileEnv in
  let text := match (if (file =? "")%string then Err EmptyString else ReadFile os file) with
              | Ok content => content | Err _ => Getenv os raw end in
  s = TrimPrefix (ToLower (TrimSpace text)) "0x" ∧ String.length s = 64%nat ∧ str_forall is_lhex s = true.

Lemma hex64_configured raw f s : hex64 os raw f = Some s ↔ configured raw f s.
Proof.
  unfold hex64, configured, normalize. cbv zeta. set (t := match (if (Getenv os f =? "")%string then _ else _) with Ok _ => _ | Err _ => _ end).
  assert ((if (Getenv os f =? "")%string then TrimPrefix (ToLower (TrimSpace (Getenv os raw))) "0x"
           else match ReadFile os (Getenv os f) with Ok b => TrimPrefix (ToLower (TrimSpace b)) "0x" | Err _ => TrimPrefix (ToLower (TrimSpace (Getenv os raw))) "0x" end)
          = TrimPrefix (ToLower (TrimSpace t)) "0x") as ->.
  { unfold t. destruct (Getenv os f =? "")%string; [done|]. by destruct (ReadFile os _). }
  set (n := TrimPrefix _ _). destruct (N.eqb_spec (strlen n) 64) as [E|E]; cbn [negb]; unfold strlen in E.
  - destruct (str_forall is_lhex n) eqn:El; split; [intros [= <-]; split_and!; [done|lia|done]|by intros (-> & _)|done|].
    intros (-> & _ & ?). congruence.
  - split; [done|]. intros (-> & ? & _). lia.
Qed.

(** What the gate asks of the two commitments: the ask is configured; the bid
    is the envelope's commitment, which a bid given in the environment must
    agree with and a configured session key must open, or a configured one
    when no envelope is configured and none is required. *)
Definition commitments (ask bid : string) : Prop :=
  configured "PIR_ASK_COMMIT" "PIR_ASK_COMMIT_FILE" ask ∧
  match loadEnvelopeFromEnv os with
  | Err _ => False
  | Ok None =>
      Getenv os "PIR_REQUIRE_ENVELOPE" ≠ "1" ∧ configured "PIR_BID_COMMIT" "PIR_BID_COMMIT_FILE" bid
  | Ok (Some env) =>
      bid = Envelope_CommitmentHex env ∧
      (∀ b, configured "PIR_BID_COMMIT" "PIR_BID_COMMIT_FILE" b → b = bid) ∧
      (Getenv os "PIR_SESSION_KEY" ≠ EmptyString → ∃ key plain,
         ParseKey32 (Getenv os "PIR_SESSION_KEY") = Ok key ∧ Envelope_Open env key = Ok plain)
  end.

Lemma commitments_unfold ask bid : commitments ask bid ↔
  hex64 os "PIR_ASK_COMMIT" "PIR_ASK_COMMIT_FILE" = Some ask ∧
  match loadEnvelopeFromEnv os with
  | Err _ => False
  | Ok None =>
      require_envelope os = false ∧ hex64 os "PIR_BID_COMMIT" "PIR_BID_COMMIT_FILE" = Some bid
  | Ok (Some env) =>
      bid = Envelope_CommitmentHex env ∧
      (∀ b, hex64 os "PIR_BID_COMMIT" "PIR_BID_COMMIT_FILE" = Some b → b = bid) ∧
      (session_key os ≠ EmptyString → ∃ key plain,
         ParseKey32 (session_key os) = Ok key ∧ Envelope_Open env key = Ok plain)
  end.
Proof.
  unfold commitments. rewrite <- hex64_configured. destruct (loadEnvelopeFromEnv os) as [[env|]|]; [| |done].
  - by setoid_rewrite hex64_configured.
  - unfold require_envelope. by rewrite String.eqb_neq, !hex64_configured.
Qed.

Lemma commitments_hex ask bid :
  commitments ask bid →
  (String.length ask = 64%nat ∧ str_forall is_lhex ask = true) ∧
  (String.length bid = 64%nat ∧ str_forall is_lhex bid = true).
Proof.
  rewrite commitments_unfold. intros [Ha Hb]. split; [by eapply hex64_spec|].
  destruct (loadEnvelopeFromEnv os) as [[env|]|]; [|destruct Hb; by eapply hex64_spec|done].
  destruct Hb as [-> _]. destruct (taggedHash_hex bidCommitTag [AskID env; Nonce env; Ciphertext env; Mac env]).
  done.
Qed.

Lemma is_ok_spec {E A} (r : result E A) : is_ok r = true ↔ ∃ a, r = Ok a.
Proof. destruct r; naive_solver. Qed.

Lemma resolveAskBid_ok :
  let r := resolveAskBid os in
  r_ok r = true ↔ commitments (r_ask r) (r_bid r).
Proof.
  cbv zeta. rewrite commitments_unfold. unfold resolveAskBid.
  set (oask := hex64 os "PIR_ASK_COMMIT" _). set (obid := hex64 os "PIR_BID_COMMIT" _).
  destruct (loadEnvelopeFromEnv os) as [[env|]|]; [| |simpl; naive_solver].
  - destruct obid as [b|]; [destruct (b =? _)%string eqn:Eb; simpl|simpl].
    + apply String.eqb_eq in Eb as ->.
      rewrite andb_true_iff, bool_decide_eq_true. destruct (session_key os =? "")%string eqn:Es.
      * apply String.eqb_eq in Es. destruct oask; simpl; naive_solver.
      * apply String.eqb_neq in Es. destruct (ParseKey32 _) as [key|]; [rewrite is_ok_spec|];
          destruct oask; simpl; naive_solver.
    + apply String.eqb_neq in Eb. split; [done|]. intros (_ & _ & Hb & _). by destruct Eb; apply Hb.
    + rewrite andb_true_iff, bool_decide_eq_true. destruct (session_key os =? "")%string eqn:Es.
      * apply String.eqb_eq in Es. destruct oask; simpl; naive_solver.
      * apply String.eqb_neq in Es. destruct (ParseKey32 _) as [key|]; [rewrite is_ok_spec|];
          destruct oask; simpl; naive_solver.
  - destruct (require_envelope os); simpl; [naive_solver|].
    rewrite andb_true_iff, !bool_decide_eq_true. destruct oask, obid; simpl; naive_solver.
Qed.

(** The resolved pair is the only candidate. *)
Lemma commitments_resolved ask bid :
  commitments ask bid → r_ask (resolveAskBid os) = ask ∧ r_bid (resolveAskBid os) = bid.
Proof.
  rewrite commitments_unfold. unfold resolveAskBid. intros [-> Hb]. simpl.
  destruct (loadEnvelopeFromEnv os) as [[env|]|]; [|destruct Hb as [-> ->]; done|done].
  destruct Hb as (-> & Hb & _). by destruct (match hex64 os _ _ with Some _ => _ | None => _ end).
Qed.

Lemma ok_true_spec r : ok_true r = true ↔ r = Ok true.
Proof. destruct r as [[]|]; naive_solver. Qed.

(** *** What the network answers *)

(** The body as far as it is read: 64 KiB, and a connection that breaks before
    that is no answer. *)
Definition reads (res : HttpResp) (raw : string) : Prop :=
  raw = str_takeN 65536 (rs_body res) ∧ (rs_fails res = true → 65536 <= strlen (rs_body res)).
Definition answers (h : list HttpReq) (req : HttpReq) (raw : string) : Prop :=
  ∃ res, http_do h req = Ok res ∧ reads res raw.

(** The match endpoint says that these two commitments match: to the posted
    message, or, when that had no verdict and no success status, to the
    endpoint's LCD form.  [h'] are the requests made by then. *)
Definition matched_after (endpoint ask bid : string) (h h' : list HttpReq) : Prop :=
  let post := MkReq MethodPost endpoint (match_body ask bid) in
  let get := MkReq MethodGet (lcdSmartURL endpoint (match_body ask bid)) EmptyString in
  url_valid endpoint = true ∧
  ((h' = (h ++ [post])%list ∧ ∃ raw, answers h post raw ∧ says_matches raw true)
   ∨ (h' = (h ++ [post; get])%list ∧ rq_url get ≠ EmptyString ∧
      (∀ res, http_do h post = Ok res →
         (rs_status res < 200 ∨ 300 <= rs_status res)%Z ∧ ∀ raw b, reads res raw → ¬ says_matches raw b) ∧
      ∃ raw, answers (h ++ [post])%list get raw ∧ says_matches raw true)).

(** ZAP1 accepts where it is required: through its URL, or, without one,
    through its file. *)
Definition zap1_accepts (h : list HttpReq) : Prop :=
  let url := Getenv os "PIR_ZAP1_ACCEPT_URL" in
  let file := Getenv os "PIR_ZAP1_ACCEPT_FILE" in
  Getenv os "PIR_ZAP1_REQUIRE" = "1" →
  ∃ raw, says_accepted raw ∧
    ((url ≠ EmptyString ∧ answers h (MkReq MethodGet url EmptyString) raw)
     ∨ (url = EmptyString ∧ file ≠ EmptyString ∧ ReadFile os file = Ok raw)).

Lemma read_limited_spec res : match read_limited body_limit res with
  | (raw, false) => ∀ raw', reads res raw' ↔ raw' = raw
  | (_, true) => ∀ raw', ¬ reads res raw'
  end.
Proof.
  unfold read_limited, reads, body_limit. destruct (rs_fails res); cbn [andb]; [destruct (N.ltb_spec (strlen (rs_body res)) 65536)|].
  - intros raw' [_ Hr]. specialize (Hr eq_refl). lia.
  - naive_solver.
  - naive_solver.
Qed.

Lemma queryLcd_true endpoint body h h' :
  queryLcd endpoint body h = (Ok true, h') ↔
  lcdSmartURL endpoint body ≠ EmptyString ∧ h' = (h ++ [MkReq MethodGet (lcdSmartURL endpoint body) EmptyString])%list ∧
  ∃ raw, answers h (MkReq MethodGet (lcdSmartURL endpoint body) EmptyString) raw ∧ says_matches raw true.
Proof.
  unfold queryLcd, answers. destruct (String.eqb_spec (lcdSmartURL endpoint body) "") as [E|E]; [cbn; naive_solver|].
  unfold mbind, netM_bind, net_bind, c_Get, c_Do. destruct (http_do h _) as [res|e]; [|cbn; naive_solver].
  pose proof (read_limited_spec res) as Hr. destruct (read_limited body_limit res) as [raw []]; [cbn; naive_solver|].
  pose proof (match_says raw) as Hs. destruct (parseMatchJSON raw) as [b|]; cbn.
  - split; [intros [= -> <-]|]; [split_and!; try done; exists raw; split; [exists res; split; [done|by apply Hr]|by apply Hs]|].
    intros (_ & -> & raw' & (res' & [= <-] & ->%Hr) & Ht%Hs). by injection Ht as ->.
  - split; [done|]. intros (_ & _ & raw' & (res' & [= <-] & ->%Hr) & Ht%Hs). done.
Qed.

Lemma queryMatch_true endpoint ask bid h h' :
  queryMatch endpoint ask bid h = (Ok true, h') ↔ matched_after endpoint ask bid h h'.
Proof.
  unfold queryMatch, matched_after. destruct (url_valid endpoint); cbn [negb]; [|by split; [|intros []]].
  cbn [rq_url]. set (post := MkReq MethodPost _ _). unfold mbind, netM_bind, net_bind, c_Do.
  pose proof (queryLcd_true endpoint (match_body ask bid) (h ++ [post])%list h') as Hl. rewrite <- (assoc_L (++)%list) in Hl. cbn [app] in Hl.
  unfold answers in *. destruct (http_do h post) as [res|e]; [|rewrite Hl; naive_solver].
  pose proof (read_limited_spec res) as Hr. destruct (read_limited body_limit res) as [raw rerr].
  destruct (if rerr then None else parseMatchJSON raw) as [b|] eqn:Ep.
  - destruct rerr; [done|]. pose proof (match_says raw) as Hs. rewrite Ep in Hs. split.
    + intros [= -> <-]. split; [done|]. left. split; [done|]. exists raw. split; [exists res; split; [done|by apply Hr]|by apply Hs].
    + intros (_ & [(-> & raw' & (? & [= <-] & ->%Hr) & Ht%Hs)|(_ & _ & Hn & _)]); [by injection Ht as ->|].
      destruct (Hn res eq_refl) as [_ Hno]. destruct (Hno raw b); [by apply Hr|by apply Hs].
  - assert (∀ raw' b, reads res raw' → ¬ says_matches raw' b) as Hno.
    { intros raw' b Hre Hs%match_says. destruct rerr; [by apply (Hr raw')|]. apply Hr in Hre as ->. congruence. }
    destruct (((200 <=? rs_status res) && (rs_status res <? 300))%Z) eqn:Es.
    + apply andb_true_iff in Es as [?%Z.leb_le ?%Z.ltb_lt]. split; [done|].
      intros (_ & [(_ & raw' & (? & [= <-] & Hre) & Ht)|(_ & _ & Hn & _)]); [by destruct (Hno raw' true)|]. destruct (Hn res eq_refl). lia.
    + rewrite Hl. assert (rs_status res < 200 ∨ 300 <= rs_status res)%Z by (apply andb_false_iff in Es as [?%Z.leb_gt|?%Z.ltb_ge]; lia). split.
      * intros (? & ? & ?). split; [done|]. right. split_and!; try done. by intros ? [= <-].
      * intros (_ & [(_ & raw' & (? & [= <-] & Hre) & Ht)|(? & ? & _ & ?)]); [by destruct (Hno raw' true)|done].
Qed.

Lemma zap1_true h : (zap1Accepted os h).1 = Ok true ↔ zap1_accepts h.
Proof.
  unfold zap1Accepted, zap1_accepts, answers. destruct (String.eqb_spec (Getenv os "PIR_ZAP1_REQUIRE") "1") as [Hq|Hq]; cbn [negb]; [|cbn; naive_solver].
  destruct (String.eqb_spec (Getenv os "PIR_ZAP1_ACCEPT_URL") "") as [Hu|Hu]; cbn [negb].
  - destruct (String.eqb_spec (Getenv os "PIR_ZAP1_ACCEPT_FILE") "") as [Hf|Hf]; [cbn; naive_solver|]. cbn [fst net_ret].
    destruct (ReadFile os _) as [raw|e]; [|naive_solver]. pose proof (zap1_says raw). split; [intros [= ?]; naive_solver|].
    intros Hz. destruct (Hz Hq) as (raw' & Ha & [[? _]|(_ & _ & [= ->])]); [done|]. f_equal. by apply zap1_says.
  - unfold mbind, netM_bind, net_bind, c_Get, c_Do. destruct (http_do h _) as [res|e]; [|cbn; naive_solver].
    pose proof (read_limited_spec res) as Hr. destruct (read_limited body_limit res) as [raw []]; cbn [fst net_ret]; [naive_solver|].
    split; [intros [= Ha%zap1_says] _; exists raw; split; [done|left; split; [done|]; exists res; split; [done|by apply Hr]]|].
    intros Hz. destruct (Hz Hq) as (raw' & Ha & [[_ (? & [= <-] & ->%Hr)]|[? _]]); [|done]. f_equal. by apply zap1_says.
Qed.

(** *** The requests an operation makes *)

(** [m] appends to the history only requests that satisfy [P], at most [k]. *)
Definition sends {A} (P : HttpReq → Prop) (k : nat) (m : netM A) : Prop :=
  ∀ h, ∃ new, (m h).2 = h ++ new ∧ Forall P new ∧ (List.length new ≤ k)%nat.

Lemma sends_ret {A} P k (a : A) : sends P k (net_ret a).
Proof. intros h. exists []. simpl. rewrite app_nil_r. split_and!; [done|constructor|lia]. Qed.

Lemma sends_do P k req : P req → sends P (S k) (c_Do req).
Proof. intros Hp h. exists [req]. split_and!; [done|by repeat constructor|simpl; lia]. Qed.

Lemma sends_bind {A B} P k k' (m : netM A) (f : A → netM B) :
  sends P k m → (∀ a, sends P k' (f a)) → sends P (k + k') (m ≫= f).
Proof.
  intros Hm Hf h. destruct (Hm h) as (n1 & E1 & P1 & L1).
  unfold mbind, netM_bind, net_bind. destruct (m h) as [a h'] eqn:Em. simpl in *. subst.
  destruct (Hf a (h ++ n1)) as (n2 & E2 & P2 & L2). exists (n1 ++ n2).
  rewrite E2, app_assoc. split_and!; [done|by apply Forall_app|rewrite length_app; lia].
Qed.

Lemma sends_weaken {A} P (Q : HttpReq → Prop) k k' (m : netM A) :
  (∀ r, P r → Q r) → (k ≤ k')%nat → sends P k m → sends Q k' m.
Proof.
  intros HPQ Hk Hm h. destruct (Hm h) as (n & E & HP & L). exists n.
  split_and!; [done|by eapply Forall_impl|lia].
Qed.

#[local] Hint Resolve sends_ret sends_do : core.

(** The query sends the message to the endpoint, then possibly the LCD form. *)
Definition query_request (endpoint ask bid : string) (r : HttpReq) : Prop :=
  r = MkReq MethodPost endpoint (match_body ask bid) ∨
  r = MkReq MethodGet (lcdSmartURL endpoint (match_body ask bid)) EmptyString.

Lemma queryLcd_sends endpoint ask bid :
  sends (query_request endpoint ask bid) 1 (queryLcd endpoint (match_body ask bid)).
Proof.
  unfold queryLcd. case_match; [auto|]. apply (sends_bind _ 1 0); [apply sends_do; by right|].
  intros [res|]; [|auto]. destruct (read_limited _ _) as [raw []]; [auto|]. case_match; auto.
Qed.

Lemma queryMatch_sends endpoint ask bid :
  sends (query_request endpoint ask bid) 2 (queryMatch endpoint ask bid).
Proof.
  unfold queryMatch. case_match; [auto|]. apply (sends_bind _ 1 1); [apply sends_do; by left|].
  intros [res|]; [|apply queryLcd_sends]. destruct (read_limited _ _) as [raw rerr].
  destruct (if rerr then None else parseMatchJSON raw); [auto|].
  destruct (_ && _); [auto|apply queryLcd_sends].
Qed.

Definition zap1_request (r : HttpReq) : Prop :=
  r = MkReq MethodGet (Getenv os "PIR_ZAP1_ACCEPT_URL") EmptyString.

Lemma zap1Accepted_sends : sends zap1_request 1 (zap1Accepted os).
Proof.
  unfold zap1Accepted. case_match; [auto|]. case_match; [|case_match; auto].
  apply (sends_bind _ 1 0); [by apply sends_do|].
  intros [res|]; [|auto]. destruct (read_limited _ _); auto.
Qed.

(** The gate's requests: the query for the resolved commitments, and ZAP1's. *)
Definition gate_request (r : HttpReq) : Prop :=
  query_request (match_url os) (r_ask (resolveAskBid os)) (r_bid (resolveAskBid os)) r ∨ zap1_request r.

Lemma gate_sends : sends gate_request 3 (PirAllocationAllowed os).
Proof.
  unfold PirAllocationAllowed. destruct (pirMode os); simpl; [|auto].
  destruct (r_ok _); simpl; [|auto]. destruct (_ && _); [auto|].
  apply (sends_bind _ 2 1).
  - destruct (_ =? _)%string; [auto|]. apply (sends_bind _ 2 0); [|auto].
    eapply sends_weaken; [|done|apply queryMatch_sends]. by left.
  - intros []; simpl; [|auto]. apply (sends_bind _ 1 0); [|auto].
    eapply sends_weaken; [|done|apply zap1Accepted_sends]. by right.
Qed.

End facts.
End GateFacts.

(** ** Properties of the gate *)

Section gate_properties.
Import Gate GateFacts.
Context `{GoUnicode} `{Aead} `{Network}.
Variable os : Os.

(** Claim C6.  In private-market mode the gate opens exactly when: the ask
    commitment is 64-digit hex; the bid is the commitment of the configured
    envelope, which a bid in the environment agrees with and a configured
    session key opens, or, with no envelope configured and none required,
    64-digit hex from the environment; a required envelope comes with a match
    URL; a configured match URL answers a readable JSON object saying that
    this ask and this bid match (to the posted message, or through its LCD
    form when the post gave no verdict and no success status); and, when ZAP1
    is required, its URL or file gives a readable JSON object with one of the
    four accept flags true.  Every failure to ask or to read closes the gate. *)
Theorem gate_opens_iff h :
  pirMode os = true →
  ((PirAllocationAllowed os h).1 = true ↔
   ∃ ask bid h', commitments os ask bid ∧
     (Getenv os "PIR_REQUIRE_ENVELOPE" = "1" → match_url os ≠ EmptyString) ∧
     (if decide (match_url os = EmptyString) then h' = h else matched_after (match_url os) ask bid h h') ∧
     zap1_accepts os h').
Proof.
  intros Hm. unfold PirAllocationAllowed. rewrite Hm. cbn [negb].
  pose proof (resolveAskBid_ok os) as Hr. cbv zeta in Hr.
  set (r := resolveAskBid os) in *. destruct (r_ok r); cbn [negb].
  2:{ split; [done|]. intros (ask & bid & h' & Hc & _).
      destruct (commitments_resolved os ask bid Hc) as [<- <-]. by apply Hr in Hc. }
  assert (commitments os (r_ask r) (r_bid r)) as Hc by by apply Hr.
  transitivity (∃ h', (Getenv os "PIR_REQUIRE_ENVELOPE" = "1" → match_url os ≠ EmptyString) ∧
     (if decide (match_url os = EmptyString) then h' = h else matched_after (match_url os) (r_ask r) (r_bid r) h h') ∧
     zap1_accepts os h').
  2:{ split; [intros (h' & ?); by exists (r_ask r), (r_bid r), h'|]. intros (ask & bid & h' & Hc' & ?).
      destruct (commitments_resolved os ask bid Hc') as [<- <-]. by exists h'. }
  unfold mbind, netM_bind, net_bind, require_envelope.
  destruct (decide (match_url os = EmptyString)) as [Eu|Eu].
  - rewrite (proj2 (String.eqb_eq _ _) Eu), andb_true_r. destruct (String.eqb_spec (Getenv os "PIR_REQUIRE_ENVELOPE") "1"); [cbn; naive_solver|].
    pose proof (zap1_true os h) as Hz. cbn [net_ret negb]. destruct (zap1Accepted os h) as [z h'] eqn:Ez. unfold net_ret. cbn [fst] in *. rewrite ok_true_spec, Hz. naive_solver.
  - rewrite (proj2 (String.eqb_neq _ _) Eu), andb_false_r. pose proof (λ h', queryMatch_true (match_url os) (r_ask r) (r_bid r) h h') as Hq.
    destruct (queryMatch _ _ _ h) as [q hq] eqn:Eq. unfold net_ret at 1. destruct (ok_true q) eqn:Et; cbn [negb].
    + apply ok_true_spec in Et as ->. pose proof (zap1_true os hq) as Hz. destruct (zap1Accepted os hq) as [z h'] eqn:Ez. unfold net_ret. cbn [fst] in *. rewrite ok_true_spec, Hz.
      split; [intros ?; exists hq; split_and!; [done|by apply Hq|done]|]. intros (h'' & _ & Hq'%Hq & ?). by injection Hq' as <-.
    + split; [done|]. intros (h'' & _ & Hq'%Hq & _). injection Hq' as -> _. done.
Qed.

(** The gate fails closed and talks to nobody else: on an open
    gate in private-market mode both commitments are 64 lower-case hex
    digits, and whatever it answers it has made at most three requests, each
    to the configured match URL, its LCD form, or the configured ZAP1 URL,
    carrying nothing but the two commitments.  In public mode it always opens
    and makes none. *)
Theorem gate_requests h :
  (pirMode os = false → PirAllocationAllowed os h = (true, h)) ∧
  (pirMode os = true → (PirAllocationAllowed os h).1 = true →
   let r := resolveAskBid os in
   String.length (r_ask r) = 64%nat ∧ str_forall is_lhex (r_ask r) = true ∧
   String.length (r_bid r) = 64%nat ∧ str_forall is_lhex (r_bid r) = true) ∧
  ∃ new, (PirAllocationAllowed os h).2 = h ++ new ∧ (List.length new ≤ 3)%nat ∧
    Forall (gate_request os) new.
Proof.
  split_and!.
  - intros Hm. unfold PirAllocationAllowed. by rewrite Hm.
  - intros Hm Ha. unfold PirAllocationAllowed in Ha. rewrite Hm in Ha. simpl in Ha.
    destruct (r_ok (resolveAskBid os)) eqn:Eok; [|done].
    apply resolveAskBid_ok, commitments_hex in Eok. simpl. naive_solver.
  - destruct (gate_sends os h) as (new & ? & ? & ?). by exists new.
Qed.

End gate_properties.

(** ** The query against the local server *)

Module Loopback.
Import Gate MatchServer.

(** A network in which [base] is served by [CommitMatchHandler]: the part of
    a URL after [base] is its path, and there is no query string. *)
Definition serve (store : CommitStore) (base : string) (req : HttpReq) : result string HttpResp :=
  if HasPrefix (rq_url req) base then
    match PathUnescape (TrimPrefix (rq_url req) base) with
    | None => Err "url"
    | Some path =>
        match CommitMatchHandler store
                (MkSrvReq (rq_method req) path (λ _, EmptyString) (rq_body req) false) with
        | Some (_, resp) => Ok resp
        | None => Err "redirect"
        end
    end
  else Err "no such host".

Definition local (store : CommitStore) (base : string) : Network :=
  {| http_do _ req := serve store base req; url_valid _ := true |}.

(** An LCD node: it answers GET only. *)
Definition lcd_node (store : CommitStore) (base : string) : Network :=
  {| http_do _ req := if (rq_method req =? MethodPost)%string
                      then Ok (MkResp 501 "Not Implemented" false) else serve store base req;
     url_valid _ := true |}.

Definition commit_hex (s : string) : Prop := String.length s = 64%nat ∧ str_forall is_lhex s = true.

Definition q (s : string) : string := String dquote s.

Lemma match_body_text ask bid :
  commit_hex ask → commit_hex bid →
  match_body ask bid =
  (String "{" (q ("match" +:+ q (":{" +:+ q ("ask_commitment" +:+ q (":" +:+ q EmptyString)))))) +:+ ask +:+
  (q ("," +:+ q ("bid_commitment" +:+ q (":" +:+ q EmptyString)))) +:+ bid +:+ q "}}".
Proof.
  intros [_ Ha] [_ Hb]. unfold match_body, json_Marshal, matchReq_json.
  cbn [AskCommitment BidCommitment]. rewrite !json_print_obj.
  rewrite print_members_one, json_print_obj, print_members_more, print_members_one.
  cbn [json_print nl colon compact]. unfold json_string.
  rewrite (escape_body_lhex ask), (escape_body_lhex bid) by done.
  autorewrite with str_norm. unfold q. autorewrite with str_norm. reflexivity.
Qed.

Lemma commit_hex_noslash s : commit_hex s → str_forall no_slash_src s = true.
Proof.
  intros [_ Hs]. apply (str_forall_impl is_lhex); [|done]. intros c Hc.
  enough (implb (is_lhex c) (no_slash_src c) = true) as E by by rewrite Hc in E.
  clear Hc. by_bytes c.
Qed.

Lemma match_body_noslash ask bid :
  commit_hex ask → commit_hex bid → str_forall no_slash_src (match_body ask bid) = true.
Proof.
  intros Ha Hb. rewrite match_body_text by done. rewrite !str_forall_app.
  rewrite (commit_hex_noslash ask), (commit_hex_noslash bid) by done. reflexivity.
Qed.

Lemma match_body_small ask bid :
  commit_hex ask → commit_hex bid → (strlen (match_body ask bid) <= body_limit)%N.
Proof.
  intros Ha Hb. rewrite match_body_text by done. unfold strlen.
  rewrite !str_length_app, (proj1 Ha), (proj1 Hb). vm_compute. discriminate.
Qed.

Lemma decode_match_body ask bid :
  commit_hex ask → commit_hex bid → decodeMatchBody (match_body ask bid) = (ask, bid).
Proof.
  intros [_ Ha] [_ Hb]. unfold decodeMatchBody, match_body.
  rewrite json_parse_compact.
  - cbn [mbind option_bind]. unfold into_matchReq, decode_wrap, matchReq_json.
    cbn -[field_match]. by eval_fields; cbn -[field_match]; eval_fields.
  - unfold matchReq_json. cbn [json_wf forallb fst snd AskCommitment BidCommitment]. eval_valid.
    by rewrite !utf8_valid_lhex.
  - vm_compute. discriminate.
Qed.

Lemma read_write_match store ask bid :
  let '(raw, rerr) := read_limited body_limit (writeMatch store ask bid) in
  rerr = false ∧ parseMatchJSON raw = Some (Match store ask bid).
Proof. unfold writeMatch. by destruct (Match store ask bid); vm_compute. Qed.

(** The paths that answer a posted query. *)
Definition query_paths : list string := ["/match"; "/query"; "/smart/"; "/"].

Lemma serve_post store base path ask bid :
  path ∈ query_paths → commit_hex ask → commit_hex bid →
  serve store base (MkReq MethodPost (base +:+ path) (match_body ask bid)) = Ok (writeMatch store ask bid).
Proof.
  intros Hp Ha Hb. unfold serve. cbn [rq_url rq_method rq_body].
  unfold HasPrefix at 1. rewrite str_prefix_app, TrimPrefix_app.
  assert (PathUnescape path = Some path) as ->.
  { apply PathUnescape_id. repeat (apply elem_of_cons in Hp as [->|Hp]; [done|]).
    by apply elem_of_nil in Hp. }
  assert (∀ r, q_method r = MethodPost → q_body r = match_body ask bid → q_fails r = false →
               handleMatch store r = writeMatch store ask bid) as Hm.
  { intros r Hme Hbo Hf. unfold handleMatch, read_request. rewrite Hme, Hbo, Hf. cbn [andb].
    change (MethodPost =? MethodGet)%string with false. cbn iota.
    by rewrite str_takeN_all, decode_match_body by (by apply match_body_small || done). }
  repeat (apply elem_of_cons in Hp as [->|Hp]; [|]); [..|by apply elem_of_nil in Hp];
    unfold CommitMatchHandler, handleSmart; cbn [q_path];
    (match goal with |- context [if negb (path_clean ?p) then _ else _] =>
       change (path_clean p) with true end); cbn [negb];
    cbv beta iota; do 2 f_equal; by apply Hm.
Qed.

Lemma LastIndex_suffix base sep c s :
  sep = String c s → LastIndex sep sep = Some 0%nat →
  LastIndex (base +:+ sep) sep = Some (String.length base).
Proof. intros -> E. induction base as [|d base IH]; [done|]. cbn [LastIndex String.append]. by rewrite IH. Qed.

Lemma lcd_url base body :
  str_forall no_slash_src body = true →
  lcdSmartURL (base +:+ "/smart/") body = base +:+ "/smart/" +:+ b64_EncodeToString body.
Proof.
  intros Hb. unfold lcdSmartURL. rewrite (LastIndex_suffix _ _ "/" "smart/") by done.
  rewrite <- str_length_app, str_take_all by done.
  rewrite PathEscape_plain, str_app_assoc; [done|].
  apply (str_forall_impl b64_noslash); [apply b64_noslash_plain|by apply b64_encode_noslash].
Qed.

Lemma trim_slash_id s : str_forall b64_noslash s = true → trim_slash s = s.
Proof.
  destruct s as [|c s]; [done|]. simpl. intros [Hc _]%andb_true_iff.
  by destruct (b64_noslash_plain c Hc) as (_ & _ & _ & _ & ->).
Qed.

Lemma Trim_slash_id s : str_forall b64_noslash s = true → Trim_slash s = s.
Proof.
  intros Hs. unfold Trim_slash. rewrite (trim_slash_id s) by done.
  by rewrite trim_slash_id, str_rev_involutive by by rewrite str_forall_rev.
Qed.

Lemma decodeB64_encode body :
  str_forall no_slash_src body = true → decodeB64Query (b64_EncodeToString body) = body.
Proof.
  intros Hb%b64_encode_noslash. unfold decodeB64Query, b64_DecodeString.
  rewrite PathUnescape_id.
  - cbn [default from_option id]. rewrite TrimSpace_id, str_filter_id, b64_decode_encode; [done|..];
      (eapply str_forall_impl; [|exact Hb]; apply b64_noslash_plain).
  - eapply str_forall_impl; [|exact Hb]. intros c Hc. apply negb_true_iff. by apply b64_noslash_plain.
Qed.

Lemma smart_path_clean s :
  str_forall (λ c, negb (c =? "/")%char) s = true → (s =? ".")%string = false → (s =? "..")%string = false →
  path_clean ("/smart/" +:+ s) = true.
Proof.
  intros Hs H1 H2.
  assert (Split ("smart/" +:+ s) "/" = ["smart"; s]) as Hsp.
  { change (Split ("smart/" +:+ s) "/") with ("smart" :: split_go "/" s EmptyString).
    by rewrite split_no_sep by done. }
  change (path_clean ("/smart/" +:+ s)) with (clean_segments (Split ("smart/" +:+ s) "/")).
  rewrite Hsp. cbn [clean_segments]. by rewrite H1, H2.
Qed.

(** The smart path, whatever the method and the body. *)
Lemma handle_smart store r enc t ask bid :
  q_path r = "/smart/" +:+ enc → enc = String "e" t → str_forall b64_noslash enc = true →
  decodeMatchBody (decodeB64Query enc) = (ask, bid) →
  CommitMatchHandler store r = Some (store, writeMatch store ask bid).
Proof.
  intros Hp He Hn Hd. unfold CommitMatchHandler. rewrite Hp.
  rewrite smart_path_clean; [|eapply str_forall_impl; [|exact Hn];
    intros c Hc; apply negb_true_iff; by apply b64_noslash_plain|by rewrite He..].
  unfold HasPrefix. rewrite str_prefix_app. rewrite orb_true_r.
  change ("/smart/" +:+ enc =? "/health")%string with false.
  change ("/smart/" +:+ enc =? "/match")%string with false.
  change ("/smart/" +:+ enc =? "/query")%string with false. cbn [negb orb].
  unfold handleSmart. rewrite Hp, TrimPrefix_app, Trim_slash_id by done.
  rewrite Hd. by rewrite He.
Qed.

Lemma serve_lcd store base ask bid :
  commit_hex ask → commit_hex bid →
  serve store base (MkReq MethodGet (lcdSmartURL (base +:+ "/smart/") (match_body ask bid)) EmptyString)
  = Ok (writeMatch store ask bid).
Proof.
  intros Ha Hb. pose proof (match_body_noslash _ _ Ha Hb) as Hn. rewrite lcd_url by done.
  pose proof (b64_encode_noslash _ Hn) as He. unfold serve. cbn [rq_url rq_method rq_body].
  unfold HasPrefix at 1. rewrite str_prefix_app, TrimPrefix_app.
  rewrite PathUnescape_id; [|rewrite str_forall_app; simpl; eapply str_forall_impl; [|exact He];
    intros c Hc; apply negb_true_iff; by apply b64_noslash_plain].
  assert (∃ t, b64_EncodeToString (match_body ask bid) = String "e" t) as [t Et].
  { rewrite match_body_text by done. by eexists. }
  erewrite handle_smart; [done..|exact Et|done|]. by rewrite decodeB64_encode, decode_match_body.
Qed.
End Loopback.

(** The two ways [queryMatch] answers, for any network. *)
Section query_runs.
Import Gate.
Context `{Network}.

Lemma queryMatch_post endpoint ask bid h res raw m :
  url_valid endpoint = true →
  http_do h (MkReq MethodPost endpoint (match_body ask bid)) = Ok res →
  read_limited body_limit res = (raw, false) → parseMatchJSON raw = Some m →
  (queryMatch endpoint ask bid h).1 = Ok m.
Proof.
  intros Hu Hd Hr Hp. unfold queryMatch. rewrite Hu. cbn [negb].
  unfold mbind, netM_bind, net_bind, c_Do. rewrite Hd. by rewrite Hr, Hp.
Qed.

Lemma queryLcd_get endpoint body h res raw m :
  lcdSmartURL endpoint body ≠ EmptyString →
  http_do h (MkReq MethodGet (lcdSmartURL endpoint body) EmptyString) = Ok res →
  read_limited body_limit res = (raw, false) → parseMatchJSON raw = Some m →
  (queryLcd endpoint body h).1 = Ok m.
Proof.
  intros Hu%String.eqb_neq Hd Hr Hp. unfold queryLcd. rewrite Hu.
  unfold mbind, netM_bind, net_bind, c_Get, c_Do. rewrite Hd. by rewrite Hr, Hp.
Qed.

Lemma queryMatch_refused endpoint ask bid h res raw :
  url_valid endpoint = true →
  http_do h (MkReq MethodPost endpoint (match_body ask bid)) = Ok res →
  read_limited body_limit res = (raw, false) → parseMatchJSON raw = None →
  ((200 <=? rs_status res) && (rs_status res <? 300))%Z = false →
  queryMatch endpoint ask bid h =
  queryLcd endpoint (match_body ask bid) (h ++ [MkReq MethodPost endpoint (match_body ask bid)]).
Proof.
  intros Hu Hd Hr Hp Hs. unfold queryMatch. rewrite Hu. cbn [negb].
  unfold mbind, netM_bind, net_bind, c_Do. rewrite Hd. by rewrite Hr, Hp, Hs.
Qed.
End query_runs.

Section query_properties.
Import Gate MatchServer Loopback.

(** The query and the server agree: posted to any of the paths
    the server answers queries on, and through the LCD form
    [/smart/{base64}] when the node refuses POST, [queryMatch] returns
    exactly what the store's [Match] says, without error. *)
Theorem queryMatch_refines_store store base path ask bid h :
  commit_hex ask → commit_hex bid → path ∈ query_paths →
  (@queryMatch (local store base) (base +:+ path) ask bid h).1 = Ok (Match store ask bid) ∧
  (@queryMatch (lcd_node store base) (base +:+ "/smart/") ask bid h).1 = Ok (Match store ask bid).
Proof.
  intros Ha Hb Hp. pose proof (read_write_match store ask bid) as Hw.
  destruct (read_limited body_limit (writeMatch store ask bid)) as [raw rerr] eqn:Er.
  destruct Hw as [-> Hw]. split.
  - eapply queryMatch_post; [done|by apply serve_post|done|done].
  - erewrite queryMatch_refused; [|done..].
    eapply queryLcd_get; [|by apply serve_lcd|done|done].
    rewrite lcd_url by by apply match_body_noslash. by destruct base.
Qed.

Definition sample_ask : string := "00112233445566778899aabbccddeeff00112233445566778899aabbccddeeff".
Definition sample_bid : string := "ffeeddccbbaa99887766554433221100ffeeddccbbaa99887766554433221100".

Lemma queryMatch_refines_store_witness :
  let store := NewCommitStore sample_ask sample_bid in
  (@queryMatch (local store "http://127.0.0.1:8445") ("http://127.0.0.1:8445" +:+ "/match") sample_ask sample_bid []).1 = Ok true ∧
  (@queryMatch (lcd_node store "http://127.0.0.1:8445") ("http://127.0.0.1:8445" +:+ "/smart/") sample_ask sample_bid []).1 = Ok true.
Proof.
  apply (queryMatch_refines_store (NewCommitStore sample_ask sample_bid) "http://127.0.0.1:8445" "/match");
    [split; vm_compute; reflexivity..|vm_compute; left].
Defined.

(** A match endpoint that ends in [/smart] without a trailing
    slash is always answered "no match" by the server, also for the very
    commitments it holds: the path is not recognised as the empty query and
    its own name is decoded instead of the posted message. *)
Theorem smart_endpoint_never_matches store base ask bid h :
  (@queryMatch (local store base) (base +:+ "/smart") ask bid h).1 = Ok false.
Proof.
  eapply (queryMatch_post (H := local store base)
            _ _ _ _ (writeMatch store EmptyString EmptyString)); [done| | |].
  - cbn [http_do local]. unfold serve. cbn [rq_url rq_method rq_body].
    unfold HasPrefix at 1. rewrite str_prefix_app, TrimPrefix_app. reflexivity.
  - reflexivity.
  - unfold writeMatch. assert (Match store EmptyString EmptyString = false) as ->; [|by vm_compute].
    unfold Match. destruct (s_ask store) as [|? ?]; [done|]. by destruct (s_bid store).
Qed.

End query_properties.

(** A provider in private-market mode, with both commitments in the
    environment and the local server as its match endpoint. *)
Module GateSample.
Import Gate GateFacts MatchServer Loopback.
Definition unicode : GoUnicode := λ s, s.
Definition base : string := "http://127.0.0.1:8445".
Definition env (k : string) : string :=
  if (k =? "PIR_REQUIRE_COMMIT")%string then "1"
  else if (k =? "PIR_ASK_COMMIT")%string then sample_ask
  else if (k =? "PIR_BID_COMMIT")%string then "0x" +:+ sample_bid
  else if (k =? "PIR_COMMIT_MATCH_URL")%string then base +:+ "/match"
  else EmptyString.
Definition os : Os := MkOs env (λ _, Err "no such file").
Definition net : Network := local (NewCommitStore sample_ask sample_bid) base.
End GateSample.

Section gate_witnesses.
Import Gate GateFacts GateSample.
#[local] Existing Instance unicode.
#[local] Existing Instance PlainAead.plain_aead.
#[local] Existing Instance net.

Lemma gate_opens_iff_witness : (PirAllocationAllowed os []).1 = true.
Proof.
  apply (gate_opens_iff os []); [reflexivity|].
  exists sample_ask, sample_bid, [MkReq MethodPost (base +:+ "/match") (match_body sample_ask sample_bid)]. split_and!.
  - apply commitments_unfold. split; [vm_compute; reflexivity|].
    change (loadEnvelopeFromEnv os) with (@Ok string (option Envelope) None).
    split; vm_compute; reflexivity.
  - done.
  - rewrite decide_False by done. split; [reflexivity|]. left. split; [reflexivity|].
    eexists. split; [eexists; split; [vm_compute; reflexivity|split; [reflexivity|done]]|].
    apply match_says. vm_compute. reflexivity.
  - done.
Defined.
End gate_witnesses.
