(* ===== verification/LeaseBook.v ===== *)
(** * gateway/pir: the lease book, bearer access and lease containers

    lease.go keeps a map from lease to its record, in memory or in the JSON
    file PIR_LEASE_BOOK_FILE names; access.go admits a bearer that an open
    lease or the allow-list holds; serve.go runs a lease's container behind
    the allocate gate.  Every operation holds the package mutex, so it is one
    atomic step on the state. *)

From S2P Require Import Prelude GoStrings Json Sha256 World Envelope PirGate.
From Stdlib Require Import Ascii String.
Local Open Scope N_scope.

(** ** State *)

Record LeaseRec := MkLease {
  Bearer : string;
  Session : string;
  Open : bool;
  Container : string;
  HostPort : Z;
  Name : string
}.

Definition LeaseRec_zero : LeaseRec := MkLease EmptyString EmptyString false EmptyString 0 EmptyString.

#[export] Instance LeaseRec_eq_dec : EqDecision LeaseRec.
Proof. solve_decision. Defined.

(** A Go map value: [None] is the nil map, which can be read but not written. *)
Notation gomap := (option (gmap string LeaseRec)).

(** The package variable [book], and the files of the machine. *)
Record PirState := MkPir { book : gomap; files : gmap string string }.

(** What the file system answers to the writes of [saveBook]: the error of
    creating the directory of a file, and, for a write that fails, its error
    and what it leaves of the file. *)
Class FileSystem := {
  mkdir_error : string → option string;
  write_error : string → option (string * option string)
}.

(** ** The JSON form of the book *)

(** An [int] as a decimal literal. *)
Definition ItoaZ (z : Z) : string :=
  if (z <? 0)%Z then String "-" (Itoa (Z.to_N (- z))) else Itoa (Z.to_N z).

Definition into_int (j : json) (old : Z) : option Z :=
  match j with
  | JNull => Some old
  | JNum (String c s) =>
      if (c =? "-")%char
      then n ← parse_uint (2 ^ 63 + 1) s; Some (- Z.of_N n)%Z
      else Z.of_N <$> parse_uint (2 ^ 63) (String c s)
  | _ => None
  end.

Definition omit_empty (key s : string) : list (string * json) :=
  if (s =? "")%string then [] else [(key, JStr s)].

Definition LeaseRec_json (r : LeaseRec) : json :=
  JObj ([("bearer", JStr (Bearer r))] ++ omit_empty "session" (Session r) ++
        [("open", JBool (Open r))] ++ omit_empty "container" (Container r) ++
        (if (HostPort r =? 0)%Z then [] else [("host_port", JNum (ItoaZ (HostPort r)))]) ++
        omit_empty "name" (Name r)).

Definition into_LeaseRec : json → LeaseRec → option LeaseRec :=
  into_struct ["bearer"; "session"; "open"; "container"; "host_port"; "name"]
    (λ i j r, let '(MkLease b s o c h n) := r in
      match i with
      | 0%nat => (λ x, MkLease x s o c h n) <$> into_string j b
      | 1%nat => (λ x, MkLease b x o c h n) <$> into_string j s
      | 2%nat => (λ x, MkLease b s x c h n) <$> into_bool j o
      | 3%nat => (λ x, MkLease b s o x h n) <$> into_string j c
      | 4%nat => (λ x, MkLease b s o c x n) <$> into_int j h
      | _ => (λ x, MkLease b s o c h x) <$> into_string j n
      end).

(** Map keys are written in order. *)
Definition book_json (m : gomap) : json :=
  match m with
  | None => JNull
  | Some m => JObj (prod_map id LeaseRec_json <$>
                merge_sort (λ a b, String.le a.1 b.1) (map_to_list m))
  end.

(** A map is filled key by key, each with a fresh element. *)
Definition into_book (j : json) : option gomap :=
  match j with
  | JNull => Some None
  | JObj kvs =>
      Some <$> foldl (λ acc kv, m ← acc; r ← into_LeaseRec kv.2 LeaseRec_zero; Some (<[kv.1 := r]> m))
                     (Some (∅ : gmap string LeaseRec)) kvs
  | _ => None
  end.

(** strings in lease.go *)
Definition stringsLower (s : string) : string := str_map lower_ascii s.

Section lease.
Context `{FileSystem}.
Variable env : string → string.

Definition leasePath : string := env "PIR_LEASE_BOOK_FILE".

(** The map the caller gets, and the state with [book] initialised. *)
Definition loadBook (st : PirState) : gomap * PirState :=
  let p := leasePath in
  if (p =? "")%string then
    let b := match book st with None => Some ∅ | b => b end in
    (b, MkPir b (files st))
  else
    match files st !! p with
    | None => (Some ∅, st)
    | Some raw =>
        if (raw =? "")%string then (Some ∅, st)
        else match (j ← json_parse raw; into_book j) with
             | None => (Some ∅, st)
             | Some m => (m, st)
             end
    end.

(** [None] is no error. *)
Definition saveBook (m : gomap) (st : PirState) : option string * PirState :=
  let p := leasePath in
  let st := MkPir m (files st) in
  if (p =? "")%string then (None, st)
  else
    let raw := json_MarshalIndent (book_json m) in
    match mkdir_error p with
    | Some e => (Some e, st)
    | None =>
        match write_error p with
        | Some (e, remains) => (Some e, MkPir m (partial_alter (λ _, remains) p (files st)))
        | None => (None, MkPir m (<[p := raw]> (files st)))
        end
    end.

(** [m[leaseID] = rec] *)
Definition map_set (m : gomap) (k : string) (r : LeaseRec) : outcome gomap :=
  match m with None => Panic | Some m => Ret (Some (<[k := r]> m)) end.

Definition map_get (m : gomap) (k : string) : option LeaseRec := m ≫= (.!! k).

Definition AcceptBid (leaseID bearer : string) (st : PirState) : outcome (option string * PirState) :=
  let '(m, st) := loadBook st in
  match map_set m leaseID (MkLease (stringsLower bearer) EmptyString true EmptyString 0 EmptyString) with
  | Panic => Panic
  | Ret m => Ret (saveBook m st)
  end.

Definition ErrNotExist : string := "file does not exist".

Definition OpenSession (leaseID sessionBearer : string) (st : PirState) : outcome (option string * PirState) :=
  let '(m, st) := loadBook st in
  match map_get m leaseID with
  | None => Ret (Some ErrNotExist, st)
  | Some (MkLease b _ o c h n) =>
      if negb o then Ret (Some ErrNotExist, st)
      else match map_set m leaseID (MkLease b (stringsLower sessionBearer) o c h n) with
           | Panic => Panic
           | Ret m => Ret (saveBook m st)
           end
  end.

Definition CloseLease (leaseID : string) (st : PirState) : outcome (option string * PirState) :=
  let '(m, st) := loadBook st in
  match map_get m leaseID with
  | None => Ret (saveBook m st)
  | Some (MkLease b _ _ c h n) =>
      match map_set m leaseID (MkLease b EmptyString false c h n) with
      | Panic => Panic
      | Ret m => Ret (saveBook m st)
      end
  end.

(** The answers of [AccessLease]. *)
Inductive access := Unknown | Closed | Unauthorized | AccessOk.

Definition access_text (a : access) : string :=
  match a with Unknown => "unknown" | Closed => "closed" | Unauthorized => "unauthorized" | AccessOk => "ok" end.

Definition rec_access (rec : option LeaseRec) (bearer : string) : access :=
  match rec with
  | None => Unknown
  | Some rec =>
      if negb (Open rec) then Closed
      else
        let b := stringsLower bearer in
        if (Bearer rec =? b)%string || (negb (Session rec =? "")%string && (Session rec =? b)%string)
        then AccessOk else Unauthorized
  end.

Definition AccessLease (leaseID bearer : string) (st : PirState) : string * PirState :=
  let '(m, st) := loadBook st in
  (access_text (rec_access (map_get m leaseID) bearer), st).

(** The bearers one record admits. *)
Definition rec_bearers (rec : LeaseRec) : gset string :=
  (if Open rec && (strlen (Bearer rec) =? 64) then {[Bearer rec]} else ∅) ∪
  (if Open rec && (strlen (Session rec) =? 64) then {[Session rec]} else ∅).

Definition openBearers (st : PirState) : gset string * PirState :=
  let '(m, st) := loadBook st in
  (map_fold (λ _ rec out, rec_bearers rec ∪ out) ∅ (default ∅ m), st).

(** ** access.go *)

Definition tagBearer : string := "pir-access-bearer-v1".
Definition tagSecret : string := "pir-access-v1".
Definition tagSession : string := "pir-access-session-v1".
Definition tagSessionBearer : string := "pir-access-session-bearer-v1".

Fixpoint write_parts (parts : list string) : string :=
  match parts with
  | [] => EmptyString
  | p :: parts => PutUint64 (strlen p) +:+ p +:+ write_parts parts
  end.

(** access.go has its own copy of the tagged hash. *)
Definition access_taggedHash (tag : string) (parts : list string) : string :=
  sha256 (tag +:+ String (byte_of (strlen tag mod 256)) (write_parts parts)).

Definition SecretFromSession (askID sessionKey bidCommitment : string) : string :=
  access_taggedHash tagSecret [sessionKey; bidCommitment; askID].

Definition BearerHex (secret : string) : string :=
  hex_EncodeToString (access_taggedHash tagBearer [secret]).

Definition SessionBearerHex (askID oobKey note nonce : string) : string :=
  let secret := access_taggedHash tagSession [oobKey; note; askID; nonce] in
  hex_EncodeToString (access_taggedHash tagSessionBearer [secret]).

Context `{GoUnicode}.

Definition is_sep (c : ascii) : bool := (code c =? 44) || (code c =? 10) || (code c =? 32).

(** The allow-list: the variable, or the file when it can be read. *)
Definition loadEnvOrFile (st : PirState) : gset string :=
  let raw := env "PIR_ACCESS_BEARERS" in
  let p := env "PIR_ACCESS_BEARERS_FILE" in
  let raw := if (p =? "")%string then raw
             else match files st !! p with Some b => b | None => raw end in
  foldl (λ out t, let t := TrimSpace (ToLower t) in
                  if strlen t =? 64 then {[t]} ∪ out else out) ∅ (FieldsFunc raw is_sep).

(** The variable [allowed] it clears is read by nothing. *)
Definition ResetAllowed (st : PirState) : PirState :=
  if (leasePath =? "")%string then MkPir (Some ∅) (files st) else st.

Definition hexTok (tok : string) : option string :=
  let t := ToLower (TrimSpace tok) in
  if negb (strlen t =? 64) then None
  else if str_forall is_lhex t then Some t else None.

Definition AcceptBearer (tok : string) (st : PirState) : bool * PirState :=
  match hexTok tok with
  | None => (false, st)
  | Some t =>
      let '(open, st) := openBearers st in
      if bool_decide (t ∈ open) then (true, st)
      else (bool_decide (t ∈ loadEnvOrFile st), st)
  end.

End lease.

(** ** serve.go *)

Definition defaultServeImage : string := "python:3.12-alpine".

Definition name_char (c : ascii) : bool := is_lower c || is_upper c || is_digit c || (c =? "-")%char.

(** One byte per rune: a rune outside [a-zA-Z0-9-] becomes a dash, and so
    does a byte that is not UTF-8. *)
Fixpoint name_runes (s : string) : string :=
  match s with
  | EmptyString => EmptyString
  | String a s1 =>
      if is_ascii a then String (if name_char a then a else "-"%char) (name_runes s1)
      else String "-" match s1 with
      | EmptyString => EmptyString
      | String b s2 =>
          if ok2 a b then name_runes s2
          else match s2 with
          | EmptyString => name_runes s1
          | String c s3 =>
              if ok3 a b c then name_runes s3
              else match s3 with
              | EmptyString => name_runes s1
              | String d s4 => if ok4 a b c d then name_runes s4 else name_runes s1
              end
          end
      end
  end.

Definition leaseContainerName (leaseID : string) : string := "pir-lease-" +:+ name_runes leaseID.

(** The docker command line: its combined output and whether it succeeds,
    after the commands run before. *)
Class Docker := docker : list (list string) → list string → string * bool.

(** One round of [waitLeaseServing]: whether the in-container request
    succeeds, its output, and the status or error of the host request. *)
Record poll := MkPoll { exec_ok : bool; exec_out : string; host_get : result string Z }.

Section serve.
Context `{FileSystem} `{GoUnicode} `{Aead} `{Network} `{Docker}.
Variable env : string → string.

(** The book and the files, the requests and the docker commands so far. *)
Record ServeState := MkServe {
  s_pir : PirState; s_net : list HttpReq; s_docker : list (list string) }.

Definition os_of (st : PirState) : Os :=
  MkOs env (λ p, match files st !! p with Some b => Ok b | None => Err ErrNotExist end).

Definition rm_args (name : string) : list string := ["rm"; "-f"; name].

Definition run_args (leaseID name image : string) (hostPort : Z) : list string :=
  ["run"; "-d"; "--name"; name; "-p"; ItoaZ hostPort +:+ ":8080";
   "--label"; "pir.lease=" +:+ leaseID; "--label"; "pir.role=re-zerve-serve";
   image; "python"; "-m"; "http.server"; "8080"].

(** The rounds made before the deadline, in order; the error carries what
    the last one saw. *)
Fixpoint wait_rounds (name : string) (hostPort : Z) (last : string) (rounds : list poll) : option string :=
  match rounds with
  | [] => Some ("lease container " +:+ name +:+ " not serving HTTP: " +:+ last)
  | r :: rounds =>
      if exec_ok r then None
      else
        let last := "exec: " +:+ TrimSpace (exec_out r) in
        if (0 <? hostPort)%Z then
          match host_get r with
          | Ok status =>
              if (status =? 200)%Z then None
              else wait_rounds name hostPort ("host status " +:+ ItoaZ status) rounds
          | Err e => wait_rounds name hostPort e rounds
          end
        else wait_rounds name hostPort last rounds
  end.

Definition waitLeaseServing (name : string) (hostPort : Z) (rounds : list poll) : option string :=
  wait_rounds name hostPort "<nil>" rounds.

Definition pick_image (image : string) : string :=
  let image := if (image =? "")%string then env "PIR_SERVE_IMAGE" else image in
  if (image =? "")%string then defaultServeImage else image.

Definition pick_port (hostPort : Z) : Z := if (hostPort <=? 0)%Z then 18765 else hostPort.

(** The record of a lease whose container was started. *)
Definition record_container (leaseID bearer id name : string) (hostPort : Z) (st : PirState) : outcome PirState :=
  let '(m, st) := loadBook env st in
  let '(MkLease _ s _ _ _ _) := default LeaseRec_zero (map_get m leaseID) in
  match map_set m leaseID (MkLease (stringsLower bearer) s true id hostPort name) with
  | Panic => Panic
  | Ret m => Ret (saveBook env m st).2
  end.

Definition ServeLease (leaseID bearer image : string) (hostPort : Z) (rounds : list poll) (st : ServeState)
    : outcome (result string (string * Z) * ServeState) :=
  let '(allowed, net) := Gate.PirAllocationAllowed (os_of (s_pir st)) (s_net st) in
  if negb allowed
  then Ret (Err "allocate denied (commit / zap1 gate)", MkServe (s_pir st) net (s_docker st))
  else
    match AcceptBid env leaseID bearer (s_pir st) with
    | Panic => Panic
    | Ret (Some e, pir) => Ret (Err e, MkServe pir net (s_docker st))
    | Ret (None, pir) =>
        let image := pick_image image in
        let hostPort := pick_port hostPort in
        let name := leaseContainerName leaseID in
        let log := s_docker st ++ [rm_args name] in
        let args := run_args leaseID name image hostPort in
        let '(out, ok) := docker log args in
        let log := log ++ [args] in
        let id := TrimSpace out in
        if negb ok then Ret (Err ("docker run: " +:+ id), MkServe pir net log)
        else
          match record_container leaseID bearer id name hostPort pir with
          | Panic => Panic
          | Ret pir =>
              match waitLeaseServing name hostPort rounds with
              | Some e => Ret (Err e, MkServe pir net (log ++ [rm_args name]))
              | None => Ret (Ok (id, hostPort), MkServe pir net log)
              end
          end
    end.

Definition StopServe (leaseID : string) (st : ServeState) : outcome (option string * ServeState) :=
  let '(m, pir) := loadBook env (s_pir st) in
  let name := match map_get m leaseID with
              | Some rec => if (Name rec =? "")%string then leaseContainerName leaseID else Name rec
              | None => leaseContainerName leaseID
              end in
  let log := s_docker st ++ [rm_args name] in
  match CloseLease env leaseID pir with
  | Panic => Panic
  | Ret (e, pir) => Ret (e, MkServe pir (s_net st) log)
  end.

Definition inspect_args (name : string) : list string := ["inspect"; "-f"; "{{.State.Running}}"; name].

Definition ContainerRunning (leaseID : string) (st : ServeState) : bool :=
  let '(out, ok) := docker (s_docker st) (inspect_args (leaseContainerName leaseID)) in
  ok && (TrimSpace out =? "true")%string.

End serve.

(** ** Lemmas: the book survives its JSON form *)

Definition rec_ok (r : LeaseRec) : bool :=
  utf8_valid (Bearer r) && utf8_valid (Session r) && utf8_valid (Container r) && utf8_valid (Name r) &&
  (- 2 ^ 63 <=? HostPort r)%Z && (HostPort r <? 2 ^ 63)%Z.

Definition book_ok (m : gmap string LeaseRec) : Prop :=
  map_Forall (λ k r, utf8_valid k = true ∧ rec_ok r = true) m.

Lemma nat_lit_head s : nat_lit s = true → ∃ c t, s = String c t ∧ (c =? "-")%char = false.
Proof.
  destruct s as [|c t]; [done|]. intros H. exists c, t. split; [done|].
  apply Ascii.eqb_neq. intros ->. done.
Qed.

Lemma into_int_ItoaZ z old :
  (- 2 ^ 63 <= z < 2 ^ 63)%Z → into_int (JNum (ItoaZ z)) old = Some z.
Proof.
  intros Hz. unfold ItoaZ. destruct (Z.ltb_spec z 0).
  - cbn -[parse_uint Itoa]. rewrite parse_uint_Itoa by lia. cbn -[Itoa]. f_equal. lia.
  - destruct (nat_lit_head _ (Itoa_nat_lit (Z.to_N z))) as (c & t & E & Hc).
    cbn -[parse_uint Itoa]. rewrite E, Hc, <- E, parse_uint_Itoa by lia. cbn -[Itoa]. f_equal. lia.
Qed.

Lemma ItoaZ_int_lit z : int_lit (ItoaZ z) = true.
Proof. unfold ItoaZ. destruct (z <? 0)%Z; [apply (Itoa_nat_lit)|apply Itoa_int_lit]. Qed.

Lemma rec_ok_spec r :
  rec_ok r = true →
  utf8_valid (Bearer r) = true ∧ utf8_valid (Session r) = true ∧ utf8_valid (Container r) = true ∧
  utf8_valid (Name r) = true ∧ (- 2 ^ 63 <= HostPort r < 2 ^ 63)%Z.
Proof. unfold rec_ok. rewrite !andb_true_iff, Z.leb_le, Z.ltb_lt. tauto. Qed.

Lemma omit_empty_wf k s : utf8_valid k = true → utf8_valid s = true →
  forallb (λ kv, utf8_valid kv.1 && json_wf kv.2) (omit_empty k s) = true.
Proof. intros Hk Hs. unfold omit_empty. case_match; [done|]. simpl. by rewrite Hk, Hs. Qed.

Lemma LeaseRec_json_wf r : rec_ok r = true → json_wf (LeaseRec_json r) = true.
Proof.
  intros (H1 & H2 & H3 & H4 & _)%rec_ok_spec. unfold LeaseRec_json. cbn [json_wf].
  rewrite !forallb_app, !omit_empty_wf by done. cbn [forallb fst snd json_wf].
  eval_valid. rewrite H1. cbn [andb].
  destruct (HostPort r =? 0)%Z; [done|]. cbn [forallb fst snd json_wf]. eval_valid.
  by rewrite ItoaZ_int_lit.
Qed.

Lemma LeaseRec_json_depth r : json_depth (LeaseRec_json r) = 1.
Proof.
  unfold LeaseRec_json, omit_empty. cbn [json_depth].
  by destruct (_ =? _)%string, (_ =? _)%string, (_ =? _)%Z, (_ =? _)%string.
Qed.

Lemma into_LeaseRec_json r : rec_ok r = true → into_LeaseRec (LeaseRec_json r) LeaseRec_zero = Some r.
Proof.
  intros (_ & _ & _ & _ & Hp)%rec_ok_spec. destruct r as [b s o c h n]. simpl in Hp.
  unfold LeaseRec_json, omit_empty, into_LeaseRec. cbn [Bearer Session Open Container HostPort Name].
  destruct (String.eqb_spec s ""), (String.eqb_spec c ""), (Z.eqb_spec h 0), (String.eqb_spec n "");
    subst; cbn -[field_match into_int ItoaZ]; eval_fields;
    repeat (cbn -[field_match into_int ItoaZ]; eval_fields);
    by rewrite ?into_int_ItoaZ by done.
Qed.

Definition ins (m : gmap string LeaseRec) (kv : string * LeaseRec) : gmap string LeaseRec :=
  <[kv.1 := kv.2]> m.

Lemma foldl_ins (l : list (string * LeaseRec)) : foldl ins ∅ l = list_to_map (reverse l).
Proof.
  induction l as [|[k r] l IH] using rev_ind; [done|].
  by rewrite foldl_snoc, reverse_snoc, list_to_map_cons, IH.
Qed.

Lemma into_book_json m : book_ok m → into_book (book_json (Some m)) = Some (Some m).
Proof.
  intros Hm. unfold book_json, into_book.
  set (l := merge_sort _ (map_to_list m)).
  assert (l ≡ₚ map_to_list m) as Hl by apply merge_sort_Permutation.
  assert (Forall (λ kv, rec_ok kv.2 = true) l) as Hok.
  { rewrite Hl. apply Forall_forall. intros [k r] Hkr%elem_of_map_to_list. by apply Hm in Hkr as [_ ?]. }
  assert (∀ m0, foldl (λ acc kv, m ← acc; r ← into_LeaseRec kv.2 LeaseRec_zero; Some (<[kv.1:=r]> m))
            (Some m0) (prod_map id LeaseRec_json <$> l) = Some (foldl ins m0 l)) as E.
  { clear Hl. induction Hok as [|[k r] l' Hr _ IH]; intros m0; [done|].
    cbn [fmap list_fmap foldl prod_map fst snd mbind option_bind id].
    rewrite into_LeaseRec_json by done. cbn [mbind option_bind]. by rewrite IH. }
  rewrite E, foldl_ins. simpl. do 2 f_equal.
  rewrite <- (list_to_map_to_list m). apply list_to_map_proper.
  - rewrite reverse_Permutation, Hl. apply NoDup_fst_map_to_list.
  - by rewrite reverse_Permutation.
Qed.

Lemma book_json_wf m : book_ok m → json_wf (book_json (Some m)) = true.
Proof.
  intros Hm. cbn [book_json json_wf]. apply forallb_forall. intros kv Hkv%list_elem_of_In.
  apply list_elem_of_fmap in Hkv as ([k r] & -> & Hkr).
  rewrite merge_sort_Permutation in Hkr. apply elem_of_map_to_list, Hm in Hkr as [Hk Hr].
  cbn [prod_map fst snd id]. by rewrite Hk, LeaseRec_json_wf.
Qed.

Lemma book_json_depth m : json_depth (book_json (Some m)) <= 2.
Proof.
  cbn [book_json json_depth]. change 2 with (1 + 1). apply N.add_le_mono_l.
  induction (merge_sort _ _) as [|[k r] l IH]; [done|].
  cbn [fmap list_fmap foldr prod_map snd]. rewrite LeaseRec_json_depth. lia.
Qed.

(** The text [saveBook] writes is read back by [loadBook]. *)
Lemma book_text_roundtrip m :
  book_ok m →
  (j ← json_parse (json_MarshalIndent (book_json (Some m))); into_book j) = Some (Some m) ∧
  json_MarshalIndent (book_json (Some m)) ≠ EmptyString.
Proof.
  intros Hm. unfold json_MarshalIndent. split.
  - rewrite <- (str_app_nil_r (json_print _ _ _)).
    rewrite json_parse_print; [|apply _|by apply book_json_wf| |done].
    + cbn [mbind option_bind]. by apply into_book_json.
    + pose proof (book_json_depth m). unfold maxNestingDepth. lia.
  - destruct (json_print_head indented 0 _ (book_json_wf m Hm)) as (c & s & -> & _). done.
Qed.

(** ** The abstract lease book *)

Inductive lease_op :=
| OpAccept (leaseID bearer : string)
| OpSession (leaseID session : string)
| OpClose (leaseID : string).

Definition close_rec (r : LeaseRec) : LeaseRec :=
  MkLease (Bearer r) EmptyString false (Container r) (HostPort r) (Name r).
Definition session_rec (s : string) (r : LeaseRec) : LeaseRec :=
  MkLease (Bearer r) s (Open r) (Container r) (HostPort r) (Name r).

(** What each operation promises about the book, and the error it reports. *)
Definition spec_op (op : lease_op) (m : gmap string LeaseRec) : option string * gmap string LeaseRec :=
  match op with
  | OpAccept l b => (None, <[l := MkLease (stringsLower b) EmptyString true EmptyString 0 EmptyString]> m)
  | OpSession l s =>
      if match m !! l with Some r => Open r | None => false end
      then (None, alter (session_rec (stringsLower s)) l m) else (Some ErrNotExist, m)
  | OpClose l => (None, alter close_rec l m)
  end.

Fixpoint spec_ops (ops : list lease_op) (m : gmap string LeaseRec) : gmap string LeaseRec :=
  match ops with [] => m | op :: ops => spec_ops ops (spec_op op m).2 end.

Definition op_ok (op : lease_op) : bool :=
  match op with
  | OpAccept l b => utf8_valid l && str_forall is_ascii b
  | OpSession l s => utf8_valid l && str_forall is_ascii s
  | OpClose l => utf8_valid l
  end.

Section lease_facts.
Context `{FileSystem}.
Variable env : string → string.

Definition run_op (op : lease_op) : PirState → outcome (option string * PirState) :=
  match op with
  | OpAccept l b => AcceptBid env l b
  | OpSession l s => OpenSession env l s
  | OpClose l => CloseLease env l
  end.

(** Run in sequence; errors do not stop the caller. *)
Fixpoint run_ops (ops : list lease_op) (st : PirState) : outcome PirState :=
  match ops with
  | [] => Ret st
  | op :: ops => match run_op op st with Panic => Panic | Ret (_, st) => run_ops ops st end
  end.

(** The book the next operation sees. *)
Definition contents (st : PirState) : gomap := (loadBook env st).1.

(** The file system accepts the book's file. *)
Definition fs_ok : Prop := mkdir_error (leasePath env) = None ∧ write_error (leasePath env) = None.

Lemma loadBook_idem st : loadBook env (loadBook env st).2 = loadBook env st.
Proof.
  unfold loadBook. destruct (leasePath env =? "")%string; [by destruct (book st)|].
  destruct (files st !! leasePath env) eqn:Ef; [|cbn [fst snd]; by rewrite Ef].
  destruct (_ =? "")%string eqn:Er; [cbn [fst snd]; by rewrite Ef, Er|].
  destruct (mbind _ _) eqn:Ej; cbn [fst snd]; by rewrite Ef, Er, Ej.
Qed.

Lemma contents_load st : contents (loadBook env st).2 = contents st.
Proof. unfold contents. by rewrite loadBook_idem. Qed.

(** Saving a book makes it the contents, in memory and on disk alike. *)
Lemma saveBook_contents m st :
  fs_ok → book_ok m →
  (saveBook env (Some m) st).1 = None ∧ contents (saveBook env (Some m) st).2 = Some m.
Proof.
  intros [Hd Hw] Hm. unfold saveBook, contents, loadBook.
  destruct (leasePath env =? "")%string eqn:Ep; [by rewrite ?Ep|].
  rewrite Hd, Hw. cbn [fst snd files]. rewrite lookup_insert_eq.
  destruct (book_text_roundtrip m Hm) as [Hj Hne%String.eqb_neq]. by rewrite Hne, Hj.
Qed.

Lemma saveBook_ret m st :
  fs_ok → book_ok m →
  ∃ st', Ret (saveBook env (Some m) st) = Ret (None, st') ∧ contents st' = Some m.
Proof.
  intros Hfs Hm. destruct (saveBook_contents m st Hfs Hm) as [He Hs].
  destruct (saveBook _ _ _) as [e st2]. simpl in *. subst. eauto.
Qed.

Lemma ascii_lower s : str_forall is_ascii s = true → utf8_valid (stringsLower s) = true.
Proof.
  intros Hs. apply utf8_valid_ascii. unfold stringsLower. induction s as [|c s IH]; [done|].
  simpl in *. apply andb_true_iff in Hs as [Hc Hs]. rewrite IH by done. rewrite andb_true_r.
  enough (implb (is_ascii c) (is_ascii (lower_ascii c)) = true) as E by by rewrite Hc in E.
  clear Hc Hs IH. by_bytes c.
Qed.

Lemma rec_ok_lower b : str_forall is_ascii b = true →
  rec_ok (MkLease (stringsLower b) EmptyString true EmptyString 0 EmptyString) = true.
Proof. intros Hb%ascii_lower. unfold rec_ok. cbn [Bearer]. by rewrite Hb. Qed.

Lemma rec_ok_session s r : str_forall is_ascii s = true → rec_ok r = true →
  rec_ok (session_rec (stringsLower s) r) = true.
Proof.
  intros Hs%ascii_lower. unfold rec_ok, session_rec. cbn [Bearer Session Open Container HostPort Name]. rewrite !andb_true_iff. rewrite Hs. tauto.
Qed.

Lemma rec_ok_close r : rec_ok r = true → rec_ok (close_rec r) = true.
Proof.
  unfold rec_ok, close_rec. cbn [Bearer Session Open Container HostPort Name].
  rewrite !andb_true_iff. intuition.
Qed.

Lemma book_ok_alter f k m :
  (∀ r, rec_ok r = true → rec_ok (f r) = true) → book_ok m → book_ok (alter f k m).
Proof.
  intros Hf Hm i r. rewrite lookup_alter. case_decide; subst; [|apply Hm].
  intros (r' & Hr & ->)%fmap_Some. apply Hm in Hr as []. auto.
Qed.

Lemma spec_op_ok op m : op_ok op = true → book_ok m → book_ok (spec_op op m).2.
Proof.
  intros Hop Hm. destruct op as [l b|l s|l]; simpl in Hop |- *.
  - apply andb_true_iff in Hop as [Hl Hb].
    apply map_Forall_insert_2; [by split; [|apply rec_ok_lower]|done].
  - apply andb_true_iff in Hop as [_ Hs]. case_match; [|done].
    apply book_ok_alter; auto using rec_ok_session.
  - apply book_ok_alter; auto using rec_ok_close.
Qed.

Lemma alter_insert f k (r : LeaseRec) (m : gmap string LeaseRec) :
  m !! k = Some r → alter f k m = <[k := f r]> m.
Proof. intros Hk. apply map_eq. intros i. rewrite lookup_alter, lookup_insert. by case_decide; subst; rewrite ?Hk. Qed.

Lemma alter_absent f k (m : gmap string LeaseRec) : m !! k = None → alter f k m = m.
Proof. intros Hk. apply alter_id. congruence. Qed.

(** Each operation does to the stored book what the specification says. *)
Lemma run_op_refines op st m :
  fs_ok → contents st = Some m → book_ok m → op_ok op = true →
  ∃ st', run_op op st = Ret ((spec_op op m).1, st') ∧ contents st' = Some (spec_op op m).2.
Proof.
  intros Hfs Hc Hm Hop. pose proof (spec_op_ok op m Hop Hm) as Hok.
  unfold contents in Hc. pose proof (contents_load st) as Hcl. unfold contents in Hcl at 2.
  destruct op as [l b|l s|l]; unfold run_op, AcceptBid, OpenSession, CloseLease; cbn [spec_op] in Hok |- *;
    destruct (loadBook env st) as [mb st1]; simpl in Hc, Hcl; subst mb;
    unfold map_get; cbn [mbind option_bind].
  - by apply saveBook_ret.
  - destruct (m !! l) as [[b ss o c h n]|] eqn:Em; [|by eauto].
    cbn [Open] in *. destruct o; cbn [negb]; [|by eauto].
    rewrite (alter_insert _ _ _ _ Em) in *. by apply saveBook_ret.
  - destruct (m !! l) as [[b ss o c h n]|] eqn:Em.
    + rewrite (alter_insert _ _ _ _ Em) in *. by apply saveBook_ret.
    + rewrite (alter_absent _ _ _ Em) in *. by apply saveBook_ret.
Qed.

Lemma run_ops_refines ops st m :
  fs_ok → contents st = Some m → book_ok m → forallb op_ok ops = true →
  ∃ st', run_ops ops st = Ret st' ∧ contents st' = Some (spec_ops ops m) ∧ book_ok (spec_ops ops m).
Proof.
  intros Hfs. revert st m. induction ops as [|op ops IH]; intros st m Hc Hm; simpl; [eauto|].
  intros [Hop Hops]%andb_true_iff.
  destruct (run_op_refines op st m) as (st1 & -> & Hc1); [done..|].
  apply IH; [done| |done]. by apply spec_op_ok.
Qed.

End lease_facts.

(** ** Lemmas on access *)

Section access_facts.
Context `{FileSystem} `{GoUnicode}.
Variable env : string → string.

(** The open lease of [m] that admits the token [t]. *)
Definition held_by (m : gmap string LeaseRec) (t : string) : Prop :=
  ∃ l r, m !! l = Some r ∧ Open r = true ∧ (Bearer r = t ∨ Session r = t).

Lemma elem_of_rec_bearers t r :
  String.length t = 64%nat →
  t ∈ rec_bearers r ↔ Open r = true ∧ (Bearer r = t ∨ Session r = t).
Proof.
  intros Ht. unfold rec_bearers.
  assert (∀ s, strlen s =? 64 = true ↔ String.length s = 64%nat) as Hl.
  { intros s. unfold strlen. rewrite N.eqb_eq. lia. }
  rewrite elem_of_union. destruct (Open r); simpl; [|set_solver].
  destruct (strlen (Bearer r) =? 64) eqn:E1, (strlen (Session r) =? 64) eqn:E2;
    rewrite ?elem_of_singleton, ?elem_of_empty;
    try (apply Hl in E1); try (apply Hl in E2); split; try naive_solver;
    intros [_ [<-|<-]]; apply Hl in Ht; congruence || auto.
Qed.

Lemma elem_of_openBearers t st :
  String.length t = 64%nat →
  t ∈ (openBearers env st).1 ↔ held_by (default ∅ (contents env st)) t.
Proof.
  intros Ht. unfold openBearers, contents. destruct (loadBook env st) as [m st1]. cbn [fst].
  generalize (default ∅ m : gmap string LeaseRec). clear m. intros m. unfold held_by.
  apply (map_fold_weak_ind (λ out m, t ∈ out ↔
    ∃ l r, m !! l = Some r ∧ Open r = true ∧ (Bearer r = t ∨ Session r = t))); clear m.
  - split; [set_solver|]. intros (l & r & Hl & _). by rewrite lookup_empty in Hl.
  - intros k r m out Hk IH. rewrite elem_of_union, IH, elem_of_rec_bearers by done. split.
    + intros [?|(l & r' & Hl & ?)]; [by exists k, r; rewrite lookup_insert_eq|].
      exists l, r'. by rewrite lookup_insert_ne by congruence.
    + intros (l & r' & Hl & ?). apply lookup_insert_Some in Hl as [[-> ->]|[? ?]]; eauto.
Qed.

Lemma hexTok_spec tok t : hexTok tok = Some t → String.length t = 64%nat ∧ str_forall is_lhex t = true.
Proof.
  unfold hexTok. destruct (strlen _ =? 64) eqn:E; [|done]. simpl.
  destruct (str_forall is_lhex _) eqn:E2; [|done]. intros [= <-].
  apply N.eqb_eq in E. unfold strlen in E. split; [lia|done].
Qed.

Lemma loadEnvOrFile_files st st' : files st = files st' → loadEnvOrFile env st = loadEnvOrFile env st'.
Proof. intros E. unfold loadEnvOrFile. by rewrite E. Qed.

Lemma loadBook_files st : files (loadBook env st).2 = files st.
Proof. unfold loadBook. by repeat case_match. Qed.

(** The decision of [AcceptBearer]. *)
Lemma AcceptBearer_iff tok st :
  (AcceptBearer env tok st).1 = true ↔
  ∃ t, hexTok tok = Some t ∧
    (held_by (default ∅ (contents env st)) t ∨ t ∈ loadEnvOrFile env st).
Proof.
  unfold AcceptBearer. destruct (hexTok tok) as [t|] eqn:Et; [|naive_solver].
  pose proof (elem_of_openBearers t st (proj1 (hexTok_spec _ _ Et))) as Ho.
  assert (files (openBearers env st).2 = files st) as Hf.
  { unfold openBearers. pose proof (loadBook_files st). by destruct (loadBook env st). }
  destruct (openBearers env st) as [open st1]. simpl in Ho, Hf.
  rewrite (loadEnvOrFile_files st1 st Hf).
  case_bool_decide as Hb; simpl; [naive_solver|]. rewrite bool_decide_eq_true. naive_solver.
Qed.

End access_facts.

(** ** Properties *)

Section lease_properties.
Context `{FileSystem} `{GoUnicode}.
Variable env : string → string.

(** Claim C7.  The lease book refines its abstract map in both storage modes:
    from a state whose book reads as [m], any sequence of accepts, session
    openings and closings runs without panic and ends in a state whose book
    reads as the specification's map, and [AccessLease] then answers by that
    map's record. *)
Theorem lease_book_refines ops st m :
  fs_ok env → contents env st = Some m → book_ok m → forallb op_ok ops = true →
  ∃ st', run_ops env ops st = Ret st' ∧ contents env st' = Some (spec_ops ops m) ∧
    ∀ l b, (AccessLease env l b st').1 = access_text (rec_access (spec_ops ops m !! l) b).
Proof.
  intros Hfs Hc Hm Hops. destruct (run_ops_refines env ops st m) as (st' & Hr & Hc' & _); [done..|].
  exists st'. split_and!; [done..|]. intros l b. unfold AccessLease. unfold contents in Hc'.
  destruct (loadBook env st') as [mb st2]. simpl in Hc'. by subst mb.
Qed.

(** A bearer is admitted exactly when, trimmed and lower-cased, it
    is 64 hex digits and an open lease of the book holds it as its bearer or
    session, or the allow-list lists it. *)
Theorem accept_bearer_iff tok st :
  (AcceptBearer env tok st).1 = true ↔
  ∃ t, hexTok tok = Some t ∧ String.length t = 64%nat ∧ str_forall is_lhex t = true ∧
    (held_by (default ∅ (contents env st)) t ∨ t ∈ loadEnvOrFile env st).
Proof.
  rewrite AcceptBearer_iff. split; [|naive_solver].
  intros (t & Ht & Hh). exists t. destruct (hexTok_spec _ _ Ht). done.
Qed.

(** Closing a lease denies it: afterwards every bearer gets
    "closed" for it ("unknown" if it was never opened), and a token the
    lease alone held is refused by the gateway unless it is allow-listed. *)
Theorem close_denies l st m :
  fs_ok env → contents env st = Some m → book_ok m → utf8_valid l = true →
  ∃ st', CloseLease env l st = Ret (None, st') ∧
    (∀ b, (AccessLease env l b st').1 = (if decide (is_Some (m !! l)) then "closed" else "unknown")) ∧
    (∀ tok t, hexTok tok = Some t → t ∉ loadEnvOrFile env st' →
       (∀ l' r, m !! l' = Some r → Open r = true → Bearer r = t ∨ Session r = t → l' = l) →
       (AcceptBearer env tok st').1 = false).
Proof.
  intros Hfs Hc Hm Hl.
  destruct (run_op_refines env (OpClose l) st m) as (st' & Hr & Hc'); [done..|].
  exists st'. split; [exact Hr|]. cbn [spec_op fst snd] in *. split.
  - intros b. unfold AccessLease. unfold contents in Hc'. destruct (loadBook env st') as [mb st2].
    simpl in Hc'. subst mb. cbn [fst map_get mbind option_bind]. rewrite lookup_alter_eq.
    by destruct (m !! l) as [r|]; case_decide; try naive_solver.
  - intros tok t Ht Hal Honly. apply not_true_is_false. rewrite AcceptBearer_iff, Hc'.
    intros (t' & Ht' & Hh). simplify_eq/=. destruct Hh as [(l' & r & Hr' & Ho & Hb)|Hin]; [|done].
    rewrite lookup_alter in Hr'. case_decide as Hd.
    + subst l'. by apply fmap_Some in Hr' as (r' & _ & ->).
    + by destruct Hd; symmetry; eapply Honly.
Qed.

End lease_properties.

(** ** Lemmas and properties of serving a lease *)

Section serve_facts.
Context `{FileSystem} `{GoUnicode} `{Aead} `{Network} `{Docker}.
Variable env : string → string.

(** The gate's answer in a state. *)
Definition gate_allows (st : ServeState) : bool :=
  (Gate.PirAllocationAllowed (os_of env (s_pir st)) (s_net st)).1.

(** No container without the gate: when the gate denies,
    [ServeLease] fails, leaves the lease book and the files as they were and
    runs no docker command; and when it succeeds the gate was open and
    exactly two docker commands ran, the removal of an old container of that
    name and the start of the new one. *)
Theorem serve_requires_gate l b image port rounds st r st' :
  ServeLease env l b image port rounds st = Ret (r, st') →
  (gate_allows st = false →
     is_ok r = false ∧ s_pir st' = s_pir st ∧ s_docker st' = s_docker st) ∧
  (∀ id p, r = Ok (id, p) →
     gate_allows st = true ∧ p = pick_port port ∧
     s_docker st' = s_docker st ++ [rm_args (leaseContainerName l);
       run_args l (leaseContainerName l) (pick_image env image) p]).
Proof.
  unfold ServeLease, gate_allows.
  destruct (Gate.PirAllocationAllowed _ _) as [[] net] eqn:Eg; cbn [negb fst].
  - intros Hs. split; [done|].
    destruct (AcceptBid env l b (s_pir st)) as [[[e|] pir]|]; [naive_solver| |done].
    destruct (docker _ _) as [out []]; cbn [negb] in Hs; [|naive_solver].
    destruct (record_container _ _ _ _ _ _ _) as [pir'|]; [|done].
    destruct (waitLeaseServing _ _ _); simplify_eq; [naive_solver|].
    intros id p [= <- <-]. split_and!; [done..|]. cbn [s_docker]. by rewrite <- app_assoc.
  - intros [= <- <-]. split; [done|]. naive_solver.
Qed.

Lemma AcceptBid_contents l b st m :
  fs_ok env → contents env st = Some m → book_ok m → utf8_valid l = true → str_forall is_ascii b = true →
  ∃ st', AcceptBid env l b st = Ret (None, st') ∧
    contents env st' = Some (<[l := MkLease (stringsLower b) EmptyString true EmptyString 0 EmptyString]> m).
Proof.
  intros Hfs Hc Hm Hl Hb. apply (run_op_refines env (OpAccept l b) st m); try done.
  simpl. by rewrite Hl, Hb.
Qed.

Lemma record_container_contents l b id name port st m :
  fs_ok env → contents env st = Some m → book_ok m → utf8_valid l = true → str_forall is_ascii b = true →
  utf8_valid id = true → utf8_valid name = true → (- 2 ^ 63 <= port < 2 ^ 63)%Z →
  ∃ st', record_container env l b id name port st = Ret st' ∧
    contents env st' =
    Some (<[l := MkLease (stringsLower b) (Session (default LeaseRec_zero (m !! l))) true id port name]> m).
Proof.
  intros Hfs Hc Hm Hl Hb Hid Hn Hp. unfold record_container.
  unfold contents in Hc. destruct (loadBook env st) as [mb st1]. simpl in Hc. subst mb.
  unfold map_get. cbn [mbind option_bind].
  destruct (default LeaseRec_zero (m !! l)) as [b0 s0 o0 c0 h0 n0] eqn:Er. cbn [map_set Session].
  assert (utf8_valid s0 = true) as Hs0.
  { destruct (m !! l) as [r|] eqn:Em; simpl in Er; [|by injection Er as <-; subst].
    subst r. apply Hm in Em as [_ (_ & ? & _)%rec_ok_spec]. done. }
  assert (book_ok (<[l:=MkLease (stringsLower b) s0 true id port name]> m)) as Hok.
  { apply map_Forall_insert_2; [split; [done|]|done]. unfold rec_ok.
    cbn [Bearer Session Container HostPort Name]. rewrite (ascii_lower b Hb), Hs0, Hid, Hn. simpl.
    rewrite andb_true_iff, Z.leb_le, Z.ltb_lt. lia. }
  destruct (saveBook_ret env _ st1 Hfs Hok) as (st2 & E & Hc2). injection E as E. exists st2.
  by rewrite E.
Qed.

Lemma access_open l b b' m st r :
  contents env st = Some m → m !! l = Some r → Open r = true → Bearer r = stringsLower b →
  stringsLower b' = stringsLower b → (AccessLease env l b' st).1 = "ok".
Proof.
  intros Hc Hr Ho Hb E. unfold AccessLease. unfold contents in Hc.
  destruct (loadBook env st) as [mb st1]. simpl in Hc. subst mb. cbn [fst map_get mbind option_bind].
  rewrite Hr. unfold rec_access. rewrite Ho, Hb, E, String.eqb_refl. done.
Qed.

Lemma name_runes_ascii s : str_forall is_ascii (name_runes s) = true.
Proof.
  enough (∀ n s, (String.length s ≤ n)%nat → str_forall is_ascii (name_runes s) = true) by eauto.
  clear s. induction n as [|n IH]; intros [|a s] Hn; simpl in Hn; [done|lia|done|].
  cbn [name_runes]. destruct (is_ascii a) eqn:Ha; cbn [str_forall].
  - rewrite IH by lia. by destruct (name_char a); rewrite ?Ha.
  - repeat case_match; subst; simpl in Hn; try done; apply IH; simpl; lia.
Qed.

Lemma container_name_valid l : utf8_valid (leaseContainerName l) = true.
Proof. apply utf8_valid_ascii. unfold leaseContainerName. by rewrite str_forall_app, name_runes_ascii. Qed.

End serve_facts.

Section serve_properties.
Context `{FileSystem} `{GoUnicode} `{Aead} `{Network} `{Docker}.
Variable env : string → string.

(** The life of a served lease: with the gate open and the book
    readable, if docker starts the container and it answers, [ServeLease]
    returns the container id, the book has the lease open for this bearer
    with its container and port, and the bearer is admitted; [StopServe] then
    removes that container, closes the lease and every bearer gets
    "closed". *)
Theorem serve_stop_lifecycle l b image port rounds st m cid :
  fs_ok env → contents env (s_pir st) = Some m → book_ok m →
  utf8_valid l = true → str_forall is_ascii b = true → (port < 2 ^ 63)%Z →
  gate_allows env st = true →
  (let name := leaseContainerName l in
   let log := s_docker st ++ [rm_args name] in
   ∃ out, docker log (run_args l name (pick_image env image) (pick_port port)) = (out, true) ∧
     TrimSpace out = cid ∧ utf8_valid cid = true ∧
     waitLeaseServing name (pick_port port) rounds = None) →
  ∃ st1 st2,
    ServeLease env l b image port rounds st = Ret (Ok (cid, pick_port port), st1) ∧
    contents env (s_pir st1) =
      Some (<[l := MkLease (stringsLower b) EmptyString true cid (pick_port port) (leaseContainerName l)]> m) ∧
    (AccessLease env l b (s_pir st1)).1 = "ok" ∧
    StopServe env l st1 = Ret (None, st2) ∧
    s_docker st2 = s_docker st1 ++ [rm_args (leaseContainerName l)] ∧
    (∀ b', (AccessLease env l b' (s_pir st2)).1 = "closed").
Proof.
  intros Hfs Hc Hm Hl Hb Hp Hg (out & Hd & Hid & Hv & Hw).
  unfold gate_allows in Hg. unfold ServeLease.
  destruct (Gate.PirAllocationAllowed _ _) as [allowed net]. simpl in Hg. subst allowed. cbn [negb].
  destruct (AcceptBid_contents env l b (s_pir st) m) as (pir1 & -> & Hc1); [done..|].
  cbn zeta. rewrite Hd. cbn [negb]. rewrite Hid.
  set (m1 := <[l:=_]> m) in Hc1.
  assert (book_ok m1) as Hm1 by (apply map_Forall_insert_2; [split; [done|by apply rec_ok_lower]|done]).
  assert (- 2 ^ 63 <= pick_port port < 2 ^ 63)%Z as Hpp by (unfold pick_port; destruct (Z.leb_spec port 0); lia).
  destruct (record_container_contents env l b cid (leaseContainerName l) (pick_port port) pir1 m1)
    as (pir2 & -> & Hc2); [try done; apply container_name_valid..|].
  rewrite Hw. unfold m1 in Hc2. rewrite lookup_insert_eq in Hc2. cbn [default from_option id Session] in Hc2.
  rewrite insert_insert_eq in Hc2. set (st1 := MkServe pir2 net _).
  set (m2 := <[l:=_]> m) in Hc2.
  assert (book_ok m2) as Hm2.
  { apply map_Forall_insert_2; [split; [done|]|done]. unfold rec_ok.
    cbn [Bearer Session Container HostPort Name].
    rewrite (ascii_lower b Hb), Hv, container_name_valid. simpl.
    rewrite andb_true_iff, Z.leb_le, Z.ltb_lt. lia. }
  destruct (run_op_refines env (OpClose l) (loadBook env pir2).2 m2) as (pir3 & Hcl & Hc3);
    [done|by rewrite contents_load|done..|].
  exists st1, (MkServe pir3 net (s_docker st1 ++ [rm_args (leaseContainerName l)])).
  split_and!; [done|exact Hc2| | |done|].
  - by eapply (access_open env l b b m2 pir2); [exact Hc2|apply lookup_insert_eq|..].
  - unfold StopServe. cbn [s_pir st1 s_net s_docker]. unfold contents in Hc2.
    destruct (loadBook env pir2) as [mb pl]. simpl in Hc2, Hcl. subst mb.
    unfold map_get. cbn [mbind option_bind]. unfold m2 at 1. rewrite lookup_insert_eq.
    cbn [Name]. by rewrite Hcl.
  - intros b'. unfold AccessLease. cbn [s_pir]. unfold contents in Hc3. destruct (loadBook env pir3).
    simpl in Hc3. subst. cbn [fst map_get mbind option_bind]. unfold m2.
    by rewrite lookup_alter_eq, lookup_insert_eq.
Qed.

End serve_properties.

(** ** Tag separation *)

(** The tags hashed under by this package and by the bid commitment. *)
Definition hash_tags : list string := [bidCommitTag; tagSecret; tagBearer; tagSession; tagSessionBearer].

Lemma write_parts_hash_parts ps : write_parts ps = hash_parts ps.
Proof. induction ps as [|p ps IH]; simpl; congruence. Qed.

(** No tag followed by its length byte is a prefix of another, so the first
    difference is inside the tags. *)
Lemma tagged_preimage_tag t1 t2 ps qs :
  t1 ∈ hash_tags → t2 ∈ hash_tags → tagged_preimage t1 ps = tagged_preimage t2 qs → t1 = t2.
Proof.
  unfold hash_tags, bidCommitTag, tagSecret, tagBearer, tagSession, tagSessionBearer.
  rewrite !elem_of_cons, !elem_of_nil. unfold tagged_preimage.
  intros H1 H2 E. destruct_or!; subst; try done; discriminate E.
Qed.

(** Both copies of the tagged hash are the same function, and its
    input separates domains: over all tags in use, two inputs are equal only
    for the same tag and the same parts, so a lease bearer, a session bearer,
    a secret and a bid commitment never hash the same bytes. *)
Theorem tagged_hash_domains t1 t2 ps qs :
  t1 ∈ hash_tags → t2 ∈ hash_tags →
  Forall (λ p, strlen p < 2 ^ 64) ps → Forall (λ p, strlen p < 2 ^ 64) qs →
  access_taggedHash t1 ps = taggedHash t1 ps ∧
  (tagged_preimage t1 ps = tagged_preimage t2 qs ↔ t1 = t2 ∧ ps = qs).
Proof.
  intros H1 H2 Hp Hq. split; [unfold access_taggedHash; by rewrite write_parts_hash_parts|].
  split; [|by intros [-> ->]].
  intros E. assert (t1 = t2) as -> by (by eapply tagged_preimage_tag).
  by apply tagged_preimage_inj in E.
Qed.

(** ** Witnesses *)

Module LeaseSample.
Definition env (k : string) : string :=
  if (k =? "PIR_LEASE_BOOK_FILE")%string then "/var/lib/pir/book.json" else EmptyString.
#[export] Instance fs : FileSystem := {| mkdir_error _ := None; write_error _ := None |}.
#[export] Instance unicode : GoUnicode := λ s, s.
#[export] Instance net : Network := {| http_do _ _ := Err "offline"; url_valid _ := true |}.
#[export] Instance dock : Docker := λ _ _, ("c0ffee" +:+ String (byte_of 10) EmptyString, true).
#[export] Existing Instance PlainAead.plain_aead.
Definition st0 : PirState := MkPir None ∅.
Definition serve0 : ServeState := MkServe st0 [] [].
Definition ready : list poll := [MkPoll false "refused" (Err "refused"); MkPoll true EmptyString (Err EmptyString)].
End LeaseSample.

Section lease_witnesses.
Import LeaseSample.

Lemma lease_book_refines_witness :
  ∃ st', run_ops env [OpAccept "L1" sample_ask; OpSession "L1" sample_bid; OpAccept "L2" "AB"; OpClose "L2"] st0 = Ret st' ∧
    (AccessLease env "L1" sample_bid st').1 = "ok" ∧ (AccessLease env "L2" "ab" st').1 = "closed".
Proof.
  destruct (lease_book_refines env
    [OpAccept "L1" sample_ask; OpSession "L1" sample_bid; OpAccept "L2" "AB"; OpClose "L2"] st0 ∅)
    as (st' & Hr & _ & Ha); [split; reflexivity|reflexivity|apply map_Forall_empty|vm_compute; reflexivity|].
  exists st'. rewrite !Ha. split; [exact Hr|]. split; vm_compute; reflexivity.
Defined.

Lemma close_denies_witness :
  ∃ st', CloseLease env "L1" st0 = Ret (None, st') ∧ (AccessLease env "L1" "ab" st').1 = "unknown".
Proof.
  destruct (close_denies env "L1" st0 ∅) as (st' & Hr & Ha & _);
    [split; reflexivity|reflexivity|apply map_Forall_empty|reflexivity|].
  exists st'. split; [exact Hr|]. rewrite Ha. vm_compute. reflexivity.
Defined.

Lemma serve_requires_gate_witness :
  ∃ st', ServeLease env "L1" "AB" EmptyString 0 ready serve0 = Ret (Ok ("c0ffee", 18765%Z), st') ∧
    List.length (s_docker st') = 2%nat.
Proof.
  eexists. split; [vm_compute; reflexivity|].
  match goal with |- List.length (s_docker ?s) = _ =>
    destruct (serve_requires_gate env "L1" "AB" EmptyString 0 ready serve0 (Ok ("c0ffee", 18765%Z)) s)
      as [_ Hok]; [vm_compute; reflexivity|] end.
  destruct (Hok _ _ eq_refl) as (_ & _ & ->). reflexivity.
Defined.

Lemma serve_stop_lifecycle_witness :
  ∃ st1 st2, ServeLease env "L1" "AB" EmptyString 0 ready serve0 = Ret (Ok ("c0ffee", 18765%Z), st1) ∧
    StopServe env "L1" st1 = Ret (None, st2) ∧ (AccessLease env "L1" "ab" (s_pir st2)).1 = "closed".
Proof.
  destruct (serve_stop_lifecycle env "L1" "AB" EmptyString 0 ready serve0 ∅ "c0ffee")
    as (st1 & st2 & H1 & _ & _ & H2 & _ & H3);
    [split; reflexivity|reflexivity|apply map_Forall_empty|reflexivity|reflexivity|lia|reflexivity
    |eexists; repeat split; vm_compute; reflexivity|].
  exists st1, st2. split; [exact H1|]. split; [exact H2|apply H3].
Defined.

Lemma tagged_hash_domains_witness :
  tagged_preimage tagBearer ["secret"] ≠ tagged_preimage tagSessionBearer ["secret"].
Proof.
  intros E. apply (tagged_hash_domains tagBearer tagSessionBearer) in E; [by destruct E|..];
    try (repeat constructor); unfold hash_tags; set_solver.
Defined.

End lease_witnesses.
