(* ===== verification/ChainTypes.v ===== *)
(** * Chain data: resources, quantities and the cluster inventory

    The data the provider takes from the chain SDK ([pkg.akt.dev/go]) and from
    Kubernetes: attributes, resource requests, resource pairs and the cluster
    inventory.  The records have the fields the provider's code reads and
    writes; a pointer field is an [option].  The operations of those packages
    are not part of the repository: they are the fields of the classes below,
    and what the provider relies on is stated as laws of the class
    [PairLaws]. *)
From S2P Require Import Prelude GoStrings.

Open Scope Z_scope.

(** ** Attributes and resource requests *)

Record Attribute := MkAttr { attr_Key : string; attr_Value : string }.
Notation Attributes := (list Attribute).

(** A [ResourceValue] is the number it holds. *)
Notation ResourceValue := Z (only parsing).

Record CPU := MkCPU { cpu_Units : ResourceValue; cpu_Attributes : Attributes }.
Record GPU := MkGPU { gpu_Units : ResourceValue; gpu_Attributes : Attributes }.
Record Memory := MkMemory { mem_Quantity : ResourceValue; mem_Attributes : Attributes }.
Record Storage := MkStorage {
  sto_Name : string; sto_Quantity : ResourceValue; sto_Attributes : Attributes }.

Inductive EndpointKind := SHARED_HTTP | RANDOM_PORT | LEASED_IP.
Record Endpoint := MkEndpoint { ep_Kind : EndpointKind; ep_SequenceNumber : Z }.

Record Resources := MkResources {
  res_ID : Z;
  res_CPU : option CPU;
  res_Memory : option Memory;
  res_Storage : list Storage;
  res_GPU : option GPU;
  res_Endpoints : list Endpoint
}.

(** [sdk.DecCoin]; the amount in units of the smallest decimal. *)
Record DecCoin := MkDecCoin { dc_Denom : string; dc_Amount : Z }.

(** A resource unit: what one replica asks for, and how many replicas. *)
Record ResourceUnit := MkUnit { ru_Resources : Resources; ru_Count : nat }.

#[export] Instance Attribute_eq_dec : EqDecision Attribute.
Proof. solve_decision. Defined.
#[export] Instance CPU_eq_dec : EqDecision CPU.
Proof. solve_decision. Defined.
#[export] Instance GPU_eq_dec : EqDecision GPU.
Proof. solve_decision. Defined.
#[export] Instance Memory_eq_dec : EqDecision Memory.
Proof. solve_decision. Defined.
#[export] Instance Storage_eq_dec : EqDecision Storage.
Proof. solve_decision. Defined.
#[export] Instance EndpointKind_eq_dec : EqDecision EndpointKind.
Proof. solve_decision. Defined.
#[export] Instance Endpoint_eq_dec : EqDecision Endpoint.
Proof. solve_decision. Defined.
#[export] Instance Resources_eq_dec : EqDecision Resources.
Proof. solve_decision. Defined.
#[export] Instance ResourceUnit_eq_dec : EqDecision ResourceUnit.
Proof. solve_decision. Defined.

Definition set_GPU (g : option GPU) (r : Resources) : Resources :=
  MkResources (res_ID r) (res_CPU r) (res_Memory r) (res_Storage r) g (res_Endpoints r).

(** ** Quantities and resource pairs *)

(** Kubernetes' [resource.Quantity]: its whole value, its value in
    thousandths, the comparison with zero, and setting it. *)
Class Quantities := {
  Quantity : Type;
  q_Value : Quantity → Z;
  q_MilliValue : Quantity → Z;
  q_negative : Quantity → bool;
  q_Set : Z → Quantity
}.

Record ResourcePair `{Quantities} := MkPair {
  rp_Capacity : option Quantity;
  rp_Allocatable : option Quantity;
  rp_Allocated : option Quantity
}.

(** The operations of a resource pair.  [SubNLZ] and [SubMilliNLZ] return
    [None] for the answer false, which leaves the pair as it is. *)
Class PairOps `{Quantities} := {
  rp_Available : ResourcePair → Quantity;
  rp_SubNLZ : ResourcePair → ResourceValue → option ResourcePair;
  rp_SubMilliNLZ : ResourcePair → ResourceValue → option ResourcePair
}.

Section pairs.
Context `{PairOps}.

Definition avail (p : ResourcePair) : Z := q_Value (rp_Available p).
Definition avail_milli (p : ResourcePair) : Z := q_MilliValue (rp_Available p).

End pairs.

(** What the provider relies on: "subtract, not less than zero".  The laws are
    about the pairs that are accounted in whole units ([rp_whole]; memory,
    storage, GPUs) or in thousandths ([rp_milli]; CPU). *)
Class PairLaws `{PairOps} := {
  rp_whole : ResourcePair → Prop;
  rp_milli : ResourcePair → Prop;
  SubNLZ_law : ∀ p v, rp_whole p → 0 ≤ v →
    match rp_SubNLZ p v with
    | Some p' => rp_whole p' ∧ v ≤ avail p ∧ avail p' = avail p - v
                 ∧ rp_Capacity p' = rp_Capacity p ∧ rp_Allocatable p' = rp_Allocatable p
    | None => avail p < v
    end;
  SubMilliNLZ_law : ∀ p v, rp_milli p → 0 ≤ v →
    match rp_SubMilliNLZ p v with
    | Some p' => rp_milli p' ∧ v ≤ avail_milli p ∧ avail_milli p' = avail_milli p - v
                 ∧ rp_Capacity p' = rp_Capacity p ∧ rp_Allocatable p' = rp_Allocatable p
    | None => avail_milli p < v
    end
}.

(** ** The inventory of a cluster *)

Record CPUInfo := MkCPUInfo { ci_Arch : string }.
Record GPUInfo := MkGPUInfo {
  gi_Vendor : string; gi_Name : string; gi_Interface : string; gi_MemorySize : string }.

Record NodeCapabilities := MkCaps {
  cap_StorageClasses : list string;
  cap_InterconnectFabric : string;
  cap_InterconnectResourceName : string;
  cap_NCCLHCAPrefixes : list string
}.

Section cluster.
Context `{Quantities}.

Record InvCPU := MkInvCPU { icpu_Quantity : ResourcePair; icpu_Info : list CPUInfo }.
Record InvGPU := MkInvGPU { igpu_Quantity : ResourcePair; igpu_Info : list GPUInfo }.

Record NodeResources := MkNodeResources {
  nr_CPU : InvCPU;
  nr_Memory : ResourcePair;
  nr_GPU : InvGPU;
  nr_EphemeralStorage : ResourcePair;
  nr_VolumesAttached : ResourcePair;
  nr_VolumesMounted : ResourcePair;
  nr_GPUInterconnect : ResourcePair
}.

Record Node := MkNode {
  nd_Name : string; nd_Resources : NodeResources; nd_Capabilities : NodeCapabilities }.

Record ClusterStorage := MkClusterStorage { cs_Class : string; cs_Quantity : ResourcePair }.

Record Cluster := MkCluster { cl_Nodes : list Node; cl_Storage : list ClusterStorage }.

Definition set_CPU (c : InvCPU) (r : NodeResources) : NodeResources :=
  MkNodeResources c (nr_Memory r) (nr_GPU r) (nr_EphemeralStorage r) (nr_VolumesAttached r)
    (nr_VolumesMounted r) (nr_GPUInterconnect r).
Definition set_Memory (m : ResourcePair) (r : NodeResources) : NodeResources :=
  MkNodeResources (nr_CPU r) m (nr_GPU r) (nr_EphemeralStorage r) (nr_VolumesAttached r)
    (nr_VolumesMounted r) (nr_GPUInterconnect r).
Definition set_InvGPU (g : InvGPU) (r : NodeResources) : NodeResources :=
  MkNodeResources (nr_CPU r) (nr_Memory r) g (nr_EphemeralStorage r) (nr_VolumesAttached r)
    (nr_VolumesMounted r) (nr_GPUInterconnect r).
Definition set_Ephemeral (e : ResourcePair) (r : NodeResources) : NodeResources :=
  MkNodeResources (nr_CPU r) (nr_Memory r) (nr_GPU r) e (nr_VolumesAttached r)
    (nr_VolumesMounted r) (nr_GPUInterconnect r).
Definition set_Interconnect (i : ResourcePair) (r : NodeResources) : NodeResources :=
  MkNodeResources (nr_CPU r) (nr_Memory r) (nr_GPU r) (nr_EphemeralStorage r)
    (nr_VolumesAttached r) (nr_VolumesMounted r) i.
Definition set_NodeRes (r : NodeResources) (n : Node) : Node :=
  MkNode (nd_Name n) r (nd_Capabilities n).

End cluster.

(** The remaining calls into the SDK and Kubernetes: the typed reading of an
    attribute ([attrs.Find(key).AsBool()], [.AsString()]), the keys of the
    storage attributes, reading a memory size and printing it in Gi, the
    storage classes of a node, and the label check. *)
Class ChainSdk := {
  find_AsBool : Attributes → string → bool * bool;
  find_AsString : Attributes → string → string * bool;
  StorageAttributePersistent : string;
  StorageAttributeClass : string;
  MemoryQuantity_Gi : string → result string string;
  IsStorageClassSupported : NodeCapabilities → string → bool;
  IsValidLabelValue : string → list string
}.

(** ** A concrete instance

    Quantities as a number of thousandths; availability is the difference of
    allocatable and allocated. *)
Module MilliQuantities.

#[export] Instance milli_quantities : Quantities := {|
  Quantity := Z;
  q_Value q := - ((- q) / 1000);
  q_MilliValue q := q;
  q_negative q := q <? 0;
  q_Set v := v * 1000
|}.

Definition available (p : ResourcePair) : Z :=
  (default 0 (rp_Allocatable p) - default 0 (rp_Allocated p))%Z.

Definition sub (p : ResourcePair) (q : Z) : option ResourcePair :=
  if available p <? q then None
  else Some (MkPair _ (rp_Capacity p) (rp_Allocatable p) (Some (default 0 (rp_Allocated p) + q)))%Z.

#[export] Instance milli_pairs : PairOps := {|
  rp_Available := available;
  rp_SubNLZ p v := if q_Value (available p) <? v then None else sub p (v * 1000);
  rp_SubMilliNLZ p v := sub p v
|}.

Definition whole_pair (capacity allocatable allocated : Z) : ResourcePair :=
  MkPair _ (Some (capacity * 1000)) (Some (allocatable * 1000)) (Some (allocated * 1000)).

Definition milli_pair (capacity allocatable allocated : Z) : ResourcePair :=
  MkPair _ (Some capacity) (Some allocatable) (Some allocated).

Lemma whole_value z : q_Value (z * 1000 : Quantity) = z.
Proof. cbn. rewrite <- Z.mul_opp_l, Z.div_mul by done. lia. Qed.

Lemma available_more (p : ResourcePair) (q : Z) :
  available (MkPair _ (rp_Capacity p) (rp_Allocatable p)
               (Some (default 0 (rp_Allocated p) + q)))%Z = (available p - q)%Z.
Proof.
  unfold available. destruct p as [? a b]; destruct a, b; cbn; rewrite ?Z.sub_add_distr; lia.
Qed.

#[export] Program Instance milli_laws : PairLaws := {|
  rp_whole p := ∃ z, available p = (z * 1000)%Z;
  rp_milli _ := True
|}.
Next Obligation.
  intros p v [z Hz] Hv. unfold avail, rp_SubNLZ, rp_Available, milli_pairs. cbv zeta.
  rewrite Hz, whole_value. unfold sub. rewrite Hz.
  destruct (Z.ltb_spec z v) as [Hlt|Hge]; [done|].
  rewrite (proj2 (Z.ltb_ge _ _)) by lia. rewrite available_more, Hz, <- Z.mul_sub_distr_r.
  rewrite whole_value. eauto 6.
Qed.
Next Obligation.
  intros p v _ Hv. unfold avail_milli, rp_SubMilliNLZ, rp_Available, milli_pairs, sub.
  cbn [q_MilliValue milli_quantities].
  destruct (Z.ltb_spec (available p) v); [done|]. rewrite available_more. eauto 6.
Qed.

End MilliQuantities.
