(* ===== verification/ClusterTypes.v ===== *)
(** * Cluster types: TEE and runtime classes, attribute parsing, scheduler
    parameters, interconnect attributes

    [cluster/types/v1beta3/types.go] (TEE types, runtime classes, GPU
    interface names), [cluster/types/v1beta3/clients/inventory/metrics.go] (GPU,
    CPU and storage attributes), the scheduler parameters of
    [pkg/apis/akash.network/v2beta2/manifest.go], the part of
    [cluster/kube/builder] the inventories use, and
    [cluster/kube/operators/clients/inventory/interconnect.go]. *)
From Stdlib Require Import Ascii.
From S2P Require Import Prelude GoStrings ChainTypes.

Open Scope string_scope.
Open Scope go_scope.

(** ** TEE types and runtime classes *)

Notation TEEType := string (only parsing).
Definition TEETypeNone : TEEType := EmptyString.
Definition TEETypeCPU : TEEType := "cpu".
Definition TEETypeCPUGPU : TEEType := "cpu-gpu".

(** [fmt.Errorf("unknown TEE type: %q", s)]. *)
Inductive tee_error := ErrUnknownTEEType (s : string).

Definition ParseTEEType (s : string) : result tee_error TEEType :=
  if (s =? TEETypeNone) || (s =? TEETypeCPU) || (s =? TEETypeCPUGPU) then Ok s
  else Err (ErrUnknownTEEType s).

Definition IsCC (t : TEEType) : bool := negb (t =? TEETypeNone).
Definition IsGPU (t : TEEType) : bool := t =? TEETypeCPUGPU.

Notation RuntimeClass := string (only parsing).
Definition RuntimeClassKataQemuSNP : RuntimeClass := "kata-qemu-snp".
Definition RuntimeClassKataQemuNvidiaGPUSNP : RuntimeClass := "kata-qemu-nvidia-gpu-snp".
Definition RuntimeClassKataQemuTDX : RuntimeClass := "kata-qemu-tdx".
Definition RuntimeClassKataQemuNvidiaGPUTDX : RuntimeClass := "kata-qemu-nvidia-gpu-tdx".

Record runtimeClassFilter := MkFilter { f_cc : bool; f_gpu : bool; f_snp : bool; f_tdx : bool }.
Definition no_filter : runtimeClassFilter := MkFilter false false false false.

Definition RuntimeClassOption : Type := runtimeClassFilter → runtimeClassFilter.
Definition WithCC : RuntimeClassOption := λ f, MkFilter true (f_gpu f) (f_snp f) (f_tdx f).
Definition WithGPU : RuntimeClassOption := λ f, MkFilter (f_cc f) true (f_snp f) (f_tdx f).
Definition WithSNP : RuntimeClassOption := λ f, MkFilter (f_cc f) (f_gpu f) true (f_tdx f).
Definition WithTDX : RuntimeClassOption := λ f, MkFilter (f_cc f) (f_gpu f) (f_snp f) true.

Definition runtimeClassAttrs : gmap string runtimeClassFilter :=
  {[ RuntimeClassKataQemuSNP := MkFilter true false true false;
     RuntimeClassKataQemuNvidiaGPUSNP := MkFilter true true true false;
     RuntimeClassKataQemuTDX := MkFilter true false false true;
     RuntimeClassKataQemuNvidiaGPUTDX := MkFilter true true false true ]}.

Definition option_met (attrs : runtimeClassFilter) (opt : RuntimeClassOption) : bool :=
  let required := opt no_filter in
  if f_cc required && negb (f_cc attrs) then false
  else if f_gpu required && negb (f_gpu attrs) then false
  else if f_snp required && negb (f_snp attrs) then false
  else if f_tdx required && negb (f_tdx attrs) then false
  else true.

Definition RuntimeClass_Is (rc : RuntimeClass) (opts : list RuntimeClassOption) : bool :=
  match runtimeClassAttrs !! rc with
  | None => false
  | Some attrs => forallb (option_met attrs) opts
  end.

Notation TEEPlatform := string (only parsing).
Definition TEEPlatformTDX : TEEPlatform := "tdx".
Definition TEEPlatformSNP : TEEPlatform := "snp".

Definition RuntimeClassForTEEType (teeType teePlatform : string) : RuntimeClass :=
  let isGPU := teeType =? "cpu-gpu" in
  if teePlatform =? "tdx" then
    if isGPU then RuntimeClassKataQemuNvidiaGPUTDX else RuntimeClassKataQemuTDX
  else if teePlatform =? "snp" then
    if isGPU then RuntimeClassKataQemuNvidiaGPUSNP else RuntimeClassKataQemuSNP
  else EmptyString.

(** ** Inventory options: each option updates the record it is given *)
Record InventoryOptions := MkOptions {
  opt_DryRun : bool; opt_TEEType : TEEType; opt_TEEPlatform : TEEPlatform }.
Definition InventoryOption : Type := InventoryOptions → InventoryOptions.
Definition WithDryRun : InventoryOption :=
  λ o, MkOptions true (opt_TEEType o) (opt_TEEPlatform o).
Definition WithTEEType (t : TEEType) : InventoryOption :=
  λ o, MkOptions (opt_DryRun o) t (opt_TEEPlatform o).
Definition WithTEEPlatform (t : TEEPlatform) : InventoryOption :=
  λ o, MkOptions (opt_DryRun o) (opt_TEEType o) t.
Definition apply_options (opts : list InventoryOption) : InventoryOptions :=
  foldl (λ cfg opt, opt cfg) (MkOptions false EmptyString EmptyString) opts.

Definition FilterGPUInterface `{GoUnicode} (val : string) : string :=
  let val := ToLower val in
  if HasPrefix val "sxm" then "sxm" else val.

(** ** Builder constants *)
Definition GPUVendorNvidia : string := "nvidia".
Definition runtimeClassNvidia : string := "nvidia".
Definition megabytes : Z := 1024 * 1024.
Definition SidecarCPULimitMillicores : Z := 100.
Definition SidecarMemoryLimitBytes : Z := 64 * megabytes.
Definition SidecarGPUMemoryLimitBytes : Z := 128 * megabytes.

(** ** Scheduler parameters *)

Record SchedulerResourceGPU := MkSGPU {
  sg_Vendor : string; sg_Model : string; sg_MemorySize : string; sg_Interface : string }.
Record SchedulerResourceInterconnect := MkSInterconnect {
  si_Enabled : bool; si_Units : Z; si_ResourceName : string; si_Fabric : string;
  si_NCCLHCAPrefixes : list string }.
Record SchedulerResources := MkSResources {
  sr_GPU : option SchedulerResourceGPU; sr_Interconnect : option SchedulerResourceInterconnect }.
Record SchedulerParams := MkSParams {
  sp_RuntimeClass : RuntimeClass; sp_Resources : option SchedulerResources;
  sp_AttestationDisabled : bool; sp_TEEType : string }.

#[export] Instance SGPU_eq_dec : EqDecision SchedulerResourceGPU.
Proof. solve_decision. Defined.
#[export] Instance SInterconnect_eq_dec : EqDecision SchedulerResourceInterconnect.
Proof. solve_decision. Defined.
#[export] Instance SResources_eq_dec : EqDecision SchedulerResources.
Proof. solve_decision. Defined.
#[export] Instance SParams_eq_dec : EqDecision SchedulerParams.
Proof. solve_decision. Defined.

Definition SParams_zero : SchedulerParams := MkSParams EmptyString None false EmptyString.
Definition set_RuntimeClass (rc : RuntimeClass) (p : SchedulerParams) : SchedulerParams :=
  MkSParams rc (sp_Resources p) (sp_AttestationDisabled p) (sp_TEEType p).
Definition set_SResources (r : option SchedulerResources) (p : SchedulerParams) : SchedulerParams :=
  MkSParams (sp_RuntimeClass p) r (sp_AttestationDisabled p) (sp_TEEType p).

(** [map[uint32]*SchedulerParams]: a key that is not there reads as nil. *)
Notation ReservationClusterSettings := (gmap Z (option SchedulerParams)).

Definition sParamsEnsureResources (p : SchedulerParams) : SchedulerParams :=
  match sp_Resources p with
  | None => set_SResources (Some (MkSResources None None)) p
  | Some _ => p
  end.

Definition sParamsEnsureGPU (p : SchedulerParams) : SchedulerParams :=
  let p := sParamsEnsureResources p in
  match sp_Resources p with
  | Some (MkSResources None i) =>
      set_SResources (Some (MkSResources (Some (MkSGPU EmptyString EmptyString EmptyString EmptyString)) i)) p
  | _ => p
  end.

(** ** GPU, CPU and storage attributes *)

Record GPUModelAttributes := MkGPUModel { gm_RAM : string; gm_Interface : string }.
Notation GPUModels := (gmap string (option GPUModelAttributes)).
Notation GPUAttributes := (gmap string GPUModels).

Definition ExistsOrWildcard (m : GPUModels) (model : string) : option (option GPUModelAttributes) :=
  match m !! model with
  | Some attr => Some attr
  | None => m !! "*"
  end.

Section attributes.
Context `{ChainSdk}.

(** The [/]-separated key and value pairs after the model. *)
Fixpoint parse_model_attrs (tokens : list string) (m : GPUModelAttributes)
  : result string GPUModelAttributes :=
  match tokens with
  | key :: val :: rest =>
      if key =? "ram" then
        let* q := MemoryQuantity_Gi val in
        parse_model_attrs rest (MkGPUModel q (gm_Interface m))
      else if key =? "interface" then
        if (val =? "pcie") || (val =? "sxm")
        then parse_model_attrs rest (MkGPUModel (gm_RAM m) val)
        else Err ("unsupported GPU interface (" +:+ val +:+ ")")
      else parse_model_attrs rest m
  | _ => Ok m
  end.

(** One attribute: its vendor, its model and what it asks of the model. *)
Definition parse_gpu_key (key : string)
  : result string (string * string * option GPUModelAttributes) :=
  let tokens := Split key "/"%char in
  if (List.length tokens <? 4)%nat || Nat.odd (List.length tokens)
  then Err "invalid GPU attribute"
  else match tokens with
  | t0 :: vendor :: t2 :: model :: rest =>
      if negb (t0 =? "vendor") then Err ("unexpected GPU attribute type (" +:+ t0 +:+ ")")
      else if negb (t2 =? "model") then Err ("unexpected GPU attribute type (" +:+ t2 +:+ ")")
      else
        let* mattrs :=
          (if (0 <? List.length rest)%nat
           then let* m := parse_model_attrs rest (MkGPUModel EmptyString EmptyString) in Ok (Some m)
           else Ok None) in
        Ok (vendor, model, mattrs)
  | _ => Err "invalid GPU attribute"
  end.

Fixpoint parse_gpu_attrs (attrs : Attributes) (nvidia amd : GPUModels)
  : result string (GPUModels * GPUModels) :=
  match attrs with
  | [] => Ok (nvidia, amd)
  | attr :: attrs =>
      if attr_Key attr =? "interconnect/group" then parse_gpu_attrs attrs nvidia amd
      else
        let* (vendor, model, mattrs) := parse_gpu_key (attr_Key attr) in
        if vendor =? "nvidia" then parse_gpu_attrs attrs (<[model := mattrs]> nvidia) amd
        else if vendor =? "amd" then parse_gpu_attrs attrs nvidia (<[model := mattrs]> amd)
        else Err ("unsupported GPU vendor (" +:+ vendor +:+ ")")
  end.

Definition add_vendor (vendor : string) (models : GPUModels) (res : GPUAttributes) : GPUAttributes :=
  if (0 <? size models)%nat then <[vendor := models]> res else res.

Definition ParseGPUAttributes (attrs : Attributes) : result string GPUAttributes :=
  let* (nvidia, amd) := parse_gpu_attrs attrs ∅ ∅ in
  Ok (add_vendor "amd" amd (add_vendor "nvidia" nvidia ∅)).

(** The requested architecture; empty when none is given. *)
Fixpoint ParseCPUAttributes_go (attrs : Attributes) (arch : string) : result string string :=
  match attrs with
  | [] => Ok arch
  | attr :: attrs =>
      if attr_Key attr =? "arch" then
        if (attr_Value attr =? "amd64") || (attr_Value attr =? "arm64")
        then ParseCPUAttributes_go attrs (attr_Value attr)
        else Err ("unsupported CPU architecture (" +:+ attr_Value attr +:+ ")")
      else Err ("unsupported CPU attribute (" +:+ attr_Key attr +:+ ")")
  end.

Definition ParseCPUAttributes (attrs : Attributes) : result string string :=
  ParseCPUAttributes_go attrs EmptyString.

Record StorageAttributes := MkStorageAttrs { sa_Persistent : bool; sa_Class : string }.

Definition ParseStorageAttributes (attrs : Attributes) : result string StorageAttributes :=
  let persistent := (find_AsBool attrs StorageAttributePersistent).1 in
  let class := (find_AsString attrs StorageAttributeClass).1 in
  if persistent && ((class =? EmptyString) || (class =? "ram"))
  then Err "persistent volume must specify storage class"
  else Ok (MkStorageAttrs persistent class).

End attributes.

(** ** Interconnect attributes *)

Definition AttributeInterconnectFabricInfiniBand : string :=
  "capabilities/gpu-interconnect/fabric/infiniband".
Definition AttributeInterconnectFabricRoCE : string :=
  "capabilities/gpu-interconnect/fabric/roce".
Definition AttributeGPUInterconnectGroupKey : string := "interconnect/group".
Definition attributeTrueValue : string := "true".

Fixpoint find_group (attrs : Attributes) : string * bool :=
  match attrs with
  | [] => (EmptyString, false)
  | a :: attrs =>
      if attr_Key a =? AttributeGPUInterconnectGroupKey then (attr_Value a, true)
      else find_group attrs
  end.

Definition ResourceInterconnectGroup (res : Resources) : string * bool :=
  match res_GPU res with
  | None => (EmptyString, false)
  | Some gpu => find_group (gpu_Attributes gpu)
  end.

Definition ResourceRequiresInterconnect (res : Resources) : bool :=
  (ResourceInterconnectGroup res).2.

Definition interconnectCapsSuitable (caps : NodeCapabilities) (requiredFabric : string) : bool :=
  if (cap_InterconnectFabric caps =? EmptyString) || (cap_InterconnectResourceName caps =? EmptyString)
  then false
  else (requiredFabric =? EmptyString) || (cap_InterconnectFabric caps =? requiredFabric).

Fixpoint placementFabricFromAttrs (attrs : Attributes) : string * bool :=
  match attrs with
  | [] => (EmptyString, false)
  | a :: attrs =>
      if negb (attr_Value a =? attributeTrueValue) then placementFabricFromAttrs attrs
      else if attr_Key a =? AttributeInterconnectFabricInfiniBand then ("infiniband", true)
      else if attr_Key a =? AttributeInterconnectFabricRoCE then ("roce", true)
      else placementFabricFromAttrs attrs
  end.

(** The group of an order, by the shapes the commit path produces; any other
    implementation of the interface has no attributes. *)
Record GroupSpec := MkGroupSpec {
  gs_Name : string; gs_Requirements : Attributes; gs_Resources : list ResourceUnit }.
Inductive ResourceGroup :=
| AGroup (spec : GroupSpec)
| AGroupSpec (spec : GroupSpec)
| OtherGroup (name : string) (units : list ResourceUnit).

Definition GetResourceUnits (g : ResourceGroup) : list ResourceUnit :=
  match g with
  | AGroup spec | AGroupSpec spec => gs_Resources spec
  | OtherGroup _ units => units
  end.

Definition GetName (g : ResourceGroup) : string :=
  match g with
  | AGroup spec | AGroupSpec spec => gs_Name spec
  | OtherGroup name _ => name
  end.

Definition placementAttrs (g : ResourceGroup) : Attributes :=
  match g with
  | AGroup spec | AGroupSpec spec => gs_Requirements spec
  | OtherGroup _ _ => []
  end.

Definition PlacementRequiredFabric (g : ResourceGroup) : string * bool :=
  placementFabricFromAttrs (placementAttrs g).

(** ** Facts *)

Lemma runtime_class_cases t p :
  RuntimeClassForTEEType t p =
    if p =? "tdx" then (if IsGPU t then RuntimeClassKataQemuNvidiaGPUTDX else RuntimeClassKataQemuTDX)
    else if p =? "snp" then (if IsGPU t then RuntimeClassKataQemuNvidiaGPUSNP else RuntimeClassKataQemuSNP)
    else EmptyString.
Proof. done. Qed.

(** The runtime class chosen for a TEE type on a detected platform
    is a known class with the attributes asked for: it is a
    confidential-compute class, it is a GPU class exactly for the cpu-gpu type,
    and it is of the platform; without a known platform it matches nothing. *)
Theorem runtime_class_matches (t : TEEType) (p : TEEPlatform) :
  let rc := RuntimeClassForTEEType t p in
  RuntimeClass_Is rc [] = bool_decide (p = TEEPlatformTDX ∨ p = TEEPlatformSNP)
  ∧ RuntimeClass_Is rc [WithCC] = RuntimeClass_Is rc []
  ∧ RuntimeClass_Is rc [WithGPU] = RuntimeClass_Is rc [] && IsGPU t
  ∧ RuntimeClass_Is rc [WithSNP] = (p =? TEEPlatformSNP)
  ∧ RuntimeClass_Is rc [WithTDX] = (p =? TEEPlatformTDX)
  ∧ (∀ a b, RuntimeClass_Is rc (a ++ b)%list = RuntimeClass_Is rc a && RuntimeClass_Is rc b).
Proof.
  cbv zeta. rewrite runtime_class_cases. unfold TEEPlatformTDX, TEEPlatformSNP.
  assert (∀ rc a b, RuntimeClass_Is rc (a ++ b)%list = RuntimeClass_Is rc a && RuntimeClass_Is rc b) as Happ.
  { intros rc a b. unfold RuntimeClass_Is. destruct (runtimeClassAttrs !! rc); [|done]. apply forallb_app. }
  destruct (String.eqb_spec p "tdx") as [->|Ht]; [by destruct (IsGPU t)|].
  destruct (String.eqb_spec p "snp") as [->|Hs]; [by destruct (IsGPU t)|].
  rewrite bool_decide_eq_false_2 by naive_solver. done.
Qed.
