(* ===== verification/LeaseNames.v ===== *)
(** * Lease identifiers and the names derived from them

    [pkg/apis/akash.network/v2beta2/types.go] and [provider_host.go] (lease
    identifiers as Kubernetes objects store them), and [cluster/util]: the
    namespace of a lease, the sharing key of a leased IP, and counting
    endpoints. *)
From Stdlib Require Import Ascii String.
From S2P Require Import Prelude GoStrings Json Sha256 ChainTypes ClusterTypes.

Open Scope string_scope.
Open Scope go_scope.

(** [mtypes.LeaseID]. *)
Record LeaseID := MkLeaseID {
  lid_Owner : string; lid_DSeq : Z; lid_GSeq : Z; lid_OSeq : Z; lid_Provider : string }.

#[export] Instance LeaseID_eq_dec : EqDecision LeaseID.
Proof. solve_decision. Defined.

#[export] Instance LeaseID_countable : Countable LeaseID.
Proof.
  refine (inj_countable' (λ l, (lid_Owner l, lid_DSeq l, lid_GSeq l, lid_OSeq l, lid_Provider l))
    (λ '(o, d, g, s, p), MkLeaseID o d g s p) _). by intros [].
Defined.

(** Cosmos addresses: [AccAddressFromBech32] followed by [String], and the
    text of a lease identifier. *)
Class Cosmos := {
  AccAddress_String : string → result string string;
  LeaseID_String : LeaseID → string
}.

(** ** strconv.ParseUint(s, 10, 64)

    The value is 0 after a syntax error and the largest number after a range
    error; the error is reported next to it. *)
Fixpoint ParseUint_go (s : string) (n : N) : Z * option string :=
  match s with
  | EmptyString => (Z.of_N n, None)
  | String c s =>
      if is_digit c then
        let n := (n * 10 + (code c - 48))%N in
        if (n <? 2 ^ 64)%N then ParseUint_go s n
        else ((2 ^ 64 - 1)%Z, Some "value out of range")
      else (0%Z, Some "invalid syntax")
  end.

Definition ParseUint (s : string) : Z * option string :=
  match s with
  | EmptyString => (0%Z, Some "invalid syntax")
  | _ => ParseUint_go s 0
  end.

Definition FormatUint (z : Z) : string := Itoa (Z.to_N z).

(** ** Lease identifiers as stored in the cluster *)

Record CrdLeaseID := MkCrdLeaseID {
  cl_Owner : string; cl_DSeq : string; cl_GSeq : Z; cl_OSeq : Z; cl_Provider : string }.

Section lease_ids.
Context `{Cosmos}.

Definition LeaseID_FromCRD (id : CrdLeaseID) : result string LeaseID :=
  let* owner := AccAddress_String (cl_Owner id) in
  let* provider := AccAddress_String (cl_Provider id) in
  match ParseUint (cl_DSeq id) with
  | (dseq, None) => Ok (MkLeaseID owner dseq (cl_GSeq id) (cl_OSeq id) provider)
  | (_, Some err) => Err err
  end.

Definition LeaseIDFromAkash (id : LeaseID) : CrdLeaseID :=
  MkCrdLeaseID (lid_Owner id) (FormatUint (lid_DSeq id)) (lid_GSeq id) (lid_OSeq id) (lid_Provider id).

Record ProviderHostSpec := MkHostSpec {
  ph_Owner : string; ph_Provider : string; ph_Hostname : string; ph_Dseq : Z; ph_Gseq : Z; ph_Oseq : Z;
  ph_ServiceName : string; ph_ExternalPort : Z }.

Definition ProviderHostSpec_LeaseID (s : ProviderHostSpec) : result string LeaseID :=
  let* owner := AccAddress_String (ph_Owner s) in
  let* provider := AccAddress_String (ph_Provider s) in
  Ok (MkLeaseID owner (ph_Dseq s) (ph_Gseq s) (ph_Oseq s) provider).

End lease_ids.

(** ** base32.HexEncoding without padding *)

Definition byte_bits (c : ascii) : list bool :=
  map (λ k, N.testbit (code c) (N.of_nat k)) [7; 6; 5; 4; 3; 2; 1; 0]%nat.

Definition base32_digit (b4 b3 b2 b1 b0 : bool) : ascii :=
  let bit (b : bool) (w : N) := if b then w else 0%N in
  let v := (bit b4 16 + bit b3 8 + bit b2 4 + bit b1 2 + bit b0 1)%N in
  if (v <? 10)%N then byte_of (48 + v) else byte_of (55 + v).

(** Five bits a digit, the last digit filled with zeros. *)
Fixpoint base32_bits (l : list bool) : string :=
  match l with
  | a :: b :: c :: d :: e :: l => String (base32_digit a b c d e) (base32_bits l)
  | [a; b; c; d] => String (base32_digit a b c d false) EmptyString
  | [a; b; c] => String (base32_digit a b c false false) EmptyString
  | [a; b] => String (base32_digit a b false false false) EmptyString
  | [a] => String (base32_digit a false false false false) EmptyString
  | [] => EmptyString
  end.

Fixpoint str_bits (s : string) : list bool :=
  match s with EmptyString => [] | String c s => (byte_bits c ++ str_bits s)%list end.

Definition base32hex (s : string) : string := base32_bits (str_bits s).

(** ** Names *)

Section names.
Context `{GoUnicode} `{Cosmos}.

Definition LeaseIDToNamespace (lid : LeaseID) : string :=
  ToLower (base32hex (sha224 (LeaseID_String lid))).

(** The regular expression ^[a-z\d\-]+$. *)
Definition name_ok (c : ascii) : bool := is_lower c || is_digit c || (c =? "-")%char.
Definition allowedIPEndpointName (s : string) : bool :=
  match s with EmptyString => false | _ => str_forall name_ok s end.

Definition MakeIPSharingKey (lid : LeaseID) (endpointName : string) : string :=
  let effectiveName :=
    if allowedIPEndpointName endpointName then endpointName
    else ToLower (base32hex (str_take 15 (sha256 endpointName))) in
  lid_Owner lid +:+ "-ip-" +:+ effectiveName.

(** ** Counting endpoints by sequence number *)

Definition accumEndpointsOfResources (r : Resources) (kind : EndpointKind) (accum : gset Z) : gset Z :=
  foldl (λ acc e, if bool_decide (ep_Kind e = kind) then {[ep_SequenceNumber e]} ∪ acc else acc)
    accum (res_Endpoints r).

Definition GetEndpointQuantityOfResourceGroup (g : ResourceGroup) (kind : EndpointKind) : nat :=
  size (foldl (λ acc u, accumEndpointsOfResources (ru_Resources u) kind acc) ∅ (GetResourceUnits g)).

Definition GetEndpointQuantityOfResourceUnits (r : Resources) (kind : EndpointKind) : nat :=
  size (accumEndpointsOfResources r kind ∅).

End names.

(** ** Facts *)

Lemma parse_uint_go_ge s a n : parse_uint_go s a = Some n → (a ≤ n)%N.
Proof.
  revert a. induction s as [|c s IH]; intros a; cbn [parse_uint_go]; [intros [= ->]; lia|].
  destruct (is_digit c); [|done]. intros E. apply IH in E. lia.
Qed.

Lemma ParseUint_go_ok s a n :
  parse_uint_go s a = Some n → (n < 2 ^ 64)%N → ParseUint_go s a = (Z.of_N n, None).
Proof.
  revert a. induction s as [|c s IH]; intros a; cbn [parse_uint_go ParseUint_go]; [by intros [= ->]|].
  destruct (is_digit c); [|done]. intros E Hn. pose proof (parse_uint_go_ge _ _ _ E).
  rewrite (proj2 (N.ltb_lt _ _)) by lia. by apply IH.
Qed.

Lemma ParseUint_FormatUint z : (0 ≤ z < 2 ^ 64)%Z → ParseUint (FormatUint z) = (z, None).
Proof.
  intros Hz. unfold FormatUint.
  assert (Z.to_N z < 2 ^ 64)%N as Hn by lia.
  pose proof (parse_uint_Itoa (2 ^ 64) (Z.to_N z) Hn) as E. unfold parse_uint in E. unfold ParseUint.
  destruct (Itoa (Z.to_N z)) as [|c s]; [done|].
  destruct (parse_uint_go (String c s) 0) as [n|] eqn:Eg; cbn [mbind option_bind] in E; [|done].
  destruct (N.ltb_spec n (2 ^ 64)); [|done]. injection E as ->.
  rewrite (ParseUint_go_ok _ _ _ Eg Hn). f_equal. lia.
Qed.

(** The digits of base32hex, in lower case. *)
Definition b32_char (c : ascii) : bool := is_digit c || in_range 97 118 c.

Lemma base32_digit_upper a b c d e :
  is_digit (base32_digit a b c d e) || in_range 65 86 (base32_digit a b c d e) = true.
Proof. by destruct a, b, c, d, e. Qed.

Lemma base32_bits_forall (p : ascii → bool) l :
  (∀ a b c d e, p (base32_digit a b c d e) = true) → str_forall p (base32_bits l) = true.
Proof.
  intros Hp. induction l as [l IH] using (induction_ltof1 _ List.length); unfold ltof in IH.
  destruct l as [|a [|b [|c [|d [|e l]]]]]; cbn [base32_bits str_forall]; rewrite ?Hp; try done.
  cbn. apply IH. cbn. lia.
Qed.

Lemma base32_bits_length l :
  String.length (base32_bits l) = ((List.length l + 4) / 5)%nat.
Proof.
  induction l as [l IH] using (induction_ltof1 _ List.length); unfold ltof in IH.
  destruct l as [|a [|b [|c [|d [|e l]]]]]; try done.
  cbn [base32_bits String.length]. rewrite IH by (cbn; lia). cbn [List.length].
  replace (S (S (S (S (S (List.length l)))) ) + 4)%nat with (1 * 5 + (List.length l + 4))%nat by lia.
  by rewrite Nat.div_add_l.
Qed.

Lemma str_bits_length s : List.length (str_bits s) = (8 * String.length s)%nat.
Proof. induction s as [|c s IH]; [done|]. cbn [str_bits]. rewrite length_app, IH. cbn [String.length]. cbn. lia. Qed.

Lemma str_map_length f s : String.length (str_map f s) = String.length s.
Proof. induction s; cbn; congruence. Qed.

Lemma str_forall_map (p q : ascii → bool) f s :
  (∀ c, p c = true → q (f c) = true) → str_forall p s = true → str_forall q (str_map f s) = true.
Proof.
  intros Hpq. induction s as [|c s IH]; [done|]. cbn. intros [Hc Hs]%andb_true_iff. by rewrite Hpq, IH.
Qed.

Lemma b32_lower c : is_digit c || in_range 65 86 c = true → b32_char (lower_ascii c) = true.
Proof.
  intros Hc. assert (implb (is_digit c || in_range 65 86 c) (b32_char (lower_ascii c)) = true) as E.
  { revert c Hc. intros c _. apply (bytes_forall (λ c, implb (is_digit c || in_range 65 86 c) (b32_char (lower_ascii c)))).
    vm_compute. reflexivity. }
  by rewrite Hc in E.
Qed.

Lemma lower_base32hex `{GoUnicode} s :
  str_forall b32_char (ToLower (base32hex s)) = true
  ∧ String.length (ToLower (base32hex s)) = ((8 * String.length s + 4) / 5)%nat.
Proof.
  assert (str_forall (λ c, is_digit c || in_range 65 86 c) (base32hex s) = true) as Hup.
  { apply base32_bits_forall. apply base32_digit_upper. }
  assert (str_forall is_ascii (base32hex s) = true) as Hasc.
  { apply base32_bits_forall. intros. by destruct a, b, c, d, e. }
  unfold ToLower. rewrite Hasc. split.
  - eapply str_forall_map; [|exact Hup]. apply b32_lower.
  - rewrite str_map_length. unfold base32hex. by rewrite base32_bits_length, str_bits_length.
Qed.

Lemma b32_name c : b32_char c = true → name_ok c = true.
Proof.
  intros Hc. assert (implb (b32_char c) (name_ok c) = true) as E.
  { apply (bytes_forall (λ c, implb (b32_char c) (name_ok c))). vm_compute. reflexivity. }
  by rewrite Hc in E.
Qed.

Lemma lease_id_stored `{Cosmos} (id : LeaseID) :
  AccAddress_String (lid_Owner id) = Ok (lid_Owner id) →
  AccAddress_String (lid_Provider id) = Ok (lid_Provider id) →
  (0 ≤ lid_DSeq id < 2 ^ 64)%Z → LeaseID_FromCRD (LeaseIDFromAkash id) = Ok id.
Proof.
  intros Howner Hprov Hd. unfold LeaseID_FromCRD. cbn [LeaseIDFromAkash cl_Owner cl_Provider cl_DSeq].
  rewrite Howner, Hprov, ParseUint_FormatUint by done. by destruct id.
Qed.

Section name_properties.
Context `{GoUnicode} `{Cosmos}.

(** A lease identifier survives its Kubernetes form: for addresses
    in canonical text and a 64-bit deployment sequence, both the manifest form
    (sequence as text) and the flat provider-host form (sequence as a number)
    are read back as the identifier they were made from. *)
Theorem lease_id_roundtrip (id : LeaseID) (host svc : string) (port : Z)
  (Howner : AccAddress_String (lid_Owner id) = Ok (lid_Owner id))
  (Hprov : AccAddress_String (lid_Provider id) = Ok (lid_Provider id))
  (Hdseq : (0 ≤ lid_DSeq id < 2 ^ 64)%Z) :
  LeaseID_FromCRD (LeaseIDFromAkash id) = Ok id
  ∧ ProviderHostSpec_LeaseID (MkHostSpec (lid_Owner id) (lid_Provider id) host (lid_DSeq id) (lid_GSeq id)
      (lid_OSeq id) svc port) = Ok id.
Proof.
  split; [by apply lease_id_stored|]. unfold ProviderHostSpec_LeaseID. cbn [ph_Owner ph_Provider].
  rewrite Howner, Hprov. by destruct id.
Qed.

(** Claim C40.  Names are valid: the namespace of a lease is always 45 lower-case
    base32 digits, a DNS-1123 label; and whatever the endpoint is called, the
    name part of an IP sharing key is a non-empty string of lower-case
    letters, digits and dashes, and it is the endpoint's own name when that
    already is one. *)
Theorem names_valid (lid : LeaseID) (endpoint : string) :
  String.length (LeaseIDToNamespace lid) = 45%nat
  ∧ str_forall b32_char (LeaseIDToNamespace lid) = true
  ∧ ∃ name, MakeIPSharingKey lid endpoint = lid_Owner lid +:+ "-ip-" +:+ name
      ∧ allowedIPEndpointName name = true
      ∧ (allowedIPEndpointName endpoint = true → name = endpoint)
      ∧ (allowedIPEndpointName endpoint = false → String.length name = 24%nat).
Proof.
  unfold LeaseIDToNamespace, MakeIPSharingKey.
  destruct (lower_base32hex (sha224 (LeaseID_String lid))) as [Hc Hl]. rewrite sha224_length in Hl.
  split; [exact Hl|]. split; [exact Hc|]. eexists. split; [reflexivity|].
  destruct (allowedIPEndpointName endpoint) eqn:E; [done|].
  destruct (lower_base32hex (str_take 15 (sha256 endpoint))) as [Hc2 Hl2].
  rewrite str_take_length, sha256_length in Hl2. change (Nat.min 15 32) with 15%nat in Hl2.
  change ((8 * 15 + 4) / 5)%nat with 24%nat in Hl2.
  split; [|done]. destruct (ToLower (base32hex (str_take 15 _))) as [|c t]; [done|].
  unfold allowedIPEndpointName. eapply str_forall_impl; [|exact Hc2]. apply b32_name.
Qed.

End name_properties.

(** Addresses as plain text. *)
Module PlainCosmos.
#[export] Instance plain : Cosmos := {|
  AccAddress_String s := if HasPrefix s "akash1" then Ok s else Err "invalid address";
  LeaseID_String l := lid_Owner l +:+ "/" +:+ FormatUint (lid_DSeq l) +:+ "/" +:+ lid_Provider l
|}.
Definition sample_lid : LeaseID := MkLeaseID "akash1owner" 42 1 2 "akash1provider".
End PlainCosmos.
Import PlainCosmos.

Lemma lease_id_roundtrip_witness :
  LeaseID_FromCRD (LeaseIDFromAkash sample_lid) = Ok sample_lid.
Proof.
  apply (lease_id_roundtrip sample_lid "example.com" "web" 80); [reflexivity|reflexivity|].
  split; [discriminate|reflexivity].
Defined.

#[local] Instance plain_unicode : GoUnicode := λ s, s.

(** An endpoint with a capital letter is given a name of its own. *)
Lemma names_valid_witness : ∃ name, MakeIPSharingKey sample_lid "Web" = "akash1owner-ip-" +:+ name ∧ allowedIPEndpointName name = true ∧ String.length name = 24%nat.
Proof.
  destruct (names_valid sample_lid "Web") as (_ & _ & name & E & Ha & _ & Hl). exists name. split; [exact E|]. split; [exact Ha|]. apply Hl. reflexivity.
Defined.
