(* ===== verification/CrdManifest.v ===== *)
(** * Manifests as Kubernetes objects

    [pkg/apis/akash.network/v2beta2/types.go] and [manifest.go]: a manifest
    group is stored as a custom resource and read back.  The conversion of a
    service writes the TEE settings into the scheduler parameters it is given by
    pointer, so those are modelled as locations of a store; [buildClusterSettings]
    ([cluster/kube/builder/builder.go]) hands the same location to all services
    with the same resource id.  Nil and empty slices are the empty list, and the
    error texts are given without their formatted arguments. *)
From Stdlib Require Import Ascii String.
From S2P Require Import Prelude GoStrings ChainTypes ClusterTypes LeaseNames.

Open Scope string_scope.
Open Scope go_scope.

(** ** The manifest of the chain SDK *)

(** Protocols of the SDK, their text and its parser. *)
Class Protocols := {
  ServiceProtocol : Type;
  Protocol_ToString : ServiceProtocol → string;
  ParseServiceProtocol : string → result string ServiceProtocol
}.

Record ProxyOptions := MkProxy {
  po_BufferingDisable : bool; po_BufferSize : Z; po_BuffersNumber : Z; po_BuffersSize : Z;
  po_BusyBuffersSize : Z; po_ConnectTimeout : Z }.
Record HTTPOptions := MkHTTP {
  ho_MaxBodySize : Z; ho_ReadTimeout : Z; ho_SendTimeout : Z; ho_NextTries : Z; ho_NextTimeout : Z;
  ho_NextCases : list string; ho_Proxy : option ProxyOptions }.
Record ServiceExpose `{Protocols} := MkExpose {
  se_Port : Z; se_ExternalPort : Z; se_Proto : ServiceProtocol; se_Service : string; se_Global : bool;
  se_Hosts : list string; se_HTTPOptions : HTTPOptions; se_IP : string; se_EndpointSequenceNumber : Z }.
Record StorageParams := MkStorageParams { stp_Name : string; stp_Mount : string; stp_ReadOnly : bool }.
Record TEEParams := MkTEE { tee_Type : string; tee_Attestation : bool }.
Record ServiceParams := MkParams {
  par_Storage : list StorageParams; par_Permissions : option (list string); par_TEE : option TEEParams }.
Record ImageCredentials := MkCredentials {
  cr_Host : string; cr_Email : string; cr_Username : string; cr_Password : string }.
Record Service `{Protocols} := MkService {
  svc_Name : string; svc_Image : string; svc_Command : list string; svc_Args : list string; svc_Env : list string;
  svc_Resources : Resources; svc_Count : Z; svc_Expose : list ServiceExpose; svc_Params : option ServiceParams;
  svc_Credentials : option ImageCredentials; svc_InterconnectGroup : string }.
Record Group `{Protocols} := MkGroup { g_Name : string; g_Services : list Service }.

(** ** Resources of the custom resource *)

Record ResourceCPU := MkRCPU { rc_Units : Z; rc_Attributes : Attributes }.
Record ResourceGPU := MkRGPU { rg_Units : Z; rg_Attributes : Attributes }.
Record ResourceMemory := MkRMemory { rm_Size : string; rm_Attributes : Attributes }.
Record ResourceVolume := MkRVolume { rv_Name : string; rv_Size : string; rv_Attributes : Attributes }.
Record CrdResources := MkCrdResources {
  r_ID : Z; r_CPU : ResourceCPU; r_GPU : ResourceGPU; r_Memory : ResourceMemory; r_Storage : list ResourceVolume }.

Definition ResourceCPU_ToAkash (r : ResourceCPU) : CPU := MkCPU (rc_Units r) (rc_Attributes r).
Definition ResourceGPU_ToAkash (r : ResourceGPU) : GPU := MkGPU (rg_Units r) (rg_Attributes r).
Definition ResourceMemory_ToAkash (r : ResourceMemory) : Memory :=
  MkMemory (ParseUint (rm_Size r)).1 (rm_Attributes r).
Definition ResourceVolume_ToAkash (r : ResourceVolume) : Storage :=
  MkStorage (rv_Name r) (ParseUint (rv_Size r)).1 (rv_Attributes r).
Definition Resources_ToAkash (r : CrdResources) : Resources :=
  MkResources (r_ID r) (Some (ResourceCPU_ToAkash (r_CPU r))) (Some (ResourceMemory_ToAkash (r_Memory r)))
    (map ResourceVolume_ToAkash (r_Storage r)) (Some (ResourceGPU_ToAkash (r_GPU r))) [].

Definition MaxUint32 : Z := 2 ^ 32 - 1.

Definition cpu_FromAkash (c : option CPU) : result string ResourceCPU :=
  match c with
  | None => Ok (MkRCPU 0 [])
  | Some c =>
      if (MaxUint32 <? cpu_Units c)%Z then Err "k8s api: cpu units value overflows uint32"
      else Ok (MkRCPU (u32 (cpu_Units c)) (cpu_Attributes c))
  end.
Definition memory_FromAkash (m : option Memory) : ResourceMemory :=
  match m with
  | None => MkRMemory EmptyString []
  | Some m => MkRMemory (FormatUint (mem_Quantity m)) (mem_Attributes m)
  end.
Definition gpu_FromAkash (g : option GPU) : result string ResourceGPU :=
  match g with
  | None => Ok (MkRGPU 0 [])
  | Some g =>
      if (MaxUint32 <? gpu_Units g)%Z then Err "k8s api: gpu units value overflows uint32"
      else Ok (MkRGPU (u32 (gpu_Units g)) (gpu_Attributes g))
  end.
Definition resourcesFromAkash (r : Resources) : result string CrdResources :=
  let* cpu := cpu_FromAkash (res_CPU r) in
  let memory := memory_FromAkash (res_Memory r) in
  let* gpu := gpu_FromAkash (res_GPU r) in
  Ok (MkCrdResources (res_ID r) cpu gpu memory
        (map (λ s, MkRVolume (sto_Name s) (FormatUint (sto_Quantity s)) (sto_Attributes s)) (res_Storage r))).

(** ** Exposed ports *)

Record CrdHTTPOptions := MkCrdHTTP {
  ch_MaxBodySize : Z; ch_ReadTimeout : Z; ch_SendTimeout : Z; ch_NextTries : Z; ch_NextTimeout : Z;
  ch_NextCases : list string; ch_ProxyBufferingDisable : bool; ch_ProxyBufferSize : Z;
  ch_ProxyBuffersNumber : Z; ch_ProxyBuffersSize : Z; ch_ProxyBusyBuffersSize : Z; ch_ProxyConnectTimeout : Z }.
Record ManifestServiceExpose := MkCrdExpose {
  ce_Port : Z; ce_ExternalPort : Z; ce_Proto : string; ce_Service : string; ce_Global : bool;
  ce_Hosts : list string; ce_HTTPOptions : CrdHTTPOptions; ce_IP : string; ce_EndpointSequenceNumber : Z }.

Definition proxyToAkash (o : CrdHTTPOptions) : option ProxyOptions :=
  if negb (ch_ProxyBufferingDisable o) && (ch_ProxyBufferSize o =? 0)%Z && (ch_ProxyBuffersNumber o =? 0)%Z
     && (ch_ProxyBuffersSize o =? 0)%Z && (ch_ProxyBusyBuffersSize o =? 0)%Z && (ch_ProxyConnectTimeout o =? 0)%Z
  then None
  else Some (MkProxy (ch_ProxyBufferingDisable o) (ch_ProxyBufferSize o) (ch_ProxyBuffersNumber o)
               (ch_ProxyBuffersSize o) (ch_ProxyBusyBuffersSize o) (ch_ProxyConnectTimeout o)).

Definition DetermineExposedExternalPort (e : ManifestServiceExpose) : Z :=
  if (ce_ExternalPort e =? 0)%Z then ce_Port e else ce_ExternalPort e.

Definition u16 (z : Z) : Z := z mod 2 ^ 16.

Section manifest.
Context `{Protocols}.

Definition expose_toAkash (e : ManifestServiceExpose) : result string ServiceExpose :=
  let* proto := ParseServiceProtocol (ce_Proto e) in
  let o := ce_HTTPOptions e in
  Ok (MkExpose _ (ce_Port e) (ce_ExternalPort e) proto (ce_Service e) (ce_Global e) (ce_Hosts e)
        (MkHTTP (ch_MaxBodySize o) (ch_ReadTimeout o) (ch_SendTimeout o) (ch_NextTries o) (ch_NextTimeout o)
           (ch_NextCases o) (proxyToAkash o))
        (ce_IP e) (ce_EndpointSequenceNumber e)).

Definition http_FromAkash (o : HTTPOptions) : CrdHTTPOptions :=
  let p := default (MkProxy false 0 0 0 0 0) (ho_Proxy o) in
  MkCrdHTTP (ho_MaxBodySize o) (ho_ReadTimeout o) (ho_SendTimeout o) (ho_NextTries o) (ho_NextTimeout o)
    (ho_NextCases o) (po_BufferingDisable p) (po_BufferSize p) (po_BuffersNumber p) (po_BuffersSize p)
    (po_BusyBuffersSize p) (po_ConnectTimeout p).

Definition manifestServiceExposeFromAkash (e : ServiceExpose) : ManifestServiceExpose :=
  MkCrdExpose (u16 (se_Port e)) (u16 (se_ExternalPort e)) (Protocol_ToString (se_Proto e)) (se_Service e)
    (se_Global e) (se_Hosts e) (http_FromAkash (se_HTTPOptions e)) (se_IP e) (se_EndpointSequenceNumber e).

(** ** Services and groups *)

(** The scheduler parameters behind pointers: a location is an index. *)
Notation store := (list SchedulerParams).
Notation loc := nat.

Record ManifestServicePermissions := MkPermissions {
  pm_Read : list string; pm_Write : list string; pm_Delete : list string }.
Record ManifestServiceParams := MkCrdParams {
  cp_Storage : list StorageParams; cp_Permissions : option ManifestServicePermissions }.
Record ManifestService := MkCrdService {
  ms_Name : string; ms_Image : string; ms_Command : list string; ms_Args : list string; ms_Env : list string;
  ms_Resources : CrdResources; ms_Count : Z; ms_Expose : list ManifestServiceExpose;
  ms_Params : option ManifestServiceParams; ms_SchedulerParams : option loc;
  ms_Credentials : option ImageCredentials; ms_InterconnectGroup : string }.
Record ManifestGroup := MkCrdGroup { mg_Name : string; mg_Services : list ManifestService }.

(** Reading a service: the endpoints of leased IPs are appended to the local
    [res] after its value has been copied into the service. *)
Fixpoint read_exposes (es : list ManifestServiceExpose) (res : Resources)
  : result string (list ServiceExpose * Resources) :=
  match es with
  | [] => Ok ([], res)
  | e :: es =>
      let* value := expose_toAkash e in
      let res :=
        if (0 <? String.length (se_IP value))%nat
        then MkResources (res_ID res) (res_CPU res) (res_Memory res) (res_Storage res) (res_GPU res)
               (res_Endpoints res ++ [MkEndpoint LEASED_IP (se_EndpointSequenceNumber value)])%list
        else res in
      let* (values, res) := read_exposes es res in
      Ok (value :: values, res)
  end.

Definition params_fromCRD (p : ManifestServiceParams) : ServiceParams :=
  MkParams (cp_Storage p) (pm_Read <$> cp_Permissions p) None.

Definition service_fromCRD (ms : ManifestService) : result string Service :=
  let res := Resources_ToAkash (ms_Resources ms) in
  let ams_Resources := res in
  let* (exposes, res) := read_exposes (ms_Expose ms) res in
  Ok (MkService _ (ms_Name ms) (ms_Image ms) (ms_Command ms) (ms_Args ms) (ms_Env ms) ams_Resources (ms_Count ms)
        exposes (params_fromCRD <$> ms_Params ms) (ms_Credentials ms) (ms_InterconnectGroup ms)).

(** The group and the scheduler parameters of its services. *)
Fixpoint services_fromCRD (l : list ManifestService) : result string (list Service * list (option loc)) :=
  match l with
  | [] => Ok ([], [])
  | svc :: l =>
      let* asvc := service_fromCRD svc in
      let* (asvcs, params) := services_fromCRD l in
      Ok (asvc :: asvcs, ms_SchedulerParams svc :: params)
  end.

Definition Group_FromCRD (m : ManifestGroup) : result string (Group * list (option loc)) :=
  let* (services, params) := services_fromCRD (mg_Services m) in
  Ok (MkGroup _ (mg_Name m) services, params).

(** Writing the TEE settings through the pointer; a nil pointer becomes a new
    location. *)
Definition write_tee (tee : TEEParams) (p : SchedulerParams) : SchedulerParams :=
  MkSParams (sp_RuntimeClass p) (sp_Resources p)
    (if negb (tee_Attestation tee) then true else sp_AttestationDisabled p) (tee_Type tee).

Definition apply_tee (params : option ServiceParams) (sp : option loc) (st : store) : option loc * store :=
  match params ≫= par_TEE with
  | None => (sp, st)
  | Some tee =>
      match sp with
      | Some l => (Some l, alter (write_tee tee) l st)
      | None => (Some (List.length st), (st ++ [write_tee tee SParams_zero])%list)
      end
  end.

Definition params_toCRD (p : ServiceParams) : ManifestServiceParams :=
  MkCrdParams (par_Storage p) ((λ r, MkPermissions r [] []) <$> par_Permissions p).

Definition manifestServiceFromProvider (ams : Service) (sp : option loc) (st : store)
  : result string (ManifestService * store) :=
  let* resources := resourcesFromAkash (svc_Resources ams) in
  let '(sp, st) := apply_tee (svc_Params ams) sp st in
  Ok (MkCrdService (svc_Name ams) (svc_Image ams) (svc_Command ams) (svc_Args ams) (svc_Env ams) resources
        (svc_Count ams) (map manifestServiceExposeFromAkash (svc_Expose ams)) (params_toCRD <$> svc_Params ams)
        sp (svc_Credentials ams) (svc_InterconnectGroup ams), st).

Fixpoint services_toCRD (l : list Service) (sps : list (option loc)) (st : store)
  : result string (list ManifestService * store) :=
  match l, sps with
  | svc :: l, sp :: sps =>
      let* (service, st) := manifestServiceFromProvider svc sp st in
      let* (services, st) := services_toCRD l sps st in
      Ok (service :: services, st)
  | _, _ => Ok ([], st)
  end.

Definition manifestGroupToCRD (g : Group) (sps : list (option loc)) (st : store)
  : result string (ManifestGroup * store) :=
  let* (services, st) := services_toCRD (g_Services g) sps st in
  Ok (MkCrdGroup (g_Name g) services, st).

Record Manifest := MkManifest {
  m_Name : string; m_Namespace : string; m_LeaseID : CrdLeaseID; m_Group : ManifestGroup; m_ResourceVersion : string }.

Definition NewManifest `{GoUnicode} `{Cosmos} (ns : string) (lid : LeaseID) (g : Group) (sps : list (option loc))
  (st : store) : result string (Manifest * store) :=
  if negb (List.length (g_Services g) =? List.length sps)%nat
  then Err "group services count does not match scheduler services count"
  else
    let* (group, st) := manifestGroupToCRD g sps st in
    Ok (MkManifest (LeaseIDToNamespace lid) ns (LeaseIDFromAkash lid) group EmptyString, st).

(** The deployment of a stored manifest: lease, group, and the scheduler
    parameters by resource id. *)
Definition Manifest_Deployment `{Cosmos} (m : Manifest)
  : result string (LeaseID * Group * gmap Z (option loc) * string) :=
  let* lid := LeaseID_FromCRD (m_LeaseID m) in
  let* (group, params) := Group_FromCRD (m_Group m) in
  Ok (lid, group,
      foldl (λ acc '(svc, p), <[res_ID (svc_Resources svc) := p]> acc) ∅ (zip (g_Services group) params),
      m_ResourceVersion m).

(** ** Cluster settings: the parameters of the services from the reservation *)
Fixpoint buildClusterSettings (l : list Service) (reservation : gmap Z (option loc))
  : result string (list (option loc)) :=
  match l with
  | [] => Ok []
  | svc :: l =>
      match reservation !! res_ID (svc_Resources svc) with
      | None => Err "reservation does not have SchedulerParams for ResourcesID"
      | Some params => let* rest := buildClusterSettings l reservation in Ok (params :: rest)
      end
  end.

(** [validate] of a cluster deployment. *)
Definition sp_has_gpu (st : store) (sp : option loc) : bool :=
  match (l ← sp; p ← st !! l; r ← sp_Resources p; sr_GPU r) with Some _ => true | None => false end.
Definition validate_service (st : store) (svc : Service) (sp : option loc) : result string () :=
  let res := svc_Resources svc in
  match res_CPU res, res_GPU res, res_Memory res with
  | None, _, _ => Err "resource CPU cannot be nil"
  | _, None, _ => Err "resource GPU cannot be nil"
  | _, _, None => Err "resource Memory cannot be nil"
  | Some _, Some gpu, Some _ =>
      if (0 <? gpu_Units gpu)%Z && negb (sp_has_gpu st sp)
      then Err "SchedulerParams.Resources.GPU must not be nil when GPU > 0" else Ok ()
  end.
Fixpoint validate_services (st : store) (l : list Service) (sps : list (option loc)) : result string () :=
  match l, sps with
  | svc :: l, sp :: sps => let* _ := validate_service st svc sp in validate_services st l sps
  | _, _ => Ok ()
  end.
Definition ClusterDeployment_validate (st : store) (g : Group) (sps : list (option loc)) : result string () :=
  if negb (List.length (g_Services g) =? List.length sps)%nat
  then Err "group services count does not match scheduler params count"
  else validate_services st (g_Services g) sps.

(** What [ClusterParams()] returns. *)
Inductive cluster_params :=
| AsSettings (sps : list (option loc))
| AsReservation (reservation : gmap Z (option loc))
| AsOther.

Record ClusterDeployment := MkDeployment {
  cd_Lid : LeaseID; cd_Group : Group; cd_Sparams : list (option loc); cd_resourceVersion : string;
  cd_updateManifest : bool }.

Definition ClusterDeploymentFromDeployment (st : store) (lid : LeaseID) (g : Group) (params : cluster_params)
  (resourceVersion : string) : result string ClusterDeployment :=
  let* (cparams, updateManifest) :=
    match params with
    | AsSettings sps => Ok (sps, false)
    | AsReservation reservation => let* sps := buildClusterSettings (g_Services g) reservation in Ok (sps, true)
    | AsOther => Err "ClusterParams() returned result of unexpected type"
    end in
  let* _ := ClusterDeployment_validate st g cparams in
  Ok (MkDeployment lid g cparams resourceVersion updateManifest).

End manifest.

(** ** Facts *)

Section facts.
Context `{Protocols}.

(** What the round trip keeps of a service: the endpoints of its resources and
    the TEE settings of its parameters are not part of the stored service. *)
Definition stored_resources (r : Resources) : Resources :=
  MkResources (res_ID r) (res_CPU r) (res_Memory r) (res_Storage r) (res_GPU r) [].
Definition stored_params (p : ServiceParams) : ServiceParams := MkParams (par_Storage p) (par_Permissions p) None.
Definition stored_service (s : Service) : Service :=
  MkService _ (svc_Name s) (svc_Image s) (svc_Command s) (svc_Args s) (svc_Env s)
    (stored_resources (svc_Resources s)) (svc_Count s) (svc_Expose s) (stored_params <$> svc_Params s)
    (svc_Credentials s) (svc_InterconnectGroup s).

Definition uint64 (z : Z) : Prop := (0 ≤ z < 2 ^ 64)%Z.
Definition uint32 (z : Z) : Prop := (0 ≤ z ≤ MaxUint32)%Z.
Definition storable_resources (r : Resources) : Prop :=
  (∃ c, res_CPU r = Some c ∧ uint32 (cpu_Units c)) ∧ (∃ g, res_GPU r = Some g ∧ uint32 (gpu_Units g))
  ∧ (∃ m, res_Memory r = Some m ∧ uint64 (mem_Quantity m)) ∧ Forall (λ v, uint64 (sto_Quantity v)) (res_Storage r).
(** Ports are 16-bit, the protocol is one that is printed and read back, and
    proxy options are only given when they say something. *)
Definition storable_expose (e : ServiceExpose) : Prop :=
  (0 ≤ se_Port e < 2 ^ 16)%Z ∧ (0 ≤ se_ExternalPort e < 2 ^ 16)%Z
  ∧ ParseServiceProtocol (Protocol_ToString (se_Proto e)) = Ok (se_Proto e)
  ∧ ho_Proxy (se_HTTPOptions e) ≠ Some (MkProxy false 0 0 0 0 0).
Definition storable (s : Service) : Prop :=
  storable_resources (svc_Resources s) ∧ Forall storable_expose (svc_Expose s).

Lemma u32_uint32 z : uint32 z → u32 z = z.
Proof. unfold uint32, MaxUint32. intros. apply u32_id. lia. Qed.

Lemma resources_roundtrip r :
  storable_resources r → ∃ c, resourcesFromAkash r = Ok c ∧ Resources_ToAkash c = stored_resources r.
Proof.
  intros ((c & Hc & Hcu) & (g & Hg & Hgu) & (m & Hm & Hmu) & Hv).
  unfold resourcesFromAkash, cpu_FromAkash, gpu_FromAkash. rewrite Hc, Hg, Hm.
  pose proof Hcu as [_ Hc']. pose proof Hgu as [_ Hg'].
  rewrite (proj2 (Z.ltb_ge _ _) Hc'), (proj2 (Z.ltb_ge _ _) Hg'). eexists. split; [reflexivity|].
  unfold Resources_ToAkash, stored_resources, ResourceCPU_ToAkash, ResourceGPU_ToAkash, ResourceMemory_ToAkash.
  cbn. rewrite !u32_uint32, ParseUint_FormatUint, Hc, Hg, Hm by done. cbn.
  destruct c, g, m. f_equal. rewrite map_map. rewrite <- (map_id (res_Storage r)) at 2.
  apply map_ext_Forall. eapply Forall_impl; [exact Hv|]. intros [n q a] Hq. unfold ResourceVolume_ToAkash. cbn in *.
  by rewrite ParseUint_FormatUint.
Qed.

Lemma proxy_roundtrip o :
  ho_Proxy o ≠ Some (MkProxy false 0 0 0 0 0) → proxyToAkash (http_FromAkash o) = ho_Proxy o.
Proof.
  destruct o as [? ? ? ? ? ? [[b s1 s2 s3 s4 s5]|]]; [|done]. cbn. intros Hp.
  unfold proxyToAkash. cbn.
  destruct b; cbn; [done|].
  destruct (Z.eqb_spec s1 0), (Z.eqb_spec s2 0), (Z.eqb_spec s3 0), (Z.eqb_spec s4 0), (Z.eqb_spec s5 0);
    cbn; try done. by subst.
Qed.

Lemma u16_id z : (0 ≤ z < 2 ^ 16)%Z → u16 z = z.
Proof. intros. by apply Z.mod_small. Qed.

Lemma expose_roundtrip e :
  storable_expose e → expose_toAkash (manifestServiceExposeFromAkash e) = Ok e.
Proof.
  intros (Hp & He & Hproto & Hproxy). unfold expose_toAkash. cbn [ce_Proto manifestServiceExposeFromAkash].
  rewrite Hproto. cbn. rewrite proxy_roundtrip, !u16_id by done.
  destruct e as [? ? ? ? ? ? [] ? ?]. done.
Qed.

Lemma exposes_roundtrip es res :
  Forall storable_expose es →
  ∃ res', read_exposes (map manifestServiceExposeFromAkash es) res = Ok (es, res').
Proof.
  intros Hes. revert res. induction Hes as [|e es He Hes IH]; intros res; cbn [map read_exposes]; [by eauto|].
  rewrite (expose_roundtrip e He). cbn [rbind].
  match goal with |- context [read_exposes _ ?r] => destruct (IH r) as [res' ->] end. cbn. eauto.
Qed.

Lemma params_roundtrip p : params_fromCRD (params_toCRD p) = stored_params p.
Proof. by destruct p as [? [?|] ?]. Qed.

Lemma service_roundtrip s sp st :
  storable s → ∃ ms st', manifestServiceFromProvider s sp st = Ok (ms, st')
    ∧ service_fromCRD ms = Ok (stored_service s)
    ∧ ms_SchedulerParams ms = (apply_tee (svc_Params s) sp st).1 ∧ st' = (apply_tee (svc_Params s) sp st).2.
Proof.
  intros [Hr He]. unfold manifestServiceFromProvider.
  destruct (resources_roundtrip _ Hr) as (c & -> & Hc). cbn [rbind].
  destruct (apply_tee (svc_Params s) sp st) as [sp' st']. eexists _, _. split; [reflexivity|].
  unfold service_fromCRD. cbn [ms_Expose ms_Resources].
  destruct (exposes_roundtrip (svc_Expose s) (Resources_ToAkash c) He) as [res' ->]. cbn [rbind].
  split_and!; [|done..]. rewrite Hc. unfold stored_service. cbn.
  destruct (svc_Params s) as [p|]; cbn; [by rewrite params_roundtrip|done].
Qed.

Lemma services_roundtrip l sps st :
  Forall storable l → List.length l = List.length sps →
  ∃ mss st' sps', services_toCRD l sps st = Ok (mss, st')
    ∧ services_fromCRD mss = Ok (map stored_service l, sps') ∧ List.length sps' = List.length l
    ∧ ∀ i p, sps !! i = Some (Some p) → sps' !! i = Some (Some p).
Proof.
  intros Hl. revert sps st. induction Hl as [|s l Hs Hl IH]; intros sps st Hlen; destruct sps as [|sp sps]; try done.
  { exists [], st, []. done. }
  cbn [services_toCRD]. destruct (service_roundtrip s sp st Hs) as (ms & st1 & -> & Hms & Hsp & _). cbn [rbind].
  destruct (IH sps st1) as (mss & st2 & sps' & -> & Hmss & Hlen' & Hkeep); [by injection Hlen|]. cbn [rbind].
  exists (ms :: mss), st2, (ms_SchedulerParams ms :: sps'). split; [done|]. cbn [services_fromCRD].
  rewrite Hms, Hmss. cbn [rbind]. split_and!; [done|cbn; congruence|].
  intros [|i] p Hi; cbn in *; [|by apply Hkeep]. injection Hi as ->. rewrite Hsp. f_equal.
  unfold apply_tee. by destruct (svc_Params s ≫= par_TEE).
Qed.


(** *** Scheduler parameters behind shared pointers *)

Definition disabled_at (l : nat) (st : list SchedulerParams) : Prop :=
  ∃ p, st !! l = Some p ∧ sp_AttestationDisabled p = true.

Lemma apply_tee_keeps params sp st l : disabled_at l st → disabled_at l (apply_tee params sp st).2.
Proof.
  intros (p & Hp & Hd). unfold apply_tee. destruct (params ≫= par_TEE) as [tee|]; [|by exists p].
  destruct sp as [l'|]; cbn [snd].
  - exists (if decide (l' = l) then write_tee tee p else p). rewrite list_lookup_alter.
    destruct (decide (l' = l)) as [->|]; rewrite Hp; [|done]. split; [done|].
    unfold write_tee. cbn. by destruct (negb _).
  - exists p. split; [|done]. apply lookup_app_l_Some. done.
Qed.

Lemma apply_tee_length params sp st : (List.length st ≤ List.length (apply_tee params sp st).2)%nat.
Proof.
  unfold apply_tee. destruct (params ≫= par_TEE); [|done]. destruct sp; cbn [snd].
  - by rewrite length_alter.
  - rewrite length_app. lia.
Qed.

Lemma apply_tee_disables params tee l st :
  params ≫= par_TEE = Some tee → tee_Attestation tee = false → (l < List.length st)%nat →
  disabled_at l (apply_tee params (Some l) st).2.
Proof.
  intros Ht Ha Hl. unfold apply_tee. rewrite Ht. cbn [snd].
  destruct (lookup_lt_is_Some_2 _ _ Hl) as [p Hp]. exists (write_tee tee p).
  rewrite list_lookup_alter, decide_True, Hp by done. split; [done|]. unfold write_tee. cbn. by rewrite Ha.
Qed.

Lemma service_toCRD_params s sp st ms st' :
  manifestServiceFromProvider s sp st = Ok (ms, st') →
  ms_SchedulerParams ms = (apply_tee (svc_Params s) sp st).1 ∧ st' = (apply_tee (svc_Params s) sp st).2.
Proof.
  unfold manifestServiceFromProvider. intros E. apply rbind_ok in E as (r & _ & E).
  destruct (apply_tee _ _ _) as [sp' st1]. by injection E as <- <-.
Qed.

Lemma services_toCRD_keeps l sps st mss st' k :
  services_toCRD l sps st = Ok (mss, st') → disabled_at k st → disabled_at k st'.
Proof.
  revert sps st mss. induction l as [|s l IH]; intros sps st mss E Hk; destruct sps as [|sp sps]; cbn [services_toCRD] in E;
    try (by injection E as <- <-).
  apply rbind_ok in E as ([ms st1] & Es & E). apply rbind_ok in E as ([mss1 st2] & E1 & E). injection E as <- <-.
  apply service_toCRD_params in Es as [_ ->]. eapply IH; [exact E1|]. by apply apply_tee_keeps.
Qed.

Lemma services_toCRD_disables l sps st mss st' j s tee k :
  services_toCRD l sps st = Ok (mss, st') → l !! j = Some s → sps !! j = Some (Some k) →
  svc_Params s ≫= par_TEE = Some tee → tee_Attestation tee = false → (k < List.length st)%nat →
  disabled_at k st'.
Proof.
  revert sps st mss j. induction l as [|s0 l IH]; intros sps st mss j E Hs Hsp Ht Ha Hk; [done|].
  destruct sps as [|sp sps]; [done|]. cbn [services_toCRD] in E.
  apply rbind_ok in E as ([ms st1] & Es & E). apply rbind_ok in E as ([mss1 st2] & E1 & E). injection E as <- <-.
  apply service_toCRD_params in Es as [_ ->]. destruct j as [|j]; cbn in Hs, Hsp.
  - simplify_eq. eapply services_toCRD_keeps; [exact E1|]. by eapply apply_tee_disables.
  - eapply (IH sps _ mss1 j); eauto. pose proof (apply_tee_length (svc_Params s0) sp st). lia.
Qed.

Lemma services_toCRD_pointer l sps st mss st' i s k :
  services_toCRD l sps st = Ok (mss, st') → l !! i = Some s → sps !! i = Some (Some k) →
  ∃ ms, mss !! i = Some ms ∧ ms_SchedulerParams ms = Some k.
Proof.
  revert sps st mss i. induction l as [|s0 l IH]; intros sps st mss i E Hs Hsp; [done|].
  destruct sps as [|sp sps]; [done|]. cbn [services_toCRD] in E.
  apply rbind_ok in E as ([ms st1] & Es & E). apply rbind_ok in E as ([mss1 st2] & E1 & E). injection E as <- <-.
  destruct i as [|i]; cbn in Hs, Hsp; [|exact (IH _ _ _ _ E1 Hs Hsp)]. simplify_eq.
  apply service_toCRD_params in Es as [Hp _]. exists ms. split; [done|]. rewrite Hp.
  unfold apply_tee. by destruct (svc_Params s ≫= par_TEE).
Qed.

Lemma buildClusterSettings_lookup l res sps i s :
  buildClusterSettings l res = Ok sps → l !! i = Some s → sps !! i = res !! res_ID (svc_Resources s).
Proof.
  revert sps i. induction l as [|s0 l IH]; intros sps i E Hs; [done|]. cbn [buildClusterSettings] in E.
  destruct (res !! res_ID (svc_Resources s0)) as [p|] eqn:Ep; [|done].
  apply rbind_ok in E as (rest & Er & E). injection E as <-. destruct i as [|i]; cbn in *; [by simplify_eq|].
  by eapply IH.
Qed.

End facts.

Section manifest_properties.
Context `{GoUnicode} `{Cosmos} `{Protocols}.

(** Claim C35.  A manifest survives being stored: for a group whose amounts fit
    the stored widths and as many scheduler parameters as services, NewManifest
    succeeds, and the deployment read back from the object has the same lease
    and the same group, up to the endpoints of the resources and the TEE
    settings of the service parameters, which are not stored there; every
    service keeps the scheduler parameters it was given. *)
Theorem manifest_roundtrip (ns : string) (lid : LeaseID) (g : Group) (sps : list (option nat))
  (st : list SchedulerParams)
  (Howner : AccAddress_String (lid_Owner lid) = Ok (lid_Owner lid))
  (Hprov : AccAddress_String (lid_Provider lid) = Ok (lid_Provider lid))
  (Hdseq : (0 ≤ lid_DSeq lid < 2 ^ 64)%Z)
  (Hg : Forall storable (g_Services g)) (Hlen : List.length (g_Services g) = List.length sps) :
  ∃ m st' params, NewManifest ns lid g sps st = Ok (m, st')
    ∧ Manifest_Deployment m = Ok (lid, MkGroup _ (g_Name g) (map stored_service (g_Services g)), params, EmptyString)
    ∧ m_Name m = LeaseIDToNamespace lid
    ∧ ∀ i p, sps !! i = Some (Some p) → ∃ ms, mg_Services (m_Group m) !! i = Some ms ∧ ms_SchedulerParams ms = Some p.
Proof.
  unfold NewManifest. rewrite (proj2 (Nat.eqb_eq _ _) Hlen). cbn [negb]. unfold manifestGroupToCRD.
  destruct (services_roundtrip _ sps st Hg Hlen) as (mss & st' & sps' & E & Hmss & Hlen' & Hkeep).
  pose proof E as E0. rewrite E0. cbn [rbind]. eexists _, _, _. split; [reflexivity|].
  unfold Manifest_Deployment. cbn [m_LeaseID m_Group m_ResourceVersion m_Name mg_Services].
  rewrite (lease_id_stored lid Howner Hprov Hdseq). cbn [rbind]. unfold Group_FromCRD. cbn [mg_Services mg_Name].
  rewrite Hmss. cbn [rbind]. split; [reflexivity|]. split; [done|].
  intros i p Hp. destruct (lookup_lt_is_Some_2 (g_Services g) i) as [s Hs].
  { rewrite Hlen. by eapply lookup_lt_Some. }
  by eapply services_toCRD_pointer.
Qed.

(** Reading a service back never restores an endpoint: the endpoint
    of a leased IP is appended to a local copy of the resources after the
    service has taken its own, so a service that exposes a leased IP is read
    back without any endpoint (and the quantity of leased IPs counts 0). *)
Theorem fromCRD_drops_endpoints (ms : ManifestService) (s : Service)
  (Hread : service_fromCRD ms = Ok s) :
  res_Endpoints (svc_Resources s) = []
  ∧ GetEndpointQuantityOfResourceUnits (svc_Resources s) LEASED_IP = 0%nat.
Proof.
  unfold service_fromCRD in Hread. apply rbind_ok in Hread as ([es res] & _ & E). injection E as <-.
  split; [done|]. unfold GetEndpointQuantityOfResourceUnits, accumEndpointsOfResources. cbn. apply size_empty.
Qed.

(** Services with the same resource id share one set of scheduler
    parameters, so turning attestation off for one of them turns it off for
    all: when a deployment made from a reservation is stored, and service [j]
    asks for a TEE without attestation, then every service [i] with the same
    resource id is stored with attestation disabled, whatever it asks for. *)
Theorem attestation_shared (lid : LeaseID) (g : Group) (reservation : gmap Z (option nat)) (version : string)
  (cd : ClusterDeployment) (st st' : list SchedulerParams) (mg : ManifestGroup) (i j : nat) (si sj : Service) (tee : TEEParams) (k : nat)
  (Hbuild : ClusterDeploymentFromDeployment st lid g (AsReservation reservation) version = Ok cd)
  (Hstore : manifestGroupToCRD (cd_Group cd) (cd_Sparams cd) st = Ok (mg, st'))
  (Hi : g_Services g !! i = Some si) (Hj : g_Services g !! j = Some sj)
  (Hid : res_ID (svc_Resources si) = res_ID (svc_Resources sj))
  (Hres : reservation !! res_ID (svc_Resources sj) = Some (Some k)) (Hk : (k < List.length st)%nat)
  (Htee : svc_Params sj ≫= par_TEE = Some tee) (Hatt : tee_Attestation tee = false) :
  ∃ ms p, mg_Services mg !! i = Some ms ∧ ms_SchedulerParams ms = Some k
    ∧ st' !! k = Some p ∧ sp_AttestationDisabled p = true.
Proof.
  unfold ClusterDeploymentFromDeployment in Hbuild. apply rbind_ok in Hbuild as ([sps upd] & Hb & E).
  apply rbind_ok in Hb as (sps0 & Hb & E0). injection E0 as -> _.
  apply rbind_ok in E as (_ & _ & E). injection E as <-. cbn [cd_Group cd_Sparams] in Hstore.
  unfold manifestGroupToCRD in Hstore. apply rbind_ok in Hstore as ([mss st1] & Hs & E). injection E as <- <-.
  pose proof (buildClusterSettings_lookup _ _ _ _ _ Hb Hi) as Hpi. rewrite Hid, Hres in Hpi.
  pose proof (buildClusterSettings_lookup _ _ _ _ _ Hb Hj) as Hpj. rewrite Hres in Hpj.
  destruct (services_toCRD_pointer _ _ _ _ _ _ _ _ Hs Hi Hpi) as (ms & Hms & Hsp).
  destruct (services_toCRD_disables _ _ _ _ _ _ _ _ _ Hs Hj Hpj Htee Hatt Hk) as (p & Hp & Hd).
  exists ms, p. done.
Qed.

End manifest_properties.

(** ** A sample group *)

Module ManifestSample.

Inductive proto := TCP | UDP.
#[export] Instance protocols : Protocols := {|
  ServiceProtocol := proto;
  Protocol_ToString p := match p with TCP => "TCP" | UDP => "UDP" end;
  ParseServiceProtocol s := if s =? "TCP" then Ok TCP else if s =? "UDP" then Ok UDP else Err "unknown protocol"
|}.
#[export] Instance ascii_only : GoUnicode := λ s, s.

Definition resources : Resources :=
  MkResources 7 (Some (MkCPU 500 [])) (Some (MkMemory 1024 [])) [MkStorage "data" 4096 []] (Some (MkGPU 0 []))
    [MkEndpoint LEASED_IP 3].
Definition http : HTTPOptions := MkHTTP 1 2 3 4 5 ["error"] (Some (MkProxy true 8 0 0 0 0)).
Definition service (name : string) (attestation : bool) : Service :=
  MkService _ name "img" [] [] ["A=1"] resources 1 [MkExpose _ 80 8080 TCP EmptyString true ["h"] http "ip0" 3]
    (Some (MkParams [MkStorageParams "data" "/mnt" false] None (Some (MkTEE "cpu" attestation)))) None "ring".
Definition group : Group := MkGroup _ "west" [service "a" true; service "b" false].

Lemma storable_service name b : storable (service name b).
Proof.
  split.
  - split; [by exists (MkCPU 500 [])|]. split; [by exists (MkGPU 0 [])|]. split; [by exists (MkMemory 1024 [])|].
    by constructor.
  - constructor; [|constructor]. split_and!; done.
Qed.

End ManifestSample.
Import ManifestSample PlainCosmos.

Lemma manifest_roundtrip_witness :
  ∃ m st' params, NewManifest "lease" sample_lid group [Some 0%nat; None] [SParams_zero] = Ok (m, st')
    ∧ Manifest_Deployment m = Ok (sample_lid, MkGroup _ "west" (map stored_service (g_Services group)), params, EmptyString).
Proof.
  destruct (manifest_roundtrip "lease" sample_lid group [Some 0%nat; None] [SParams_zero])
    as (m & st' & params & E & Hd & _); [reflexivity|reflexivity|split; [discriminate|reflexivity]| |reflexivity|].
  - constructor; [apply storable_service|]. constructor; [apply storable_service|constructor].
  - exists m, st', params. split; [exact E|exact Hd].
Defined.

(** A stored service that exposes a leased IP. *)
Definition leased_ms : ManifestService :=
  MkCrdService "a" "img" [] [] []
    (MkCrdResources 7 (MkRCPU 500 []) (MkRGPU 0 []) (MkRMemory "1024" []) [MkRVolume "data" "4096" []]) 1
    [MkCrdExpose 80 80 "TCP" EmptyString true [] (http_FromAkash http) "ip0" 3] None None None EmptyString.

Lemma fromCRD_drops_endpoints_witness :
  ∃ s, service_fromCRD leased_ms = Ok s ∧ (λ e, se_IP e) <$> svc_Expose s = ["ip0"]
    ∧ res_Endpoints (svc_Resources s) = [].
Proof.
  eexists. split; [vm_compute; reflexivity|]. split; [reflexivity|].
  eapply (fromCRD_drops_endpoints leased_ms). vm_compute. reflexivity.
Defined.

Lemma attestation_shared_witness :
  ∃ mg st' ms p, manifestGroupToCRD group [Some 0%nat; Some 0%nat] [SParams_zero] = Ok (mg, st')
    ∧ mg_Services mg !! 0%nat = Some ms ∧ ms_SchedulerParams ms = Some 0%nat
    ∧ st' !! 0%nat = Some p ∧ sp_AttestationDisabled p = true.
Proof.
  destruct (manifestGroupToCRD group [Some 0%nat; Some 0%nat] [SParams_zero]) as [[mg st']|e] eqn:E.
  - destruct (attestation_shared sample_lid group {[7%Z := Some 0%nat]} "1"
      (MkDeployment sample_lid group [Some 0%nat; Some 0%nat] "1" true) [SParams_zero] st' mg 0 1
      (service "a" true) (service "b" false) (MkTEE "cpu" false) 0) as (ms & p & Hms & Hsp & Hp & Hd);
      [vm_compute; reflexivity|exact E|reflexivity|reflexivity|reflexivity|vm_compute; reflexivity|cbn; lia
      |reflexivity|reflexivity|].
    exists mg, st', ms, p. split; [reflexivity|]. split; [exact Hms|]. split; [exact Hsp|]. split; [exact Hp|exact Hd].
  - assert (is_ok (manifestGroupToCRD group [Some 0%nat; Some 0%nat] [SParams_zero]) = true) as Hok
      by (vm_compute; reflexivity).
    rewrite E in Hok. discriminate Hok.
Defined.
