(* ===== verification/Hostname.v ===== *)
(** * Hostname reservations

    [cluster/hostname.go]: which deployment group holds which hostname.  The
    goroutine [run] serves one request at a time, so a request is one step on
    the map; the [select]s of the callers, which may see the context or the
    service end, are arguments. *)
From Stdlib Require Import Ascii String.
From S2P Require Import Prelude GoStrings ChainTypes ClusterTypes LeaseNames.

Open Scope string_scope.
Open Scope go_scope.

(** [lID.DeploymentID().GetOwnerAddress()]; an address is its bytes. *)
Class Owners := GetOwnerAddress : LeaseID → result string string.

Record hostnameID := MkHID { hid_owner : string; hid_dseq : Z; hid_gseq : Z }.

#[export] Instance hostnameID_eq_dec : EqDecision hostnameID.
Proof. solve_decision. Defined.

Definition hID_Equals (a b : hostnameID) : bool :=
  (hid_gseq a =? hid_gseq b)%Z && (hid_dseq a =? hid_dseq b)%Z && (hid_owner a =? hid_owner b).

Definition hostnameIDFromLeaseID `{Owners} (lid : LeaseID) : result string hostnameID :=
  let* owner := GetOwnerAddress lid in Ok (MkHID owner (lid_DSeq lid) (lid_GSeq lid)).

Notation hosts := (gmap string hostnameID).

Inductive hostname_error :=
| ErrInUse (host : string)
| ErrBlockedName (host : string)
| ErrBlockedDomain (host : string)
| ErrNotRunning
| ErrContext
| ErrLease (err : string).

(** ** The operations on the map *)

Fixpoint prepare_check (store : hosts) (hostnames : list string) (hID : hostnameID)
  : result hostname_error (list string) :=
  match hostnames with
  | [] => Ok []
  | h :: hostnames =>
      match store !! h with
      | Some e =>
          if hid_owner e =? hid_owner hID
          then let* l := prepare_check store hostnames hID in Ok (h :: l)
          else Err (ErrInUse h)
      | None => prepare_check store hostnames hID
      end
  end.

Definition assign (hID : hostnameID) (store : hosts) (hostnames : list string) : hosts :=
  foldl (λ s h, <[h := hID]> s) store hostnames.

Definition prepareHostnamesImpl (store : hosts) (hostnames : list string) (hID : hostnameID)
  : result hostname_error () * hosts :=
  match prepare_check store hostnames hID with
  | Err e => (Err e, store)
  | Ok toChange => (Ok (), assign hID store toChange)
  end.

(** The withheld hostnames, in the order of the request. *)
Fixpoint reserve_check (store : hosts) (hostnames : list string) (hID : hostnameID)
  : result hostname_error (list string) :=
  match hostnames with
  | [] => Ok []
  | h :: hostnames =>
      match store !! h with
      | Some e =>
          if negb (hid_owner e =? hid_owner hID) then Err (ErrInUse h)
          else
            let* l := reserve_check store hostnames hID in
            Ok (if negb (hID_Equals e hID) then h :: l else l)
      | None => reserve_check store hostnames hID
      end
  end.

(** The hostnames of [hID] that are not requested any more. *)
Definition unrequested (store : hosts) (hostnames : list string) (hID : hostnameID) : list string :=
  omap (λ '(h, e), if bool_decide (h ∈ hostnames) then None
                   else if hID_Equals e hID then Some h else None) (map_to_list store).

Definition reserveHostnamesImpl (store : hosts) (hostnames : list string) (hID : hostnameID)
  : result hostname_error (list string) * hosts :=
  match reserve_check store hostnames hID with
  | Err e => (Err e, store)
  | Ok withheld =>
      let removeHostnames := unrequested store hostnames hID in
      let store := assign hID store (filter (λ h, h ∉ withheld) hostnames) in
      (Ok withheld, foldl (λ s h, delete h s) store removeHostnames)
  end.

Fixpoint canReserveHostnamesImpl (store : hosts) (hostnames : list string) (owner : string)
  : result hostname_error () :=
  match hostnames with
  | [] => Ok ()
  | h :: hostnames =>
      match store !! h with
      | Some e => if negb (hid_owner e =? owner) then Err (ErrInUse h)
                  else canReserveHostnamesImpl store hostnames owner
      | None => canReserveHostnamesImpl store hostnames owner
      end
  end.

Definition releaseHostnamesImpl (store : hosts) (hID : hostnameID) : hosts :=
  foldl (λ s h, delete h s) store
    (omap (λ '(h, e), if hID_Equals e hID then Some h else None) (map_to_list store)).

(** ** The service *)

Record hostnameService := MkHostnames {
  hs_inUse : hosts; hs_blockedHostnames : list string; hs_blockedDomains : list string }.

Definition set_inUse (s : hosts) (hs : hostnameService) : hostnameService :=
  MkHostnames s (hs_blockedHostnames hs) (hs_blockedDomains hs).

(** The blocked names of the configuration: a name that starts with a dot
    blocks the domain and the name after the dot. *)
Fixpoint blocked_lists (names : list string) : list string * list string :=
  match names with
  | [] => ([], [])
  | name :: names =>
      let '(bh, bd) := blocked_lists names in
      match name with
      | String "." rest => (rest :: bh, name :: bd)
      | _ => (name :: bh, bd)
      end
  end.

Fixpoint initial_hosts `{Owners} (l : list (string * LeaseID)) (acc : hosts) : result string hosts :=
  match l with
  | [] => Ok acc
  | (k, v) :: l => let* hID := hostnameIDFromLeaseID v in initial_hosts l (<[k := hID]> acc)
  end.

Definition newHostnameService `{Owners} (blocked : list string) (initialData : list (string * LeaseID))
  : result string hostnameService :=
  let* inUse := initial_hosts initialData ∅ in
  Ok (MkHostnames inUse (blocked_lists blocked).1 (blocked_lists blocked).2).

(** One arm of the loop of [run]. *)
Inductive request :=
| ReqReserve (hostnames : list string) (hID : hostnameID)
| ReqCan (hostnames : list string) (owner : string)
| ReqRelease (hID : hostnameID)
| ReqPrepare (hostnames : list string) (hID : hostnameID).

Definition run_step (store : hosts) (r : request) : result hostname_error (list string) * hosts :=
  match r with
  | ReqReserve hostnames hID => reserveHostnamesImpl store hostnames hID
  | ReqCan hostnames owner =>
      (let* _ := canReserveHostnamesImpl store hostnames owner in Ok [], store)
  | ReqRelease hID => (Ok [], releaseHostnamesImpl store hID)
  | ReqPrepare hostnames hID =>
      let '(r, store) := prepareHostnamesImpl store hostnames hID in (let* _ := r in Ok [], store)
  end.

(** How a [select] of a caller ends. *)
Inductive arm := Served | CtxDone | ShuttingDown.

Section service.
Context `{GoUnicode} `{Owners}.

Definition isHostnameBlocked (hs : hostnameService) (hostname : string) : result hostname_error () :=
  if bool_decide (hostname ∈ hs_blockedHostnames hs) then Err (ErrBlockedName hostname)
  else if existsb (HasSuffix hostname) (hs_blockedDomains hs) then Err (ErrBlockedDomain hostname)
  else Ok ().

Fixpoint check_blocked (hs : hostnameService) (hostnames : list string) : result hostname_error () :=
  match hostnames with
  | [] => Ok ()
  | h :: hostnames => let* _ := isHostnameBlocked hs h in check_blocked hs hostnames
  end.

Definition lease_hID (lid : LeaseID) : result hostname_error hostnameID :=
  match hostnameIDFromLeaseID lid with Ok h => Ok h | Err e => Err (ErrLease e) end.

(** [sent] is the select that sends the request, [answered] the one that waits
    for the answer; a request that was sent is served. *)
Definition ReserveHostnames (hs : hostnameService) (hostnames : list string) (lid : LeaseID)
  (sent answered : arm) : result hostname_error (list string) * hostnameService :=
  let lowercaseHostnames := map ToLower hostnames in
  match check_blocked hs lowercaseHostnames with
  | Err e => (Err e, hs)
  | Ok _ =>
      match lease_hID lid with
      | Err e => (Err e, hs)
      | Ok hID =>
          match sent with
          | CtxDone => (Err ErrContext, hs)
          | ShuttingDown => (Err ErrNotRunning, hs)
          | Served =>
              let '(r, store) := run_step (hs_inUse hs) (ReqReserve lowercaseHostnames hID) in
              (match answered with
               | Served => r
               | CtxDone => Err ErrContext
               | ShuttingDown => Err ErrNotRunning
               end, set_inUse store hs)
          end
      end
  end.

Definition CanReserveHostnames (hs : hostnameService) (hostnames : list string) (owner : string)
  (sent : arm) : result hostname_error () :=
  let lowercaseHostnames := map ToLower hostnames in
  let* _ := check_blocked hs lowercaseHostnames in
  match sent with
  | Served => let* _ := (run_step (hs_inUse hs) (ReqCan lowercaseHostnames owner)).1 in Ok ()
  | _ => Err ErrNotRunning
  end.

Definition ReleaseHostnames (hs : hostnameService) (lid : LeaseID) (sent : arm)
  : result hostname_error () * hostnameService :=
  match lease_hID lid with
  | Err e => (Err e, hs)
  | Ok hID =>
      match sent with
      | Served => (Ok (), set_inUse (run_step (hs_inUse hs) (ReqRelease hID)).2 hs)
      | _ => (Ok (), hs)
      end
  end.

Definition PrepareHostnamesForTransfer (hs : hostnameService) (hostnames : list string) (lid : LeaseID)
  (sent answered : arm) : result hostname_error () * hostnameService :=
  match lease_hID lid with
  | Err e => (Err e, hs)
  | Ok hID =>
      match sent with
      | CtxDone => (Err ErrContext, hs)
      | ShuttingDown =>
          (match answered with CtxDone => Err ErrContext | _ => Err ErrNotRunning end, hs)
      | Served =>
          let '(r, store) := run_step (hs_inUse hs) (ReqPrepare hostnames hID) in
          (match answered with
           | Served => let* _ := r in Ok ()
           | CtxDone => Err ErrContext
           | ShuttingDown => Err ErrNotRunning
           end, set_inUse store hs)
      end
  end.

End service.

(** ** Facts *)

Lemma hID_Equals_eq a b : hID_Equals a b = true ↔ a = b.
Proof.
  unfold hID_Equals. rewrite !andb_true_iff, !Z.eqb_eq, String.eqb_eq.
  destruct a, b; cbn. naive_solver.
Qed.

Lemma assign_lookup hID l s h : assign hID s l !! h = if decide (h ∈ l) then Some hID else s !! h.
Proof.
  unfold assign. revert s. induction l as [|x l IH]; intros s; cbn [foldl].
  { by rewrite decide_False by apply not_elem_of_nil. }
  rewrite IH, lookup_insert. repeat case_decide; set_solver.
Qed.

Lemma deletes_lookup l (s : hosts) h :
  foldl (λ s h, delete h s) s l !! h = if decide (h ∈ l) then None else s !! h.
Proof.
  revert s. induction l as [|x l IH]; intros s; cbn [foldl].
  { by rewrite decide_False by apply not_elem_of_nil. }
  rewrite IH, lookup_delete. repeat case_decide; set_solver.
Qed.

Lemma elem_of_unrequested store l hID h :
  h ∈ unrequested store l hID ↔ h ∉ l ∧ store !! h = Some hID.
Proof.
  unfold unrequested. rewrite list_elem_of_omap. split.
  - intros ([h' e] & Hin & E). apply elem_of_map_to_list in Hin.
    case_bool_decide; [done|]. destruct (hID_Equals e hID) eqn:Ee; [|done]. injection E as ->.
    apply hID_Equals_eq in Ee as ->. done.
  - intros [Hl Hs]. exists (h, hID). split; [by apply elem_of_map_to_list|].
    rewrite bool_decide_eq_false_2 by done. by rewrite (proj2 (hID_Equals_eq hID hID) eq_refl).
Qed.

Lemma release_lookup store hID h :
  releaseHostnamesImpl store hID !! h = if decide (store !! h = Some hID) then None else store !! h.
Proof.
  unfold releaseHostnamesImpl. rewrite deletes_lookup.
  assert (h ∈ omap (λ '(h, e), if hID_Equals e hID then Some h else None) (map_to_list store)
          ↔ store !! h = Some hID) as Hin.
  { rewrite list_elem_of_omap. split.
    - intros ([h' e] & Hin & E). apply elem_of_map_to_list in Hin.
      destruct (hID_Equals e hID) eqn:Ee; [|done]. injection E as ->. apply hID_Equals_eq in Ee as ->. done.
    - intros Hs. exists (h, hID). split; [by apply elem_of_map_to_list|].
      by rewrite (proj2 (hID_Equals_eq hID hID) eq_refl). }
  repeat case_decide; tauto.
Qed.

(** Some requested hostname is held by another owner. *)
Definition conflict (store : hosts) (l : list string) (owner : string) : Prop :=
  ∃ h e, h ∈ l ∧ store !! h = Some e ∧ hid_owner e ≠ owner.

Lemma reserve_check_spec store l hID :
  match reserve_check store l hID with
  | Err _ => conflict store l (hid_owner hID)
  | Ok withheld =>
      (¬ conflict store l (hid_owner hID))
      ∧ ∀ h, h ∈ withheld ↔ h ∈ l ∧ ∃ e, store !! h = Some e ∧ e ≠ hID
  end.
Proof.
  induction l as [|h l IH]; cbn [reserve_check].
  { split; [|set_solver]. intros (? & ? & Hin & _). by apply not_elem_of_nil in Hin. }
  destruct (store !! h) as [e|] eqn:Eh.
  - destruct (String.eqb_spec (hid_owner e) (hid_owner hID)) as [Ho|Ho]; cbn [negb].
    2: { exists h, e. split; [apply list_elem_of_here|done]. }
    destruct (reserve_check store l hID) as [w|]; cbn [rbind].
    2: { destruct IH as (h' & e' & ? & ? & ?). exists h', e'. split; [by apply list_elem_of_further|done]. }
    destruct IH as [Hc Hw]. split.
    { intros (h' & e' & Hin & ? & ?). apply elem_of_cons in Hin as [->|Hin]; [congruence|].
      apply Hc. by exists h', e'. }
    intros h'. destruct (hID_Equals e hID) eqn:Ee; cbn [negb].
    + apply hID_Equals_eq in Ee as ->. rewrite Hw, elem_of_cons. naive_solver.
    + assert (e ≠ hID) by (intros ->; by rewrite (proj2 (hID_Equals_eq hID hID) eq_refl) in Ee).
      rewrite !elem_of_cons, Hw. naive_solver.
  - destruct (reserve_check store l hID) as [w|]; [|destruct IH as (h' & e' & ? & ? & ?); exists h', e';
      split; [by apply list_elem_of_further|done]].
    destruct IH as [Hc Hw]. split.
    { intros (h' & e' & Hin & ? & ?). apply elem_of_cons in Hin as [->|Hin]; [congruence|].
      apply Hc. by exists h', e'. }
    intros h'. rewrite Hw, elem_of_cons. naive_solver.
Qed.

Lemma canReserve_spec store l owner :
  is_ok (canReserveHostnamesImpl store l owner) = true ↔ ¬ conflict store l owner.
Proof.
  induction l as [|h l IH]; cbn [canReserveHostnamesImpl].
  { split; [|done]. intros _ (? & ? & Hin & _). by apply not_elem_of_nil in Hin. }
  assert (∀ P, (store !! h = None ∨ ∃ e, store !! h = Some e ∧ hid_owner e = owner) → (P ↔ ¬ conflict store l owner) →
    (P ↔ ¬ conflict store (h :: l) owner)) as Hstep.
  { intros P Hh ->. unfold conflict. split; intros Hc (h' & e' & Hin & He & Ho); apply Hc.
    - apply elem_of_cons in Hin as [->|Hin]; [naive_solver|]. by exists h', e'.
    - exists h', e'. split; [by apply list_elem_of_further|done]. }
  destruct (store !! h) as [e|] eqn:Eh; [|by apply Hstep; [left|]].
  destruct (String.eqb_spec (hid_owner e) owner) as [Ho|Ho]; cbn [negb]; [apply Hstep; eauto|].
  split; [done|]. intros Hc. exfalso. apply Hc. exists h, e. split; [apply list_elem_of_here|done].
Qed.

(** What the map holds after a successful reservation. *)
Definition reserved (store : hosts) (l : list string) (hID : hostnameID) (h : string) : option hostnameID :=
  if decide (h ∈ l) then Some (default hID (store !! h))
  else if decide (store !! h = Some hID) then None else store !! h.

Lemma reserve_lookup store l hID withheld store' h :
  reserveHostnamesImpl store l hID = (Ok withheld, store') → store' !! h = reserved store l hID h.
Proof.
  unfold reserveHostnamesImpl, reserved. pose proof (reserve_check_spec store l hID) as Hspec.
  destruct (reserve_check store l hID) as [w|]; [|done]. intros [= <- <-]. destruct Hspec as [_ Hw].
  rewrite deletes_lookup, assign_lookup. pose proof (elem_of_unrequested store l hID h) as Hu.
  specialize (Hw h). destruct (decide (h ∈ l)) as [Hl|Hl].
  - rewrite decide_False by tauto. destruct (decide (h ∈ filter _ l)) as [Hf|Hf]; rewrite list_elem_of_filter in Hf.
    + destruct (store !! h) as [e|]; cbn; [|done]. f_equal. destruct (decide (e = hID)); [done|].
      exfalso. apply Hf. apply Hw. eauto.
    + assert (h ∈ w) as Hin by (destruct (decide (h ∈ w)); tauto).
      apply Hw in Hin as (_ & e & -> & _). done.
  - rewrite (decide_False (P := h ∈ filter _ l)) by (rewrite list_elem_of_filter; tauto).
    repeat case_decide; tauto.
Qed.

Lemma prepare_check_spec store l hID :
  match prepare_check store l hID with
  | Err _ => conflict store l (hid_owner hID)
  | Ok toChange =>
      (¬ conflict store l (hid_owner hID)) ∧ ∀ h, h ∈ toChange ↔ h ∈ l ∧ is_Some (store !! h)
  end.
Proof.
  induction l as [|h l IH]; cbn [prepare_check].
  { split; [|set_solver]. intros (? & ? & Hin & _). by apply not_elem_of_nil in Hin. }
  destruct (store !! h) as [e|] eqn:Eh.
  - destruct (String.eqb_spec (hid_owner e) (hid_owner hID)) as [Ho|Ho].
    2: { exists h, e. split; [apply list_elem_of_here|done]. }
    destruct (prepare_check store l hID) as [w|]; cbn [rbind].
    2: { destruct IH as (h' & e' & ? & ? & ?). exists h', e'. split; [by apply list_elem_of_further|done]. }
    destruct IH as [Hc Hw]. split.
    { intros (h' & e' & Hin & ? & ?). apply elem_of_cons in Hin as [->|Hin]; [congruence|].
      apply Hc. by exists h', e'. }
    intros h'. rewrite !elem_of_cons, Hw. split; [|naive_solver]. intros [->|]; [|naive_solver].
    rewrite Eh. eauto.
  - destruct (prepare_check store l hID) as [w|]; [|destruct IH as (h' & e' & ? & ? & ?); exists h', e';
      split; [by apply list_elem_of_further|done]].
    destruct IH as [Hc Hw]. split.
    { intros (h' & e' & Hin & ? & ?). apply elem_of_cons in Hin as [->|Hin]; [congruence|].
      apply Hc. by exists h', e'. }
    intros h'. rewrite Hw, elem_of_cons. split; [naive_solver|]. intros [[->|] [? ?]]; [congruence|eauto].
Qed.

Lemma prepare_lookup store l hID store' h :
  prepareHostnamesImpl store l hID = (Ok (), store') →
  store' !! h = if decide (h ∈ l) then (λ _, hID) <$> store !! h else store !! h.
Proof.
  unfold prepareHostnamesImpl. pose proof (prepare_check_spec store l hID) as Hspec.
  destruct (prepare_check store l hID) as [w|]; [|done]. intros [= <-]. destruct Hspec as [_ Hw].
  rewrite assign_lookup. specialize (Hw h).
  destruct (decide (h ∈ w)) as [Hin|Hin].
  - apply Hw in Hin as [Hl [e He]]. rewrite decide_True by done. by rewrite He.
  - destruct (decide (h ∈ l)) as [Hl|]; [|done]. destruct (store !! h) as [e|] eqn:E; [|done].
    exfalso. apply Hin, Hw. eauto.
Qed.

(** The owner a request acts for; asking does not act. *)
Definition request_owner (r : request) : option string :=
  match r with
  | ReqReserve _ hID | ReqRelease hID | ReqPrepare _ hID => Some (hid_owner hID)
  | ReqCan _ _ => None
  end.

Definition run_steps (store : hosts) (rs : list request) : hosts :=
  foldl (λ s r, (run_step s r).2) store rs.

Lemma step_isolated store r h e :
  request_owner r ≠ Some (hid_owner e) → (run_step store r).2 !! h = Some e ↔ store !! h = Some e.
Proof.
  intros Ho. destruct r as [l hID|l o|hID|l hID]; cbn [run_step snd request_owner] in *; [| done| |].
  - destruct (reserveHostnamesImpl store l hID) as [[w|err] store'] eqn:E.
    + cbn [snd]. rewrite (reserve_lookup _ _ _ _ _ h E). unfold reserved.
      assert (¬ conflict store l (hid_owner hID)) as Hc.
      { unfold reserveHostnamesImpl in E. pose proof (reserve_check_spec store l hID) as Hs.
        destruct (reserve_check store l hID); [apply Hs|done]. }
      destruct (decide (h ∈ l)) as [Hl|Hl].
      * destruct (store !! h) as [e'|] eqn:Eh; cbn; [done|]. split; [|done].
        intros [= ->]. congruence.
      * case_decide as Eh; [|done]. rewrite Eh. split; [done|]. intros [= ->]. congruence.
    + unfold reserveHostnamesImpl in E. destruct (reserve_check store l hID); [done|]. by injection E as _ <-.
  - rewrite release_lookup. case_decide as Eh; [|done]. rewrite Eh. split; [done|]. intros [= ->]. congruence.
  - destruct (prepareHostnamesImpl store l hID) as [[[]|err] store'] eqn:E; cbn [snd].
    + rewrite (prepare_lookup _ _ _ _ h E). case_decide as Hl; [|done].
      assert (¬ conflict store l (hid_owner hID)) as Hc.
      { unfold prepareHostnamesImpl in E. pose proof (prepare_check_spec store l hID) as Hs.
        destruct (prepare_check store l hID); [apply Hs|done]. }
      destruct (store !! h) as [e'|] eqn:Eh; cbn; [|done]. split.
      * intros [= <-]. congruence.
      * intros [= ->]. exfalso. apply Hc. exists h, e. split_and!; [done|done|congruence].
    + unfold prepareHostnamesImpl in E. destruct (prepare_check store l hID); [done|]. by injection E as _ <-.
Qed.

Section hostname_properties.
Context `{GoUnicode} `{Owners}.

(** Reserving hostnames: it fails exactly when one of them is held by
    another owner, and then changes nothing; otherwise the free ones and the
    ones already held become the group's, those held by another group of the
    same owner are withheld and stay where they are, and what the group held
    and no longer asks for is freed.  The advance check answers exactly whether
    the reservation would succeed. *)
Theorem reserve_spec (store : hosts) (l : list string) (hID : hostnameID) :
  let '(r, store') := reserveHostnamesImpl store l hID in
  is_ok r = is_ok (canReserveHostnamesImpl store l (hid_owner hID))
  ∧ match r with
    | Err _ => conflict store l (hid_owner hID) ∧ store' = store
    | Ok withheld =>
        (¬ conflict store l (hid_owner hID))
        ∧ (∀ h, h ∈ withheld ↔ h ∈ l ∧ ∃ e, store !! h = Some e ∧ e ≠ hID)
        ∧ ∀ h, store' !! h = reserved store l hID h
    end.
Proof.
  destruct (reserveHostnamesImpl store l hID) as [r store'] eqn:E.
  pose proof (reserve_check_spec store l hID) as Hs. pose proof (canReserve_spec store l (hid_owner hID)) as Hc.
  destruct r as [w|err].
  - assert (reserve_check store l hID = Ok w) as Ew.
    { unfold reserveHostnamesImpl in E. destruct (reserve_check store l hID); [|done]. by injection E as -> _. }
    rewrite Ew in Hs. destruct Hs as [Hs Hw]. split; [by rewrite (proj2 Hc Hs)|].
    split; [done|]. split; [done|]. intros h. by apply (reserve_lookup _ _ _ w).
  - unfold reserveHostnamesImpl in E. destruct (reserve_check store l hID); [done|]. injection E as -> <-.
    split; [|done]. cbn. destruct (is_ok (canReserveHostnamesImpl _ _ _)); [|done]. exfalso. by apply Hc.
Qed.

(** Owners are isolated: whatever requests of other owners the service
    serves, in any order, a hostname is held by a group of this owner after
    them exactly when that group held it before. *)
Theorem hostnames_isolated (store : hosts) (rs : list request) (h : string) (e : hostnameID)
  (Hother : Forall (λ r, request_owner r ≠ Some (hid_owner e)) rs) :
  run_steps store rs !! h = Some e ↔ store !! h = Some e.
Proof.
  revert store. induction Hother as [|r rs Hr Hrs IH]; intros store; [done|].
  unfold run_steps. cbn [foldl]. fold (run_steps (run_step store r).2 rs).
  rewrite IH. by apply step_isolated.
Qed.

(** Moving hostnames between deployments of one owner: after a
    successful PrepareHostnamesForTransfer, reserving the same (held) hostnames
    for the target withholds none, gives all of them to the target, and closing
    the lease they came from does not free any of them. *)
Theorem transfer_then_reserve (store store1 store2 : hosts) (l withheld : list string) (old hID : hostnameID)
  (Hheld : ∀ h, h ∈ l → store !! h = Some old) (Hne : old ≠ hID)
  (Hprep : prepareHostnamesImpl store l hID = (Ok (), store1))
  (Hres : reserveHostnamesImpl store1 l hID = (Ok withheld, store2)) :
  withheld = [] ∧ ∀ h, h ∈ l → store2 !! h = Some hID ∧ releaseHostnamesImpl store2 old !! h = Some hID.
Proof.
  assert (∀ h, h ∈ l → store1 !! h = Some hID) as H1.
  { intros h Hl. rewrite (prepare_lookup _ _ _ _ h Hprep), decide_True, (Hheld h Hl) by done. done. }
  split.
  - pose proof (reserve_check_spec store1 l hID) as Hs. unfold reserveHostnamesImpl in Hres.
    destruct (reserve_check store1 l hID) as [w|]; [|done]. injection Hres as -> _.
    destruct Hs as [_ Hw]. destruct withheld as [|x w]; [done|]. exfalso.
    destruct (proj1 (Hw x)) as (Hl & e & He & Hne'); [apply list_elem_of_here|].
    rewrite (H1 x Hl) in He. congruence.
  - intros h Hl. assert (store2 !! h = Some hID) as H2.
    { rewrite (reserve_lookup _ _ _ _ _ h Hres). unfold reserved. by rewrite decide_True, (H1 h Hl). }
    split; [done|]. rewrite release_lookup, H2. rewrite decide_False by congruence. done.
Qed.

End hostname_properties.

(** ** Sample *)

Module HostnameSample.
#[export] Instance ascii_only : GoUnicode := λ s, s.
#[export] Instance owners : Owners := λ l, Ok (lid_Owner l).
Definition alice1 : LeaseID := MkLeaseID "alice" 1 1 1 "p".
Definition alice2 : LeaseID := MkLeaseID "alice" 2 1 1 "p".
Definition id1 : hostnameID := MkHID "alice" 1 1.
Definition id2 : hostnameID := MkHID "alice" 2 1.
Definition bob : hostnameID := MkHID "bob" 3 1.
Definition fresh : hostnameService := MkHostnames ∅ [] [].
End HostnameSample.
Import HostnameSample.

Lemma hostnames_isolated_witness :
  run_steps {["a.com" := id1]} [ReqReserve ["a.com"; "b.com"] bob; ReqReserve ["b.com"] bob; ReqRelease bob]
    !! "a.com" = Some id1.
Proof.
  apply (hostnames_isolated {["a.com" := id1]} _ "a.com" id1); [|reflexivity].
  repeat constructor; discriminate.
Defined.

Lemma transfer_then_reserve_witness :
  ∃ store1 store2, prepareHostnamesImpl {["a.com" := id1]} ["a.com"] id2 = (Ok (), store1)
    ∧ reserveHostnamesImpl store1 ["a.com"] id2 = (Ok [], store2)
    ∧ releaseHostnamesImpl store2 id1 !! "a.com" = Some id2.
Proof.
  eexists _, _. split; [reflexivity|]. split; [reflexivity|].
  eapply (transfer_then_reserve {["a.com" := id1]} _ _ ["a.com"] [] id1 id2); [|discriminate|reflexivity|reflexivity|].
  - intros h Hh. apply list_elem_of_singleton in Hh as ->. reflexivity.
  - apply list_elem_of_here.
Defined.

(** Reserving lower-cases hostnames but preparing a transfer does
    not: a hostname given with a capital letter is reserved, and a transfer of
    it by the same name reports success and moves nothing, so the next
    reservation still withholds it; given in lower case the same transfer moves
    it.  A blocked hostname with a capital letter in the configuration is not
    lower-cased either and blocks nothing. *)
Theorem transfer_case_sensitive :
  let hs1 := (ReserveHostnames fresh ["App.example.com"] alice1 Served Served).2 in
  let upper := PrepareHostnamesForTransfer hs1 ["App.example.com"] alice2 Served Served in
  let lower := PrepareHostnamesForTransfer hs1 ["app.example.com"] alice2 Served Served in
  hs_inUse hs1 !! "app.example.com" = Some id1
  ∧ upper = (Ok (), hs1)
  ∧ (ReserveHostnames upper.2 ["App.example.com"] alice2 Served Served).1 = Ok ["app.example.com"]
  ∧ (ReserveHostnames lower.2 ["App.example.com"] alice2 Served Served).1 = Ok []
  ∧ match newHostnameService ["Evil.com"] [] with
    | Ok hs => (ReserveHostnames hs ["Evil.com"] alice1 Served Served).1
    | Err _ => Ok ["none"]
    end = Ok [].
Proof. by vm_compute. Qed.
