(* ===== verification/Inventory.v ===== *)
(** * The cluster inventory: fitting a reservation into the nodes

    [cluster/kube/operators/clients/inventory/inventory.go].  An inventory is
    the raw cluster and its sanitized copy; [Adjust] walks the nodes with the
    [goto]/[continue]/[break] loop of the source and, unless it is a dry run,
    commits what it allocated.  A deep copy ([Dup]) is the value itself; what
    a call writes through a pointer it was given is part of its result. *)
From S2P Require Import Prelude GoStrings ChainTypes ClusterTypes.

Open Scope string_scope.
Open Scope go_scope.

(** Why a node does not take a replica: node-wide resources do not satisfy
    ([nil, false, true]), cluster-wide resources do not ([nil, false, false]),
    or the call panics on a nil pointer. *)
Inductive stop := NodeNo | ClusterNo | Panicked.

Definition need {A} (o : option A) : result stop A :=
  match o with Some a => Ok a | None => Err NodeNo end.
Definition ptr {A} (o : option A) : result stop A :=
  match o with Some a => Ok a | None => Err Panicked end.

(** ** The Adjust loop

    Both inventories (this one and the null inventory) run the same loop
    around their [tryAdjust].  [St] is the state [tryAdjust] works on. *)

Inductive adjust_error :=
| ErrInsufficientCapacity
| ErrGroupResourceMismatch
| ErrInvalidInterconnectGroup (group : string) (errs : list string).

Inductive flow := NextNode | BreakNodes | GotoNodes | GroupDone | FlowPanic.

Section loop.
Context {St : Type}.
(** [tryAdjust i node adjusted st]: what it leaves in [adjusted], and the
    scheduler parameters with the new state when the replica fits. *)
Variable tryAdjust :
  nat → nat → Resources → St → Resources * result stop (option SchedulerParams * St).
Variable origResources : list ResourceUnit.
(** [len(currInventory.Nodes)]. *)
Variable nnodes : nat.

Record lstate := MkLoop {
  ls_inv : St;
  ls_resources : list ResourceUnit;
  ls_adjusted : list ResourceUnit;
  ls_cparams : ReservationClusterSettings;
  ls_err : option adjust_error
}.

Definition set_count (c : nat) (u : ResourceUnit) : ResourceUnit := MkUnit (ru_Resources u) c.
Definition set_resources (r : Resources) (u : ResourceUnit) : ResourceUnit := MkUnit r (ru_Count u).

Definition mismatch (st : lstate) : lstate :=
  MkLoop (ls_inv st) (ls_resources st) (ls_adjusted st) (ls_cparams st) (Some ErrGroupResourceMismatch).

(** [for ; resources[i].Count > 0; resources[i].Count--]; [count] is
    [resources[i].Count].  When [adjustedGroup] is false, [adjusted] is
    [&adjustedResources[i].Resources], so writes through it are seen there. *)
Fixpoint replicas (count : nat) (nodeIdx i : nat) (adjustedGroup : bool) (adjusted : Resources)
  (st : lstate) : flow * lstate :=
  match count with
  | O => (GroupDone, st)
  | S c =>
      let '(adjusted, r) := tryAdjust i nodeIdx adjusted (ls_inv st) in
      let written :=
        if adjustedGroup then ls_adjusted st
        else alter (set_resources adjusted) i (ls_adjusted st) in
      let st := MkLoop (ls_inv st) (ls_resources st) written (ls_cparams st) (ls_err st) in
      match r with
      | Err Panicked => (FlowPanic, st)
      | Err ClusterNo => (BreakNodes, st)
      | Err NodeNo => (NextNode, st)
      | Ok (sparams, inv) =>
          let st := MkLoop inv (ls_resources st) (ls_adjusted st) (ls_cparams st) (ls_err st) in
          let next cparams :=
            replicas c nodeIdx i adjustedGroup adjusted
              (MkLoop inv (alter (set_count c) i (ls_resources st)) (ls_adjusted st) cparams (ls_err st)) in
          if adjustedGroup then
            if negb (bool_decide (Some adjusted = ru_Resources <$> ls_adjusted st !! i))
            then (BreakNodes, mismatch st)
            else if negb (bool_decide (sparams = mjoin (ls_cparams st !! res_ID adjusted)))
            then (BreakNodes, mismatch st)
            else next (ls_cparams st)
          else next (<[res_ID adjusted := sparams]> (ls_cparams st))
      end
  end.

Definition remove_nth (i : nat) (l : list ResourceUnit) : list ResourceUnit := take i l ++ drop (i + 1) l.

(** [for i := len(resources) - 1; i >= 0; i--]; [k] is [i + 1]. *)
Fixpoint groups (k : nat) (nodeIdx : nat) (st : lstate) : flow * lstate :=
  match k with
  | O => (NextNode, st)
  | S i =>
      match origResources !! i, ls_resources st !! i, ls_adjusted st !! i with
      | Some orig, Some res, Some adj =>
          let adjustedGroup := negb (ru_Count orig =? ru_Count res)%nat in
          match replicas (ru_Count res) nodeIdx i adjustedGroup (ru_Resources adj) st with
          | (GroupDone, st) =>
              match ls_resources st !! i with
              | Some res =>
                  if (ru_Count res =? 0)%nat
                  then (GotoNodes, MkLoop (ls_inv st) (remove_nth i (ls_resources st)) (ls_adjusted st)
                                     (ls_cparams st) (ls_err st))
                  else groups i nodeIdx st
              | None => (FlowPanic, st)
              end
          | other => other
          end
      | _, _, _ => (FlowPanic, st)
      end
  end.

(** [nodes: for nodeIdx := range currInventory.Nodes]; [goto nodes] starts it
    again at the first node.  [None] when the fuel runs out. *)
Fixpoint nodes (fuel : nat) (nodeIdx : nat) (st : lstate) : option (outcome lstate) :=
  match fuel with
  | O => None
  | S fuel =>
      if (nodeIdx <? nnodes)%nat then
        match groups (List.length (ls_resources st)) nodeIdx st with
        | (GotoNodes, st) => nodes fuel 0 st
        | (BreakNodes, st) => Some (Ret st)
        | (FlowPanic, _) => Some Panic
        | (_, st) => nodes fuel (nodeIdx + 1) st
        end
      else Some (Ret st)
  end.

Definition loop_fuel (groups : nat) : nat := ((groups + 1) * (nnodes + 1))%nat.

Definition loop_start (inv : St) : lstate := MkLoop inv origResources origResources ∅ None.

(** The loop, and the error or the allocation it ends with. *)
Definition adjust_loop (inv : St) :
  option (outcome (result adjust_error (St * list ResourceUnit * ReservationClusterSettings))) :=
  match nodes (loop_fuel (List.length origResources)) 0 (loop_start inv) with
  | None => None
  | Some Panic => Some Panic
  | Some (Ret st) =>
      Some (Ret
        (match ls_resources st with
         | [] => Ok (ls_inv st, ls_adjusted st, ls_cparams st)
         | _ => Err (default ErrInsufficientCapacity (ls_err st))
         end))
  end.

End loop.

(** ** Trying one replica on one node *)

Section adjust.
Context `{GoUnicode} `{PairOps} `{ChainSdk}.

Definition tryAdjustCPU (rp : InvCPU) (res : CPU) : option InvCPU :=
  let arch :=
    if (0 <? List.length (cpu_Attributes res))%nat then
      match ParseCPUAttributes (cpu_Attributes res) with
      | Err _ => None
      | Ok arch => Some (if arch =? EmptyString then "amd64" else arch)
      end
    else Some "amd64" in
  match arch with
  | None => None
  | Some requestedArch =>
      let sub := q ← rp_SubMilliNLZ (icpu_Quantity rp) (cpu_Units res); Some (MkInvCPU q (icpu_Info rp)) in
      match icpu_Info rp with
      | info :: _ =>
          if negb (ci_Arch info =? EmptyString) && negb (ci_Arch info =? requestedArch) then None else sub
      | [] => sub
      end
  end.

(** One GPU of the node against the request: [None] when it does not match,
    otherwise the attributes it was matched with (nil when there are none).
    [iface] is the interface name the GPU is compared by. *)
Definition gpu_match (attrs : GPUAttributes) (iface : string) (info : GPUInfo)
  : option (option GPUModelAttributes) :=
  match attrs !! gi_Vendor info with
  | None => None
  | Some models =>
      match ExistsOrWildcard models (gi_Name info) with
      | Some (Some attr) =>
          if negb (gm_RAM attr =? EmptyString) && negb (gm_RAM attr =? gi_MemorySize info) then None
          else if negb (gm_Interface attr =? EmptyString) && negb (gm_Interface attr =? iface) then None
          else Some (Some attr)
      | other => other
      end
  end.

(** The GPU at which the count of matching GPUs reaches the request. *)
Fixpoint gpu_scan (iface : GPUInfo → string) (attrs : GPUAttributes) (infos : list GPUInfo) (reqCnt : Z)
  : option (GPUInfo * option GPUModelAttributes) :=
  match infos with
  | [] => None
  | info :: infos =>
      match gpu_match attrs (iface info) info with
      | None => gpu_scan iface attrs infos reqCnt
      | Some attr =>
          if (reqCnt - 1 =? 0)%Z then Some (info, attr) else gpu_scan iface attrs infos (reqCnt - 1)
      end
  end.

Definition gpu_key (vendor model : string) (attr : option GPUModelAttributes) : string :=
  let key := "vendor/" +:+ vendor +:+ "/model/" +:+ model in
  match attr with
  | None => key
  | Some attr =>
      let key := if gm_RAM attr =? EmptyString then key else key +:+ "/ram/" +:+ gm_RAM attr in
      if gm_Interface attr =? EmptyString then key else key +:+ "/interface/" +:+ gm_Interface attr
  end.

Definition stamp_gpu (vendor model : string) (sparams : SchedulerParams) : SchedulerParams :=
  let sparams := sParamsEnsureGPU sparams in
  match sp_Resources sparams with
  | Some (MkSResources (Some g) i) =>
      set_SResources (Some (MkSResources (Some (MkSGPU vendor model (sg_MemorySize g) (sg_Interface g))) i)) sparams
  | _ => sparams
  end.

(** [None] for false; [true] updates the pair, the request and the scheduler
    parameters. *)
Definition tryAdjustGPU (rp : InvGPU) (res : GPU) (sparams : SchedulerParams)
  (teeType : TEEType) (teePlatform : TEEPlatform) : option (InvGPU * GPU * SchedulerParams) :=
  if (gpu_Units res =? 0)%Z then Some (rp, res, sparams)
  else if (avail (igpu_Quantity rp) =? 0)%Z then None
  else match ParseGPUAttributes (gpu_Attributes res) with
  | Err _ => None
  | Ok attrs =>
      '(info, attr) ← gpu_scan (λ info, FilterGPUInterface (gi_Interface info)) attrs (igpu_Info rp) (gpu_Units res);
      let vendor := ToLower (gi_Vendor info) in
      q ← rp_SubNLZ (igpu_Quantity rp) (gpu_Units res);
      let sparams := stamp_gpu vendor (gi_Name info) sparams in
      let sparams :=
        if IsCC teeType then set_RuntimeClass (RuntimeClassForTEEType teeType teePlatform) sparams
        else if vendor =? GPUVendorNvidia then set_RuntimeClass runtimeClassNvidia sparams
        else sparams in
      Some (MkInvGPU q (igpu_Info rp),
            MkGPU (gpu_Units res) [MkAttr (gpu_key vendor (gi_Name info) attr) "true"],
            sparams)
  end.

Definition stamp_interconnect (i : SchedulerResourceInterconnect) (sparams : SchedulerParams) : SchedulerParams :=
  let sparams := sParamsEnsureResources sparams in
  match sp_Resources sparams with
  | Some (MkSResources g _) => set_SResources (Some (MkSResources g (Some i))) sparams
  | None => sparams
  end.

Definition tryAdjustInterconnect (rp : ResourcePair) (caps : NodeCapabilities) (res : Resources)
  (sparams : SchedulerParams) (requiredFabric : string) (required : bool)
  : option (ResourcePair * SchedulerParams) :=
  if negb required then Some (rp, sparams)
  else if negb (interconnectCapsSuitable caps requiredFabric) then None
  else match res_GPU res with
  | None => None
  | Some gpu =>
      q ← rp_SubNLZ rp (gpu_Units gpu);
      Some (q, stamp_interconnect
                 (MkSInterconnect true (gpu_Units gpu) (cap_InterconnectResourceName caps)
                    (cap_InterconnectFabric caps) (cap_NCCLHCAPrefixes caps)) sparams)
  end.

Definition tryAdjustEphemeralStorage (rp : ResourcePair) (res : Storage) : option ResourcePair :=
  rp_SubNLZ rp (sto_Quantity res).

(** [for idx := range storageClasses]: the first entry of the class.  [None]
    when there is none, [Some None] when it has not enough space. *)
Fixpoint sub_class (class : string) (v : ResourceValue) (l : list ClusterStorage)
  : option (option (list ClusterStorage)) :=
  match l with
  | [] => None
  | s :: l =>
      if cs_Class s =? class
      then Some (q ← rp_SubNLZ (cs_Quantity s) v; Some (MkClusterStorage (cs_Class s) q :: l))
      else o ← sub_class class v l; Some (l ← o; Some (s :: l))
  end.

(** [for i, storage := range res.Storage]. *)
Fixpoint adjust_volumes (caps : NodeCapabilities) (vols : list Storage) (nr : NodeResources)
  (classes : list ClusterStorage) : result stop (NodeResources * list ClusterStorage) :=
  match vols with
  | [] => Ok (nr, classes)
  | vol :: vols =>
      match ParseStorageAttributes (sto_Attributes vol) with
      | Err _ => Err ClusterNo
      | Ok attrs =>
          if negb (sa_Persistent attrs) then
            if sa_Class attrs =? "ram" then
              let* m := need (rp_SubNLZ (nr_Memory nr) (sto_Quantity vol)) in
              adjust_volumes caps vols (set_Memory m nr) classes
            else
              let* e := need (tryAdjustEphemeralStorage (nr_EphemeralStorage nr) vol) in
              adjust_volumes caps vols (set_Ephemeral e nr) classes
          else if negb (IsStorageClassSupported caps (sa_Class attrs)) then Err NodeNo
          else match sub_class (sa_Class attrs) (sto_Quantity vol) classes with
          | Some (Some classes) => adjust_volumes caps vols nr classes
          | _ => Err ClusterNo
          end
      end
  end.

(** The sidecar of a confidential-compute workload. *)
Definition adjust_sidecar (teeType : TEEType) (teePlatform : TEEPlatform) (nr : NodeResources)
  (sparams : SchedulerParams) : result stop (NodeResources * SchedulerParams) :=
  if IsCC teeType then
    let sparams :=
      if sp_RuntimeClass sparams =? EmptyString
      then set_RuntimeClass (RuntimeClassForTEEType teeType teePlatform) sparams else sparams in
    let* c := need (rp_SubMilliNLZ (icpu_Quantity (nr_CPU nr)) SidecarCPULimitMillicores) in
    let nr := set_CPU (MkInvCPU c (icpu_Info (nr_CPU nr))) nr in
    let sidecarMemBytes :=
      if RuntimeClass_Is (sp_RuntimeClass sparams) [WithGPU]
      then SidecarGPUMemoryLimitBytes else SidecarMemoryLimitBytes in
    let* m := need (rp_SubNLZ (nr_Memory nr) sidecarMemBytes) in
    Ok (set_Memory m nr, sparams)
  else Ok (nr, sparams).

(** The steps of [tryAdjust] up to [tryAdjustGPU], the last one that writes
    to [res]. *)
Definition adjust_compute (nd : Node) (res : Resources) (teeType : TEEType) (teePlatform : TEEPlatform)
  (requiredFabric : string) (requiresInterconnect : bool)
  : result stop (NodeResources * Resources * SchedulerParams) :=
  let nr := nd_Resources nd in
  let* rcpu := ptr (res_CPU res) in
  let* c := need (tryAdjustCPU (nr_CPU nr) rcpu) in
  let nr := set_CPU c nr in
  let* (ic, sparams) := need (tryAdjustInterconnect (nr_GPUInterconnect nr) (nd_Capabilities nd) res
                                SParams_zero requiredFabric requiresInterconnect) in
  let nr := set_Interconnect ic nr in
  let* rgpu := ptr (res_GPU res) in
  let* (g, rgpu, sparams) := need (tryAdjustGPU (nr_GPU nr) rgpu sparams teeType teePlatform) in
  Ok (set_InvGPU g nr, set_GPU (Some rgpu) res, sparams).

(** The steps after it. *)
Definition adjust_memory (caps : NodeCapabilities) (res : Resources) (nr : NodeResources)
  (classes : list ClusterStorage) (teeType : TEEType) (teePlatform : TEEPlatform)
  (sparams : SchedulerParams) : result stop (NodeResources * list ClusterStorage * SchedulerParams) :=
  let* rmem := ptr (res_Memory res) in
  let* m := need (rp_SubNLZ (nr_Memory nr) (mem_Quantity rmem)) in
  let* (nr, classes) := adjust_volumes caps (res_Storage res) (set_Memory m nr) classes in
  let* (nr, sparams) := adjust_sidecar teeType teePlatform nr sparams in
  Ok (nr, classes, sparams).

(** [map[string]map[int]bool]: the nodes each interconnect group has claimed. *)
Notation claims := (gmap string (gset nat)).

Definition claimed (group : string) (node : nat) (groupClaims : claims) : bool :=
  bool_decide (node ∈ default ∅ (groupClaims !! group)).

Definition add_claim (group : string) (node : nat) (groupClaims : claims) : claims :=
  if group =? EmptyString then groupClaims
  else <[group := {[node]} ∪ default ∅ (groupClaims !! group)]> groupClaims.

Definition non_zero (sparams : SchedulerParams) : option SchedulerParams :=
  if bool_decide (sparams = SParams_zero) then None else Some sparams.

Definition tryAdjust (teeType : TEEType) (teePlatform : TEEPlatform) (requiredFabric : string)
  (requiresInterconnect : bool) (interconnectGroup : string)
  (node : nat) (res : Resources) (st : Cluster * claims)
  : Resources * result stop (option SchedulerParams * (Cluster * claims)) :=
  let '(inv, groupClaims) := st in
  if negb (interconnectGroup =? EmptyString) && claimed interconnectGroup node groupClaims
  then (res, Err NodeNo)
  else match cl_Nodes inv !! node with
  | None => (res, Err Panicked)
  | Some nd =>
      if requiresInterconnect && negb (interconnectCapsSuitable (nd_Capabilities nd) requiredFabric)
      then (res, Err NodeNo)
      else match adjust_compute nd res teeType teePlatform requiredFabric requiresInterconnect with
      | Err e => (res, Err e)
      | Ok (nr, res, sparams) =>
          (res,
           let* (nr, classes, sparams) :=
             adjust_memory (nd_Capabilities nd) res nr (cl_Storage inv) teeType teePlatform sparams in
           Ok (non_zero sparams,
               (MkCluster (<[node := set_NodeRes nr nd]> (cl_Nodes inv)) classes,
                add_claim interconnectGroup node groupClaims)))
      end
  end.

(** ** The inventory and its operations *)

Record inventory := MkInventory { inv_Cluster : Cluster; inv_sanitized : Cluster }.

Definition sanitizeQuantity (q : option Quantity) : option Quantity :=
  q ← q; Some (if q_negative q then q_Set 0 else q).

Definition sanitizeResourcePair (p : ResourcePair) : ResourcePair :=
  MkPair _ (sanitizeQuantity (rp_Capacity p)) (sanitizeQuantity (rp_Allocatable p))
    (sanitizeQuantity (rp_Allocated p)).

Definition sanitizeNodeResources (r : NodeResources) : NodeResources :=
  MkNodeResources
    (MkInvCPU (sanitizeResourcePair (icpu_Quantity (nr_CPU r))) (icpu_Info (nr_CPU r)))
    (sanitizeResourcePair (nr_Memory r))
    (MkInvGPU (sanitizeResourcePair (igpu_Quantity (nr_GPU r))) (igpu_Info (nr_GPU r)))
    (sanitizeResourcePair (nr_EphemeralStorage r))
    (sanitizeResourcePair (nr_VolumesAttached r))
    (sanitizeResourcePair (nr_VolumesMounted r))
    (sanitizeResourcePair (nr_GPUInterconnect r)).

Definition sanitizeCluster (c : Cluster) : Cluster :=
  MkCluster (map (λ n, set_NodeRes (sanitizeNodeResources (nd_Resources n)) n) (cl_Nodes c))
    (map (λ s, MkClusterStorage (cs_Class s) (sanitizeResourcePair (cs_Quantity s))) (cl_Storage c)).

Definition newInventory (clState : Cluster) : inventory := MkInventory clState (sanitizeCluster clState).

Definition sanitizedDup (inv : inventory) : inventory := MkInventory (inv_sanitized inv) (inv_sanitized inv).

Definition Snapshot (inv : inventory) : Cluster := inv_sanitized inv.

(** A reservation: the resources it asks for and what [Adjust] stores in it. *)
Record ReservationGroup := MkReservation {
  rg_Resources : ResourceGroup;
  rg_Allocated : list ResourceUnit;
  rg_ClusterParams : option ReservationClusterSettings
}.

(** The interconnect flags of every unit, or the first group label that
    Kubernetes rejects. *)
Fixpoint interconnect_flags (units : list ResourceUnit) : result adjust_error (list (string * bool)) :=
  match units with
  | [] => Ok []
  | u :: units =>
      let gr := ResourceInterconnectGroup (ru_Resources u) in
      if gr.2 && (0 <? List.length (IsValidLabelValue gr.1))%nat
      then Err (ErrInvalidInterconnectGroup gr.1 (IsValidLabelValue gr.1))
      else let* l := interconnect_flags units in Ok (gr :: l)
  end.

Definition try_unit (cfg : InventoryOptions) (requiredFabric : string) (flags : list (string * bool))
  (i node : nat) (res : Resources) (st : Cluster * gmap string (gset nat)) :=
  let '(interconnectGroup, requiresInterconnect) := default (EmptyString, false) (flags !! i) in
  tryAdjust (opt_TEEType cfg) (opt_TEEPlatform cfg) requiredFabric requiresInterconnect
    interconnectGroup node res st.

(** [None] stands for the error nil. *)
Definition Adjust (inv : inventory) (reservation : ReservationGroup) (opts : list InventoryOption)
  : option (outcome (option adjust_error * inventory * ReservationGroup)) :=
  let cfg := apply_options opts in
  let origResources := GetResourceUnits (rg_Resources reservation) in
  let currInventory := inv_Cluster (sanitizedDup inv) in
  let requiredFabric := (PlacementRequiredFabric (rg_Resources reservation)).1 in
  match interconnect_flags origResources with
  | Err e => Some (Ret (Some e, inv, reservation))
  | Ok flags =>
      match adjust_loop (try_unit cfg requiredFabric flags) origResources
              (List.length (cl_Nodes currInventory)) (currInventory, ∅) with
      | None => None
      | Some Panic => Some Panic
      | Some (Ret (Err e)) => Some (Ret (Some e, inv, reservation))
      | Some (Ret (Ok (currInventory, _, adjustedResources, cparams))) =>
          Some (Ret (None,
            (if opt_DryRun cfg then inv else MkInventory (inv_Cluster inv) currInventory),
            MkReservation (rg_Resources reservation) adjustedResources (Some cparams)))
      end
  end.

(** ** Metrics *)

Record ResourcesMetric := MkRM { rm_CPU : Z; rm_GPU : Z; rm_Memory : Z; rm_StorageEphemeral : Z }.
Record NodeMetrics := MkNM { nm_Name : string; nm_Allocatable : ResourcesMetric; nm_Available : ResourcesMetric }.
Record MetricTotal := MkMT { mt_Resources : ResourcesMetric; mt_Storage : gmap string Z }.
Record InvMetrics := MkMetrics {
  met_Nodes : list NodeMetrics; met_TotalAllocatable : MetricTotal; met_TotalAvailable : MetricTotal }.

Definition node_metrics (nd : Node) : outcome NodeMetrics :=
  let r := nd_Resources nd in
  let! cpu := deref (rp_Allocatable (icpu_Quantity (nr_CPU r))) in
  let! gpu := deref (rp_Allocatable (igpu_Quantity (nr_GPU r))) in
  let! memory := deref (rp_Allocatable (nr_Memory r)) in
  let! eph := deref (rp_Allocatable (nr_EphemeralStorage r)) in
  Ret (MkNM (nd_Name nd)
    (MkRM (u64 (q_MilliValue cpu)) (u64 (q_Value gpu)) (u64 (q_Value memory)) (u64 (q_Value eph)))
    (MkRM (u64 (avail_milli (icpu_Quantity (nr_CPU r)))) (u64 (avail (igpu_Quantity (nr_GPU r))))
          (u64 (avail (nr_Memory r))) (u64 (avail (nr_EphemeralStorage r))))).

Definition add_metric (t m : ResourcesMetric) : ResourcesMetric :=
  MkRM (u64 (rm_CPU t + rm_CPU m)) (u64 (rm_GPU t + rm_GPU m)) (u64 (rm_Memory t + rm_Memory m))
    (u64 (rm_StorageEphemeral t + rm_StorageEphemeral m)).

Fixpoint all_node_metrics (nds : list Node) : outcome (list NodeMetrics) :=
  match nds with
  | [] => Ret []
  | nd :: nds => let! m := node_metrics nd in let! l := all_node_metrics nds in Ret (m :: l)
  end.

Fixpoint storage_metrics (l : list ClusterStorage) (total available : gmap string Z)
  : outcome (gmap string Z * gmap string Z) :=
  match l with
  | [] => Ret (total, available)
  | s :: l =>
      let! a := deref (rp_Allocatable (cs_Quantity s)) in
      storage_metrics l (<[cs_Class s := u64 (q_Value a)]> total)
        (<[cs_Class s := u64 (avail (cs_Quantity s))]> available)
  end.

Definition cluster_metrics (c : Cluster) : outcome InvMetrics :=
  let! nms := all_node_metrics (cl_Nodes c) in
  let! st := storage_metrics (cl_Storage c) ∅ ∅ in
  Ret (MkMetrics nms
    (MkMT (foldl add_metric (MkRM 0 0 0 0) (map nm_Allocatable nms)) st.1)
    (MkMT (foldl add_metric (MkRM 0 0 0 0) (map nm_Available nms)) st.2)).

Definition Metrics (inv : inventory) : outcome InvMetrics :=
  cluster_metrics (inv_Cluster (sanitizedDup inv)).

End adjust.
