(* ===== verification/InventoryLoop.v ===== *)
(** * Facts about the Adjust loop

    For any [tryAdjust] that never panics on the inputs the loop gives it, the
    loop ends within its fuel, never panics, and a successful end has placed
    exactly the requested number of replicas of every unit.  The facts are
    proved once and used by both inventories. *)
From S2P Require Import Prelude ChainTypes ClusterTypes Inventory.

Open Scope nat_scope.

(** The placements of a run: unit and node, in order. *)
Notation placement := (nat * nat)%type.

Definition count_of (i : nat) (tr : list placement) : nat :=
  List.length (filter (λ p, p.1 = i) tr).

Lemma count_of_snoc i tr j node :
  count_of i (tr ++ [(j, node)]) = count_of i tr + (if decide (j = i) then 1 else 0).
Proof.
  unfold count_of. rewrite filter_app, length_app. f_equal.
  rewrite filter_cons, filter_nil. cbn [fst]. by case_decide.
Qed.

Section loop_facts.
Context {St : Type}.
Variable try : nat → nat → Resources → St → Resources * result stop (option SchedulerParams * St).
Variable orig : list ResourceUnit.
Variable n : nat.
(** What holds of the resources of unit [i] while they are being adjusted, and
    of the state [tryAdjust] works on. *)
Variable R : nat → Resources → Prop.
Variable I : St → Prop.
Hypothesis R_orig : ∀ i u, orig !! i = Some u → R i (ru_Resources u).
Hypothesis try_ok : ∀ i node res st, R i res → I st → node < n →
  R i (try i node res st).1 ∧
  match (try i node res st).2 with
  | Ok (_, st') => I st'
  | Err Panicked => False
  | Err _ => True
  end.

(** [placed s tr s']: the placements [tr] lead from [s] to [s']. *)
Inductive placed (s : St) : list placement → St → Prop :=
| placed_nil : placed s [] s
| placed_snoc tr s1 i node res res' sp s2 :
    placed s tr s1 → I s1 → R i res → i < List.length orig → node < n →
    try i node res s1 = (res', Ok (sp, s2)) →
    placed s (tr ++ [(i, node)]) s2.

Lemma placed_range s tr s' :
  placed s tr s' → Forall (λ p, p.1 < List.length orig ∧ p.2 < n) tr.
Proof. induction 1; [constructor|]. apply Forall_app. split; [done|]. by constructor. Qed.

Definition remaining (i : nat) (st : lstate (St := St)) : nat :=
  default 0 (ru_Count <$> ls_resources st !! i).

Record loop_inv (s : St) (tr : list placement) (st : lstate (St := St)) : Prop := {
  li_placed : placed s tr (ls_inv st);
  li_I : I (ls_inv st);
  li_len : List.length (ls_resources st) ≤ List.length orig;
  li_adj_len : List.length (ls_adjusted st) = List.length orig;
  li_adj : ∀ i u o, ls_adjusted st !! i = Some u → orig !! i = Some o →
           R i (ru_Resources u) ∧ ru_Count u = ru_Count o;
  li_counts : ∀ i o, orig !! i = Some o → count_of i tr + remaining i st = ru_Count o
}.

(** What [replicas] and [groups] return, up to the trace. *)
Definition flow_inv (s : St) (len : nat) (i : nat) (out : flow * lstate (St := St)) : Prop :=
  match out.1 with
  | FlowPanic | GotoNodes => False
  | BreakNodes => List.length (ls_resources out.2) = len
  | NextNode => List.length (ls_resources out.2) = len ∧ ∃ tr, loop_inv s tr out.2
  | GroupDone => List.length (ls_resources out.2) = len ∧ remaining i out.2 = 0
                 ∧ ∃ tr, loop_inv s tr out.2
  end.

Definition written (grp : bool) (i : nat) (adj : Resources) (l : list ResourceUnit) :=
  if grp then l else alter (set_resources adj) i l.

Definition adj_ok (l : list ResourceUnit) : Prop :=
  List.length l = List.length orig ∧
  ∀ i u o, l !! i = Some u → orig !! i = Some o → R i (ru_Resources u) ∧ ru_Count u = ru_Count o.

Lemma written_ok grp i adj l : R i adj → adj_ok l → adj_ok (written grp i adj l).
Proof.
  intros HR [Hlen Hl]. destruct grp; [done|]. unfold written. split; [by rewrite length_alter|].
  intros j u o Hu Ho. rewrite list_lookup_alter in Hu. case_decide; subst.
  - destruct (l !! j) as [u0|] eqn:E; simplify_eq/=. split; [done|]. by apply (Hl j u0 o).
  - by apply (Hl j u o).
Qed.

Lemma loop_inv_adj_ok s tr st : loop_inv s tr st → adj_ok (ls_adjusted st).
Proof. intros []; by split. Qed.

(** One more replica of unit [i] placed. *)
Lemma loop_inv_step s tr st i node adj adj' sp s2 u c w cps :
  loop_inv s tr st → node < n → R i adj → i < List.length orig →
  try i node adj (ls_inv st) = (adj', Ok (sp, s2)) →
  ls_resources st !! i = Some u → ru_Count u = S c → adj_ok w →
  loop_inv s (tr ++ [(i, node)]) (MkLoop s2 (alter (set_count c) i (ls_resources st)) w cps (ls_err st)).
Proof.
  intros Hinv Hn HR Hi Htry Hu Hc [Hw1 Hw2].
  pose proof (try_ok i node adj (ls_inv st) HR (li_I _ _ _ Hinv) Hn) as [_ HI].
  rewrite Htry in HI. split; cbn [ls_inv ls_resources ls_adjusted]; try done.
  - eapply placed_snoc; eauto using li_placed, li_I.
  - rewrite length_alter. apply (li_len _ _ _ Hinv).
  - intros j o Ho. pose proof (li_counts _ _ _ Hinv j o Ho) as Hcnt.
    rewrite count_of_snoc. unfold remaining in *. cbn [ls_resources].
    rewrite list_lookup_alter. destruct (decide (i = j)) as [->|Hne].
    + rewrite Hu in Hcnt |- *. cbn in *. lia.
    + lia.
Qed.

(** Only the resources handed out for adjusting have changed. *)
Lemma loop_inv_written s tr st w :
  loop_inv s tr st → adj_ok w →
  loop_inv s tr (MkLoop (ls_inv st) (ls_resources st) w (ls_cparams st) (ls_err st)).
Proof. intros [] []. by split. Qed.

Lemma replicas_inv count s tr st node i grp adj u :
  loop_inv s tr st → node < n → R i adj → i < List.length orig →
  ls_resources st !! i = Some u → ru_Count u = count →
  flow_inv s (List.length (ls_resources st)) i (replicas try count node i grp adj st).
Proof.
  revert tr st adj u. induction count as [|c IH]; intros tr st adj u Hinv Hn HR Hi Hu Hc; cbn [replicas].
  { unfold flow_inv, remaining. cbn. rewrite Hu. cbn. eauto. }
  pose proof (try_ok i node adj (ls_inv st) HR (li_I _ _ _ Hinv) Hn) as [HR' HI].
  destruct (try i node adj (ls_inv st)) as [adj' r] eqn:Htry. cbn [fst snd] in HR', HI.
  pose proof (written_ok grp i adj' _ HR' (loop_inv_adj_ok _ _ _ Hinv)) as Hw.
  fold (written grp i adj' (ls_adjusted st)).
  destruct r as [[sp s2]|[]]; try done; cbn [ls_inv ls_resources ls_adjusted ls_cparams ls_err].
  - assert (∀ cps, flow_inv s (List.length (ls_resources st)) i
        (replicas try c node i grp adj'
           (MkLoop s2 (alter (set_count c) i (ls_resources st)) (written grp i adj' (ls_adjusted st))
              cps (ls_err st)))) as Hnext.
    { intros cps.
      pose proof (loop_inv_step s tr st i node adj adj' sp s2 u c _ cps Hinv Hn HR Hi Htry Hu Hc Hw) as Hinv'.
      erewrite <- (length_alter (set_count c)) .
      eapply (IH _ _ _ (set_count c u) Hinv' Hn HR' Hi); [|done].
      cbn [ls_resources]. by rewrite list_lookup_alter, decide_True, Hu by done. }
    destruct grp; [|apply Hnext].
    case_match; [done|]. case_match; [done|]. apply Hnext.
  - unfold flow_inv; cbn. split; [done|]. exists tr. by apply loop_inv_written.
Qed.

Lemma remaining_lt i st : remaining i st ≠ 0 → i < List.length (ls_resources st).
Proof.
  unfold remaining. destruct (ls_resources st !! i) eqn:E; [|done].
  intros _. by eapply lookup_lt_Some.
Qed.

(** The unit removed is always the last one of the list. *)
Lemma remove_last s tr st i :
  loop_inv s tr st → List.length (ls_resources st) = S i → remaining i st = 0 →
  loop_inv s tr (MkLoop (ls_inv st) (remove_nth i (ls_resources st)) (ls_adjusted st) (ls_cparams st) (ls_err st))
  ∧ List.length (remove_nth i (ls_resources st)) = i.
Proof.
  intros Hinv Hlen Hrem.
  assert (remove_nth i (ls_resources st) = take i (ls_resources st)) as Heq.
  { unfold remove_nth. by rewrite drop_ge, app_nil_r by lia. }
  rewrite Heq. split; [|rewrite length_take; lia].
  destruct Hinv as [? ? Hl ? ? Hcounts]. split; cbn; try done.
  - rewrite length_take. lia.
  - intros j o Ho. specialize (Hcounts j o Ho). unfold remaining in *. cbn [ls_resources].
    destruct (decide (j < i)).
    + by rewrite lookup_take_lt.
    + rewrite lookup_take_ge by lia. cbn. destruct (decide (j = i)) as [->|]; [by rewrite Hrem in Hcounts|].
      rewrite (lookup_ge_None_2 (ls_resources st)) in Hcounts by lia. done.
Qed.

(** One pass over the units on a node: it works on the last unit only. *)
Lemma groups_inv s tr st node :
  loop_inv s tr st → node < n →
  match groups try orig (List.length (ls_resources st)) node st with
  | (FlowPanic, _) | (GroupDone, _) => False
  | (BreakNodes, st') => ls_resources st' ≠ []
  | (NextNode, st') => List.length (ls_resources st') = List.length (ls_resources st) ∧ ∃ tr', loop_inv s tr' st'
  | (GotoNodes, st') => S (List.length (ls_resources st')) = List.length (ls_resources st)
                        ∧ ∃ tr', loop_inv s tr' st'
  end.
Proof.
  intros Hinv Hn. destruct (List.length (ls_resources st)) as [|i] eqn:Hlen; cbn [groups]; [by eauto|].
  pose proof (li_len _ _ _ Hinv) as Hle.
  destruct (lookup_lt_is_Some_2 orig i) as [o Ho]; [lia|]. rewrite Ho.
  destruct (lookup_lt_is_Some_2 (ls_resources st) i) as [u Hu]; [lia|]. rewrite Hu.
  destruct (lookup_lt_is_Some_2 (ls_adjusted st) i) as [a Ha]; [rewrite (li_adj_len _ _ _ Hinv); lia|].
  rewrite Ha. destruct (li_adj _ _ _ Hinv i a o Ha Ho) as [HR _].
  pose proof (replicas_inv (ru_Count u) s tr st node i (negb (ru_Count o =? ru_Count u)) (ru_Resources a) u
    Hinv Hn HR ltac:(lia) Hu eq_refl) as Hflow.
  destruct (replicas _ _ _ _ _ _ _) as [[] st']; unfold flow_inv in Hflow; cbn [fst snd] in Hflow; try done.
  - by rewrite <- Hlen.
  - intros Hnil. rewrite Hnil in Hflow. cbn in Hflow. lia.
  - destruct Hflow as (Hlen' & Hrem & tr' & Hinv'). rewrite Hlen in Hlen'.
    destruct (lookup_lt_is_Some_2 (ls_resources st') i) as [u' Hu']; [lia|]. rewrite Hu'.
    assert (ru_Count u' = 0) as Hz by (unfold remaining in Hrem; by rewrite Hu' in Hrem).
    rewrite Hz. cbn [Nat.eqb].
    destruct (remove_last s tr' st' i Hinv' Hlen' Hrem) as [Hinv'' Hlen'']. cbn [ls_resources].
    rewrite Hlen''. eauto.
Qed.

(** The loop ends within its fuel, without a panic; it ends with units left
    over, or with every unit placed. *)
Lemma nodes_inv fuel node s tr st :
  loop_inv s tr st → List.length (ls_resources st) * (n + 1) + (n - node) < fuel →
  ∃ st', nodes try orig n fuel node st = Some (Ret st') ∧
         (ls_resources st' = [] → ∃ tr', loop_inv s tr' st').
Proof.
  revert node tr st. induction fuel as [|fuel IH]; intros node tr st Hinv Hfuel; [lia|].
  cbn [nodes]. destruct (Nat.ltb_spec node n) as [Hn|Hn]; [|by eauto].
  pose proof (groups_inv s tr st node Hinv Hn) as Hg.
  destruct (groups _ _ _ _ _) as [[] st']; try done.
  - destruct Hg as [Hlen [tr' Hinv']]. eapply IH; [done|]. rewrite Hlen. lia.
  - eexists. split; [done|]. intros ?. done.
  - destruct Hg as [Hlen [tr' Hinv']]. eapply IH; [done|].
    rewrite <- Hlen in Hfuel. nia.
Qed.

Lemma loop_start_inv s : I s → loop_inv s [] (loop_start orig s).
Proof.
  intros HI. split; cbn; try done; [constructor|..].
  - intros i u o Hu Ho. simplify_eq. eauto.
  - intros i o Ho. unfold remaining. cbn. by rewrite Ho.
Qed.

(** A run of the loop: an answer, and for a success the placements. *)
Theorem adjust_loop_spec s :
  I s →
  ∃ r, adjust_loop try orig n s = Some (Ret r) ∧
    match r with
    | Err _ => True
    | Ok (s', adj, cparams) =>
        ∃ tr, placed s tr s' ∧ (∀ i u, orig !! i = Some u → count_of i tr = ru_Count u)
              ∧ adj_ok adj
    end.
Proof.
  intros HI. unfold adjust_loop.
  destruct (nodes_inv (loop_fuel n (List.length orig)) 0 s [] (loop_start orig s)
    (loop_start_inv s HI)) as (st' & -> & Hst').
  { unfold loop_fuel. cbn [ls_resources loop_start]. nia. }
  eexists. split; [done|]. destruct (ls_resources st') as [|] eqn:E; [|done].
  destruct (Hst' eq_refl) as [tr Hinv]. exists tr. split_and!.
  - apply (li_placed _ _ _ Hinv).
  - intros i u Hu. pose proof (li_counts _ _ _ Hinv i u Hu) as Hc.
    unfold remaining in Hc. rewrite E, lookup_nil in Hc. cbn in Hc. lia.
  - by apply (loop_inv_adj_ok s tr).
Qed.

End loop_facts.
