(* ===== verification/InventorySound.v ===== *)
(** * The inventory never over-commits

    What a successful [Adjust] has done, in terms of the resources available on
    every node and in every storage class, for any implementation of the
    resource pairs that satisfies the laws of [ChainTypes.PairLaws]. *)
From S2P Require Import Prelude GoStrings ChainTypes ClusterTypes Inventory InventoryLoop.

Open Scope Z_scope.

(** ** Accounts *)

(** The kinds of resources of a node. *)
Inductive dim := DCpu | DMemory | DGpu | DEphemeral | DInterconnect.

#[export] Instance dim_eq_dec : EqDecision dim.
Proof. solve_decision. Defined.

Notation load := (dim → Z).

Definition at_dim (d : dim) (v : Z) : load := λ d', if decide (d' = d) then v else 0.
Definition load_add (a b : load) : load := λ d, a d + b d.
Definition load_zero : load := λ _, 0.

Definition sum_Z (l : list Z) : Z := foldr Z.add 0 l.

Lemma sum_Z_app l k : sum_Z (l ++ k) = sum_Z l + sum_Z k.
Proof. induction l; cbn; [done|]. unfold sum_Z in *. lia. Qed.
Lemma sum_Z_perm l k : l ≡ₚ k → sum_Z l = sum_Z k.
Proof. induction 1; cbn in *; unfold sum_Z in *; lia. Qed.
Lemma sum_Z_map_perm {A} (f : A → Z) l k : l ≡ₚ k → sum_Z (f <$> l) = sum_Z (f <$> k).
Proof. intros Hp. apply sum_Z_perm. by rewrite Hp. Qed.

Section accounts.
Context `{GoUnicode} `{PairLaws} `{ChainSdk}.

Definition nr_avail (r : NodeResources) (d : dim) : Z :=
  match d with
  | DCpu => avail_milli (icpu_Quantity (nr_CPU r))
  | DMemory => avail (nr_Memory r)
  | DGpu => avail (igpu_Quantity (nr_GPU r))
  | DEphemeral => avail (nr_EphemeralStorage r)
  | DInterconnect => avail (nr_GPUInterconnect r)
  end.

(** The pairs of a node are accounted in their units; the interconnect pair of
    a node without interconnect is not used. *)
Definition dim_used (caps : NodeCapabilities) (d : dim) : Prop :=
  d = DInterconnect → interconnectCapsSuitable caps EmptyString = true.

Definition nr_ok (caps : NodeCapabilities) (r : NodeResources) : Prop :=
  rp_milli (icpu_Quantity (nr_CPU r)) ∧ rp_whole (nr_Memory r) ∧ rp_whole (igpu_Quantity (nr_GPU r))
  ∧ rp_whole (nr_EphemeralStorage r)
  ∧ (dim_used caps DInterconnect → rp_whole (nr_GPUInterconnect r))
  ∧ ∀ d, dim_used caps d → 0 ≤ nr_avail r d.

(** [r'] is [r] less the load [l]. *)
Definition spends (caps : NodeCapabilities) (l : load) (r r' : NodeResources) : Prop :=
  nr_ok caps r' ∧ (∀ d, nr_avail r d = nr_avail r' d + l d)
  ∧ icpu_Info (nr_CPU r') = icpu_Info (nr_CPU r) ∧ igpu_Info (nr_GPU r') = igpu_Info (nr_GPU r).

Lemma spends_refl caps r : nr_ok caps r → spends caps load_zero r r.
Proof. unfold spends, load_zero. intros. split_and!; try done. intros. lia. Qed.

Lemma spends_trans caps l1 l2 r1 r2 r3 :
  spends caps l1 r1 r2 → spends caps l2 r2 r3 → spends caps (load_add l1 l2) r1 r3.
Proof.
  intros (? & Ha & ? & ?) (? & Hb & ? & ?). split_and!; try congruence; try done.
  intros d. unfold load_add. rewrite Ha, Hb. lia.
Qed.

Lemma sub_whole p v p' :
  rp_whole p → 0 ≤ v → rp_SubNLZ p v = Some p' →
  rp_whole p' ∧ avail p = avail p' + v ∧ 0 ≤ avail p'.
Proof. intros Hp Hv E. pose proof (SubNLZ_law p v Hp Hv) as L. rewrite E in L. intuition lia. Qed.

Lemma sub_milli p v p' :
  rp_milli p → 0 ≤ v → rp_SubMilliNLZ p v = Some p' →
  rp_milli p' ∧ avail_milli p = avail_milli p' + v ∧ 0 ≤ avail_milli p'.
Proof. intros Hp Hv E. pose proof (SubMilliNLZ_law p v Hp Hv) as L. rewrite E in L. intuition lia. Qed.

Ltac account_step :=
  unfold nr_ok; intros (? & ? & ? & ? & ? & Hnn) ? E;
  first [apply sub_whole in E as (? & ? & ?) | apply sub_milli in E as (? & ? & ?)];
  [|by eauto..];
  unfold spends, nr_ok; split_and!; cbn; try done;
  intros d; pose proof (Hnn d); destruct d; unfold at_dim; repeat case_decide; cbn in *; try done; try lia; eauto.

Lemma spends_cpu caps r v q info :
  nr_ok caps r → 0 ≤ v → rp_SubMilliNLZ (icpu_Quantity (nr_CPU r)) v = Some q →
  info = icpu_Info (nr_CPU r) →
  spends caps (at_dim DCpu v) r (set_CPU (MkInvCPU q info) r).
Proof. intros Hok Hv E ->. revert Hok Hv E. account_step. Qed.

Lemma spends_memory caps r v q :
  nr_ok caps r → 0 ≤ v → rp_SubNLZ (nr_Memory r) v = Some q →
  spends caps (at_dim DMemory v) r (set_Memory q r).
Proof. account_step. Qed.

Lemma spends_gpu caps r v q info :
  nr_ok caps r → 0 ≤ v → rp_SubNLZ (igpu_Quantity (nr_GPU r)) v = Some q →
  info = igpu_Info (nr_GPU r) →
  spends caps (at_dim DGpu v) r (set_InvGPU (MkInvGPU q info) r).
Proof. intros Hok Hv E ->. revert Hok Hv E. account_step. Qed.

Lemma spends_ephemeral caps r v q :
  nr_ok caps r → 0 ≤ v → rp_SubNLZ (nr_EphemeralStorage r) v = Some q →
  spends caps (at_dim DEphemeral v) r (set_Ephemeral q r).
Proof. account_step. Qed.

Lemma spends_interconnect caps r v q :
  dim_used caps DInterconnect → nr_ok caps r → 0 ≤ v → rp_SubNLZ (nr_GPUInterconnect r) v = Some q →
  spends caps (at_dim DInterconnect v) r (set_Interconnect q r).
Proof. intros Hd. account_step. Qed.

(** ** The load of one replica *)

(** What a volume takes from the node, and from the storage class [k]. *)
Definition volume_load (vol : Storage) : load :=
  match ParseStorageAttributes (sto_Attributes vol) with
  | Ok a =>
      if sa_Persistent a then load_zero
      else if String.eqb (sa_Class a) "ram" then at_dim DMemory (sto_Quantity vol)
      else at_dim DEphemeral (sto_Quantity vol)
  | Err _ => load_zero
  end.

Definition volume_class_load (k : string) (vol : Storage) : Z :=
  match ParseStorageAttributes (sto_Attributes vol) with
  | Ok a => if sa_Persistent a && String.eqb (sa_Class a) k then sto_Quantity vol else 0
  | Err _ => 0
  end.

Definition volumes_load (vols : list Storage) : load := λ d, sum_Z (map (λ v, volume_load v d) vols).
Definition class_load (k : string) (res : Resources) : Z :=
  sum_Z (map (volume_class_load k) (res_Storage res)).

Definition sidecar_load (teeType : TEEType) (teePlatform : TEEPlatform) : load :=
  if IsCC teeType then
    load_add (at_dim DCpu SidecarCPULimitMillicores)
      (at_dim DMemory (if RuntimeClass_Is (RuntimeClassForTEEType teeType teePlatform) [WithGPU]
                       then SidecarGPUMemoryLimitBytes else SidecarMemoryLimitBytes))
  else load_zero.

Definition gpu_units (res : Resources) : Z := default 0 (gpu_Units <$> res_GPU res).

(** One replica of [res]: its CPU, memory, GPUs, one interconnect device per
    GPU when it asks for interconnect, its volumes and the sidecar. *)
Definition unit_load (teeType : TEEType) (teePlatform : TEEPlatform) (res : Resources) : load := λ d,
  at_dim DCpu (default 0 (cpu_Units <$> res_CPU res)) d
  + at_dim DMemory (default 0 (mem_Quantity <$> res_Memory res)) d
  + at_dim DGpu (gpu_units res) d
  + at_dim DInterconnect (if ResourceRequiresInterconnect res then gpu_units res else 0) d
  + volumes_load (res_Storage res) d
  + sidecar_load teeType teePlatform d.

(** Requests as the chain delivers them: CPU, memory and GPU are present and
    the amounts are not negative. *)
Definition valid_request (res : Resources) : Prop :=
  (∃ c, res_CPU res = Some c ∧ 0 ≤ cpu_Units c) ∧ (∃ m, res_Memory res = Some m ∧ 0 ≤ mem_Quantity m)
  ∧ (∃ g, res_GPU res = Some g ∧ 0 ≤ gpu_Units g) ∧ Forall (λ v, 0 ≤ sto_Quantity v) (res_Storage res).

(** Two requests that differ in the attributes of the GPU only. *)
Definition same_request (a b : Resources) : Prop :=
  set_GPU None a = set_GPU None b ∧ gpu_Units <$> res_GPU a = gpu_Units <$> res_GPU b.

Lemma same_request_refl a : same_request a a.
Proof. done. Qed.

Lemma same_request_valid a b : same_request a b → valid_request a → valid_request b.
Proof.
  destruct a as [? ? ? ? ga ?], b as [? ? ? ? gb ?]. unfold same_request, valid_request. cbn.
  intros [[= <- <- <- <- <-] Hg] (? & ? & (g & -> & Hu) & ?). split_and!; try done.
  destruct gb as [gb|]; cbn in Hg; [|done]. exists gb. split; [done|]. injection Hg as Hg. lia.
Qed.

(** ** Storage classes *)

Definition class_avail (k : string) (l : list ClusterStorage) : Z :=
  default 0 ((λ s, avail (cs_Quantity s)) <$> List.find (λ s, String.eqb (cs_Class s) k) l).

Definition storage_ok (l : list ClusterStorage) : Prop :=
  Forall (λ s, rp_whole (cs_Quantity s) ∧ 0 ≤ avail (cs_Quantity s)) l.

Lemma sub_class_spec class v l l' :
  storage_ok l → 0 ≤ v → sub_class class v l = Some (Some l') →
  storage_ok l' ∧ map cs_Class l' = map cs_Class l
  ∧ ∀ k, class_avail k l = class_avail k l' + (if String.eqb class k then v else 0).
Proof.
  intros Hok Hv. revert l'. induction l as [|s l IH]; intros l'; cbn [sub_class]; [done|].
  apply Forall_cons in Hok as [[Hs Hs0] Hl]. unfold class_avail, storage_ok in *. cbn [List.find].
  destruct (String.eqb_spec (cs_Class s) class) as [Hc|Hc].
  - destruct (rp_SubNLZ (cs_Quantity s) v) as [q|] eqn:E; cbn; [|done]. intros [= <-].
    apply sub_whole in E as (? & ? & ?); [|done..]. split; [constructor; auto|]. split; [done|].
    intros k. cbn. rewrite Hc. destruct (String.eqb class k); cbn; lia.
  - destruct (sub_class class v l) as [[l1|]|] eqn:E; cbn; try done. intros [= <-].
    destruct (IH Hl l1 eq_refl) as (Hok1 & Hm & Hk).
    split; [by constructor|]. split; [cbn; congruence|]. intros k. cbn.
    destruct (String.eqb_spec (cs_Class s) k) as [Hsk|]; [|apply Hk].
    cbn. destruct (String.eqb_spec class k); [congruence|]. lia.
Qed.

Lemma adjust_volumes_spec caps vols nr classes nr' classes' :
  nr_ok caps nr → storage_ok classes → Forall (λ v, 0 ≤ sto_Quantity v) vols →
  adjust_volumes caps vols nr classes = Ok (nr', classes') →
  spends caps (volumes_load vols) nr nr' ∧ storage_ok classes'
  ∧ map cs_Class classes' = map cs_Class classes
  ∧ ∀ k, class_avail k classes = class_avail k classes' + sum_Z (map (volume_class_load k) vols).
Proof.
  revert nr classes. induction vols as [|vol vols IH]; intros nr classes Hnr Hcl Hv; cbn [adjust_volumes].
  { intros [= <- <-]. split_and!; [by apply spends_refl|done..|]. intros. cbn. lia. }
  apply Forall_cons in Hv as [Hv0 Hv]. intros E.
  assert (∃ nr1 classes1, spends caps (volume_load vol) nr nr1 ∧ storage_ok classes1
    ∧ map cs_Class classes1 = map cs_Class classes
    ∧ (∀ k, class_avail k classes = class_avail k classes1 + volume_class_load k vol)
    ∧ adjust_volumes caps vols nr1 classes1 = Ok (nr', classes')) as
    (nr1 & classes1 & Hs1 & Hok1 & Hm1 & Hk1 & E1).
  { clear IH. revert E. unfold volume_load, volume_class_load.
    destruct (ParseStorageAttributes (sto_Attributes vol)) as [a|]; [|done].
    destruct (sa_Persistent a); cbn [negb andb].
    - destruct (IsStorageClassSupported caps (sa_Class a)); cbn [negb]; [|done].
      destruct (sub_class (sa_Class a) (sto_Quantity vol) classes) as [[l1|]|] eqn:Es; try done.
      intros E. apply sub_class_spec in Es as (? & ? & ?); [|done..].
      exists nr, l1. split_and!; try done. by apply spends_refl.
    - destruct (String.eqb (sa_Class a) "ram"); intros E; apply rbind_ok in E as (q & Eq & E);
        unfold tryAdjustEphemeralStorage in Eq;
        (destruct (rp_SubNLZ _ _) eqn:Es in Eq; [injection Eq as ->|done]).
      + exists (set_Memory q nr), classes. split_and!; try done; [by apply spends_memory|intros; lia].
      + exists (set_Ephemeral q nr), classes. split_and!; try done; [by apply spends_ephemeral|intros; lia]. }
  destruct (IH nr1 classes1 (proj1 Hs1) Hok1 Hv E1) as (Hs2 & Hok2 & Hm2 & Hk2).
  split_and!; try done; [|congruence|].
  - apply (spends_trans _ _ _ _ _ _ Hs1 Hs2).
  - intros k. rewrite Hk1, Hk2. cbn [map sum_Z foldr]. unfold sum_Z. cbn [foldr]. lia.
Qed.

(** ** One replica on one node *)

Lemma need_ok {A} (o : option A) a : need o = Ok a ↔ o = Some a.
Proof. destruct o; naive_solver. Qed.

Lemma ptr_ok {A} (o : option A) a : ptr o = Ok a ↔ o = Some a.
Proof. destruct o; naive_solver. Qed.

Lemma need_rbind {A B} (o : option A) (k : A → result stop B) e :
  rbind (need o) k = Err e → (∀ a, k a = Err e → e ≠ Panicked) → e ≠ Panicked.
Proof. destruct o; naive_solver. Qed.

Lemma tryAdjustCPU_spends caps nr res c :
  nr_ok caps nr → 0 ≤ cpu_Units res → tryAdjustCPU (nr_CPU nr) res = Some c →
  spends caps (at_dim DCpu (cpu_Units res)) nr (set_CPU c nr).
Proof.
  intros Hok Hv. unfold tryAdjustCPU. destruct (if _ : bool then _ else _) as [arch|]; [|done].
  intros E.
  assert (∃ q, rp_SubMilliNLZ (icpu_Quantity (nr_CPU nr)) (cpu_Units res) = Some q
               ∧ c = MkInvCPU q (icpu_Info (nr_CPU nr))) as (q & Eq & ->).
  { destruct (rp_SubMilliNLZ _ _) as [q|] eqn:Es; cbn in E; repeat case_match; naive_solver. }
  by apply spends_cpu.
Qed.

Lemma caps_suitable_used caps fabric :
  interconnectCapsSuitable caps fabric = true → dim_used caps DInterconnect.
Proof. unfold dim_used, interconnectCapsSuitable. intros E _. by destruct (_ || _)%bool. Qed.

Lemma tryAdjustInterconnect_spends caps nr res sp fabric required ic sp' :
  nr_ok caps nr → 0 ≤ gpu_units res →
  tryAdjustInterconnect (nr_GPUInterconnect nr) caps res sp fabric required = Some (ic, sp') →
  spends caps (at_dim DInterconnect (if required then gpu_units res else 0)) nr (set_Interconnect ic nr)
  ∧ sp_RuntimeClass sp' = sp_RuntimeClass sp
  ∧ (required = true → interconnectCapsSuitable caps fabric = true).
Proof.
  unfold tryAdjustInterconnect, gpu_units. intros Hok Hv. destruct required; cbn [negb].
  - destruct (interconnectCapsSuitable caps fabric) eqn:Ec; cbn [negb]; [|done].
    destruct (res_GPU res) as [g|]; [|done]. cbn in Hv |- *.
    destruct (rp_SubNLZ _ _) as [q|] eqn:E; cbn; [|done]. intros [= <- <-]. split_and!; [|..|done].
    + eapply spends_interconnect; eauto using caps_suitable_used.
    + unfold stamp_interconnect, sParamsEnsureResources. destruct sp as [? [[]|] ? ?]; done.
  - intros [= <- <-]. split_and!; [|done..].
    replace (set_Interconnect (nr_GPUInterconnect nr) nr) with nr by by destruct nr.
    destruct (spends_refl caps nr Hok) as (? & Hd & ? & ?). split_and!; try done.
    intros d. rewrite Hd at 1. unfold at_dim, load_zero. case_decide; lia.
Qed.

Lemma tryAdjustGPU_spends caps nr res sp tee plat g res' sp' :
  nr_ok caps nr → 0 ≤ gpu_Units res →
  tryAdjustGPU (nr_GPU nr) res sp tee plat = Some (g, res', sp') →
  spends caps (at_dim DGpu (gpu_Units res)) nr (set_InvGPU g nr) ∧ gpu_Units res' = gpu_Units res
  ∧ (IsCC tee = true → sp_RuntimeClass sp = EmptyString →
     sp_RuntimeClass sp' = EmptyString ∨ sp_RuntimeClass sp' = RuntimeClassForTEEType tee plat).
Proof.
  intros Hok Hv. unfold tryAdjustGPU. destruct (Z.eqb_spec (gpu_Units res) 0) as [Hz|Hz].
  { intros [= <- <- <-]. split_and!; [|done|by left]. rewrite Hz.
    replace (set_InvGPU (nr_GPU nr) nr) with nr by by destruct nr.
    destruct (spends_refl caps nr Hok) as (? & Hd & ? & ?). split_and!; try done.
    intros d. rewrite Hd at 1. unfold at_dim, load_zero. case_decide; lia. }
  destruct (avail _ =? 0); [done|].
  destruct (ParseGPUAttributes _) as [attrs|]; [|done].
  destruct (gpu_scan _ _ _ _) as [[info attr]|]; cbn; [|done].
  destruct (rp_SubNLZ _ _) as [q|] eqn:E; cbn; [|done]. intros [= <- <- <-].
  split_and!; [by apply spends_gpu|done|]. intros -> _. by right.
Qed.

Lemma sidecar_spends caps nr sp tee plat nr' sp' :
  nr_ok caps nr →
  (IsCC tee = true → sp_RuntimeClass sp = EmptyString ∨ sp_RuntimeClass sp = RuntimeClassForTEEType tee plat) →
  adjust_sidecar tee plat nr sp = Ok (nr', sp') →
  spends caps (sidecar_load tee plat) nr nr'.
Proof.
  intros Hok Hrc. unfold adjust_sidecar, sidecar_load. destruct (IsCC tee).
  2: { intros [= <- <-]. by apply spends_refl. }
  assert (sp_RuntimeClass (if String.eqb (sp_RuntimeClass sp) EmptyString
    then set_RuntimeClass (RuntimeClassForTEEType tee plat) sp else sp) = RuntimeClassForTEEType tee plat) as ->.
  { destruct (String.eqb_spec (sp_RuntimeClass sp) EmptyString); [done|]. naive_solver. }
  intros E. apply rbind_ok in E as (c & Ec & E). apply need_ok in Ec.
  apply rbind_ok in E as (m & Em & E). apply need_ok in Em. injection E as <- <-.
  pose proof (spends_cpu caps nr SidecarCPULimitMillicores c _ Hok ltac:(done) Ec eq_refl) as Hs1.
  eapply spends_trans; [exact Hs1|]. eapply spends_memory; [apply Hs1| |exact Em].
  by destruct (RuntimeClass_Is _ _).
Qed.

Definition compute_load (required : bool) (res : Resources) : load := λ d,
  at_dim DCpu (default 0 (cpu_Units <$> res_CPU res)) d + at_dim DGpu (gpu_units res) d
  + at_dim DInterconnect (if required then gpu_units res else 0) d.

Definition memory_load (tee : TEEType) (plat : TEEPlatform) (res : Resources) : load := λ d,
  at_dim DMemory (default 0 (mem_Quantity <$> res_Memory res)) d
  + volumes_load (res_Storage res) d + sidecar_load tee plat d.

Lemma spends_ext caps l l' r r' : (∀ d, l d = l' d) → spends caps l r r' → spends caps l' r r'.
Proof. intros Hl (? & Hd & ? & ?). split_and!; try done. intros d. by rewrite <- Hl. Qed.

Lemma adjust_compute_spec nd res tee plat fabric required :
  nr_ok (nd_Capabilities nd) (nd_Resources nd) → valid_request res →
  match adjust_compute nd res tee plat fabric required with
  | Ok (nr, res', sp) =>
      spends (nd_Capabilities nd) (compute_load required res) (nd_Resources nd) nr
      ∧ same_request res res'
      ∧ (IsCC tee = true → sp_RuntimeClass sp = EmptyString ∨ sp_RuntimeClass sp = RuntimeClassForTEEType tee plat)
      ∧ (required = true → interconnectCapsSuitable (nd_Capabilities nd) fabric = true)
  | Err e => e ≠ Panicked
  end.
Proof.
  intros Hok ((rc & Hrc & Hc0) & _ & (rg & Hrg & Hg0) & _). unfold adjust_compute.
  rewrite Hrc, Hrg. cbn [ptr rbind].
  destruct (tryAdjustCPU _ _) as [c|] eqn:Ec; [|done]. cbn [need rbind].
  apply (tryAdjustCPU_spends _ _ _ _ Hok Hc0) in Ec as Hs1.
  destruct (tryAdjustInterconnect _ _ _ _ _ _) as [[ic sp]|] eqn:Ei; [|done]. cbn [need rbind].
  assert (gpu_units res = gpu_Units rg) as Hgu by (unfold gpu_units; by rewrite Hrg).
  apply tryAdjustInterconnect_spends in Ei as (Hs2 & Hsp & Hreq); [|apply Hs1|lia].
  destruct (tryAdjustGPU _ _ _ _ _) as [[[g rg'] sp']|] eqn:Eg; [|done]. cbn [need rbind].
  apply (tryAdjustGPU_spends (nd_Capabilities nd)) in Eg as (Hs3 & Hgu' & Hrc'); [|apply Hs2|lia].
  split_and!.
  - eapply spends_ext; [|eapply spends_trans; [eapply spends_trans; [exact Hs1|exact Hs2]|exact Hs3]].
    intros d. unfold compute_load, load_add. rewrite Hrc, Hgu. cbn. lia.
  - split; [done|]. cbn. rewrite Hrg. cbn. by rewrite Hgu'.
  - intros Hcc. by apply Hrc'.
  - done.
Qed.

Lemma adjust_memory_spec caps res nr classes tee plat sp :
  nr_ok caps nr → storage_ok classes → valid_request res →
  (IsCC tee = true → sp_RuntimeClass sp = EmptyString ∨ sp_RuntimeClass sp = RuntimeClassForTEEType tee plat) →
  match adjust_memory caps res nr classes tee plat sp with
  | Ok (nr', classes', _) =>
      spends caps (memory_load tee plat res) nr nr' ∧ storage_ok classes'
      ∧ map cs_Class classes' = map cs_Class classes
      ∧ ∀ k, class_avail k classes = class_avail k classes' + class_load k res
  | Err e => e ≠ Panicked
  end.
Proof.
  intros Hok Hst (_ & (rm & Hrm & Hm0) & _ & Hvols) Hrc. unfold adjust_memory.
  rewrite Hrm. cbn [ptr rbind].
  destruct (rp_SubNLZ _ _) as [m|] eqn:Em; [|done]. cbn [need rbind].
  pose proof (spends_memory caps nr _ m Hok Hm0 Em) as Hs1.
  destruct (adjust_volumes _ _ _ _) as [[nr1 classes1]|e] eqn:Ev; cbn [rbind].
  2: { assert (∀ vols nr0 cl e', adjust_volumes caps vols nr0 cl = Err e' → e' ≠ Panicked) as Hnp; [|eauto].
       clear. induction vols as [|v vols IH]; intros nr0 cl e'; cbn [adjust_volumes]; [done|].
       destruct (ParseStorageAttributes _) as [a|]; [|congruence].
       destruct (sa_Persistent a); cbn [negb].
       - destruct (IsStorageClassSupported _ _); cbn [negb]; [|congruence].
         destruct (sub_class _ _ _) as [[]|]; [apply IH|congruence..].
       - destruct (String.eqb _ _); intros E; (eapply need_rbind; [exact E|]); intros ? Er; exact (IH _ _ _ Er). }
  apply adjust_volumes_spec in Ev as (Hs2 & Hok2 & Hm2 & Hk2); [|apply Hs1|done..].
  destruct (adjust_sidecar _ _ _ _) as [[nr2 sp2]|e] eqn:Es; cbn [rbind].
  2: { revert Es. unfold adjust_sidecar. destruct (IsCC tee); [|done].
       intros Es. eapply need_rbind; [exact Es|]. intros ? Es2. by eapply need_rbind; [exact Es2|]. }
  apply sidecar_spends with (caps := caps) in Es; [|apply Hs2|done].
  split_and!; try done.
  eapply spends_ext; [|eapply spends_trans; [eapply spends_trans; [exact Hs1|exact Hs2]|exact Es]].
  intros d. unfold memory_load, load_add. by rewrite Hrm.
Qed.

Definition node_ok (nd : Node) : Prop := nr_ok (nd_Capabilities nd) (nd_Resources nd).

(** Every pair is accounted in its units and nothing is over-committed. *)
Definition cluster_ok (c : Cluster) : Prop := Forall node_ok (cl_Nodes c) ∧ storage_ok (cl_Storage c).

(** The load of a replica that asks for interconnect when [required]. *)
Definition replica_load (required : bool) (tee : TEEType) (plat : TEEPlatform) (res : Resources) : load :=
  load_add (compute_load required res) (memory_load tee plat res).

(** The inventory after a replica with load [l] and request [res] has been put
    on [node]. *)
Definition takes (node : nat) (l : load) (res : Resources) (c c' : Cluster) : Prop :=
  (∃ nd nr, cl_Nodes c !! node = Some nd ∧ spends (nd_Capabilities nd) l (nd_Resources nd) nr
            ∧ cl_Nodes c' = <[node := set_NodeRes nr nd]> (cl_Nodes c))
  ∧ map cs_Class (cl_Storage c') = map cs_Class (cl_Storage c)
  ∧ ∀ k, class_avail k (cl_Storage c) = class_avail k (cl_Storage c') + class_load k res.

Lemma class_load_same k a b : same_request a b → class_load k a = class_load k b.
Proof. destruct a, b. intros [[=] _]. unfold class_load. cbn. congruence. Qed.

Lemma memory_load_same tee plat a b : same_request a b → memory_load tee plat a = memory_load tee plat b.
Proof. destruct a, b. intros [[=] _]. unfold memory_load. cbn. by subst. Qed.

(** A node that first spends [l] and then the memory of a request. *)
Lemma takes_intro node nd nr nr' l tee plat res res' c classes :
  cl_Nodes c !! node = Some nd → same_request res res' →
  spends (nd_Capabilities nd) l (nd_Resources nd) nr →
  spends (nd_Capabilities nd) (memory_load tee plat res') nr nr' →
  map cs_Class classes = map cs_Class (cl_Storage c) →
  (∀ k, class_avail k (cl_Storage c) = class_avail k classes + class_load k res') →
  takes node (load_add l (memory_load tee plat res)) res c
    (MkCluster (<[node := set_NodeRes nr' nd]> (cl_Nodes c)) classes).
Proof.
  intros Hnd Hsame Hs1 Hs2 Hmap Hk. split_and!; [|done|].
  - exists nd, nr'. split_and!; [done| |done].
    rewrite (memory_load_same _ _ _ _ Hsame). by eapply spends_trans.
  - intros k. by rewrite (class_load_same k _ _ Hsame).
Qed.

Lemma replica_load_same required tee plat a b d :
  same_request a b → replica_load required tee plat a d = replica_load required tee plat b d.
Proof.
  intros Hs. unfold replica_load, load_add. rewrite (memory_load_same _ _ _ _ Hs).
  destruct Hs as [Hs Hg]. unfold compute_load, gpu_units. rewrite Hg.
  destruct a, b; cbn in *. by injection Hs as <- <- <- <- <-.
Qed.

Lemma tryAdjust_spec tee plat fabric required group node res c gc :
  cluster_ok c → (node < List.length (cl_Nodes c))%nat → valid_request res →
  let out := tryAdjust tee plat fabric required group node res (c, gc) in
  same_request res out.1 ∧
  match out.2 with
  | Ok (sp, (c', gc')) =>
      cluster_ok c' ∧ takes node (replica_load required tee plat res) res c c'
      ∧ gc' = add_claim group node gc ∧ (group ≠ EmptyString → claimed group node gc = false)
      ∧ (required = true → ∃ nd, cl_Nodes c !! node = Some nd ∧ interconnectCapsSuitable (nd_Capabilities nd) fabric = true)
  | Err e => e ≠ Panicked
  end.
Proof.
  intros [Hnodes Hst] Hlt Hv. unfold tryAdjust. cbv zeta.
  destruct (negb (String.eqb group EmptyString) && claimed group node gc)%bool eqn:Hcl; [done|].
  destruct (lookup_lt_is_Some_2 _ _ Hlt) as [nd Hnd]. rewrite Hnd.
  destruct (required && negb _)%bool; [done|].
  pose proof (Forall_lookup_1 _ _ _ _ Hnodes Hnd) as Hnd_ok.
  pose proof (adjust_compute_spec nd res tee plat fabric required Hnd_ok Hv) as Hc.
  destruct (adjust_compute _ _ _ _ _ _) as [[[nr res'] sp]|e]; [|done].
  destruct Hc as (Hs1 & Hsame & Hrc & Hreq). split; [done|]. cbn [snd].
  pose proof (adjust_memory_spec (nd_Capabilities nd) res' nr (cl_Storage c) tee plat sp
    (proj1 Hs1) Hst (same_request_valid _ _ Hsame Hv) Hrc) as Hm.
  destruct (adjust_memory _ _ _ _ _ _ _) as [[[nr' classes'] sp']|e]; [|done]. cbn [rbind].
  destruct Hm as (Hs2 & Hst' & Hmap & Hk). split_and!.
  - split; [|done]. cbn. apply Forall_insert; [done|]. apply Hs2.
  - by apply (takes_intro node nd nr nr' (compute_load required res) tee plat res res').
  - done.
  - intros Hg. destruct (String.eqb_spec group EmptyString); [done|]. by destruct (claimed _ _ _).
  - eauto.
Qed.

(** ** Plans

    [cost i] is the load of one replica of unit [i] on its node, [class_cost k i]
    what it takes from the storage class [k]. *)

Section plans.
Context (cost : nat → load) (class_cost : string → nat → Z).

Definition load_on (tr : list placement) (k : nat) (d : dim) : Z :=
  sum_Z (map (λ p, if decide (p.2 = k) then cost p.1 d else 0) tr).
Definition class_load_of (tr : list placement) (k : string) : Z :=
  sum_Z (map (λ p, class_cost k p.1) tr).

(** [c'] is [c] with the placements [tr] taken out. *)
Definition accounts (tr : list placement) (c c' : Cluster) : Prop :=
  List.length (cl_Nodes c') = List.length (cl_Nodes c)
  ∧ (∀ k nd, cl_Nodes c !! k = Some nd → ∃ nd', cl_Nodes c' !! k = Some nd'
       ∧ nd_Name nd' = nd_Name nd ∧ nd_Capabilities nd' = nd_Capabilities nd
       ∧ ∀ d, nr_avail (nd_Resources nd) d = nr_avail (nd_Resources nd') d + load_on tr k d)
  ∧ map cs_Class (cl_Storage c') = map cs_Class (cl_Storage c)
  ∧ ∀ k, class_avail k (cl_Storage c) = class_avail k (cl_Storage c') + class_load_of tr k.

Lemma accounts_nil c : accounts [] c c.
Proof.
  split_and!; try done; [|intros; cbn; lia].
  intros k nd Hnd. exists nd. split_and!; try done. intros. cbn. lia.
Qed.

Lemma takes_length node l res c c' :
  takes node l res c c' → List.length (cl_Nodes c') = List.length (cl_Nodes c).
Proof. intros ((? & ? & ? & ? & ->) & _). by rewrite length_insert. Qed.

Lemma accounts_step tr c c1 c2 i node l res :
  accounts tr c c1 → takes node l res c1 c2 →
  (∀ d, l d = cost i d) → (∀ k, class_load k res = class_cost k i) →
  accounts (tr ++ [(i, node)]) c c2.
Proof.
  intros (Hlen & Hn & Hm & Hk) Ht Hl Hcl. pose proof (takes_length _ _ _ _ _ Ht) as Hlen2.
  destruct Ht as ((nd1 & nr & Hnd1 & (_ & Hsp & _) & Hc2) & Hm2 & Hk2).
  split_and!; [congruence| |congruence|].
  - intros k nd Hnd. destruct (Hn k nd Hnd) as (nd' & Hnd' & Hname & Hcaps & Hd).
    unfold load_on. rewrite Hc2. destruct (decide (k = node)) as [->|Hne].
    + simplify_eq. exists (set_NodeRes nr nd1). rewrite list_lookup_insert_eq by (by eapply lookup_lt_Some).
      split_and!; try done. intros d. rewrite map_app, sum_Z_app. cbn. rewrite decide_True by done.
      rewrite Hd, Hsp, Hl. unfold load_on. lia.
    + exists nd'. rewrite list_lookup_insert_ne by done. split_and!; try done.
      intros d. rewrite map_app, sum_Z_app. cbn. rewrite decide_False by done. rewrite Hd. unfold load_on. lia.
  - intros k. unfold class_load_of. rewrite map_app, sum_Z_app. cbn.
    rewrite Hk, Hk2, Hcl. unfold class_load_of. lia.
Qed.

End plans.

(** ** Runs *)

Section run.
Context (cfg : InventoryOptions) (fabric : string) (units : list ResourceUnit).
Context (flags : list (string * bool)) (n : nat).
Hypothesis Hflags : interconnect_flags units = Ok flags.
Hypothesis Hvalid : Forall (λ u, valid_request (ru_Resources u)) units.

Notation tee := (opt_TEEType cfg).
Notation plat := (opt_TEEPlatform cfg).
Notation try := (try_unit cfg fabric flags).

Definition unit_group (i : nat) : string :=
  default EmptyString ((λ u, (ResourceInterconnectGroup (ru_Resources u)).1) <$> units !! i).
Definition unit_required (i : nat) : bool :=
  default false ((λ u, ResourceRequiresInterconnect (ru_Resources u)) <$> units !! i).

Lemma flags_lookup us fl i :
  interconnect_flags us = Ok fl → fl !! i = (λ u, ResourceInterconnectGroup (ru_Resources u)) <$> us !! i.
Proof.
  revert fl i. induction us as [|u us IH]; intros fl i; cbn [interconnect_flags].
  { intros [= <-]. done. }
  case_match; [done|]. intros E. apply rbind_ok in E as (l & El & [= <-]).
  destruct i as [|i]; [done|]. cbn. by apply IH.
Qed.

Lemma try_unit_eq i node res st :
  try i node res st = tryAdjust tee plat fabric (unit_required i) (unit_group i) node res st.
Proof.
  unfold try_unit, unit_required, unit_group, ResourceRequiresInterconnect.
  rewrite (flags_lookup _ _ i Hflags). by destruct (units !! i) as [u|]; cbn; [destruct (ResourceInterconnectGroup _)|].
Qed.

Definition unit_request (i : nat) (res : Resources) : Prop :=
  ∃ u, units !! i = Some u ∧ same_request (ru_Resources u) res.
Definition run_ok (st : Cluster * gmap string (gset nat)) : Prop :=
  cluster_ok st.1 ∧ List.length (cl_Nodes st.1) = n.

Lemma unit_request_orig i u : units !! i = Some u → unit_request i (ru_Resources u).
Proof. intros Hu. exists u. by split. Qed.

Lemma unit_request_valid i res : unit_request i res → valid_request res.
Proof.
  intros (u & Hu & Hs). eapply same_request_valid; [done|].
  exact (Forall_lookup_1 _ _ _ _ Hvalid Hu).
Qed.

Lemma same_request_trans a b c : same_request a b → same_request b c → same_request a c.
Proof. intros [] []. split; congruence. Qed.

Lemma try_unit_ok i node res st :
  unit_request i res → run_ok st → (node < n)%nat →
  unit_request i (try i node res st).1 ∧
  match (try i node res st).2 with
  | Ok (_, st') => run_ok st'
  | Err Panicked => False
  | Err _ => True
  end.
Proof.
  intros Hreq [Hok Hlen] Hn. destruct st as [c gc]. cbn in *. rewrite try_unit_eq.
  pose proof (tryAdjust_spec tee plat fabric (unit_required i) (unit_group i) node res c gc Hok
    ltac:(lia) (unit_request_valid _ _ Hreq)) as [Hsame Hout].
  split.
  - destruct Hreq as (u & Hu & Hs). exists u. split; [done|]. by eapply same_request_trans.
  - destruct (tryAdjust _ _ _ _ _ _ _ _).2 as [[sp [c' gc']]|[]]; try done.
    destruct Hout as (? & Ht & _). split; [done|]. cbn. rewrite (takes_length _ _ _ _ _ Ht). done.
Qed.

(** The cost of one replica of unit [i]. *)
Definition unit_cost (i : nat) (d : dim) : Z :=
  default 0 ((λ u, unit_load tee plat (ru_Resources u) d) <$> units !! i).
Definition unit_class_cost (k : string) (i : nat) : Z :=
  default 0 ((λ u, class_load k (ru_Resources u)) <$> units !! i).

Lemma replica_load_eq i res d :
  unit_request i res → replica_load (unit_required i) tee plat res d = unit_cost i d.
Proof.
  intros (u & Hu & Hs). rewrite <- (replica_load_same _ _ _ _ _ d Hs).
  unfold unit_cost, unit_required. rewrite Hu. cbn.
  unfold replica_load, load_add, compute_load, memory_load, unit_load. lia.
Qed.

Lemma class_load_eq i res k : unit_request i res → class_load k res = unit_class_cost k i.
Proof.
  intros (u & Hu & Hs). unfold unit_class_cost. rewrite Hu. cbn. by rewrite (class_load_same k _ _ Hs).
Qed.

Notation placed := (placed try units n unit_request run_ok).

(** One placement, seen through [tryAdjust_spec]. *)
Lemma placed_step i node res res' sp (st st' : Cluster * gmap string (gset nat)) :
  run_ok st → unit_request i res → (node < n)%nat → try i node res st = (res', Ok (sp, st')) →
  run_ok st' ∧ takes node (replica_load (unit_required i) tee plat res) res st.1 st'.1
  ∧ st'.2 = add_claim (unit_group i) node st.2
  ∧ (unit_group i ≠ EmptyString → claimed (unit_group i) node st.2 = false)
  ∧ (unit_required i = true → ∃ nd, cl_Nodes st.1 !! node = Some nd
       ∧ interconnectCapsSuitable (nd_Capabilities nd) fabric = true).
Proof.
  intros Hok Hreq Hn Htry.
  pose proof (try_unit_ok i node res st Hreq Hok Hn) as [_ Hok']. rewrite Htry in Hok'. cbn in Hok'.
  destruct st as [c gc], st' as [c' gc']. rewrite try_unit_eq in Htry. destruct Hok as [Hok Hlen]. cbn [fst snd] in *.
  pose proof (tryAdjust_spec tee plat fabric (unit_required i) (unit_group i) node res c gc Hok
    ltac:(lia) (unit_request_valid _ _ Hreq)) as [_ Hout].
  rewrite Htry in Hout. cbn in Hout. naive_solver.
Qed.

Lemma placed_accounts st tr st' :
  placed st tr st' → run_ok st → run_ok st' ∧ accounts unit_cost unit_class_cost tr st.1 st'.1.
Proof.
  intros Hp Hok. induction Hp as [|tr s1 i node res res' sp s2 Hp IH HI Hreq Hi Hn Htry].
  { split; [done|]. apply accounts_nil. }
  destruct IH as [_ Hacc].
  pose proof (placed_step i node res res' sp s1 s2 HI Hreq Hn Htry) as (Hok2 & Ht & _).
  split; [done|].
  eapply accounts_step; [done..| |]; intros; [by apply replica_load_eq|by apply class_load_eq].
Qed.

(** ** Interconnect groups *)

(** Two replicas of the same (named) interconnect group are never on the same
    node. *)
Definition separated (tr : list placement) : Prop :=
  ∀ a b p q, tr !! a = Some p → tr !! b = Some q → a ≠ b →
    unit_group p.1 = unit_group q.1 → unit_group p.1 ≠ EmptyString → p.2 ≠ q.2.

(** The claims are the nodes the group already has replicas on. *)
Definition claims_of (tr : list placement) (gc : gmap string (gset nat)) : Prop :=
  ∀ g k, g ≠ EmptyString →
    claimed g k gc = true ↔ ∃ p, p ∈ tr ∧ unit_group p.1 = g ∧ p.2 = k.

Lemma claimed_add g g' k k' gc :
  g ≠ EmptyString →
  claimed g k (add_claim g' k' gc) = true ↔ claimed g k gc = true ∨ (g' = g ∧ k' = k).
Proof.
  intros Hg. unfold claimed, add_claim. rewrite !bool_decide_eq_true.
  destruct (String.eqb_spec g' EmptyString) as [->|Hg'].
  { split; [by left|]. intros [?|[<- _]]; done. }
  destruct (decide (g = g')) as [->|Hne].
  - rewrite lookup_insert_eq. cbn. rewrite elem_of_union, elem_of_singleton. naive_solver.
  - rewrite lookup_insert_ne by done. naive_solver.
Qed.

Lemma claims_step tr gc i node :
  claims_of tr gc → claims_of (tr ++ [(i, node)]) (add_claim (unit_group i) node gc).
Proof.
  intros Hc g k Hg. rewrite claimed_add by done. rewrite (Hc g k Hg). split.
  - intros [(p & ? & ? & ?)|[<- <-]].
    + exists p. rewrite elem_of_app. by split_and!; [left|..].
    + exists (i, node). rewrite elem_of_app. split_and!; [right; by apply list_elem_of_singleton|done..].
  - intros (p & Hp & ? & ?). apply elem_of_app in Hp as [Hp|Hp%list_elem_of_singleton].
    + left. eauto.
    + right. subst p. by split.
Qed.

Lemma separated_step tr gc i node :
  claims_of tr gc → separated tr →
  (unit_group i ≠ EmptyString → claimed (unit_group i) node gc = false) →
  separated (tr ++ [(i, node)]).
Proof.
  intros Hc Hs Hfree a b p q Ha Hb Hne Hg Hg0 Hnode.
  assert (∀ p', p' ∈ tr → unit_group p'.1 = unit_group i → unit_group i ≠ EmptyString → p'.2 ≠ node) as Hnew.
  { intros p' Hp' Hgp Hgi Hpn. specialize (Hfree Hgi).
    assert (claimed (unit_group i) node gc = true) by (apply Hc; eauto). congruence. }
  apply lookup_app_Some in Ha as [Ha|[Hla Ha]]; apply lookup_app_Some in Hb as [Hb|[Hlb Hb]].
  - by apply (Hs a b p q).
  - apply list_lookup_singleton_Some in Hb as [Hb <-]. cbn in *.
    eapply Hnew; eauto using list_elem_of_lookup_2. congruence.
  - apply list_lookup_singleton_Some in Ha as [Ha <-]. cbn in *.
    eapply (Hnew q); eauto using list_elem_of_lookup_2.
  - apply list_lookup_singleton_Some in Ha as [Ha _]. apply list_lookup_singleton_Some in Hb as [Hb _]. lia.
Qed.

(** Every replica that asks for interconnect is on a node that has it, on the
    fabric the order pins. *)
Definition suited (c : Cluster) (tr : list placement) : Prop :=
  ∀ p, p ∈ tr → unit_required p.1 = true →
    ∃ nd, cl_Nodes c !! p.2 = Some nd ∧ interconnectCapsSuitable (nd_Capabilities nd) fabric = true.

Lemma placed_groups st tr st' :
  placed st tr st' → run_ok st → st.2 = ∅ →
  claims_of tr st'.2 ∧ separated tr ∧ suited st.1 tr.
Proof.
  intros Hp Hok Hempty. induction Hp as [|tr s1 i node res res' sp s2 Hp IH HI Hreq Hi Hn Htry].
  { split_and!.
    - intros g k _. unfold claimed. rewrite Hempty, lookup_empty. cbn.
      rewrite bool_decide_eq_true. split; [set_solver|]. intros (p & Hp & _). by apply elem_of_nil in Hp.
    - intros ? ? ? ? Ha. by rewrite lookup_nil in Ha.
    - intros p Hp. by apply elem_of_nil in Hp. }
  destruct IH as (Hc & Hs & Hsuit).
  pose proof (placed_step i node res res' sp s1 s2 HI Hreq Hn Htry) as (_ & _ & Hcl & Hfree & Hcaps).
  rewrite Hcl. split_and!.
  - by apply claims_step.
  - by eapply separated_step.
  - intros p Hp' Hr. apply elem_of_app in Hp' as [Hp'|Hp'%list_elem_of_singleton]; [by apply Hsuit|].
    subst p. cbn in *. destruct (Hcaps Hr) as (nd1 & Hnd1 & Hsuitable).
    destruct (placed_accounts _ _ _ Hp Hok) as [_ (Hlen & Hacc & _)].
    destruct (lookup_lt_is_Some_2 (cl_Nodes st.1) node) as [nd Hnd].
    { rewrite <- Hlen. by eapply lookup_lt_Some. }
    destruct (Hacc node nd Hnd) as (nd' & Hnd' & _ & Hcap & _). simplify_eq.
    exists nd. split; [done|]. congruence.
Qed.

End run.
End accounts.

(** ** The properties of [Adjust] *)

Section inventory_properties.
Context `{GoUnicode} `{PairLaws} `{ChainSdk}.

(** A plan for the units of a reservation: every replica is on a node, the
    resources of nodes and storage classes are accounted for and not
    over-committed, and interconnect is honoured. *)
Record fits (cfg : InventoryOptions) (fabric : string) (units : list ResourceUnit)
  (tr : list placement) (c c' : Cluster) : Prop := {
  fits_range : Forall (λ p, (p.1 < List.length units)%nat ∧ (p.2 < List.length (cl_Nodes c))%nat) tr;
  fits_all : ∀ i u, units !! i = Some u → count_of i tr = ru_Count u;
  fits_accounts : accounts (unit_cost cfg units) (unit_class_cost units) tr c c';
  fits_ok : cluster_ok c';
  fits_separated : separated units tr;
  fits_suited : suited fabric units c tr
}.

(** What a reservation gets: the units it asked for, up to the GPU attributes. *)
Definition allocated_for (units allocated : list ResourceUnit) : Prop :=
  List.length allocated = List.length units ∧
  ∀ i u a, units !! i = Some u → allocated !! i = Some a →
    same_request (ru_Resources u) (ru_Resources a) ∧ ru_Count a = ru_Count u.

Lemma adjust_fits (inv : inventory) (rsv : ReservationGroup) (opts : list InventoryOption)
  (Hok : cluster_ok (inv_sanitized inv))
  (Hvalid : Forall (λ u, valid_request (ru_Resources u)) (GetResourceUnits (rg_Resources rsv))) :
  ∃ e inv' rsv', Adjust inv rsv opts = Some (Ret (e, inv', rsv')) ∧
  match e with
  | Some _ => inv' = inv ∧ rsv' = rsv
  | None =>
      let cfg := apply_options opts in
      let units := GetResourceUnits (rg_Resources rsv) in
      ∃ tr c',
        fits cfg (PlacementRequiredFabric (rg_Resources rsv)).1 units tr (inv_sanitized inv) c'
        ∧ inv_Cluster inv' = inv_Cluster inv
        ∧ inv_sanitized inv' = (if opt_DryRun cfg then inv_sanitized inv else c')
        ∧ rg_Resources rsv' = rg_Resources rsv ∧ allocated_for units (rg_Allocated rsv')
  end.
Proof.
  unfold Adjust. cbv zeta. cbn [inv_Cluster sanitizedDup].
  set (units := GetResourceUnits _) in *. set (cfg := apply_options opts). set (fabric := (PlacementRequiredFabric _).1).
  destruct (interconnect_flags units) as [flags|e] eqn:Hfl; [|by eexists _, _, _; split].
  set (n := List.length _).
  destruct (adjust_loop_spec (try_unit cfg fabric flags) units n (unit_request units) (run_ok n)
    (unit_request_orig units) (try_unit_ok cfg fabric units flags n Hfl Hvalid) (inv_sanitized inv, ∅))
    as (r & Hr & Hspec); [by split|].
  rewrite Hr. destruct r as [[[[c' gc'] adj] cparams]|e]; [|by eexists _, _, _; split].
  destruct Hspec as (tr & Hp & Hcount & Hadj).
  destruct (placed_accounts cfg fabric units flags n Hfl Hvalid _ _ _ Hp) as [[Hok' _] Hacc]; [by split|].
  destruct (placed_groups cfg fabric units flags n Hfl Hvalid _ _ _ Hp) as (_ & Hsep & Hsuit); [by split|done|].
  eexists _, _, _. split; [done|]. exists tr, c'. split; [constructor; try done; by eapply placed_range|].
  split; [by destruct (opt_DryRun cfg)|]. split; [by destruct (opt_DryRun cfg)|]. split; [done|].
  destruct Hadj as [Hlen Hadj]. split; [done|]. intros i u a Hu Ha.
  destruct (Hadj i a u Ha Hu) as [(u' & Hu' & Hs) ?]. by simplify_eq.
Qed.

(** Claim C1.  [Adjust] always returns (its loop ends within the fuel and no
    call in it panics).  When it returns an error it changes neither the
    inventory nor the reservation.  When it returns nil there is a plan that
    places exactly the requested number of replicas of every unit such that,
    for every node and every kind of resource, what was available is what is
    now available plus the load of the replicas placed there, and likewise for
    every storage class; nothing is over-committed; replicas of one
    interconnect group are on distinct nodes, and those that ask for
    interconnect on nodes that have it on the pinned fabric.  The new state is
    stored in the sanitized copy, unless it is a dry run, and the raw cluster
    is never changed. *)
Theorem adjust_accounts (inv : inventory) (rsv : ReservationGroup) (opts : list InventoryOption)
  (Hok : cluster_ok (inv_sanitized inv))
  (Hvalid : Forall (λ u, valid_request (ru_Resources u)) (GetResourceUnits (rg_Resources rsv))) :
  ∃ e inv' rsv', Adjust inv rsv opts = Some (Ret (e, inv', rsv')) ∧
  match e with
  | Some _ => inv' = inv ∧ rsv' = rsv
  | None =>
      let cfg := apply_options opts in
      let units := GetResourceUnits (rg_Resources rsv) in
      ∃ tr c',
        fits cfg (PlacementRequiredFabric (rg_Resources rsv)).1 units tr (inv_sanitized inv) c'
        ∧ inv_Cluster inv' = inv_Cluster inv
        ∧ inv_sanitized inv' = (if opt_DryRun cfg then inv_sanitized inv else c')
        ∧ rg_Resources rsv' = rg_Resources rsv ∧ allocated_for units (rg_Allocated rsv')
  end.
Proof. exact (adjust_fits inv rsv opts Hok Hvalid). Qed.

End inventory_properties.
