(* ===== verification/InventoryMetrics.v ===== *)
(** * Inventory metrics

    The totals [Metrics] reports, and what a committed [Adjust] does to them. *)
From S2P Require Import Prelude GoStrings ChainTypes ClusterTypes Inventory InventoryLoop InventorySound.

Open Scope Z_scope.

Definition metric (d : dim) (m : ResourcesMetric) : Z :=
  match d with
  | DCpu => rm_CPU m
  | DMemory => rm_Memory m
  | DGpu => rm_GPU m
  | DEphemeral => rm_StorageEphemeral m
  | DInterconnect => 0
  end.

Lemma metric_add d t m : d ≠ DInterconnect → metric d (add_metric t m) = u64 (metric d t + metric d m).
Proof. by destruct d. Qed.

Lemma u64_idem z : u64 (u64 z) = u64 z.
Proof. unfold u64. apply Z.mod_mod. lia. Qed.

Lemma u64_add a b : u64 (u64 a + u64 b) = u64 (a + b).
Proof. unfold u64. by rewrite <- Z.add_mod. Qed.

Lemma u64_add_r a b : u64 (a + u64 b) = u64 (a + b).
Proof. unfold u64. by rewrite Z.add_mod_idemp_r. Qed.

Lemma fold_metrics d ms t :
  d ≠ DInterconnect → u64 (metric d t) = metric d t →
  metric d (foldl add_metric t ms) = u64 (metric d t + sum_Z (map (metric d) ms)).
Proof.
  intros Hd. revert t. induction ms as [|m ms IH]; intros t Ht; cbn [foldl map]; unfold sum_Z; cbn [foldr].
  { by rewrite Z.add_0_r. }
  rewrite IH; [|by rewrite metric_add, u64_idem by done]. rewrite metric_add by done.
  fold (sum_Z (map (metric d) ms)).
  rewrite (Z.add_comm (u64 _)), u64_add_r. f_equal. lia.
Qed.

Section metrics.
Context `{GoUnicode} `{PairLaws} `{ChainSdk}.

Definition total_avail (c : Cluster) (d : dim) : Z :=
  sum_Z (map (λ nd, nr_avail (nd_Resources nd) d) (cl_Nodes c)).

Lemma node_metrics_avail nd m d :
  d ≠ DInterconnect → node_metrics nd = Ret m → metric d (nm_Available m) = u64 (nr_avail (nd_Resources nd) d).
Proof.
  intros Hd. unfold node_metrics. intros E.
  repeat (apply obind_ret in E as (? & _ & E)). injection E as <-. by destruct d.
Qed.

Lemma all_node_metrics_avail nds ms d :
  d ≠ DInterconnect → all_node_metrics nds = Ret ms →
  u64 (sum_Z (map (metric d) (map nm_Available ms))) = u64 (sum_Z (map (λ nd, nr_avail (nd_Resources nd) d) nds)).
Proof.
  intros Hd. revert ms. induction nds as [|nd nds IH]; intros ms; cbn [all_node_metrics].
  { by intros [= <-]. }
  intros E. apply obind_ret in E as (m & Em & E). apply obind_ret in E as (l & El & [= <-]).
  unfold sum_Z. cbn [map foldr]. fold (sum_Z (map (metric d) (map nm_Available l))).
  fold (sum_Z (map (λ nd, nr_avail (nd_Resources nd) d) nds)).
  rewrite (node_metrics_avail nd m d Hd Em), <- u64_add, u64_idem, (IH l El), u64_add. done.
Qed.

(** The reported total is the sum of what is available on the nodes, modulo
    the width of the counter. *)
Lemma cluster_metrics_total c m d :
  d ≠ DInterconnect → cluster_metrics c = Ret m →
  metric d (mt_Resources (met_TotalAvailable m)) = u64 (total_avail c d).
Proof.
  intros Hd. unfold cluster_metrics. intros E. apply obind_ret in E as (ms & Ems & E).
  apply obind_ret in E as (st & _ & [= <-]). cbn [met_TotalAvailable mt_Resources].
  rewrite fold_metrics by (done || by destruct d).
  replace (metric d (MkRM 0 0 0 0)) with 0 by by destruct d. rewrite Z.add_0_l.
  by apply all_node_metrics_avail.
Qed.

(** The load of all placements, by unit. *)
Definition total_request (cfg : InventoryOptions) (units : list ResourceUnit) (d : dim) : Z :=
  sum_Z (map (λ u, Z.of_nat (ru_Count u) * unit_load (opt_TEEType cfg) (opt_TEEPlatform cfg) (ru_Resources u) d) units).

Lemma sum_Z_zero {A} (f : A → Z) l : (∀ x, x ∈ l → f x = 0) → sum_Z (map f l) = 0.
Proof.
  induction l as [|x l IH]; intros Hf; [done|]. unfold sum_Z in *. cbn.
  rewrite (Hf x), IH; [done| |apply list_elem_of_here]. intros. apply Hf. by apply list_elem_of_further.
Qed.

Lemma sum_Z_add {A} (f g : A → Z) l : sum_Z (map (λ x, f x + g x) l) = sum_Z (map f l) + sum_Z (map g l).
Proof. induction l as [|x l IH]; [done|]. unfold sum_Z in *. cbn. lia. Qed.

(** A sum over indices in which exactly one index counts. *)
Lemma sum_Z_one (k n : nat) (v : Z) s :
  (s ≤ k < s + n)%nat → sum_Z (map (λ j, if decide (k = j) then v else 0) (seq s n)) = v.
Proof.
  revert s. induction n as [|n IH]; intros s Hk; [lia|]. unfold sum_Z in *. cbn.
  case_decide as E.
  - subst s. fold (sum_Z (map (λ j, if decide (k = j) then v else 0) (seq (S k) n))).
    rewrite sum_Z_zero; [lia|]. intros j Hj. apply elem_of_seq in Hj. by rewrite decide_False by lia.
  - rewrite IH by lia. lia.
Qed.

(** Summing over nodes and over units counts every placement once. *)
Lemma load_on_total cfg units tr n d :
  Forall (λ p, (p.2 < n)%nat) tr →
  sum_Z (map (λ k, load_on (unit_cost cfg units) tr k d) (seq 0 n)) = sum_Z (map (λ p, unit_cost cfg units p.1 d) tr).
Proof.
  intros Hr. induction Hr as [|p tr Hp Hr IH].
  { apply sum_Z_zero. done. }
  etransitivity; [exact (sum_Z_add (λ k, if decide (p.2 = k) then unit_cost cfg units p.1 d else 0)
                           (λ k, load_on (unit_cost cfg units) tr k d) (seq 0 n))|].
  rewrite IH, sum_Z_one by lia. done.
Qed.

Lemma unit_cost_total cfg units tr d :
  Forall (λ p, (p.1 < List.length units)%nat) tr →
  sum_Z (map (λ p, unit_cost cfg units p.1 d) tr)
  = sum_Z (map (λ i, Z.of_nat (count_of i tr) * unit_cost cfg units i d) (seq 0 (List.length units))).
Proof.
  intros Hr. induction Hr as [|p tr Hp Hr IH].
  { symmetry. apply sum_Z_zero. done. }
  etransitivity; [|symmetry; etransitivity; [|exact
    (sum_Z_add (λ j, if decide (p.1 = j) then unit_cost cfg units p.1 d else 0)
       (λ i, Z.of_nat (count_of i tr) * unit_cost cfg units i d) (seq 0 (List.length units)))]].
  - rewrite sum_Z_one, <- IH by lia. done.
  - f_equal. apply map_ext. intros j. unfold count_of. rewrite filter_cons.
    case_decide as E; [subst j|]; cbn [List.length]; lia.
Qed.

Lemma map_seq_lookup {A} (f : A → Z) (l : list A) :
  map (λ i, default 0 (f <$> l !! i)) (seq 0 (List.length l)) = map f l.
Proof.
  apply list_eq. intros i. rewrite !list_lookup_fmap.
  destruct (decide (i < List.length l)%nat) as [Hi|Hi].
  - rewrite lookup_seq_lt by done. cbn. destruct (lookup_lt_is_Some_2 _ _ Hi) as [x Hx]. by rewrite Hx.
  - rewrite lookup_seq_ge, (lookup_ge_None_2 l) by lia. done.
Qed.

Lemma fits_total cfg fabric units tr c c' d :
  fits cfg fabric units tr c c' → total_avail c d = total_avail c' d + total_request cfg units d.
Proof.
  intros [Hr Hall (Hlen & Hacc & _) _ _ _].
  assert (total_request cfg units d = sum_Z (map (λ p, unit_cost cfg units p.1 d) tr)) as ->.
  { rewrite unit_cost_total by (eapply Forall_impl; [exact Hr|naive_solver]).
    unfold total_request. rewrite <- map_seq_lookup. f_equal. apply map_ext_in.
    intros i Hi. unfold unit_cost. destruct (units !! i) as [u|] eqn:Hu; cbn; [|lia].
    by rewrite (Hall i u Hu). }
  rewrite <- (load_on_total cfg units tr (List.length (cl_Nodes c)) d)
    by (eapply Forall_impl; [exact Hr|naive_solver]).
  unfold total_avail.
  rewrite <- (map_seq_lookup (λ nd, nr_avail (nd_Resources nd) d) (cl_Nodes c)).
  rewrite <- (map_seq_lookup (λ nd, nr_avail (nd_Resources nd) d) (cl_Nodes c')), Hlen, <- sum_Z_add.
  f_equal. apply map_ext_in. intros k Hk. apply in_seq in Hk.
  destruct (lookup_lt_is_Some_2 (cl_Nodes c) k) as [nd Hnd]; [lia|].
  destruct (Hacc k nd Hnd) as (nd' & Hnd' & _ & _ & Hd). rewrite Hnd, Hnd'. cbn. apply Hd.
Qed.

(** A committed [Adjust] moves the reported totals by exactly what
    was reserved: for CPU, memory, GPU and ephemeral storage, the total
    available before is the total available after plus the replicas' load,
    sidecars included (modulo 2^64, the width of the counters). *)
Theorem metrics_after_adjust (inv inv' : inventory) (rsv rsv' : ReservationGroup)
  (opts : list InventoryOption) (m m' : InvMetrics) (d : dim)
  (Hd : d ≠ DInterconnect)
  (Hok : cluster_ok (inv_sanitized inv))
  (Hvalid : Forall (λ u, valid_request (ru_Resources u)) (GetResourceUnits (rg_Resources rsv)))
  (Hdry : opt_DryRun (apply_options opts) = false)
  (Hadj : Adjust inv rsv opts = Some (Ret (None, inv', rsv')))
  (Hm : Metrics inv = Ret m) (Hm' : Metrics inv' = Ret m') :
  metric d (mt_Resources (met_TotalAvailable m))
  = u64 (metric d (mt_Resources (met_TotalAvailable m'))
         + total_request (apply_options opts) (GetResourceUnits (rg_Resources rsv)) d).
Proof.
  destruct (adjust_fits inv rsv opts Hok Hvalid) as (e & i & r & E & Hspec).
  rewrite Hadj in E. injection E as <- <- <-. cbv zeta in Hspec. rewrite Hdry in Hspec.
  destruct Hspec as (tr & c' & Hfits & _ & Hc' & _).
  rewrite (cluster_metrics_total _ _ _ Hd Hm), (cluster_metrics_total _ _ _ Hd Hm').
  cbn [sanitizedDup inv_Cluster]. rewrite Hc', (fits_total _ _ _ _ _ _ d Hfits).
  by rewrite Z.add_comm, <- u64_add_r, Z.add_comm.
Qed.

End metrics.
