(* ===== verification/NullInventory.v ===== *)
(** * The null inventory

    [cluster/types/v1beta3/clients/inventory/inventory.go]: the inventory of
    the client that has no cluster behind it.  Its [Adjust] is the loop of the
    cluster inventory around a [tryAdjust] without interconnect; its [Commit]
    takes resources from the first node, and its subscribers receive the
    cluster after every commit, in order. *)
From S2P Require Import Prelude GoStrings ChainTypes ClusterTypes Inventory InventoryLoop InventorySound.

Open Scope string_scope.
Open Scope go_scope.

(** [inventoryV1.NewResourcePair(Milli)] and [unit.Gi]. *)
Class NewPairs `{Quantities} := {
  NewResourcePair : Z → Z → Z → ResourcePair;
  NewResourcePairMilli : Z → Z → Z → ResourcePair;
  Gi : Z
}.

Section null.
Context `{GoUnicode} `{PairOps} `{ChainSdk}.

(** ** Trying one replica on one node *)

Definition null_tryAdjustCPU : InvCPU → CPU → option InvCPU := tryAdjustCPU.
Definition null_tryAdjustEphemeralStorage : ResourcePair → Storage → option ResourcePair :=
  tryAdjustEphemeralStorage.

(** The interface of a GPU is compared as it is, and there is no runtime class
    for plain nvidia. *)
Definition null_tryAdjustGPU (rp : InvGPU) (res : GPU) (sparams : SchedulerParams)
  (teeType : TEEType) (teePlatform : TEEPlatform) : option (InvGPU * GPU * SchedulerParams) :=
  if (gpu_Units res =? 0)%Z then Some (rp, res, sparams)
  else if (avail (igpu_Quantity rp) =? 0)%Z then None
  else match ParseGPUAttributes (gpu_Attributes res) with
  | Err _ => None
  | Ok attrs =>
      '(info, attr) ← gpu_scan gi_Interface attrs (igpu_Info rp) (gpu_Units res);
      let vendor := ToLower (gi_Vendor info) in
      q ← rp_SubNLZ (igpu_Quantity rp) (gpu_Units res);
      let sparams := stamp_gpu vendor (gi_Name info) sparams in
      let sparams :=
        if IsCC teeType then set_RuntimeClass (RuntimeClassForTEEType teeType teePlatform) sparams
        else sparams in
      Some (MkInvGPU q (igpu_Info rp),
            MkGPU (gpu_Units res) [MkAttr (gpu_key vendor (gi_Name info) attr) "true"],
            sparams)
  end.

Definition null_compute (nd : Node) (res : Resources) (teeType : TEEType) (teePlatform : TEEPlatform)
  : result stop (NodeResources * Resources * SchedulerParams) :=
  let nr := nd_Resources nd in
  let* rcpu := ptr (res_CPU res) in
  let* c := need (null_tryAdjustCPU (nr_CPU nr) rcpu) in
  let nr := set_CPU c nr in
  let* rgpu := ptr (res_GPU res) in
  let* (g, rgpu, sparams) := need (null_tryAdjustGPU (nr_GPU nr) rgpu SParams_zero teeType teePlatform) in
  Ok (set_InvGPU g nr, set_GPU (Some rgpu) res, sparams).

Definition null_tryAdjust (teeType : TEEType) (teePlatform : TEEPlatform)
  (node : nat) (res : Resources) (inv : Cluster)
  : Resources * result stop (option SchedulerParams * Cluster) :=
  match cl_Nodes inv !! node with
  | None => (res, Err Panicked)
  | Some nd =>
      match null_compute nd res teeType teePlatform with
      | Err e => (res, Err e)
      | Ok (nr, res, sparams) =>
          (res,
           let* (nr, classes, sparams) :=
             adjust_memory (nd_Capabilities nd) res nr (cl_Storage inv) teeType teePlatform sparams in
           Ok (non_zero sparams, MkCluster (<[node := set_NodeRes nr nd]> (cl_Nodes inv)) classes))
      end
  end.

Definition null_try (cfg : InventoryOptions) (i node : nat) (res : Resources) (inv : Cluster) :=
  null_tryAdjust (opt_TEEType cfg) (opt_TEEPlatform cfg) node res inv.

Definition null_Adjust (inv : Cluster) (reservation : ReservationGroup) (opts : list InventoryOption)
  : option (outcome (option adjust_error * Cluster * ReservationGroup)) :=
  let cfg := apply_options opts in
  match adjust_loop (null_try cfg) (GetResourceUnits (rg_Resources reservation))
          (List.length (cl_Nodes inv)) inv with
  | None => None
  | Some Panic => Some Panic
  | Some (Ret (Err e)) => Some (Ret (Some e, inv, reservation))
  | Some (Ret (Ok (currInventory, adjustedResources, cparams))) =>
      Some (Ret (None, (if opt_DryRun cfg then inv else currInventory),
                 MkReservation (rg_Resources reservation) adjustedResources (Some cparams)))
  end.

Definition null_Snapshot (inv : Cluster) : Cluster := inv.
Definition null_Metrics (inv : Cluster) : outcome InvMetrics := cluster_metrics inv.

(** ** Commit: each subtraction is attempted on its own, and a refused one
    leaves its pair as it is *)

Definition sub_or_keep (p : ResourcePair) (v : ResourceValue) : ResourcePair := default p (rp_SubNLZ p v).

Fixpoint commit_class (class : string) (v : ResourceValue) (l : list ClusterStorage) : list ClusterStorage :=
  match l with
  | [] => []
  | s :: l =>
      if cs_Class s =? class then MkClusterStorage (cs_Class s) (sub_or_keep (cs_Quantity s) v) :: l
      else s :: commit_class class v l
  end.

Definition commit_volume (st : NodeResources * list ClusterStorage) (vol : Storage)
  : NodeResources * list ClusterStorage :=
  let '(nr, classes) := st in
  let attrs := match ParseStorageAttributes (sto_Attributes vol) with
               | Ok a => a | Err _ => MkStorageAttrs false EmptyString end in
  if negb (sa_Persistent attrs) then
    if sa_Class attrs =? "ram"
    then (set_Memory (sub_or_keep (nr_Memory nr) (sto_Quantity vol)) nr, classes)
    else (set_Ephemeral (sub_or_keep (nr_EphemeralStorage nr) (sto_Quantity vol)) nr, classes)
  else (nr, commit_class (sa_Class attrs) (sto_Quantity vol) classes).

Definition commit_cpu (u : Resources) (nr : NodeResources) : NodeResources :=
  match res_CPU u with
  | Some c => set_CPU (MkInvCPU (sub_or_keep (icpu_Quantity (nr_CPU nr)) (cpu_Units c)) (icpu_Info (nr_CPU nr))) nr
  | None => nr
  end.
Definition commit_gpu (u : Resources) (nr : NodeResources) : NodeResources :=
  match res_GPU u with
  | Some g => set_InvGPU (MkInvGPU (sub_or_keep (igpu_Quantity (nr_GPU nr)) (gpu_Units g)) (igpu_Info (nr_GPU nr))) nr
  | None => nr
  end.
Definition commit_mem (u : Resources) (nr : NodeResources) : NodeResources :=
  match res_Memory u with
  | Some m => set_Memory (sub_or_keep (nr_Memory nr) (mem_Quantity m)) nr
  | None => nr
  end.

Definition commit_unit (st : NodeResources * list ClusterStorage) (u : ResourceUnit)
  : NodeResources * list ClusterStorage :=
  let '(nr, classes) := st in
  let res := ru_Resources u in
  foldl commit_volume (commit_mem res (commit_gpu res (commit_cpu res nr)), classes) (res_Storage res).

(** The commit arm of [run], on the first node. *)
Definition commit (g : ResourceGroup) (c : Cluster) : outcome Cluster :=
  match cl_Nodes c with
  | [] => Panic
  | nd :: nds =>
      let '(nr, classes) := foldl commit_unit (nd_Resources nd, cl_Storage c) (GetResourceUnits g) in
      Ret (MkCluster (set_NodeRes nr nd :: nds) classes)
  end.

End null.

(** ** A new null client *)

Section new_null.
Context `{NewPairs}.

Definition nullClientCPU : Z := 5000.
Definition nullClientGPU : Z := 2.
Definition nullClientMemory : Z := 32 * Gi.
Definition nullClientStorage : Z := 512 * Gi.

(** The pair a struct literal leaves out. *)
Definition zero_pair : ResourcePair := MkPair _ None None None.

Definition null_node (name : string) (gpu : ResourcePair) : Node :=
  MkNode name
    (MkNodeResources
       (MkInvCPU (NewResourcePairMilli nullClientCPU nullClientCPU 100) [])
       (NewResourcePair nullClientMemory nullClientMemory (1 * Gi))
       (MkInvGPU gpu [])
       (NewResourcePair nullClientStorage nullClientStorage (10 * Gi))
       (NewResourcePair 0 0 0) (NewResourcePair 0 0 0) zero_pair)
    (MkCaps [] EmptyString EmptyString []).

Definition NewNull (names : list string) : Cluster :=
  MkCluster
    (match names with
     | [] => [null_node "solo" (NewResourcePair nullClientGPU nullClientGPU 1)]
     | _ => map (λ name, null_node name (NewResourcePair 0 0 0)) names
     end)
    [MkClusterStorage "beta2"
       (NewResourcePair nullClientStorage nullClientStorage (nullClientStorage - 10 * Gi))].

End new_null.

(** ** The subscriber: a queue between the client and one subscriber

    [pending] holds the clusters that are not yet delivered; [out] is the
    message offered on the channel ([och], [msg]), the oldest of them. *)

Section subscriber.
Context {C M : Type} (newInventory : C → M).

Record substate := MkSub { sub_pending : list C; sub_msg : option M }.

Inductive sub_event := Receive (c : C) | Deliver.

(** One arm of the [select]; delivering is possible only when a message is
    offered ([och] is not nil). *)
Definition sub_step (st : substate) (e : sub_event) : option (list M * substate) :=
  match e with
  | Receive c =>
      let pending := (sub_pending st ++ [c])%list in
      Some ([], MkSub pending
        (match sub_msg st with
         | None => newInventory <$> head pending
         | Some m => Some m
         end))
  | Deliver =>
      match sub_msg st with
      | None => None
      | Some m =>
          let pending := tail (sub_pending st) in
          Some ([m], MkSub pending (newInventory <$> head pending))
      end
  end.

Fixpoint sub_run (st : substate) (es : list sub_event) : option (list M * substate) :=
  match es with
  | [] => Some ([], st)
  | e :: es =>
      '(out1, st) ← sub_step st e;
      '(out2, st) ← sub_run st es;
      Some ((out1 ++ out2)%list, st)
  end.

Definition received (es : list sub_event) : list C :=
  omap (λ e, match e with Receive c => Some c | Deliver => None end) es.

Definition sub_inv (st : substate) : Prop := sub_msg st = newInventory <$> head (sub_pending st).

Lemma sub_step_inv st e out st' :
  sub_inv st → sub_step st e = Some (out, st') →
  sub_inv st' ∧ (out ++ (newInventory <$> sub_pending st') =
                 (newInventory <$> sub_pending st) ++ (newInventory <$> received [e]))%list.
Proof.
  unfold sub_inv. intros Hinv. destruct st as [pending msg]. cbn in Hinv. subst msg. destruct e as [c|]; cbn [sub_step].
  - intros [= <- <-]. cbn. rewrite fmap_app. split; [|done]. by destruct pending.
  - cbn. destruct pending as [|p pending]; cbn; [done|]. intros [= <- <-]. cbn. by rewrite app_nil_r.
Qed.

Lemma sub_run_queue st es out st' :
  sub_inv st → sub_run st es = Some (out, st') →
  sub_inv st' ∧ (out ++ (newInventory <$> sub_pending st') =
                 (newInventory <$> sub_pending st) ++ (newInventory <$> received es))%list.
Proof.
  revert st out. induction es as [|e es IH]; intros st out Hinv; cbn [sub_run].
  { intros [= <- <-]. cbn. by rewrite app_nil_r. }
  destruct (sub_step st e) as [[out1 st1]|] eqn:E1; cbn; [|done].
  destruct (sub_run st1 es) as [[out2 st2]|] eqn:E2; cbn; [|done]. intros [= <- <-].
  apply sub_step_inv in E1 as [Hinv1 Hq1]; [|done]. apply IH in E2 as [Hinv2 Hq2]; [|done].
  split; [done|]. rewrite <- app_assoc, Hq2, app_assoc, Hq1, <- app_assoc, <- fmap_app.
  unfold received. by rewrite <- omap_app.
Qed.

(** A subscriber receives the inventory of every cluster it was sent,
    each exactly once and in order: at any time what was delivered followed by
    what is pending is everything that was sent, and a message is on offer
    exactly when something is pending. *)
Theorem subscriber_fifo (es : list sub_event) (out : list M) (st : substate)
  (Hrun : sub_run (MkSub [] None) es = Some (out, st)) :
  (out ++ (newInventory <$> sub_pending st) = newInventory <$> received es)%list
  ∧ (is_Some (sub_msg st) ↔ sub_pending st ≠ []).
Proof.
  apply sub_run_queue in Hrun as [Hinv Hq]; [|done]. split; [done|].
  rewrite Hinv. destruct (sub_pending st); cbn; split; try done; by intros [].
Qed.

End subscriber.

(** ** The null inventory never over-commits *)

Open Scope nat_scope.

Section null_facts.
Context `{GoUnicode} `{PairLaws} `{ChainSdk}.

Lemma null_tryAdjustGPU_spends caps nr res sp tee plat g res' sp' :
  nr_ok caps nr → (0 ≤ gpu_Units res)%Z →
  null_tryAdjustGPU (nr_GPU nr) res sp tee plat = Some (g, res', sp') →
  spends caps (at_dim DGpu (gpu_Units res)) nr (set_InvGPU g nr) ∧ gpu_Units res' = gpu_Units res
  ∧ (IsCC tee = true → sp_RuntimeClass sp = EmptyString →
     sp_RuntimeClass sp' = EmptyString ∨ sp_RuntimeClass sp' = RuntimeClassForTEEType tee plat).
Proof.
  intros Hok Hv. unfold null_tryAdjustGPU. destruct (Z.eqb_spec (gpu_Units res) 0) as [Hz|Hz].
  { intros [= <- <- <-]. split_and!; [|done|by left]. rewrite Hz.
    replace (set_InvGPU (nr_GPU nr) nr) with nr by by destruct nr.
    eapply spends_ext; [|by apply spends_refl]. intros d. unfold at_dim, load_zero. by case_decide. }
  destruct (avail _ =? 0)%Z; [done|].
  destruct (ParseGPUAttributes _) as [attrs|]; [|done].
  destruct (gpu_scan _ _ _ _) as [[info attr]|]; cbn; [|done].
  destruct (rp_SubNLZ _ _) as [q|] eqn:E; cbn; [|done]. intros [= <- <- <-].
  split_and!; [by apply spends_gpu|done|]. intros -> _. by right.
Qed.

Lemma null_compute_spec nd res tee plat :
  nr_ok (nd_Capabilities nd) (nd_Resources nd) → valid_request res →
  match null_compute nd res tee plat with
  | Ok (nr, res', sp) =>
      spends (nd_Capabilities nd) (compute_load false res) (nd_Resources nd) nr
      ∧ same_request res res'
      ∧ (IsCC tee = true → sp_RuntimeClass sp = EmptyString ∨ sp_RuntimeClass sp = RuntimeClassForTEEType tee plat)
  | Err e => e ≠ Panicked
  end.
Proof.
  intros Hok ((rc & Hrc & Hc0) & _ & (rg & Hrg & Hg0) & _). unfold null_compute.
  rewrite Hrc, Hrg. cbn [ptr rbind].
  destruct (null_tryAdjustCPU _ _) as [c|] eqn:Ec; [|done]. cbn [need rbind].
  apply (tryAdjustCPU_spends _ _ _ _ Hok Hc0) in Ec as Hs1.
  destruct (null_tryAdjustGPU _ _ _ _ _) as [[[g rg'] sp']|] eqn:Eg; [|done]. cbn [need rbind].
  apply (null_tryAdjustGPU_spends (nd_Capabilities nd)) in Eg as (Hs3 & Hgu' & Hrc'); [|apply Hs1|lia].
  split_and!.
  - eapply spends_ext; [|eapply spends_trans; [exact Hs1|exact Hs3]].
    intros d. unfold compute_load, load_add, gpu_units. rewrite Hrc, Hrg. cbn.
    assert (at_dim DInterconnect 0 d = 0%Z) as -> by (unfold at_dim; by case_decide). lia.
  - split; [done|]. cbn. rewrite Hrg. cbn. by rewrite Hgu'.
  - intros Hcc. by apply Hrc'.
Qed.

(** One replica without interconnect. *)
Definition null_load (tee : TEEType) (plat : TEEPlatform) (res : Resources) : load :=
  replica_load false tee plat res.

Lemma null_tryAdjust_spec tee plat node res c :
  cluster_ok c → node < List.length (cl_Nodes c) → valid_request res →
  let out := null_tryAdjust tee plat node res c in
  same_request res out.1 ∧
  match out.2 with
  | Ok (sp, c') => cluster_ok c' ∧ takes node (null_load tee plat res) res c c'
  | Err e => e ≠ Panicked
  end.
Proof.
  intros [Hnodes Hst] Hlt Hv. unfold null_tryAdjust. cbv zeta.
  destruct (lookup_lt_is_Some_2 _ _ Hlt) as [nd Hnd]. rewrite Hnd.
  pose proof (Forall_lookup_1 _ _ _ _ Hnodes Hnd) as Hnd_ok.
  pose proof (null_compute_spec nd res tee plat Hnd_ok Hv) as Hc.
  destruct (null_compute _ _ _ _) as [[[nr res'] sp]|e]; [|done].
  destruct Hc as (Hs1 & Hsame & Hrc). split; [done|]. cbn [snd].
  pose proof (adjust_memory_spec (nd_Capabilities nd) res' nr (cl_Storage c) tee plat sp
    (proj1 Hs1) Hst (same_request_valid _ _ Hsame Hv) Hrc) as Hm.
  destruct (adjust_memory _ _ _ _ _ _ _) as [[[nr' classes'] sp']|e]; [|done]. cbn [rbind].
  destruct Hm as (Hs2 & Hst' & Hmap & Hk). split.
  - split; [|done]. cbn. apply Forall_insert; [done|]. apply Hs2.
  - by apply (takes_intro node nd nr nr' (compute_load false res) tee plat res res').
Qed.

Section null_run.
Context (cfg : InventoryOptions) (units : list ResourceUnit) (n : nat).
Hypothesis Hvalid : Forall (λ u, valid_request (ru_Resources u)) units.

Definition null_run_ok (c : Cluster) : Prop := cluster_ok c ∧ List.length (cl_Nodes c) = n.
Definition null_cost (i : nat) (d : dim) : Z :=
  default 0%Z ((λ u, null_load (opt_TEEType cfg) (opt_TEEPlatform cfg) (ru_Resources u) d) <$> units !! i).

Lemma null_try_ok i node res c :
  unit_request units i res → null_run_ok c → node < n →
  unit_request units i (null_try cfg i node res c).1 ∧
  match (null_try cfg i node res c).2 with
  | Ok (_, c') => null_run_ok c'
  | Err Panicked => False
  | Err _ => True
  end.
Proof.
  intros Hreq [Hok Hlen] Hn.
  pose proof (null_tryAdjust_spec (opt_TEEType cfg) (opt_TEEPlatform cfg) node res c Hok
    ltac:(lia) (unit_request_valid units Hvalid _ _ Hreq)) as [Hsame Hout].
  unfold null_try. split.
  - destruct Hreq as (u & Hu & Hs). exists u. split; [done|]. by eapply same_request_trans.
  - destruct (null_tryAdjust _ _ _ _ _).2 as [[sp c']|[]]; try done.
    destruct Hout as (? & Ht). split; [done|]. by rewrite (takes_length _ _ _ _ _ Ht).
Qed.

Lemma null_cost_eq i res d :
  unit_request units i res → null_load (opt_TEEType cfg) (opt_TEEPlatform cfg) res d = null_cost i d.
Proof.
  intros (u & Hu & Hs). unfold null_cost. rewrite Hu. cbn. symmetry. by apply replica_load_same.
Qed.

Lemma null_placed_accounts c tr c' :
  placed (null_try cfg) units n (unit_request units) null_run_ok c tr c' → null_run_ok c →
  null_run_ok c' ∧ accounts null_cost (unit_class_cost units) tr c c'.
Proof.
  intros Hp Hok. induction Hp as [|tr s1 i node res res' sp s2 Hp IH HI Hreq Hi Hn Htry].
  { split; [done|]. apply accounts_nil. }
  destruct IH as [_ Hacc]. destruct HI as [HI Hlen].
  pose proof (null_tryAdjust_spec (opt_TEEType cfg) (opt_TEEPlatform cfg) node res s1 HI
    ltac:(lia) (unit_request_valid units Hvalid _ _ Hreq)) as [_ Hout].
  unfold null_try in Htry. rewrite Htry in Hout. cbn [snd] in Hout. destruct Hout as [Hok2 Ht].
  split; [split; [done|]; by rewrite (takes_length _ _ _ _ _ Ht)|].
  eapply accounts_step; [done..| |]; intros; [by apply null_cost_eq|by apply class_load_eq].
Qed.

End null_run.

(** The null inventory's [Adjust] always returns; an error changes
    nothing; nil comes with a plan that places every replica and accounts for
    every node and storage class, over-committing nothing, and the inventory
    becomes that cluster unless it is a dry run. *)
Theorem null_adjust_accounts (inv : Cluster) (rsv : ReservationGroup) (opts : list InventoryOption)
  (Hok : cluster_ok inv)
  (Hvalid : Forall (λ u, valid_request (ru_Resources u)) (GetResourceUnits (rg_Resources rsv))) :
  ∃ e inv' rsv', null_Adjust inv rsv opts = Some (Ret (e, inv', rsv')) ∧
  match e with
  | Some _ => inv' = inv ∧ rsv' = rsv
  | None =>
      let cfg := apply_options opts in
      let units := GetResourceUnits (rg_Resources rsv) in
      ∃ tr c',
        Forall (λ p, p.1 < List.length units ∧ p.2 < List.length (cl_Nodes inv)) tr
        ∧ (∀ i u, units !! i = Some u → count_of i tr = ru_Count u)
        ∧ accounts (null_cost cfg units) (unit_class_cost units) tr inv c' ∧ cluster_ok c'
        ∧ inv' = (if opt_DryRun cfg then inv else c')
        ∧ rg_Resources rsv' = rg_Resources rsv ∧ allocated_for units (rg_Allocated rsv')
  end.
Proof.
  unfold null_Adjust. cbv zeta. set (units := GetResourceUnits _) in *. set (cfg := apply_options opts).
  set (n := List.length _).
  destruct (adjust_loop_spec (null_try cfg) units n (unit_request units) (null_run_ok n)
    (unit_request_orig units) (null_try_ok cfg units n Hvalid) inv) as (r & Hr & Hspec); [by split|].
  rewrite Hr. destruct r as [[[c' adj] cparams]|e]; [|by eexists _, _, _; split].
  destruct Hspec as (tr & Hp & Hcount & Hlen & Hadj).
  destruct (null_placed_accounts cfg units n Hvalid _ _ _ Hp) as [[Hok' _] Hacc]; [by split|].
  eexists _, _, _. split; [done|]. exists tr, c'. split; [by eapply placed_range|].
  do 6 (split; [done|]). intros i u a Hu Ha.
  destruct (Hadj i a u Ha Hu) as [(u' & Hu' & Hs) ?]. by simplify_eq.
Qed.

End null_facts.
