(* ===== verification/GpuRequest.v ===== *)
(** * GPU requests

    [tryAdjustGPU] replaces the attributes of the request by a single one that
    names the vendor and the model it picked.  This file shows that the new
    attribute is read back by [ParseGPUAttributes] as exactly that choice, so
    that the narrowed request makes every later replica pick the same model
    with the same scheduler parameters. *)
From Stdlib Require Import Ascii.
From S2P Require Import Prelude GoStrings ChainTypes ClusterTypes Inventory.

Open Scope string_scope.

Definition no_slash (s : string) : bool := str_forall (λ c, negb (c =? "/")%char) s.

Lemma Split_app a b : no_slash a = true → Split (a +:+ String "/" b) "/" = a :: Split b "/".
Proof. intros Ha. unfold Split. by rewrite split_sep. Qed.

Lemma Split_last a : no_slash a = true → Split a "/" = [a].
Proof. intros Ha. unfold Split. by rewrite split_no_sep. Qed.

(** A memory size, once printed, is read back as itself, and its text is a
    single path element. *)
Class GiLaws `{ChainSdk} : Prop := {
  Gi_idem : ∀ v q, MemoryQuantity_Gi v = Ok q → MemoryQuantity_Gi q = Ok q;
  Gi_text : ∀ v q, MemoryQuantity_Gi v = Ok q → no_slash q = true
}.

Section gpu.
Context `{GiLaws}.

(** The attributes a parsed request can carry. *)
Definition wf_ram (r : string) : Prop := r = EmptyString ∨ (no_slash r = true ∧ MemoryQuantity_Gi r = Ok r).
Definition wf_iface (i : string) : Prop := i = EmptyString ∨ i = "pcie" ∨ i = "sxm".
Definition wf_model (a : GPUModelAttributes) : Prop := wf_ram (gm_RAM a) ∧ wf_iface (gm_Interface a).
Definition wf_models (m : GPUModels) : Prop := ∀ k a, m !! k = Some (Some a) → wf_model a.

Lemma parse_model_attrs_wf tokens m m' :
  wf_model m → parse_model_attrs tokens m = Ok m' → wf_model m'.
Proof.
  revert m. induction tokens as [tokens IH] using (induction_ltof1 _ List.length); unfold ltof in IH.
  intros m Hm. destruct tokens as [|key [|val rest]]; cbn [parse_model_attrs]; [by intros [= <-]..|].
  destruct (String.eqb key "ram").
  - intros E. apply rbind_ok in E as (q & Eq & E). eapply IH; [| |exact E]; [cbn; lia|].
    split; [|apply Hm]. right. split; [by eapply Gi_text|by eapply Gi_idem].
  - destruct (String.eqb key "interface").
    + destruct (String.eqb_spec val "pcie") as [->|]; [|destruct (String.eqb_spec val "sxm") as [->|]];
        cbn [orb]; try done; intros E; (eapply IH; [| |exact E]; [cbn; lia|]); split; try apply Hm; cbn; unfold wf_iface; auto.
    + intros E. eapply IH; [| |exact E]; [cbn; lia|done].
Qed.

Lemma parse_gpu_key_wf key v mo a : parse_gpu_key key = Ok (v, mo, Some a) → wf_model a.
Proof.
  unfold parse_gpu_key. case_match; [done|].
  destruct (Split key "/") as [|t0 [|vendor [|t2 [|model rest]]]]; try done.
  case_match; [done|]. case_match; [done|]. intros E. apply rbind_ok in E as (mattrs & Em & [= <- <- ->]).
  case_match; [|done]. apply rbind_ok in Em as (m & Em & [= <-]).
  eapply parse_model_attrs_wf; [|exact Em]. split; by left.
Qed.

Lemma parse_gpu_attrs_wf attrs nv am nv' am' :
  wf_models nv → wf_models am → parse_gpu_attrs attrs nv am = Ok (nv', am') → wf_models nv' ∧ wf_models am'.
Proof.
  revert nv am. induction attrs as [|attr attrs IH]; intros nv am Hnv Ham; cbn [parse_gpu_attrs].
  { by intros [= <- <-]. }
  case_match; [by apply IH|]. intros E. apply rbind_ok in E as ([[vendor model] mattrs] & Ek & E).
  assert (∀ m, wf_models m → wf_models (<[model := mattrs]> m)) as Hins.
  { intros m Hm k a. rewrite lookup_insert. case_decide; [|by apply Hm].
    intros [= ->]. by eapply parse_gpu_key_wf. }
  repeat case_match; try done; (eapply IH; [| |exact E]); auto.
Qed.

Lemma ParseGPUAttributes_wf attrs res v models :
  ParseGPUAttributes attrs = Ok res → res !! v = Some models →
  (v = "nvidia" ∨ v = "amd") ∧ wf_models models.
Proof.
  unfold ParseGPUAttributes. intros E. apply rbind_ok in E as ([nv am] & Ep & [= <-]).
  apply parse_gpu_attrs_wf in Ep as [Hnv Ham]; [|intros ? ?; by rewrite lookup_empty..].
  unfold add_vendor. intros Hv.
  repeat case_match; rewrite ?lookup_insert, ?lookup_empty in Hv; repeat case_decide; simplify_eq; auto.
Qed.

(** What the narrowed request asks of the model: an attribute record without
    any content is not printed. *)
Definition norm_attr (a : option GPUModelAttributes) : option GPUModelAttributes :=
  match a with
  | Some m => if String.eqb (gm_RAM m) EmptyString && String.eqb (gm_Interface m) EmptyString then None else a
  | None => None
  end.

Lemma gpu_key_norm v m a : gpu_key v m (norm_attr a) = gpu_key v m a.
Proof.
  destruct a as [[r i]|]; [|done]. cbn.
  destruct (String.eqb_spec r EmptyString) as [->|], (String.eqb_spec i EmptyString) as [->|]; cbn; try done.
  - by destruct (String.eqb_spec i EmptyString).
  - by destruct (String.eqb_spec r EmptyString).
  - destruct (String.eqb_spec r EmptyString), (String.eqb_spec i EmptyString); done.
Qed.

(** The extra path elements of the key. *)
Definition key_tail (a : GPUModelAttributes) : list string :=
  ((if String.eqb (gm_RAM a) EmptyString then [] else ["ram"; gm_RAM a])
   ++ (if String.eqb (gm_Interface a) EmptyString then [] else ["interface"; gm_Interface a]))%list.

Lemma Split_gpu_key v m a :
  no_slash v = true → no_slash m = true → (∀ x, a = Some x → wf_model x) →
  Split (gpu_key v m a) "/" = (["vendor"; v; "model"; m] ++ from_option key_tail [] a)%list.
Proof.
  intros Hv Hm Ha.
  assert (∀ r, Split ("vendor" +:+ String "/" (v +:+ String "/" ("model" +:+ String "/" (m +:+ String "/" r)))) "/"
               = "vendor" :: v :: "model" :: m :: Split r "/") as Hsplit by (intros; by rewrite !Split_app).
  destruct a as [[r i]|]; cbn [gpu_key from_option gm_RAM gm_Interface].
  2: { change ("vendor/" +:+ (v +:+ ("/model/" +:+ m)))
         with ("vendor" +:+ String "/" (v +:+ String "/" ("model" +:+ String "/" m))).
       rewrite !Split_app by done. by rewrite Split_last. }
  destruct (Ha _ eq_refl) as [Hr Hi]. cbn in Hr, Hi. unfold key_tail. cbn [gm_RAM gm_Interface].
  assert (no_slash i = true) as Hi' by (by destruct Hi as [->|[->| ->]]).
  assert (no_slash r = true) as Hr' by (by destruct Hr as [->|[? _]]).
  destruct (String.eqb r EmptyString), (String.eqb i EmptyString); rewrite ?str_app_assoc.
  - change (Split ("vendor" +:+ String "/" (v +:+ String "/" ("model" +:+ String "/" m))) "/"
      = ["vendor"; v; "model"; m]).
    rewrite !Split_app by done. by rewrite Split_last.
  - etransitivity; [exact (Hsplit ("interface" +:+ String "/" i))|].
    rewrite Split_app by done. by rewrite Split_last.
  - etransitivity; [exact (Hsplit ("ram" +:+ String "/" r))|].
    rewrite Split_app by done. by rewrite Split_last.
  - etransitivity; [exact (Hsplit ("ram" +:+ String "/" (r +:+ String "/" ("interface" +:+ String "/" i))))|].
    rewrite !Split_app by done. by rewrite Split_last.
Qed.

Lemma parse_key_tail a :
  wf_model a → parse_model_attrs (key_tail a) (MkGPUModel EmptyString EmptyString) = Ok a.
Proof.
  destruct a as [r i]. intros [Hr Hi]. unfold key_tail. cbn in *.
  assert (∀ x, parse_model_attrs (if i =? "" then [] else ["interface"; i]) (MkGPUModel x EmptyString)
               = Ok (MkGPUModel x i)) as Hif.
  { intros x. by destruct Hi as [->|[->| ->]]. }
  destruct (String.eqb_spec r EmptyString) as [->|]; [apply Hif|].
  destruct Hr as [|[_ Hr]]; [done|]. cbn [app parse_model_attrs]. cbn. rewrite Hr. cbn [rbind]. apply Hif.
Qed.

Lemma parse_gpu_key_of v m a :
  no_slash v = true → no_slash m = true → (∀ x, a = Some x → wf_model x) →
  parse_gpu_key (gpu_key v m a) = Ok (v, m, norm_attr a).
Proof.
  intros Hv Hm Ha. unfold parse_gpu_key. rewrite (Split_gpu_key v m a Hv Hm Ha).
  destruct a as [a|]; [|done]. cbn [from_option norm_attr].
  specialize (Ha a eq_refl). apply parse_key_tail in Ha as Hp. unfold key_tail in *. clear Ha.
  destruct (String.eqb (gm_RAM a) EmptyString), (String.eqb (gm_Interface a) EmptyString); try done;
    cbn [app List.length Nat.ltb Nat.leb Nat.odd Nat.even negb orb andb String.eqb Ascii.eqb Bool.eqb] in *;
    rewrite Hp; done.
Qed.

Lemma gpu_key_not_group v m a : gpu_key v m a ≠ "interconnect/group".
Proof. destruct a as [[r i]|]; cbn; repeat case_match; done. Qed.

(** The narrowed attribute is read back as the one model it names. *)
Lemma ParseGPUAttributes_key v m a :
  v = "nvidia" ∨ v = "amd" → no_slash m = true → (∀ x, a = Some x → wf_model x) →
  ParseGPUAttributes [MkAttr (gpu_key v m a) "true"] = Ok {[v := {[m := norm_attr a]}]}.
Proof.
  intros Hv Hm Ha. unfold ParseGPUAttributes. cbn [parse_gpu_attrs attr_Key].
  destruct (String.eqb_spec (gpu_key v m a) "interconnect/group") as [E|_]; [by apply gpu_key_not_group in E|].
  rewrite parse_gpu_key_of by (done || by destruct Hv as [->| ->]). cbn [rbind].
  destruct Hv as [->| ->]; cbn [String.eqb Ascii.eqb Bool.eqb rbind]; unfold add_vendor;
    rewrite ?insert_empty, ?map_size_singleton, ?map_size_empty; done.
Qed.

End gpu.

Section stable.
Context `{GoUnicode} `{PairOps} `{GiLaws}.

(** Model names as nodes report them. *)
Definition plain_model (info : GPUInfo) : Prop := no_slash (gi_Name info) = true ∧ gi_Name info ≠ "*".

Lemma gpu_scan_spec iface attrs infos cnt info a :
  gpu_scan iface attrs infos cnt = Some (info, a) →
  info ∈ infos ∧ gpu_match attrs (iface info) info = Some a.
Proof.
  revert cnt. induction infos as [|i infos IH]; intros cnt; cbn [gpu_scan]; [done|].
  destruct (gpu_match attrs (iface i) i) as [b|] eqn:E.
  - case_match; [|intros Hs; apply IH in Hs as []; by split; [apply list_elem_of_further|]].
    intros [= <- <-]. split; [apply list_elem_of_here|done].
  - intros Hs. apply IH in Hs as []. by split; [apply list_elem_of_further|].
Qed.

Lemma gpu_match_wf attrs as_ iface info a :
  ParseGPUAttributes as_ = Ok attrs → gpu_match attrs iface info = Some a →
  (gi_Vendor info = "nvidia" ∨ gi_Vendor info = "amd") ∧ ∀ x, a = Some x → wf_model x.
Proof.
  unfold gpu_match. intros Hp. destruct (attrs !! gi_Vendor info) as [models|] eqn:Ev; [|done].
  destruct (ParseGPUAttributes_wf _ _ _ _ Hp Ev) as [Hv Hwf]. unfold ExistsOrWildcard.
  intros Hm. split; [done|]. intros x ->.
  repeat case_match; simplify_eq; by eapply Hwf.
Qed.

(** A narrowed request matches its own model only. *)
Lemma gpu_match_narrowed v m a iface info b :
  m ≠ "*" → gpu_match {[v := {[m := a]}]} iface info = Some b →
  gi_Vendor info = v ∧ gi_Name info = m ∧ b = a.
Proof.
  intros Hm. unfold gpu_match, ExistsOrWildcard.
  destruct (decide (gi_Vendor info = v)) as [->|Hne]; [|by rewrite lookup_singleton_ne].
  rewrite lookup_singleton_eq. destruct (decide (gi_Name info = m)) as [->|Hne].
  - rewrite lookup_singleton_eq. destruct a as [a|]; repeat case_match; naive_solver.
  - rewrite !lookup_singleton_ne by done. done.
Qed.

Lemma ToLower_vendor v : v = "nvidia" ∨ v = "amd" → ToLower v = v.
Proof. by intros [->| ->]. Qed.

(** What a successful [tryAdjustGPU] picked. *)
Lemma tryAdjustGPU_picked rp res sp tee plat rp' res' sp' :
  gpu_Units res ≠ 0%Z → tryAdjustGPU rp res sp tee plat = Some (rp', res', sp') →
  ∃ attrs info a,
    ParseGPUAttributes (gpu_Attributes res) = Ok attrs ∧ info ∈ igpu_Info rp
    ∧ gpu_match attrs (FilterGPUInterface (gi_Interface info)) info = Some a
    ∧ res' = MkGPU (gpu_Units res) [MkAttr (gpu_key (ToLower (gi_Vendor info)) (gi_Name info) a) "true"]
    ∧ sp' = (let s := stamp_gpu (ToLower (gi_Vendor info)) (gi_Name info) sp in
             if IsCC tee then set_RuntimeClass (RuntimeClassForTEEType tee plat) s
             else if ToLower (gi_Vendor info) =? GPUVendorNvidia then set_RuntimeClass runtimeClassNvidia s
             else s).
Proof.
  intros Hu. unfold tryAdjustGPU. destruct (Z.eqb_spec (gpu_Units res) 0); [done|].
  case_match; [done|]. destruct (ParseGPUAttributes _) as [attrs|] eqn:Ep; [|done].
  destruct (gpu_scan _ _ _ _) as [[info a]|] eqn:Es; cbn; [|done].
  apply gpu_scan_spec in Es as [Hin Hm]. destruct (rp_SubNLZ _ _); cbn; [|done].
  intros [= <- <- <-]. exists attrs, info, a. done.
Qed.

(** Once a GPU request has been satisfied, the request it is
    narrowed to makes every later replica pick the same vendor and model: on
    any node, a later success leaves the request as it is and computes the same
    scheduler parameters.  (The model names of the first node have no slash and
    none is called *.) *)
Theorem gpu_request_stable rp res sp tee plat rp1 res1 sp1 rp2 rp3 res3 sp3
  (Hunits : gpu_Units res ≠ 0%Z)
  (Hnames : Forall plain_model (igpu_Info rp))
  (Hfirst : tryAdjustGPU rp res sp tee plat = Some (rp1, res1, sp1))
  (Hlater : tryAdjustGPU rp2 res1 sp tee plat = Some (rp3, res3, sp3)) :
  res3 = res1 ∧ sp3 = sp1.
Proof.
  destruct (tryAdjustGPU_picked _ _ _ _ _ _ _ _ Hunits Hfirst) as (attrs & info & a & Hp & Hin & Hm & -> & ->).
  destruct (gpu_match_wf _ _ _ _ _ Hp Hm) as [Hv Hwf]. rewrite (ToLower_vendor _ Hv) in *.
  destruct (proj1 (Forall_forall _ _) Hnames _ Hin) as [Hslash Hstar].
  apply tryAdjustGPU_picked in Hlater as (attrs2 & info2 & a2 & Hp2 & _ & Hm2 & -> & ->); [|done].
  cbn [gpu_Attributes] in Hp2. rewrite (ParseGPUAttributes_key _ _ _ Hv Hslash Hwf) in Hp2.
  injection Hp2 as <-. apply gpu_match_narrowed in Hm2 as (Hv2 & Hn2 & ->); [|done].
  rewrite Hv2, Hn2, (ToLower_vendor _ Hv), gpu_key_norm. done.
Qed.

End stable.

