(* ===== verification/InventorySample.v ===== *)
(** * A sample cluster

    Concrete instances of the inventory parameters, the witnesses of the
    inventory properties, and a cluster on which the narrowing of a GPU request
    makes [Adjust] refuse a reservation that fits. *)
From Stdlib Require Import Ascii.
From S2P Require Import Prelude GoStrings ChainTypes ClusterTypes Inventory InventoryLoop InventorySound InventoryMetrics NullInventory GpuRequest.
Import MilliQuantities.

Open Scope string_scope.

Module Sample.

#[export] Instance ascii_only : GoUnicode := λ s, s.

Definition find_attr (attrs : Attributes) (k : string) : option Attribute :=
  List.find (λ a, attr_Key a =? k) attrs.

#[export] Instance sdk : ChainSdk := {|
  find_AsBool attrs k := match find_attr attrs k with Some a => (attr_Value a =? "true", true) | None => (false, false) end;
  find_AsString attrs k := match find_attr attrs k with Some a => (attr_Value a, true) | None => (EmptyString, false) end;
  StorageAttributePersistent := "persistent";
  StorageAttributeClass := "class";
  MemoryQuantity_Gi s := if no_slash s then Ok s else Err "invalid quantity";
  IsStorageClassSupported caps c := existsb (String.eqb c) (cap_StorageClasses caps);
  IsValidLabelValue s := []
|}.

#[export] Instance sdk_laws : GiLaws.
Proof. split; intros v q; cbn; destruct (no_slash v) eqn:E; cbn; intros; simplify_eq; by rewrite ?E. Qed.

Definition GiB : Z := 1024 * 1024 * 1024.

(** A node with 8 cores, [mem] GiB of memory, 100 GiB of ephemeral storage,
    eight interconnect devices and the GPUs [gpus]. *)
Definition node (name : string) (mem : Z) (gpus : list GPUInfo) (fabric : string) : Node :=
  MkNode name
    (MkNodeResources
       (MkInvCPU (milli_pair 8000 8000 500) [MkCPUInfo "amd64"])
       (whole_pair (mem * GiB) (mem * GiB) 0)
       (MkInvGPU (whole_pair (Z.of_nat (List.length gpus)) (Z.of_nat (List.length gpus)) 0) gpus)
       (whole_pair (100 * GiB) (100 * GiB) 0)
       (whole_pair 0 0 0) (whole_pair 0 0 0) (whole_pair 8 8 0))
    (MkCaps ["beta2"] fabric (if fabric =? EmptyString then EmptyString else "rdma/hca") ["mlx5"]).

Definition a100 : GPUInfo := MkGPUInfo "nvidia" "a100" "SXM4" "80Gi".
Definition h100 : GPUInfo := MkGPUInfo "nvidia" "h100" "SXM5" "80Gi".
Definition storage : list ClusterStorage := [MkClusterStorage "beta2" (whole_pair (500 * GiB) (500 * GiB) 0)].

(** One replica: a core, [mem] GiB, [gpus] GPUs with the attributes [attrs] and
    a persistent 10 GiB volume. *)
Definition request (mem gpus : Z) (attrs : Attributes) : Resources :=
  MkResources 1 (Some (MkCPU 1000 [])) (Some (MkMemory (mem * GiB) []))
    [MkStorage "data" (10 * GiB) [MkAttr "persistent" "true"; MkAttr "class" "beta2"]]
    (Some (MkGPU gpus attrs)) [].

Definition any_nvidia : Attributes := [MkAttr "vendor/nvidia/model/*" "true"].
Definition reservation (units : list ResourceUnit) : ReservationGroup :=
  MkReservation (AGroupSpec (MkGroupSpec "west" [] units)) [] None.

Lemma whole_ok c a b : rp_whole (whole_pair c a b).
Proof. exists (a - b)%Z. unfold available, whole_pair. cbn. lia. Qed.

(** The peers of an interconnect group, and the group label as an attribute. *)
Definition peers : list ResourceUnit :=
  [MkUnit (request 2 1 (any_nvidia ++ [MkAttr "interconnect/group" "ring"])%list) 2].
Definition ring : Cluster :=
  MkCluster [node "n0" 16 [a100; a100] "roce"; node "n1" 16 [a100] EmptyString; node "n2" 16 [a100] "roce"] storage.

Lemma node_sample_ok name mem gpus fabric : (0 ≤ mem)%Z → node_ok (node name mem gpus fabric).
Proof.
  intros Hm. unfold node_ok, nr_ok. cbn [nd_Resources node nr_CPU nr_Memory nr_GPU nr_EphemeralStorage
    nr_GPUInterconnect icpu_Quantity igpu_Quantity]. split_and!; try apply whole_ok; [done|intros _; apply whole_ok|].
  intros [] _; unfold nr_avail, avail, avail_milli; cbn [node nd_Resources nr_CPU nr_Memory nr_GPU
    nr_EphemeralStorage nr_GPUInterconnect icpu_Quantity igpu_Quantity rp_Available milli_pairs]; try done.
  - unfold available, whole_pair, GiB. cbn. rewrite <- Z.opp_0. apply Z.opp_le_mono.
    rewrite Z.opp_involutive. apply Z.div_le_upper_bound; lia.
  - unfold available, whole_pair. cbn. rewrite <- Z.opp_0. apply Z.opp_le_mono.
    rewrite Z.opp_involutive. apply Z.div_le_upper_bound; lia.
Qed.

End Sample.
Import Sample.

Lemma ring_ok : cluster_ok (inv_sanitized (newInventory ring)).
Proof.
  split.
  - apply (Forall_cons_2 _ _ _); [apply (node_sample_ok "n0" 16 [a100; a100] "roce"); done|].
    apply (Forall_cons_2 _ _ _); [apply (node_sample_ok "n1" 16 [a100] EmptyString); done|].
    apply (Forall_cons_2 _ _ _); [apply (node_sample_ok "n2" 16 [a100] "roce"); done|constructor].
  - constructor; [|constructor]. split; [apply (whole_ok (500 * GiB) (500 * GiB) 0)|done].
Qed.

Lemma peers_valid :
  Forall (λ u, valid_request (ru_Resources u)) (GetResourceUnits (rg_Resources (reservation peers))).
Proof.
  constructor; [|constructor]. split_and!; try (eexists; split; [reflexivity|done]).
  constructor; [done|constructor].
Qed.

(** The error [Adjust] answers; [None] when it is nil. *)
Definition answer (o : option (outcome (option adjust_error * inventory * ReservationGroup)))
  : option adjust_error :=
  match o with Some (Ret (e, _, _)) => e | _ => Some ErrInsufficientCapacity end.

Lemma adjust_accounts_witness :
  ∃ e inv' rsv', Adjust (newInventory ring) (reservation peers) [] = Some (Ret (e, inv', rsv'))
  ∧ e = None ∧ ∃ tr c', fits (apply_options []) EmptyString peers tr (inv_sanitized (newInventory ring)) c'.
Proof.
  destruct (adjust_accounts (newInventory ring) (reservation peers) [] ring_ok peers_valid)
    as (e & inv' & rsv' & E & Hm).
  exists e, inv', rsv'. split; [exact E|].
  assert (e = None) as He.
  { assert (answer (Adjust (newInventory ring) (reservation peers) []) = None) as Hc by (vm_compute; reflexivity).
    rewrite E in Hc. exact Hc. }
  split; [exact He|]. rewrite He in Hm. destruct Hm as (tr & c' & Hfits & _). exists tr, c'. exact Hfits.
Defined.

(** Two replicas on two nodes with different models: the first one narrows the
    request to its model, and the second pick is the same. *)
Lemma gpu_request_stable_witness :
  ∃ rp1 res1 sp1 rp3 res3 sp3,
    tryAdjustGPU (MkInvGPU (whole_pair 2 2 0) [a100; h100]) (MkGPU 1 any_nvidia) SParams_zero TEETypeNone EmptyString
      = Some (rp1, res1, sp1)
    ∧ tryAdjustGPU (MkInvGPU (whole_pair 2 2 0) [h100; a100]) res1 SParams_zero TEETypeNone EmptyString
      = Some (rp3, res3, sp3)
    ∧ res3 = res1 ∧ sp3 = sp1.
Proof.
  do 6 eexists. split; [vm_compute; reflexivity|]. split; [vm_compute; reflexivity|].
  eapply (gpu_request_stable (MkInvGPU (whole_pair 2 2 0) [a100; h100]) (MkGPU 1 any_nvidia) SParams_zero
    TEETypeNone EmptyString _ _ _ (MkInvGPU (whole_pair 2 2 0) [h100; a100])).
  - done.
  - repeat constructor; done.
  - vm_compute. reflexivity.
  - vm_compute. reflexivity.
Defined.

Lemma metrics_after_adjust_witness :
  ∃ inv' rsv' m m',
    Adjust (newInventory ring) (reservation peers) [] = Some (Ret (None, inv', rsv'))
    ∧ Metrics (newInventory ring) = Ret m ∧ Metrics inv' = Ret m'
    ∧ metric DMemory (mt_Resources (met_TotalAvailable m))
      = u64 (metric DMemory (mt_Resources (met_TotalAvailable m')) + total_request (apply_options []) peers DMemory).
Proof.
  destruct (Adjust (newInventory ring) (reservation peers) []) as [[[[[e|] inv'] rsv']|]|] eqn:E.
  1, 3, 4: assert (answer (Adjust (newInventory ring) (reservation peers) []) = None) as Hc
             by (vm_compute; reflexivity); rewrite E in Hc; discriminate Hc.
  destruct (Metrics inv') as [m'|] eqn:Em'.
  - exists inv', rsv', (match Metrics (newInventory ring) with Ret m => m | Panic => m' end), m'.
    split; [reflexivity|]. split; [vm_compute; reflexivity|]. split; [exact Em'|].
    eapply (metrics_after_adjust (newInventory ring) inv' (reservation peers) rsv' []);
      [done|exact ring_ok|exact peers_valid|reflexivity|exact E|vm_compute; reflexivity|exact Em'].
  - assert (match Adjust (newInventory ring) (reservation peers) [] with
            | Some (Ret (_, i, _)) => match Metrics i with Panic => false | Ret _ => true end
            | _ => false end = true) as Hc by (vm_compute; reflexivity).
    rewrite E, Em' in Hc. discriminate Hc.
Defined.

(** ** Narrowing outlives a failed attempt *)

(** A node whose GPU matches but which has too little memory, and a node with
    another model and enough memory. *)
Definition small_a100 : Node := node "n0" 1 [a100] EmptyString.
Definition large_h100 : Node := node "n1" 16 [h100] EmptyString.
Definition wants_any : ReservationGroup := reservation [MkUnit (request 4 1 any_nvidia) 1].

(** The GPU attributes of the request are narrowed to the model of
    a node even when that node is then refused for lack of memory: a
    reservation for any nvidia GPU that fits a node is refused with insufficient
    capacity when a smaller node with another model comes before it, and
    accepted when that node comes after it or is absent. *)
Theorem narrowing_refuses_fitting :
  answer (Adjust (newInventory (MkCluster [large_h100] storage)) wants_any []) = None
  ∧ answer (Adjust (newInventory (MkCluster [large_h100; small_a100] storage)) wants_any []) = None
  ∧ answer (Adjust (newInventory (MkCluster [small_a100; large_h100] storage)) wants_any [])
    = Some ErrInsufficientCapacity.
Proof. by vm_compute. Qed.

(** ** The null client *)

#[export] Instance new_pairs : NewPairs := {|
  NewResourcePair := whole_pair; NewResourcePairMilli := milli_pair; Gi := GiB |}.

Definition solo : Cluster := NewNull [].
Definition cpu_request (units : Z) : Resources :=
  MkResources 1 (Some (MkCPU units [])) (Some (MkMemory GiB [])) [] (Some (MkGPU 0 [])) [].
Definition cpu_only (units : Z) : ReservationGroup := reservation [MkUnit (cpu_request units) 2].

Lemma null_adjust_accounts_witness :
  ∃ inv' rsv' tr, null_Adjust solo (cpu_only 1000) [] = Some (Ret (None, inv', rsv'))
    ∧ accounts (null_cost (apply_options []) (GetResourceUnits (rg_Resources (cpu_only 1000))))
        (unit_class_cost (GetResourceUnits (rg_Resources (cpu_only 1000)))) tr solo inv'.
Proof.
  assert (cluster_ok solo) as Hok.
  { split; (constructor; [|constructor]).
    - unfold node_ok, nr_ok. split_and!; try apply whole_ok; try done.
      + intros Hu. exfalso. specialize (Hu eq_refl). discriminate Hu.
      + intros [] Hu; try (unfold nr_avail; vm_compute; discriminate).
    - split; [apply (whole_ok (512 * GiB) (512 * GiB) (512 * GiB - 10 * GiB))|vm_compute; discriminate]. }
  assert (Forall (λ u, valid_request (ru_Resources u)) (GetResourceUnits (rg_Resources (cpu_only 1000)))) as Hv.
  { constructor; [|constructor]. split_and!; try (eexists; split; [reflexivity|done]). constructor. }
  destruct (null_adjust_accounts solo (cpu_only 1000) [] Hok Hv) as (e & inv' & rsv' & E & Hm).
  assert (e = None) as He.
  { assert (match null_Adjust solo (cpu_only 1000) [] with Some (Ret (e, _, _)) => e
            | _ => Some ErrInsufficientCapacity end = None) as Hc by (vm_compute; reflexivity).
    rewrite E in Hc. exact Hc. }
  rewrite He in E, Hm. destruct Hm as (tr & c' & _ & _ & Hacc & _ & Hinv & _).
  exists inv', rsv', tr. split; [exact E|]. rewrite Hinv. exact Hacc.
Defined.

Lemma subscriber_fifo_witness :
  ∃ out st, sub_run (λ n : nat, n) (MkSub [] None) [Receive 1%nat; Receive 2%nat; Deliver] = Some (out, st)
  ∧ (out ++ sub_pending st = [1%nat; 2%nat])%list.
Proof.
  eexists _, _. split; [reflexivity|].
  exact (proj1 (subscriber_fifo (λ n : nat, n) [Receive 1%nat; Receive 2%nat; Deliver] _ _ eq_refl)).
Defined.

(** The null client's [Commit] takes CPU in whole cores while the
    units of a request are thousandths: of a request of more than five
    millicores nothing is taken from the CPU of the node, while [Adjust] takes
    every millicore of it. *)
Theorem commit_ignores_cpu :
  (∀ units, (5 < units)%Z → ∃ c, commit (rg_Resources (cpu_only units)) solo = Ret c
     ∧ map (λ nd, nr_CPU (nd_Resources nd)) (cl_Nodes c) = map (λ nd, nr_CPU (nd_Resources nd)) (cl_Nodes solo))
  ∧ match null_Adjust solo (cpu_only 1000) [] with
    | Some (Ret (None, c, _)) => map (λ nd, nr_avail (nd_Resources nd) DCpu) (cl_Nodes c)
    | _ => []
    end = [4900 - 2 * 1000]%Z.
Proof.
  split; [|by vm_compute]. intros units Hu.
  assert (rp_SubNLZ (milli_pair 5000 5000 100) units = None) as Hsub.
  { change ((if (5 <? units)%Z then None else sub (milli_pair 5000 5000 100) (units * 1000)) = None).
    by rewrite (proj2 (Z.ltb_lt _ _)). }
  eexists. split; [reflexivity|].
  set (nr := nd_Resources (null_node "solo" (whole_pair nullClientGPU nullClientGPU 1))).
  transitivity [nr_CPU (commit_cpu (cpu_request units) nr)]; [reflexivity|]. f_equal.
  unfold commit_cpu. cbn [cpu_request res_CPU cpu_Units]. unfold sub_or_keep.
  change (icpu_Quantity (nr_CPU nr)) with (milli_pair 5000 5000 100). by rewrite Hsub.
Qed.
