(* ===== verification/ReservationService.v ===== *)
(** * The inventory service: reservations, external ports, leased IPs

    [cluster/inventory.go] and [cluster/reservation.go].  The goroutine [run]
    owns the state; every arm of its [select] is one [event].  An arm that is
    not ready (a nil channel, an empty buffer) is an event that is not enabled.
    The inventory is known through the interface [ctypes.Inventory], here the
    class [InventoryOps]; logging and Prometheus counters are not modelled. *)
From Stdlib Require Import Ascii String.
From S2P Require Import Prelude GoStrings ChainTypes ClusterTypes LeaseNames CrdManifest Inventory.

Open Scope string_scope.
Open Scope go_scope.

(** [mtypes.OrderID]. *)
Record OrderID := MkOrder { oid_Owner : string; oid_DSeq : Z; oid_GSeq : Z; oid_OSeq : Z }.

#[export] Instance OrderID_eq_dec : EqDecision OrderID.
Proof. solve_decision. Defined.

(** The interface of an inventory, and what the service relies on: an
    [Adjust] that fails changes nothing, and one that succeeds keeps what the
    reservation asks for. *)
Class InventoryOps := {
  Inv : Type;
  inv_Adjust : Inv → ReservationGroup → list InventoryOption
    → outcome (option adjust_error * Inv * ReservationGroup);
  inv_Dup : Inv → Inv
}.

Class InventoryLaws `{InventoryOps} : Prop := {
  inv_Adjust_error : ∀ inv r opts e inv' r',
    inv_Adjust inv r opts = Ret (Some e, inv', r') → inv' = inv ∧ r' = r;
  inv_Adjust_resources : ∀ inv r opts e inv' r',
    inv_Adjust inv r opts = Ret (e, inv', r') → rg_Resources r' = rg_Resources r
}.

(** Inventories on which [Adjust] does not panic: an invariant [inv_good] of
    the inventory, for the requests that satisfy [req_good]. *)
Class InventorySafe `{InventoryOps} := {
  inv_good : Inv → Prop;
  req_good : ResourceGroup → Prop;
  inv_Dup_good : ∀ inv, inv_good inv → inv_good (inv_Dup inv);
  inv_Adjust_good : ∀ inv r opts, inv_good inv → req_good (rg_Resources r) →
    ∃ e inv' r', inv_Adjust inv r opts = Ret (e, inv', r') ∧ inv_good inv'
}.

(** [sdlutil.ComputeCommittedResources] and the commit levels of the
    configuration. *)
Class CommitLevels := {
  CommitLevel : Type;
  ComputeCommittedResources : CommitLevel → ResourceValue → ResourceValue
}.

(** ** Reservations *)

Record reservation := MkRes {
  rv_order : OrderID;
  rv_group : ReservationGroup;
  rv_endpointQuantity : Z;
  rv_allocated : bool;
  rv_ipsConfirmed : bool;
  rv_teeType : TEEType
}.

Definition set_group (g : ReservationGroup) (r : reservation) : reservation :=
  MkRes (rv_order r) g (rv_endpointQuantity r) (rv_allocated r) (rv_ipsConfirmed r) (rv_teeType r).
Definition set_allocated (b : bool) (r : reservation) : reservation :=
  MkRes (rv_order r) (rv_group r) (rv_endpointQuantity r) b (rv_ipsConfirmed r) (rv_teeType r).
Definition set_ipsConfirmed (b : bool) (r : reservation) : reservation :=
  MkRes (rv_order r) (rv_group r) (rv_endpointQuantity r) (rv_allocated r) b (rv_teeType r).
Definition set_teeType (t : TEEType) (r : reservation) : reservation :=
  MkRes (rv_order r) (rv_group r) (rv_endpointQuantity r) (rv_allocated r) (rv_ipsConfirmed r) t.

Definition newReservation (order : OrderID) (resources : ResourceGroup) : reservation :=
  MkRes order (MkReservation resources [] None)
    (Z.of_nat (GetEndpointQuantityOfResourceGroup resources LEASED_IP)) false false TEETypeNone.

(** The external ports of a reservation: its endpoints of kind RANDOM_PORT,
    whatever the number of replicas. *)
Definition reservationCountEndpoints (r : reservation) : Z :=
  Z.of_nat (List.length (filter (λ e, ep_Kind e = RANDOM_PORT)
    (GetResourceUnits (rg_Resources (rv_group r)) ≫= λ u, res_Endpoints (ru_Resources u)))).

(** ** The state of the service *)

Record AddressUsage := MkUsage { u_Available : Z; u_InUse : Z }.

Inductive service_error :=
| errReservationNotFound
| errNoLeasedIPsAvailable
| errInsufficientIPs (quantity : Z)
| ErrAdjust (e : adjust_error)
| ErrNotRunning
| ErrInvalidResource (what : string) (idx : nat).

Section service.
Context `{InventoryOps} `{CommitLevels}.

(** [c_hasIP]: an IP operator client is configured. *)
Record svc_config := MkConfig {
  c_CPU : CommitLevel; c_GPU : CommitLevel; c_Memory : CommitLevel; c_Storage : CommitLevel;
  c_teePlatform : TEEPlatform; c_hasIP : bool; c_ports : Z }.

(** [s_invup] is the one-element buffer [invupch]; [s_open] says that
    [reservech] is not nil; [s_check] is the running IP check ([runch]) with
    what it has to confirm. *)
Record svc := MkSvc {
  s_inventory : option Inv;
  s_currinv : option Inv;
  s_invup : option Inv;
  s_usage : AddressUsage;
  s_reservations : list reservation;
  s_ports : Z;
  s_open : bool;
  s_check : option (list (OrderID * Z))
}.

Definition set_reservations (l : list reservation) (s : svc) : svc :=
  MkSvc (s_inventory s) (s_currinv s) (s_invup s) (s_usage s) l (s_ports s) (s_open s) (s_check s).
Definition set_ports (p : Z) (s : svc) : svc :=
  MkSvc (s_inventory s) (s_currinv s) (s_invup s) (s_usage s) (s_reservations s) p (s_open s) (s_check s).
Definition set_invup (i : option Inv) (s : svc) : svc :=
  MkSvc (s_inventory s) (s_currinv s) i (s_usage s) (s_reservations s) (s_ports s) (s_open s) (s_check s).
Definition set_inventory (i : option Inv) (s : svc) : svc :=
  MkSvc i (s_currinv s) (s_invup s) (s_usage s) (s_reservations s) (s_ports s) (s_open s) (s_check s).
Definition set_currinv (i : option Inv) (s : svc) : svc :=
  MkSvc (s_inventory s) i (s_invup s) (s_usage s) (s_reservations s) (s_ports s) (s_open s) (s_check s).
Definition set_usage (u : AddressUsage) (s : svc) : svc :=
  MkSvc (s_inventory s) (s_currinv s) (s_invup s) u (s_reservations s) (s_ports s) (s_open s) (s_check s).
Definition set_open (b : bool) (s : svc) : svc :=
  MkSvc (s_inventory s) (s_currinv s) (s_invup s) (s_usage s) (s_reservations s) (s_ports s) b (s_check s).
Definition set_check (c : option (list (OrderID * Z))) (s : svc) : svc :=
  MkSvc (s_inventory s) (s_currinv s) (s_invup s) (s_usage s) (s_reservations s) (s_ports s) (s_open s) c.

Variable cfg : svc_config.

(** ** Committed resources *)

Definition commit_unit (u : ResourceUnit) : ResourceUnit :=
  let r := ru_Resources u in
  let cpu := default (MkCPU 0 []) (res_CPU r) in
  let gpu := default (MkGPU 0 []) (res_GPU r) in
  let memory := default (MkMemory 0 []) (res_Memory r) in
  MkUnit
    (MkResources (res_ID r)
       (Some (MkCPU (ComputeCommittedResources (c_CPU cfg) (cpu_Units cpu)) (cpu_Attributes cpu)))
       (Some (MkMemory (ComputeCommittedResources (c_Memory cfg) (mem_Quantity memory)) (mem_Attributes memory)))
       (map (λ v, MkStorage (sto_Name v) (ComputeCommittedResources (c_Storage cfg) (sto_Quantity v)) (sto_Attributes v))
          (res_Storage r))
       (Some (MkGPU (ComputeCommittedResources (c_GPU cfg) (gpu_Units gpu)) (gpu_Attributes gpu)))
       (res_Endpoints r))
    (ru_Count u).

Definition placementRequirements : ResourceGroup → Attributes := placementAttrs.

Definition resourcesToCommit (g : ResourceGroup) : ResourceGroup :=
  AGroupSpec (MkGroupSpec (GetName g) (placementRequirements g) (map commit_unit (GetResourceUnits g))).

(** ** Leased IPs *)

(** [uint] arithmetic. *)
Definition countReservedIPs (l : list reservation) : Z :=
  foldl (λ reserved entry, if negb (rv_ipsConfirmed entry) then u64 (reserved + rv_endpointQuantity entry)
                           else reserved) 0%Z l.

Definition availableLeasedIPs (total inUse reserved : Z) : Z :=
  if (total <=? inUse)%Z then 0
  else
    let available := (total - inUse)%Z in
    if (available <=? reserved)%Z then 0 else (available - reserved)%Z.

(** ** TEE types *)

Fixpoint first_tee (values : list string) : TEEType :=
  match values with
  | [] => TEETypeNone
  | v :: values => match ParseTEEType v with Ok t => t | Err _ => first_tee values end
  end.

Definition teeTypeFromResourceGroup (g : ResourceGroup) : TEEType :=
  first_tee (omap (λ a, if attr_Key a =? "tee/type" then Some (attr_Value a) else None) (placementAttrs g)).

(** What a deployment's [ClusterParams()] can be. *)
Inductive cluster_params_value :=
| CpSettings (sps : list (option SchedulerParams))
| CpSettingsPtr (sps : option (list (option SchedulerParams)))
| CpReservation (m : ReservationClusterSettings)
| CpOther.

Definition teeTypeFromClusterParams (cp : cluster_params_value) : TEEType :=
  let from sps := first_tee (omap (λ sp, p ← sp;
    if negb (sp_TEEType p =? EmptyString) && negb (sp_AttestationDisabled p) then Some (sp_TEEType p) else None) sps) in
  match cp with
  | CpSettings sps => from sps
  | CpSettingsPtr (Some sps) => from sps
  | _ => TEETypeNone
  end.

Definition adjustOpts (teeType : TEEType) : list InventoryOption :=
  (WithTEEPlatform (c_teePlatform cfg) :: (if negb (teeType =? TEETypeNone) then [WithTEEType teeType] else []))%list.

(** ** Requests *)

Inductive reply :=
| NoReply
| RepReservation (r : reservation)
| RepError (e : service_error).

(** The leased IPs of a request. *)
Definition check_ips (r : reservation) (s : svc) : result service_error reservation :=
  if negb (rv_endpointQuantity r =? 0)%Z then
    if negb (c_hasIP cfg) then Err errNoLeasedIPsAvailable
    else
      let reserved := countReservedIPs (s_reservations s) in
      let available := availableLeasedIPs (u_Available (s_usage s)) (u_InUse (s_usage s)) reserved in
      if (available <? rv_endpointQuantity r)%Z then Err (errInsufficientIPs (rv_endpointQuantity r))
      else Ok r
  else Ok (set_ipsConfirmed true r).

(** Its place in the inventory. *)
Definition place (r : reservation) (s : svc) : outcome (svc * reply) :=
  let! inv := deref (s_inventory s) in
  let! a := inv_Adjust inv (rv_group r) (adjustOpts (rv_teeType r)) in
  match a with
  | (Some e, inv, _) => Ret (set_inventory (Some inv) s, RepError (ErrAdjust e))
  | (None, inv, g) =>
      let r := set_group g r in
      Ret (set_reservations (s_reservations s ++ [r])%list (set_inventory (Some inv) s), RepReservation r)
  end.

Definition handleRequest (order : OrderID) (resources : ResourceGroup) (s : svc) : outcome (svc * reply) :=
  match check_ips (newReservation order (resourcesToCommit resources)) s with
  | Err e => Ret (s, RepError e)
  | Ok r => place (set_teeType (teeTypeFromResourceGroup resources) r) s
  end.

(** Pending reservations charged to a new inventory; an error is only logged. *)
Fixpoint readjust (inv : Inv) (l : list reservation) : outcome (Inv * list reservation) :=
  match l with
  | [] => Ret (inv, [])
  | r :: l =>
      if rv_allocated r then
        let! (inv, l) := readjust inv l in Ret (inv, r :: l)
      else
        let! (_, inv, g) := inv_Adjust inv (rv_group r) (adjustOpts (rv_teeType r)) in
        let! (inv, l) := readjust inv l in Ret (inv, set_group g r :: l)
  end.

(** ** IP checks *)

Definition to_confirm (l : list reservation) : list (OrderID * Z) :=
  omap (λ r, if rv_ipsConfirmed r || negb (rv_allocated r) then None
             else Some (rv_order r, rv_endpointQuantity r)) l.

Definition updateIPs (s : svc) : svc :=
  if c_hasIP cfg then
    let s := set_open false s in
    match s_check s with
    | None => set_check (Some (to_confirm (s_reservations s))) s
    | Some _ => s
    end
  else match s_inventory s with
  | Some _ => if negb (s_open s) then set_open true s else s
  | None => s
  end.

(** The orders whose IP addresses are all there; [status] is the number of
    addresses the operator reports, [None] for an error. *)
Definition confirmed (status : OrderID → option Z) (items : list (OrderID * Z)) : list OrderID :=
  omap (λ '(o, n), k ← status o; if (k =? n)%Z then Some o else None) items.

Fixpoint update_first (p : reservation → bool) (f : reservation → reservation) (l : list reservation)
  : list reservation :=
  match l with
  | [] => []
  | r :: l => if p r then f r :: l else r :: update_first p f l
  end.

Definition confirm_order (l : list reservation) (o : OrderID) : list reservation :=
  update_first (λ r, bool_decide (rv_order r = o)) (set_ipsConfirmed true) l.

(** ** The loop *)

Inductive event :=
| EvDeployment (order : OrderID) (group : string) (deployed : bool)
| EvTimer
| EvReserve (order : OrderID) (resources : ResourceGroup)
| EvLookup (order : OrderID) (group : string)
| EvUnreserve (order : OrderID)
| EvInventory (inv : option Inv)
| EvUpdate
| EvChecked (result : option (AddressUsage * (OrderID → option Z))).

Definition matches (order : OrderID) (group : string) (r : reservation) : bool :=
  bool_decide (rv_order r = order) && (GetName (rg_Resources (rv_group r)) =? group).

(** The current inventory again, unless one is waiting. *)
Definition resend (s : svc) : svc :=
  match s_currinv s, s_invup s with
  | Some inv, None => set_invup (Some inv) s
  | _, _ => s
  end.

Definition on_deployment (order : OrderID) (group : string) (deployed : bool) (s : svc) : svc :=
  match List.find (matches order group) (s_reservations s) with
  | None => s
  | Some res =>
      let s := set_reservations (update_first (matches order group) (set_allocated deployed) (s_reservations s)) s in
      if negb (Bool.eqb (rv_allocated res) deployed) then
        let n := reservationCountEndpoints res in
        let s := set_ports (if deployed then u64 (s_ports s - n) else u64 (s_ports s + n)) s in
        resend s
      else s
  end.

Fixpoint remove_first (p : reservation → bool) (l : list reservation) : list reservation :=
  match l with
  | [] => []
  | r :: l => if p r then l else r :: remove_first p l
  end.

Definition on_unreserve (order : OrderID) (s : svc) : svc * reply :=
  let p r := bool_decide (rv_order r = order) in
  match List.find p (s_reservations s) with
  | None => (s, RepError errReservationNotFound)
  | Some res =>
      let s := set_reservations (remove_first p (s_reservations s)) s in
      let s := if rv_allocated res then set_ports (u64 (s_ports s + reservationCountEndpoints res)) s else s in
      (s, RepReservation res)
  end.

Definition on_update (inv : Inv) (s : svc) : outcome svc :=
  let s := set_invup None (set_inventory (Some inv) (set_currinv (Some (inv_Dup inv)) s)) in
  let s := updateIPs s in
  let! (inv, l) := readjust inv (s_reservations s) in
  Ret (set_reservations l (set_inventory (Some inv) s)).

Definition on_checked (items : list (OrderID * Z)) (result : option (AddressUsage * (OrderID → option Z)))
  (s : svc) : svc :=
  let s := set_check None s in
  let s :=
    match result with
    | Some (usage, status) =>
        set_reservations (foldl confirm_order (s_reservations s) (confirmed status items)) (set_usage usage s)
    | None => s
    end in
  set_open true s.

(** [None] when the event is not enabled. *)
Definition step (s : svc) (e : event) : option (outcome (svc * reply)) :=
  match e with
  | EvDeployment order group deployed =>
      Some (Ret (updateIPs (on_deployment order group deployed s), NoReply))
  | EvTimer => Some (Ret (updateIPs s, NoReply))
  | EvReserve order resources =>
      if s_open s then Some (handleRequest order resources s) else None
  | EvLookup order group =>
      Some (Ret (s, match List.find (matches order group) (s_reservations s) with
                    | Some r => RepReservation r
                    | None => RepError errReservationNotFound
                    end))
  | EvUnreserve order => Some (Ret (on_unreserve order s))
  | EvInventory None => Some (Ret (s, NoReply))
  | EvInventory (Some inv) => Some (Ret (set_invup (Some inv) s, NoReply))
  | EvUpdate => inv ← s_invup s; Some (let! s := on_update inv s in Ret (s, NoReply))
  | EvChecked result => items ← s_check s; Some (Ret (on_checked items result s, NoReply))
  end.

(** The start: reservations of the deployments found in the cluster. *)
Definition recovered (order : OrderID) (g : ResourceGroup) (cp : cluster_params_value) : reservation :=
  let r := newReservation order g in
  set_teeType (teeTypeFromClusterParams cp)
    (set_group (MkReservation g [] (match cp with CpReservation m => Some m | _ => None end)) r).

Definition start (l : list reservation) : svc :=
  MkSvc None None None (MkUsage 0 0) l (c_ports cfg) false None.

(** The checks of [reserve] before the request is sent. *)
Fixpoint reserve_precheck (idx : nat) (units : list ResourceUnit) : option service_error :=
  match units with
  | [] => None
  | u :: units =>
      match res_CPU (ru_Resources u), res_GPU (ru_Resources u), res_Memory (ru_Resources u) with
      | None, _, _ => Some (ErrInvalidResource "CPU" idx)
      | _, None, _ => Some (ErrInvalidResource "GPU" idx)
      | _, _, None => Some (ErrInvalidResource "Memory" idx)
      | _, _, _ => reserve_precheck (S idx) units
      end
  end.

(** Runs of the loop, with the replies. *)
Inductive run : svc → list (event * reply) → svc → Prop :=
| run_nil s : run s [] s
| run_cons s e s1 rep es s2 :
    step s e = Some (Ret (s1, rep)) → run s1 es s2 → run s ((e, rep) :: es) s2.

End service.
