(* ===== verification/ReservationSound.v ===== *)
(** * The inventory service: its contract

    What the service promises its clients, [held] list by list: a reservation
    is there from the reply to its request until it is unreserved, external
    ports are returned exactly once, leased IPs are not promised twice, and
    with the cluster inventory of the provider no request stops the loop. *)
From Stdlib Require Import Ascii String.
From S2P Require Import Prelude GoStrings ChainTypes ClusterTypes LeaseNames CrdManifest Inventory InventorySound ReservationService InventorySample.

Open Scope string_scope.
Open Scope go_scope.

(** ** The abstract service *)

(** What a client can tell about a reservation. *)
Record held := MkHeld { h_order : OrderID; h_resources : ResourceGroup; h_teeType : TEEType; h_ips : Z }.

Definition holds (r : reservation) : held :=
  MkHeld (rv_order r) (rg_Resources (rv_group r)) (rv_teeType r) (rv_endpointQuantity r).

Lemma map_update_first {B} (g : reservation → B) p f l :
  (∀ r, g (f r) = g r) → map g (update_first p f l) = map g l.
Proof. intros Hf. induction l as [|r l IH]; cbn; [done|]. destruct (p r); cbn; by rewrite ?Hf, ?IH. Qed.

Lemma find_split {A} (p : A → bool) l :
  match List.find p l with
  | Some r => ∃ a b, l = (a ++ r :: b)%list ∧ Forall (λ x, p x = false) a ∧ p r = true
  | None => Forall (λ x, p x = false) l
  end.
Proof.
  induction l as [|r l IH]; cbn; [done|]. destruct (p r) eqn:E; [by exists [], l|].
  destruct (List.find p l) as [r'|]; [|by constructor]. destruct IH as (a & b & -> & Ha & Hr).
  exists (r :: a), b. split_and!; by try constructor.
Qed.

Lemma remove_first_split p a r b :
  Forall (λ x, p x = false) a → p r = true → remove_first p (a ++ r :: b) = (a ++ b)%list.
Proof.
  intros Ha Hr. induction Ha as [|x a Hx Ha IH]; cbn; [by rewrite Hr|]. by rewrite Hx, IH.
Qed.

Lemma update_first_split p f a r b :
  Forall (λ x, p x = false) a → p r = true → update_first p f (a ++ r :: b) = (a ++ f r :: b)%list.
Proof.
  intros Ha Hr. induction Ha as [|x a Hx Ha IH]; cbn; [by rewrite Hr|]. by rewrite Hx, IH.
Qed.

Lemma map_confirm {B} (g : reservation → B) os l :
  (∀ r, g (set_ipsConfirmed true r) = g r) → map g (foldl confirm_order l os) = map g l.
Proof.
  intros Hg. revert l. induction os as [|o os IH]; intros l; cbn; [done|]. rewrite IH.
  by apply map_update_first.
Qed.

Section sound.
Context `{InventoryLaws} `{CommitLevels}.
Variable cfg : svc_config.

(** The reservation a request asks for. *)
Definition asked (order : OrderID) (g : ResourceGroup) : held :=
  MkHeld order (resourcesToCommit cfg g) (teeTypeFromResourceGroup g)
    (Z.of_nat (GetEndpointQuantityOfResourceGroup (resourcesToCommit cfg g) LEASED_IP)).

(** The abstract service is a list of what is held, in the order of the
    requests; [l ⟶ l'] on one event with its reply. *)
Inductive spec_step : list held → event → reply → list held → Prop :=
| spec_reserve l o g r :
    holds r = asked o g →
    spec_step l (EvReserve o g) (RepReservation r) (l ++ [asked o g])
| spec_refuse l o g e :
    spec_step l (EvReserve o g) (RepError e) l
| spec_unreserve a b o r :
    Forall (λ h, h_order h ≠ o) a → rv_order r = o →
    spec_step (a ++ holds r :: b) (EvUnreserve o) (RepReservation r) (a ++ b)
| spec_unreserve_unknown l o :
    Forall (λ h, h_order h ≠ o) l →
    spec_step l (EvUnreserve o) (RepError errReservationNotFound) l
| spec_lookup a b o name r :
    Forall (λ h, ¬ (h_order h = o ∧ GetName (h_resources h) = name)) a →
    rv_order r = o → GetName (rg_Resources (rv_group r)) = name →
    spec_step (a ++ holds r :: b) (EvLookup o name) (RepReservation r) (a ++ holds r :: b)
| spec_lookup_unknown l o name :
    Forall (λ h, ¬ (h_order h = o ∧ GetName (h_resources h) = name)) l →
    spec_step l (EvLookup o name) (RepError errReservationNotFound) l
| spec_internal l e :
    match e with EvReserve _ _ | EvUnreserve _ | EvLookup _ _ => False | _ => True end →
    spec_step l e NoReply l.

Inductive spec_run : list held → list (event * reply) → list held → Prop :=
| spec_run_nil l : spec_run l [] l
| spec_run_cons l e rep l1 tr l2 :
    spec_step l e rep l1 → spec_run l1 tr l2 → spec_run l ((e, rep) :: tr) l2.

(** ** The detailed service *)

Lemma updateIPs_reservations s : s_reservations (updateIPs cfg s) = s_reservations s.
Proof. unfold updateIPs. repeat case_match; done. Qed.

Lemma updateIPs_ports s : s_ports (updateIPs cfg s) = s_ports s.
Proof. unfold updateIPs. repeat case_match; done. Qed.

Lemma resend_reservations s : s_reservations (resend s) = s_reservations s.
Proof. unfold resend. repeat case_match; done. Qed.

Lemma resend_ports s : s_ports (resend s) = s_ports s.
Proof. unfold resend. repeat case_match; done. Qed.

(** What a readjustment may change in a reservation. *)
Definition readjusted (r r' : reservation) : Prop :=
  ∃ g, r' = set_group g r ∧ rg_Resources g = rg_Resources (rv_group r).

Lemma readjusted_refl r : readjusted r r.
Proof. exists (rv_group r). by destruct r. Qed.

Lemma readjust_same inv l inv' l' : readjust cfg inv l = Ret (inv', l') → Forall2 readjusted l l'.
Proof.
  revert inv inv' l'. induction l as [|r l IH]; intros inv inv' l'; cbn; [by intros [= _ <-]|].
  case_match.
  - destruct (readjust cfg inv l) as [[? l1]|] eqn:E; cbn; [|done]. intros [= _ <-].
    constructor; [apply readjusted_refl|by eapply IH].
  - destruct (inv_Adjust _ _ _) as [[[? inv1] g]|] eqn:Ea; cbn; [|done].
    destruct (readjust cfg inv1 l) as [[? l1]|] eqn:E; cbn; [|done]. intros [= _ <-].
    constructor; [|by eapply IH]. exists g. split; [done|]. by eapply inv_Adjust_resources.
Qed.

Lemma readjusted_map {B} (f : reservation → B) l l' :
  (∀ r r', readjusted r r' → f r' = f r) → Forall2 readjusted l l' → map f l' = map f l.
Proof. intros Hf. induction 1 as [|r r' l l' Hr _ IH]; cbn; [done|]. by rewrite (Hf r r' Hr), IH. Qed.

Lemma readjusted_holds r r' : readjusted r r' → holds r' = holds r.
Proof. intros (g & -> & Hg). unfold holds. cbn. by rewrite Hg. Qed.

Lemma on_update_same inv s s' : on_update cfg inv s = Ret s' →
  Forall2 readjusted (s_reservations s) (s_reservations s') ∧ s_ports s' = s_ports s.
Proof.
  unfold on_update. cbv zeta. rewrite updateIPs_reservations. cbn [s_reservations set_invup set_inventory set_currinv].
  destruct (readjust _ _ _) as [[inv' l']|] eqn:E; cbn; [|done]. intros [= <-]. cbn.
  rewrite updateIPs_ports. split; [by eapply readjust_same|done].
Qed.

(** The IPs of a request that passes: none asked for, or enough left. *)
Lemma check_ips_ok r s r' : check_ips cfg r s = Ok r' →
  (rv_endpointQuantity r = 0%Z ∧ r' = set_ipsConfirmed true r) ∨
  (rv_endpointQuantity r ≠ 0%Z ∧ r' = r ∧ c_hasIP cfg = true ∧
   (rv_endpointQuantity r ≤ availableLeasedIPs (u_Available (s_usage s)) (u_InUse (s_usage s))
      (countReservedIPs (s_reservations s)))%Z).
Proof.
  unfold check_ips. repeat case_match; intros; simplify_eq; [right|left].
  - split_and!; try done; [by apply Z.eqb_neq, negb_true_iff|by apply negb_false_iff|by apply Z.ltb_ge].
  - split; [by apply Z.eqb_eq, negb_false_iff|done].
Qed.

Lemma place_spec r s s' rep : place cfg r s = Ret (s', rep) →
  s_ports s' = s_ports s ∧ s_usage s' = s_usage s ∧
  ((∃ e, rep = RepError e ∧ s_reservations s' = s_reservations s ∧ s_inventory s' = s_inventory s) ∨
   (∃ r', rep = RepReservation r' ∧ s_reservations s' = (s_reservations s ++ [r'])%list ∧ readjusted r r')).
Proof.
  unfold place. destruct (s_inventory s) as [inv|] eqn:Ei; cbn [deref obind]; [|done].
  destruct (inv_Adjust _ _ _) as [[[[e|] inv'] g']|] eqn:Ea; cbn [obind]; intros; simplify_eq; (split; [done|split; [done|]]).
  - apply inv_Adjust_error in Ea as [-> _]. left. by eexists.
  - apply inv_Adjust_resources in Ea. right. eexists. split_and!; [done..|]. by eexists.
Qed.

(** The outcome of a request: refused with the reservations and the inventory
    as they were, or held. *)
Lemma handleRequest_spec o g s s' rep : handleRequest cfg o g s = Ret (s', rep) →
  s_ports s' = s_ports s ∧ s_usage s' = s_usage s ∧
  ((∃ e, rep = RepError e ∧ s_reservations s' = s_reservations s ∧ s_inventory s' = s_inventory s) ∨
   (∃ r, rep = RepReservation r ∧ s_reservations s' = (s_reservations s ++ [r])%list ∧ holds r = asked o g
      ∧ rv_allocated r = false ∧ rv_ipsConfirmed r = bool_decide (rv_endpointQuantity r = 0)%Z)).
Proof.
  unfold handleRequest. destruct (check_ips _ _ _) as [r|e] eqn:Ec.
  - intros (Hp & Hu & [?|(r' & -> & Hs & Hr)])%place_spec; (split; [done|split; [done|]]); [by left|right].
    exists r'. pose proof (readjusted_holds _ _ Hr) as Hh. destruct Hr as (g' & -> & _).
    apply check_ips_ok in Ec as [[Hq ->]|(Hq & -> & _)]; (split_and!; [done..|rewrite Hh|done|]); try done; symmetry;
      [by apply bool_decide_eq_true|by apply bool_decide_eq_false].
  - intros [= <- <-]. split_and!; [done..|]. left. by eexists.
Qed.

(** ** Refinement *)

Lemma on_deployment_holds o name d s :
  map holds (s_reservations (on_deployment o name d s)) = map holds (s_reservations s).
Proof.
  unfold on_deployment. destruct (List.find _ _) as [r|]; [|done].
  destruct (negb _); cbv zeta; rewrite ?resend_reservations; by apply map_update_first.
Qed.

Lemma matches_false o name l :
  Forall (λ r, matches o name r = false) l → Forall (λ h, ¬ (h_order h = o ∧ GetName (h_resources h) = name)) (map holds l).
Proof.
  intros Hl. apply Forall_map. eapply Forall_impl; [done|]. intros r Hr [<- <-]. revert Hr.
  unfold matches. cbn. by rewrite bool_decide_true, String.eqb_refl by done.
Qed.

Lemma matches_true o name r : matches o name r = true → rv_order r = o ∧ GetName (rg_Resources (rv_group r)) = name.
Proof. unfold matches. rewrite andb_true_iff, bool_decide_eq_true, String.eqb_eq. done. Qed.

Lemma other_orders o l :
  Forall (λ r, bool_decide (rv_order r = o) = false) l → Forall (λ h, h_order h ≠ o) (map holds l).
Proof. intros Hl. apply Forall_map. eapply Forall_impl; [done|]. intros r Hr. by apply bool_decide_eq_false in Hr. Qed.

Lemma step_refines s e s' rep :
  step cfg s e = Some (Ret (s', rep)) → spec_step (map holds (s_reservations s)) e rep (map holds (s_reservations s')).
Proof.
  destruct e as [o name d| |o g|o name|o|[inv|]| |res]; cbn [step].
  - intros [= <- <-]. rewrite updateIPs_reservations, on_deployment_holds. by constructor.
  - intros [= <- <-]. rewrite updateIPs_reservations. by constructor.
  - case_match; [|done]. intros [= Hs]. apply handleRequest_spec in Hs as (_ & _ & [(e & -> & -> & _)|(r & -> & -> & Hr & _)]).
    + constructor.
    + rewrite map_app. cbn. rewrite Hr. by constructor.
  - intros [= <- <-]. pose proof (find_split (matches o name) (s_reservations s)) as Hf.
    destruct (List.find _ _) as [r|]; [|by constructor; apply matches_false].
    destruct Hf as (a & b & -> & Ha & Hr). apply matches_true in Hr as [Ho Hn]. rewrite map_app. cbn.
    constructor; [by apply matches_false|done..].
  - unfold on_unreserve. pose proof (find_split (λ r, bool_decide (rv_order r = o)) (s_reservations s)) as Hf.
    destruct (List.find _ _) as [r|]; intros [= <- <-]; [|by constructor; apply other_orders].
    destruct Hf as (a & b & E & Ha & Hr). rewrite E.
    assert (∀ (b : bool) s1 s2, s_reservations s1 = s_reservations s2 → s_reservations (if b then s1 else s2) = s_reservations s2) as Hif by by intros [].
    rewrite Hif by done. cbn [s_reservations set_reservations]. rewrite remove_first_split, !map_app by done. cbn.
    constructor; [by apply other_orders|by apply bool_decide_eq_true in Hr].
  - intros [= <- <-]. by constructor.
  - intros [= <- <-]. by constructor.
  - destruct (s_invup s) as [inv|]; cbn; [|done]. destruct (on_update _ _ _) as [s1|] eqn:Eu; cbn; [|done].
    intros [= <- <-]. apply on_update_same in Eu as [Hr _].
    rewrite (readjusted_map holds _ _ readjusted_holds Hr). by constructor.
  - destruct (s_check s) as [items|]; cbn; [|done]. intros [= <- <-]. unfold on_checked.
    destruct res as [[usage status]|]; cbn; rewrite ?map_confirm by done; by constructor.
Qed.

Lemma run_refines s tr s' : run cfg s tr s' → spec_run (map holds (s_reservations s)) tr (map holds (s_reservations s')).
Proof. induction 1; econstructor; eauto using step_refines. Qed.

(** ** What the abstract service does with one order *)

Definition of_order (o : OrderID) (l : list held) : list held := filter (λ h, h_order h = o) l.

(** Events that do not add or remove reservations of [o]. *)
Definition silent (o : OrderID) (e : event) : Prop :=
  match e with EvReserve o' _ | EvUnreserve o' => o' ≠ o | _ => True end.

Lemma of_order_none o l : Forall (λ h, h_order h ≠ o) l ↔ of_order o l = [].
Proof.
  unfold of_order. induction l as [|h l IH]; [done|]. rewrite Forall_cons, filter_cons.
  destruct (decide (h_order h = o)); naive_solver.
Qed.

Lemma spec_step_silent o l e rep l' : silent o e → spec_step l e rep l' → of_order o l' = of_order o l.
Proof.
  intros Hs. destruct 1; cbn in Hs; unfold of_order; rewrite ?filter_app, ?filter_cons, ?filter_nil; try done.
  - rewrite decide_False, app_nil_r by done. done.
  - by rewrite decide_False by (cbn; congruence).
Qed.

Lemma spec_run_silent o l tr l' :
  Forall (λ er, silent o er.1) tr → spec_run l tr l' → of_order o l' = of_order o l.
Proof.
  intros Hs. induction 1 as [|l e rep l1 tr l2 Hstep _ IH]; [done|]. inversion_clear Hs.
  rewrite IH by done. by eapply spec_step_silent.
Qed.

Lemma of_order_in o l h : h ∈ of_order o l ↔ h_order h = o ∧ h ∈ l.
Proof. unfold of_order. by rewrite list_elem_of_filter. Qed.

(** An order with one reservation: a lookup returns it, and after an unreserve
    it is gone. *)
Lemma lookup_only s o h :
  of_order o (map holds (s_reservations s)) = [h] →
  ∃ r, step cfg s (EvLookup o (GetName (h_resources h))) = Some (Ret (s, RepReservation r)) ∧ holds r = h.
Proof.
  intros Hh. destruct (step cfg s (EvLookup o (GetName (h_resources h)))) as [[[s' rep]|]|] eqn:E; try done.
  pose proof (step_refines _ _ _ _ E) as Hspec. cbn [step] in E. injection E as <- _.
  assert (h_order h = o ∧ h ∈ map holds (s_reservations s)) as [Ho Hin] by (apply of_order_in; rewrite Hh; set_solver).
  inversion Hspec as [| | | |a b ? ? r Ha Hr Hn Hl Hrep|? ? ? Hl|]; subst; try done.
  - exists r. split; [done|]. assert (holds r ∈ of_order (rv_order r) (map holds (s_reservations s))) as Hm.
    { apply of_order_in. split; [done|]. rewrite <- Hl. set_solver. }
    rewrite Hr, Hh in Hm. by apply list_elem_of_singleton in Hm.
  - rewrite Forall_forall in Hl. by destruct (Hl h Hin).
Qed.

Lemma lookup_none s o name :
  of_order o (map holds (s_reservations s)) = [] →
  step cfg s (EvLookup o name) = Some (Ret (s, RepError errReservationNotFound)).
Proof.
  intros Hh. destruct (step cfg s (EvLookup o name)) as [[[s' rep]|]|] eqn:E; try done.
  pose proof (step_refines _ _ _ _ E) as Hspec. cbn [step] in E. injection E as <- _.
  inversion Hspec as [| | | |a b ? ? r Ha Hr Hn Hl Hrep|? ? ? Hl|]; subst; try done.
  assert (holds r ∈ of_order (rv_order r) (map holds (s_reservations s))) as Hm.
  { apply of_order_in. split; [done|]. rewrite <- Hl. set_solver. }
  rewrite Hh in Hm. by apply elem_of_nil in Hm.
Qed.

Lemma unreserve_only s o h :
  of_order o (map holds (s_reservations s)) = [h] →
  ∃ s' r, step cfg s (EvUnreserve o) = Some (Ret (s', RepReservation r)) ∧ holds r = h
    ∧ of_order o (map holds (s_reservations s')) = [].
Proof.
  intros Hh. cbn [step]. destruct (on_unreserve o s) as [s' rep] eqn:E.
  assert (step cfg s (EvUnreserve o) = Some (Ret (s', rep))) as Hspec%step_refines by (cbn; by rewrite E).
  exists s'. inversion Hspec as [| |a b ? r Ha Hr Hl|? ? Hl| | |]; subst; try done.
  - exists r. split; [done|]. rewrite <- Hl in Hh. unfold of_order in *. rewrite filter_app, filter_cons in Hh.
    rewrite decide_True, filter_app in * by done. apply of_order_none in Ha as Ha'. unfold of_order in Ha'.
    rewrite Ha' in *. by injection Hh as ? ->.
  - apply of_order_none in Hl. congruence.
Qed.

(** ** External ports *)

(** The ports of a reservation while it is deployed. *)
Definition ports_of (r : reservation) : Z := if rv_allocated r then reservationCountEndpoints r else 0%Z.
Definition ports_held (l : list reservation) : Z := sum_Z (map ports_of l).

Lemma ports_held_split a r b : ports_held (a ++ r :: b) = (ports_held (a ++ b) + ports_of r)%Z.
Proof. unfold ports_held. rewrite !map_app, !sum_Z_app, map_cons. unfold sum_Z at 2. rewrite foldr_cons. unfold sum_Z. lia. Qed.

Lemma ports_of_readjusted r r' : readjusted r r' → ports_of r' = ports_of r.
Proof. intros (g & -> & Hg). unfold ports_of, reservationCountEndpoints. cbn. by rewrite Hg. Qed.

Lemma u64_add_l a b : u64 (u64 a + b) = u64 (a + b).
Proof. unfold u64. apply Zplus_mod_idemp_l. Qed.

(** The free ports and the held ones, modulo the width of [uint]. *)
Definition ports_total (s : svc) : Z := u64 (s_ports s + ports_held (s_reservations s)).

Lemma on_deployment_ports o name d s : ports_total (on_deployment o name d s) = ports_total s.
Proof.
  unfold on_deployment. pose proof (find_split (matches o name) (s_reservations s)) as Hf.
  destruct (List.find _ _) as [r|]; [|done]. destruct Hf as (a & b & E & Ha & Hr).
  cbv zeta. unfold ports_total.
  destruct (negb _) eqn:Ed.
  - rewrite resend_reservations, resend_ports. cbn [s_ports s_reservations set_ports set_reservations].
    rewrite E, update_first_split, !ports_held_split by done. apply negb_true_iff, eqb_false_iff in Ed.
    assert (∀ b, ports_of (set_allocated b r) = if b then reservationCountEndpoints r else 0%Z) as Hpo by done.
    rewrite Hpo. unfold ports_of. destruct (rv_allocated r), d; try done; rewrite u64_add_l; f_equal; lia.
  - cbn [s_ports s_reservations set_reservations]. rewrite E, update_first_split, !ports_held_split by done.
    apply negb_false_iff, eqb_prop in Ed. subst d. by destruct r.
Qed.

Lemma step_ports s e s' rep : step cfg s e = Some (Ret (s', rep)) → ports_total s' = ports_total s.
Proof.
  destruct e as [o name d| |o g|o name|o|[inv|]| |res]; cbn [step].
  - intros [= <- _]. unfold ports_total. rewrite updateIPs_reservations, updateIPs_ports. apply on_deployment_ports.
  - intros [= <- _]. unfold ports_total. by rewrite updateIPs_reservations, updateIPs_ports.
  - case_match; [|done]. intros [= Hs]. unfold ports_total.
    apply handleRequest_spec in Hs as (-> & _ & [(e & _ & -> & _)|(r & _ & -> & _ & Ha & _)]); [done|].
    rewrite ports_held_split, app_nil_r. unfold ports_of. by rewrite Ha, Z.add_0_r.
  - by intros [= <- _].
  - unfold on_unreserve. pose proof (find_split (λ r, bool_decide (rv_order r = o)) (s_reservations s)) as Hf.
    destruct (List.find _ _) as [r|]; intros [= <- _]; [|done].
    destruct Hf as (a & b & E & Ha & Hr). unfold ports_total. rewrite E.
    destruct (rv_allocated r) eqn:Eal; cbn [s_ports s_reservations set_reservations set_ports];
      rewrite remove_first_split, ports_held_split by done; unfold ports_of; rewrite Eal, ?u64_add_l; f_equal; lia.
  - by intros [= <- _].
  - by intros [= <- _].
  - destruct (s_invup s) as [inv|]; cbn; [|done]. destruct (on_update _ _ _) as [s1|] eqn:Eu; cbn; [|done].
    intros [= <- _]. apply on_update_same in Eu as [Hr Hp]. unfold ports_total, ports_held.
    by rewrite Hp, (readjusted_map ports_of _ _ ports_of_readjusted Hr).
  - destruct (s_check s) as [items|]; cbn; [|done]. intros [= <- _]. unfold on_checked, ports_total, ports_held.
    destruct res as [[usage status]|]; cbn; by rewrite ?map_confirm.
Qed.

Lemma run_ports s tr s' : run cfg s tr s' → ports_total s' = ports_total s.
Proof. induction 1 as [|s e s1 rep tr s2 Hstep _ IH]; [done|]. rewrite IH. by eapply step_ports. Qed.

(** ** Leased IPs *)

(** The IPs of a reservation that the operator has not confirmed. *)
Definition pending_ips (r : reservation) : Z := if rv_ipsConfirmed r then 0%Z else rv_endpointQuantity r.
Definition ips_pending (l : list reservation) : Z := sum_Z (map pending_ips l).

Lemma ips_pending_split a r b : ips_pending (a ++ r :: b) = (ips_pending (a ++ b) + pending_ips r)%Z.
Proof. unfold ips_pending. rewrite !map_app, !sum_Z_app, map_cons. unfold sum_Z at 2. rewrite foldr_cons. unfold sum_Z. lia. Qed.

Lemma countReservedIPs_from l z :
  foldl (λ reserved entry, if negb (rv_ipsConfirmed entry) then u64 (reserved + rv_endpointQuantity entry)
                           else reserved) (u64 z) l = u64 (z + ips_pending l).
Proof.
  revert z. induction l as [|r l IH]; intros z; [cbn; by rewrite Z.add_0_r|].
  cbn [foldl]. pose proof (ips_pending_split [] r l) as E. cbn [app] in E. rewrite E. unfold pending_ips.
  destruct (rv_ipsConfirmed r); cbn [negb]; [rewrite IH; f_equal; lia|].
  rewrite u64_add_l, IH. f_equal. lia.
Qed.

Lemma countReservedIPs_eq l : countReservedIPs l = u64 (ips_pending l).
Proof. exact (countReservedIPs_from l 0). Qed.

(** What the operator uses and what is promised fits what there is. *)
Definition ips_fit (s : svc) : Prop :=
  (0 ≤ u_InUse (s_usage s))%Z ∧ (u_Available (s_usage s) < 2 ^ 64)%Z ∧
  Forall (λ r, 0 ≤ rv_endpointQuantity r)%Z (s_reservations s) ∧
  (u_InUse (s_usage s) + ips_pending (s_reservations s) ≤ u_Available (s_usage s))%Z.

Lemma pending_nonneg r : (0 ≤ rv_endpointQuantity r)%Z → (0 ≤ pending_ips r)%Z.
Proof. unfold pending_ips. case_match; lia. Qed.

Lemma ips_pending_nonneg l : Forall (λ r, 0 ≤ rv_endpointQuantity r)%Z l → (0 ≤ ips_pending l)%Z.
Proof.
  induction 1 as [|r l Hr _ IH]; [done|]. pose proof (ips_pending_split [] r l) as E. cbn [app] in E.
  pose proof (pending_nonneg r Hr). lia.
Qed.

(** Steps that change neither the IPs of the reservations nor the usage. *)
Definition ip_view (r : reservation) : bool * Z := (rv_ipsConfirmed r, rv_endpointQuantity r).

Lemma ip_view_map {B} (h : bool * Z → B) l l' :
  map ip_view l' = map ip_view l → map (λ r, h (ip_view r)) l' = map (λ r, h (ip_view r)) l.
Proof. intros E. by rewrite <- !(map_map ip_view h), E. Qed.

Lemma ip_view_fit s s' :
  map ip_view (s_reservations s') = map ip_view (s_reservations s) → s_usage s' = s_usage s → ips_fit s → ips_fit s'.
Proof.
  intros Hv Hu. unfold ips_fit. rewrite Hu. intros (? & ? & Hq & Hle). split_and!; [done..| |].
  - apply (Forall_map rv_endpointQuantity (λ z, 0 ≤ z)%Z) in Hq. apply (Forall_map rv_endpointQuantity (λ z, 0 ≤ z)%Z).
    by rewrite (ip_view_map snd _ _ Hv : map rv_endpointQuantity _ = map rv_endpointQuantity _).
  - unfold ips_pending in *.
    by rewrite (ip_view_map (λ v, if v.1 then 0%Z else v.2) _ _ Hv : map pending_ips _ = map pending_ips _).
Qed.

Lemma updateIPs_usage s : s_usage (updateIPs cfg s) = s_usage s.
Proof. unfold updateIPs. repeat case_match; done. Qed.

Lemma handleRequest_fit o g s s' rep : handleRequest cfg o g s = Ret (s', rep) → ips_fit s → ips_fit s'.
Proof.
  unfold handleRequest. destruct (check_ips _ _ _) as [r|e] eqn:Ec; [|by intros [= <- _]].
  intros (_ & Hu & [(e & _ & Hl & _)|(r' & _ & Hl & Hr)])%place_spec; [apply ip_view_fit; by rewrite ?Hl|].
  unfold ips_fit. rewrite Hu, Hl. intros (? & ? & Hq & Hfit). rewrite ips_pending_split, app_nil_r.
  destruct Hr as (g' & -> & _). rewrite Forall_app, Forall_singleton. unfold pending_ips. cbn [rv_ipsConfirmed rv_endpointQuantity set_group set_teeType].
  apply check_ips_ok in Ec as [[Hz ->]|(Hz & -> & _ & Hle)]; cbn [rv_ipsConfirmed rv_endpointQuantity set_ipsConfirmed newReservation] in *.
  - split_and!; try done; lia.
  - split_and!; try done; [lia|]. rewrite countReservedIPs_eq in Hle. pose proof (ips_pending_nonneg _ Hq).
    rewrite u64_id in Hle by lia. unfold availableLeasedIPs in Hle. repeat case_match; lia.
Qed.

Lemma on_deployment_ips o name d s :
  map ip_view (s_reservations (on_deployment o name d s)) = map ip_view (s_reservations s)
  ∧ s_usage (on_deployment o name d s) = s_usage s.
Proof.
  unfold on_deployment. destruct (List.find _ _) as [r|]; [|done]. destruct (negb _); cbv zeta.
  - rewrite resend_reservations. split; [by apply map_update_first|]. unfold resend. repeat case_match; done.
  - split; [by apply map_update_first|done].
Qed.

Lemma step_ips s e s' rep :
  match e with EvChecked (Some _) => False | _ => True end →
  step cfg s e = Some (Ret (s', rep)) → ips_fit s → ips_fit s'.
Proof.
  destruct e as [o name d| |o g|o name|o|[inv|]| |[?|]]; intros He; cbn [step]; try done.
  - intros [= <- _]. destruct (on_deployment_ips o name d s).
    apply ip_view_fit; by rewrite ?updateIPs_reservations, ?updateIPs_usage.
  - intros [= <- _]. apply ip_view_fit; by rewrite ?updateIPs_reservations, ?updateIPs_usage.
  - case_match; [|done]. intros [= Hs]. by eapply handleRequest_fit.
  - by intros [= <- _].
  - unfold on_unreserve. pose proof (find_split (λ r, bool_decide (rv_order r = o)) (s_reservations s)) as Hf.
    destruct (List.find _ _) as [r|]; intros [= <- _]; [|done].
    destruct Hf as (a & b & E & Ha & Hr). unfold ips_fit. rewrite E, ips_pending_split.
    rewrite (Forall_app _ a (r :: b)), Forall_cons. intros (? & ? & (Hqa & Hq & Hqb) & ?). pose proof (pending_nonneg r Hq).
    destruct (rv_allocated r); cbn [s_usage s_reservations set_reservations set_ports];
      rewrite remove_first_split, Forall_app by done; (split_and!; [done..|lia]).
  - by intros [= <- _].
  - by intros [= <- _].
  - destruct (s_invup s) as [inv|]; cbn; [|done]. unfold on_update. cbv zeta.
    destruct (readjust _ _ _) as [[inv' l']|] eqn:Er; cbn; [|done]. intros [= <- _]. apply readjust_same in Er.
    rewrite updateIPs_reservations in Er.
    apply ip_view_fit; cbn [s_reservations set_reservations s_usage set_inventory]; [|by rewrite updateIPs_usage].
    eapply (readjusted_map ip_view); [|exact Er]. by intros ? ? (? & -> & _).
  - destruct (s_check s) as [items|]; cbn; [|done]. by intros [= <- _].
Qed.

Lemma run_ips s tr s' :
  Forall (λ er, match er.1 with EvChecked (Some _) => False | _ => True end) tr →
  run cfg s tr s' → ips_fit s → ips_fit s'.
Proof.
  intros Hs. induction 1 as [|s e s1 rep tr s2 Hstep _ IH]; [done|]. inversion_clear Hs.
  intros Hfit. apply IH; [done|]. by eapply step_ips.
Qed.

(** ** Properties *)

(** Claim C8.  Any run of the loop is a run of the abstract service on what
    is held: a reservation is granted with the committed resources and the TEE
    type of the request and appended, a refused request leaves everything as
    it was, an unreserve removes the first reservation of the order and returns
    it, a lookup returns the first reservation of the order and group, and no
    other event (deployments, timers, new inventories, IP checks) adds,
    removes or changes what is held. *)
Theorem service_refines (s s' : svc) (tr : list (event * reply)) (Hrun : run cfg s tr s') :
  spec_run (map holds (s_reservations s)) tr (map holds (s_reservations s')).
Proof. exact (run_refines s tr s' Hrun). Qed.

(** The life of a reservation.  When an order that holds nothing is
    granted a reservation, then whatever happens to other orders, to
    deployments, inventories and IP checks, a lookup returns that reservation;
    unreserving returns it too, and afterwards the order is not found. *)
Theorem reservation_lifecycle (s s1 s2 : svc) (o : OrderID) (g : ResourceGroup) (r : reservation) (tr : list (event * reply))
  (Hfree : Forall (λ x, rv_order x ≠ o) (s_reservations s))
  (Hreserve : step cfg s (EvReserve o g) = Some (Ret (s1, RepReservation r)))
  (Hrun : run cfg s1 tr s2) (Hsilent : Forall (λ er, silent o er.1) tr) :
  (∃ r', step cfg s2 (EvLookup o (GetName g)) = Some (Ret (s2, RepReservation r')) ∧ holds r' = asked o g) ∧
  (∃ s3 r', step cfg s2 (EvUnreserve o) = Some (Ret (s3, RepReservation r')) ∧ holds r' = asked o g
     ∧ ∀ name, step cfg s3 (EvLookup o name) = Some (Ret (s3, RepError errReservationNotFound))).
Proof.
  assert (of_order o (map holds (s_reservations s2)) = [asked o g]) as Ho.
  { rewrite (spec_run_silent o _ tr _ Hsilent (run_refines _ _ _ Hrun)).
    apply step_refines in Hreserve. inversion Hreserve as [? ? ? ? Hr Hl| | | | | |]; subst.
    assert (of_order o (map holds (s_reservations s)) = []) as Hnone by by apply of_order_none, Forall_map.
    unfold of_order in *. by rewrite filter_app, Hnone, filter_cons, decide_True. }
  split; [exact (lookup_only s2 o (asked o g) Ho)|].
  destruct (unreserve_only s2 o _ Ho) as (s3 & r' & Hs & Hr & Hnone). exists s3, r'. split_and!; [done..|].
  intros name. by apply lookup_none.
Qed.

(** External ports are conserved: from the start of the service,
    with no deployment marked as running, the free ports and the ports of the
    deployed reservations always add up to the configured quantity (in the
    arithmetic of [uint]), whatever the deployments, closures, replays of
    inventories and IP checks in between; so a port is taken once when its
    deployment is up and returned once, when it goes down or is unreserved. *)
Theorem ports_conserved (l : list reservation) (tr : list (event * reply)) (s : svc)
  (Hpending : Forall (λ r, rv_allocated r = false) l) (Hports : (0 ≤ c_ports cfg < 2 ^ 64)%Z)
  (Hrun : run cfg (start cfg l) tr s) :
  u64 (s_ports s + ports_held (s_reservations s)) = c_ports cfg.
Proof.
  change (ports_total s = c_ports cfg). rewrite (run_ports _ _ _ Hrun). unfold ports_total, start. cbn [s_ports s_reservations].
  assert (ports_held l = 0%Z) as ->; [|rewrite Z.add_0_r; by apply u64_id].
  clear Hrun. induction Hpending as [|r l Hr _ IH]; [done|].
  change (ports_of r + ports_held l = 0)%Z. unfold ports_of. by rewrite Hr, IH.
Qed.

(** Leased IPs are not promised twice: when the addresses the
    operator uses and those of the unconfirmed reservations fit the addresses
    there are, they still fit after any run that brings no new report of the
    operator, however many reservations with leased IPs are granted, deployed
    or removed in it. *)
Theorem ips_not_overcommitted (s s' : svc) (tr : list (event * reply))
  (Hfit : ips_fit s) (Hrun : run cfg s tr s')
  (Hreports : Forall (λ er, match er.1 with EvChecked (Some _) => False | _ => True end) tr) :
  (u_InUse (s_usage s') + countReservedIPs (s_reservations s') ≤ u_Available (s_usage s'))%Z.
Proof.
  pose proof (run_ips s tr s' Hreports Hrun Hfit) as (? & ? & Hq & ?). rewrite countReservedIPs_eq.
  pose proof (ips_pending_nonneg _ Hq). rewrite u64_id; lia.
Qed.

End sound.

(** ** No panic *)

Section safe.
Context `{InventoryLaws} `{CommitLevels} {Hsafe : InventorySafe}.
Variable cfg : svc_config.

Definition opt_good (i : option Inv) : Prop := from_option inv_good True i.

Definition svc_good (s : svc) : Prop :=
  opt_good (s_inventory s) ∧ opt_good (s_currinv s) ∧ opt_good (s_invup s) ∧
  Forall (λ r, req_good (rg_Resources (rv_group r))) (s_reservations s).

(** There is an inventory; or, without IP operator, requests are not taken
    until there is one. *)
Definition ready (s : svc) : Prop :=
  is_Some (s_inventory s) ∨ (c_hasIP cfg = false ∧ s_check s = None ∧ s_open s = false).

Definition event_good (e : event) : Prop :=
  match e with
  | EvReserve _ g => req_good (resourcesToCommit cfg g)
  | EvInventory (Some inv) => inv_good inv
  | _ => True
  end.

Lemma req_good_map l l' :
  map holds l' = map holds l → Forall (λ r, req_good (rg_Resources (rv_group r))) l →
  Forall (λ r, req_good (rg_Resources (rv_group r))) l'.
Proof.
  intros E Hl. apply (Forall_map holds (λ h, req_good (h_resources h))). rewrite E. by apply Forall_map.
Qed.

Lemma updateIPs_good s : svc_good s → svc_good (updateIPs cfg s).
Proof. intros Hs. unfold updateIPs. repeat case_match; done. Qed.

Lemma updateIPs_inventory s : s_inventory (updateIPs cfg s) = s_inventory s.
Proof. unfold updateIPs. repeat case_match; done. Qed.

Lemma updateIPs_ready s : ready s → ready (updateIPs cfg s).
Proof.
  unfold ready. rewrite updateIPs_inventory. intros [?|(Hip & Hc & Ho)]; [by left|].
  destruct (s_inventory s) as [i|] eqn:Ei; [by left; eexists|right]. unfold updateIPs. by rewrite Hip, Ei.
Qed.

Lemma readjust_good l inv :
  inv_good inv → Forall (λ r, req_good (rg_Resources (rv_group r))) l →
  ∃ inv' l', readjust cfg inv l = Ret (inv', l') ∧ inv_good inv'.
Proof.
  intros Hinv Hl. revert inv Hinv. induction Hl as [|r l Hr _ IH]; intros inv Hinv; cbn; [by eexists _, _|].
  destruct (rv_allocated r).
  - destruct (IH inv Hinv) as (inv' & l' & -> & ?). by eexists _, _.
  - destruct (inv_Adjust_good inv (rv_group r) (adjustOpts cfg (rv_teeType r)) Hinv Hr) as (e & inv1 & g & -> & H1').
    cbn. destruct (IH inv1 H1') as (inv' & l' & -> & ?). by eexists _, _.
Qed.

Lemma handleRequest_good o g s :
  svc_good s → is_Some (s_inventory s) → req_good (resourcesToCommit cfg g) →
  ∃ s' rep, handleRequest cfg o g s = Ret (s', rep) ∧ svc_good s' ∧ is_Some (s_inventory s').
Proof.
  intros (Hi & Hc & Hu & Hl) [inv Einv] Hg. unfold handleRequest. destruct (check_ips _ _ _) as [r|] eqn:Ec; [|by eexists _, _].
  assert (rg_Resources (rv_group r) = resourcesToCommit cfg g) as Hr.
  { by apply check_ips_ok in Ec as [[_ ->]|(_ & -> & _)]. }
  unfold place. rewrite Einv in *. cbn [deref obind rv_group rv_teeType set_teeType].
  destruct (inv_Adjust_good inv (rv_group r) (adjustOpts cfg (teeTypeFromResourceGroup g)) Hi) as (e & inv' & g' & Ea & Hok);
    [by rewrite Hr|]. rewrite Ea. cbn [obind].
  destruct e; (eexists _, _; split; [done|]); unfold svc_good; cbn; (split; [split_and!|]); try done.
  apply Forall_app. split; [done|]. apply Forall_singleton. cbn. by rewrite (inv_Adjust_resources _ _ _ _ _ _ Ea), Hr.
Qed.

Lemma on_update_good inv s :
  inv_good inv → svc_good s → ∃ s', on_update cfg inv s = Ret s' ∧ svc_good s' ∧ is_Some (s_inventory s').
Proof.
  intros Hinv (Hi & Hc & Hu & Hl). unfold on_update. cbv zeta. rewrite updateIPs_reservations. cbn [s_reservations set_invup set_inventory set_currinv].
  destruct (readjust_good _ _ Hinv Hl) as (inv' & l' & Er & Hok). rewrite Er. cbn [obind]. eexists. split; [done|].
  assert (svc_good (updateIPs cfg (set_invup None (set_inventory (Some inv) (set_currinv (Some (inv_Dup inv)) s))))) as (_ & ? & ? & _).
  { apply updateIPs_good. split_and!; cbn; auto using inv_Dup_good. }
  split; [|done]. split_and!; try done. cbn. apply readjust_same in Er.
  eapply req_good_map; [|exact Hl]. exact (readjusted_map holds _ _ readjusted_holds Er).
Qed.

Lemma on_deployment_good o name d s :
  svc_good s → ready s → svc_good (on_deployment o name d s) ∧ ready (on_deployment o name d s).
Proof.
  intros (Hi & Hc & Hu & Hl) Hr. pose proof (on_deployment_holds o name d s) as Hh.
  split; [split_and!|]; [..|by eapply req_good_map|]; clear Hh; revert Hi Hc Hu Hr;
    unfold on_deployment, ready, resend; repeat case_match; cbn [s_inventory s_currinv s_invup s_check s_open
      set_reservations set_ports set_invup] in *; intros; simplify_eq; try done; by try congruence.
Qed.

Lemma on_unreserve_good o s : svc_good s → ready s → svc_good (on_unreserve o s).1 ∧ ready (on_unreserve o s).1.
Proof.
  intros (Hi & Hc & Hu & Hl) Hr. unfold on_unreserve.
  pose proof (find_split (λ r, bool_decide (rv_order r = o)) (s_reservations s)) as Hf.
  destruct (List.find _ _) as [r|]; [|done]. destruct Hf as (a & b & E & Ha & Hx). rewrite E in Hl.
  rewrite Forall_app, Forall_cons in Hl. destruct Hl as (? & ? & ?).
  split; [|by destruct (rv_allocated r)]. split_and!; [by destruct (rv_allocated r)..|].
  cbn [fst]. rewrite E. destruct (rv_allocated r); cbn [s_reservations set_reservations set_ports];
    rewrite remove_first_split by done; by apply Forall_app.
Qed.

Lemma step_good s e :
  svc_good s → ready s → event_good e →
  match step cfg s e with
  | Some (Ret (s', _)) => svc_good s' ∧ ready s'
  | Some Panic => False
  | None => True
  end.
Proof.
  intros Hs Hr He. destruct e as [o name d| |o g|o name|o|[inv|]| |res]; cbn [step].
  - destruct (on_deployment_good o name d s Hs Hr). auto using updateIPs_good, updateIPs_ready.
  - auto using updateIPs_good, updateIPs_ready.
  - destruct (s_open s) eqn:Eo; [|done].
    assert (is_Some (s_inventory s)) as Hi by by destruct Hr as [?|(_ & _ & ?)]; [|congruence].
    destruct (handleRequest_good o g s Hs Hi He) as (s' & rep & -> & ? & ?). split; [done|by left].
  - done.
  - pose proof (on_unreserve_good o s Hs Hr). by destruct (on_unreserve o s).
  - destruct Hs as (? & ? & ? & ?). split; [by split_and!|done].
  - done.
  - destruct (s_invup s) as [inv|] eqn:Eu; cbn; [|done].
    assert (inv_good inv) as Hinv by (destruct Hs as (_ & _ & Hu & _); by rewrite Eu in Hu).
    destruct (on_update_good inv s Hinv Hs) as (s' & -> & ? & ?). cbn. split; [done|by left].
  - destruct (s_check s) as [items|] eqn:Ec; cbn; [|done]. destruct Hr as [Hr|(_ & ? & _)]; [|congruence].
    destruct Hs as (? & ? & ? & ?). unfold on_checked, svc_good, ready.
    destruct res as [[usage status]|]; cbn; (split; [|by left]); split_and!; try done.
    eapply req_good_map; [|done]. by apply map_confirm.
Qed.

Lemma run_good s tr s' :
  Forall (λ er, event_good er.1) tr → run cfg s tr s' → svc_good s → ready s → svc_good s' ∧ ready s'.
Proof.
  intros He. induction 1 as [|s e s1 rep tr s2 Hstep _ IH]; [done|]. inversion_clear He. intros Hs Hr.
  pose proof (step_good s e Hs Hr ltac:(done)) as Hg. rewrite Hstep in Hg. destruct Hg. by apply IH.
Qed.

(** The loop does not panic: with an inventory whose [Adjust] is
    safe, started without an IP operator or entered with an inventory at hand,
    no sequence of good events leads to a state in which a good event makes a
    request, an update or a check panic, and the service is in a state of the
    same kind again. *)
Theorem service_never_panics (s s' : svc) (tr : list (event * reply)) (e : event)
  (Hs : svc_good s) (Hready : ready s) (Hrun : run cfg s tr s')
  (Htr : Forall (λ er, event_good er.1) tr) (He : event_good e) :
  match step cfg s' e with
  | Some (Ret (s2, _)) => svc_good s2 ∧ ready s2
  | Some Panic => False
  | None => True
  end.
Proof. destruct (run_good s tr s' Htr Hrun Hs Hready). by apply step_good. Qed.

End safe.

(** ** The cluster inventory as the inventory of the service *)

Section kube.
Context `{GoUnicode} `{PairLaws} `{ChainSdk}.

(** Out of fuel counts as a panic; [adjust_accounts] excludes both. *)
#[export] Instance kube_ops : InventoryOps := {|
  Inv := inventory;
  inv_Adjust inv r opts := default Panic (Adjust inv r opts);
  inv_Dup inv := inv
|}.

#[export] Instance kube_laws : InventoryLaws.
Proof.
  split; intros inv r opts e inv' r'; cbn; unfold Adjust; cbv zeta; repeat case_match; cbn; intros; simplify_eq; done.
Qed.

#[export, refine] Instance kube_safe : InventorySafe := {|
  inv_good inv := cluster_ok (inv_sanitized inv);
  req_good g := Forall (λ u, valid_request (ru_Resources u)) (GetResourceUnits g)
|}.
Proof.
  - done.
  - intros inv r opts Hinv Hr. cbn. destruct (adjust_fits inv r opts Hinv Hr) as (e & inv' & r' & Ha & Hspec).
    rewrite Ha. exists e, inv', r'. split; [done|]. destruct e; [by destruct Hspec as [-> _]|].
    destruct Hspec as (tr & c' & Hfits & _ & -> & _). case_match; [done|]. by destruct Hfits.
Defined.

(** Requests that pass the checks of [reserve] are good ones, when committed
    amounts are not negative. *)
Lemma reserve_checked `{CommitLevels} cfg g :
  (∀ l v, 0 ≤ v → 0 ≤ ComputeCommittedResources l v)%Z →
  Forall (λ u, valid_request (ru_Resources u)) (GetResourceUnits g) →
  req_good (resourcesToCommit cfg g).
Proof.
  intros Hc Hg. cbn. apply Forall_map. eapply Forall_impl; [exact Hg|]. intros u (Hcpu & Hmem & Hgpu & Hst).
  destruct Hcpu as (c & Ec & ?), Hmem as (m & Em & ?), Hgpu as (gp & Eg & ?). unfold valid_request, commit_unit. cbn.
  rewrite Ec, Em, Eg. split_and!; [by eexists; split; [done|apply Hc]..|].
  apply Forall_map. eapply Forall_impl; [exact Hst|]. intros v ?. by apply Hc.
Qed.

End kube.

(** * The inventory service on a sample cluster

    The witnesses of the service's properties on the cluster inventory, and two
    runs in which it does not behave as meant. *)
Module ReservationSample.


Import MilliQuantities InventorySample.Sample.


(** ** Runs by evaluation *)

Section exec.
Context `{InventoryOps} `{CommitLevels}.

Fixpoint exec (cfg : svc_config) (s : svc) (es : list event) : option (list (event * reply) * svc) :=
  match es with
  | [] => Some ([], s)
  | e :: es =>
      match step cfg s e with
      | Some (Ret (s1, rep)) => '(tr, s2) ← exec cfg s1 es; Some ((e, rep) :: tr, s2)
      | _ => None
      end
  end.

Lemma exec_run cfg s es tr s' : exec cfg s es = Some (tr, s') → run cfg s tr s'.
Proof.
  revert s tr. induction es as [|e es IH]; intros s tr; cbn; [intros [= <- <-]; constructor|].
  destruct (step cfg s e) as [[[s1 rep]|]|] eqn:E; try done.
  destruct (exec cfg s1 es) as [[tr1 s2]|] eqn:Ee; cbn; [|done]. intros [= <- <-].
  econstructor; [done|by apply IH].
Qed.

Lemma exec_events cfg s es tr s' : exec cfg s es = Some (tr, s') → map fst tr = es.
Proof.
  revert s tr. induction es as [|e es IH]; intros s tr; cbn; [by intros [= <- _]|].
  destruct (step cfg s e) as [[[s1 rep]|]|] eqn:E; try done.
  destruct (exec cfg s1 es) as [[tr1 s2]|] eqn:Ee; cbn; [|done]. intros [= <- <-]. cbn. by rewrite (IH s1 tr1 Ee).
Qed.

End exec.

Module ServiceSample.

#[export] Instance full_commit : CommitLevels := {|
  CommitLevel := unit; ComputeCommittedResources _ v := v |}.

Definition config (hasIP : bool) : svc_config := MkConfig tt tt tt tt EmptyString hasIP 10.
Definition order (n : Z) : OrderID := MkOrder "akash1owner" n 1 1.

(** Two replicas with [ports] external ports, one leased IP when [ip]. *)
Definition res_group (ports : nat) (ip : bool) (attrs : Attributes) : ResourceGroup :=
  AGroup (MkGroupSpec "west" attrs
    [MkUnit (MkResources 1 (Some (MkCPU 1000 [])) (Some (MkMemory GiB [])) [] (Some (MkGPU 0 []))
       (repeat (MkEndpoint RANDOM_PORT 0) ports ++ (if ip then [MkEndpoint LEASED_IP 1] else []))%list) 2]).

Definition first_inventory : list event := [EvInventory (Some (newInventory ring)); EvUpdate].
Definition free_usage : event := EvChecked (Some (MkUsage 4 1, λ _, None)).

(** The state after a run that goes through. *)
Definition after (hasIP : bool) (es : list event) : option (list (event * reply) * svc) :=
  exec (config hasIP) (start (config hasIP) []) es.
Definition state (hasIP : bool) (es : list event) : svc := from_option snd (start (config hasIP) []) (after hasIP es).
Definition trace (hasIP : bool) (es : list event) : list (event * reply) := from_option fst [] (after hasIP es).

Lemma after_run hasIP es : is_Some (after hasIP es) → run (config hasIP) (start (config hasIP) []) (trace hasIP es) (state hasIP es).
Proof.
  intros [[tr s] E]. unfold trace, state. rewrite E. cbn. unfold after in E. by apply exec_run in E.
Qed.

Lemma after_events hasIP es : is_Some (after hasIP es) → map fst (trace hasIP es) = es.
Proof. intros [[tr s] E]. unfold trace. rewrite E. unfold after in E. by eapply exec_events. Qed.

Definition is_Some_b {A} (o : option A) : bool := if o then true else false.
Lemma is_Some_b_spec {A} (o : option A) : is_Some_b o = true → is_Some o.
Proof. destruct o; [by eexists|done]. Qed.

Definition is_panic {A} (o : option (outcome A)) : bool := match o with Some Panic => true | _ => false end.
Lemma is_panic_spec {A} (o : option (outcome A)) : is_panic o = true → o = Some Panic.
Proof. by destruct o as [[]|]. Qed.

End ServiceSample.
Import ServiceSample.

Definition busy : list event :=
  (first_inventory ++ [EvReserve (order 1) (res_group 2 false []); EvDeployment (order 1) "west" true;
     EvReserve (order 2) (res_group 1 false []); EvUpdate; EvLookup (order 1) "west"; EvUnreserve (order 2)])%list.

Lemma busy_runs : is_Some (after false busy).
Proof. apply is_Some_b_spec. vm_compute. reflexivity. Qed.

Lemma service_refines_witness :
  run (config false) (start (config false) []) (trace false busy) (state false busy)
  ∧ spec_run (config false) [] (trace false busy) (map holds (s_reservations (state false busy))).
Proof.
  split; [exact (after_run false busy busy_runs)|].
  exact (service_refines (config false) (start (config false) []) (state false busy) (trace false busy) (after_run false busy busy_runs)).
Defined.

Lemma ports_conserved_witness :
  s_ports (state false busy) = 8%Z
  ∧ u64 (s_ports (state false busy) + ports_held (s_reservations (state false busy))) = c_ports (config false).
Proof.
  split; [vm_compute; reflexivity|].
  apply (ports_conserved (config false) [] (trace false busy) (state false busy));
    [constructor|vm_compute; split; [discriminate|reflexivity]|exact (after_run false busy busy_runs)].
Defined.

(** Two grants of the leased IPs that are left, the second after a refusal. *)
Definition ip_start : list event := (first_inventory ++ [free_usage])%list.
Definition ip_events : list event :=
  [EvReserve (order 1) (res_group 0 true []); EvReserve (order 2) (res_group 0 true []);
   EvUnreserve (order 1); EvReserve (order 3) (res_group 0 true [])].

Lemma ip_start_fits : ips_fit (state true ip_start).
Proof.
  assert (s_usage (state true ip_start) = MkUsage 4 1) as Hu by (vm_compute; reflexivity).
  assert (s_reservations (state true ip_start) = []) as Hl by (vm_compute; reflexivity).
  unfold ips_fit. rewrite Hu, Hl. cbn. split_and!; [lia|lia|constructor|lia].
Qed.

Lemma ip_runs : ∃ tr s, exec (config true) (state true ip_start) ip_events = Some (tr, s)
  ∧ List.length (s_reservations s) = 2%nat.
Proof.
  assert (from_option (λ p, List.length (s_reservations p.2)) 0%nat (exec (config true) (state true ip_start) ip_events) = 2%nat) as Hc
    by (vm_compute; reflexivity).
  destruct (exec _ _ _) as [[tr s]|]; [by exists tr, s|done].
Qed.

Lemma ips_not_overcommitted_witness :
  ∃ tr s, run (config true) (state true ip_start) tr s ∧ List.length (s_reservations s) = 2%nat
    ∧ (u_InUse (s_usage s) + countReservedIPs (s_reservations s) ≤ u_Available (s_usage s))%Z.
Proof.
  destruct ip_runs as (tr & s & E & Hlen). exists tr, s.
  pose proof (exec_run _ _ _ _ _ E) as Hrun. split; [exact Hrun|]. split; [exact Hlen|].
  apply (ips_not_overcommitted (config true) (state true ip_start) s tr ip_start_fits Hrun).
  apply (Forall_map fst (λ e, match e with EvChecked (Some _) => False | _ => True end)).
  rewrite (exec_events _ _ _ _ _ E). repeat constructor.
Defined.

Lemma reservation_lifecycle_witness :
  ∃ s1 r s2 tr, step (config false) (state false first_inventory) (EvReserve (order 1) (res_group 2 false [])) = Some (Ret (s1, RepReservation r))
    ∧ run (config false) s1 tr s2
    ∧ ∃ r', step (config false) s2 (EvLookup (order 1) "west") = Some (Ret (s2, RepReservation r'))
        ∧ holds r' = asked (config false) (order 1) (res_group 2 false []).
Proof.
  destruct (step (config false) (state false first_inventory) (EvReserve (order 1) (res_group 2 false [])))
    as [[[s1 [|r|e]]|]|] eqn:E.
  1, 3, 4, 5: assert (match step (config false) (state false first_inventory) (EvReserve (order 1) (res_group 2 false [])) with
      | Some (Ret (_, RepReservation _)) => true | _ => false end = true) as Hc by (vm_compute; reflexivity);
      rewrite E in Hc; discriminate Hc.
  exists s1, r, (updateIPs (config false) s1), [(EvTimer, NoReply)].
  assert (run (config false) s1 [(EvTimer, NoReply)] (updateIPs (config false) s1)) as Hrun
    by (econstructor; [reflexivity|constructor]).
  split; [reflexivity|]. split; [exact Hrun|].
  exact (proj1 (reservation_lifecycle (config false) (state false first_inventory) s1 _ (order 1) (res_group 2 false []) r _
    ltac:(vm_compute; constructor) E Hrun ltac:(repeat constructor))).
Defined.

Lemma good_request n ports : event_good (config false) (EvReserve (order n) (res_group ports false [])).
Proof.
  cbn. apply Forall_singleton. split; [by exists (MkCPU 1000 [])|]. split; [by exists (MkMemory GiB [])|].
  split; [by exists (MkGPU 0 [])|constructor].
Qed.

Lemma busy_good : Forall (event_good (config false)) busy.
Proof.
  constructor; [exact ring_ok|]. constructor; [done|]. constructor; [apply good_request|]. constructor; [done|].
  constructor; [apply good_request|]. repeat constructor.
Qed.

Lemma busy_trace_good : Forall (λ er, event_good (config false) er.1) (trace false busy).
Proof.
  apply (Forall_map fst (event_good (config false))). rewrite (after_events false busy busy_runs). exact busy_good.
Qed.

Lemma start_good : svc_good (start (config false) []).
Proof. by split_and!. Qed.

Lemma start_ready : ready (config false) (start (config false) []).
Proof. by right. Qed.

Lemma service_never_panics_witness :
  match step (config false) (state false busy) (EvReserve (order 3) (res_group 1 false [])) with
  | Some (Ret (s2, RepReservation _)) => svc_good s2
  | _ => False
  end.
Proof.
  pose proof (service_never_panics (config false) (start (config false) []) (state false busy) (trace false busy)
    (EvReserve (order 3) (res_group 1 false []))) as Hp.
  destruct (step (config false) (state false busy) (EvReserve (order 3) (res_group 1 false []))) as [[[s2 [|r|e]]|]|] eqn:E.
  1, 3, 4, 5: assert (match step (config false) (state false busy) (EvReserve (order 3) (res_group 1 false [])) with
      | Some (Ret (_, RepReservation _)) => true | _ => false end = true) as Hc by (vm_compute; reflexivity);
      rewrite E in Hc; discriminate Hc.
  exact (proj1 (Hp start_good start_ready (after_run false busy busy_runs) busy_trace_good (good_request 3 1))).
Defined.

(** ** Runs that go wrong *)

(** With an IP operator, a deployment event before the first inventory starts
    an IP check, and its end opens the service to requests: the first of them
    calls [Adjust] on the nil inventory and panics. *)
Definition early : list event := [EvDeployment (order 9) "west" true; free_usage].
Theorem panic_before_inventory :
  ∃ tr s, run (config true) (start (config true) []) tr s
    ∧ step (config true) s (EvReserve (order 1) (res_group 0 false [])) = Some Panic.
Proof.
  assert (is_Some_b (after true early) = true) as Hb by (vm_compute; reflexivity).
  exists (trace true early), (state true early).
  split; [exact (after_run true early (is_Some_b_spec _ Hb))|].
  apply is_panic_spec. vm_compute. reflexivity.
Qed.

(** Ports are not checked when a reservation is made: with more ports deployed
    than configured the number of free ports wraps around. *)
Definition crowded : list event :=
  (first_inventory ++ [EvReserve (order 1) (res_group 11 false []); EvDeployment (order 1) "west" true])%list.
Theorem ports_wrap_around :
  ∃ tr s, run (config false) (start (config false) []) tr s ∧ s_ports s = (2 ^ 64 - 1)%Z.
Proof.
  assert (is_Some_b (after false crowded) = true) as Hb by (vm_compute; reflexivity).
  exists (trace false crowded), (state false crowded).
  split; [exact (after_run false crowded (is_Some_b_spec _ Hb))|vm_compute; reflexivity].
Qed.

(** A reservation made with [tee/type=cpu-gpu] keeps that type, and the
    parameters [Adjust] stores for it carry it; after a restart they come as
    [ReservationClusterSettings], from which no TEE type is ever read. *)
Theorem tee_lost_on_restart :
  h_teeType (asked (config false) (order 1) (res_group 0 false [MkAttr "tee/type" "cpu-gpu"])) = TEETypeCPUGPU
  ∧ ∀ o g m, adjustOpts (config false) (rv_teeType (recovered o g (CpReservation m))) = [WithTEEPlatform EmptyString].
Proof. split; [vm_compute; reflexivity|done]. Qed.

End ReservationSample.
