(* ===== verification/BidOrder.v ===== *)
(** * The monitor of an order

    [bidengine/order.go]: whether to bid on an order, and the goroutine that
    follows it from its creation to its lease.  Every arm of the select in [run]
    is an [oevent]; the results of the runners ([runner.Do]) arrive once each, as
    events enabled while their channel is pending.  Calls to the chain, the
    cluster and the bus are [action]s; what they answer comes back as events.
    Logging and counters are not modelled. *)
From Stdlib Require Import Ascii String.
From S2P Require Import Prelude GoStrings ChainTypes ClusterTypes World Envelope PirGate LeaseNames Inventory ReservationService.

Open Scope string_scope.
Open Scope go_scope.

(** ** Data of the chain *)

(** [IsLT] on coins of one denomination. *)
Definition IsLT (a b : DecCoin) : bool := (dc_Amount a <? dc_Amount b)%Z.

(** [atypes.AuditedProvider]. *)
Record AuditedProvider := MkAudited { ap_Owner : string; ap_Auditor : string; ap_Attributes : Attributes }.

(** A deployment group and the matching functions of the chain SDK. *)
Class ChainGroups := {
  Group : Type;
  group_Owner : Group → string;
  group_Spec : Group → GroupSpec;
  group_Price : Group → DecCoin;
  SignedBy_Size : Group → Z;
  SignedBy_AllOf : Group → list string;
  SignedBy_AnyOf : Group → list string;
  MatchAttributes : Group → Attributes → bool;
  MatchResourcesRequirements : Group → Attributes → bool;
  MatchRequirements : Group → list AuditedProvider → bool;
  ValidateBasic : Group → option string;
  SubsetOf : Attributes → Attributes → bool
}.

Inductive bid_state := BidOpen | BidActive | BidLost | BidClosed.
#[export] Instance bid_state_eq_dec : EqDecision bid_state.
Proof. solve_decision. Defined.

Record Bid := MkBid { bid_State : bid_state; bid_CreatedAt : Z }.

(** [LeaseID] and [BidID] have the same fields. *)
Notation BidID := LeaseID.

Record MsgCreateBid := MkCreateBid {
  cb_ID : BidID; cb_Price : DecCoin; cb_Deposit : DecCoin; cb_Offer : list ResourceUnit; cb_ReclamationWindow : Z }.

(** The provider of the session: its address, and what [String()] prints of
    the whole record. *)
Record Session := MkSession {
  ses_Owner : string; ses_Address : string; ses_String : string; ses_Attributes : Attributes; ses_CreatedAtBlockHeight : Z }.

(** [BidTimeout] in nanoseconds. *)
Record Config := MkBidConfig {
  cfg_Deposit : DecCoin; cfg_BidTimeout : Z; cfg_Attributes : Attributes; cfg_MaxGroupVolumes : Z;
  cfg_ReclamationWindow : Z }.

(** [ProviderAttrSignatureService]. *)
Record Pass := MkPass {
  GetAttributes : result string Attributes;
  GetAuditorAttributeSignatures : string → result string (list AuditedProvider) }.

(** ** Matching an error text: [^.+bid not found.+$] *)

Definition bid_not_found : string := "bid not found".

(** [.+] needs a character, and [.] is any character but a newline. *)
Fixpoint no_newline (s : string) : bool :=
  match s with
  | EmptyString => true
  | String c s => negb (c =? "010")%char && no_newline s
  end.

Fixpoint found_inside (s : string) : bool :=
  match s with
  | EmptyString => false
  | String _ rest =>
      (String.prefix bid_not_found rest && (String.length bid_not_found <? String.length rest)%nat) || found_inside rest
  end.

Definition matchBidNotFound (err : string) : bool := no_newline err && found_inside err.

Section order.
Context `{ChainGroups}.
Variable cfg : Config.
Variable session : Session.

(** ** Timeouts *)

Definition bidTimeoutEnabled : bool := (0 <? cfg_BidTimeout cfg)%Z.

(** The channel of [getBidTimeout] is nil when there is no timeout. *)
Definition getBidTimeout : bool := bidTimeoutEnabled.

Definition bidID (oid : OrderID) : BidID :=
  MkLeaseID (oid_Owner oid) (oid_DSeq oid) (oid_GSeq oid) (oid_OSeq oid) (ses_Address session).

Definition minTimePerBlock : Z := 5 * 1000000000.

Definition isStaleBid (bid : Bid) : bool :=
  if negb bidTimeoutEnabled then false
  else
    let blockAge := i64 (bid_CreatedAt bid - ses_CreatedAtBlockHeight session) in
    let atLeastThisOld := i64 (blockAge * minTimePerBlock) in
    (cfg_BidTimeout cfg <? atLeastThisOld)%Z.

(** ** Whether to bid *)

(** The signatures of the auditors, each asked for once. *)
Fixpoint gather (pass : Pass) (auditors : list string) (gotten : gset string) : result string (list AuditedProvider) :=
  match auditors with
  | [] => Ok []
  | a :: auditors =>
      if bool_decide (a ∈ gotten) then gather pass auditors gotten
      else
        let* result := GetAuditorAttributeSignatures pass a in
        let* rest := gather pass auditors ({[a]} ∪ gotten) in
        Ok (result ++ rest)%list
  end.

Definition signatures_met (pass : Pass) (group : Group) : result string bool :=
  if negb (SignedBy_Size group =? 0)%Z then
    let ownAttrs := MkAudited (ses_Owner session) EmptyString (ses_Attributes session) in
    let* signed := gather pass (SignedBy_AllOf group ++ SignedBy_AnyOf group)%list ∅ in
    Ok (MatchRequirements group (ownAttrs :: signed))
  else Ok true.

Definition volumes_allowed (group : Group) : bool :=
  forallb (λ u, Z.of_nat (List.length (res_Storage (ru_Resources u))) <=? cfg_MaxGroupVolumes cfg)%Z
    (gs_Resources (group_Spec group)).

(** [allowed] is the answer of [pirgate.PirAllocationAllowed]. *)
Definition shouldBid (allowed : bool) (pass : Pass) (group : Group) : result string bool :=
  if negb allowed then Ok false
  else if negb (MatchAttributes group (ses_Attributes session)) then Ok false
  else if negb (SubsetOf (cfg_Attributes cfg) (gs_Requirements (group_Spec group))) then Ok false
  else
    let* attr := GetAttributes pass in
    if negb (MatchResourcesRequirements group attr) then Ok false
    else if negb (volumes_allowed group) then Ok false
    else
      let* ok := signatures_met pass group in
      if negb ok then Ok false
      else match ValidateBasic group with Some _ => Ok false | None => Ok true end.

(** ** The monitor *)

(** Pending channels, and the variables of [run]. *)
Record ostate := MkO {
  o_groupch : bool; o_storedGroupCh : bool; o_clusterch : bool; o_bidch : bool; o_pricech : bool;
  o_queryBidCh : bool; o_shouldBidCh : bool; o_bidTimeout : bool;
  o_group : option Group; o_reservation : option reservation; o_won : bool; o_bidPlaced : bool }.

Inductive action :=
| QueryGroup
| QueryBid
| CheckShouldBid (g : Group)
| Reserve (g : Group)
| CalculatePrice (owner : string) (g : Group) (allocated : list ResourceUnit)
| CreateBid (m : MsgCreateBid)
| PublishLeaseWon (lid : LeaseID) (g : option Group) (price : DecCoin)
| Unreserve (o : OrderID)
| CloseBid (id : BidID).

Inductive oevent :=
| OShutdown
| OQueryBid (r : result string Bid)
| OLeaseCreated (lid : LeaseID) (price : DecCoin)
| OOrderClosed (o : OrderID)
| OBidClosed (id : BidID)
| OGroup (r : result string Group)
| OShouldBid (r : result string bool)
| OReserved (r : result string reservation)
| OPrice (r : result string DecCoin)
| OBidSent (r : result string ())
| OTimeout.

(** [break loop] or another iteration; a nil dereference is a crash. *)
Inductive flow :=
| Next (st : ostate) (acts : list action)
| Break (st : ostate) (acts : list action)
| Crash.

Variable orderID : OrderID.

Definition same_group (id : LeaseID) : bool :=
  (lid_Owner id =? oid_Owner orderID) && (lid_DSeq id =? oid_DSeq orderID)%Z && (lid_GSeq id =? oid_GSeq orderID)%Z.

Definition start_order (checkForExistingBid : bool) : ostate * list action :=
  if checkForExistingBid
  then (MkO false true false false false true false false None None false false, [QueryGroup; QueryBid])
  else (MkO true false false false false false false false None None false false, [QueryGroup]).

(** Setters. *)
Definition with_query (timeout placed : bool) (s : ostate) : ostate :=
  MkO (o_storedGroupCh s) false (o_clusterch s) (o_bidch s) (o_pricech s) false (o_shouldBidCh s) timeout
    (o_group s) (o_reservation s) (o_won s) placed.
Definition with_queryBidCh (b : bool) (s : ostate) : ostate :=
  MkO (o_groupch s) (o_storedGroupCh s) (o_clusterch s) (o_bidch s) (o_pricech s) b (o_shouldBidCh s) (o_bidTimeout s)
    (o_group s) (o_reservation s) (o_won s) (o_bidPlaced s).
Definition with_groupch (b : bool) (s : ostate) : ostate :=
  MkO b (o_storedGroupCh s) (o_clusterch s) (o_bidch s) (o_pricech s) (o_queryBidCh s) (o_shouldBidCh s) (o_bidTimeout s)
    (o_group s) (o_reservation s) (o_won s) (o_bidPlaced s).
Definition with_group (g : Group) (s : ostate) : ostate :=
  MkO (o_groupch s) (o_storedGroupCh s) (o_clusterch s) (o_bidch s) (o_pricech s) (o_queryBidCh s) (o_shouldBidCh s) (o_bidTimeout s)
    (Some g) (o_reservation s) (o_won s) (o_bidPlaced s).
Definition with_shouldBidCh (b : bool) (s : ostate) : ostate :=
  MkO (o_groupch s) (o_storedGroupCh s) (o_clusterch s) (o_bidch s) (o_pricech s) (o_queryBidCh s) b (o_bidTimeout s)
    (o_group s) (o_reservation s) (o_won s) (o_bidPlaced s).
Definition with_clusterch (b : bool) (s : ostate) : ostate :=
  MkO (o_groupch s) (o_storedGroupCh s) b (o_bidch s) (o_pricech s) (o_queryBidCh s) (o_shouldBidCh s) (o_bidTimeout s)
    (o_group s) (o_reservation s) (o_won s) (o_bidPlaced s).
Definition with_reservation (r : reservation) (s : ostate) : ostate :=
  MkO (o_groupch s) (o_storedGroupCh s) (o_clusterch s) (o_bidch s) (o_pricech s) (o_queryBidCh s) (o_shouldBidCh s) (o_bidTimeout s)
    (o_group s) (Some r) (o_won s) (o_bidPlaced s).
Definition with_pricech (b : bool) (s : ostate) : ostate :=
  MkO (o_groupch s) (o_storedGroupCh s) (o_clusterch s) (o_bidch s) b (o_queryBidCh s) (o_shouldBidCh s) (o_bidTimeout s)
    (o_group s) (o_reservation s) (o_won s) (o_bidPlaced s).
Definition with_bidch (b : bool) (s : ostate) : ostate :=
  MkO (o_groupch s) (o_storedGroupCh s) (o_clusterch s) b (o_pricech s) (o_queryBidCh s) (o_shouldBidCh s) (o_bidTimeout s)
    (o_group s) (o_reservation s) (o_won s) (o_bidPlaced s).
Definition with_bidTimeout (b : bool) (s : ostate) : ostate :=
  MkO (o_groupch s) (o_storedGroupCh s) (o_clusterch s) (o_bidch s) (o_pricech s) (o_queryBidCh s) (o_shouldBidCh s) b
    (o_group s) (o_reservation s) (o_won s) (o_bidPlaced s).
Definition with_bidPlaced (b : bool) (s : ostate) : ostate :=
  MkO (o_groupch s) (o_storedGroupCh s) (o_clusterch s) (o_bidch s) (o_pricech s) (o_queryBidCh s) (o_shouldBidCh s) (o_bidTimeout s)
    (o_group s) (o_reservation s) (o_won s) b.
Definition with_won (b : bool) (s : ostate) : ostate :=
  MkO (o_groupch s) (o_storedGroupCh s) (o_clusterch s) (o_bidch s) (o_pricech s) (o_queryBidCh s) (o_shouldBidCh s) (o_bidTimeout s)
    (o_group s) (o_reservation s) b (o_bidPlaced s).

(** The answer about an existing bid. *)
Definition on_queryBid (r : result string Bid) (s : ostate) : flow :=
  let s := with_queryBidCh false s in
  match r with
  | Err e =>
      if matchBidNotFound e then Next (with_query (o_bidTimeout s) (o_bidPlaced s) s) []
      else Break s []
  | Ok bid =>
      if negb (bool_decide (bid_State bid = BidOpen)) then Break s []
      else if isStaleBid bid then Break (with_bidPlaced true s) []
      else Next (with_query getBidTimeout true s) []
  end.

Definition on_leaseCreated (lid : LeaseID) (price : DecCoin) (s : ostate) : flow :=
  if negb (same_group lid) then Next s []
  else if negb (lid_Provider lid =? ses_Address session) then
    Break (if o_bidch s then with_bidPlaced true s else s) []
  else Break (with_won true s) [PublishLeaseWon lid (o_group s) price].

Definition on_bidClosed (id : BidID) (s : ostate) : flow :=
  if o_won s then Next s []
  else if negb (same_group id) then Next s []
  else if negb (lid_Provider id =? ses_String session) then Next s []
  else Break (with_bidPlaced false s) [].

Definition on_group (r : result string Group) (s : ostate) : flow :=
  let s := with_groupch false s in
  match r with
  | Err _ => Break s []
  | Ok g => Next (with_shouldBidCh true (with_group g s)) [CheckShouldBid g]
  end.

Definition on_shouldBid (r : result string bool) (s : ostate) : flow :=
  let s := with_shouldBidCh false s in
  match r with
  | Err _ => Break s []
  | Ok false => Break s []
  | Ok true =>
      match o_group s with
      | None => Crash
      | Some g => Next (with_clusterch true s) [Reserve g]
      end
  end.

Definition on_reserved (r : result string reservation) (s : ostate) : flow :=
  let s := with_clusterch false s in
  match r with
  | Err _ => Break s []
  | Ok r =>
      let s := with_reservation r s in
      if o_bidPlaced s then Next s []
      else match o_group s with
      | None => Crash
      | Some g => Next (with_pricech true s) [CalculatePrice (group_Owner g) g (rg_Allocated (rv_group r))]
      end
  end.

Definition on_price (r : result string DecCoin) (s : ostate) : flow :=
  let s := with_pricech false s in
  match r with
  | Err _ => Break s []
  | Ok price =>
      match o_group s, o_reservation s with
      | Some g, Some r =>
          let maxPrice := group_Price g in
          if negb (dc_Denom maxPrice =? dc_Denom price) then Break s []
          else if IsLT maxPrice price then Break s []
          else Next (with_bidch true s)
                 [CreateBid (MkCreateBid (bidID orderID) price (cfg_Deposit cfg) (rg_Allocated (rv_group r))
                    (cfg_ReclamationWindow cfg))]
      | _, _ => Crash
      end
  end.

Definition on_bidSent (r : result string ()) (s : ostate) : flow :=
  let s := with_bidch false s in
  match r with
  | Err _ => Break s []
  | Ok _ => Next (with_bidTimeout getBidTimeout (with_bidPlaced true s)) []
  end.

(** [None] when the event is not enabled. *)
Definition ostep (s : ostate) (e : oevent) : option flow :=
  match e with
  | OShutdown => Some (Break s [])
  | OQueryBid r => if o_queryBidCh s then Some (on_queryBid r s) else None
  | OLeaseCreated lid price => Some (on_leaseCreated lid price s)
  | OOrderClosed o => Some (if bool_decide (o = orderID) then Break s [] else Next s [])
  | OBidClosed id => Some (on_bidClosed id s)
  | OGroup r => if o_groupch s then Some (on_group r s) else None
  | OShouldBid r => if o_shouldBidCh s then Some (on_shouldBid r s) else None
  | OReserved r => if o_clusterch s then Some (on_reserved r s) else None
  | OPrice r => if o_pricech s then Some (on_price r s) else None
  | OBidSent r => if o_bidch s then Some (on_bidSent r s) else None
  | OTimeout => if o_bidTimeout s then Some (Break s []) else None
  end.

(** After the loop; [late] is the answer of the cluster when it is waited for. *)
Definition cleanup (late : result string reservation) (s : ostate) : list action :=
  if negb (o_won s) then
    let reservation :=
      if o_clusterch s then match late with Ok r => Some r | Err _ => o_reservation s end else o_reservation s in
    ((match reservation with Some r => [Unreserve (rv_order r)] | None => [] end)
     ++ (if o_bidPlaced s then [CloseBid (bidID orderID)] else []))%list
  else [].

(** A run of the loop, with what it did; and a whole life of the monitor: a
    run, the event that ends the loop, and the cleanup. *)
Inductive orun : ostate → list oevent → list action → ostate → Prop :=
| orun_nil s : orun s [] [] s
| orun_snoc s es acts s1 e s2 acts1 :
    orun s es acts s1 → ostep s1 e = Some (Next s2 acts1) → orun s (es ++ [e]) (acts ++ acts1) s2.

Inductive life (check : bool) : list oevent → result string reservation → list action → ostate → Prop :=
| life_intro es acts s e s' acts' late :
    orun (start_order check).1 es acts s → ostep s e = Some (Break s' acts') →
    life check (es ++ [e]) late ((start_order check).2 ++ acts ++ acts' ++ cleanup late s') s'.

End order.
