(* ===== verification/BidOrderSound.v ===== *)
(** * The monitor of an order: its contract

    The monitor goes through phases, one runner at a time; the chain's events
    can end it in any of them.  From that: it holds the cluster's resources no
    longer than it should, it bids once and only under the conditions of the
    order, and it closes the bids it leaves behind. *)
From Stdlib Require Import Ascii String.
From S2P Require Import Prelude GoStrings ChainTypes ClusterTypes World Envelope PirGate LeaseNames Inventory ReservationService BidOrder.

Open Scope string_scope.

Section sound.
Context `{ChainGroups}.
Variable cfg : Config.
Variable session : Session.
Variable orderID : OrderID.

(** ** What is seen of a trace *)

Definition reserve_of (a : action) : option Group := match a with Reserve g => Some g | _ => None end.
Definition create_of (a : action) : option MsgCreateBid := match a with CreateBid m => Some m | _ => None end.
Definition unreserve_of (a : action) : option OrderID := match a with Unreserve o => Some o | _ => None end.
Definition close_of (a : action) : option BidID := match a with CloseBid b => Some b | _ => None end.

Definition group_of (e : oevent) : option Group := match e with OGroup (Ok g) => Some g | _ => None end.
Definition decision_of (e : oevent) : option bool := match e with OShouldBid (Ok b) => Some b | _ => None end.
Definition reservation_of (e : oevent) : option reservation := match e with OReserved (Ok r) => Some r | _ => None end.
Definition price_of (e : oevent) : option DecCoin := match e with OPrice (Ok p) => Some p | _ => None end.

(** A bid of this provider is on the chain after the event. *)
Definition bid_known (e : oevent) : bool :=
  match e with
  | OQueryBid (Ok b) => bool_decide (bid_State b = BidOpen)
  | OBidSent (Ok _) => true
  | _ => false
  end.

(** A bid that was there before the monitor. *)
Definition existing (e : oevent) : bool :=
  match e with OQueryBid (Ok b) => bool_decide (bid_State b = BidOpen) | _ => false end.

(** Answers of runners; the others are events of the chain, the timer and the
    shutdown. *)
Definition is_answer (e : oevent) : nat :=
  match e with
  | OQueryBid _ | OGroup _ | OShouldBid _ | OReserved _ | OPrice _ | OBidSent _ => 1
  | _ => 0
  end.

(** ** Phases *)

Inductive phase :=
| Fetching
| Deciding (g : Group)
| Reserving (g : Group)
| Pricing (g : Group) (r : reservation)
| Bidding (g : Group) (r : reservation) (p : DecCoin)
| Waiting (g : Group) (r : reservation) (p : option DecCoin).

Definition bid_msg (r : reservation) (p : DecCoin) : MsgCreateBid :=
  MkCreateBid (bidID session orderID) p (cfg_Deposit cfg) (rg_Allocated (rv_group r)) (cfg_ReclamationWindow cfg).

Definition ph_group (p : phase) : option Group :=
  match p with
  | Fetching => None
  | Deciding g | Reserving g | Pricing g _ | Bidding g _ _ | Waiting g _ _ => Some g
  end.
Definition ph_decided (p : phase) : list Group :=
  match p with
  | Fetching | Deciding _ => []
  | Reserving g | Pricing g _ | Bidding g _ _ | Waiting g _ _ => [g]
  end.
Definition ph_reservation (p : phase) : option reservation :=
  match p with Fetching | Deciding _ | Reserving _ => None | Pricing _ r | Bidding _ r _ | Waiting _ r _ => Some r end.
Definition ph_price (p : phase) : option DecCoin :=
  match p with Bidding _ _ c => Some c | Waiting _ _ c => c | _ => None end.
Definition ph_bid (p : phase) : list MsgCreateBid :=
  match p with
  | Bidding _ r c | Waiting _ r (Some c) => [bid_msg r c]
  | _ => []
  end.

(** The answers still to come. *)
Definition rank (p : phase) : nat :=
  match p with
  | Fetching => 5 | Deciding _ => 4 | Reserving _ => 3 | Pricing _ _ => 2 | Bidding _ _ _ => 1 | Waiting _ _ _ => 0
  end.

(** A price the group accepts. *)
Definition acceptable (g : Group) (c : DecCoin) : Prop :=
  dc_Denom c = dc_Denom (group_Price g) ∧ (dc_Amount c ≤ dc_Amount (group_Price g))%Z.

(** The state of the monitor in a phase. *)
Record in_phase (p : phase) (s : ostate) : Prop := {
  ip_fetch : match p with
             | Fetching => o_groupch s = negb (o_storedGroupCh s)
             | _ => o_groupch s = false ∧ o_storedGroupCh s = false end;
  ip_query : o_queryBidCh s = o_storedGroupCh s;
  ip_should : o_shouldBidCh s = match p with Deciding _ => true | _ => false end;
  ip_cluster : o_clusterch s = match p with Reserving _ => true | _ => false end;
  ip_price : o_pricech s = match p with Pricing _ _ => true | _ => false end;
  ip_bid : o_bidch s = match p with Bidding _ _ _ => true | _ => false end;
  ip_group : o_group s = ph_group p;
  ip_reservation : o_reservation s = ph_reservation p;
  ip_won : o_won s = false;
  ip_unplaced : match p with Pricing _ _ | Bidding _ _ _ => o_bidPlaced s = false | _ => True end;
  ip_queried : o_queryBidCh s = true → o_bidPlaced s = false;
  ip_acceptable : match ph_group p, ph_price p with Some g, Some c => acceptable g c | _, _ => True end
}.

(** What has happened up to a phase. *)
Record tracked (es : list oevent) (acts : list action) (p : phase) (s : ostate) : Prop := {
  tr_phase : in_phase p s;
  tr_groups : omap group_of es = option_list (ph_group p);
  tr_decisions : omap decision_of es = map (λ _, true) (ph_decided p);
  tr_reservations : omap reservation_of es = option_list (ph_reservation p);
  tr_prices : omap price_of es = option_list (ph_price p);
  tr_reserves : omap reserve_of acts = ph_decided p;
  tr_creates : omap create_of acts = ph_bid p;
  tr_kept : omap unreserve_of acts = [] ∧ omap close_of acts = [];
  tr_placed : o_bidPlaced s = existsb bid_known es;
  tr_first : ph_bid p ≠ [] → existsb existing es = false;
  tr_answers : (sum_list_with is_answer es + rank p + (if o_queryBidCh s then 1 else 0) ≤ 6)%nat
}.

Lemma known_existing es : existsb bid_known es = false → existsb existing es = false.
Proof.
  rewrite <- !not_true_iff_false, !existsb_exists. intros Hn (e & Hin & He). apply Hn. exists e. split; [done|].
  by destruct e as [|[]| | | | | | | | |].
Qed.

Lemma start_tracked check :
  tracked [] (start_order check).2 Fetching (start_order check).1.
Proof. destruct check; (split; [split|..]); cbn; auto with lia; done. Qed.

(** ** Steps *)

(** The trace of one more event. *)
Ltac extend_trace :=
  rewrite ?omap_app;
  rewrite ?existsb_app, ?sum_list_with_app;
  repeat match goal with E : omap ?f ?l = _ |- context [omap ?f ?l] => rewrite E end;
  repeat match goal with E : _ = existsb ?f ?l |- context [existsb ?f ?l] => rewrite <- E end;
  cbn; rewrite ?orb_false_r, ?app_nil_r, ?orb_true_r.

Ltac open_tracked :=
  match goal with Ht : tracked _ _ _ _ |- _ =>
    destruct Ht as [[Hfetch Hquery Hshould Hcluster Hprice Hbid Hgroup Hres Hwon Hunpl Hqd Hacc]
      Hgs Hds Hrs Hps Hrv Hcr [Hun Hcl] Hpl Hfirst Hans] end.

(** The answers left to wait for. *)
Ltac count_answers :=
  match goal with Hans : (sum_list_with is_answer _ + _ + _ ≤ 6)%nat |- (_ ≤ 6)%nat =>
    cbn in Hans |- *; repeat match goal with E : ?x = _ |- _ =>
      match type of Hans with context [if x then _ else _] => rewrite E in Hans | _ =>
        match goal with |- context [if x then _ else _] => rewrite E end end end;
    repeat case_match; lia end.

Ltac settle := extend_trace; try done; try congruence; try count_answers.

Lemma tracked_skip es acts p s e :
  tracked es acts p s →
  group_of e = None → decision_of e = None → reservation_of e = None → price_of e = None → bid_known e = false → is_answer e = 0%nat →
  tracked (es ++ [e]) (acts ++ []) p s.
Proof.
  intros Ht Eg Ed Er Ep Eb Ea. open_tracked.
  assert (existing e = false) as Ex by (destruct e as [|[]| | | | | | | | |]; done).
  constructor; [constructor; done|..]; extend_trace;
    rewrite ?Eg, ?Ed, ?Er, ?Ep, ?Eb, ?Ea, ?Ex, ?app_nil_r, ?orb_false_r, ?Nat.add_0_r; try done.
Qed.

Lemma next_query es acts p s r s' acts1 :
  tracked es acts p s → o_queryBidCh s = true → on_queryBid cfg session r s = Next s' acts1 →
  tracked (es ++ [OQueryBid r]) (acts ++ acts1) Fetching s' ∧ p = Fetching.
Proof.
  intros Ht Hq. open_tracked. rewrite Hq in Hquery.
  assert (p = Fetching) as -> by (destruct p; [done|destruct Hfetch; congruence..]).
  unfold on_queryBid. destruct r as [b|e].
  - destruct (bool_decide (bid_State b = BidOpen)) eqn:Eo; cbn [negb]; [|done].
    destruct (isStaleBid _ _ _); [done|]. intros [= <- <-]. split; [|done].
    constructor; [constructor; cbn; try done; try congruence; naive_solver|..]; settle. by rewrite Eo, orb_true_r.
  - destruct (matchBidNotFound e); [|done]. intros [= <- <-]. split; [|done].
    constructor; [constructor; cbn; try done; try congruence; naive_solver|..]; settle.
Qed.

Lemma next_group es acts p s r s' acts1 :
  tracked es acts p s → o_groupch s = true → on_group r s = Next s' acts1 →
  ∃ p', tracked (es ++ [OGroup r]) (acts ++ acts1) p' s'.
Proof.
  intros Ht Hg. open_tracked. assert (p = Fetching) as -> by (destruct p; [done|destruct Hfetch; congruence..]).
  destruct r as [g|e]; [|done]. intros [= <- <-]. exists (Deciding g).
  assert (o_storedGroupCh s = false) by (rewrite Hg in Hfetch; by destruct (o_storedGroupCh s)).
  constructor; [constructor; cbn; try done; try congruence; naive_solver|..]; settle.
Qed.

Lemma next_should es acts p s r s' acts1 :
  tracked es acts p s → o_shouldBidCh s = true → on_shouldBid r s = Next s' acts1 →
  ∃ p', tracked (es ++ [OShouldBid r]) (acts ++ acts1) p' s'.
Proof.
  intros Ht Hg. open_tracked. destruct p as [|g|g|g r0|g r0 c|g r0 c]; try congruence.
  destruct r as [[]|e]; try done. cbn. rewrite Hgroup. intros [= <- <-]. exists (Reserving g).
  constructor; [constructor; cbn; try done; try congruence; naive_solver|..]; settle.
Qed.

Lemma next_reserved es acts p s r s' acts1 :
  tracked es acts p s → o_clusterch s = true → on_reserved r s = Next s' acts1 →
  ∃ p', tracked (es ++ [OReserved r]) (acts ++ acts1) p' s'.
Proof.
  intros Ht Hg. open_tracked. destruct p as [|g|g|g r0|g r0 c|g r0 c]; try congruence.
  destruct r as [r|e]; [|done]. cbn. rewrite Hgroup. destruct (o_bidPlaced s) eqn:Eb; intros [= <- <-].
  - exists (Waiting g r None). constructor; [constructor; cbn; try done; try congruence; naive_solver|..]; settle.
  - exists (Pricing g r). constructor; [constructor; cbn; try done; try congruence; naive_solver|..]; settle.
Qed.

Lemma next_price es acts p s r s' acts1 :
  tracked es acts p s → o_pricech s = true → on_price cfg session orderID r s = Next s' acts1 →
  ∃ p', tracked (es ++ [OPrice r]) (acts ++ acts1) p' s'.
Proof.
  intros Ht Hg. open_tracked. destruct p as [|g|g|g r0|g r0 c|g r0 c]; try congruence.
  destruct r as [c|e]; [|done]. cbn. rewrite Hgroup, Hres. cbn.
  destruct (dc_Denom (group_Price g) =? dc_Denom c) eqn:Ed; cbn [negb]; [|done].
  destruct (IsLT (group_Price g) c) eqn:El; [done|]. intros [= <- <-]. exists (Bidding g r0 c).
  apply String.eqb_eq in Ed. apply Z.ltb_ge in El.
  constructor; [constructor; cbn; try done; try congruence; naive_solver|..]; settle.
  intros _. apply known_existing. congruence.
Qed.

Lemma next_sent es acts p s r s' acts1 :
  tracked es acts p s → o_bidch s = true → on_bidSent cfg r s = Next s' acts1 →
  ∃ p', tracked (es ++ [OBidSent r]) (acts ++ acts1) p' s'.
Proof.
  intros Ht Hg. open_tracked. destruct p as [|g|g|g r0|g r0 c|g r0 c]; try congruence.
  destruct r as [[]|e]; [|done]. intros [= <- <-]. exists (Waiting g r0 (Some c)).
  constructor; [constructor; cbn; try done; try congruence; naive_solver|..]; settle.
Qed.

Lemma tracked_next es acts p s e s' acts1 :
  tracked es acts p s → ostep cfg session orderID s e = Some (Next s' acts1) →
  ∃ p', tracked (es ++ [e]) (acts ++ acts1) p' s'.
Proof.
  intros Ht. destruct e; cbn [ostep]; try (case_match eqn:Hch; [|done]); intros [= Hs];
    eauto using next_group, next_should, next_reserved, next_price, next_sent.
  - eexists. by eapply next_query.
  - unfold on_leaseCreated in Hs. repeat case_match; simplify_eq. exists p. by apply tracked_skip.
  - case_match; simplify_eq. exists p. by apply tracked_skip.
  - unfold on_bidClosed in Hs. repeat case_match; simplify_eq; exists p; by apply tracked_skip.
Qed.

Lemma orun_tracked check es acts s :
  orun cfg session orderID (start_order check).1 es acts s →
  ∃ p, tracked es ((start_order check).2 ++ acts) p s.
Proof.
  remember (start_order check).1 as s0 eqn:E0. induction 1 as [s|s es acts s1 e s2 acts1 _ IH Hstep]; subst.
  - exists Fetching. rewrite app_nil_r. apply start_tracked.
  - destruct (IH eq_refl) as [p Hp]. rewrite app_assoc. by eapply tracked_next.
Qed.

(** ** The end of the loop *)

(** The lease of the order went to this provider, or to another one. *)
Definition wins (e : oevent) : bool :=
  match e with OLeaseCreated lid _ => same_group orderID lid && (lid_Provider lid =? ses_Address session) | _ => false end.
Definition loses (e : oevent) : bool :=
  match e with OLeaseCreated lid _ => same_group orderID lid && negb (lid_Provider lid =? ses_Address session) | _ => false end.
(** The bid was withdrawn by someone else. *)
Definition withdraws (e : oevent) : bool :=
  match e with OBidClosed id => same_group orderID id && (lid_Provider id =? ses_String session) | _ => false end.

(** What the event that ends the loop leaves behind. *)
Record ended (es : list oevent) (p : phase) (s : ostate) (e : oevent) (s' : ostate) (acts : list action) : Prop := {
  en_won : o_won s' = wins e;
  en_reservation : o_reservation s' = ph_reservation p;
  en_cluster : o_clusterch s' = match p with Reserving _ => (is_answer e =? 0)%nat | _ => false end;
  en_bidch : o_bidch s' = match p with Bidding _ _ _ => (is_answer e =? 0)%nat | _ => false end;
  en_placed : o_bidPlaced s' =
    if withdraws e then false else existsb bid_known (es ++ [e]) || (loses e && o_bidch s');
  en_reserved : reservation_of e = None;
  en_quiet : omap reserve_of acts = [] ∧ omap create_of acts = [] ∧ omap unreserve_of acts = [] ∧ omap close_of acts = [];
  en_late : match p with Bidding _ _ _ | Waiting _ _ _ =>
      group_of e = None ∧ decision_of e = None ∧ price_of e = None ∧ existing e = false | _ => True end
}.

Ltac ends_with Hs :=
  unfold on_queryBid, on_leaseCreated, on_bidClosed, on_group, on_shouldBid, on_reserved, on_price, on_bidSent in Hs;
  cbn in Hs; repeat match type of Hs with context [match ?x with _ => _ end] => destruct x eqn:? end; simplify_eq;
  repeat match goal with E : negb _ = true |- _ => apply negb_true_iff in E | E : negb _ = false |- _ => apply negb_false_iff in E end.

Ltac known_bools :=
  repeat match goal with E : ?x = true |- context [?x] => rewrite E | E : ?x = false |- context [?x] => rewrite E end;
  cbn; rewrite ?orb_false_r, ?orb_true_r, ?andb_false_r, ?andb_true_r.

Lemma tracked_break es acts p s e s' acts1 :
  tracked es acts p s → ostep cfg session orderID s e = Some (Break s' acts1) → ended es p s e s' acts1.
Proof.
  intros Ht Hs. open_tracked. destruct e as [|r|lid c|o|id|r|r|r|r|r|]; cbn [ostep] in Hs;
    ends_with Hs;
    (destruct p; cbn in *; try congruence; try (destruct Hfetch; congruence));
    (split; cbn; rewrite ?existsb_app; cbn; try done; known_bools; done || congruence).
Qed.

(** A life, phase by phase. *)
Lemma life_ended check es late acts s' :
  life cfg session orderID check es late acts s' →
  ∃ es0 acts0 p s e acts1, es = (es0 ++ [e])%list ∧ tracked es0 acts0 p s ∧ ended es0 p s e s' acts1
    ∧ acts = (acts0 ++ acts1 ++ cleanup session orderID late s')%list.
Proof.
  destruct 1 as [es acts s e s' acts' late Hrun Hstep]. destruct (orun_tracked _ _ _ _ Hrun) as [p Hp].
  exists es, ((start_order check).2 ++ acts)%list, p, s, e, acts'. split_and!; [done..|by eapply tracked_break|].
  by rewrite app_assoc.
Qed.

Lemma cleanup_quiet late s : omap reserve_of (cleanup session orderID late s) = [] ∧ omap create_of (cleanup session orderID late s) = [].
Proof. unfold cleanup. split; repeat case_match; done. Qed.

Definition ok_list {E A} (r : result E A) : list A := match r with Ok a => [a] | Err _ => [] end.

(** ** Properties *)

(** Claim C10.  Reservations are balanced: a monitor asks the cluster for at
    most one reservation.  When it ends without the lease it gives back exactly
    the reservation it was granted, also when the grant arrives only after the
    loop has ended; when it won the lease it gives back nothing. *)
Theorem reservation_balance (check : bool) (es : list oevent) (late : result string reservation)
  (acts : list action) (s : ostate) (Hlife : life cfg session orderID check es late acts s) :
  (List.length (omap reserve_of acts) ≤ 1)%nat
  ∧ omap unreserve_of acts =
    (if o_won s then []
     else map rv_order (omap reservation_of es ++ (if o_clusterch s then ok_list late else [])))%list
  ∧ (omap reserve_of acts = [] → omap reservation_of es = [] ∧ o_clusterch s = false).
Proof.
  destruct (life_ended _ _ _ _ _ Hlife) as (es0 & acts0 & p & s0 & e & acts1 & -> & Ht & He & ->).
  destruct (cleanup_quiet late s) as [Hq _], (en_quiet _ _ _ _ _ _ He) as (Hr & _ & Hu & _).
  rewrite !omap_app, (tr_reserves _ _ _ _ Ht), (proj1 (tr_kept _ _ _ _ Ht)), (tr_reservations _ _ _ _ Ht), Hq, Hr, Hu.
  cbn [omap list_omap]. rewrite (en_reserved _ _ _ _ _ _ He), !app_nil_r.
  split; [by destruct p; cbn; lia|]. split.
  - unfold cleanup. destruct (o_won s); [done|]. cbn [negb app]. rewrite (en_reservation _ _ _ _ _ _ He), (en_cluster _ _ _ _ _ _ He).
    destruct p; cbn; try case_match; cbn; repeat case_match; simplify_eq; done.
  - rewrite (en_cluster _ _ _ _ _ _ He). by destruct p.
Qed.

(** Claim C15.  A bid is sent at most once, and only for a group the monitor
    fetched and decided to bid on, with a reservation of the cluster, at the
    price calculated for it, in the denomination of the group and not above
    its maximum, offering what was allocated; and never when a bid of an
    earlier run was found open. *)
Theorem bid_conditions (check : bool) (es : list oevent) (late : result string reservation)
  (acts : list action) (s : ostate) (m : MsgCreateBid)
  (Hlife : life cfg session orderID check es late acts s) (Hbid : CreateBid m ∈ acts) :
  omap create_of acts = [m] ∧
  ∃ g r, omap group_of es = [g] ∧ omap decision_of es = [true] ∧ omap reservation_of es = [r]
    ∧ omap price_of es = [cb_Price m] ∧ acceptable g (cb_Price m) ∧ m = bid_msg r (cb_Price m)
    ∧ existsb existing es = false.
Proof.
  destruct (life_ended _ _ _ _ _ Hlife) as (es0 & acts0 & p & s0 & e & acts1 & -> & Ht & He & ->).
  destruct (cleanup_quiet late s) as [_ Hq], (en_quiet _ _ _ _ _ _ He) as (_ & Hc & _).
  assert (m ∈ omap create_of (acts0 ++ acts1 ++ cleanup session orderID late s)%list) as Hm.
  { apply list_elem_of_omap. by exists (CreateBid m). }
  rewrite !omap_app, existsb_app, Hq, Hc, (tr_creates _ _ _ _ Ht), !app_nil_r in *.
  rewrite (tr_groups _ _ _ _ Ht), (tr_decisions _ _ _ _ Ht), (tr_reservations _ _ _ _ Ht), (tr_prices _ _ _ _ Ht).
  pose proof (en_late _ _ _ _ _ _ He) as Hl. pose proof (ip_acceptable _ _ (tr_phase _ _ _ _ Ht)) as Ha.
  pose proof (tr_first _ _ _ _ Ht) as Hf. cbn [omap list_omap]. rewrite (en_reserved _ _ _ _ _ _ He).
  destruct p as [| | | |g r c|g r [c|]]; cbn in *; try (by apply elem_of_nil in Hm);
    apply list_elem_of_singleton in Hm as ->; destruct Hl as (Hg & Hd & Hp & Hx); cbn; rewrite Hg, Hd, Hp, Hx, Hf by done;
    (split; [done|]); by exists g, r.
Qed.

(** Bids are not left behind: a monitor that ends without the
    lease closes its bid, exactly once, when a bid is known to be on the chain,
    and also when the lease was lost while the bid was still being sent; it
    closes nothing when it won, when there is no bid, or when the bid has been
    closed by someone else. *)
Theorem bid_closed_once (check : bool) (es : list oevent) (e : oevent) (late : result string reservation)
  (acts : list action) (s : ostate) (Hlife : life cfg session orderID check (es ++ [e]) late acts s) :
  omap close_of acts =
    if wins e || withdraws e then []
    else if existsb bid_known (es ++ [e]) || (loses e && o_bidch s) then [bidID session orderID] else [].
Proof.
  destruct (life_ended _ _ _ _ _ Hlife) as (es0 & acts0 & p & s0 & e' & acts1 & Hes & Ht & He & ->).
  apply app_inj_tail in Hes as [-> ->]. destruct (en_quiet _ _ _ _ _ _ He) as (_ & _ & _ & Hc).
  rewrite !omap_app, Hc, (proj2 (tr_kept _ _ _ _ Ht)). cbn [app]. unfold cleanup.
  rewrite (en_won _ _ _ _ _ _ He). destruct (wins e'); [done|]. cbn [negb orb]. rewrite omap_app.
  assert (∀ o : option reservation, omap close_of (match o with Some r => [Unreserve (rv_order r)] | None => [] end) = []) as -> by by intros [].
  rewrite (en_placed _ _ _ _ _ _ He). destruct (withdraws e'); [done|]. by case_match.
Qed.

(** The monitor makes progress: in every state it reaches no event
    makes it dereference a nil group or reservation, and at most six answers of
    runners arrive before only events of the chain, the bid timeout or the
    shutdown are left to wait for. *)
Theorem monitor_total (check : bool) (es : list oevent) (acts : list action) (s : ostate) (e : oevent)
  (Hrun : orun cfg session orderID (start_order check).1 es acts s) :
  ostep cfg session orderID s e ≠ Some Crash ∧ (sum_list_with is_answer es ≤ 6)%nat.
Proof.
  destruct (orun_tracked _ _ _ _ Hrun) as [p Ht]. open_tracked. split; [|lia].
  intros Hs. destruct e; cbn [ostep] in Hs; ends_with Hs; destruct p; cbn in *; congruence.
Qed.

(** ** Deciding to bid *)

(** The signatures of the auditors, each of them asked once, in some order. *)
Definition collected (pass : Pass) (auditors : list string) (signed : list AuditedProvider) : Prop :=
  ∃ asked sigs, NoDup asked ∧ (∀ a, a ∈ asked ↔ a ∈ auditors)
    ∧ Forall2 (λ a sig, GetAuditorAttributeSignatures pass a = Ok sig) asked sigs ∧ signed = concat sigs.

Lemma gather_collects pass l gotten signed :
  gather pass l gotten = Ok signed →
  ∃ asked sigs, NoDup asked ∧ (∀ a, a ∈ asked ↔ a ∈ l ∧ a ∉ gotten)
    ∧ Forall2 (λ a sig, GetAuditorAttributeSignatures pass a = Ok sig) asked sigs ∧ signed = concat sigs.
Proof.
  revert gotten signed. induction l as [|a l IH]; intros gotten signed; cbn.
  - intros [= <-]. exists [], []. split_and!; [constructor|set_solver|constructor|done].
  - case_bool_decide as Ha.
    + intros (asked & sigs & ? & Hin & ? & ?)%IH. exists asked, sigs. split_and!; [done| |done..].
      intros x. rewrite Hin. set_solver.
    + intros (sig & Hsig & (rest & Hrest & [= <-])%rbind_ok)%rbind_ok.
      destruct (IH _ _ Hrest) as (asked & sigs & Hnd & Hin & Hsigs & ->).
      exists (a :: asked), (sig :: sigs). split_and!; [|intros x|by constructor|done].
      * constructor; [rewrite Hin; set_solver|done].
      * rewrite elem_of_cons, Hin. destruct (decide (x = a)); set_solver.
Qed.

(** The signature requirement: none, or the provider's own attributes and the
    collected signatures satisfy it. *)
Definition signed_as_required (pass : Pass) (g : Group) : Prop :=
  SignedBy_Size g = 0%Z ∨
  ∃ signed, gather pass (SignedBy_AllOf g ++ SignedBy_AnyOf g)%list ∅ = Ok signed
    ∧ collected pass (SignedBy_AllOf g ++ SignedBy_AnyOf g)%list signed
    ∧ MatchRequirements g (MkAudited (ses_Owner session) EmptyString (ses_Attributes session) :: signed) = true.

Lemma signatures_met_iff pass g : signatures_met session pass g = Ok true ↔ signed_as_required pass g.
Proof.
  unfold signatures_met, signed_as_required. destruct (SignedBy_Size g =? 0)%Z eqn:E; cbn [negb].
  - apply Z.eqb_eq in E. naive_solver.
  - apply Z.eqb_neq in E. rewrite rbind_ok. split.
    + intros (signed & Hg & [= Hm]). right. exists signed. split_and!; [done| |done].
      destruct (gather_collects _ _ _ _ Hg) as (asked & sigs & ? & Hin & ? & ?). exists asked, sigs. split_and!; [done| |done..].
      intros a. rewrite Hin. set_solver.
    + intros [?|(signed & Hg & _ & Hm)]; [done|]. exists signed. by rewrite Hm.
Qed.

(** The monitor bids on a group exactly when the private-market
    gate allows it, the provider's attributes match, the group carries the
    attributes the configuration asks for, the provider has the capabilities
    for its resources, no unit has too many volumes, the required signatures
    are there, every auditor having been asked once, and the group is valid. *)
Theorem should_bid_iff (allowed : bool) (pass : Pass) (g : Group) :
  shouldBid cfg session allowed pass g = Ok true ↔
  allowed = true ∧ MatchAttributes g (ses_Attributes session) = true
  ∧ SubsetOf (cfg_Attributes cfg) (gs_Requirements (group_Spec g)) = true
  ∧ (∃ attr, GetAttributes pass = Ok attr ∧ MatchResourcesRequirements g attr = true)
  ∧ (∀ u, u ∈ gs_Resources (group_Spec g) → (Z.of_nat (List.length (res_Storage (ru_Resources u))) ≤ cfg_MaxGroupVolumes cfg)%Z)
  ∧ signed_as_required pass g ∧ ValidateBasic g = None.
Proof.
  assert (volumes_allowed cfg g = true ↔ ∀ u, u ∈ gs_Resources (group_Spec g) →
    (Z.of_nat (List.length (res_Storage (ru_Resources u))) ≤ cfg_MaxGroupVolumes cfg)%Z) as <-.
  { unfold volumes_allowed. rewrite forallb_forall. setoid_rewrite list_elem_of_In. by setoid_rewrite Z.leb_le. }
  rewrite <- signatures_met_iff. unfold shouldBid.
  destruct allowed; cbn [negb]; [|naive_solver].
  destruct (MatchAttributes _ _); cbn [negb]; [|naive_solver].
  destruct (SubsetOf _ _); cbn [negb]; [|naive_solver].
  destruct (GetAttributes pass) as [attr|]; cbn [rbind]; [|naive_solver].
  destruct (MatchResourcesRequirements g attr) eqn:Er; cbn [negb]; [|naive_solver congruence].
  destruct (volumes_allowed cfg g); cbn [negb]; [|naive_solver].
  destruct (signatures_met session pass g) as [[]|]; cbn [rbind negb]; [|naive_solver..].
  destruct (ValidateBasic g); naive_solver.
Qed.

End sound.

(** ** The gate of the private market *)

Section gated.
Context `{ChainGroups} `{GoUnicode} `{Aead} `{Network}.
Variable cfg : Config.
Variable session : Session.
Variable orderID : OrderID.
Variable os : Os.

(** The decisions a monitor gets are those of [shouldBid]. *)
Definition decided_by_gate (es : list oevent) : Prop :=
  ∀ r, OShouldBid r ∈ es → ∃ h pass g, r = shouldBid cfg session (Gate.PirAllocationAllowed os h).1 pass g.

(** Nothing is reserved and no bid is sent for an order unless the
    gate of the private market has allowed allocation. *)
Theorem gate_guards_orders (check : bool) (es : list oevent) (late : result string reservation)
  (acts : list action) (s : ostate) (a : action)
  (Hlife : life cfg session orderID check es late acts s) (Hgate : decided_by_gate es)
  (Ha : a ∈ acts) (Hkind : match a with Reserve _ | CreateBid _ => True | _ => False end) :
  ∃ h, (Gate.PirAllocationAllowed os h).1 = true.
Proof.
  destruct (life_ended _ _ _ _ _ _ _ _ Hlife) as (es0 & acts0 & p & s0 & e & acts1 & -> & Ht & He & ->).
  destruct (cleanup_quiet session orderID late s) as [Hqr Hqc], (en_quiet _ _ _ _ _ _ _ _ He) as (Hr & Hc & _).
  assert (true ∈ omap decision_of es0) as Hd.
  { rewrite (tr_decisions _ _ _ _ _ _ _ Ht). assert (ph_decided p ≠ []) as Hp; [|destruct p; cbn in *; set_solver].
    destruct a; try done.
    - assert (g ∈ omap reserve_of (acts0 ++ acts1 ++ cleanup session orderID late s)%list) as Hm
        by (apply list_elem_of_omap; by exists (Reserve g)).
      rewrite !omap_app, Hqr, Hr, (tr_reserves _ _ _ _ _ _ _ Ht), !app_nil_r in Hm. intros E. rewrite E in Hm. by apply elem_of_nil in Hm.
    - assert (m ∈ omap create_of (acts0 ++ acts1 ++ cleanup session orderID late s)%list) as Hm
        by (apply list_elem_of_omap; by exists (CreateBid m)).
      rewrite !omap_app, Hqc, Hc, (tr_creates _ _ _ _ _ _ _ Ht), !app_nil_r in Hm. intros E.
      destruct p; cbn in *; try discriminate; by apply elem_of_nil in Hm. }
  apply list_elem_of_omap in Hd as (e' & He' & Hdec).
  destruct e' as [| | | | | |[b|]| | | |]; cbn in Hdec; simplify_eq.
  destruct (Hgate (Ok true)) as (h & pass & g & Hs); [set_solver|]. exists h.
  symmetry in Hs. by apply should_bid_iff in Hs as [? _].
Qed.

End gated.

(** * A monitor on a sample order

    The witnesses of the monitor's properties, and two places where it does not
    do what it means to. *)

(** ** Runs by evaluation *)

Section exec.
Context `{ChainGroups}.

Fixpoint oexec (cfg : Config) (ses : Session) (o : OrderID) (s : ostate) (es : list oevent) : option (list action * ostate) :=
  match es with
  | [] => Some ([], s)
  | e :: es =>
      match ostep cfg ses o s e with
      | Some (Next s1 acts) => '(acts', s2) ← oexec cfg ses o s1 es; Some ((acts ++ acts')%list, s2)
      | _ => None
      end
  end.

Lemma orun_cons cfg ses o s e s1 a1 es acts s2 :
  ostep cfg ses o s e = Some (Next s1 a1) → orun cfg ses o s1 es acts s2 → orun cfg ses o s (e :: es) (a1 ++ acts) s2.
Proof.
  intros He. induction 1 as [s1|s1 es acts s2 e' s3 acts' Hrun IH Hstep].
  - rewrite app_nil_r. apply (orun_snoc cfg ses o s [] [] s e s1 a1); [constructor|done].
  - rewrite app_assoc. change (e :: es ++ [e'])%list with ((e :: es) ++ [e'])%list. econstructor; [by apply IH|done].
Qed.

Lemma oexec_run cfg ses o s es acts s' : oexec cfg ses o s es = Some (acts, s') → orun cfg ses o s es acts s'.
Proof.
  revert s acts. induction es as [|e es IH]; intros s acts; cbn; [intros [= <- <-]; constructor|].
  destruct (ostep cfg ses o s e) as [[s1 a1|?|]|] eqn:E; try done.
  destruct (oexec cfg ses o s1 es) as [[acts' s2]|] eqn:Ee; cbn; [|done]. intros [= <- <-].
  eapply orun_cons; [done|by apply IH].
Qed.

End exec.

Module OrderSample.

(** Groups that ask for an attribute and for the signature of an auditor. *)
Record group := MkSample { sg_spec : GroupSpec; sg_price : DecCoin; sg_auditors : list string }.

Definition has_all (wanted have : Attributes) : bool :=
  forallb (λ a, existsb (λ b, bool_decide (a = b)) have) wanted.

#[export] Instance sample_groups : ChainGroups := {|
  Group := group;
  group_Owner _ := "akash1tenant";
  group_Spec := sg_spec;
  group_Price := sg_price;
  SignedBy_Size g := Z.of_nat (List.length (sg_auditors g));
  SignedBy_AllOf := sg_auditors;
  SignedBy_AnyOf := sg_auditors;
  MatchAttributes g have := has_all (gs_Requirements (sg_spec g)) have;
  MatchResourcesRequirements _ _ := true;
  MatchRequirements g signed := forallb (λ a, existsb (λ p, ap_Auditor p =? a) signed) (sg_auditors g);
  ValidateBasic _ := None;
  SubsetOf := has_all
|}.

Definition region : Attributes := [MkAttr "region" "west"].
Definition west : group := MkSample (MkGroupSpec "west" region []) (MkDecCoin "uakt" 100) ["akash1auditor"].
Definition provider : Session := MkSession "akash1provider" "akash1provider" "owner:akash1provider" region 1000000.
(** Bids time out after five minutes. *)
Definition config : Config := MkBidConfig (MkDecCoin "uakt" 5) (300 * 1000000000) [] 4 0.
Definition oid : OrderID := MkOrder "akash1tenant" 7 1 1.
Definition granted : reservation := newReservation oid (AGroupSpec (sg_spec west)).
Definition pass : Pass := MkPass (Ok []) (λ a, Ok [MkAudited "akash1provider" a region]).

(** A bid that times out. *)
Definition timed_out : list oevent :=
  [OGroup (Ok west); OShouldBid (shouldBid config provider true pass west); OReserved (Ok granted);
   OPrice (Ok (MkDecCoin "uakt" 60)); OBidSent (Ok ())].
Definition bid : MsgCreateBid := bid_msg config provider oid granted (MkDecCoin "uakt" 60).

Definition waiting : ostate :=
  MkO false false false false false false false true (Some west) (Some granted) false true.

Definition timed_out_acts : list action :=
  [CheckShouldBid west; Reserve west; CalculatePrice "akash1tenant" west []; CreateBid bid].

Lemma timed_out_run : orun config provider oid (start_order false).1 timed_out timed_out_acts waiting.
Proof. apply oexec_run. vm_compute. reflexivity. Qed.

Definition whole_life : list action :=
  [QueryGroup; CheckShouldBid west; Reserve west; CalculatePrice "akash1tenant" west []; CreateBid bid;
   Unreserve oid; CloseBid (bidID provider oid)].

Lemma timed_out_life : life config provider oid false (timed_out ++ [OTimeout])%list (Err "unused") whole_life waiting.
Proof. exact (life_intro config provider oid false _ _ _ OTimeout waiting [] (Err "unused") timed_out_run eq_refl). Qed.

End OrderSample.
Import OrderSample.

Lemma reservation_balance_witness :
  omap unreserve_of whole_life = map rv_order (omap reservation_of (timed_out ++ [OTimeout])%list).
Proof.
  pose proof (reservation_balance config provider oid false _ _ _ _ timed_out_life) as (_ & Hu & _).
  rewrite Hu. cbn [o_won waiting o_clusterch]. rewrite app_nil_r. reflexivity.
Defined.

Lemma bid_conditions_witness :
  omap create_of whole_life = [bid] ∧ acceptable west (cb_Price bid).
Proof.
  destruct (bid_conditions config provider oid false _ _ _ _ bid timed_out_life) as (Hc & g & r & Hg & _ & _ & _ & Ha & _).
  - unfold whole_life. do 4 apply list_elem_of_further. apply list_elem_of_here.
  - split; [exact Hc|]. injection Hg as <-. exact Ha.
Defined.

Lemma bid_closed_once_witness : omap close_of whole_life = [bidID provider oid].
Proof. exact (bid_closed_once config provider oid false timed_out OTimeout _ _ _ timed_out_life). Defined.

Lemma monitor_total_witness :
  ostep config provider oid waiting OShutdown ≠ Some Crash ∧ (sum_list_with is_answer timed_out ≤ 6)%nat.
Proof. exact (monitor_total config provider oid false _ _ waiting OShutdown timed_out_run). Defined.

(** A provider in private-market mode whose commitments match. *)
#[local] Existing Instance GateSample.unicode.
#[local] Existing Instance PlainAead.plain_aead.
#[local] Existing Instance GateSample.net.

Lemma gate_guards_orders_witness :
  ∃ h, (Gate.PirAllocationAllowed GateSample.os h).1 = true.
Proof.
  apply (gate_guards_orders config provider oid GateSample.os false _ _ _ _ (@Reserve sample_groups west) timed_out_life).
  - intros r Hr. exists [], pass, west. unfold timed_out in Hr. rewrite !elem_of_app, !elem_of_cons in Hr.
    destruct Hr as [[Hr|[Hr|[Hr|[Hr|[Hr|Hr]]]]]|[Hr|Hr]]; try discriminate; try (by apply elem_of_nil in Hr).
    injection Hr as ->. vm_compute. reflexivity.
  - unfold whole_life. do 2 apply list_elem_of_further. apply list_elem_of_here.
  - exact I.
Defined.

(** ** Where the monitor goes wrong *)

(** The age of a bid is computed as its height less the height at which the
    session started, which is negative for every bid that was there before:
    no recovered bid is ever found stale, however old it is. *)
Theorem recovered_bid_never_stale `{ChainGroups} (c : Config) (ses : Session) (b : Bid)
  (Hheights : (0 ≤ bid_CreatedAt b ≤ ses_CreatedAtBlockHeight ses)%Z)
  (Hrange : (ses_CreatedAtBlockHeight ses ≤ 1000000000)%Z) :
  isStaleBid c ses b = false.
Proof.
  unfold isStaleBid, bidTimeoutEnabled. destruct (0 <? cfg_BidTimeout c)%Z eqn:E; cbn [negb]; [|done].
  apply Z.ltb_lt in E. apply Z.ltb_ge. unfold minTimePerBlock. rewrite (i64_id (_ - _)) by lia. rewrite i64_id by lia. lia.
Qed.

(** A closed bid is recognised by the printed form of the provider's record
    instead of its address: when they differ the monitor ignores that its own
    bid was closed. *)
Theorem own_bid_closed_ignored `{ChainGroups} (c : Config) (ses : Session) (o : OrderID) (s : ostate)
  (Hprint : ses_String ses ≠ ses_Address ses) :
  ostep c ses o s (OBidClosed (bidID ses o)) = Some (Next s []).
Proof.
  cbn. unfold on_bidClosed. repeat case_match; try done. cbn in *.
  by rewrite (proj2 (String.eqb_neq _ _)) in * by congruence.
Qed.
