(* ===== verification/BidService.v ===== *)
(** * The bid engine's service: one monitor per open order

    [bidengine/service.go].  [ordersFetcher] walks the pages of open orders the
    chain answers with; [run] starts a monitor for every order of a page and for
    every order created later, keeps the monitors by the path of their order,
    and waits for all of them when it is shut down.  The status messages and
    gauges are not modelled. *)
From Stdlib Require Import Ascii String.
From S2P Require Import Prelude GoStrings ReservationService.

Open Scope string_scope.

(** [mquery.OrderPath]: the key of an order in the map of monitors. *)
Class OrderPaths := { OrderPath : OrderID → string; OrderPath_inj :: Inj (=) (=) OrderPath }.

(** ** The traversal of open orders *)

(** What happens to a query: an error, an error or an answer after the context
    was cancelled, or a page with the key of the next one (empty or absent on
    the last page). [sent] says that the page was queued and not cancelled. *)
Inductive query_answer :=
| QueryFails
| QueryCancelled
| QueryPage (orders : list OrderID) (nextKey : string) (sent : bool).

Inductive fetch_end := Traversed | Cancelled | NextKeyRepeated (key : string) | Fetching.

(** The keys asked for, the pages queued, and how the traversal ended; it is
    still going on when the answers are used up. *)
Fixpoint ordersFetcher (nextKey : string) (answers : list query_answer)
  : list string * list (list OrderID) * fetch_end :=
  match answers with
  | [] => ([], [], Fetching)
  | QueryFails :: answers =>
      let '(keys, pages, e) := ordersFetcher nextKey answers in (nextKey :: keys, pages, e)
  | QueryCancelled :: _ => ([nextKey], [], Cancelled)
  | QueryPage orders pageNextKey sent :: answers =>
      if negb (pageNextKey =? EmptyString) && (pageNextKey =? nextKey)
      then ([nextKey], [], NextKeyRepeated pageNextKey)
      else if negb sent then ([nextKey], [], Cancelled)
      else if pageNextKey =? EmptyString then ([nextKey], [orders], Traversed)
      else
        let '(keys, pages, e) := ordersFetcher pageNextKey answers in (nextKey :: keys, orders :: pages, e)
  end.

Section service.
Context `{OrderPaths}.

(** ** The loop *)

(** [draining] is the state after the loop, while monitors are waited for. *)
Record bstate := MkB { b_orders : gmap string OrderID; b_draining : bool }.

(** A monitor that is started; the flag is [checkForExistingBid]. *)
Inductive baction := StartMonitor (o : OrderID) (check : bool).

(** [created o]: whether [newOrder] succeeds. *)
Fixpoint processOrdersPage (created : OrderID → bool) (page : list OrderID) (orders : gmap string OrderID)
  : gmap string OrderID * list baction :=
  match page with
  | [] => (orders, [])
  | o :: page =>
      match orders !! OrderPath o with
      | Some _ => processOrdersPage created page orders
      | None =>
          if created o then
            let '(orders, acts) := processOrdersPage created page (<[OrderPath o := o]> orders) in
            (orders, StartMonitor o true :: acts)
          else processOrdersPage created page orders
      end
  end.

Inductive bevent :=
| BShutdown
| BPage (page : list OrderID)
| BOrderCreated (o : OrderID)
| BDrain (o : OrderID).

Definition on_orderCreated (created : OrderID → bool) (o : OrderID) (orders : gmap string OrderID)
  : gmap string OrderID * list baction :=
  match orders !! OrderPath o with
  | Some _ => (orders, [])
  | None => if created o then (<[OrderPath o := o]> orders, [StartMonitor o false]) else (orders, [])
  end.

(** A monitor reports once, when it is done: [BDrain] is enabled for the orders
    that have one.  After the shutdown only they are listened to. *)
Definition bstep (created : OrderID → bool) (s : bstate) (e : bevent) : option (bstate * list baction) :=
  match e with
  | BShutdown => if b_draining s then None else Some (MkB (b_orders s) true, [])
  | BPage page =>
      if b_draining s then None
      else let '(orders, acts) := processOrdersPage created page (b_orders s) in Some (MkB orders false, acts)
  | BOrderCreated o =>
      if b_draining s then None
      else let '(orders, acts) := on_orderCreated created o (b_orders s) in Some (MkB orders false, acts)
  | BDrain o =>
      if bool_decide (b_orders s !! OrderPath o = Some o)
      then Some (MkB (delete (OrderPath o) (b_orders s)) (b_draining s), []) else None
  end.

(** [run] has returned: nothing is left to drain. *)
Definition b_done (s : bstate) : Prop := b_draining s = true ∧ b_orders s = ∅.

Inductive bruns (created : OrderID → bool) : bstate → list bevent → list baction → bstate → Prop :=
| bruns_nil s : bruns created s [] [] s
| bruns_cons s e s1 acts es acts' s2 :
    bstep created s e = Some (s1, acts) → bruns created s1 es acts' s2 →
    bruns created s (e :: es) (acts ++ acts') s2.

Definition bstart : bstate := MkB ∅ false.

(** ** Monitors *)

(** The monitors of an order that were started, that are done, that run. *)
Definition started (o : OrderID) (acts : list baction) : nat :=
  sum_list_with (λ '(StartMonitor o' _), if decide (o' = o) then 1 else 0)%nat acts.
Definition drained (o : OrderID) (es : list bevent) : nat :=
  sum_list_with (λ e, match e with BDrain o' => if decide (o' = o) then 1 else 0 | _ => 0 end)%nat es.
Definition running (o : OrderID) (orders : gmap string OrderID) : nat :=
  if decide (orders !! OrderPath o = Some o) then 1%nat else 0%nat.

(** Monitors are kept under the path of their order. *)
Definition keyed (orders : gmap string OrderID) : Prop := map_Forall (λ k o, k = OrderPath o) orders.

Lemma running_insert o o' orders :
  keyed orders → orders !! OrderPath o' = None →
  running o (<[OrderPath o' := o']> orders) = ((if decide (o' = o) then 1 else 0) + running o orders)%nat.
Proof.
  intros Hk Hn. unfold running. destruct (decide (o' = o)) as [->|Hne].
  - rewrite lookup_insert_eq, decide_True by done. by rewrite decide_False by (rewrite Hn; done).
  - rewrite lookup_insert_ne; [done|]. intros E. by apply Hne, (inj OrderPath).
Qed.

Lemma running_delete o o' orders :
  orders !! OrderPath o' = Some o' →
  (running o (delete (OrderPath o') orders) + (if decide (o' = o) then 1 else 0) = running o orders)%nat.
Proof.
  intros Hn. unfold running. destruct (decide (o' = o)) as [->|Hne].
  - rewrite lookup_delete_eq, decide_False by done. by rewrite decide_True.
  - rewrite lookup_delete_ne; [lia|]. intros E. by apply Hne, (inj OrderPath).
Qed.

Lemma keyed_insert o orders : keyed orders → keyed (<[OrderPath o := o]> orders).
Proof. intros Hk. by apply map_Forall_insert_2. Qed.

Lemma keyed_delete k orders : keyed orders → keyed (delete k orders).
Proof. intros Hk. by apply map_Forall_delete. Qed.

Lemma keyed_lookup o o' orders : keyed orders → orders !! OrderPath o = Some o' → o' = o.
Proof. intros Hk E. apply Hk in E. by apply (inj OrderPath). Qed.

Lemma processOrdersPage_spec created page orders orders' acts :
  keyed orders → processOrdersPage created page orders = (orders', acts) →
  keyed orders' ∧ (∀ o, running o orders' = started o acts + running o orders)%nat
  ∧ (∀ o, o ∈ page → created o = true → running o orders' = 1%nat).
Proof.
  revert orders orders' acts. induction page as [|o page IH]; intros orders orders' acts Hk; cbn.
  { intros [= <- <-]. split_and!; [done..|]. intros o Ho. by apply elem_of_nil in Ho. }
  assert (∀ orders0 orders1 acts0, keyed orders0 → processOrdersPage created page orders0 = (orders1, acts0) →
    (created o = true → running o orders0 = 1%nat) →
    ∀ x, x ∈ o :: page → created x = true → running x orders1 = 1%nat) as Hkeep.
  { intros orders0 orders1 acts0 Hk0 E Ho x [->|Hx]%elem_of_cons Hc; [|by eapply IH]. destruct (IH _ _ _ Hk0 E) as (_ & Hr & _).
    specialize (Hr o). rewrite Ho in Hr by done. revert Hr. unfold running. case_decide; [done|lia]. }
  destruct (orders !! OrderPath o) as [o'|] eqn:Eo.
  - apply keyed_lookup in Eo as Ho; [subst o'|done]. intros E. destruct (IH _ _ _ Hk E) as (? & ? & _).
    split_and!; [done..|]. apply (Hkeep _ _ _ Hk E). intros _. unfold running. by rewrite decide_True.
  - destruct (created o) eqn:Ec; [|intros E; destruct (IH _ _ _ Hk E) as (? & ? & _); split_and!; [done..|]; by apply (Hkeep _ _ _ Hk E)].
    destruct (processOrdersPage _ _ _) as [orders1 acts1] eqn:E. intros [= <- <-].
    pose proof (keyed_insert o _ Hk) as Hk1. destruct (IH _ _ _ Hk1 E) as (? & Hr & _). split_and!; [done| |].
    + intros x. rewrite Hr, running_insert by done. unfold started. cbn. lia.
    + apply (Hkeep _ _ _ Hk1 E). intros _. rewrite running_insert by done. unfold running. rewrite Eo. by repeat case_decide.
Qed.

Lemma bstep_running created s e s' acts :
  keyed (b_orders s) → bstep created s e = Some (s', acts) →
  keyed (b_orders s') ∧ ∀ o, (running o (b_orders s') + drained o [e] = started o acts + running o (b_orders s))%nat.
Proof.
  intros Hk. destruct e as [|page|o|o]; cbn [bstep].
  - case_match; [done|]. intros [= <- <-]. split; [done|]. intros o. cbn. lia.
  - case_match; [done|]. destruct (processOrdersPage _ _ _) as [orders1 acts1] eqn:E. intros [= <- <-].
    destruct (processOrdersPage_spec _ _ _ _ _ Hk E) as (? & Hr & _). split; [done|]. intros o. cbn. rewrite Hr. lia.
  - case_match; [done|]. unfold on_orderCreated. destruct (b_orders s !! OrderPath o) eqn:Eo.
    { intros [= <- <-]. split; [done|]. intros x. cbn. lia. }
    destruct (created o); intros [= <- <-]; (split; [by try apply keyed_insert|]); intros x; cbn; [|lia].
    rewrite running_insert by done. unfold started. cbn. lia.
  - case_bool_decide as Ho; [|done]. intros [= <- <-]. split; [by apply keyed_delete|]. intros x. cbn.
    rewrite <- (running_delete x o _ Ho). lia.
Qed.

Lemma bruns_running created s es acts s' :
  bruns created s es acts s' → keyed (b_orders s) →
  keyed (b_orders s') ∧ ∀ o, (running o (b_orders s') + drained o es = started o acts + running o (b_orders s))%nat.
Proof.
  induction 1 as [s|s e s1 acts es acts' s2 Hstep _ IH]; intros Hk; [split; [done|]; intros o; cbn; lia|].
  destruct (bstep_running _ _ _ _ _ Hk Hstep) as [Hk1 Hr1]. destruct (IH Hk1) as [Hk2 Hr2]. split; [done|]. intros o.
  specialize (Hr1 o). specialize (Hr2 o). unfold drained, started in *. rewrite sum_list_with_app. cbn in *. lia.
Qed.

(** Every open order has one monitor: over any run, the monitors
    started for an order are those that are done and, when there is one in the
    map, a single one that runs; so no order is bid on twice at a time.  After
    a page of open orders or the creation of an order, every order in it whose
    monitor could be started has a running one. *)
Theorem one_monitor (created : OrderID → bool) (es : list bevent) (acts : list baction) (s : bstate)
  (Hrun : bruns created bstart es acts s) :
  (∀ o, started o acts = drained o es + running o (b_orders s))%nat
  ∧ (∀ page s' acts', bstep created s (BPage page) = Some (s', acts') →
       ∀ o, o ∈ page → created o = true → running o (b_orders s') = 1%nat)
  ∧ (∀ o s' acts', bstep created s (BOrderCreated o) = Some (s', acts') → created o = true →
       running o (b_orders s') = 1%nat).
Proof.
  destruct (bruns_running _ _ _ _ _ Hrun) as [Hk Hr]; [apply map_Forall_empty|]. split_and!.
  - intros o. specialize (Hr o). assert (running o (b_orders bstart) = 0%nat) as H0 by done. lia.
  - intros page s' acts'. cbn. case_match; [done|]. destruct (processOrdersPage _ _ _) as [orders1 acts1] eqn:E. intros [= <- <-].
    by destruct (processOrdersPage_spec _ _ _ _ _ Hk E) as (_ & _ & ?).
  - intros o s' acts'. cbn. case_match; [done|]. unfold on_orderCreated.
    destruct (b_orders s !! OrderPath o) as [o'|] eqn:Eo; intros Hs Hc.
    + apply keyed_lookup in Eo as Ho; [subst o'|done]. simplify_eq/=. unfold running. by rewrite decide_True.
    + rewrite Hc in Hs. simplify_eq/=. unfold running. by rewrite lookup_insert_eq, decide_True.
Qed.

(** A shutdown ends: from the moment it is requested no monitor is
    started, every event is the end of a monitor and takes one from the map,
    so there are exactly as many as monitors were running; and until the map is
    empty some monitor can report. *)
Theorem shutdown_drains (created : OrderID → bool) (es es' : list bevent) (acts acts' : list baction) (s s' : bstate)
  (Hrun : bruns created bstart es acts s) (Hdrain : b_draining s = true) (Hrest : bruns created s es' acts' s') :
  acts' = [] ∧ (List.length es' + size (b_orders s') = size (b_orders s))%nat
  ∧ (b_done s' ∨ ∃ o s2, bstep created s' (BDrain o) = Some (s2, [])).
Proof.
  destruct (bruns_running _ _ _ _ _ Hrun) as [Hk _]; [apply map_Forall_empty|]. clear Hrun.
  induction Hrest as [s|s e s1 acts1 es' acts2 s2 Hstep _ IH].
  - split_and!; [done..|]. destruct (decide (b_orders s = ∅)) as [He|Hne]; [by left|right].
    apply map_choose in Hne as (k & o & Ho). pose proof (Hk _ _ Ho) as ->.
    exists o. eexists. cbn. by rewrite bool_decide_true.
  - destruct (bstep_running _ _ _ _ _ Hk Hstep) as [Hk1 _]. revert Hstep. destruct e as [|page|o|o]; cbn; rewrite ?Hdrain; try done.
    case_bool_decide as Ho; [|done]. intros [= <- <-]. destruct IH as (-> & Hn & Hd); [done..|]. split_and!; [done| |done].
    cbn [b_orders] in Hn. rewrite map_size_delete, Ho in Hn. cbn in Hn.
    assert (size (b_orders s) ≠ 0%nat) by (intros E; apply map_size_empty_inv in E; by rewrite E, lookup_empty in Ho). cbn. lia.
Qed.

End service.

(** ** The whole catch-up *)

(** A chain that serves the pages from a key on, with queries that fail in
    between. *)
Inductive served : string → list (list OrderID) → list query_answer → Prop :=
| served_last k page : served k [page] [QueryPage page EmptyString true]
| served_next k page k' pages answers :
    k' ≠ EmptyString → k' ≠ k → served k' pages answers → served k (page :: pages) (QueryPage page k' true :: answers)
| served_retry k pages answers : served k pages answers → served k pages (QueryFails :: answers).

Lemma served_fetched k pages answers :
  served k pages answers → ∃ keys, ordersFetcher k answers = (keys, pages, Traversed).
Proof.
  induction 1 as [k page|k page k' pages answers Hne Hk _ [keys IH]|k pages answers _ [keys IH]]; cbn; [by eexists| |].
  - rewrite (proj2 (String.eqb_neq _ _) Hne), (proj2 (String.eqb_neq _ _) Hk), IH. by eexists.
  - rewrite IH. by eexists.
Qed.

(** The catch-up is complete: when the chain serves all pages of
    open orders, with any number of failing queries in between, the traversal
    ends and has queued every page; and when the loop has taken them, every
    open order whose monitor could be started has a running monitor. *)
Theorem catch_up_complete `{OrderPaths} (created : OrderID → bool) (pages : list (list OrderID))
  (answers : list query_answer) (acts : list baction) (s : bstate)
  (Hserved : served EmptyString pages answers) (Hrun : bruns created bstart (map BPage pages) acts s) :
  (∃ keys, ordersFetcher EmptyString answers = (keys, pages, Traversed))
  ∧ ∀ o page, page ∈ pages → o ∈ page → created o = true → running o (b_orders s) = 1%nat.
Proof.
  split; [by eapply served_fetched|]. clear Hserved.
  assert (∀ s0 acts0, keyed (b_orders s0) → bruns created s0 (map BPage pages) acts0 s →
    ∀ o, (running o (b_orders s0) = 1%nat ∨ ∃ page, page ∈ pages ∧ o ∈ page ∧ created o = true) → running o (b_orders s) = 1%nat) as Hall.
  { clear Hrun acts. induction pages as [|page pages IH]; intros s0 acts0 Hk Hrun o Ho; inversion Hrun as [|? ? s1 acts1 ? ? ? Hstep Hrest]; subst.
    - destruct Ho as [?|(page & Hp & _)]; [done|by apply elem_of_nil in Hp].
    - destruct (bstep_running _ _ _ _ _ Hk Hstep) as [Hk1 Hr]. specialize (Hr o). cbn in Hr. apply (IH _ _ Hk1 Hrest).
      destruct Ho as [Ho|(page' & [->|Hp]%elem_of_cons & Hop & Hc)].
      + left. unfold running in *. repeat case_decide; lia.
      + left. revert Hstep. cbn. case_match; [done|]. destruct (processOrdersPage _ _ _) eqn:E. intros [= <- <-].
        by eapply (processOrdersPage_spec _ _ _ _ _ Hk E).
      + right. by exists page'. }
  intros o page Hp Ho Hc. apply (Hall bstart acts); [apply map_Forall_empty|done|]. right. by exists page.
Qed.

(** ** A sample traversal *)

Module ServiceSample.

(** A path that spells the fields of the order in binary. *)
Fixpoint bits (p : positive) : string :=
  match p with xH => EmptyString | xO p => String "0" (bits p) | xI p => String "1" (bits p) end.
Definition path (o : OrderID) : string := bits (encode (oid_Owner o, oid_DSeq o, oid_GSeq o, oid_OSeq o)).

Lemma bits_inj p q : bits p = bits q → p = q.
Proof. revert q. induction p as [p IH|p IH|]; intros [q|q|]; cbn; try done; intros E; injection E as E; f_equal; by apply IH. Qed.

Lemma path_inj : Inj (=) (=) path.
Proof. intros [] [] E%bits_inj%(inj encode). cbn in E. congruence. Qed.

#[export] Instance sample_paths : OrderPaths := {| OrderPath := path; OrderPath_inj := path_inj |}.

Definition order (n : Z) : OrderID := MkOrder "t" n 1 1.
Definition pages : list (list OrderID) := [[order 1; order 2]; [order 3]].
(** The second query fails once. *)
Definition answers : list query_answer :=
  [QueryPage [order 1; order 2] "k1" true; QueryFails; QueryPage [order 3] EmptyString true].
(** The monitor of order 2 cannot be started. *)
Definition created (o : OrderID) : bool := negb (oid_DSeq o =? 2)%Z.

Definition after (s : bstate) (es : list bevent) : bstate * list baction :=
  foldl (λ '(s, acts) e, match bstep created s e with Some (s', acts') => (s', acts ++ acts')%list | None => (s, acts) end)
    (s, []) es.

End ServiceSample.
Import ServiceSample.

Definition taken : bstate := (after bstart (map BPage pages)).1.

Lemma pages_taken : bruns created bstart (map BPage pages) [StartMonitor (order 1) true; StartMonitor (order 3) true] taken.
Proof.
  eapply (bruns_cons _ _ _ _ [StartMonitor (order 1) true]); [vm_compute; reflexivity|].
  eapply (bruns_cons _ _ _ _ [StartMonitor (order 3) true]); [vm_compute; reflexivity|].
  apply bruns_nil.
Qed.

Lemma one_monitor_witness :
  started (order 1) [StartMonitor (order 1) true; StartMonitor (order 3) true]
  = (drained (order 1) (map BPage pages) + running (order 1) (b_orders taken))%nat.
Proof. exact (proj1 (one_monitor created _ _ _ pages_taken) (order 1)). Defined.

Lemma catch_up_complete_witness : running (order 3) (b_orders taken) = 1%nat.
Proof.
  refine (proj2 (catch_up_complete created pages answers _ taken _ pages_taken) (order 3) [order 3] _ _ _).
  - unfold pages, answers. apply served_next; [discriminate|discriminate|]. apply served_retry. apply served_last.
  - unfold pages. set_solver.
  - set_solver.
  - vm_compute. reflexivity.
Defined.

Lemma shut_down : bruns created bstart (map BPage pages ++ [BShutdown])%list
  [StartMonitor (order 1) true; StartMonitor (order 3) true] (MkB (b_orders taken) true).
Proof.
  eapply (bruns_cons _ _ _ _ [StartMonitor (order 1) true]); [vm_compute; reflexivity|].
  eapply (bruns_cons _ _ _ _ [StartMonitor (order 3) true]); [vm_compute; reflexivity|].
  eapply (bruns_cons _ _ _ _ []); [vm_compute; reflexivity|]. apply bruns_nil.
Qed.

Lemma shutdown_drains_witness :
  b_done (MkB (b_orders taken) true) ∨ ∃ o s2, bstep created (MkB (b_orders taken) true) (BDrain o) = Some (s2, []).
Proof.
  exact (proj2 (proj2 (shutdown_drains created _ [] _ [] _ _ shut_down eq_refl (bruns_nil _ _)))).
Defined.
