(* ===== verification/DeployMonitor.v ===== *)
(** * The monitor of a deployment

    [cluster/monitor.go]: checks that the services of a lease have their
    replicas, publishes changes of the status, and closes the lease when the
    checks keep failing.  Every arm of the select is a [mevent]; the timers and
    runners are pending flags.  Random jitter only moves timers and is not
    modelled. *)
From Stdlib Require Import Ascii String.
From S2P Require Import Prelude Traces GoStrings.

Open Scope string_scope.

(** [event.ClusterDeploymentStatus], as far as the monitor uses it. *)
Inductive dstatus := DeploymentUnknown | DeploymentPending | DeploymentDeployed.
#[export] Instance dstatus_eq_dec : EqDecision dstatus.
Proof. solve_decision. Defined.

(** ** One check *)

(** A service of the manifest and the replicas that are available; [uint32]
    of an [int32]. *)
Record mservice := MkMService { mv_Name : string; mv_Count : Z }.

Definition bad_service (status : gmap string Z) (spec : mservice) : bool :=
  match status !! mv_Name spec with
  | Some available => (u32 available <? mv_Count spec)%Z
  | None => true
  end.

(** [LeaseStatus] fails, or maps services to their available replicas. *)
Definition doCheck (status : result string (gmap string Z)) (services : list mservice) : bool * option string :=
  match status with
  | Err e => (false, Some e)
  | Ok status =>
      let badsvc := List.length (List.filter (bad_service status) services) in
      ((badsvc =? 0)%nat, None)
  end.

(** ** The loop *)

(** [m_tick], [m_run], [m_close]: the channels that are not nil. *)
Record mstate := MkM { m_tick : bool; m_run : bool; m_close : bool; m_attempts : Z; m_prev : dstatus }.

Record mconfig := MkMConfig { mc_MaxRetries : Z; mc_HealthcheckPeriod : Z }.

Inductive mevent :=
| MShutdown
| MTick
| MResult (healthy : bool)
| MClosed.

Inductive maction :=
| MCheck
| MPublish (st : dstatus)
| MCloseLease.

Section monitor.
Variable cfg : mconfig.

Definition mstart : mstate := MkM true false false 0 DeploymentUnknown.

Definition runCheck (s : mstate) : mstate := MkM false true (m_close s) (m_attempts s + 1) (m_prev s).

Definition scheduleHealthcheck : bool := (0 <? mc_HealthcheckPeriod cfg)%Z.

Definition on_check (healthy : bool) (s : mstate) : mstate * list maction :=
  let currStatus := if healthy then DeploymentDeployed else DeploymentPending in
  let attempts := if healthy then 0%Z else m_attempts s in
  let tick := if healthy then scheduleHealthcheck else m_tick s in
  let publish := if decide (currStatus = m_prev s) then [] else [MPublish currStatus] in
  if negb healthy then
    if (attempts <=? mc_MaxRetries cfg)%Z
    then (MkM true false (m_close s) attempts currStatus, publish)
    else (MkM tick false true attempts currStatus, publish ++ [MCloseLease])%list
  else (MkM tick false (m_close s) attempts currStatus, publish).

(** [None] when the event is not enabled or the loop has ended. *)
Definition mstep (s : mstate) (e : mevent) : option (mstate * list maction) :=
  match e with
  | MShutdown => None
  | MTick => if m_tick s then Some (runCheck s, [MCheck]) else None
  | MResult healthy => if m_run s then Some (on_check healthy s) else None
  | MClosed => if m_close s then Some (MkM (m_tick s) (m_run s) false (m_attempts s) (m_prev s), []) else None
  end.

Definition mruns : mstate → list mevent → list maction → mstate → Prop := runs mstep.

(** ** What a run shows *)

Definition check_of (e : mevent) : option bool := match e with MResult h => Some h | _ => None end.
Definition publish_of (a : maction) : option dstatus := match a with MPublish st => Some st | _ => None end.
Definition close_of (a : maction) : option () := match a with MCloseLease => Some () | _ => None end.

Definition status_of (healthy : bool) : dstatus := if healthy then DeploymentDeployed else DeploymentPending.

(** The reference: every status that differs from the one before it. *)
Fixpoint changes (prev : dstatus) (l : list dstatus) : list dstatus :=
  match l with
  | [] => []
  | st :: l => if decide (st = prev) then changes st l else st :: changes st l
  end.

(** The unhealthy checks since the last healthy one. *)
Fixpoint failing (checks : list bool) (n : Z) : Z :=
  match checks with
  | [] => n
  | h :: checks => failing checks (if h then 0 else n + 1)%Z
  end.

Lemma changes_snoc prev l st :
  changes prev (l ++ [st]) = (changes prev l ++ (if decide (st = default prev (last l)) then [] else [st]))%list.
Proof.
  revert prev. induction l as [|x l IH]; intros prev; [done|].
  cbn [app changes]. rewrite !IH, last_cons.
  assert (default prev (match last l with Some y => Some y | None => Some x end) = default x (last l)) as -> by by destruct (last l).
  by case_decide.
Qed.

Lemma failing_snoc checks h n : failing (checks ++ [h]) n = (if h then 0 else failing checks n + 1)%Z.
Proof. revert n. induction checks as [|b checks IH]; intros n; [done|]. cbn. by rewrite IH. Qed.

(** The state of the loop after a run. *)
Record monitored (es : list mevent) (acts : list maction) (s : mstate) : Prop := {
  mo_prev : m_prev s = default DeploymentUnknown (last (map status_of (omap check_of es)));
  mo_published : omap publish_of acts = changes DeploymentUnknown (map status_of (omap check_of es));
  mo_attempts : m_attempts s = (failing (omap check_of es) 0 + (if m_run s then 1 else 0))%Z;
  mo_closed :
    (omap close_of acts = [] ∧ (failing (omap check_of es) 0 ≤ mc_MaxRetries cfg)%Z ∧ m_tick s && m_run s = false ∧ m_close s = false) ∨
    (omap close_of acts = [()] ∧ (failing (omap check_of es) 0 = mc_MaxRetries cfg + 1)%Z ∧ m_tick s = false ∧ m_run s = false)
}.

Lemma mstep_monitored es acts s e s' acts1 :
  (0 ≤ mc_MaxRetries cfg)%Z → monitored es acts s → mstep s e = Some (s', acts1) → monitored (es ++ [e]) (acts ++ acts1) s'.
Proof.
  intros Hmax [Hprev Hpub Hatt Hclo]. destruct e as [| |h|]; cbn [mstep]; [done|..].
  - destruct (m_tick s) eqn:Et; [|done]. intros [= <- <-].
    destruct Hclo as [(Hc & Hf & Hx & Hcl)|(? & ? & ? & ?)]; [|congruence]. cbn in Hx.
    constructor; rewrite !omap_app; cbn; rewrite ?app_nil_r; try done; [rewrite Hatt, Hx; lia|left; done].
  - destruct (m_run s) eqn:Er; [|done].
    destruct Hclo as [(Hc & Hf & Hx & Hcl)|(? & ? & ? & ?)]; [|congruence].
    assert (m_tick s = false) as Ht by by destruct (m_tick s). unfold on_check.
    assert (∀ st l, omap publish_of (if decide (st = m_prev s) then [] else [MPublish st]) = l →
      l = if decide (st = m_prev s) then [] else [st]) as Hp by (intros st l <-; by case_decide).
    assert (∀ st, omap close_of (if decide (st = m_prev s) then [] else [MPublish st]) = []) as Hnc by (intros st; by case_decide).
    destruct h; cbn [negb]; [|destruct (m_attempts s <=? mc_MaxRetries cfg)%Z eqn:El]; intros [= <- <-];
      (constructor; cbn [m_prev m_attempts m_run m_tick m_close]; rewrite !omap_app, ?map_app, ?Hpub, ?Hc, ?Hnc; cbn [omap list_omap map app check_of status_of close_of publish_of];
       rewrite ?last_snoc, ?changes_snoc, <- ?Hprev, ?failing_snoc, ?app_nil_r; try done).
    all: try (by rewrite (Hp _ _ eq_refl)).
    all: try (rewrite Hatt; lia).
    all: try (apply Z.leb_le in El). all: try (apply Z.leb_gt in El).
    + left. split_and!; [done|lia|by rewrite andb_false_r|done].
    + left. split_and!; [done|lia|done|done].
    + right. split_and!; [done|lia|done|done].
  - destruct (m_close s) eqn:Ec; [|done]. intros [= <- <-]. constructor; rewrite !omap_app; cbn; rewrite ?app_nil_r; try done.
    destruct Hclo as [(? & ? & ? & ?)|?]; [congruence|by right].
Qed.

Lemma mruns_monitored es acts s :
  (0 ≤ mc_MaxRetries cfg)%Z → mruns mstart es acts s → monitored es acts s.
Proof.
  intros Hmax. apply runs_invariant; [constructor; try done; left; by split_and!|].
  intros. by eapply mstep_monitored.
Qed.

(** The monitor publishes the changes of the health of a
    deployment: what it has published is exactly the sequence of its check
    results with repetitions left out. *)
Theorem monitor_publishes_changes (es : list mevent) (acts : list maction) (s : mstate)
  (Hmax : (0 ≤ mc_MaxRetries cfg)%Z) (Hrun : mruns mstart es acts s) :
  omap publish_of acts = changes DeploymentUnknown (map status_of (omap check_of es)).
Proof. apply (mo_published _ _ _ (mruns_monitored es acts s Hmax Hrun)). Qed.

(** The lease of a failing deployment is closed exactly when one
    check more than the configured retries has failed in a row, and once: then
    the monitor stops checking. *)
Theorem monitor_closes_failing (es : list mevent) (acts : list maction) (s : mstate)
  (Hmax : (0 ≤ mc_MaxRetries cfg)%Z) (Hrun : mruns mstart es acts s) :
  (failing (omap check_of es) 0 ≤ mc_MaxRetries cfg + 1)%Z
  ∧ omap close_of acts = (if (failing (omap check_of es) 0 =? mc_MaxRetries cfg + 1)%Z then [()] else [])
  ∧ (omap close_of acts = [()] → m_tick s = false ∧ m_run s = false).
Proof.
  destruct (mo_closed _ _ _ (mruns_monitored es acts s Hmax Hrun)) as [(-> & Hf & _)|(-> & Hf & Ht & Hr)].
  - split; [lia|]. split; [|done]. by rewrite (proj2 (Z.eqb_neq _ _)) by lia.
  - split; [lia|]. split; [|done]. by rewrite (proj2 (Z.eqb_eq _ _)).
Qed.

End monitor.

(** ** A deployment that comes up, goes down and is closed *)

Module MonitorSample.
Definition config : mconfig := MkMConfig 1 60.
Definition events : list mevent := [MTick; MResult true; MTick; MResult false; MTick; MResult false; MClosed].
Definition actions : list maction :=
  [MCheck; MPublish DeploymentDeployed; MCheck; MPublish DeploymentPending; MCheck; MCloseLease].
Definition final : mstate := MkM false false false 2 DeploymentPending.

Lemma events_run : mruns config mstart events actions final.
Proof. apply exec_runs. reflexivity. Qed.
End MonitorSample.
Import MonitorSample.

Lemma monitor_publishes_changes_witness :
  omap publish_of actions = changes DeploymentUnknown (map status_of (omap check_of events)).
Proof. apply (monitor_publishes_changes config events actions final); [done|exact events_run]. Defined.

Lemma monitor_closes_failing_witness : omap close_of actions = [()].
Proof. exact (proj1 (proj2 (monitor_closes_failing config events actions final ltac:(done) events_run))). Defined.
