(* ===== verification/DeployManager.v ===== *)
(** * The manager of a deployment

    [cluster/manager.go], the loop: deploys a lease, redeploys it when its
    manifest is updated, closes it when its reclamation is due, and tears it
    down.  Deploys, teardowns and reclamation attempts run in goroutines of
    their own; their ends are events enabled while they are pending. *)
From Stdlib Require Import Ascii String.
From S2P Require Import Prelude Traces GoStrings.

Open Scope string_scope.

(** ** Data *)

Inductive deploymentState :=
| dsDeployActive | dsDeployPending | dsDeployComplete
| dsTeardownActive | dsTeardownPending | dsTeardownComplete.
#[export] Instance deploymentState_eq_dec : EqDecision deploymentState.
Proof. solve_decision. Defined.

(** What the pending goroutine behind [runch] does. *)
Inductive drunner := Deploying | TearingDown.

(** The errors of a runner: the lease is not active any more, or another one. *)
Inductive run_error := ErrLeaseInactive | ErrOther (msg : string).

Section manager.
Context {Deployment : Type}.

(** [d_monitor]: a monitor was started; [d_reclaimch]: the buffered deadline;
    [d_reclaimC]: the timer is armed; [d_over]: the loop has ended. *)
Record dstate := MkD {
  d_state : deploymentState;
  d_deployment : Deployment;
  d_runch : option drunner;
  d_retry : bool;
  d_monitor : bool;
  d_messages : list string;
  d_reclaimch : option Z;
  d_deadline : Z;
  d_reclaimC : bool;
  d_reclaiming : bool;
  d_teardownErr : option run_error;
  d_over : bool
}.

Inductive devent :=
| DShutdown
| DReclaim
| DReclaimTimer
| DReclaimResult (done : bool)
| DUpdate (d : Deployment)
| DResult (r : option run_error)
| DRetry
| DTeardown
| DReclaimCall (deadline : Z).

Inductive daction :=
| StartDeploy
| StartTeardown
| RemoveFundsMonitor
| StartMonitor
| StopMonitor
| AttemptReclaimClose (deadline : Z).

(** ** Setters *)
Definition set_state (st : deploymentState) (s : dstate) : dstate :=
  MkD st (d_deployment s) (d_runch s) (d_retry s) (d_monitor s) (d_messages s) (d_reclaimch s) (d_deadline s)
    (d_reclaimC s) (d_reclaiming s) (d_teardownErr s) (d_over s).
Definition set_deployment (d : Deployment) (s : dstate) : dstate :=
  MkD (d_state s) d (d_runch s) (d_retry s) (d_monitor s) (d_messages s) (d_reclaimch s) (d_deadline s)
    (d_reclaimC s) (d_reclaiming s) (d_teardownErr s) (d_over s).
Definition set_runch (r : option drunner) (s : dstate) : dstate :=
  MkD (d_state s) (d_deployment s) r (d_retry s) (d_monitor s) (d_messages s) (d_reclaimch s) (d_deadline s)
    (d_reclaimC s) (d_reclaiming s) (d_teardownErr s) (d_over s).
Definition set_retry (b : bool) (s : dstate) : dstate :=
  MkD (d_state s) (d_deployment s) (d_runch s) b (d_monitor s) (d_messages s) (d_reclaimch s) (d_deadline s)
    (d_reclaimC s) (d_reclaiming s) (d_teardownErr s) (d_over s).
Definition set_monitor (b : bool) (s : dstate) : dstate :=
  MkD (d_state s) (d_deployment s) (d_runch s) (d_retry s) b (d_messages s) (d_reclaimch s) (d_deadline s)
    (d_reclaimC s) (d_reclaiming s) (d_teardownErr s) (d_over s).
Definition set_messages (l : list string) (s : dstate) : dstate :=
  MkD (d_state s) (d_deployment s) (d_runch s) (d_retry s) (d_monitor s) l (d_reclaimch s) (d_deadline s)
    (d_reclaimC s) (d_reclaiming s) (d_teardownErr s) (d_over s).
Definition set_reclaimch (o : option Z) (s : dstate) : dstate :=
  MkD (d_state s) (d_deployment s) (d_runch s) (d_retry s) (d_monitor s) (d_messages s) o (d_deadline s)
    (d_reclaimC s) (d_reclaiming s) (d_teardownErr s) (d_over s).
Definition set_deadline (z : Z) (s : dstate) : dstate :=
  MkD (d_state s) (d_deployment s) (d_runch s) (d_retry s) (d_monitor s) (d_messages s) (d_reclaimch s) z
    (d_reclaimC s) (d_reclaiming s) (d_teardownErr s) (d_over s).
Definition set_reclaimC (b : bool) (s : dstate) : dstate :=
  MkD (d_state s) (d_deployment s) (d_runch s) (d_retry s) (d_monitor s) (d_messages s) (d_reclaimch s) (d_deadline s)
    b (d_reclaiming s) (d_teardownErr s) (d_over s).
Definition set_reclaiming (b : bool) (s : dstate) : dstate :=
  MkD (d_state s) (d_deployment s) (d_runch s) (d_retry s) (d_monitor s) (d_messages s) (d_reclaimch s) (d_deadline s)
    (d_reclaimC s) b (d_teardownErr s) (d_over s).
Definition set_teardownErr (e : option run_error) (s : dstate) : dstate :=
  MkD (d_state s) (d_deployment s) (d_runch s) (d_retry s) (d_monitor s) (d_messages s) (d_reclaimch s) (d_deadline s)
    (d_reclaimC s) (d_reclaiming s) e (d_over s).
Definition set_over (s : dstate) : dstate :=
  MkD (d_state s) (d_deployment s) (d_runch s) (d_retry s) (d_monitor s) (d_messages s) (d_reclaimch s) (d_deadline s)
    (d_reclaimC s) (d_reclaiming s) (d_teardownErr s) true.

(** ** Parts of the loop *)

Definition tearingDown (s : dstate) : bool :=
  match d_state s with
  | dsTeardownPending | dsTeardownActive | dsTeardownComplete => true
  | _ => false
  end.

Definition stopMonitor (s : dstate) : list daction := if d_monitor s then [StopMonitor] else [].

Definition startMonitor (s : dstate) : dstate * list daction := (set_monitor true s, [StartMonitor]).

Definition startDeploy (s : dstate) : dstate * list daction :=
  (set_runch (Some Deploying) (set_state dsDeployActive s), stopMonitor s ++ [StartDeploy])%list.

Definition startTeardown (s : dstate) : dstate * list daction :=
  (set_runch (Some TearingDown) (set_state dsTeardownActive s), stopMonitor s ++ [RemoveFundsMonitor; StartTeardown])%list.

Definition handleUpdate (s : dstate) : dstate * list daction :=
  match d_state s with
  | dsDeployActive => (set_state dsDeployPending s, [])
  | dsDeployComplete => startDeploy s
  | _ => (s, [])
  end.

Definition startReclaimAttempt (s : dstate) : dstate * list daction :=
  if d_reclaiming s || tearingDown s then (s, [])
  else (set_reclaiming true s, [AttemptReclaimClose (d_deadline s)]).

(** The send of [reclaim]: dropped when a deadline is queued. *)
Definition reclaim (deadline : Z) (s : dstate) : dstate :=
  match d_reclaimch s with Some _ => s | None => set_reclaimch (Some deadline) s end.

Definition error_text (e : run_error) : string := match e with ErrLeaseInactive => "inactive Lease" | ErrOther m => m end.

(** [None] is the panic INVALID STATE. *)
Definition on_result (r : option run_error) (s : dstate) : option (dstate * list daction) :=
  let s := set_runch None s in
  match r with
  | Some ErrLeaseInactive => Some (startTeardown s)
  | _ =>
      match d_state s with
      | dsDeployActive =>
          let '(s, acts) := startMonitor (set_state dsDeployComplete s) in
          Some (set_messages (match r with Some e => [error_text e] | None => [] end) s, acts)
      | dsDeployPending => Some (startDeploy s)
      | dsDeployComplete => None
      | dsTeardownActive =>
          let s := set_teardownErr r s in
          match r with
          | Some _ => Some (set_retry true s, [])
          | None => Some (set_over (set_state dsTeardownComplete s), [])
          end
      | dsTeardownPending => Some (startTeardown s)
      | dsTeardownComplete => None
      end
  end.

Definition on_teardown (s : dstate) : dstate * list daction :=
  let stop := stopMonitor s in
  match d_state s with
  | dsDeployActive | dsDeployPending => (set_state dsTeardownPending s, stop)
  | dsDeployComplete => let '(s, acts) := startTeardown s in (s, stop ++ acts)%list
  | _ => (s, stop)
  end.

(** A step, or the panic; not enabled after the end. *)
Definition dstep_panic (s : dstate) (e : devent) : option (outcome (dstate * list daction)) :=
  if d_over s then None else
  match e with
  | DShutdown => Some (Ret (set_over s, []))
  | DReclaim =>
      deadline ← d_reclaimch s;
      Some (Ret (startReclaimAttempt (set_deadline deadline (set_reclaimch None s))))
  | DReclaimTimer => if d_reclaimC s then Some (Ret (startReclaimAttempt (set_reclaimC false s))) else None
  | DReclaimResult finished =>
      if d_reclaiming s then
        let s := set_reclaiming false s in
        Some (Ret (if negb (tearingDown s) then set_reclaimC (negb finished) s else s, []))
      else None
  | DUpdate d => Some (Ret (handleUpdate (set_deployment d s)))
  | DResult r =>
      _ ← d_runch s;
      Some (match on_result r s with Some x => Ret x | None => Panic end)
  | DRetry =>
      if d_retry s then Some (Ret (startTeardown (set_retry false s))) else None
  | DTeardown => Some (Ret (on_teardown s))
  | DReclaimCall deadline => Some (Ret (reclaim deadline s, []))
  end.

Definition dstep (s : dstate) (e : devent) : option (dstate * list daction) :=
  match dstep_panic s e with Some (Ret x) => Some x | _ => None end.

(** [newDeploymentManager]: the first deploy is started at once. *)
Definition dstart (d : Deployment) : dstate :=
  MkD dsDeployActive d (Some Deploying) false false [] None 0 false false None false.

Definition druns (d : Deployment) : list devent → list daction → dstate → Prop := runs dstep (dstart d).

End manager.
Arguments dstate : clear implicits.
Arguments devent : clear implicits.
