(* ===== verification/DeployManagerSound.v ===== *)
(** * The manager of a deployment: its contract

    At most one deploy or teardown runs at a time, no update of the manifest is
    lost, and a teardown is final: it ends only when the cluster has been
    cleaned up. *)
From S2P Require Import Prelude Traces GoStrings DeployManager.

Section sound.
Context {Deployment : Type}.
Implicit Types (s : dstate Deployment) (e : devent Deployment).

(** What is pending in each state. *)
Definition settled s : Prop :=
  d_over s = false →
  match d_state s with
  | dsDeployActive | dsDeployPending | dsTeardownPending => d_runch s = Some Deploying ∧ d_retry s = false
  | dsDeployComplete => d_runch s = None ∧ d_retry s = false
  | dsTeardownActive => (d_runch s = Some TearingDown ∧ d_retry s = false) ∨ (d_runch s = None ∧ d_retry s = true)
  | dsTeardownComplete => False
  end.

Definition starts_of (a : daction) : nat := match a with StartDeploy | StartTeardown => 1 | _ => 0 end.
Definition result_of e : nat := match e with DResult _ => 1 | _ => 0 end.
Definition pending s : nat := if d_runch s then 1 else 0.

(** One step of the manager, by the fields of its state. *)
Ltac open_step Hs :=
  unfold dstep, dstep_panic, on_result, on_teardown, handleUpdate, startReclaimAttempt, reclaim, startDeploy, startTeardown,
    startMonitor, stopMonitor, tearingDown, orb, mbind, option_bind in Hs; cbn in Hs;
  repeat match type of Hs with context [match ?x with _ => _ end] => is_var x; destruct x; cbn in Hs end;
  simplify_eq/=.

(** By cases on the state where the step did not look at it. *)
Ltac by_state := solve [naive_solver | match goal with st : deploymentState |- _ => destruct st; naive_solver end].

Lemma dstep_settled s e s' acts :
  settled s → dstep s e = Some (s', acts) → settled s' ∧ sum_list_with starts_of acts + pending s = result_of e + pending s'.
Proof.
  intros Hw Hs. destruct s as [st dep runch retry mon msgs rch dl rC rcl tErr over]. unfold settled in Hw; cbn in Hw.
  destruct over; [done|]. specialize (Hw eq_refl). destruct e; open_step Hs; unfold settled, pending; cbn in *;
    by_state.
Qed.

Lemma druns_settled d es acts s :
  druns d es acts s → settled s ∧ sum_list_with starts_of acts + 1 = sum_list_with result_of es + pending s.
Proof.
  revert es acts s. apply runs_invariant; [by split|]. intros es acts s e s' acts1 [Hw Hc] Hs.
  destruct (dstep_settled _ _ _ _ Hw Hs) as [? Hp]. split; [done|]. rewrite !sum_list_with_app. cbn. lia.
Qed.

(** One thing at a time: the manager never reads the end of a
    runner in a state where there is none (the panics of the loop are
    unreachable), and at any time it has started as many deploys and teardowns
    as have ended, or one more, the one that is pending. *)
Theorem one_runner (d : Deployment) (es : list (devent Deployment)) (acts : list daction) (s : dstate Deployment)
  (e : devent Deployment) (Hrun : druns d es acts s) :
  dstep_panic s e ≠ Some Panic
  ∧ sum_list_with starts_of acts + 1 = sum_list_with result_of es + pending s.
Proof.
  destruct (druns_settled _ _ _ _ Hrun) as [Hw Hc]. split; [|done]. clear Hrun Hc. intros Hp.
  destruct s as [st dep runch retry mon msgs rch dl rC rcl tErr over]. unfold settled in Hw; cbn in Hw.
  destruct over; [done|]. specialize (Hw eq_refl). destruct e; open_step Hp; by_state.
Qed.

(** An update is waiting, deployed, or overtaken by a teardown. *)
Definition taken_up (acts : list daction) s : Prop :=
  StartDeploy ∈ acts ∨ d_state s = dsDeployPending ∨ tearingDown s = true.

Lemma update_taken s d s' acts : settled s → dstep s (DUpdate d) = Some (s', acts) → taken_up acts s' ∧ d_deployment s' = d.
Proof.
  intros Hw Hs. destruct s as [st dep runch retry mon msgs rch dl rC rcl tErr over]. unfold settled in Hw; cbn in Hw.
  destruct over; [done|]. specialize (Hw eq_refl). unfold taken_up.
  open_step Hs; (split; [|done]); cbn; auto; left; rewrite ?elem_of_cons; auto.
Qed.

Lemma taken_step s e s' acts : d_state s = dsDeployPending ∨ tearingDown s = true → dstep s e = Some (s', acts) → taken_up acts s'.
Proof.
  intros Hw Hs. destruct s as [st dep runch retry mon msgs rch dl rC rcl tErr over]. cbn in Hw. unfold taken_up.
  destruct over; [done|]. destruct e; open_step Hs; cbn in *; rewrite ?elem_of_cons; by_state.
Qed.

Lemma dstep_deployment s e s' acts :
  match e with DUpdate _ => False | _ => True end → dstep s e = Some (s', acts) → d_deployment s' = d_deployment s.
Proof.
  intros He Hs. destruct s as [st dep runch retry mon msgs rch dl rC rcl tErr over]. destruct over; [done|].
  destruct e; try done; open_step Hs; done.
Qed.

(** A step while the lease is torn down. *)
Lemma tear_step s e s' acts : tearingDown s = true → dstep s e = Some (s', acts) →
  tearingDown s' = true ∧ StartDeploy ∉ acts ∧ (∀ z, AttemptReclaimClose z ∉ acts)
  ∧ (d_over s' = true → e ≠ DShutdown → d_state s' = dsTeardownComplete ∧ d_teardownErr s' = None).
Proof.
  intros Hw Hs. destruct s as [st dep runch retry mon msgs rch dl rC rcl tErr over]. destruct over; [done|].
  destruct st; try done; destruct e; open_step Hs; split_and!; try done; try set_solver; intros; rewrite ?elem_of_cons, ?elem_of_nil; naive_solver.
Qed.

(** No update is lost: after an update of the manifest, at any
    later time a deploy has been started since, or one is queued behind the
    running deploy, or the lease is being torn down; and what is deployed is
    the latest manifest. *)
Theorem updates_deployed (d0 d : Deployment) (es es' : list (devent Deployment)) (acts acts0 acts' : list daction)
  (s s1 s2 : dstate Deployment)
  (Hrun : druns d0 es acts s) (Hupdate : dstep s (DUpdate d) = Some (s1, acts0)) (Hrest : runs dstep s1 es' acts' s2) :
  (StartDeploy ∈ (acts0 ++ acts')%list ∨ (d_state s2 = dsDeployPending ∧ (d_over s2 = false → d_runch s2 = Some Deploying)) ∨ tearingDown s2 = true)
  ∧ (Forall (λ e, match e with DUpdate _ => False | _ => True end) es' → d_deployment s2 = d).
Proof.
  destruct (druns_settled _ _ _ _ Hrun) as [Hw _]. destruct (update_taken _ _ _ _ Hw Hupdate) as [Ht Hd].
  destruct (dstep_settled _ _ _ _ Hw Hupdate) as [Hw1 _]. clear Hrun Hupdate.
  assert (settled s2 ∧ taken_up (acts0 ++ acts')%list s2 ∧
    (Forall (λ e, match e with DUpdate _ => False | _ => True end) es' → d_deployment s2 = d)) as (Hw2 & Ht2 & Hd2).
  { revert es' acts' s2 Hrest. apply runs_invariant; [by rewrite app_nil_r|].
    intros es1 acts1 s3 e s4 acts2 (Hw3 & Ht3 & Hd3) Hs. split_and!; [by eapply dstep_settled|..].
    - destruct Ht3 as [Ht3|Ht3]; [left; rewrite !elem_of_app in *; naive_solver|].
      destruct (taken_step _ _ _ _ Ht3 Hs) as [Ht4|Ht4]; [left; rewrite !elem_of_app; auto|by right].
    - rewrite Forall_app, Forall_singleton. intros [Hall He]. rewrite <- (Hd3 Hall). by eapply dstep_deployment. }
  split; [|done]. destruct Ht2 as [?|[Hp|?]]; auto. right. left. split; [done|]. intros Ho. specialize (Hw2 Ho). rewrite Hp in Hw2. by destruct Hw2.
Qed.

(** A teardown is final: once the lease is being torn down no
    deploy is started and no reclamation is attempted any more, and unless the
    provider is shut down the manager ends only after a teardown without
    error, having tried again after each failure. *)
Theorem teardown_final (es' : list (devent Deployment)) (acts' : list daction) (s s' : dstate Deployment)
  (Htear : tearingDown s = true) (Hrest : runs dstep s es' acts' s') :
  tearingDown s' = true ∧ StartDeploy ∉ acts' ∧ (∀ z, AttemptReclaimClose z ∉ acts')
  ∧ (d_over s = false → d_over s' = true → DShutdown ∉ es' → d_state s' = dsTeardownComplete ∧ d_teardownErr s' = None).
Proof.
  revert es' acts' s' Hrest. apply runs_invariant.
  { split_and!; [done|set_solver|set_solver|congruence]. }
  intros es1 acts1 s1 e s2 acts2 (Ht1 & Hd1 & Hr1 & Hc1) Hs.
  assert (d_over s1 = false) as Ho1 by (destruct (d_over s1) eqn:E; [|done]; unfold dstep, dstep_panic in Hs; by rewrite E in Hs).
  destruct (tear_step _ _ _ _ Ht1 Hs) as (Ht2 & Hd2 & Hr2 & Hc2). split_and!; [done|set_solver|set_solver|].
  intros _ Ho2 Hsh. apply Hc2; [done|]. intros ->. apply Hsh. set_solver.
Qed.

(** From a teardown the end is at most three answers of the cluster away. *)
Lemma teardown_finish s :
  settled s → tearingDown s = true → d_over s = false →
  ∃ es' acts' s', runs dstep s es' acts' s' ∧ (List.length es' ≤ 3)%nat ∧ last es' = Some (DResult None)
    ∧ Forall (λ e, e = DResult None ∨ e = DRetry) es'
    ∧ d_over s' = true ∧ d_state s' = dsTeardownComplete ∧ d_deployment s' = d_deployment s.
Proof.
  intros Hw Htear Hover. specialize (Hw Hover).
  destruct s as [st dep runch retry mon msgs rch dl rC rcl tErr over]. cbn in *. subst over. destruct st; try done.
  - destruct Hw as [[-> ->]|[-> ->]].
    + exists [DResult None]. eexists _, _. split; [apply exec_runs; reflexivity|]. split_and!; cbn; [lia|done|by repeat (apply Forall_cons; split; [auto|])|done..].
    + exists [DRetry; DResult None]. eexists _, _. split; [apply exec_runs; reflexivity|]. split_and!; cbn; [lia|done|by repeat (apply Forall_cons; split; [auto|])|done..].
  - destruct Hw as [-> ->]. exists [DResult None; DResult None]. eexists _, _.
    split; [apply exec_runs; reflexivity|]. split_and!; cbn; [lia|done|by repeat (apply Forall_cons; split; [auto|])|done..].
Qed.

(** A teardown can always be completed: from every state in which
    the lease is being torn down, the cluster's answers lead to the end of the
    manager, by at most three events, the last one a teardown without error. *)
Theorem teardown_completes (d : Deployment) (es : list (devent Deployment)) (acts : list daction) (s : dstate Deployment)
  (Hrun : druns d es acts s) (Htear : tearingDown s = true) (Hover : d_over s = false) :
  ∃ es' acts' s', runs dstep s es' acts' s' ∧ (List.length es' ≤ 3)%nat ∧ last es' = Some (DResult None)
    ∧ d_over s' = true ∧ d_state s' = dsTeardownComplete.
Proof.
  destruct (teardown_finish s) as (es' & acts' & s' & ? & ? & ? & _ & ? & ? & _); [by eapply druns_settled|done..|].
  by exists es', acts', s'.
Qed.

End sound.

(** ** A lease that is updated while it is deployed, then torn down *)

Module ManagerSample.
Definition before : list (devent nat) := [DUpdate 2].
Definition updated : dstate nat := MkD dsDeployPending 2 (Some Deploying) false false [] None 0 false false None false.
Definition redeployed : dstate nat := MkD dsDeployActive 2 (Some Deploying) false false [] None 0 false false None false.
Definition torn : dstate nat := MkD dsTeardownActive 2 (Some TearingDown) false false [] None 0 false false None false.
Definition failed : dstate nat := MkD dsTeardownActive 2 None true false [] None 0 false false (Some (ErrOther "api"%string)) false.

Lemma redeployed_run : druns 1 [DUpdate 2; DResult None] [StartDeploy] redeployed.
Proof. apply exec_runs. reflexivity. Qed.
Lemma torn_run : druns 1 [DUpdate 2; DTeardown; DResult None] [RemoveFundsMonitor; StartTeardown] torn.
Proof. apply exec_runs. reflexivity. Qed.
Lemma failed_run : runs dstep torn [DResult (Some (ErrOther "api"%string))] [] failed.
Proof. apply exec_runs. reflexivity. Qed.
End ManagerSample.
Import ManagerSample.

Lemma one_runner_witness :
  dstep_panic redeployed (DResult None) ≠ Some Panic ∧ sum_list_with starts_of [StartDeploy] + 1 = 1 + pending redeployed.
Proof. exact (one_runner 1 _ _ _ (DResult None) redeployed_run). Defined.

Lemma updates_deployed_witness : d_deployment redeployed = 2.
Proof.
  refine (proj2 (updates_deployed 1 2 [] [DResult None] [] [] [StartDeploy] (dstart 1) updated redeployed (runs_nil _ _) eq_refl _) _).
  - apply exec_runs. reflexivity.
  - repeat constructor.
Defined.

Lemma teardown_final_witness : tearingDown failed = true ∧ StartDeploy ∉ [].
Proof.
  destruct (teardown_final _ _ torn failed eq_refl failed_run) as (Ht & Hd & _). split; [exact Ht|exact Hd].
Defined.

Lemma teardown_completes_witness :
  ∃ es' acts' s', runs dstep torn es' acts' s' ∧ (List.length es' ≤ 3)%nat ∧ last es' = Some (DResult None)
    ∧ d_over s' = true ∧ d_state s' = dsTeardownComplete.
Proof. exact (teardown_completes 1 _ _ _ torn_run eq_refl eq_refl). Defined.
