(* ===== verification/ManifestManager.v ===== *)
(** * The manifest manager of a deployment

    [manifest/manager.go] with [proxy_limits.go], [parse.go] and [gateway.go]:
    collects the manifests tenants submit for a deployment, checks them against
    the deployment and the leases on the chain, and publishes the accepted one
    to every lease.  Every arm of the select in [run] is an event; the data
    fetch is pending while [mm_runch] holds. *)
From Stdlib Require Import Ascii String.
From S2P Require Import Prelude Traces GoStrings ChainTypes LeaseNames CrdManifest Hostname.

Open Scope string_scope.
Open Scope go_scope.

(** ** Errors *)

(** The errors a submission can end with.  The chain SDK's own errors are
    distinguished as far as the code does: [ErrInvalidManifest], alone or
    wrapped around another one, [ErrManifestCrossValidation], and the rest. *)
Inductive merror :=
| ErrInvalidManifest
| ErrWrapInvalid (e : merror)
| ErrOverLimit (svc field : string) (got max : Z)
| ErrManifestCrossValidation (msg : string)
| ErrManifestVersion
| ErrNoLeaseForDeployment
| errNoGroupForLease (lid : LeaseID)
| errManifestRejected (svc : string) (port : Z)
| ErrManagerNotRunning
| ErrRequestContext
| ErrHostname (e : hostname_error)
| ErrElse (msg : string).

(** [errors.Is(err, ErrInvalidManifest)]. *)
Definition is_invalid (e : merror) : bool :=
  match e with ErrInvalidManifest | ErrWrapInvalid _ | ErrOverLimit _ _ _ _ => true | _ => false end.

(** Gateway answers of a submission. *)
Inductive submit_answer := Submitted | HttpError (status : Z) (e : merror) | Failed (e : merror).

Definition ManifestSubmitErrorToHTTP (err : option merror) : submit_answer :=
  match err with
  | None => Submitted
  | Some e =>
      if is_invalid e then HttpError 422 e
      else match e with
      | ErrManifestVersion | ErrManifestCrossValidation _ | errManifestRejected _ _ => HttpError 422 e
      | ErrNoLeaseForDeployment => HttpError 404 e
      | _ => Failed e
      end
  end.

(** ** Proxy buffers *)

Definition maxProxyBufferSize : Z := 128 * 1024.
Definition maxProxyBuffersNumber : Z := 16.
Definition maxProxyBuffersSize : Z := 128 * 1024.
Definition maxProxyBusyBuffersSize : Z := 256 * 1024.

Section limits.
Context `{Protocols}.

Definition expose_over_limit (svc : string) (e : ServiceExpose) : option merror :=
  match ho_Proxy (se_HTTPOptions e) with
  | None => None
  | Some p =>
      if (maxProxyBufferSize <? po_BufferSize p)%Z then Some (ErrOverLimit svc "buffer_size" (po_BufferSize p) maxProxyBufferSize)
      else if (maxProxyBuffersNumber <? po_BuffersNumber p)%Z then Some (ErrOverLimit svc "buffers_number" (po_BuffersNumber p) maxProxyBuffersNumber)
      else if (maxProxyBuffersSize <? po_BuffersSize p)%Z then Some (ErrOverLimit svc "buffers_size" (po_BuffersSize p) maxProxyBuffersSize)
      else if (maxProxyBusyBuffersSize <? po_BusyBuffersSize p)%Z then Some (ErrOverLimit svc "busy_buffers_size" (po_BusyBuffersSize p) maxProxyBusyBuffersSize)
      else None
  end.

(** The first error of a loop that returns at the first error. *)
Fixpoint first_error {A E} (f : A → option E) (l : list A) : option E :=
  match l with
  | [] => None
  | x :: l => match f x with Some e => Some e | None => first_error f l end
  end.

Definition validateProxyBufferLimits (m : list Group) : option merror :=
  first_error (λ g, first_error (λ s, first_error (expose_over_limit (svc_Name s)) (svc_Expose s)) (g_Services g)) m.

Definition AllHostnamesOfManifestGroup (g : Group) : list string :=
  concat (map (λ s, concat (map se_Hosts (svc_Expose s))) (g_Services g)).

End limits.

(** ** The chain *)

(** Groups of a deployment, and the functions of the chain SDK on manifests. *)
Class ManifestSdk `{Protocols} := {
  ChainGroup : Type;
  cg_GSeq : ChainGroup → Z;
  cg_Name : ChainGroup → string;
  Validate : list Group → option merror;
  Version : list Group → result merror string;
  CheckAgainstDeployment : list Group → list ChainGroup → option merror;
  IsIngress : ServiceExpose → bool;
  GetExternalPort : ServiceExpose → Z;
  owner_address : string → result merror string
}.

Section manager.
Context `{ManifestSdk} `{GoUnicode}.

Record deployment_data := MkDeploymentData { dd_Owner : string; dd_Hash : string; dd_Groups : list ChainGroup }.
Definition no_data : deployment_data := MkDeploymentData EmptyString EmptyString [].

Record LeaseWon := MkLeaseWon { lw_LeaseID : LeaseID; lw_Group : ChainGroup; lw_Price : DecCoin }.

(** The group a lease is for: later groups of the answer replace earlier ones
    with the same sequence number. *)
Definition group_for (groups : list ChainGroup) (gseq : Z) : option ChainGroup :=
  last (List.filter (λ g, cg_GSeq g =? gseq)%Z groups).

Fixpoint leases_won (groups : list ChainGroup) (leases : list (LeaseID * DecCoin)) : result merror (list LeaseWon) :=
  match leases with
  | [] => Ok []
  | (lid, price) :: leases =>
      match group_for groups (lid_GSeq lid) with
      | None => Err (errNoGroupForLease lid)
      | Some g => let* rest := leases_won groups leases in Ok (MkLeaseWon lid g price :: rest)
      end
  end.

(** The answers of the two queries: the deployment, the provider's active
    leases of it. *)
Definition doFetchData (deployment : result merror deployment_data) (leases : result merror (list (LeaseID * DecCoin)))
  : result merror (deployment_data * list LeaseWon) :=
  let* deploymentResponse := deployment in
  let* leasesResponse := leases in
  let* won := leases_won (dd_Groups deploymentResponse) leasesResponse in
  Ok (deploymentResponse, won).

(** ** State *)

(** A request: the channel its answer goes to, and the manifest. *)
Record mrequest := MkRequest { rq_ch : nat; rq_Manifest : list Group }.

(** [mm_stoptimer]: nil, or a timer that is running or has fired. *)
Record manager := MkManager {
  mm_data : deployment_data;
  mm_requests : list mrequest;
  mm_pending : list mrequest;
  mm_manifests : list (list Group);
  mm_versions : list string;
  mm_leases : list LeaseWon;
  mm_fetched : bool;
  mm_fetchedAt : Z;
  mm_stoptimer : option bool;
  mm_runch : bool;
  mm_over : bool
}.

Record mconfig := MkMConfig { mc_RequireHost : bool; mc_CachedResultMaxAge : Z }.

(** What the manager sees when it looks at a request: whether its context is
    done (the two times it is looked at), and the hostname service at the time
    of the call to it. *)
Record seen := MkSeen { sn_done : bool; sn_done_again : bool; sn_hosts : hostnameService; sn_served : arm }.

Inductive maction :=
| Answer (ch : nat) (err : option merror)
| Publish (lid : LeaseID) (g : ChainGroup) (m : list Group) (d : deployment_data)
| Fetch.

Definition set_requests (l : list mrequest) (s : manager) : manager :=
  MkManager (mm_data s) l (mm_pending s) (mm_manifests s) (mm_versions s) (mm_leases s) (mm_fetched s) (mm_fetchedAt s)
    (mm_stoptimer s) (mm_runch s) (mm_over s).
Definition set_pending (l : list mrequest) (s : manager) : manager :=
  MkManager (mm_data s) (mm_requests s) l (mm_manifests s) (mm_versions s) (mm_leases s) (mm_fetched s) (mm_fetchedAt s)
    (mm_stoptimer s) (mm_runch s) (mm_over s).
Definition set_manifests (l : list (list Group)) (s : manager) : manager :=
  MkManager (mm_data s) (mm_requests s) (mm_pending s) l (mm_versions s) (mm_leases s) (mm_fetched s) (mm_fetchedAt s)
    (mm_stoptimer s) (mm_runch s) (mm_over s).
Definition set_versions (l : list string) (s : manager) : manager :=
  MkManager (mm_data s) (mm_requests s) (mm_pending s) (mm_manifests s) l (mm_leases s) (mm_fetched s) (mm_fetchedAt s)
    (mm_stoptimer s) (mm_runch s) (mm_over s).
Definition set_fetched (f : bool) (t : Z) (d : deployment_data) (l : list LeaseWon) (s : manager) : manager :=
  MkManager d (mm_requests s) (mm_pending s) (mm_manifests s) (mm_versions s) l f t
    (mm_stoptimer s) (mm_runch s) (mm_over s).
Definition set_stoptimer (t : option bool) (s : manager) : manager :=
  MkManager (mm_data s) (mm_requests s) (mm_pending s) (mm_manifests s) (mm_versions s) (mm_leases s) (mm_fetched s) (mm_fetchedAt s)
    t (mm_runch s) (mm_over s).
Definition set_mrunch (b : bool) (s : manager) : manager :=
  MkManager (mm_data s) (mm_requests s) (mm_pending s) (mm_manifests s) (mm_versions s) (mm_leases s) (mm_fetched s) (mm_fetchedAt s)
    (mm_stoptimer s) b (mm_over s).
Definition set_mover (s : manager) : manager :=
  MkManager (mm_data s) (mm_requests s) (mm_pending s) (mm_manifests s) (mm_versions s) (mm_leases s) (mm_fetched s) (mm_fetchedAt s)
    (mm_stoptimer s) (mm_runch s) true.

Definition newManager : manager := MkManager no_data [] [] [] [] [] false 0 None false false.

Variable cfg : mconfig.

(** ** Checking a manifest *)

(** The first ingress of the services that names no host. *)
Definition ingress_without_host (m : Group) : option merror :=
  first_error (λ s, first_error (λ e,
    if IsIngress e && (List.length (se_Hosts e) =? 0)%nat then Some (errManifestRejected (svc_Name s) (GetExternalPort e)) else None)
    (svc_Expose s)) (g_Services m).

(** One pass of the two nested loops: a group of the manifest and the name of
    a leased group. *)
Definition hostnames_of (g : Group) (name : string) : result merror (list string) :=
  if negb (name =? g_Name g) then Ok []
  else if negb (mc_RequireHost cfg) then Ok (AllHostnamesOfManifestGroup g)
  else match ingress_without_host g with
  | Some e => Err e
  | None => Ok (AllHostnamesOfManifestGroup g)
  end.

Fixpoint collect {A E B} (f : A → result E (list B)) (l : list A) : result E (list B) :=
  match l with
  | [] => Ok []
  | x :: l => let* bs := f x in let* rest := collect f l in Ok (bs ++ rest)%list
  end.

Definition checkHostnamesForManifest (data : deployment_data) (m : list Group) (groupNames : list string) (sn : seen) : option merror :=
  match owner_address (dd_Owner data) with
  | Err e => Some e
  | Ok ownerAddr =>
      match collect (λ g, collect (hostnames_of g) groupNames) m with
      | Err e => Some e
      | Ok allHostnames =>
          match CanReserveHostnames (sn_hosts sn) allHostnames ownerAddr (sn_served sn) with
          | Err e => Some (ErrHostname e)
          | Ok _ => None
          end
      end
  end.

(** The version a manifest must have: the last one announced by an update,
    else the one of the deployment. *)
Definition versionExpected (s : manager) : string :=
  match last (mm_versions s) with Some v => v | None => dd_Hash (mm_data s) end.

Definition validateRequest (s : manager) (req : mrequest) (sn : seen) : option merror :=
  let m := rq_Manifest req in
  if sn_done_again sn then Some ErrRequestContext
  else match Validate m with
  | Some e => Some (if is_invalid e then e else ErrWrapInvalid e)
  | None =>
      match validateProxyBufferLimits m with
      | Some e => Some e
      | None =>
          match Version m with
          | Err e => Some e
          | Ok version =>
              if negb (version =? versionExpected s) then Some ErrManifestVersion
              else match CheckAgainstDeployment m (dd_Groups (mm_data s)) with
              | Some e => Some e
              | None => checkHostnamesForManifest (mm_data s) m (map (λ l, cg_Name (lw_Group l)) (mm_leases s)) sn
              end
          end
      end
  end.

(** The loop of [validateRequests]: what is answered, and the requests whose
    manifest is accepted.  A request whose context is done is dropped. *)
Fixpoint validate_all (s : manager) (observe : nat → seen) (reqs : list mrequest) : list maction * list mrequest :=
  match reqs with
  | [] => ([], [])
  | req :: reqs =>
      let '(acts, accepted) := validate_all s observe reqs in
      let sn := observe (rq_ch req) in
      if sn_done sn then (acts, accepted)
      else match validateRequest s req sn with
      | Some e => (Answer (rq_ch req) (Some e) :: acts, accepted)
      | None => (acts, req :: accepted)
      end
  end.

Definition validateRequests (s : manager) (observe : nat → seen) : manager * list maction :=
  if negb (mm_fetched s) || (List.length (mm_requests s) =? 0)%nat then (s, [])
  else
    let '(acts, accepted) := validate_all s observe (mm_requests s) in
    let s := set_requests [] (set_pending (mm_pending s ++ accepted)%list s) in
    match map rq_Manifest accepted with
    | [] => (s, acts)
    | m :: _ => (set_manifests (mm_manifests s ++ [m])%list s, acts)
    end.

(** ** Answers and publications *)

Definition answer_all (reqs : list mrequest) (err : option merror) : list maction :=
  map (λ r, Answer (rq_ch r) err) reqs.

Definition fillAllRequests (err : option merror) (s : manager) : manager * list maction :=
  (set_requests [] (set_pending [] s), answer_all (mm_pending s) err ++ answer_all (mm_requests s) err)%list.

Definition emitReceivedEvents (s : manager) : manager * list maction :=
  match last (mm_manifests s) with
  | None => (s, [])
  | Some latestManifest =>
      if negb (mm_fetched s) then (s, [])
      else if (List.length (mm_leases s) =? 0)%nat then fillAllRequests (Some ErrNoLeaseForDeployment) s
      else
        (set_pending [] s,
         map (λ l, Publish (lw_LeaseID l) (lw_Group l) latestManifest (mm_data s)) (mm_leases s)
         ++ answer_all (mm_pending s) None)%list
  end.

(** ** The loop *)

Definition clearFetched (s : manager) : manager := set_fetched false 0 no_data [] s.

(** [None]: the receive from the channel of a timer that was stopped never
    returns. *)
Definition maybeScheduleStop (s : manager) : option manager :=
  if (0 <? List.length (mm_leases s))%nat || (0 <? List.length (mm_manifests s))%nat then
    match mm_stoptimer s with
    | Some true => None
    | Some false => Some (set_stoptimer None s)
    | None => Some s
    end
  else match mm_stoptimer s with
  | Some _ => Some (set_stoptimer (Some true) s)
  | None => Some s
  end.

Definition maybeFetchData (now : Z) (s : manager) : manager * list maction :=
  if mm_runch s then (s, [])
  else if negb (mm_fetched s) || (mc_CachedResultMaxAge cfg <? now - mm_fetchedAt s)%Z
  then (set_mrunch true (clearFetched s), [Fetch])
  else (s, []).

Definition process (observe : nat → seen) (s : manager) : manager * list maction :=
  let '(s, acts) := validateRequests s observe in
  let '(s, acts') := emitReceivedEvents s in
  (s, acts ++ acts')%list.

(** After the loop. *)
Definition finish (s : manager) : manager * list maction :=
  let '(s, acts) := fillAllRequests (Some ErrManagerNotRunning) s in (set_mover s, acts).

Inductive mevent :=
| EvShutdown
| EvStopTimer
| EvLease (now : Z)
| EvRemoveLease
| EvManifest (req : mrequest) (now : Z) (observe : nat → seen)
| EvVersion (v : string)
| EvFetched (deployment : result merror deployment_data) (leases : result merror (list (LeaseID * DecCoin)))
    (now : Z) (observe : nat → seen).

(** What an event leads to; the manager may be stuck, waiting for a timer. *)
Inductive progress := Continue (s : manager) (acts : list maction) | Stuck.

Definition continue (x : manager * list maction) : progress := Continue x.1 x.2.

Definition with_stop (s : manager) (k : manager → progress) : progress :=
  match maybeScheduleStop s with Some s => k s | None => Stuck end.

Definition on_manifest (req : mrequest) (now : Z) (observe : nat → seen) (s : manager) : progress :=
  with_stop (set_requests (mm_requests s ++ [req])%list s) (λ s,
    let '(s, acts) := maybeFetchData now s in
    if mm_runch s then Continue s acts
    else let '(s, acts') := process observe s in Continue s (acts ++ acts')%list).

Definition on_fetched (deployment : result merror deployment_data) (leases : result merror (list (LeaseID * DecCoin)))
  (now : Z) (observe : nat → seen) (s : manager) : progress :=
  let s := set_mrunch false s in
  match doFetchData deployment leases with
  | Err e => continue (fillAllRequests (Some e) s)
  | Ok (data, won) =>
      let '(s, acts) := process observe (set_fetched true now data won s) in
      with_stop s (λ s, Continue s acts)
  end.

Definition mstep_stuck (s : manager) (e : mevent) : option progress :=
  if mm_over s then None else
  match e with
  | EvShutdown => Some (match mm_stoptimer s with Some true => Stuck | _ => continue (finish s) end)
  | EvStopTimer => match mm_stoptimer s with Some _ => Some (continue (finish s)) | None => None end
  | EvLease now => Some (with_stop (clearFetched s) (λ s, continue (maybeFetchData now s)))
  | EvRemoveLease => Some (with_stop (clearFetched s) (λ s, Continue s []))
  | EvManifest req now observe => Some (on_manifest req now observe s)
  | EvVersion v => Some (Continue (clearFetched (set_versions (mm_versions s ++ [v])%list s)) [])
  | EvFetched deployment leases now observe =>
      if mm_runch s then Some (on_fetched deployment leases now observe s) else None
  end.

Definition mstep (s : manager) (e : mevent) : option (manager * list maction) :=
  match mstep_stuck s e with Some (Continue s acts) => Some (s, acts) | _ => None end.

Definition mruns : list mevent → list maction → manager → Prop := runs mstep newManager.

End manager.
