(* ===== verification/ManifestManagerSound.v ===== *)
(** * The manifest manager: its contract

    Every submission is answered once; what is published was checked against
    the chain; an acknowledged submission has been published to every lease; the
    checks themselves; and two runs in which the manager does not do what it
    means to. *)
From Stdlib Require Import Ascii String.
From S2P Require Import Prelude Traces GoStrings ChainTypes LeaseNames CrdManifest Hostname ManifestManager.

Open Scope string_scope.
Open Scope go_scope.

Section sound.
Context `{ManifestSdk} `{GoUnicode}.
Variable cfg : mconfig.

(** ** One round of checking and publishing *)

Definition answer_of (a : maction) : option nat := match a with Answer ch _ => Some ch | _ => None end.
Notation answered := (omap answer_of).

Lemma answered_all l err : answered (answer_all l err) = map rq_ch l.
Proof. induction l as [|r l IH]; [done|]. cbn. by rewrite <- IH. Qed.

Lemma answered_publish (f : LeaseWon → maction) l : (∀ x, answer_of (f x) = None) → answered (map f l) = [].
Proof. intros Hf. induction l as [|x l IH]; [done|]. cbn. by rewrite Hf, IH. Qed.

(** Accepted, rejected and dropped requests make up the requests. *)
Lemma validate_all_split s observe reqs acts accepted :
  validate_all cfg s observe reqs = (acts, accepted) →
  ∃ dropped, (answered acts ++ map rq_ch accepted ++ dropped)%list ≡ₚ map rq_ch reqs
    ∧ Forall (λ ch, sn_done (observe ch) = true) dropped
    ∧ Forall (λ r, r ∈ reqs ∧ validateRequest cfg s r (observe (rq_ch r)) = None) accepted
    ∧ Forall (λ a, ∃ ch e, a = Answer ch (Some e)) acts.
Proof.
  revert acts accepted. induction reqs as [|r reqs IH]; intros acts accepted; cbn.
  { intros [= <- <-]. by exists []. }
  destruct (validate_all _ _ _ reqs) as [acts0 acc0]. destruct (IH _ _ eq_refl) as (dropped & Hp & Hd & Hacc & Hacts).
  assert (Forall (λ r0, r0 ∈ r :: reqs ∧ validateRequest cfg s r0 (observe (rq_ch r0)) = None) acc0) as Hacc'.
  { eapply Forall_impl; [exact Hacc|]. intros x [? ?]. split; [by apply list_elem_of_further|done]. }
  destruct (sn_done _) eqn:Ed; [|destruct (validateRequest _ _ _ _) as [e|] eqn:Ev]; intros [= <- <-].
  - exists (rq_ch r :: dropped). split_and!; [|by constructor|done..].
    rewrite <- Hp, !app_assoc. symmetry. apply Permutation_middle.
  - exists dropped. split_and!; [cbn; by rewrite Hp|done..|]. constructor; eauto.
  - exists dropped. split_and!; [cbn; rewrite <- Hp, <- Permutation_middle; done|done| |done].
    constructor; [|done]. split; [apply list_elem_of_here|done].
Qed.

(** What a round emits for the accepted requests. *)
Definition emitted (manifests : list (list Group)) (s : manager) (accepted : list mrequest) : list maction :=
  match last manifests with
  | None => []
  | Some m =>
      if (List.length (mm_leases s) =? 0)%nat then answer_all accepted (Some ErrNoLeaseForDeployment)
      else (map (λ l, Publish (lw_LeaseID l) (lw_Group l) m (mm_data s)) (mm_leases s) ++ answer_all accepted None)%list
  end.

Definition with_accepted (s : manager) (accepted : list mrequest) : list (list Group) :=
  (mm_manifests s ++ take 1 (map rq_Manifest accepted))%list.

Lemma process_eq observe s rejects accepted :
  mm_fetched s = true → mm_pending s = [] → validate_all cfg s observe (mm_requests s) = (rejects, accepted) →
  process cfg observe s =
    (set_requests [] (set_manifests (with_accepted s accepted) s), (rejects ++ emitted (with_accepted s accepted) s accepted)%list).
Proof.
  intros Hf Hp Hv. unfold process, validateRequests. rewrite Hf. cbn [negb orb].
  destruct (mm_requests s) as [|r reqs] eqn:Er.
  - cbn in Hv |- *. injection Hv as <- <-. unfold emitReceivedEvents, emitted, with_accepted. cbn. rewrite app_nil_r, Hf. cbn.
    destruct s; cbn in *; subst. destruct (last _); [|done]. by destruct (_ =? _)%nat.
  - rewrite Hv. cbn [List.length Nat.eqb]. rewrite Hp. unfold emitReceivedEvents, emitted, with_accepted.
    destruct s; cbn in *; subst.
    destruct accepted as [|a accepted]; cbn.
    + rewrite !app_nil_r. cbn. destruct (last mm_manifests); [|by rewrite ?app_nil_r]. destruct (_ =? _)%nat; [done|]. by rewrite ?app_nil_r.
    + rewrite take_0, !last_snoc. destruct (_ =? _)%nat; [cbn; by rewrite app_nil_r|done].
Qed.

Lemma emitted_answered manifests s accepted :
  (accepted ≠ [] → is_Some (last manifests)) → answered (emitted manifests s accepted) = map rq_ch accepted.
Proof.
  intros Hacc. unfold emitted. destruct (last manifests) as [m|].
  - destruct (_ =? _)%nat; [apply answered_all|]. rewrite omap_app, answered_all, answered_publish by done. done.
  - destruct accepted; [done|]. destruct Hacc as [? ?]; done.
Qed.

Lemma with_accepted_last s accepted : accepted ≠ [] → is_Some (last (with_accepted s accepted)).
Proof. unfold with_accepted. destruct accepted as [|r l]; [done|]. cbn. rewrite take_0, last_snoc. eauto. Qed.

(** ** Events *)

Definition requests_of (e : mevent) : list mrequest := match e with EvManifest req _ _ => [req] | _ => [] end.
Definition observe_of (e : mevent) : option (nat → seen) :=
  match e with EvManifest _ _ o | EvFetched _ _ _ o => Some o | _ => None end.
Definition received (es : list mevent) : list nat := map rq_ch (es ≫= requests_of).

(** The event saw the context of the request on [ch] done. *)
Definition saw_done (e : mevent) (ch : nat) : Prop := ∃ o, observe_of e = Some o ∧ sn_done (o ch) = true.

(** The state the requests are checked in, when the event checks them. *)
Definition checking (s : manager) (e : mevent) : option manager :=
  match e with
  | EvManifest req now _ =>
      if negb (mm_runch s) && mm_fetched s && negb (mc_CachedResultMaxAge cfg <? now - mm_fetchedAt s)%Z
      then Some (set_requests (mm_requests s ++ [req])%list s) else None
  | EvFetched deployment leases now _ =>
      match doFetchData deployment leases with Ok (data, won) => Some (set_fetched true now data won (set_mrunch false s)) | Err _ => None end
  | _ => None
  end.

(** The invariant of the loop. *)
Record steady (s : manager) : Prop := {
  st_timer : mm_stoptimer s = None;
  st_pending : mm_pending s = [];
  st_waiting : mm_requests s ≠ [] → mm_runch s = true ∧ mm_over s = false
}.

Lemma steady_stop s : mm_stoptimer s = None → maybeScheduleStop s = Some s.
Proof. intros E. unfold maybeScheduleStop. rewrite E. by destruct (_ || _). Qed.

Lemma with_stop_eq s k : mm_stoptimer s = None → with_stop s k = k s.
Proof. intros E. unfold with_stop. by rewrite steady_stop. Qed.

(** Neither a publication nor an acknowledgement. *)
Definition quiet (a : maction) : Prop := match a with Fetch | Answer _ (Some _) => True | _ => False end.

(** An event that checks requests ends with a round; any other one leaves the
    accepted manifests alone and acknowledges nothing. *)
Definition round_of (s : manager) (e : mevent) (s' : manager) (acts : list maction) : Prop :=
  match checking s e, observe_of e with
  | Some s1, Some o =>
      ∃ rejects accepted, validate_all cfg s1 o (mm_requests s1) = (rejects, accepted)
        ∧ acts = (rejects ++ emitted (with_accepted s accepted) s1 accepted)%list
        ∧ s' = set_requests [] (set_manifests (with_accepted s accepted) s1)
  | _, _ =>
      mm_manifests s' = mm_manifests s ∧ Forall quiet acts
      ∧ (answered acts ++ map rq_ch (mm_requests s'))%list ≡ₚ map rq_ch (mm_requests s ++ requests_of e)
  end.

Lemma quiet_all l e : Forall quiet (answer_all l (Some e)).
Proof. induction l; by constructor. Qed.

Lemma fill_round err s s' acts :
  fillAllRequests (Some err) s = (s', acts) → mm_pending s = [] →
  mm_manifests s' = mm_manifests s ∧ Forall quiet acts ∧ answered acts = map rq_ch (mm_requests s) ∧ mm_requests s' = []
  ∧ mm_pending s' = [] ∧ mm_stoptimer s' = mm_stoptimer s.
Proof. intros [= <- <-] ->. cbn. split_and!; [done|apply quiet_all|apply answered_all|done..]. Qed.

Ltac keep_steady := constructor; cbn; [done|done|naive_solver congruence].

Lemma mstep_round s e s' acts :
  steady s → mstep cfg s e = Some (s', acts) → steady s' ∧ round_of s e s' acts.
Proof.
  intros [Ht Hp Hw]. unfold mstep, mstep_stuck. destruct (mm_over s) eqn:Ho; [done|].
  assert (mm_runch s = false → mm_requests s = []) as Hidle.
  { intros Er. destruct (mm_requests s); [done|]. destruct Hw; [done|congruence]. }
  destruct e as [| |now| |req now o|v|dep les now o]; cbn [checking observe_of round_of].
  - rewrite Ht. unfold continue, finish. destruct (fillAllRequests _ _) as [s1 a1] eqn:E. intros [= <- <-]. cbn.
    apply fill_round in E as (? & ? & Ha & Hr & ? & ?); [|done]. unfold round_of. cbn. rewrite Ha, Hr, !app_nil_r. split; [|done].
    constructor; cbn; [congruence|done|by rewrite Hr].
  - by rewrite Ht.
  - rewrite with_stop_eq by done. unfold maybeFetchData, round_of. cbn. destruct (mm_runch s) eqn:Er; intros [= <- <-]; cbn.
    + rewrite app_nil_r. split; [keep_steady|by split_and!; [|constructor|]].
    + rewrite app_nil_r. split; [keep_steady|]. split_and!; [done|by repeat constructor|done].
  - rewrite with_stop_eq by done. intros [= <- <-]. unfold round_of. cbn. rewrite app_nil_r. split; [keep_steady|]. split_and!; [done|constructor|done].
  - unfold on_manifest. rewrite with_stop_eq by done. unfold maybeFetchData, round_of. cbn [checking observe_of set_requests mm_runch mm_fetched mm_fetchedAt].
    destruct (mm_runch s) eqn:Er; cbn [negb andb].
    { cbn. rewrite Er. intros [= <- <-]. cbn. split; [keep_steady|]. by split_and!; [|constructor|]. }
    destruct (mm_fetched s) eqn:Ef; cbn [negb orb andb]; [|intros [= <- <-]; cbn; split; [keep_steady|]; by split_and!; [|repeat constructor|]].
    destruct (_ <? _)%Z; cbn [negb]; [intros [= <- <-]; cbn; split; [keep_steady|]; by split_and!; [|repeat constructor|]|].
    destruct (validate_all cfg _ o _) as [rej acc] eqn:Ev. rewrite (process_eq o (set_requests (mm_requests s ++ [req])%list s) rej acc Ef Hp Ev). cbn. rewrite Er. intros [= <- <-].
    split; [keep_steady|]. eauto.
  - intros [= <- <-]. unfold round_of. cbn. rewrite app_nil_r. split; [keep_steady|]. split_and!; [done|constructor|done].
  - destruct (mm_runch s) eqn:Er; [|done]. unfold on_fetched, round_of. cbn [checking observe_of].
    destruct (doFetchData _ _) as [[data won]|err]; unfold continue.
    + destruct (validate_all cfg (set_fetched true now data won (set_mrunch false s)) o _) as [rej acc] eqn:Ev.
      rewrite (process_eq o (set_fetched true now data won (set_mrunch false s)) rej acc eq_refl Hp Ev). cbn. rewrite with_stop_eq by done. intros [= <- <-]. split; [keep_steady|]. eauto.
    + destruct (fillAllRequests _ _) as [s1 a1] eqn:E. intros [= <- <-]. cbn.
      apply fill_round in E as (? & ? & Ha & Hr & ? & ?); [|done]. rewrite Ha, Hr, !app_nil_r. split; [|done].
      constructor; cbn in *; [congruence|done|by rewrite Hr].
Qed.

(** Every step accounts for the requests. *)
Lemma round_answered s e s' acts :
  round_of s e s' acts → mm_pending s = [] →
  ∃ dropped, (answered acts ++ map rq_ch (mm_requests s') ++ dropped)%list ≡ₚ map rq_ch (mm_requests s ++ requests_of e)
    ∧ Forall (saw_done e) dropped.
Proof.
  unfold round_of. destruct (checking s e) as [s1|] eqn:Ec; [destruct (observe_of e) as [o|] eqn:Eo|]; intros Hr Hp.
  - destruct Hr as (rej & acc & Hv & -> & ->). apply validate_all_split in Hv as (dropped & Hperm & Hd & _ & _).
    exists dropped. rewrite omap_app, emitted_answered by apply with_accepted_last. cbn. rewrite <- app_assoc, Hperm. split.
    + destruct e; try done; cbn in Ec |- *; [by case_match; simplify_eq|repeat case_match; simplify_eq; cbn; by rewrite app_nil_r].
    + eapply Forall_impl; [exact Hd|]. intros ch Hch. by exists o.
  - destruct Hr as (_ & _ & Hr). exists []. by rewrite app_nil_r.
  - destruct Hr as (_ & _ & Hr). exists []. by rewrite app_nil_r.
Qed.

Lemma mruns_steady es acts s : mruns cfg es acts s → steady s.
Proof.
  revert es acts s. apply runs_invariant; [by constructor|]. intros es acts s e s' acts1 Hs Hstep. by apply mstep_round in Hstep as [].
Qed.

(** Claim C29.  Every submission is answered: at any time each request the
    manager received has been answered exactly once, or waits, or was dropped
    because its caller had gone; requests wait only while the data of the
    deployment are being fetched, and none waits after the end. *)
Theorem requests_answered (es : list mevent) (acts : list maction) (s : manager) (Hrun : mruns cfg es acts s) :
  (mm_requests s ≠ [] → mm_runch s = true ∧ mm_over s = false)
  ∧ ∃ dropped, (answered acts ++ map rq_ch (mm_requests s) ++ dropped)%list ≡ₚ received es
      ∧ Forall (λ ch, ∃ e, e ∈ es ∧ saw_done e ch) dropped.
Proof.
  split; [by apply (mruns_steady _ _ _ Hrun)|].
  cut (steady s ∧ ∃ dropped, (answered acts ++ map rq_ch (mm_requests s) ++ dropped)%list ≡ₚ received es
      ∧ Forall (λ ch, ∃ e, e ∈ es ∧ saw_done e ch) dropped); [by intros []|].
  revert es acts s Hrun. apply runs_invariant; [split; [by constructor|by exists []]|].
  intros es acts s e s' acts1 [Hs (dropped & Hp & Hd)] Hstep. destruct (mstep_round _ _ _ _ Hs Hstep) as [Hs' Hr]. split; [done|].
  apply round_answered in Hr as (dropped1 & Hp1 & Hd1); [|apply Hs]. exists (dropped ++ dropped1)%list. split.
  - unfold received in *. rewrite omap_app, bind_app, map_app, <- Hp. cbn. rewrite app_nil_r. rewrite map_app in Hp1.
    trans (answered acts ++ (answered acts1 ++ map rq_ch (mm_requests s') ++ dropped1) ++ dropped)%list; [solve_Permutation|].
    rewrite Hp1. solve_Permutation.
  - apply Forall_app. split; (eapply Forall_impl; [eassumption|]); cbn; [intros ch (e0 & ? & ?)|intros ch ?]; [exists e0|exists e]; split; try done; set_solver.
Qed.

(** ** What is published *)

(** The event checks [m] and accepts it. *)
Definition accepts (s : manager) (e : mevent) (m : list Group) : Prop :=
  ∃ s1 o req, checking s e = Some s1 ∧ observe_of e = Some o ∧ req ∈ mm_requests s1 ∧ rq_Manifest req = m
    ∧ validateRequest cfg s1 req (o (rq_ch req)) = None.

Definition accepted_in (es : list mevent) (m : list Group) : Prop :=
  ∃ es1 e es2 acts1 s1, es = (es1 ++ e :: es2)%list ∧ mruns cfg es1 acts1 s1 ∧ accepts s1 e m.

(** The chain's answers contained these data and leases. *)
Definition fetched_in (es : list mevent) (d : deployment_data) (won : list LeaseWon) : Prop :=
  ∃ dep les now o, EvFetched dep les now o ∈ es ∧ doFetchData dep les = Ok (d, won).

Lemma accepted_in_app es e m : accepted_in es m → accepted_in (es ++ [e]) m.
Proof. intros (es1 & e0 & es2 & acts1 & s1 & -> & ? & ?). exists es1, e0, (es2 ++ [e])%list, acts1, s1. by rewrite <- app_assoc. Qed.

Lemma fetched_in_app es e d won : fetched_in es d won → fetched_in (es ++ [e]) d won.
Proof. intros (dep & les & now & o & ? & ?). exists dep, les, now, o. split; [set_solver|done]. Qed.

Lemma mstep_fetched s e s' acts :
  steady s → mstep cfg s e = Some (s', acts) → mm_fetched s' = true →
  (mm_fetched s = true ∧ mm_data s' = mm_data s ∧ mm_leases s' = mm_leases s)
  ∨ ∃ dep les now o, e = EvFetched dep les now o ∧ doFetchData dep les = Ok (mm_data s', mm_leases s').
Proof.
  intros Hs Hstep Hf. destruct (mstep_round _ _ _ _ Hs Hstep) as [_ Hr]. unfold round_of in Hr.
  destruct (checking s e) as [s1|] eqn:Ec; [destruct (observe_of e) as [o|] eqn:Eo|].
  - destruct Hr as (rej & acc & _ & _ & ->). destruct e; try done; cbn in Ec; repeat case_match; simplify_eq; cbn in *; [by left|].
    right. eauto 10.
  - by destruct e.
  - clear Hr. revert Hstep Hf. unfold mstep, mstep_stuck. destruct Hs as [Ht _ _]. destruct (mm_over s); [done|].
    destruct e as [| |now| |req now o|v|dep les now o]; cbn in Ec |- *; rewrite ?Ht.
    + intros [= <- <-]. by left.
    + done.
    + rewrite with_stop_eq by done. unfold maybeFetchData. cbn. case_match; by intros [= <- <-].
    + rewrite with_stop_eq by done. by intros [= <- <-].
    + unfold on_manifest. rewrite with_stop_eq by done. unfold maybeFetchData. cbn.
      destruct (mm_runch s) eqn:Er; cbn; [rewrite Er; intros [= <- <-]; by left|].
      destruct (mm_fetched s); cbn in *; [|by intros [= <- <-]]. destruct (_ <? _)%Z; [by intros [= <- <-]|done].
    + by intros [= <- <-].
    + destruct (mm_runch s); [|done]. unfold on_fetched. destruct (doFetchData _ _) as [[d won]|]; [done|]. intros [= <- <-]. by left.
Qed.

Lemma emitted_publish manifests s acc lid g m d :
  Publish lid g m d ∈ emitted manifests s acc →
  last manifests = Some m ∧ d = mm_data s ∧ ∃ price, MkLeaseWon lid g price ∈ mm_leases s.
Proof.
  unfold emitted. destruct (last manifests) as [m0|]; [|set_solver].
  assert (∀ l err, Publish lid g m d ∉ answer_all l err) as Hn.
  { intros l err (r & ? & ?)%list_elem_of_In%in_map_iff. done. }
  case_match; [by intros ?%Hn|]. rewrite elem_of_app. intros [(l & [= <- <- <- <-] & Hl%list_elem_of_In)%list_elem_of_In%in_map_iff|?%Hn]; [|done].
  split_and!; [done..|]. exists (lw_Price l). by destruct l.
Qed.

(** The manifests the manager keeps were accepted, its data were fetched. *)
Definition grounded (es : list mevent) (s : manager) : Prop :=
  (∀ m, m ∈ mm_manifests s → accepted_in es m) ∧ (mm_fetched s = true → fetched_in es (mm_data s) (mm_leases s)).

Lemma accepted_grounded es acts s e s1 o rej acc m :
  mruns cfg es acts s → grounded es s → checking s e = Some s1 → observe_of e = Some o →
  validate_all cfg s1 o (mm_requests s1) = (rej, acc) → m ∈ with_accepted s acc → accepted_in (es ++ [e]) m.
Proof.
  intros Hrun [Hm _] Ec Eo Hv. unfold with_accepted. rewrite elem_of_app. intros [Hin|Hin]; [by apply accepted_in_app, Hm|].
  apply validate_all_split in Hv as (_ & _ & _ & Hacc & _). destruct acc as [|r acc]; [by apply elem_of_nil in Hin|].
  cbn in Hin. rewrite take_0 in Hin. apply list_elem_of_singleton in Hin as ->. apply Forall_cons in Hacc as [[? ?] _].
  exists es, e, [], acts, s. split_and!; [done..|]. by exists s1, o, r.
Qed.

Lemma mstep_grounded es acts s e s' acts1 :
  mruns cfg es acts s → steady s → grounded es s → mstep cfg s e = Some (s', acts1) →
  grounded (es ++ [e]) s' ∧ ∀ lid g m d, Publish lid g m d ∈ acts1 →
    accepted_in (es ++ [e]) m ∧ ∃ won price, fetched_in (es ++ [e]) d won ∧ MkLeaseWon lid g price ∈ won.
Proof.
  intros Hrun Hs Hg Hstep. destruct (mstep_round _ _ _ _ Hs Hstep) as [_ Hr].
  assert (mm_fetched s' = true → fetched_in (es ++ [e]) (mm_data s') (mm_leases s')) as Hf.
  { intros Hf. destruct (mstep_fetched _ _ _ _ Hs Hstep Hf) as [(? & -> & ->)|(dep & les & now & o & -> & ?)].
    - by apply fetched_in_app, Hg.
    - exists dep, les, now, o. split; [set_solver|done]. }
  unfold round_of in Hr. destruct (checking s e) as [s1|] eqn:Ec; [destruct (observe_of e) as [o|] eqn:Eo|].
  - destruct Hr as (rej & acc & Hv & -> & ->).
    assert (mm_fetched s1 = true) as Hf1 by (destruct e; try done; cbn in Ec; repeat case_match; simplify_eq; cbn; rewrite ?andb_true_iff in *; naive_solver).
    split; [split; [|done]|].
    + intros m. by apply (accepted_grounded _ _ _ _ _ _ _ _ _ Hrun Hg Ec Eo Hv).
    + intros lid g m d. rewrite elem_of_app. intros [Hin|(Hm & -> & price & Hl)%emitted_publish].
      * apply validate_all_split in Hv as (_ & _ & _ & _ & Ha). rewrite Forall_forall in Ha. apply Ha in Hin as (? & ? & ?). done.
      * split; [apply (accepted_grounded _ _ _ _ _ _ _ _ m Hrun Hg Ec Eo Hv); apply last_Some in Hm as [? ->]; set_solver|].
        exists (mm_leases s1), price. split; [|done]. by apply Hf.
  - by destruct e.
  - destruct Hr as (Hm & Hq & _). split; [split; [|done]|].
    + intros m. rewrite Hm. intros. by apply accepted_in_app, Hg.
    + intros lid g m d Hin. rewrite Forall_forall in Hq. by apply Hq in Hin.
Qed.

(** Claim C14.  Only checked manifests reach the cluster: whatever the manager
    publishes was submitted and accepted by the checks, made against the
    manager's data of that moment, and it is published for leases that the
    chain listed as the provider's active leases, with the group the chain
    listed for them. *)
Theorem published_checked (es : list mevent) (acts : list maction) (s : manager) (lid : LeaseID) (g : ChainGroup)
  (m : list Group) (d : deployment_data) (Hrun : mruns cfg es acts s) (Hpub : Publish lid g m d ∈ acts) :
  accepted_in es m ∧ ∃ won price, fetched_in es d won ∧ MkLeaseWon lid g price ∈ won.
Proof.
  cut (mruns cfg es acts s ∧ steady s ∧ grounded es s ∧ ∀ lid g m d, Publish lid g m d ∈ acts →
    accepted_in es m ∧ ∃ won price, fetched_in es d won ∧ MkLeaseWon lid g price ∈ won).
  { intros (_ & _ & _ & Hall). by apply Hall. }
  clear Hpub lid g m d. revert es acts s Hrun. apply runs_invariant.
  { split_and!; [constructor|by constructor|split; [set_solver|done]|set_solver]. }
  intros es acts s e s' acts1 (Hrun & Hs & Hg & Hall) Hstep. destruct (mstep_grounded _ _ _ _ _ _ Hrun Hs Hg Hstep) as [Hg' Hpub].
  split_and!; [by econstructor|by apply mstep_round in Hstep as []|done|].
  intros lid g m d. rewrite elem_of_app. intros [Hin|Hin]; [|by apply Hpub].
  destruct (Hall _ _ _ _ Hin) as (? & won & price & ? & ?). split; [by apply accepted_in_app|]. exists won, price. split; [by apply fetched_in_app|done].
Qed.

(** ** The checks *)

Lemma first_error_None {A E} (f : A → option E) l : first_error f l = None ↔ ∀ x, x ∈ l → f x = None.
Proof.
  induction l as [|x l IH]; cbn; [split; [set_solver|done]|]. destruct (f x) eqn:E0.
  - split; [done|]. intros Hall. rewrite Hall in E0 by set_solver. done.
  - rewrite IH. setoid_rewrite elem_of_cons. naive_solver.
Qed.

Lemma collect_ok {A E B} (f : A → result E (list B)) l bs :
  collect f l = Ok bs → ∀ b, b ∈ bs ↔ ∃ x ys, x ∈ l ∧ f x = Ok ys ∧ b ∈ ys.
Proof.
  revert bs. induction l as [|x l IH]; intros bs; cbn.
  { intros [= <-] b. set_solver. }
  destruct (f x) as [ys|e] eqn:Ef; cbn; [|done]. destruct (collect f l) as [rest|e]; cbn; [|done]. intros [= <-] b.
  rewrite elem_of_app, (IH _ eq_refl). split.
  - intros [Hb|(y & zs & ? & ? & ?)]; [exists x, ys|exists y, zs]; split_and!; try done; [apply list_elem_of_here|by apply list_elem_of_further].
  - intros (y & zs & [->|Hy]%elem_of_cons & Hf & Hb); [left; congruence|right; eauto].
Qed.

Lemma collect_is_ok {A E B} (f : A → result E (list B)) l : is_ok (collect f l) = true ↔ ∀ x, x ∈ l → is_ok (f x) = true.
Proof.
  induction l as [|x l IH]; cbn; [split; [set_solver|done]|]. setoid_rewrite elem_of_cons.
  destruct (f x) as [ys|e] eqn:Ef; cbn; [|split; [done|]; intros Hall; specialize (Hall x); rewrite Ef in Hall; auto].
  destruct (collect f l); cbn in *.
  - split; [intros _ y [->|Hy]; [by rewrite Ef|by apply IH]|done].
  - split; [done|]. intros Hall. apply IH. auto.
Qed.

Definition within_limits (p : ProxyOptions) : Prop :=
  (po_BufferSize p ≤ maxProxyBufferSize ∧ po_BuffersNumber p ≤ maxProxyBuffersNumber
   ∧ po_BuffersSize p ≤ maxProxyBuffersSize ∧ po_BusyBuffersSize p ≤ maxProxyBusyBuffersSize)%Z.

Lemma expose_limit svc e :
  expose_over_limit svc e = None ↔ ∀ p, ho_Proxy (se_HTTPOptions e) = Some p → within_limits p.
Proof.
  unfold expose_over_limit, within_limits. destruct (ho_Proxy _) as [p|]; [|naive_solver].
  destruct (Z.ltb_spec maxProxyBufferSize (po_BufferSize p)); [split; [done|intros Hall; specialize (Hall p eq_refl); lia]|].
  destruct (Z.ltb_spec maxProxyBuffersNumber (po_BuffersNumber p)); [split; [done|intros Hall; specialize (Hall p eq_refl); lia]|].
  destruct (Z.ltb_spec maxProxyBuffersSize (po_BuffersSize p)); [split; [done|intros Hall; specialize (Hall p eq_refl); lia]|].
  destruct (Z.ltb_spec maxProxyBusyBuffersSize (po_BusyBuffersSize p)); [split; [done|intros Hall; specialize (Hall p eq_refl); lia]|].
  split; [|done]. intros _ p' [= <-]. lia.
Qed.

(** Every proxy option of a manifest is within the limits. *)
Definition proxies_limited (m : list Group) : Prop :=
  ∀ g svc e p, g ∈ m → svc ∈ g_Services g → e ∈ svc_Expose svc → ho_Proxy (se_HTTPOptions e) = Some p → within_limits p.

Lemma proxy_limits m : validateProxyBufferLimits m = None ↔ proxies_limited m.
Proof.
  unfold validateProxyBufferLimits, proxies_limited. rewrite first_error_None. setoid_rewrite first_error_None.
  setoid_rewrite first_error_None. setoid_rewrite expose_limit. naive_solver.
Qed.

Lemma check_blocked_ok hs l : is_ok (check_blocked hs l) = true ↔ ∀ h, h ∈ l → isHostnameBlocked hs h = Ok ().
Proof.
  induction l as [|h l IH]; cbn; [split; [set_solver|done]|]. setoid_rewrite elem_of_cons.
  destruct (isHostnameBlocked hs h) as [[]|e] eqn:Eh; cbn; [rewrite IH; naive_solver|].
  split; [done|]. intros Hall. rewrite Hall in Eh by auto. done.
Qed.

(** The hostname is allowed, and free or held by the owner. *)
Definition host_available (hs : hostnameService) (owner h : string) : Prop :=
  isHostnameBlocked hs (ToLower h) = Ok () ∧ ∀ id, hs_inUse hs !! ToLower h = Some id → hid_owner id = owner.

Lemma can_reserve_ok hs l owner sent :
  is_ok (CanReserveHostnames hs l owner sent) = true ↔
  (∀ h, h ∈ l → isHostnameBlocked hs (ToLower h) = Ok ()) ∧ sent = Served
  ∧ ∀ h id, h ∈ l → hs_inUse hs !! ToLower h = Some id → hid_owner id = owner.
Proof.
  unfold CanReserveHostnames.
  pose proof (check_blocked_ok hs (map ToLower l)) as Hb. pose proof (canReserve_spec (hs_inUse hs) (map ToLower l) owner) as Hc.
  assert ((∀ h, h ∈ map ToLower l → isHostnameBlocked hs h = Ok ()) ↔ ∀ h, h ∈ l → isHostnameBlocked hs (ToLower h) = Ok ()) as Hl.
  { setoid_rewrite list_elem_of_In. setoid_rewrite in_map_iff. naive_solver. }
  rewrite Hl in Hb. destruct (check_blocked _ _); cbn in *; [|naive_solver].
  destruct sent; cbn; [|naive_solver..].
  assert (¬ conflict (hs_inUse hs) (map ToLower l) owner ↔ ∀ h id, h ∈ l → hs_inUse hs !! ToLower h = Some id → hid_owner id = owner) as <-.
  { unfold conflict. split.
    - intros Hn h id Hin Hid. destruct (decide (hid_owner id = owner)); [done|]. exfalso. apply Hn. exists (ToLower h), id.
      split_and!; [|done..]. apply list_elem_of_In, in_map_iff. exists h. split; [done|by apply list_elem_of_In].
    - intros Hall (h' & id & (h & <- & Hin%list_elem_of_In)%list_elem_of_In%in_map_iff & Hid & Ho). by apply Ho, (Hall h). }
  rewrite <- Hc. destruct (canReserveHostnamesImpl _ _ _); cbn; naive_solver.
Qed.

(** Every ingress of the group names a host. *)
Definition ingresses_named (g : Group) : Prop :=
  ∀ svc e, svc ∈ g_Services g → e ∈ svc_Expose svc → IsIngress e = true → se_Hosts e ≠ [].

Lemma ingress_named g : ingress_without_host g = None ↔ ingresses_named g.
Proof.
  unfold ingress_without_host, ingresses_named. rewrite first_error_None. setoid_rewrite first_error_None.
  split; intros Hall svc.
  - intros e Hs He Hi Hh. specialize (Hall svc Hs e He). rewrite Hi, Hh in Hall. done.
  - intros Hs e He. destruct (IsIngress e) eqn:Hi; [|done]. destruct (se_Hosts e) eqn:Hh; [by destruct (Hall svc e)|done].
Qed.

(** The hostname checks of the groups that are leased. *)
Definition leased_groups_ok (names : list string) (hs : hostnameService) (owner : string) (m : list Group) : Prop :=
  ∀ g, g ∈ m → g_Name g ∈ names →
    (mc_RequireHost cfg = true → ingresses_named g) ∧ ∀ h, h ∈ AllHostnamesOfManifestGroup g → host_available hs owner h.

Lemma hostnames_of_ok g name :
  is_ok (hostnames_of cfg g name) = true ↔ (name = g_Name g → mc_RequireHost cfg = true → ingresses_named g).
Proof.
  unfold hostnames_of. rewrite <- ingress_named. destruct (String.eqb_spec name (g_Name g)) as [->|Hne]; cbn; [|naive_solver].
  destruct (mc_RequireHost cfg); cbn; [|naive_solver]. destruct (ingress_without_host g); cbn; naive_solver.
Qed.

Lemma hostnames_of_elem g name l h :
  hostnames_of cfg g name = Ok l → h ∈ l ↔ name = g_Name g ∧ h ∈ AllHostnamesOfManifestGroup g.
Proof.
  unfold hostnames_of. destruct (String.eqb_spec name (g_Name g)) as [->|Hne]; cbn; [|intros [= <-]; set_solver].
  destruct (mc_RequireHost cfg); cbn; [|intros [= <-]; naive_solver]. destruct (ingress_without_host g); [done|intros [= <-]; naive_solver].
Qed.

Lemma check_hostnames data m names sn :
  checkHostnamesForManifest cfg data m names sn = None ↔
  ∃ owner, owner_address (dd_Owner data) = Ok owner ∧ sn_served sn = Served ∧ leased_groups_ok names (sn_hosts sn) owner m.
Proof.
  unfold checkHostnamesForManifest. destruct (owner_address _) as [owner|e]; [|naive_solver].
  assert (is_ok (collect (λ g, collect (hostnames_of cfg g) names) m) = true ↔
    ∀ g, g ∈ m → ∀ n, n ∈ names → n = g_Name g → mc_RequireHost cfg = true → ingresses_named g) as Hok.
  { rewrite collect_is_ok. split; intros Hx g Hg.
    - intros n Hn. apply hostnames_of_ok. revert n Hn. by apply collect_is_ok, Hx.
    - apply collect_is_ok. intros n Hn. by apply hostnames_of_ok, Hx. }
  destruct (collect _ m) as [all|e] eqn:Ec; cbn in Hok.
  - assert (∀ h, h ∈ all ↔ ∃ g, g ∈ m ∧ g_Name g ∈ names ∧ h ∈ AllHostnamesOfManifestGroup g) as Hall.
    { intros h. rewrite (collect_ok _ _ _ Ec). split.
      - intros (g & l & Hg & Hl & Hh). apply (collect_ok _ _ _ Hl) in Hh as (name & l' & Hn & Hl' & Hh).
        apply (hostnames_of_elem _ _ _ _ Hl') in Hh as [-> Hh]. eauto.
      - intros (g & Hg & Hn & Hh). destruct (collect (hostnames_of cfg g) names) as [l|e] eqn:El.
        + exists g, l. split_and!; [done..|]. apply (collect_ok _ _ _ El). destruct (hostnames_of cfg g (g_Name g)) as [l'|e] eqn:El'.
          * exists (g_Name g), l'. split_and!; [done..|]. by apply (hostnames_of_elem _ _ _ _ El').
          * exfalso. pose proof (proj2 (hostnames_of_ok g (g_Name g)) (λ Hn' Hq, proj1 Hok eq_refl g Hg _ Hn Hn' Hq)) as Hx. by rewrite El' in Hx.
        + exfalso. pose proof (proj2 (collect_is_ok (hostnames_of cfg g) names)) as Hx. rewrite El in Hx.
          discriminate Hx. intros name Hname. apply hostnames_of_ok. by apply (proj1 Hok eq_refl g Hg). }
    pose proof (can_reserve_ok (sn_hosts sn) all owner (sn_served sn)) as Hcan.
    trans (is_ok (CanReserveHostnames (sn_hosts sn) all owner (sn_served sn)) = true); [by destruct (CanReserveHostnames _ _ _ _)|].
    rewrite Hcan. unfold leased_groups_ok, host_available. setoid_rewrite Hall. split.
    + intros (Hb & Hs & Hu). exists owner. split_and!; [done..|]. intros g Hg Hn. split; [by apply (proj1 Hok eq_refl g Hg (g_Name g) Hn)|eauto 10].
    + intros (owner' & [= <-] & Hs & Hl). split_and!; [|done|]; intros h; [intros (g & Hg & Hn & Hh)|intros id (g & Hg & Hn & Hh)]; by apply (Hl g Hg Hn).
  - split; [done|]. intros (owner' & _ & _ & Hl). discriminate (proj2 Hok). intros g Hg name Hn -> Hq. by apply Hl.
Qed.

(** Claim C31.  A manifest is accepted exactly when its caller is still there,
    it is valid, its proxy buffers stay within the provider's limits, its
    version is the expected one, it agrees with the groups of the deployment,
    and in the groups that are leased every ingress names a host (if
    configured) and every hostname is allowed and free or the tenant's own. *)
Theorem manifest_accepted_iff (s : manager) (req : mrequest) (sn : seen) :
  validateRequest cfg s req sn = None ↔
  sn_done_again sn = false ∧ Validate (rq_Manifest req) = None ∧ proxies_limited (rq_Manifest req)
  ∧ Version (rq_Manifest req) = Ok (versionExpected s)
  ∧ CheckAgainstDeployment (rq_Manifest req) (dd_Groups (mm_data s)) = None
  ∧ ∃ owner, owner_address (dd_Owner (mm_data s)) = Ok owner ∧ sn_served sn = Served
      ∧ leased_groups_ok (map (λ l, cg_Name (lw_Group l)) (mm_leases s)) (sn_hosts sn) owner (rq_Manifest req).
Proof.
  unfold validateRequest. rewrite <- check_hostnames, <- proxy_limits.
  destruct (sn_done_again sn); [naive_solver|]. destruct (Validate _); [naive_solver|].
  destruct (validateProxyBufferLimits _); [naive_solver|]. destruct (Version _) as [v|]; [|naive_solver].
  destruct (String.eqb_spec v (versionExpected s)) as [->|]; cbn; [|naive_solver].
  destruct (CheckAgainstDeployment _ _); naive_solver.
Qed.

(** An acknowledged submission has been published: when a request
    is answered without error, it was accepted in that step, the deployment has
    leases, and in the same step a manifest of the version of the request was
    published for every one of them. *)
Theorem acknowledged_published (es : list mevent) (acts acts' : list maction) (s s' : manager) (e : mevent) (ch : nat)
  (Hrun : mruns cfg es acts s) (Hstep : mstep cfg s e = Some (s', acts')) (Hack : Answer ch None ∈ acts') :
  ∃ s1 o req m, checking s e = Some s1 ∧ observe_of e = Some o ∧ req ∈ mm_requests s1 ∧ rq_ch req = ch
    ∧ validateRequest cfg s1 req (o ch) = None ∧ mm_leases s1 ≠ [] ∧ Version m = Version (rq_Manifest req)
    ∧ ∀ l, l ∈ mm_leases s1 → Publish (lw_LeaseID l) (lw_Group l) m (mm_data s1) ∈ acts'.
Proof.
  destruct (mstep_round _ _ _ _ (mruns_steady _ _ _ Hrun) Hstep) as [_ Hr]. unfold round_of in Hr.
  destruct (checking s e) as [s1|]; [destruct (observe_of e) as [o|]|].
  2, 3: destruct Hr as (_ & Hq & _); rewrite Forall_forall in Hq; by apply Hq in Hack.
  destruct Hr as (rej & acc & Hv & -> & _). apply validate_all_split in Hv as (_ & _ & _ & Hacc & Ha).
  apply elem_of_app in Hack as [Hack|Hack]; [rewrite Forall_forall in Ha; by apply Ha in Hack as (? & ? & ?)|].
  assert (∀ r, r ∈ acc → Version (rq_Manifest r) = Ok (versionExpected s1)) as Hver.
  { intros r Hr. rewrite Forall_forall in Hacc. apply Hacc in Hr as [_ Hr]. by apply manifest_accepted_iff in Hr as (_ & _ & _ & ? & _). }
  unfold emitted in Hack |- *. destruct (last _) as [m|] eqn:Em; [|by apply elem_of_nil in Hack].
  destruct (mm_leases s1) as [|l0 ls] eqn:El; cbn [List.length Nat.eqb] in Hack |- *.
  { apply list_elem_of_In, in_map_iff in Hack as (? & ? & _). done. }
  rewrite <- El in *. apply elem_of_app in Hack as [(? & ? & _)%list_elem_of_In%in_map_iff|(r & [= <-] & Hr%list_elem_of_In)%list_elem_of_In%in_map_iff]; [done|].
  exists s1, o, r, m. assert (acc ≠ []) as Hne by (intros ->; by apply elem_of_nil in Hr).
  rewrite Forall_forall in Hacc. destruct (Hacc _ Hr) as [? ?]. split_and!; try done; [congruence| |].
  - rewrite (Hver r Hr). destruct acc as [|a acc]; [done|]. unfold with_accepted in Em. cbn in Em. rewrite take_0, last_snoc in Em. injection Em as <-.
    apply Hver, list_elem_of_here.
  - intros l Hl. rewrite !elem_of_app. right. left. apply list_elem_of_In, in_map_iff. exists l. split; [done|by apply list_elem_of_In].
Qed.

Lemma mstep_over s e s' acts : steady s → mstep cfg s e = Some (s', acts) → mm_over s' = true → e = EvShutdown.
Proof.
  intros Hs Hstep Ho. destruct (mstep_round _ _ _ _ Hs Hstep) as [_ Hr]. unfold round_of in Hr. revert Hstep.
  unfold mstep, mstep_stuck. destruct (mm_over s) eqn:Eo; [done|]. destruct Hs as [Ht Hp Hw].
  destruct (checking s e) as [s1|] eqn:Ec; [destruct (observe_of e) as [o|] eqn:Eobs|].
  - destruct Hr as (rej & acc & _ & _ & ->). exfalso. destruct e; try done; cbn in Ec; repeat case_match; simplify_eq; cbn in *; congruence.
  - by destruct e.
  - clear Hr. destruct e as [| |now| |req now o|v|dep les now o]; cbn in Ec |- *; rewrite ?Ht; unfold on_manifest, on_fetched, maybeFetchData, continue;
      rewrite ?with_stop_eq by done; cbn.
    1, 2: done.
    1: by case_match; intros [= <- <-]; cbn in *; congruence.
    1: by intros [= <- <-]; cbn in *; congruence.
    2: by intros [= <- <-]; cbn in *; congruence.
    + destruct (mm_runch s) eqn:Er; cbn; [rewrite Er; intros [= <- <-]; cbn in *; congruence|].
      destruct (mm_fetched s); cbn in *; [|intros [= <- <-]; cbn in *; congruence].
      destruct (_ <? _)%Z; [intros [= <- <-]; cbn in *; congruence|done].
    + destruct (mm_runch s); [|done]. destruct (doFetchData _ _) as [[d won]|]; [done|]. intros [= <- <-]; cbn in *; congruence.
Qed.

(** The timer that is meant to end managers without leases is never started:
    [maybeScheduleStop] replaces a timer only when there is one already.  A
    manager therefore ends only with its deployment or the provider; and the
    receive that would block after stopping a timer is not reached. *)
Theorem stop_timer_never_started (es : list mevent) (acts : list maction) (s : manager) (e : mevent) (Hrun : mruns cfg es acts s) :
  mm_stoptimer s = None ∧ mstep_stuck cfg s EvStopTimer = None ∧ mstep_stuck cfg s e ≠ Some Stuck
  ∧ (mm_over s = true → EvShutdown ∈ es).
Proof.
  pose proof (mruns_steady _ _ _ Hrun) as [Ht Hp Hw]. split_and!; [done|unfold mstep_stuck; rewrite Ht; by case_match| |].
  - unfold mstep_stuck, on_manifest, on_fetched, continue. destruct (mm_over s); [done|].
    destruct e; rewrite ?Ht, ?with_stop_eq by done; try done; [by repeat case_match|].
    destruct (mm_runch s); [|done]. destruct (doFetchData _ _) as [[data won]|]; [|done].
    destruct (validate_all cfg (set_fetched true now data won (set_mrunch false s)) observe (mm_requests s)) as [rej acc] eqn:Ev.
    rewrite (process_eq observe (set_fetched true now data won (set_mrunch false s)) rej acc eq_refl Hp Ev). by rewrite with_stop_eq.
  - cut (steady s ∧ (mm_over s = true → EvShutdown ∈ es)); [naive_solver|]. clear Ht Hp Hw.
    revert es acts s Hrun. apply runs_invariant; [split; [by constructor|done]|]. intros es acts s e0 s' acts1 [Hs _] Hstep.
    split; [by apply mstep_round in Hstep as []|]. intros Ho. apply (mstep_over _ _ _ _ Hs Hstep) in Ho as ->. set_solver.
Qed.

End sound.
