(* ===== verification/ManifestManagerSample.v ===== *)
(** * Runs of the manifest manager

    A deployment with two groups, used by the witnesses, and a run in which a
    lease is missed. *)
From Stdlib Require Import Ascii String.
From S2P Require Import Prelude Traces GoStrings ChainTypes LeaseNames CrdManifest Hostname ManifestManager ManifestManagerSound.

Open Scope string_scope.
Import CrdManifest.ManifestSample.

(** A chain whose manifest versions are the names of the groups. *)
#[export] Instance plain_sdk : ManifestSdk := {|
  ChainGroup := Z * string;
  cg_GSeq := fst;
  cg_Name := snd;
  Validate m := match m with [] => Some ErrInvalidManifest | _ => None end;
  Version m := Ok (String.concat "," (map g_Name m));
  CheckAgainstDeployment m groups := if (List.length m <=? List.length groups)%nat then None else Some (ErrManifestCrossValidation "groups");
  IsIngress e := (se_ExternalPort e =? 80)%Z;
  GetExternalPort e := se_ExternalPort e;
  owner_address o := Ok o
|}.

Definition west : ChainGroup := (1%Z, "west").
Definition cfg : mconfig := MkMConfig true 60.
Definition data : deployment_data := MkDeploymentData "alice" "west" [west; (2%Z, "east")].
Definition lid1 : LeaseID := MkLeaseID "alice" 1 1 1 "p".
Definition lid2 : LeaseID := MkLeaseID "alice" 1 2 1 "p".
Definition price : DecCoin := MkDecCoin "uakt" 5.
Definition present : nat → seen := λ _, MkSeen false false (MkHostnames ∅ [] []) Served.
Definition req : mrequest := MkRequest 0 [group].

(** A lease is won, the chain is asked, a manifest arrives. *)
Definition accepted_run : list mevent :=
  [EvLease 0; EvFetched (Ok data) (Ok [(lid1, price)]) 1 present; EvManifest req 2 present].
Definition before : list mevent := take 2 accepted_run.

Definition acts_of (es : list mevent) : list maction :=
  match exec (mstep cfg) newManager es with Some (acts, _) => acts | None => [] end.
Definition end_of (es : list mevent) : manager :=
  match exec (mstep cfg) newManager es with Some (_, s) => s | None => newManager end.

Lemma accepted_runs : mruns cfg accepted_run (acts_of accepted_run) (end_of accepted_run).
Proof. apply exec_runs. vm_compute. reflexivity. Qed.

Lemma before_runs : mruns cfg before (acts_of before) (end_of before).
Proof. apply exec_runs. vm_compute. reflexivity. Qed.

Lemma accepted_acts :
  acts_of accepted_run = [Fetch; Publish lid1 west [group] data; Answer 0 None].
Proof. vm_compute. reflexivity. Qed.

Lemma requests_answered_witness :
  ∃ dropped, (omap answer_of (acts_of accepted_run) ++ map rq_ch (mm_requests (end_of accepted_run)) ++ dropped)%list
    ≡ₚ received accepted_run.
Proof.
  destruct (requests_answered cfg _ _ _ accepted_runs) as [_ (dropped & Hp & _)]. exists dropped. exact Hp.
Defined.

Lemma published_checked_witness : accepted_in cfg accepted_run [group].
Proof.
  apply (published_checked cfg _ _ _ lid1 west [group] data accepted_runs).
  rewrite accepted_acts. apply list_elem_of_further, list_elem_of_here.
Defined.

Lemma acknowledged_published_witness :
  ∃ m, Version m = Version [group] ∧ Publish lid1 west m data ∈ [Publish lid1 west [group] data; Answer 0 None].
Proof.
  destruct (acknowledged_published cfg before _ [Publish lid1 west [group] data; Answer 0 None] _
    (end_of accepted_run) (EvManifest req 2 present) 0 before_runs) as (s1 & o & r & m & Hc & Ho & Hr & _ & _ & _ & Hv & Hall);
    [vm_compute; reflexivity|apply list_elem_of_further, list_elem_of_here|].
  exists m. vm_compute in Hc. injection Hc as <-. apply list_elem_of_singleton in Hr as ->. split; [exact Hv|].
  apply (Hall (MkLeaseWon lid1 west price)), list_elem_of_here.
Defined.

(** A lease that is won while the data are being fetched is missed when the
    chain had answered before: the event only clears the data that were
    there, no new fetch is started after the pending one, and its older answer
    is taken as complete.  The manifest is published without the new lease, and
    nothing is pending that would find it. *)
Theorem lease_missed_in_flight :
  ∃ acts s, mruns cfg [EvManifest req 0 present; EvLease 1; EvFetched (Ok data) (Ok [(lid1, price)]) 2 present] acts s
    ∧ acts = [Fetch; Publish lid1 west [group] data; Answer 0 None]
    ∧ mm_fetched s = true ∧ mm_runch s = false ∧ map lw_LeaseID (mm_leases s) = [lid1].
Proof.
  eexists _, _. split; [apply exec_runs; vm_compute; reflexivity|]. split_and!; vm_compute; reflexivity.
Qed.
