(* ===== verification/ClusterService.v ===== *)
(** * The cluster service

    [cluster/service.go]: one deployment manager per lease, started by the
    deployments found in the cluster and by the manifests that arrive, told
    about updates, closed leases and reclamations, and the reservation given
    back when the manager is done.  The state holds the managers as
    [DeployManager] models them, so a run interleaves the service with its
    managers; the inventory service is known by the interface [Reservations].
    Status replies and messages are not modelled. *)
From Stdlib Require Import Ascii String.
From S2P Require Import Prelude Traces GoStrings LeaseNames CrdManifest ReservationService DeployManager.

Open Scope string_scope.

Definition order_of (l : LeaseID) : OrderID := MkOrder (lid_Owner l) (lid_DSeq l) (lid_GSeq l) (lid_OSeq l).

(** What the service calls of the inventory service: finding the reservation
    of an order, with its cluster parameters, and giving it back; and how many
    reservations of an order are held. *)
Class Reservations := {
  Reserved : Type;
  Params : Type;
  inventory_lookup : Reserved → OrderID → string → option Params;
  inventory_unreserve : Reserved → OrderID → Reserved;
  held_count : Reserved → OrderID → nat
}.

(** What it relies on: a reservation that is found is held, and giving back
    takes one reservation of that order. *)
Class ReservationsLaws `{Reservations} : Prop := {
  lookup_held : ∀ r o name p, inventory_lookup r o name = Some p → (0 < held_count r o)%nat;
  unreserve_held : ∀ r o o',
    held_count (inventory_unreserve r o) o' = (held_count r o' - (if decide (o' = o) then 1 else 0))%nat
}.

Section cluster.
Context `{Protocols} `{Reservations}.

(** [ctypes.Deployment]. *)
Record cdeployment := MkCDeployment { cdp_Lid : LeaseID; cdp_MGroup : Group; cdp_CParams : Params }.

(** [cs_shutdown]: the loop has ended and the managers are waited for. *)
Record cluster := MkClusterState {
  cs_managers : gmap LeaseID (dstate cdeployment);
  cs_inventory : Reserved;
  cs_shutdown : bool
}.

(** The events of the loop, the steps the managers take by themselves, and
    what the bid engine does to the inventory meanwhile. *)
Inductive cevent :=
| CShutdown
| CManifest (lid : LeaseID) (groupName : string) (manifest : list Group)
| CLeaseClosed (lid : LeaseID)
| CReclaimStarted (lid : LeaseID) (deadline : Z)
| CManagerDone (lid : LeaseID)
| CManager (lid : LeaseID) (e : devent cdeployment)
| CBidEngine (inv : Reserved).

Inductive caction :=
| CStartManager (lid : LeaseID) (isNew : bool)
| CManagerAction (lid : LeaseID) (a : daction)
| CRemoveFundsMonitor (lid : LeaseID)
| CUnreserve (o : OrderID).

(** [event.ManifestReceived.ManifestGroup]. *)
Definition ManifestGroup (groupName : string) (manifest : list Group) : option Group :=
  List.find (λ g, g_Name g =? groupName) manifest.

(** [update], [teardown] and [reclaim] of a manager: taken by its loop, or
    dropped when it is shutting down. *)
Definition tell (lid : LeaseID) (e : devent cdeployment) (s : cluster) : cluster * list caction :=
  match dm ← cs_managers s !! lid; dstep dm e with
  | Some (dm', acts) =>
      (MkClusterState (<[lid := dm']> (cs_managers s)) (cs_inventory s) (cs_shutdown s), map (CManagerAction lid) acts)
  | None => (s, [])
  end.

Definition start_manager (d : cdeployment) (isNew : bool) (s : cluster) : cluster * list caction :=
  (MkClusterState (<[cdp_Lid d := dstart d]> (cs_managers s)) (cs_inventory s) (cs_shutdown s), [CStartManager (cdp_Lid d) isNew]).

Definition on_manifest (lid : LeaseID) (groupName : string) (manifest : list Group) (s : cluster) : cluster * list caction :=
  match ManifestGroup groupName manifest with
  | None => (s, [])
  | Some mgroup =>
      match inventory_lookup (cs_inventory s) (order_of lid) (g_Name mgroup) with
      | None => (s, [])
      | Some params =>
          let deployment := MkCDeployment lid mgroup params in
          match cs_managers s !! lid with
          | Some _ => tell lid (DUpdate deployment) s
          | None => start_manager deployment true s
          end
      end
  end.

(** [session.Provider().Owner]. *)
Variable provider : string.

Definition teardownLease (lid : LeaseID) (s : cluster) : cluster * list caction :=
  match cs_managers s !! lid with
  | Some _ => tell lid DTeardown s
  | None =>
      if lid_Provider lid =? provider
      then (MkClusterState (cs_managers s) (inventory_unreserve (cs_inventory s) (order_of lid)) (cs_shutdown s), [CUnreserve (order_of lid)])
      else (s, [])
  end.

Definition on_leaseClosed (lid : LeaseID) (s : cluster) : cluster * list caction :=
  let '(s, acts) := teardownLease lid s in (s, CRemoveFundsMonitor lid :: acts).

(** A manager reports when its loop has ended. *)
Definition manager_over (lid : LeaseID) (s : cluster) : bool :=
  match cs_managers s !! lid with Some dm => d_over dm | None => false end.

Definition on_managerDone (lid : LeaseID) (s : cluster) : cluster * list caction :=
  (MkClusterState (delete lid (cs_managers s)) (inventory_unreserve (cs_inventory s) (order_of lid)) (cs_shutdown s),
   [CUnreserve (order_of lid)]).

(** The steps of a manager that do not come from the service; it is shut down
    with the service. *)
Definition own_step (shutdown : bool) (e : devent cdeployment) : bool :=
  match e with
  | DUpdate _ | DTeardown => false
  | DShutdown => shutdown
  | DReclaim | DReclaimTimer | DReclaimResult _ | DResult _ | DRetry | DReclaimCall _ => true
  end.

Definition manager_step (lid : LeaseID) (e : devent cdeployment) (s : cluster) : option (cluster * list caction) :=
  if own_step (cs_shutdown s) e then
    dm ← cs_managers s !! lid;
    '(dm', acts) ← dstep dm e;
    Some (MkClusterState (<[lid := dm']> (cs_managers s)) (cs_inventory s) (cs_shutdown s), map (CManagerAction lid) acts)
  else None.

Definition cstep (s : cluster) (e : cevent) : option (cluster * list caction) :=
  match e with
  | CManager lid e => manager_step lid e s
  | CBidEngine inv => Some (MkClusterState (cs_managers s) inv (cs_shutdown s), [])
  | CManagerDone lid =>
      if negb (manager_over lid s) then None
      else if cs_shutdown s then Some (MkClusterState (delete lid (cs_managers s)) (cs_inventory s) true, [])
      else Some (on_managerDone lid s)
  | _ =>
      if cs_shutdown s then None
      else Some match e with
      | CManifest lid name manifest => on_manifest lid name manifest s
      | CLeaseClosed lid => on_leaseClosed lid s
      | CReclaimStarted lid deadline => tell lid (DReclaimCall deadline) s
      | _ => (MkClusterState (cs_managers s) (cs_inventory s) true, [])
      end
  end.

(** The start: a manager for every deployment found. *)
Definition cstart (deployments : list cdeployment) (inv : Reserved) : cluster :=
  foldl (λ s d, (start_manager d false s).1) (MkClusterState ∅ inv false) deployments.

Definition cruns (deployments : list cdeployment) (inv : Reserved) : list cevent → list caction → cluster → Prop :=
  runs cstep (cstart deployments inv).

(** [FindActiveLease]: the managed lease of a deployment and group, in the order
    of the map. *)
Definition doCheckDeploymentExists (owner : string) (dseq gseq : Z) (order : list LeaseID) : option LeaseID :=
  List.find (λ l, (lid_GSeq l =? gseq)%Z && (lid_DSeq l =? dseq)%Z && (lid_Owner l =? owner)) order.

End cluster.
