(* ===== verification/ClusterServiceSound.v ===== *)
(** * The cluster service: its contract

    Deployed leases keep their reservation, closed leases lose it; and the
    inventory service implements the interface the cluster service uses. *)
From Stdlib Require Import Ascii String.
From S2P Require Import Prelude Traces GoStrings ChainTypes ClusterTypes LeaseNames CrdManifest Inventory ReservationService ReservationSound DeployManager.
From S2P Require Import DeployManagerSound ClusterService.

Open Scope string_scope.

(** ** The inventory service as the cluster service sees it *)

Section inventory.
Context `{InventoryLaws} `{CommitLevels}.
Variable cfg : svc_config.

#[export] Instance svc_reservations : Reservations := {|
  Reserved := svc;
  Params := option ReservationClusterSettings;
  inventory_lookup s o name :=
    match step cfg s (EvLookup o name) with
    | Some (Ret (_, RepReservation r)) => Some (rg_ClusterParams (rv_group r))
    | _ => None
    end;
  inventory_unreserve s o := match step cfg s (EvUnreserve o) with Some (Ret (s', _)) => s' | _ => s end;
  held_count s o := List.length (of_order o (map holds (s_reservations s)))
|}.

#[export] Instance svc_reservations_laws : ReservationsLaws.
Proof.
  split; cbn [held_count inventory_lookup inventory_unreserve svc_reservations].
  - intros s o name p. destruct (step cfg s (EvLookup o name)) as [[[s' rep]|]|] eqn:E; try done. destruct rep as [r| |]; try done. intros _.
    apply step_refines in E. inversion E as [| | | |a b ? ? ? Ha Hr Hn Hl| |]; subst; try done.
    unfold of_order. rewrite filter_app, filter_cons, decide_True by done. rewrite length_app. cbn. lia.
  - intros s o o'. cbn [step]. destruct (on_unreserve o s) as [s' rep] eqn:E.
    assert (step cfg s (EvUnreserve o) = Some (Ret (s', rep))) as Hs by (cbn; by rewrite E).
    apply step_refines in Hs. inversion Hs as [| |a b ? r Ha Hr Hl Hrep Hl'|? ? Hl| | |]; subst; try done.
    + unfold of_order. rewrite !filter_app, filter_cons, !length_app. cbn.
      repeat case_decide; try congruence; cbn; lia.
    + destruct (decide (o' = o)) as [->|]; [|lia]. match goal with Hf : Forall _ _ |- _ => apply of_order_none in Hf; rewrite Hf; done end.
Qed.

End inventory.

Section sound.
Context `{Protocols} `{ReservationsLaws}.
Variable provider : string.

Implicit Types (s : cluster).

(** Managers are settled, stay with their lease, and are the provider's own. *)
Definition minded (lid : LeaseID) (dm : dstate cdeployment) : Prop :=
  settled dm ∧ cdp_Lid (d_deployment dm) = lid ∧ lid_Provider lid = provider.

Definition reserved_for s (lid : LeaseID) : Prop := (0 < held_count (cs_inventory s) (order_of lid))%nat.

Record sheltered s : Prop := {
  sh_minded : map_Forall minded (cs_managers s);
  sh_reserved : map_Forall (λ lid _, reserved_for s lid) (cs_managers s)
}.

Lemma dstep_deployment_of (dm dm' : dstate cdeployment) e acts :
  settled dm → dstep dm e = Some (dm', acts) → d_deployment dm' = d_deployment dm ∨ ∃ d, e = DUpdate d ∧ d_deployment dm' = d.
Proof.
  intros Hw Hs. assert (Decision (∃ d, e = DUpdate d)) as [(d & ->)|Hne] by (destruct e; (left; by eexists) || (right; by intros [])).
  - right. exists d. split; [done|]. by eapply update_taken.
  - left. eapply dstep_deployment; [|exact Hs]. destruct e; naive_solver.
Qed.

Lemma minded_step lid dm e dm' acts :
  minded lid dm → dstep dm e = Some (dm', acts) → (∀ d, e = DUpdate d → cdp_Lid d = lid) → minded lid dm'.
Proof.
  intros (Hs & Hl & Hp) Hstep Hd. split; [by eapply dstep_settled|]. split; [|done].
  destruct (dstep_deployment_of _ _ _ _ Hs Hstep) as [->|(d & -> & ->)]; auto.
Qed.

Lemma order_of_inj l l' : lid_Provider l = lid_Provider l' → order_of l = order_of l' → l = l'.
Proof. destruct l, l'. cbn. intros -> [= -> -> -> ->]. done. Qed.

(** The manager of [lid] changes, the inventory does not. *)
Lemma sheltered_insert s lid dm' :
  sheltered s → minded lid dm' → reserved_for s lid →
  sheltered (MkClusterState (<[lid := dm']> (cs_managers s)) (cs_inventory s) (cs_shutdown s)).
Proof. intros [Hm Hr] ? ?. constructor; cbn; by apply map_Forall_insert_2. Qed.

Lemma tell_sheltered s lid e s' acts :
  sheltered s → tell lid e s = (s', acts) → (∀ d, e = DUpdate d → cdp_Lid d = lid) → sheltered s'.
Proof.
  intros Hs Ht He. unfold tell in Ht. destruct (cs_managers s !! lid) as [dm|] eqn:E; cbn in Ht; [|by simplify_eq].
  destruct (dstep dm e) as [[dm' acts']|] eqn:Ed; simplify_eq; [|done]. destruct Hs as [Hm Hr].
  apply sheltered_insert; [done| |by apply (Hr _ _ E)]. eapply minded_step; [by apply (Hm _ _ E)|done..].
Qed.

(** Giving back the reservation of an own lease without a manager. *)
Lemma unreserve_sheltered (managers : gmap LeaseID (dstate cdeployment)) lid s :
  map_Forall minded managers → map_Forall (λ l _, reserved_for s l) managers → managers !! lid = None → lid_Provider lid = provider →
  map_Forall (λ l _, (0 < held_count (inventory_unreserve (cs_inventory s) (order_of lid)) (order_of l))%nat) managers.
Proof.
  intros Hm Hr Hn Hp l dm E. cbn. rewrite unreserve_held. rewrite decide_False; [rewrite Nat.sub_0_r; by apply (Hr _ _ E)|].
  intros Ho. apply order_of_inj in Ho; [congruence|]. rewrite Hp. by apply (Hm _ _ E).
Qed.

(** The bid engine keeps the reservations of deployed leases. *)
Definition keeps s (e : cevent) : Prop :=
  match e with
  | CBidEngine inv => ∀ lid, is_Some (cs_managers s !! lid) → (held_count (cs_inventory s) (order_of lid) ≤ held_count inv (order_of lid))%nat
  | _ => True
  end.

Lemma cstep_sheltered s e s' acts :
  sheltered s → keeps s e → (∀ lid name m, e = CManifest lid name m → lid_Provider lid = provider) →
  cstep provider s e = Some (s', acts) → sheltered s'.
Proof.
  intros Hs Hk Hown. pose proof Hs as [Hm Hr]. destruct e as [|lid name m|lid|lid deadline|lid|lid de|inv]; cbn [cstep].
  - destruct (cs_shutdown s); [done|]. intros [= <- <-]. by constructor.
  - destruct (cs_shutdown s); [done|]. intros [= Hx]. unfold on_manifest in Hx. destruct (ManifestGroup name m) as [g|]; [|by simplify_eq].
    destruct (inventory_lookup _ _ _) as [p|] eqn:El; [|by simplify_eq]. destruct (cs_managers s !! lid) as [dm|] eqn:E.
    + eapply tell_sheltered; [done|exact Hx|]. by intros d [= <-].
    + unfold start_manager in Hx. simplify_eq. apply sheltered_insert; [done| |by eapply lookup_held]. split; [by intros _|]. split; [done|by eapply Hown].
  - destruct (cs_shutdown s); [done|]. intros [= Hx]. unfold on_leaseClosed in Hx. destruct (teardownLease _ _ _) as [s1 acts1] eqn:Et. simplify_eq.
    unfold teardownLease in Et. destruct (cs_managers s !! lid) as [dm|] eqn:E; [by eapply tell_sheltered|].
    destruct (String.eqb_spec (lid_Provider lid) provider); simplify_eq; [|done]. constructor; cbn; [done|]. by apply unreserve_sheltered.
  - destruct (cs_shutdown s); [done|]. intros [= Hx]. by eapply tell_sheltered.
  - destruct (manager_over lid s) eqn:Eo; cbn; [|done].
    assert (map_Forall minded (delete lid (cs_managers s)) ∧ map_Forall (λ l _, reserved_for s l) (delete lid (cs_managers s))) as [Hm1 Hr1]
      by (split; by apply map_Forall_delete).
    destruct (cs_shutdown s); intros [= <- <-]; [by constructor|]. constructor; cbn; [done|].
    apply unreserve_sheltered; [done|done|by rewrite lookup_delete_eq|]. unfold manager_over in Eo. destruct (_ !! lid) as [dm|] eqn:E; [|done]. by apply (Hm _ _ E).
  - unfold manager_step. destruct (own_step _ _) eqn:Ee; [|done]. destruct (_ !! lid) as [dm|] eqn:E; [|done]. cbn.
    destruct (dstep dm de) as [[dm' acts']|] eqn:Ed; [|done]. cbn. intros [= <- <-]. apply sheltered_insert; [done| |by apply (Hr _ _ E)].
    eapply minded_step; [by apply (Hm _ _ E)|done|]. intros d ->. done.
  - intros [= <- <-]. constructor; cbn; [done|]. intros lid dm E. unfold reserved_for. cbn in *. eapply Nat.lt_le_trans; [by apply (Hr _ _ E)|]. apply Hk. eauto.
Qed.

Lemma cstart_sheltered deployments inv :
  Forall (λ d, lid_Provider (cdp_Lid d) = provider ∧ (0 < held_count inv (order_of (cdp_Lid d)))%nat) deployments →
  sheltered (cstart deployments inv) ∧ cs_inventory (cstart deployments inv) = inv.
Proof.
  unfold cstart. assert (sheltered (MkClusterState ∅ inv false)) as Hs0 by by constructor.
  assert (cs_inventory (MkClusterState ∅ inv false) = inv) as Hi by done. revert Hs0 Hi. generalize (MkClusterState ∅ inv false).
  intros s Hs Hi Hall. revert s Hs Hi. induction Hall as [|d l [Hp Hd] _ IH]; intros s Hs Hi; [done|]. cbn. apply IH; [|done].
  apply sheltered_insert; [done|split; [by intros _|by split]|]. unfold reserved_for. by rewrite Hi.
Qed.

(** A run, with the bid engine keeping what is deployed. *)
Definition bid_engine_keeps (deployments : list cdeployment) (inv : Reserved) (es : list cevent) : Prop :=
  ∀ es1 e es2 acts1 s1, es = (es1 ++ e :: es2)%list → cruns provider deployments inv es1 acts1 s1 → keeps s1 e.

Lemma cruns_sheltered deployments inv es acts s :
  Forall (λ d, lid_Provider (cdp_Lid d) = provider ∧ (0 < held_count inv (order_of (cdp_Lid d)))%nat) deployments →
  Forall (λ e, match e with CManifest lid _ _ => lid_Provider lid = provider | _ => True end) es →
  bid_engine_keeps deployments inv es → cruns provider deployments inv es acts s → sheltered s.
Proof.
  intros Hstart Hown Hk Hrun. revert Hown Hk.
  cut (cruns provider deployments inv es acts s ∧
    (Forall (λ e, match e with CManifest lid _ _ => lid_Provider lid = provider | _ => True end) es → bid_engine_keeps deployments inv es → sheltered s)).
  { intros [_ Hx]. exact Hx. }
  revert es acts s Hrun. apply runs_invariant.
  { split; [constructor|]. intros _ _. by apply cstart_sheltered. }
  intros es acts s e s' acts1 [Hrun IH] Hstep. split; [by econstructor|]. intros [Ho1 Ho2]%Forall_app Hk.
  assert (sheltered s) as Hs.
  { apply IH; [done|]. intros es1 e1 es2 acts2 s1 -> Hr. eapply Hk; [|exact Hr]. by rewrite <- app_assoc. }
  eapply cstep_sheltered; [exact Hs|by eapply Hk| |exact Hstep]. intros lid name m ->. inversion Ho2; subst. done.
Qed.

(** Claim C9.  Deployed leases keep their resources: when the deployments
    found at the start are reserved and the bid engine does not give back what
    it has won, then at any time every lease with a manager holds a
    reservation of its order, and the manager reports under that lease. *)
Theorem deployed_leases_reserved (deployments : list cdeployment) (inv : Reserved) (es : list cevent) (acts : list caction)
  (s : cluster) (lid : LeaseID) (dm : dstate cdeployment)
  (Hstart : Forall (λ d, lid_Provider (cdp_Lid d) = provider ∧ (0 < held_count inv (order_of (cdp_Lid d)))%nat) deployments)
  (Hown : Forall (λ e, match e with CManifest lid _ _ => lid_Provider lid = provider | _ => True end) es)
  (Hkeeps : bid_engine_keeps deployments inv es) (Hrun : cruns provider deployments inv es acts s)
  (Hmanaged : cs_managers s !! lid = Some dm) :
  (0 < held_count (cs_inventory s) (order_of lid))%nat ∧ cdp_Lid (d_deployment dm) = lid.
Proof.
  destruct (cruns_sheltered _ _ _ _ _ Hstart Hown Hkeeps Hrun) as [Hm Hr]. split; [by apply (Hr _ _ Hmanaged)|by apply (Hm _ _ Hmanaged)].
Qed.

Lemma teardown_request (dm : dstate cdeployment) :
  d_over dm = false → ∃ dm' acts, dstep dm DTeardown = Some (dm', acts) ∧ tearingDown dm' = true ∧ d_over dm' = false.
Proof.
  intros Ho. unfold dstep, dstep_panic. rewrite Ho. destruct (on_teardown dm) as [dm' acts] eqn:E. exists dm', acts. split; [done|].
  revert E. unfold on_teardown, tearingDown. destruct dm as [st dep runch retry mon msgs rch dl rC rcl tErr over]. cbn in *.
  destruct st; by intros [= <- <-].
Qed.

(** Steps of one manager are steps of the service. *)
Lemma manager_runs s lid dm es acts dm' :
  cs_managers s !! lid = Some dm → runs dstep dm es acts dm' → Forall (λ e, own_step (cs_shutdown s) e = true) es →
  runs (cstep provider) s (map (CManager lid) es) (map (CManagerAction lid) acts)
    (MkClusterState (<[lid := dm']> (cs_managers s)) (cs_inventory s) (cs_shutdown s)).
Proof.
  intros E Hrun. induction Hrun as [|es acts dm1 e dm2 acts1 Hrun IH Hstep].
  - intros _. rewrite insert_id by done. destruct s. constructor.
  - intros [Hf1 [Hf2 _]%Forall_cons]%Forall_app. rewrite !map_app. eapply runs_snoc; [by apply IH|].
    change (own_step (cs_shutdown s) e = true) in Hf2. cbn [cstep]. unfold manager_step. cbn [cs_shutdown cs_managers cs_inventory].
    rewrite Hf2, lookup_insert_eq. cbn. rewrite Hstep. cbn. by rewrite insert_insert_eq.
Qed.

(** Claim C30.  Closed leases are released: from every state the service
    reaches, the event that a deployed lease is closed can be followed by at
    most four steps after which its manager is gone, exactly one reservation of
    its order has been given back, and nothing else has changed hands; a lease
    of this provider without a manager gives its reservation back at once. *)
Theorem closed_lease_released (deployments : list cdeployment) (inv : Reserved) (es : list cevent) (acts : list caction)
  (s : cluster) (lid : LeaseID)
  (Hstart : Forall (λ d, lid_Provider (cdp_Lid d) = provider ∧ (0 < held_count inv (order_of (cdp_Lid d)))%nat) deployments)
  (Hown : Forall (λ e, match e with CManifest lid _ _ => lid_Provider lid = provider | _ => True end) es)
  (Hkeeps : bid_engine_keeps deployments inv es) (Hrun : cruns provider deployments inv es acts s)
  (Hsh : cs_shutdown s = false) (Hprov : lid_Provider lid = provider) (Hlive : manager_over lid s = false) :
  ∃ es' acts' s', runs (cstep provider) s (CLeaseClosed lid :: es') acts' s' ∧ (List.length es' ≤ 4)%nat
    ∧ cs_managers s' = delete lid (cs_managers s)
    ∧ ∀ o, held_count (cs_inventory s') o = (held_count (cs_inventory s) o - (if decide (o = order_of lid) then 1 else 0))%nat.
Proof.
  destruct (cruns_sheltered _ _ _ _ _ Hstart Hown Hkeeps Hrun) as [Hm _]. clear Hstart Hown Hkeeps Hrun.
  destruct (cs_managers s !! lid) as [dm|] eqn:E.
  - unfold manager_over in Hlive. rewrite E in Hlive. destruct (teardown_request dm Hlive) as (dm1 & acts1 & Hd1 & Ht1 & Ho1).
    assert (settled dm1) as Hs1 by (eapply dstep_settled; [by apply (Hm _ _ E)|exact Hd1]).
    destruct (teardown_finish dm1 Hs1 Ht1 Ho1) as (es1 & acts2 & dm2 & Hr & Hlen & _ & Hown & Ho2 & _).
    set (s1 := MkClusterState (<[lid := dm1]> (cs_managers s)) (cs_inventory s) (cs_shutdown s)).
    assert (cstep provider s (CLeaseClosed lid) = Some (s1, CRemoveFundsMonitor lid :: map (CManagerAction lid) acts1)) as Hc.
    { cbn. rewrite Hsh. unfold on_leaseClosed, teardownLease, tell. rewrite E. cbn. by rewrite Hd1. }
    pose proof (manager_runs s1 lid dm1 es1 acts2 dm2 (lookup_insert_eq _ _ _) Hr) as Hr1.
    exists (map (CManager lid) es1 ++ [CManagerDone lid])%list. eexists _, _. split.
    { eapply runs_cons; [exact Hc|]. eapply runs_snoc; [apply Hr1|].
      - eapply Forall_impl; [exact Hown|]. by intros e [->| ->].
      - cbn. unfold manager_over. cbn. rewrite insert_insert_eq, lookup_insert_eq, Ho2, Hsh. cbn. reflexivity. }
    split; [rewrite length_app, length_map; cbn; lia|]. unfold s1. cbn. split; [by rewrite ?insert_insert_eq, ?delete_insert_eq|]. intros o. apply unreserve_held.
  - exists []. eexists _, _. split.
    { eapply runs_cons; [|constructor]. cbn. rewrite Hsh. unfold on_leaseClosed, teardownLease. rewrite E, Hprov, String.eqb_refl. reflexivity. }
    cbn. split; [lia|]. split; [by rewrite delete_id|]. intros o. apply unreserve_held.
Qed.

End sound.

(** * Runs of the cluster service

    A lease from its manifest to its end, used by the witnesses. *)

Import CrdManifest.ManifestSample.

(** The orders that are reserved. *)
Definition count_order (o : OrderID) (l : list OrderID) : nat := List.length (filter (λ x, x = o) l).

Fixpoint remove_order (o : OrderID) (l : list OrderID) : list OrderID :=
  match l with
  | [] => []
  | x :: l => if decide (x = o) then l else x :: remove_order o l
  end.

Lemma count_remove o o' l : count_order o' (remove_order o l) = (count_order o' l - (if decide (o' = o) then 1 else 0))%nat.
Proof.
  unfold count_order. induction l as [|x l IH]; cbn [remove_order]; [by case_decide|].
  destruct (decide (x = o)) as [->|Hne]; rewrite !filter_cons.
  - destruct (decide (o = o')) as [->|]; [rewrite decide_True by done; cbn; lia|rewrite decide_False by done; lia].
  - destruct (decide (x = o')) as [->|]; cbn; rewrite IH; [rewrite decide_False by done; lia|done].
Qed.

#[export] Instance plain_reservations : Reservations := {|
  Reserved := list OrderID;
  Params := ();
  inventory_lookup l o _ := if decide (o ∈ l) then Some () else None;
  inventory_unreserve l o := remove_order o l;
  held_count l o := count_order o l
|}.

#[export] Instance plain_reservations_laws : ReservationsLaws.
Proof.
  split; cbn.
  - intros l o name p. case_decide as Ho; [|done]. intros _. unfold count_order. induction Ho as [l|x l Ho IH]; rewrite filter_cons;
      [rewrite decide_True by done; cbn; lia|case_decide; cbn; lia].
  - intros l o o'. apply count_remove.
Qed.

Definition lid : LeaseID := MkLeaseID "alice" 1 1 1 "p".
Definition other : LeaseID := MkLeaseID "bob" 2 1 1 "p".

(** A manifest arrives, the deploy succeeds, the bid engine reserves for
    another order. *)
Definition deployed_run : list cevent :=
  [CManifest lid "west" [group]; CManager lid (DResult None); CBidEngine [order_of lid; order_of other]].

Definition after (es : list cevent) : option (list caction * cluster) := exec (cstep "p") (cstart [] [order_of lid]) es.
Definition acts_of (es : list cevent) : list caction := match after es with Some (acts, _) => acts | None => [] end.
Definition end_of (es : list cevent) : cluster := match after es with Some (_, s) => s | None => cstart [] [] end.
Definition dm : dstate cdeployment := default (dstart (MkCDeployment lid group ())) (cs_managers (end_of deployed_run) !! lid).

Lemma deployed_runs : cruns "p" [] [order_of lid] deployed_run (acts_of deployed_run) (end_of deployed_run).
Proof.
  apply exec_runs. fold (after deployed_run). assert (is_ok (match after deployed_run with Some _ => Ok () | None => Err () end) = true) as Hok
    by (vm_compute; reflexivity).
  unfold acts_of, end_of. by destruct (after deployed_run) as [[? ?]|].
Qed.

Lemma deployed_manager : cs_managers (end_of deployed_run) !! lid = Some dm.
Proof. vm_compute. reflexivity. Qed.

Lemma deployed_own : Forall (λ e, match e with CManifest lid _ _ => lid_Provider lid = "p" | _ => True end) deployed_run.
Proof. by repeat constructor. Qed.

Lemma prefix_end es acts s : cruns "p" [] [order_of lid] es acts s → after es = Some (acts, s).
Proof.
  unfold after. induction 1 as [|es acts s e s' acts' _ IH Hstep]; [done|].
  revert IH. generalize (cstart [] [order_of lid]) as s0. revert acts. induction es as [|e0 es IHes]; intros acts s0; cbn.
  - intros [= <- <-]. cbn. rewrite Hstep. cbn. by rewrite app_nil_r.
  - destruct (cstep "p" s0 e0) as [[s1 a1]|]; [|done]. cbn. destruct (exec (cstep "p") s1 es) as [[a2 s2]|] eqn:E; [|done]. cbn.
    intros [= <- <-]. rewrite (IHes _ _ E). cbn. by rewrite app_assoc.
Qed.

Lemma reserved_before : (λ x, cs_inventory x.2) <$> after (take 2 deployed_run) = Some [order_of lid].
Proof. vm_compute. reflexivity. Qed.

Lemma deployed_keeps : bid_engine_keeps "p" [] [order_of lid] deployed_run.
Proof.
  intros es1 e es2 acts1 s1 Hsplit Hrun. destruct e as [| | | | | |inv]; try done.
  assert (es1 = take 2 deployed_run ∧ inv = [order_of lid; order_of other]) as [-> ->].
  { unfold deployed_run in Hsplit. destruct es1 as [|? [|? [|? [|? ?]]]]; cbn in Hsplit; simplify_eq; try done. }
  apply prefix_end in Hrun. intros l Hl. assert (cs_inventory s1 = [order_of lid]) as ->.
  { pose proof reserved_before as Hr. rewrite Hrun in Hr. by injection Hr. }
  change (count_order (order_of l) [order_of lid] ≤ count_order (order_of l) [order_of lid; order_of other])%nat.
  unfold count_order. rewrite !filter_cons, filter_nil. repeat case_decide; cbn; lia.
Qed.

Lemma deployed_leases_reserved_witness : (0 < held_count (cs_inventory (end_of deployed_run)) (order_of lid))%nat.
Proof.
  exact (proj1 (deployed_leases_reserved "p" [] [order_of lid] deployed_run _ _ lid dm (Forall_nil_2 _) deployed_own deployed_keeps
    deployed_runs deployed_manager)).
Defined.

Lemma deployed_open : cs_shutdown (end_of deployed_run) = false.
Proof. vm_compute. reflexivity. Qed.

Lemma deployed_live : manager_over lid (end_of deployed_run) = false.
Proof. vm_compute. reflexivity. Qed.

Lemma closed_lease_released_witness :
  ∃ es' acts' s', runs (cstep "p") (end_of deployed_run) (CLeaseClosed lid :: es') acts' s' ∧ (List.length es' ≤ 4)%nat
    ∧ cs_managers s' = delete lid (cs_managers (end_of deployed_run))
    ∧ ∀ o, held_count (cs_inventory s') o
        = (held_count (cs_inventory (end_of deployed_run)) o - (if decide (o = order_of lid) then 1 else 0))%nat.
Proof.
  exact (closed_lease_released "p" [] [order_of lid] deployed_run _ _ lid (Forall_nil_2 _) deployed_own deployed_keeps
    deployed_runs deployed_open eq_refl deployed_live).
Defined.
