(* ===== verification/DeployCluster.v ===== *)
(** * Deploying and tearing down a lease

    The goroutines the deployment manager starts ([cluster/manager.go]:
    [doDeploy], [doTeardown], [checkLeaseActive], [attemptReclaimClose];
    [cluster/manager_cleanup.go]; [IngressHost] of [manifest/parse.go]).  They
    talk to the chain, the hostname service and the Kubernetes client: the calls
    are recorded in order, and what they answer is an argument.  The error texts
    are labels. *)
From Stdlib Require Import Ascii String.
From S2P Require Import Prelude GoStrings ChainTypes LeaseNames CrdManifest Hostname ManifestManager DeployManager.

Open Scope string_scope.

(** [uuid.NewSHA1(uuid.NameSpaceDNS, ...)]: sixteen bytes. *)
Class Uuid := NewSHA1_dns : string → string.

(** ** retry.Do *)

(** Attempts [i], [i+1], ... while the error may be retried, at most
    [attempts] of them; the last error is returned ([LastErrorOnly]). *)
Fixpoint retry_do {E} (attempts : nat) (retryable : E → bool) (answer : nat → option E) (i : nat) : nat * option E :=
  match attempts with
  | O => (i, None)
  | S n =>
      match answer i with
      | None => (S i, None)
      | Some e =>
          match n with
          | O => (S i, Some e)
          | S _ => if retryable e then retry_do n retryable answer (S i) else (S i, Some e)
          end
      end
  end.

Definition retry_attempts : nat := 50.

(** ** Is the lease active? *)

Inductive lease_state := LeaseActive | LeaseReclaiming (deadline : option Z) | LeaseClosed | LeaseInsufficientFunds | LeaseOther.

(** An error of the query; [not_found] is [ErrLeaseNotFound]. *)
Record query_error := MkQueryError { qe_not_found : bool; qe_msg : string }.

(** What the query answers at each attempt: an error, or a lease. *)
Notation lease_answers := (nat → result query_error (LeaseID * lease_state)).

Definition query_failed (r : result query_error (LeaseID * lease_state)) : option query_error :=
  match r with Err e => Some e | Ok _ => None end.

(** The error, and the deadline that is handed to [reclaim]. *)
Definition checkLeaseActive (lid : LeaseID) (answers : lease_answers) : option run_error * option Z :=
  let '(n, err) := retry_do retry_attempts (λ e, negb (qe_not_found e)) (λ i, query_failed (answers i)) 0 in
  match err, answers (pred n) with
  | Some e, _ => (Some (ErrOther (qe_msg e)), None)
  | None, Err e => (Some (ErrOther (qe_msg e)), None)
  | None, Ok (id, st) =>
      if negb (bool_decide (id = lid)) then (Some (ErrOther "lease query returned a different ID"), None)
      else match st with
      | LeaseActive => (None, None)
      | LeaseReclaiming deadline => (None, deadline)
      | LeaseClosed | LeaseInsufficientFunds => (Some ErrLeaseInactive, None)
      | LeaseOther => (Some (ErrOther "unexpected lease state"), None)
      end
  end.

Section deploy.
Context `{ManifestSdk} `{GoUnicode} `{Cosmos} `{Owners} `{Uuid} `{MapOrder}.

Definition IngressHost (lid : LeaseID) (svcName : string) : string :=
  ToLower (base32hex (NewSHA1_dns (LeaseID_String lid +:+ svcName))).

(** ** Calls and answers *)

Inductive call :=
| GetDeclaredIPs
| ReserveNames (l : list string)
| Deploy (g : Group)
| DeclareHostname (host svc : string) (externalPort : Z)
| DeclareIP (svc : string) (port externalPort : Z) (proto : ServiceProtocol) (sharingKey : string)
| PurgeDeclaredHostname (host : string)
| PurgeDeclaredIP (svc : string) (port : Z) (proto : ServiceProtocol).

(** [GetDeclaredIPs]: an IP passthrough of the lease. *)
Record declared_ip := MkDeclaredIP { di_SharingKey : string; di_ServiceName : string; di_ExternalPort : Z; di_Protocol : string }.

Inductive ip_error := ErrAlreadyExists | ErrIP (msg : string).

Record answers := MkAnswers {
  an_lease : lease_answers;
  an_ips : result string (list declared_ip);
  an_sent : arm;
  an_answered : arm;
  an_deploy : option string;
  an_declare_host : string → option string;
  an_declare_ip : string → Z → Z → string → option ip_error
}.

Record dconfig := MkDConfig {
  dp_StaticHosts : bool; dp_IngressDomain : string; dp_CloseRetryInterval : Z }.

(** ** Clean-up *)

Record cleanup_helper := MkHelper { ch_hostnames : list string; ch_ips : list (string * Z * ServiceProtocol) }.

Definition newDeployCleanupHelper : cleanup_helper := MkHelper [] [].
Definition addHostname (h : string) (c : cleanup_helper) : cleanup_helper := MkHelper (ch_hostnames c ++ [h])%list (ch_ips c).
Definition addIP (svc : string) (port : Z) (proto : ServiceProtocol) (c : cleanup_helper) : cleanup_helper :=
  MkHelper (ch_hostnames c) (ch_ips c ++ [(svc, port, proto)])%list.
(** Errors are logged only. *)
Definition purgeAll (c : cleanup_helper) : list call :=
  (map PurgeDeclaredHostname (ch_hostnames c) ++ map (λ '(svc, port, proto), PurgeDeclaredIP svc port proto) (ch_ips c))%list.

(** ** Deploy *)

Variable cfg : dconfig.
Variable lid : LeaseID.

(** What the loop over the exposed services collects: the hosts to declare
    with the service each belongs to, the hostnames in use, the leased IPs and
    their sharing keys. *)
Record scan := MkScan {
  sc_hosts : gmap string (ServiceExpose * string);
  sc_current : gset string;
  sc_leased : list (ServiceExpose * string);
  sc_keys : gset string
}.

Definition scan_host (blocked : gset string) (svc : string) (e : ServiceExpose) (acc : scan) (host : string) : scan :=
  if bool_decide (host ∈ blocked) then acc
  else MkScan (<[host := (e, svc)]> (sc_hosts acc)) ({[host]} ∪ sc_current acc) (sc_leased acc) (sc_keys acc).

Definition static_host (svc : string) : string := IngressHost lid svc +:+ "." +:+ dp_IngressDomain cfg.

Definition scan_ingress (blocked : gset string) (svc : string) (e : ServiceExpose) (acc : scan) : scan :=
  if IsIngress e then
    let acc :=
      if dp_StaticHosts cfg
      then MkScan (<[static_host svc := (e, svc)]> (sc_hosts acc)) (sc_current acc) (sc_leased acc) (sc_keys acc)
      else acc in
    foldl (scan_host blocked svc e) acc (se_Hosts e)
  else acc.

Definition scan_ip (svc : string) (e : ServiceExpose) (acc : scan) : scan :=
  if se_Global e && negb (String.length (se_IP e) =? 0)%nat
  then MkScan (sc_hosts acc) (sc_current acc) (sc_leased acc ++ [(e, svc)])%list ({[MakeIPSharingKey lid (se_IP e)]} ∪ sc_keys acc)
  else acc.

Definition scan_service (blocked : gset string) (acc : scan) (s : Service) : scan :=
  foldl (λ acc e, scan_ip (svc_Name s) e (scan_ingress blocked (svc_Name s) e acc)) acc (svc_Expose s).

Definition scan_group (blocked : gset string) (g : Group) : scan :=
  foldl (scan_service blocked) (MkScan ∅ ∅ [] ∅) (g_Services g).

(** The IPs the cluster has and the manifest does not. *)
Fixpoint stale_ips (keys : gset string) (ips : list declared_ip) (c : cleanup_helper) : cleanup_helper * option string :=
  match ips with
  | [] => (c, None)
  | ip :: ips =>
      if bool_decide (di_SharingKey ip ∈ keys) then stale_ips keys ips c
      else match ParseServiceProtocol (di_Protocol ip) with
      | Err e => (c, Some e)
      | Ok proto => stale_ips keys ips (addIP (di_ServiceName ip) (di_ExternalPort ip) proto c)
      end
  end.

Fixpoint declare_hosts (declare : string → option string) (l : list (string * (ServiceExpose * string))) : list call * option string :=
  match l with
  | [] => ([], None)
  | (host, (e, svc)) :: l =>
      let c := DeclareHostname host svc (u32 (GetExternalPort e)) in
      match declare host with
      | Some err => ([c], Some err)
      | None => let '(calls, err) := declare_hosts declare l in (c :: calls, err)
      end
  end.

Fixpoint declare_ips (declare : string → Z → Z → string → option ip_error) (l : list (ServiceExpose * string))
  : list call * list string * option string :=
  match l with
  | [] => ([], [], None)
  | (e, svc) :: l =>
      let key := MakeIPSharingKey lid (se_IP e) in
      let port := se_Port e in
      let externalPort := GetExternalPort e in
      let c := DeclareIP svc port (u32 externalPort) (se_Proto e) key in
      match declare svc port externalPort key with
      | Some (ErrIP msg) => ([c], [], Some msg)
      | Some ErrAlreadyExists => let '(calls, withheld, err) := declare_ips declare l in (c :: calls, key :: withheld, err)
      | None => let '(calls, withheld, err) := declare_ips declare l in (c :: calls, withheld, err)
      end
  end.

(** What a deploy did: the calls, the error or what was withheld, the
    hostnames in use, the hostname service, and a deadline for [reclaim]. *)
Record deploy_end := MkDeployEnd {
  de_calls : list call;
  de_result : result run_error (list string * list string);
  de_current : gset string;
  de_hosts : hostnameService;
  de_deadline : option Z
}.

Definition doDeploy (an : answers) (g : Group) (currentHostnames : gset string) (hs : hostnameService) : deploy_end :=
  let '(err, deadline) := checkLeaseActive lid (an_lease an) in
  match err with
  | Some e => MkDeployEnd [] (Err e) currentHostnames hs deadline
  | None =>
  match an_ips an with
  | Err e => MkDeployEnd [GetDeclaredIPs] (Err (ErrOther e)) currentHostnames hs deadline
  | Ok currentIPs =>
  let allHostnames := AllHostnamesOfManifestGroup g in
  let '(reserved, hs) := ReserveHostnames hs allHostnames lid (an_sent an) (an_answered an) in
  let calls := [GetDeclaredIPs; ReserveNames allHostnames] in
  match reserved with
  | Err _ => MkDeployEnd calls (Err (ErrOther "hostnames")) currentHostnames hs deadline
  | Ok withheldHostnames =>
  let removed := List.filter (λ h, negb (bool_decide (h ∈ allHostnames))) (map_order _ (elements currentHostnames)) in
  let helper := foldl (λ c h, addHostname h c) newDeployCleanupHelper removed in
  let calls := (calls ++ [Deploy g])%list in
  match an_deploy an with
  | Some e => MkDeployEnd (calls ++ purgeAll helper) (Err (ErrOther e)) currentHostnames hs deadline
  | None =>
  let sc := scan_group (list_to_set withheldHostnames) g in
  let '(helper, err) := stale_ips (sc_keys sc) currentIPs helper in
  match err with
  | Some e => MkDeployEnd (calls ++ purgeAll helper) (Err (ErrOther e)) (sc_current sc) hs deadline
  | None =>
  let '(calls1, err) := declare_hosts (an_declare_host an) (map_order _ (map_to_list (sc_hosts sc))) in
  match err with
  | Some e => MkDeployEnd (calls ++ calls1 ++ purgeAll helper) (Err (ErrOther e)) (sc_current sc) hs deadline
  | None =>
  let '(calls2, withheldEndpoints, err) := declare_ips (an_declare_ip an) (sc_leased sc) in
  MkDeployEnd (calls ++ calls1 ++ calls2 ++ purgeAll helper)
    (match err with Some e => Err (ErrOther e) | None => Ok (withheldHostnames, withheldEndpoints) end)
    (sc_current sc) hs deadline
  end end end end end end.

(** ** Teardown *)

(** The three activities, each retried unless its context ended. *)
Inductive activity := TeardownLease | PurgeDeclaredHostnames | PurgeDeclaredIPs.
#[export] Instance activity_eq_dec : EqDecision activity.
Proof. solve_decision. Defined.

Record tear_error := MkTearError { te_context : bool; te_msg : string }.

Definition run_activity (answer : activity → nat → option tear_error) (a : activity) : nat * option tear_error :=
  retry_do retry_attempts (λ e, negb (te_context e)) (answer a) 0.

(** The results arrive in some order; the first error is returned. *)
Definition doTeardown (answer : activity → nat → option tear_error) (arrival : list activity) : option tear_error :=
  head (omap (λ a, (run_activity answer a).2) arrival).

(** ** Closing a reclaimed lease *)

(** [SyncInfo] of the node: whether it is catching up, and its block time. *)
Record sync_info := MkSync { sy_CatchingUp : bool; sy_LatestBlockTime : Z }.

Definition second : Z := 1000000000.

(** Done, the delay before the next attempt, and whether the close was
    broadcast. *)
Definition attemptReclaimClose (deadline : Z) (sync : result string sync_info) (broadcast : option string) : bool * Z * bool :=
  match sync with
  | Err _ => (false, dp_CloseRetryInterval cfg, false)
  | Ok info =>
      if sy_CatchingUp info then (false, dp_CloseRetryInterval cfg, false)
      else
        let remaining := i64 (deadline - sy_LatestBlockTime info) in
        if (0 <? remaining)%Z then (false, i64 (remaining * second), false)
        else match broadcast with
        | Some _ => (false, dp_CloseRetryInterval cfg, true)
        | None => (true, 0%Z, true)
        end
  end.

End deploy.
