(* ===== verification/DeployClusterSound.v ===== *)
(** * Deploys and teardowns: what they do

    The hostnames a deploy declares, keeps and purges; that it only touches
    leases that are active and hostnames that are held; when a teardown
    succeeds; when a reclaimed lease is closed. *)
From Stdlib Require Import Ascii String.
From S2P Require Import Prelude GoStrings ChainTypes LeaseNames CrdManifest Hostname ManifestManager DeployManager DeployCluster ManifestManagerSample.

Open Scope string_scope.

(** A fold that adds, for each element, what [Q] says. *)
Lemma foldl_adds {A B} (f : A → B → A) (P : A → Prop) (Q : B → Prop) :
  (∀ acc x, P (f acc x) ↔ P acc ∨ Q x) → ∀ l acc, P (foldl f acc l) ↔ P acc ∨ ∃ x, x ∈ l ∧ Q x.
Proof.
  intros Hf l. induction l as [|x l IH]; intros acc; cbn; [set_solver|]. rewrite IH, Hf. setoid_rewrite elem_of_cons. naive_solver.
Qed.

Lemma head_omap_None {A B} (f : A → option B) l : head (omap f l) = None ↔ ∀ a, a ∈ l → f a = None.
Proof.
  induction l as [|a l IH]; cbn; [set_solver|]. setoid_rewrite elem_of_cons. destruct (f a) eqn:E; [|etrans; [exact IH|naive_solver]].
  split; [done|]. intros Hl. rewrite Hl in E by auto. done.
Qed.

(** ** Retries *)

(** The call succeeds at attempt [i] after errors that may be retried. *)
Definition succeeds_at {E} (retryable : E → bool) (answer : nat → option E) (i : nat) : Prop :=
  answer i = None ∧ ∀ j, (j < i)%nat → ∃ e, answer j = Some e ∧ retryable e = true.

Lemma succeeds_unique {E} (retryable : E → bool) (answer : nat → option E) i j :
  succeeds_at retryable answer i → succeeds_at retryable answer j → i = j.
Proof.
  intros [Hi Hi'] [Hj Hj']. destruct (Nat.lt_trichotomy i j) as [Hlt|[?|Hlt]]; [|done|];
    [destruct (Hj' _ Hlt) as (e & ? & _)|destruct (Hi' _ Hlt) as (e & ? & _)]; congruence.
Qed.

(** Before attempt [i] there were only errors that may be retried. *)
Lemma retry_do_spec {E} (retryable : E → bool) (answer : nat → option E) n i :
  (0 < n)%nat → (∀ j, (j < i)%nat → ∃ e, answer j = Some e ∧ retryable e = true) →
  let '(k, err) := retry_do n retryable answer i in
  (i < k ≤ i + n)%nat ∧ err = answer (pred k)
  ∧ (err = None → succeeds_at retryable answer (pred k))
  ∧ (∀ m, (m < i + n)%nat → succeeds_at retryable answer m → err = None).
Proof.
  revert i. induction n as [|n IH]; intros i Hn Hi; [lia|]. cbn [retry_do].
  assert (∀ m, succeeds_at retryable answer m → (i ≤ m)%nat) as Hle.
  { intros m [Hm _]. destruct (decide (i ≤ m)%nat); [done|]. destruct (Hi m) as (e & He & _); [lia|]. congruence. }
  destruct (answer i) as [e|] eqn:Ei; [|split_and!; [lia|lia|done|by split|done]].
  destruct n as [|n].
  { split_and!; [lia|lia|done..|]. intros m Hm Hs. assert (m = i) as -> by (apply Hle in Hs; lia). destruct Hs; congruence. }
  destruct (retryable e) eqn:Er.
  - specialize (IH (S i)). destruct (retry_do (S n) retryable answer (S i)) as [k err]. destruct IH as (Hk & He & Hs & Hm); [lia| |].
    { intros j Hj. destruct (decide (j = i)) as [->|]; [eauto|]. apply Hi. lia. }
    split_and!; [lia|lia|done..|]. intros m Hlt. apply Hm. lia.
  - split_and!; [lia|lia|done..|]. intros m Hm Hs. exfalso. pose proof (Hle _ Hs). destruct Hs as [Hs0 Hs].
    destruct (decide (m = i)) as [->|]; [congruence|]. destruct (Hs i) as (e' & He' & Hr'); [lia|]. congruence.
Qed.

Section sound.
Context `{ManifestSdk} `{GoUnicode} `{Cosmos} `{Owners} `{Uuid} `{MapOrder}.
Variable cfg : dconfig.
Variable lid : LeaseID.

(** ** The hosts of a manifest *)

(** [h] is named by an ingress of the group. *)
Definition ingress_host (g : Group) (h : string) : Prop :=
  ∃ s e, s ∈ g_Services g ∧ e ∈ svc_Expose s ∧ IsIngress e = true ∧ h ∈ se_Hosts e.

(** [h] is the provider's own name for a service with an ingress. *)
Definition provider_host (g : Group) (h : string) : Prop :=
  dp_StaticHosts cfg = true ∧ ∃ s e, s ∈ g_Services g ∧ e ∈ svc_Expose s ∧ IsIngress e = true ∧ h = static_host cfg lid (svc_Name s).

Lemma is_Some_insert {A} (m : gmap string A) k x h : is_Some (<[k := x]> m !! h) ↔ is_Some (m !! h) ∨ h = k.
Proof. rewrite lookup_insert_is_Some. destruct (decide (k = h)); naive_solver. Qed.

Lemma scan_host_keys blocked svc e acc l h :
  is_Some (sc_hosts (foldl (scan_host blocked svc e) acc l) !! h) ↔ is_Some (sc_hosts acc !! h) ∨ ∃ x, x ∈ l ∧ x ∉ blocked ∧ h = x.
Proof.
  apply (foldl_adds _ (λ acc, is_Some (sc_hosts acc !! h))). intros acc' x. unfold scan_host.
  case_bool_decide; cbn; [naive_solver|]. rewrite is_Some_insert. naive_solver.
Qed.

Lemma scan_host_current blocked svc e acc l h :
  h ∈ sc_current (foldl (scan_host blocked svc e) acc l) ↔ h ∈ sc_current acc ∨ ∃ x, x ∈ l ∧ x ∉ blocked ∧ h = x.
Proof.
  apply (foldl_adds _ (λ acc, h ∈ sc_current acc)). intros acc' x. unfold scan_host.
  case_bool_decide; cbn; [naive_solver|]. set_solver.
Qed.

Lemma scan_ip_hosts svc e acc : sc_hosts (scan_ip lid svc e acc) = sc_hosts acc ∧ sc_current (scan_ip lid svc e acc) = sc_current acc.
Proof. unfold scan_ip. by case_match. Qed.

Lemma scan_group_hosts blocked g h :
  is_Some (sc_hosts (scan_group cfg lid blocked g) !! h) ↔ provider_host g h ∨ (ingress_host g h ∧ h ∉ blocked).
Proof.
  unfold scan_group.
  rewrite (foldl_adds _ (λ acc, is_Some (sc_hosts acc !! h)) (λ s, ∃ e, e ∈ svc_Expose s ∧ IsIngress e = true ∧
    ((dp_StaticHosts cfg = true ∧ h = static_host cfg lid (svc_Name s)) ∨ (h ∈ se_Hosts e ∧ h ∉ blocked)))).
  - cbn. rewrite lookup_empty. unfold provider_host, ingress_host. split.
    + intros [[? ?]|(s & ? & e & ? & ? & [[? ?]|[? ?]])]; [done| |]; [left|right]; naive_solver.
    + intros [(? & s & e & ?)|((s & e & ?) & ?)]; right; exists s; naive_solver.
  - intros acc s. unfold scan_service. apply (foldl_adds _ (λ acc, is_Some (sc_hosts acc !! h))). intros acc' e.
    rewrite (proj1 (scan_ip_hosts _ _ _)). unfold scan_ingress. destruct (IsIngress e); [|naive_solver].
    rewrite scan_host_keys. destruct (dp_StaticHosts cfg); cbn; rewrite ?is_Some_insert; naive_solver.
Qed.

Lemma scan_group_current blocked g h :
  h ∈ sc_current (scan_group cfg lid blocked g) ↔ ingress_host g h ∧ h ∉ blocked.
Proof.
  unfold scan_group.
  rewrite (foldl_adds _ (λ acc, h ∈ sc_current acc) (λ s, ∃ e, e ∈ svc_Expose s ∧ IsIngress e = true ∧ h ∈ se_Hosts e ∧ h ∉ blocked)).
  - cbn. unfold ingress_host. set_solver.
  - intros acc s. unfold scan_service. apply (foldl_adds _ (λ acc, h ∈ sc_current acc)). intros acc' e.
    rewrite (proj2 (scan_ip_hosts _ _ _)). unfold scan_ingress. destruct (IsIngress e); [|naive_solver].
    rewrite scan_host_current. destruct (dp_StaticHosts cfg); cbn; naive_solver.
Qed.

Lemma ingress_in_all g h : ingress_host g h → h ∈ AllHostnamesOfManifestGroup g.
Proof.
  intros (s & e & Hs & He & _ & Hh). unfold AllHostnamesOfManifestGroup.
  rewrite list_elem_of_In, in_concat. exists (concat (map se_Hosts (svc_Expose s))).
  split; [apply in_map_iff; exists s; split; [done|by apply list_elem_of_In]|].
  apply in_concat. exists (se_Hosts e). split; [apply in_map_iff; exists e; split; [done|]|]; by apply list_elem_of_In.
Qed.

(** ** The parts of a deploy *)

Definition declared_of (c : call) : option string := match c with DeclareHostname h _ _ => Some h | _ => None end.
Definition purged_of (c : call) : option string := match c with PurgeDeclaredHostname h => Some h | _ => None end.

Lemma declare_hosts_calls declare l calls err :
  declare_hosts declare l = (calls, err) →
  omap declared_of calls `prefix_of` map fst l ∧ omap purged_of calls = [] ∧ (err = None → omap declared_of calls = map fst l).
Proof.
  revert calls err. induction l as [|[h [e svc]] l IH]; intros calls err; cbn; [by intros [= <- <-]|].
  destruct (declare h) as [e'|]; [intros [= <- <-]; cbn; split_and!; [|done..]; apply (prefix_cons h [] _), prefix_nil|].
  destruct (declare_hosts declare l) as [calls' err']. destruct (IH _ _ eq_refl) as (? & ? & Hn). intros [= <- <-]. cbn.
  split_and!; [by apply prefix_cons|done|]. intros E. by rewrite Hn.
Qed.

Lemma declare_ips_calls declare l calls w err :
  declare_ips lid declare l = (calls, w, err) → omap declared_of calls = [] ∧ omap purged_of calls = [].
Proof.
  revert calls w err. induction l as [|[e svc] l IH]; intros calls w err; cbn; [by intros [= <- <- <-]|].
  destruct (declare _ _ _ _) as [[]|]; [| |]; try destruct (declare_ips lid declare l) as [[calls' w'] err']; try (destruct (IH _ _ _ eq_refl));
    intros [= <- <- <-]; by cbn.
Qed.

Lemma purgeAll_calls c : omap declared_of (purgeAll c) = [] ∧ omap purged_of (purgeAll c) = ch_hostnames c.
Proof.
  unfold purgeAll. rewrite !omap_app.
  assert (∀ l, omap declared_of (map PurgeDeclaredHostname l) = [] ∧ omap purged_of (map PurgeDeclaredHostname l) = l) as Hh
    by (induction l as [|h l [IH1 IH2]]; [done|]; cbn; split; [exact IH1|by rewrite <- IH2 at 2]).
  assert (∀ l, omap declared_of (map (λ '(svc, port, proto), PurgeDeclaredIP svc port proto) l) = []
    ∧ omap purged_of (map (λ '(svc, port, proto), PurgeDeclaredIP svc port proto) l) = []) as Hi
    by (induction l as [|[[? ?] ?] l [IH1 IH2]]; [done|]; cbn; split; [exact IH1|exact IH2]).
  destruct (Hh (ch_hostnames c)) as [-> ->], (Hi (ch_ips c)) as [-> ->]. split; [done|apply app_nil_r].
Qed.

Lemma stale_ips_hostnames keys ips c c' err : stale_ips keys ips c = (c', err) → ch_hostnames c' = ch_hostnames c.
Proof.
  revert c. induction ips as [|ip ips IH]; intros c; cbn; [by intros [= <- <-]|]. case_bool_decide; [apply IH|].
  destruct (ParseServiceProtocol _); [|by intros [= <- <-]]. intros E. by apply IH in E.
Qed.

Lemma add_hostnames l c : ch_hostnames (foldl (λ c h, addHostname h c) c l) = (ch_hostnames c ++ l)%list.
Proof. revert c. induction l as [|h l IH]; intros c; cbn; [by rewrite app_nil_r|]. rewrite IH. cbn. by rewrite <- app_assoc. Qed.

(** The keys of the hosts found, in the order they are declared in. *)
Definition host_order (w : list string) (g : Group) : list string :=
  map fst (map_order _ (map_to_list (sc_hosts (scan_group cfg lid (list_to_set w) g)))).

(** The old hostnames the manifest does not name. *)
Definition dropped_hosts (g : Group) (current : gset string) : list string :=
  List.filter (λ h, negb (bool_decide (h ∈ AllHostnamesOfManifestGroup g))) (map_order _ (elements current)).

Definition lease_deployable (an : answers) : Prop := (checkLeaseActive lid (an_lease an)).1 = None.

(** A deploy that got as far as the cluster. *)
Record deployed (an : answers) (g : Group) (current : gset string) (hs : hostnameService) (w : list string) (de : deploy_end) : Prop := {
  dd_lease : lease_deployable an;
  dd_reserved : ReserveHostnames hs (AllHostnamesOfManifestGroup g) lid (an_sent an) (an_answered an) = (Ok w, de_hosts de);
  dd_purged : omap purged_of (de_calls de) = dropped_hosts g current;
  dd_declared : omap declared_of (de_calls de) `prefix_of` host_order w g;
  dd_all : is_ok (de_result de) = true → omap declared_of (de_calls de) = host_order w g
    ∧ de_current de = sc_current (scan_group cfg lid (list_to_set w) g)
}.

Lemma doDeploy_cases an g current hs :
  let de := doDeploy cfg lid an g current hs in
  (∃ w, deployed an g current hs w de) ∨
  ((∀ g', Deploy g' ∉ de_calls de) ∧ omap declared_of (de_calls de) = [] ∧ omap purged_of (de_calls de) = []
   ∧ is_ok (de_result de) = false ∧ de_current de = current).
Proof.
  unfold doDeploy. cbv zeta. destruct (checkLeaseActive lid (an_lease an)) as [err deadline] eqn:El.
  destruct err as [e|]; [right; cbn; set_solver|].
  destruct (an_ips an) as [ips|e]; [|right; cbn; set_solver].
  destruct (ReserveHostnames hs _ lid _ _) as [r hs'] eqn:Er. destruct r as [w|e]; [|right; cbn; set_solver].
  left. exists w. set (helper := foldl _ newDeployCleanupHelper _).
  assert (ch_hostnames helper = dropped_hosts g current) as Hh by (unfold helper; by rewrite add_hostnames).
  destruct (an_deploy an) as [e|].
  { constructor; cbn [de_hosts de_calls de_result]; [unfold lease_deployable; by rewrite El|done|..]; rewrite ?omap_app; rewrite ?(proj1 (purgeAll_calls helper)), ?(proj2 (purgeAll_calls helper)); cbn;
      [done|apply prefix_nil|done]. }
  destruct (stale_ips _ ips helper) as [helper' err] eqn:Es. apply stale_ips_hostnames in Es. rewrite Hh in Es.
  destruct err as [e|].
  { constructor; cbn [de_hosts de_calls de_result]; [unfold lease_deployable; by rewrite El|done|..]; rewrite ?omap_app; rewrite ?(proj1 (purgeAll_calls helper')), ?(proj2 (purgeAll_calls helper')); cbn;
      [done|apply prefix_nil|done]. }
  destruct (declare_hosts _ _) as [calls1 err1] eqn:Ed. apply declare_hosts_calls in Ed as (Hpre & Hp1 & Hall).
  destruct err1 as [e|].
  { constructor; cbn [de_hosts de_calls de_result]; [unfold lease_deployable; by rewrite El|done|..]; rewrite ?omap_app; rewrite ?(proj1 (purgeAll_calls helper')), ?(proj2 (purgeAll_calls helper'));
      rewrite ?Hp1, ?app_nil_r; cbn; done. }
  destruct (declare_ips lid _ _) as [[calls2 w2] err2] eqn:Ei. apply declare_ips_calls in Ei as [Hd2 Hp2].
  constructor; cbn [de_hosts de_calls de_result de_current]; [unfold lease_deployable; by rewrite El|done|..]; rewrite ?omap_app; rewrite ?(proj1 (purgeAll_calls helper')), ?(proj2 (purgeAll_calls helper'));
    rewrite ?Hp1, ?Hd2, ?Hp2, ?app_nil_r; cbn; [done|done|by rewrite Hall].
Qed.

Lemma host_order_elem w g h : h ∈ host_order w g ↔ provider_host g h ∨ (ingress_host g h ∧ h ∉ w).
Proof.
  unfold host_order. rewrite list_elem_of_In, in_map_iff.
  trans (is_Some (sc_hosts (scan_group cfg lid (list_to_set w) g) !! h)).
  - split.
    + intros ([k x] & <- & Hin%list_elem_of_In). rewrite map_order_perm in Hin. apply elem_of_map_to_list in Hin. eauto.
    + intros [x Hx]. exists (h, x). split; [done|]. apply list_elem_of_In. rewrite map_order_perm. by apply elem_of_map_to_list.
  - rewrite scan_group_hosts, elem_of_list_to_set. done.
Qed.

Lemma host_order_nodup w g : NoDup (host_order w g).
Proof. unfold host_order. rewrite map_order_perm. apply NoDup_fst_map_to_list. Qed.

Lemma dropped_elem g current h : h ∈ dropped_hosts g current ↔ h ∈ current ∧ h ∉ AllHostnamesOfManifestGroup g.
Proof.
  unfold dropped_hosts. rewrite list_elem_of_In, filter_In, <- list_elem_of_In, map_order_perm, elem_of_elements.
  rewrite negb_true_iff, bool_decide_eq_false. done.
Qed.

(** A successful deploy declares exactly the provider's own names
    for the services with an ingress (if configured) and the hostnames of the
    manifest's ingresses that are not withheld, each once; it keeps the latter
    as the hostnames in use, and it purges exactly the hostnames that were in
    use before and that the manifest does not name any more. *)
Theorem deploy_hostnames_exact (an : answers) (g : Group) (current : gset string) (hs : hostnameService)
  (withheld endpoints : list string)
  (Hok : de_result (doDeploy cfg lid an g current hs) = Ok (withheld, endpoints)) :
  let de := doDeploy cfg lid an g current hs in
  NoDup (omap declared_of (de_calls de))
  ∧ (∀ h, h ∈ omap declared_of (de_calls de) ↔ provider_host g h ∨ (ingress_host g h ∧ h ∉ withheld))
  ∧ (∀ h, h ∈ de_current de ↔ ingress_host g h ∧ h ∉ withheld)
  ∧ (∀ h, h ∈ omap purged_of (de_calls de) ↔ h ∈ current ∧ h ∉ AllHostnamesOfManifestGroup g).
Proof.
  cbv zeta. destruct (doDeploy_cases an g current hs) as [(w & [Hl Hr Hp Hd Ha])|(_ & _ & _ & Hf & _)]; [|by rewrite Hok in Hf].
  assert (w = withheld) as ->.
  { revert Hok Hr. unfold doDeploy. destruct (checkLeaseActive _ _) as [[] ?]; [done|]. destruct (an_ips an); [|done].
    destruct (ReserveHostnames _ _ _ _ _) as [[w'|] hs']; [|done]. destruct (an_deploy an); [done|].
    destruct (stale_ips _ _ _) as [h' []]; [done|]. destruct (declare_hosts _ _) as [c1 []]; [done|].
    destruct (declare_ips _ _ _) as [[c2 w2] []]; [done|]. cbn. intros [= <- <-]. by intros [= <-]. }
  rewrite Hok in Ha. destruct (Ha eq_refl) as [-> ->]. rewrite Hp. split_and!.
  - apply host_order_nodup.
  - intros h. apply host_order_elem.
  - intros h. rewrite scan_group_current, elem_of_list_to_set. done.
  - intros h. apply dropped_elem.
Qed.

(** Nothing is published that is not held: whether or not the
    deploy succeeds, the cluster is only touched when the chain says that the
    lease is active or being reclaimed; and, for a manifest written in lower
    case, every hostname it declares is the provider's own name for a service
    or is held by this lease in the hostname service. *)
Theorem declared_hosts_held (an : answers) (g : Group) (current : gset string) (hs : hostnameService) (h : string)
  (Hlower : ∀ x, x ∈ AllHostnamesOfManifestGroup g → ToLower x = x)
  (Hdecl : h ∈ omap declared_of (de_calls (doDeploy cfg lid an g current hs))) :
  lease_deployable an
  ∧ (provider_host g h ∨
     ∃ hID, lease_hID lid = Ok hID ∧ hs_inUse (de_hosts (doDeploy cfg lid an g current hs)) !! h = Some hID).
Proof.
  destruct (doDeploy_cases an g current hs) as [(w & [Hl Hr Hp Hd Ha])|(_ & Hn & _)]; [|rewrite Hn in Hdecl; by apply elem_of_nil in Hdecl].
  split; [done|]. assert (h ∈ host_order w g) as [Hs|[Hi Hw]]%host_order_elem; [|by left|right].
  { destruct Hd as [rest ->]. rewrite elem_of_app. by left. }
  revert Hr. generalize (de_hosts (doDeploy cfg lid an g current hs)). intros hs'. unfold ReserveHostnames.
  destruct (check_blocked _ _); [|done]. destruct (lease_hID lid) as [hID|e]; [|done]. destruct (an_sent an); try done.
  assert (map ToLower (AllHostnamesOfManifestGroup g) = AllHostnamesOfManifestGroup g) as ->.
  { clear -Hlower. induction (AllHostnamesOfManifestGroup g) as [|x l IH]; [done|]. cbn. rewrite Hlower by set_solver. f_equal. apply IH. set_solver. }
  cbn [run_step]. destruct (reserveHostnamesImpl _ _ hID) as [r store] eqn:Eres. cbn. destruct (an_answered an); intros [= Er <-].
  exists hID. split; [done|]. cbn. subst r. rewrite (reserve_lookup _ _ _ _ _ h Eres). unfold reserved. rewrite decide_True by by apply ingress_in_all.
  f_equal. pose proof (reserve_check_spec (hs_inUse hs) (AllHostnamesOfManifestGroup g) hID) as Hspec. unfold reserveHostnamesImpl in Eres.
  destruct (reserve_check _ _ _) as [w'|]; [|done]. injection Eres as -> _. destruct Hspec as [_ Hspec].
  destruct (hs_inUse hs !! h) as [e|] eqn:Eh; [|done]. cbn. destruct (decide (e = hID)); [done|]. exfalso. apply Hw, Hspec. split; [by apply ingress_in_all|eauto].
Qed.

(** A teardown is complete exactly when each of its three
    activities succeeds within fifty attempts, the errors before it not being
    the end of its context, in whatever order the results arrive; an activity
    is attempted at least once and at most fifty times, also when another one
    fails. *)
Theorem teardown_complete_iff (answer : activity → nat → option tear_error) (arrival : list activity)
  (Hall : arrival ≡ₚ [TeardownLease; PurgeDeclaredHostnames; PurgeDeclaredIPs]) :
  (doTeardown answer arrival = None ↔
     ∀ a, ∃ i, (i < 50)%nat ∧ succeeds_at (λ e, negb (te_context e)) (answer a) i)
  ∧ ∀ a, (1 ≤ (run_activity answer a).1 ≤ 50)%nat.
Proof.
  assert (∀ a, (1 ≤ (run_activity answer a).1 ≤ 50)%nat ∧ ((run_activity answer a).2 = None ↔
    ∃ i, (i < 50)%nat ∧ succeeds_at (λ e, negb (te_context e)) (answer a) i)) as Hact.
  { intros a. unfold run_activity. pose proof (retry_do_spec (λ e, negb (te_context e)) (answer a) retry_attempts 0) as Hs.
    destruct (retry_do _ _ _ _) as [k err]. unfold retry_attempts in Hs. cbn [fst snd]. destruct Hs as (? & _ & Hs & Hm); [lia|lia|]. split; [lia|]. split; [intros ->; exists (pred k); split; [lia|by apply Hs]|]. intros (m & ? & ?). by apply (Hm m). }
  split; [|intros a; apply Hact].
  unfold doTeardown. rewrite head_omap_None. setoid_rewrite Hall. split.
  - intros Hl a. apply Hact, Hl. destruct a; set_solver.
  - intros Hl a _. by apply Hact.
Qed.

(** A reclaimed lease is closed only when the node is in step with the chain
    and the chain's block time has reached the deadline; the attempt is done
    exactly when the close was accepted, and otherwise the next one is made
    later. *)
Theorem reclaim_when_due (deadline : Z) (sync : result string sync_info) (broadcast : option string)
  (Hrange : ∀ info, sync = Ok info → (- 2 ^ 33 ≤ deadline - sy_LatestBlockTime info < 2 ^ 33)%Z) :
  let '(finished, wait, sent) := attemptReclaimClose cfg deadline sync broadcast in
  (sent = true ↔ ∃ info, sync = Ok info ∧ sy_CatchingUp info = false ∧ (deadline ≤ sy_LatestBlockTime info)%Z)
  ∧ (finished = true ↔ sent = true ∧ broadcast = None)
  ∧ ((0 < dp_CloseRetryInterval cfg)%Z → finished = false → (0 < wait)%Z).
Proof.
  unfold attemptReclaimClose. destruct sync as [info|e]; [|naive_solver]. specialize (Hrange info eq_refl).
  destruct (sy_CatchingUp info) eqn:Ec; [naive_solver|]. rewrite (i64_id (deadline - _)) by lia.
  destruct (Z.ltb_spec 0 (deadline - sy_LatestBlockTime info)).
  - unfold second. rewrite i64_id by lia. split_and!; [split; [done|]|naive_solver|intros; lia].
    intros (info' & [= <-] & _ & ?). lia.
  - destruct broadcast; (split_and!; [split; [intros _; exists info; split_and!; [done..|lia]|done]|naive_solver|done]).
Qed.

(** A lease the chain reports closed or out of funds is not deployed: no call
    reaches the cluster, and the error makes the manager tear the lease down. *)
Theorem inactive_not_deployed (an : answers) (g : Group) (current : gset string) (hs : hostnameService) (i : nat)
  (Hi : (i < 50)%nat) (Hbefore : ∀ j, (j < i)%nat → ∃ e, an_lease an j = Err e ∧ qe_not_found e = false)
  (Hclosed : an_lease an i = Ok (lid, LeaseClosed) ∨ an_lease an i = Ok (lid, LeaseInsufficientFunds)) :
  de_calls (doDeploy cfg lid an g current hs) = [] ∧ de_result (doDeploy cfg lid an g current hs) = Err ErrLeaseInactive
  ∧ ∀ D (s : dstate D), on_result (Some ErrLeaseInactive) s = Some (startTeardown (set_runch None s)).
Proof.
  pose proof (retry_do_spec (λ e, negb (qe_not_found e)) (λ j, query_failed (an_lease an j)) retry_attempts 0) as Hs.
  assert (succeeds_at (λ e, negb (qe_not_found e)) (λ j, query_failed (an_lease an j)) i) as Hat.
  { split; [by destruct Hclosed as [-> | ->]|]. intros j Hj. destruct (Hbefore j Hj) as (e & He & Hn). exists e. rewrite He, Hn. done. }
  cut (checkLeaseActive lid (an_lease an) = (Some ErrLeaseInactive, None)); [intros E; unfold doDeploy; by rewrite E|].
  unfold checkLeaseActive. destruct (retry_do _ _ _ _) as [k err]. unfold retry_attempts in Hs.
  destruct Hs as (Hk & _ & Hs & Hm); [lia|lia|]. pose proof (Hm i Hi Hat) as ->.
  rewrite (succeeds_unique _ _ _ _ (Hs eq_refl) Hat). destruct Hclosed as [-> | ->]; by rewrite bool_decide_true.
Qed.

End sound.

(** * Deploys to look at

    A group with one ingress and one leased IP, used by the witnesses, and two
    deploys that do not do what they are meant to. *)

Import CrdManifest.ManifestSample PlainCosmos HostnameSample.

#[export] Instance plain_uuid : Uuid := λ s, s.
#[export] Existing Instance listed_order.

Definition cfg : dconfig := MkDConfig false "example" 60.
Definition lease : LeaseID := alice1.
Definition answers_ok (ips : list declared_ip) : answers :=
  MkAnswers (λ i, if (i =? 0)%nat then Err (MkQueryError false "timeout") else Ok (lease, LeaseActive))
    (Ok ips) Served Served None (λ _, None) (λ _ _ _ _, None).

(** A service with an ingress for [host] and a leased IP. *)
Definition web (host : string) (port : Z) : Service :=
  MkService _ "web" "img" [] [] [] resources 1
    [MkExpose _ 80 80 TCP EmptyString true [host] http EmptyString 0;
     MkExpose _ port port UDP EmptyString true [] http "myip" 1] None None EmptyString.
Definition one (host : string) (port : Z) : Group := MkGroup _ "west" [web host port].

(** The name [old.com] was in use before. *)
Definition first_deploy : deploy_end := doDeploy cfg lease (answers_ok []) (one "a.com" 53) {["old.com"]} fresh.

Lemma first_calls :
  de_calls first_deploy =
  [GetDeclaredIPs; ReserveNames ["a.com"]; Deploy (one "a.com" 53); DeclareHostname "a.com" "web" 80;
   DeclareIP "web" 53 53 UDP "alice-ip-myip"; PurgeDeclaredHostname "old.com"].
Proof. vm_compute. reflexivity. Qed.

Lemma first_result : de_result first_deploy = Ok ([], []).
Proof. vm_compute. reflexivity. Qed.

Lemma deploy_hostnames_exact_witness : "old.com" ∈ omap purged_of (de_calls first_deploy).
Proof.
  apply (proj2 (proj2 (proj2 (deploy_hostnames_exact cfg lease (answers_ok []) (one "a.com" 53) {["old.com"]} fresh [] [] first_result)))).
  split; [by apply elem_of_singleton|]. apply (bool_decide_unpack _). vm_compute. exact I.
Defined.

Lemma a_declared : "a.com" ∈ omap declared_of (de_calls first_deploy).
Proof. rewrite first_calls. apply list_elem_of_here. Qed.

Lemma declared_hosts_held_witness : lease_deployable lease (answers_ok []).
Proof.
  refine (proj1 (declared_hosts_held cfg lease (answers_ok []) (one "a.com" 53) {["old.com"]} fresh "a.com" _ a_declared)).
  intros x Hx. apply list_elem_of_singleton in Hx as ->. reflexivity.
Defined.

(** The first activity fails twice, the others succeed. *)
Definition two_failures (a : activity) (i : nat) : option tear_error :=
  match a with TeardownLease => if (i <? 2)%nat then Some (MkTearError false "busy") else None | _ => None end.

Lemma teardown_complete_iff_witness : doTeardown two_failures [PurgeDeclaredIPs; TeardownLease; PurgeDeclaredHostnames] = None.
Proof.
  apply (teardown_complete_iff two_failures [PurgeDeclaredIPs; TeardownLease; PurgeDeclaredHostnames]).
  - apply (Permutation_cons_app [TeardownLease; PurgeDeclaredHostnames] []). reflexivity.
  - intros [| |].
    + exists 2%nat. split; [lia|]. split; [reflexivity|]. intros j Hj. exists (MkTearError false "busy").
      assert (j = 0 ∨ j = 1)%nat as [-> | ->] by lia; split; reflexivity.
    + exists 0%nat. split; [lia|]. split; [reflexivity|]. intros j Hj. lia.
    + exists 0%nat. split; [lia|]. split; [reflexivity|]. intros j Hj. lia.
Defined.

(** [ReserveHostnames] returns the withheld names in lower case, the deploy
    looks its hosts up in them as they are written: a hostname with a capital
    letter that another deployment of the tenant holds is withheld, and declared
    all the same. *)
Theorem withheld_capital_declared :
  let an := answers_ok [] in
  let hs := MkHostnames {["a.com" := id2]} [] [] in
  let de := doDeploy cfg lease an (one "A.com" 53) ∅ hs in
  de_result de = Ok (["a.com"], []) ∧ omap declared_of (de_calls de) = ["A.com"] ∧ hs_inUse (de_hosts de) !! "a.com" = Some id2
  ∧ omap declared_of (de_calls (doDeploy cfg lease an (one "a.com" 53) ∅ hs)) = [].
Proof. split_and!; vm_compute; reflexivity. Qed.

(** IPs are compared by sharing key, which is one per endpoint name: when an
    update moves a leased IP to another port, the passthrough of the old port
    has a key that is still in use and is not purged. *)
Theorem stale_port_kept :
  let de := doDeploy cfg lease (answers_ok [MkDeclaredIP "alice-ip-myip" "web" 53 "UDP"]) (one "a.com" 5353) {["a.com"]} fresh in
  is_ok (de_result de) = true
  ∧ de_calls de = [GetDeclaredIPs; ReserveNames ["a.com"]; Deploy (one "a.com" 5353); DeclareHostname "a.com" "web" 80;
      DeclareIP "web" 5353 5353 UDP "alice-ip-myip"].
Proof. split; vm_compute; reflexivity. Qed.
