(* ===== verification/ManifestService.v ===== *)
(** * The manifest service and its watchdogs

    [manifest/service.go]: routes the events of leases and deployments and the
    submitted manifests to one manager per deployment, and watches that a
    manifest arrives for a lease in time.  [manifest/watchdog.go]: closes the
    bid of a lease when it does not.  The watchdogs are goroutines of their own,
    so their steps are events of the system too: they can hear a request to
    stop, or run out of time, in any order.  Status replies are not modelled. *)
From Stdlib Require Import Ascii String.
From S2P Require Import Prelude Traces GoStrings LeaseNames.

Open Scope string_scope.

(** [dtypes.DeploymentID]. *)
Record DeploymentID := MkDID { did_Owner : string; did_DSeq : Z }.
#[export] Instance DeploymentID_eq_dec : EqDecision DeploymentID.
Proof. solve_decision. Defined.
#[export] Instance DeploymentID_countable : Countable DeploymentID.
Proof.
  refine (inj_countable' (λ d, (did_Owner d, did_DSeq d)) (λ '(o, n), MkDID o n) _). by intros [].
Defined.

Definition deployment_of (l : LeaseID) : DeploymentID := MkDID (lid_Owner l) (lid_DSeq l).

(** [dquery.DeploymentPath]: the key of a manager. *)
Class DeploymentPaths := { DeploymentPath : DeploymentID → string; DeploymentPath_inj :: Inj (=) (=) DeploymentPath }.

(** ** Watchdogs *)

(** Waiting for its time to run out; closing the bid, before or after a request
    to stop was heard; at its end. *)
Inductive wphase := Waiting | Closing | ClosingHeard | Ended.
#[export] Instance wphase_eq_dec : EqDecision wphase.
Proof. solve_decision. Defined.

(** [wd_stop]: a request to stop is there and was not heard yet. *)
Record watchdog := MkWatchdog { wd_leaseID : LeaseID; wd_broadcastTimeout : Z; wd_phase : wphase; wd_stop : bool }.

(** Durations are in nanoseconds. *)
Definition DefaultBroadcastTimeout : Z := 30 * 1000000000.

Definition newWatchdog (lid : LeaseID) (broadcastTimeout : Z) : watchdog :=
  MkWatchdog lid (if (broadcastTimeout <=? 0)%Z then DefaultBroadcastTimeout else broadcastTimeout) Waiting false.

Definition watchdog_stop (w : watchdog) : watchdog :=
  MkWatchdog (wd_leaseID w) (wd_broadcastTimeout w) (wd_phase w) true.

Inductive wevent := WTimeout | WStop | WResult.

(** The bid that is closed: the order of the lease, and the session's own
    provider. *)
Definition bid_of (provider : string) (l : LeaseID) : LeaseID :=
  MkLeaseID (lid_Owner l) (lid_DSeq l) (lid_GSeq l) (lid_OSeq l) provider.

(** A step of [run]; [Some id] is the bid whose close is broadcast.  Once the
    broadcast has started a request to stop is heard, but the result is waited
    for. *)
Definition watchdog_run (provider : string) (w : watchdog) (e : wevent) : option (watchdog * option LeaseID) :=
  match e, wd_phase w with
  | WTimeout, Waiting =>
      Some (MkWatchdog (wd_leaseID w) (wd_broadcastTimeout w) Closing (wd_stop w), Some (bid_of provider (wd_leaseID w)))
  | WStop, Waiting =>
      if wd_stop w then Some (MkWatchdog (wd_leaseID w) (wd_broadcastTimeout w) Ended false, None) else None
  | WStop, Closing =>
      if wd_stop w then Some (MkWatchdog (wd_leaseID w) (wd_broadcastTimeout w) ClosingHeard false, None) else None
  | WResult, Closing | WResult, ClosingHeard => Some (MkWatchdog (wd_leaseID w) (wd_broadcastTimeout w) Ended (wd_stop w), None)
  | _, _ => None
  end.

(** ** The service *)

Record sconfig := MkSConfig { sc_ManifestTimeout : Z; sc_BroadcastTimeout : Z; sc_Provider : string }.

(** What a manager is given. *)
Inductive message :=
| MsgLease (lid : LeaseID)
| MsgRemoveLease (lid : LeaseID)
| MsgUpdate (version : string)
| MsgManifest (ch : nat)
| MsgStop.

Inductive saction :=
| NewManager (d : DeploymentID)
| ToManager (d : DeploymentID) (m : message)
| NewWatchdog (lid : LeaseID)
| CloseBid (id : LeaseID).

(** [ms_shutdown]: the loop has ended, managers and watchdogs are waited for. *)
Record service := MkMService {
  ms_managers : gmap string DeploymentID;
  ms_watchdogs : gmap DeploymentID watchdog;
  ms_shutdown : bool
}.

Inductive sevent :=
| SShutdown
| SLeaseWon (lid : LeaseID)
| SDeploymentUpdated (d : DeploymentID) (version : string)
| SDeploymentClosed (d : DeploymentID)
| SLeaseClosed (lid : LeaseID)
| SSubmit (d : DeploymentID) (ch : nat)
| SManagerDone (d : DeploymentID)
| SWatchdogDone (d : DeploymentID)
| SWatchdog (d : DeploymentID) (e : wevent).

#[export] Instance wevent_eq_dec : EqDecision wevent.
Proof. solve_decision. Defined.
#[export] Instance sevent_eq_dec : EqDecision sevent.
Proof. solve_decision. Defined.

Section service.
Context `{DeploymentPaths}.
Variable cfg : sconfig.

Definition newService : service := MkMService ∅ ∅ false.

Definition maybeRemoveWatchdog (d : DeploymentID) (s : service) : service :=
  match ms_watchdogs s !! d with
  | Some w => MkMService (ms_managers s) (<[d := watchdog_stop w]> (ms_watchdogs s)) (ms_shutdown s)
  | None => s
  end.

Definition ensureManager (d : DeploymentID) (s : service) : service * list saction :=
  match ms_managers s !! DeploymentPath d with
  | Some _ => (s, [])
  | None => (MkMService (<[DeploymentPath d := d]> (ms_managers s)) (ms_watchdogs s) (ms_shutdown s), [NewManager d])
  end.

Definition handleLease (lid : LeaseID) (isNew : bool) (s : service) : service * list saction :=
  let d := deployment_of lid in
  let '(s, acts) :=
    if isNew && (0 <? sc_ManifestTimeout cfg)%Z then
      match ms_watchdogs s !! d with
      | Some _ => (s, [])
      | None =>
          (MkMService (ms_managers s) (<[d := newWatchdog lid (sc_BroadcastTimeout cfg)]> (ms_watchdogs s)) (ms_shutdown s),
           [NewWatchdog lid])
      end
    else (s, []) in
  let '(s, acts') := ensureManager d s in
  (s, acts ++ acts' ++ [ToManager d (MsgLease lid)])%list.

Definition to_manager (d : DeploymentID) (m : message) (s : service) : list saction :=
  match ms_managers s !! DeploymentPath d with Some d' => [ToManager d' m] | None => [] end.

(** An arm of the loop; [None] when the event cannot happen. *)
Definition loop_step (s : service) (e : sevent) : option (service * list saction) :=
  match e with
  | SShutdown => Some (MkMService (ms_managers s) (watchdog_stop <$> ms_watchdogs s) true, [])
  | SLeaseWon lid => Some (if negb (lid_Provider lid =? sc_Provider cfg) then (s, []) else handleLease lid true s)
  | SDeploymentUpdated d v => Some (s, to_manager d (MsgUpdate v) s)
  | SDeploymentClosed d => Some (s, to_manager d MsgStop s)
  | SLeaseClosed lid =>
      Some (s, if negb (lid_Provider lid =? sc_Provider cfg) then [] else to_manager (deployment_of lid) (MsgRemoveLease lid) s)
  | SSubmit d ch =>
      let '(s, acts) := ensureManager d (maybeRemoveWatchdog d s) in
      Some (s, acts ++ [ToManager d (MsgManifest ch)])%list
  | SManagerDone d =>
      if bool_decide (ms_managers s !! DeploymentPath d = Some d)
      then Some (maybeRemoveWatchdog d (MkMService (delete (DeploymentPath d) (ms_managers s)) (ms_watchdogs s) (ms_shutdown s)), [])
      else None
  | SWatchdogDone d =>
      w ← ms_watchdogs s !! d;
      if bool_decide (wd_phase w = Ended) then Some (MkMService (ms_managers s) (delete d (ms_watchdogs s)) (ms_shutdown s), []) else None
  | SWatchdog _ _ => None
  end.

(** After the loop: first the managers are waited for, then as many watchdogs
    as there are. *)
Definition drain_step (s : service) (e : sevent) : option (service * list saction) :=
  match e with
  | SManagerDone d =>
      if bool_decide (ms_managers s !! DeploymentPath d = Some d)
      then Some (MkMService (delete (DeploymentPath d) (ms_managers s)) (ms_watchdogs s) true, []) else None
  | SWatchdogDone d =>
      if bool_decide (ms_managers s = ∅) then
        w ← ms_watchdogs s !! d;
        if bool_decide (wd_phase w = Ended) then Some (MkMService ∅ (delete d (ms_watchdogs s)) true, []) else None
      else None
  | _ => None
  end.

(** A step of the service, or of one of the watchdogs. *)
Definition sstep (s : service) (e : sevent) : option (service * list saction) :=
  match e with
  | SWatchdog d we =>
      w ← ms_watchdogs s !! d;
      '(w', closed) ← watchdog_run (sc_Provider cfg) w we;
      Some (MkMService (ms_managers s) (<[d := w']> (ms_watchdogs s)) (ms_shutdown s),
            match closed with Some id => [CloseBid id] | None => [] end)
  | _ => if ms_shutdown s then drain_step s e else loop_step s e
  end.

Definition sruns : list sevent → list saction → service → Prop := runs sstep newService.

End service.
