(* ===== verification/ManifestServiceSound.v ===== *)
(** * The manifest service: its contract

    What a watchdog does, that the service ends after a shutdown, that a
    deployment has one manager at a time; and two runs in which the watchdogs
    do not do what they are meant to. *)
From Stdlib Require Import Ascii String.
From S2P Require Import Prelude Traces GoStrings LeaseNames ManifestService BidService.

Open Scope string_scope.

Section sound.
Context `{DeploymentPaths}.
Variable cfg : sconfig.

(** Managers and watchdogs are kept under their deployment; after a shutdown
    every waiting watchdog has been asked to stop. *)
Record tidy (s : service) : Prop := {
  td_managers : map_Forall (λ k d, k = DeploymentPath d) (ms_managers s);
  td_watchdogs : map_Forall (λ d w, d = deployment_of (wd_leaseID w)) (ms_watchdogs s);
  td_stopped : ms_shutdown s = true → map_Forall (λ _ w, wd_phase w = Waiting → wd_stop w = true) (ms_watchdogs s)
}.

Lemma remove_tidy d s : tidy s → tidy (maybeRemoveWatchdog d s).
Proof.
  intros [Hm Hw Hs]. unfold maybeRemoveWatchdog. destruct (_ !! d) as [w|] eqn:E; [|done].
  constructor; cbn; [done| |]; [apply map_Forall_insert_2; [by apply Hw in E|done]|].
  intros Hsh. apply map_Forall_insert_2; [done|by apply Hs].
Qed.

Lemma ensure_tidy d s s' acts : tidy s → ensureManager d s = (s', acts) → tidy s'.
Proof.
  intros [Hm Hw Hs]. unfold ensureManager. destruct (_ !! _); intros [= <- <-]; [done|].
  constructor; cbn; [by apply map_Forall_insert_2|done..].
Qed.

Lemma watchdog_run_lease p w e w' c :
  watchdog_run p w e = Some (w', c) → wd_leaseID w' = wd_leaseID w ∧ wd_phase w' ≠ Waiting.
Proof. unfold watchdog_run. destruct e, (wd_phase w); try done; try case_match; intros [= <- <-]; done. Qed.

Lemma sstep_tidy s e s' acts : tidy s → sstep cfg s e = Some (s', acts) → tidy s'.
Proof.
  intros Ht. pose proof Ht as [Hm Hw Hs]. destruct e as [|lid|d v|d|lid|d ch|d|d|d we]; cbn [sstep].
  9: { destruct (ms_watchdogs s !! d) as [w|] eqn:E; [|done]. cbn. destruct (watchdog_run _ w we) as [[w' c]|] eqn:Ew; [|done]. cbn.
       intros [= <- <-]. apply watchdog_run_lease in Ew as [El Ep]. constructor; cbn; [done| |].
       - apply map_Forall_insert_2; [rewrite El; by apply Hw in E|done].
       - intros Hsh. apply map_Forall_insert_2; [done|by apply Hs]. }
  all: destruct (ms_shutdown s) eqn:Hsh; cbn [loop_step drain_step]; try done.
  - intros [= <- <-]. constructor; cbn; [done| |].
    + intros d w. rewrite lookup_fmap. intros (w0 & E & ->)%fmap_Some. by apply Hw in E.
    + intros _ d w. rewrite lookup_fmap. intros (w0 & E & ->)%fmap_Some. done.
  - case_match; [by intros [= <- <-]|]. unfold handleLease. intros Hstep.
    destruct (if _ && _ then _ else _) as [s1 acts1] eqn:E1. destruct (ensureManager _ s1) as [s2 acts2] eqn:E2. simplify_eq.
    eapply ensure_tidy; [|exact E2]. destruct (_ && _); [|by simplify_eq]. destruct (_ !! deployment_of lid) as [w|]; simplify_eq; [done|].
    constructor; cbn; [done|by apply map_Forall_insert_2|by rewrite Hsh].
  - by intros [= <- <-].
  - by intros [= <- <-].
  - by intros [= <- <-].
  - destruct (ensureManager _ _) as [s1 acts1] eqn:E1. intros [= <- <-]. eapply ensure_tidy; [|exact E1]. by apply remove_tidy.
  - case_bool_decide; [|done]. intros [= <- <-]. constructor; cbn; [by apply map_Forall_delete|done..].
  - case_bool_decide; [|done]. intros [= <- <-]. apply remove_tidy. constructor; cbn; [by apply map_Forall_delete|done|by rewrite Hsh].
  - case_bool_decide; [|done]. destruct (_ !! d); [|done]. cbn. case_bool_decide; [|done]. intros [= <- <-].
    constructor; cbn; [done|by apply map_Forall_delete|intros _; by apply map_Forall_delete, Hs].
  - destruct (_ !! d); [|done]. cbn. case_bool_decide; [|done]. intros [= <- <-].
    constructor; cbn; [done|by apply map_Forall_delete|by rewrite Hsh].
Qed.

Lemma sruns_tidy es acts s : sruns cfg es acts s → tidy s.
Proof.
  revert es acts s. apply runs_invariant; [by constructor|]. intros es acts s e s' acts1. apply sstep_tidy.
Qed.

(** ** The end of the service *)

(** Steps a watchdog has left at most. *)
Definition weight (w : watchdog) : nat :=
  match wd_phase w with Waiting => 4 | Closing => 3 | ClosingHeard => 2 | Ended => 1 end.
Definition work (s : service) : nat := size (ms_managers s) + map_fold (λ _ w n, weight w + n)%nat 0%nat (ms_watchdogs s).

Definition ended (s : service) : Prop := ms_shutdown s = true ∧ ms_managers s = ∅ ∧ ms_watchdogs s = ∅.

Notation weights := (map_fold (λ (_ : DeploymentID) w n, weight w + n)%nat 0%nat).

Lemma weights_delete (ws : gmap DeploymentID watchdog) d w :
  ws !! d = Some w → weights ws = (weight w + weights (delete d ws))%nat.
Proof.
  intros E. rewrite <- (insert_delete_id _ _ _ E) at 1. rewrite map_fold_insert_L; [done| |by rewrite lookup_delete_eq]. intros; lia.
Qed.

Lemma weights_insert (ws : gmap DeploymentID watchdog) d w w' :
  ws !! d = Some w → (weights (<[d := w']> ws) + weight w = weight w' + weights ws)%nat.
Proof.
  intros E. rewrite (weights_delete _ _ _ E), <- insert_delete_eq, map_fold_insert_L; [lia| |by rewrite lookup_delete_eq]. intros; lia.
Qed.

Lemma work_step s e s' acts :
  ms_shutdown s = true → sstep cfg s e = Some (s', acts) → ms_shutdown s' = true ∧ (work s' < work s)%nat.
Proof.
  intros Hsh. unfold work. destruct e as [|lid|d v|d|lid|d ch|d|d|d we]; cbn [sstep]; rewrite ?Hsh; cbn [drain_step]; try done.
  - case_bool_decide as Hd; [|done]. intros [= <- <-]. cbn. split; [done|]. rewrite map_size_delete, Hd. cbn.
    assert (size (ms_managers s) ≠ 0%nat) by (intros E; apply map_size_empty_inv in E; by rewrite E, lookup_empty in Hd). lia.
  - case_bool_decide as He; [|done]. destruct (_ !! d) as [w|] eqn:E; [|done]. cbn. case_bool_decide as Hp; [|done]. intros [= <- <-]. cbn.
    split; [done|]. assert (weight w = 1%nat) as Hone by (unfold weight; by rewrite Hp). rewrite (weights_delete _ _ _ E), He, Hone. cbn. lia.
  - destruct (_ !! d) as [w|] eqn:E; [|done]. cbn. destruct (watchdog_run _ w we) as [[w' c]|] eqn:Ew; [|done]. cbn.
    intros [= <- <-]. cbn. split; [done|]. pose proof (weights_insert _ _ _ w' E) as Hw.
    assert (weight w' < weight w)%nat; [|lia]. revert Ew. unfold watchdog_run, weight.
    destruct we, (wd_phase w); try done; destruct (wd_stop w); try done; intros [= <- <-]; cbn; lia.
Qed.

(** Claim C34.  The shutdown of the service ends: every step after it brings
    the end nearer, so that their number is bounded by the managers and the
    work left to the watchdogs, and until the end some step is possible; no
    manager is started, and no watchdog, on the way. *)
Theorem manifest_service_drains (es es' : list sevent) (acts acts' : list saction) (s s' : service)
  (Hrun : sruns cfg es acts s) (Hsh : ms_shutdown s = true) (Hrest : runs (sstep cfg) s es' acts' s') :
  (List.length es' + work s' ≤ work s)%nat
  ∧ (ended s' ∨ ∃ e, is_Some (sstep cfg s' e))
  ∧ Forall (λ a, match a with CloseBid _ => True | _ => False end) acts'.
Proof.
  pose proof (sruns_tidy _ _ _ Hrun) as Ht. clear Hrun.
  assert (tidy s' ∧ ms_shutdown s' = true ∧ (List.length es' + work s' ≤ work s)%nat
    ∧ Forall (λ a, match a with CloseBid _ => True | _ => False end) acts') as (Ht' & Hsh' & Hl & Ha).
  { revert es' acts' s' Hrest. apply runs_invariant; [split_and!; [done..|cbn; lia|constructor]|].
    intros es' acts' s1 e s2 acts1 (Ht1 & Hsh1 & Hl1 & Ha1) Hstep. destruct (work_step _ _ _ _ Hsh1 Hstep) as [Hsh2 Hlt].
    split_and!; [by eapply sstep_tidy|done|rewrite length_app; cbn; lia|]. apply Forall_app. split; [done|].
    destruct e; cbn [sstep] in Hstep; rewrite ?Hsh1 in Hstep; cbn in Hstep; repeat case_match; simplify_option_eq; repeat case_match; simplify_eq; repeat constructor. }
  split_and!; [done| |done]. destruct Ht' as [Hm Hw Hs].
  destruct (decide (ms_managers s' = ∅)) as [He|(k & d & E)%map_choose].
  - destruct (decide (ms_watchdogs s' = ∅)) as [Hw0|(d & w & E)%map_choose]; [left; by split_and!|right].
    destruct (wd_phase w) eqn:Ep.
    + exists (SWatchdog d WStop). cbn. rewrite E. cbn. unfold watchdog_run. rewrite Ep, (Hs Hsh' _ _ E Ep). eauto.
    + exists (SWatchdog d WResult). cbn. rewrite E. cbn. unfold watchdog_run. rewrite Ep. eauto.
    + exists (SWatchdog d WResult). cbn. rewrite E. cbn. unfold watchdog_run. rewrite Ep. eauto.
    + exists (SWatchdogDone d). cbn. rewrite Hsh'. cbn. rewrite bool_decide_true, E by done. cbn. rewrite bool_decide_true by done. eauto.
  - right. pose proof (Hm _ _ E) as ->. exists (SManagerDone d). cbn. rewrite Hsh'. cbn. rewrite bool_decide_true by done. eauto.
Qed.

(** ** One watchdog *)

(** The bids of deployment [d] that are closed. *)
Definition closed_on (d : DeploymentID) (a : saction) : option LeaseID :=
  match a with CloseBid id => if decide (deployment_of id = d) then Some id else None | _ => None end.

(** A request to the watchdog of [d] to stop. *)
Definition stops (d : DeploymentID) (e : sevent) : Prop :=
  match e with SSubmit d' _ | SManagerDone d' => d' = d | SShutdown => True | _ => False end.

(** The watchdog of [lid] after the events [es], which closed the bids [ids]. *)
Record watched (lid : LeaseID) (es : list sevent) (ids : list LeaseID) (w : watchdog) : Prop := {
  wa_lease : wd_leaseID w = lid;
  wa_closed : ids = if decide (SWatchdog (deployment_of lid) WTimeout ∈ es) then [bid_of (sc_Provider cfg) lid] else [];
  wa_waiting : wd_phase w = Waiting ↔ SWatchdog (deployment_of lid) WTimeout ∉ es ∧ SWatchdog (deployment_of lid) WStop ∉ es;
  wa_stopped : SWatchdog (deployment_of lid) WTimeout ∉ es → SWatchdog (deployment_of lid) WStop ∈ es → wd_phase w = Ended;
  wa_asked : (SWatchdog (deployment_of lid) WStop ∈ es ∨ wd_stop w = true → Exists (stops (deployment_of lid)) es)
    ∧ (Exists (stops (deployment_of lid)) es → wd_phase w = Waiting → wd_stop w = true)
}.

Lemma remove_lookup d d' s w :
  ms_watchdogs s !! d = Some w →
  ms_watchdogs (maybeRemoveWatchdog d' s) !! d = Some (if decide (d' = d) then watchdog_stop w else w).
Proof.
  intros E. unfold maybeRemoveWatchdog. destruct (decide (d' = d)) as [->|Hne].
  - rewrite E. cbn. by rewrite lookup_insert_eq.
  - destruct (_ !! d'); [|done]. cbn. by rewrite lookup_insert_ne.
Qed.

Lemma ensure_watchdogs d s s' acts :
  ensureManager d s = (s', acts) → ms_watchdogs s' = ms_watchdogs s ∧ ∀ d, omap (closed_on d) acts = [].
Proof. unfold ensureManager. destruct (_ !! _); by intros [= <- <-]. Qed.

(** What an event that is not a step of the watchdog of [d] does to it. *)
Lemma other_step s e s' acts d w :
  tidy s → sstep cfg s e = Some (s', acts) → ms_watchdogs s !! d = Some w → e ≠ SWatchdogDone d →
  (∀ we, e ≠ SWatchdog d we) →
  omap (closed_on d) acts = [] ∧
  ∃ w', ms_watchdogs s' !! d = Some w' ∧ wd_leaseID w' = wd_leaseID w ∧ wd_phase w' = wd_phase w
    ∧ (wd_stop w' = true → wd_stop w = true ∨ stops d e) ∧ (wd_stop w = true → wd_stop w' = true)
    ∧ (stops d e → wd_phase w = Waiting → wd_stop w' = true).
Proof.
  intros [Hm Hw Hs] Hstep E Hne Hnw.
  assert (∀ w', w' = w ∨ w' = watchdog_stop w → wd_leaseID w' = wd_leaseID w ∧ wd_phase w' = wd_phase w) as Hkeep.
  { by intros w' [->| ->]. }
  destruct e as [|lid|d' v|d'|lid|d' ch|d'|d'|d' we]; cbn [sstep] in Hstep.
  9: { destruct (decide (d' = d)) as [->|Hd]; [by destruct (Hnw we)|].
       destruct (_ !! d') as [w0|] eqn:E0; [|done]. cbn in Hstep. destruct (watchdog_run _ w0 we) as [[w1 c]|] eqn:Ew; [|done]. cbn in Hstep.
       simplify_eq. split; [|exists w; cbn; rewrite lookup_insert_ne by done; naive_solver].
       destruct c as [id|]; [|done]. cbn. rewrite decide_False; [done|]. intros <-. apply Hd.
       revert Ew. unfold watchdog_run. rewrite (Hw _ _ E0). destruct we, (wd_phase w0); try done; try case_match; try done. by intros [= <- <-]. }
  all: destruct (ms_shutdown s) eqn:Hsh; cbn [loop_step drain_step] in Hstep; try done.
  - simplify_eq. split; [done|]. exists (watchdog_stop w). cbn. rewrite lookup_fmap, E. naive_solver.
  - destruct (negb _); simplify_eq; [split; [done|]; exists w; naive_solver|]. unfold handleLease in Hstep.
    destruct (if _ && _ then _ else _) as [s1 acts1] eqn:E1. destruct (ensureManager _ s1) as [s2 acts2] eqn:E2. simplify_eq.
    apply ensure_watchdogs in E2 as [-> Ha2]. rewrite !omap_app, Ha2. cbn.
    destruct (_ && _); [|simplify_eq; split; [done|]; exists w; naive_solver].
    destruct (ms_watchdogs s !! deployment_of lid) as [w0|] eqn:E0; simplify_eq; (split; [done|]); exists w; [naive_solver|].
    cbn. rewrite lookup_insert_ne by congruence. naive_solver.
  - simplify_eq. unfold to_manager. split; [by case_match|]. exists w. naive_solver.
  - simplify_eq. unfold to_manager. split; [by case_match|]. exists w. naive_solver.
  - simplify_eq. unfold to_manager. split; [by repeat case_match|]. exists w. naive_solver.
  - destruct (ensureManager _ _) as [s1 acts1] eqn:E1. simplify_eq. apply ensure_watchdogs in E1 as [-> Ha1].
    rewrite omap_app, Ha1. split; [done|]. rewrite (remove_lookup _ _ _ _ E). eexists. split; [done|]. case_decide; cbn; naive_solver.
  - case_bool_decide; [|done]. simplify_eq. split; [done|]. exists w. split_and!; try done; [by left|]. intros _ Hp. by apply (Hs eq_refl d w).
  - case_bool_decide; [|done]. simplify_eq. split; [done|].
    rewrite (remove_lookup _ _ (MkMService _ (ms_watchdogs s) (ms_shutdown s)) w) by done. eexists. split; [done|]. case_decide; cbn; naive_solver.
  - case_bool_decide; [|done]. destruct (_ !! d'); [|done]. cbn in Hstep. case_bool_decide; [|done]. simplify_eq. split; [done|].
    exists w. cbn. rewrite lookup_delete_ne by congruence. naive_solver.
  - destruct (_ !! d'); [|done]. cbn in Hstep. case_bool_decide; [|done]. simplify_eq. split; [done|].
    exists w. cbn. rewrite lookup_delete_ne by congruence. naive_solver.
Qed.

Lemma own_watched lid es ids w we w' c :
  watched lid es ids w → watchdog_run (sc_Provider cfg) w we = Some (w', c) →
  watched lid (es ++ [SWatchdog (deployment_of lid) we]) (ids ++ option_list c) w'.
Proof.
  intros [Hl Hc Hw Hst [Ha1 Ha2]] Hr. pose proof (watchdog_run_lease _ _ _ _ _ Hr) as [Hl' Hp'].
  assert (∀ x, x ∈ (es ++ [SWatchdog (deployment_of lid) we])%list ↔ x ∈ es ∨ x = SWatchdog (deployment_of lid) we) as Hin by set_solver.
  assert (Exists (stops (deployment_of lid)) es → Exists (stops (deployment_of lid)) (es ++ [SWatchdog (deployment_of lid) we])) as Hex
    by (rewrite Exists_app; auto).
  unfold watchdog_run in Hr. rewrite Hl in *.
  destruct we, (wd_phase w) eqn:Ep; try done; try (destruct (wd_stop w) eqn:Es; [|done]); simplify_eq; cbn.
  all: constructor; rewrite ?app_nil_r; try setoid_rewrite Hin; cbn; try done.
  all: try (destruct (proj1 Hw eq_refl) as [Hnt Hns]).
  all: try (repeat case_decide; naive_solver).
Qed.

Lemma other_watched lid es ids w e w' :
  watched lid es ids w → (∀ we, e ≠ SWatchdog (deployment_of lid) we) →
  wd_leaseID w' = wd_leaseID w → wd_phase w' = wd_phase w →
  (wd_stop w' = true → wd_stop w = true ∨ stops (deployment_of lid) e) → (wd_stop w = true → wd_stop w' = true) →
  (stops (deployment_of lid) e → wd_phase w = Waiting → wd_stop w' = true) → watched lid (es ++ [e]) ids w'.
Proof.
  intros [Hl Hc Hw Hst [Ha1 Ha2]] Hne El Ep Hs1 Hs2 Hs3.
  assert (∀ we, SWatchdog (deployment_of lid) we ∈ (es ++ [e])%list ↔ SWatchdog (deployment_of lid) we ∈ es) as Hin by set_solver.
  constructor; rewrite ?El, ?Ep, ?Hin; try done; [subst ids; repeat case_decide; naive_solver|].
  rewrite Exists_app, Exists_cons, Exists_nil. naive_solver.
Qed.

(** The watchdog of a lease: while it lives it closes the bid of
    its lease exactly once when its time runs out before it has heard that it
    should stop, and otherwise not at all; it is asked to stop exactly by a
    manifest for the deployment, by the end of the manager or by a shutdown,
    and then, as long as its time has not run out, it can end at once. *)
Theorem watchdog_outcome (es es' : list sevent) (acts acts1 acts' : list saction) (s s1 s2 : service) (lid : LeaseID)
  (Hrun : sruns cfg es acts s) (Hsh : ms_shutdown s = false) (Htimeout : (0 < sc_ManifestTimeout cfg)%Z)
  (Hown : lid_Provider lid = sc_Provider cfg) (Hnone : ms_watchdogs s !! deployment_of lid = None)
  (Hwon : sstep cfg s (SLeaseWon lid) = Some (s1, acts1)) (Hrest : runs (sstep cfg) s1 es' acts' s2)
  (Hlive : SWatchdogDone (deployment_of lid) ∉ es') :
  ∃ w, ms_watchdogs s2 !! deployment_of lid = Some w ∧ watched lid es' (omap (closed_on (deployment_of lid)) acts') w.
Proof.
  pose proof (sstep_tidy _ _ _ _ (sruns_tidy _ _ _ Hrun) Hwon) as Ht. clear Hrun.
  assert (ms_watchdogs s1 !! deployment_of lid = Some (newWatchdog lid (sc_BroadcastTimeout cfg))) as Hstart.
  { cbn in Hwon. rewrite Hsh, (proj2 (String.eqb_eq _ _) Hown) in Hwon. cbn in Hwon. unfold handleLease in Hwon.
    rewrite (proj2 (Z.ltb_lt _ _) Htimeout), Hnone in Hwon. cbn in Hwon. destruct (ensureManager _ _) as [s3 acts3] eqn:E. simplify_eq.
    apply ensure_watchdogs in E as [-> _]. cbn. by rewrite lookup_insert_eq. }
  clear Hwon Hsh Hnone.
  cut (tidy s2 ∧ (SWatchdogDone (deployment_of lid) ∉ es' → ∃ w, ms_watchdogs s2 !! deployment_of lid = Some w ∧
    watched lid es' (omap (closed_on (deployment_of lid)) acts') w)); [by intros [_ Hall]; apply Hall|].
  clear Hlive. revert es' acts' s2 Hrest. apply runs_invariant.
  { split; [done|]. intros _. eexists. split; [exact Hstart|].
    constructor; cbn; [done|by rewrite decide_False by set_solver|set_solver|set_solver|]. rewrite Exists_nil. set_solver. }
  intros es1 acts2 s3 e s4 acts3 [Ht3 IH] Hstep. split; [by eapply sstep_tidy|]. intros Hlive. destruct IH as (w & Ew & Hw); [set_solver|].
  rewrite omap_app.
  assert (Decision (∃ we, e = SWatchdog (deployment_of lid) we)) as [(we & ->)|Hne].
  { destruct e as [| | | | | | | |d we]; try (right; naive_solver). destruct (decide (d = deployment_of lid)) as [->|]; [left; eauto|right; naive_solver]. }
  - cbn in Hstep. rewrite Ew in Hstep. cbn in Hstep. destruct (watchdog_run _ w we) as [[w' c]|] eqn:Er; [|done]. cbn in Hstep. simplify_eq.
    exists w'. cbn. rewrite lookup_insert_eq. split; [done|].
    assert (omap (closed_on (deployment_of lid)) (match c with Some id => [CloseBid id] | None => [] end) = option_list c) as ->.
    { destruct c as [id|]; [|done]. cbn. rewrite decide_True; [done|]. destruct Hw as [Hl _ _ _ _]. revert Er. unfold watchdog_run. rewrite Hl.
      destruct we, (wd_phase w); try done; try case_match; try done. by intros [= <- <-]. }
    by eapply own_watched.
  - destruct (other_step _ _ _ _ _ _ Ht3 Hstep Ew) as (-> & w' & Ew' & ? & ? & ? & ? & ?); [set_solver|naive_solver|].
    exists w'. split; [done|]. rewrite app_nil_r. eapply other_watched; eauto.
Qed.

End sound.

(** * Runs of the manifest service

    Two leases of one deployment, used by the witnesses, and two runs in which
    the watchdogs do not do what they are meant to. *)

Definition deployment_path (d : DeploymentID) : string := ServiceSample.bits (encode d).

Lemma deployment_path_inj : Inj (=) (=) deployment_path.
Proof. intros d d' E%ServiceSample.bits_inj. by apply (inj encode). Qed.

#[export] Instance sample_deployment_paths : DeploymentPaths :=
  {| DeploymentPath := deployment_path; DeploymentPath_inj := deployment_path_inj |}.

Definition cfg : sconfig := MkSConfig 300 0 "p".
Definition lid1 : LeaseID := MkLeaseID "alice" 1 1 1 "p".
Definition lid2 : LeaseID := MkLeaseID "alice" 1 2 1 "p".
Definition d1 : DeploymentID := MkDID "alice" 1.

Definition after (s : service) (es : list sevent) : service :=
  match exec (sstep cfg) s es with Some (_, s) => s | None => s end.
Definition done_by (s : service) (es : list sevent) : list saction :=
  match exec (sstep cfg) s es with Some (acts, _) => acts | None => [] end.

Definition won : service := after newService [SLeaseWon lid1].

Lemma nothing_runs : sruns cfg [] [] newService.
Proof. constructor. Qed.

Lemma won_step : sstep cfg newService (SLeaseWon lid1) = Some (won, [NewWatchdog lid1; NewManager d1; ToManager d1 (MsgLease lid1)]).
Proof. vm_compute. reflexivity. Qed.

Lemma expiry_runs : runs (sstep cfg) won [SWatchdog d1 WTimeout] [CloseBid lid1] (after won [SWatchdog d1 WTimeout]).
Proof. apply exec_runs. vm_compute. reflexivity. Qed.

Lemma watchdog_outcome_witness :
  ∃ w, ms_watchdogs (after won [SWatchdog d1 WTimeout]) !! d1 = Some w ∧ watched cfg lid1 [SWatchdog d1 WTimeout] [lid1] w.
Proof.
  apply (watchdog_outcome cfg [] [SWatchdog d1 WTimeout] [] [NewWatchdog lid1; NewManager d1; ToManager d1 (MsgLease lid1)]
    [CloseBid lid1] newService won (after won [SWatchdog d1 WTimeout]) lid1 nothing_runs eq_refl).
  - reflexivity.
  - reflexivity.
  - reflexivity.
  - exact won_step.
  - exact expiry_runs.
  - intros Hin. apply list_elem_of_singleton in Hin. discriminate Hin.
Defined.

(** A shutdown while the watchdog waits: it hears of it, reports, and the
    manager has reported before. *)
Definition shut : service := after newService [SLeaseWon lid1; SShutdown].

Lemma shut_runs : sruns cfg [SLeaseWon lid1; SShutdown] (done_by newService [SLeaseWon lid1; SShutdown]) shut.
Proof. apply exec_runs. vm_compute. reflexivity. Qed.

Definition last_steps : list sevent := [SManagerDone d1; SWatchdog d1 WStop; SWatchdogDone d1].

Lemma last_runs : runs (sstep cfg) shut last_steps [] (after shut last_steps).
Proof. apply exec_runs. vm_compute. reflexivity. Qed.

Lemma manifest_service_drains_witness :
  (List.length last_steps + work (after shut last_steps) ≤ work shut)%nat.
Proof.
  exact (proj1 (manifest_service_drains cfg _ _ _ _ _ _ shut_runs eq_refl last_runs)).
Defined.

(** The comment of [handleLease] says that a watchdog is made when there is
    none and a manifest has not been received yet; the second condition is not
    tested.  A second lease of a deployment whose manifest is there, and which
    its manager publishes for the new lease, still gets a watchdog: unless the
    tenant submits the manifest once more, it closes the bid of that lease. *)
Theorem served_lease_closed :
  done_by newService [SLeaseWon lid1; SSubmit d1 0; SWatchdog d1 WStop; SWatchdogDone d1; SLeaseWon lid2; SWatchdog d1 WTimeout] =
  [NewWatchdog lid1; NewManager d1; ToManager d1 (MsgLease lid1); ToManager d1 (MsgManifest 0);
   NewWatchdog lid2; ToManager d1 (MsgLease lid2); CloseBid lid2].
Proof. vm_compute. reflexivity. Qed.

(** Watchdogs are kept by deployment: a second lease that is won while the
    watchdog of the first is there has none, and when no manifest arrives only
    the bid of the first lease is closed. *)
Theorem second_lease_unwatched :
  done_by newService [SLeaseWon lid1; SLeaseWon lid2; SWatchdog d1 WTimeout; SWatchdog d1 WResult; SWatchdogDone d1] =
  [NewWatchdog lid1; NewManager d1; ToManager d1 (MsgLease lid1); ToManager d1 (MsgLease lid2); CloseBid lid1].
Proof. vm_compute. reflexivity. Qed.
