(* ===== verification/BalanceChecker.v ===== *)
(** * The balance checker

    [balance_checker.go]: watches the escrow account of every deployed lease,
    withdraws what has been earned when the account runs out or a period is
    over, and reports leases the chain has closed.  Timers are objects of their
    own (a lease that is added again gets a new state while the old timer
    runs on), and a check that has been started answers later; both are part of
    the state.  Times are in nanoseconds. *)
From Stdlib Require Import Ascii String.
From S2P Require Import Prelude Traces GoStrings LeaseNames.

Open Scope string_scope.

Definition minute : Z := 60 * 1000000000.

(** [leaseState]: the timer it holds, and when the next withdrawal is due
    ([None] is the zero time). *)
Record leaseState := MkLeaseState { ls_tm : option nat; ls_withdrawAt : option Z }.

Inductive respState := respStateNextCheck | respStateOutOfFunds | respStateScheduledWithdraw.
#[export] Instance respState_eq_dec : EqDecision respState.
Proof. solve_decision. Defined.

(** ** One check *)

Inductive chain_lease_state := ChainActive | ChainReclaiming | ChainClosed | ChainInsufficientFunds | ChainOther.

(** [util.LeaseCalcBalanceRemain] and [util.LeaseCalcBlocksRemain]: the blocks
    that are paid for, from the balance, the height, the height of the last
    settlement and the price per block.  Amounts are in units of the smallest
    decimal; [None] is the empty decimal. *)
Class Escrow := LeaseCalcBlocks : option Z → Z → Z → Z → Z.

(** The answers of the node: whether it is catching up and its height; the
    lease; the funds of the escrow account and when it was settled; the prices
    of the deployment's active and reclaiming leases. *)
Record escrow_answers := MkEscrowAnswers {
  ea_sync : result string (bool * Z);
  ea_lease : result string (LeaseID * chain_lease_state * Z);
  ea_deployment : result string (list (string * Z) * Z);
  ea_active : result string (list Z);
  ea_reclaiming : result string (list Z)
}.

(** [leaseCheckResponse]; [rp_closed] is the reason of a closed lease. *)
Record response := MkResponse {
  rp_checkAfter : Z; rp_state : respState; rp_err : option string; rp_closed : option Z }.

Record bconfig := MkBConfig { bcf_WithdrawalPeriod : Z; bcf_CheckInterval : Z }.

(** [netutil.AverageBlockTime], and the denomination of the funds. *)
Class Chain := { AverageBlockTime : Z; DenomUact : string }.

Section checker.
Context `{Escrow} `{Chain}.
Variable cfg : bconfig.

Definition uact_balance (funds : list (string * Z)) : option Z :=
  snd <$> List.find (λ f, f.1 =? DenomUact) funds.

(** The delay of the next check for the blocks that are left. *)
Definition check_after (blocksRemain : Z) : Z :=
  let blocksPerCheckInterval := (bcf_CheckInterval cfg ÷ AverageBlockTime)%Z in
  let blocksRemain := if (blocksPerCheckInterval <? blocksRemain)%Z then blocksPerCheckInterval else blocksRemain in
  i64 (blocksRemain * AverageBlockTime).

Definition doEscrowCheck (lid : LeaseID) (scheduledWithdraw : bool) (an : escrow_answers) : response :=
  let state := if scheduledWithdraw then respStateScheduledWithdraw else respStateNextCheck in
  let failed e := MkResponse 0 state (Some e) None in
  match ea_sync an with
  | Err e => failed e
  | Ok (true, _) => failed "node is not synced"
  | Ok (false, height) =>
  match ea_lease an with
  | Err e => failed e
  | Ok (id, st, reason) =>
  if negb (bool_decide (id = lid)) then failed "lease query returned a different ID"
  else match st with
  | ChainClosed | ChainInsufficientFunds => MkResponse 0 state None (Some reason)
  | ChainOther => failed "unexpected lease state"
  | ChainActive | ChainReclaiming =>
  match ea_deployment an with
  | Err e => failed e
  | Ok (funds, settledAt) =>
  match ea_active an with
  | Err e => failed e
  | Ok active =>
  match ea_reclaiming an with
  | Err e => failed e
  | Ok reclaiming =>
      let totalLeaseAmount := (foldr Z.add 0 active + foldr Z.add 0 reclaiming)%Z in
      let blocksRemain := LeaseCalcBlocks (uact_balance funds) height settledAt totalLeaseAmount in
      if (blocksRemain <=? 0)%Z then MkResponse (10 * minute) respStateOutOfFunds None None
      else MkResponse (check_after blocksRemain) state None None
  end end end end end end.

(** ** The loop *)

(** [bc_timers]: the timers that run, by the object, each with the lease and
    the flag of its check; [bc_checks]: the checks that have been started. *)
Record checker := MkChecker {
  bc_leases : gmap LeaseID leaseState;
  bc_timers : gmap nat (LeaseID * bool);
  bc_checks : list (LeaseID * bool);
  bc_next : nat
}.

Inductive kaction :=
| KTimer (lid : LeaseID) (period : Z) (scheduledWithdraw : bool)
| KCheck (lid : LeaseID)
| KPublishClosed (lid : LeaseID) (reason : Z)
| KWithdraw (lid : LeaseID).

Inductive kevent :=
| KAdd (lid : LeaseID) (isNew : bool) (now checkIn : Z)
| KRemove (lid : LeaseID)
| KFire (t : nat)
| KResponse (lid : LeaseID) (scheduledWithdraw : bool) (an : escrow_answers) (now : Z) (published : bool).

Definition newBalanceChecker : checker := MkChecker ∅ ∅ [] 0.

(** [lState.tm = bc.timerFunc(...)]. *)
Definition timerFunc (lid : LeaseID) (scheduledWithdraw : bool) (st : leaseState) (s : checker) : checker :=
  MkChecker (<[lid := MkLeaseState (Some (bc_next s)) (ls_withdrawAt st)]> (bc_leases s))
    (<[bc_next s := (lid, scheduledWithdraw)]> (bc_timers s)) (bc_checks s) (S (bc_next s)).

Definition runEscrowCheck (lid : LeaseID) (scheduledWithdraw : bool) (s : checker) : checker :=
  MkChecker (bc_leases s) (bc_timers s) (bc_checks s ++ [(lid, scheduledWithdraw)])%list (bc_next s).

Definition next_withdrawal (now : Z) : option Z :=
  if (0 <? bcf_WithdrawalPeriod cfg)%Z then Some (now + bcf_WithdrawalPeriod cfg)%Z else None.

Definition on_add (lid : LeaseID) (isNew : bool) (now checkIn : Z) (s : checker) : checker * list kaction :=
  let st := MkLeaseState None (next_withdrawal now) in
  let s := MkChecker (<[lid := st]> (bc_leases s)) (bc_timers s) (bc_checks s) (bc_next s) in
  if negb isNew then (timerFunc lid false st s, [KTimer lid checkIn false])
  else (runEscrowCheck lid false s, [KCheck lid]).

Definition removeLease (lid : LeaseID) (s : checker) : checker :=
  match bc_leases s !! lid with
  | None => s
  | Some st =>
      MkChecker (delete lid (bc_leases s)) (match ls_tm st with Some t => delete t (bc_timers s) | None => bc_timers s end)
        (bc_checks s) (bc_next s)
  end.

(** The last part of the arm, when there was no error. *)
Definition reschedule (lid : LeaseID) (res : response) (now : Z) (st : leaseState) (s : checker) : checker * list kaction :=
  let withdraw := negb (bool_decide (rp_state res = respStateNextCheck)) in
  let st := if withdraw && (0 <? bcf_WithdrawalPeriod cfg)%Z then MkLeaseState (ls_tm st) (next_withdrawal now) else st in
  let '(timerPeriod, scheduledWithdraw) :=
    match ls_withdrawAt st with
    | Some at_ =>
        if negb withdraw then
          let withdrawIn := (at_ - now)%Z in
          if (withdrawIn <=? rp_checkAfter res)%Z then (withdrawIn, true) else (rp_checkAfter res, false)
        else (rp_checkAfter res, false)
    | None => (rp_checkAfter res, false)
    end in
  (timerFunc lid scheduledWithdraw st s,
   KTimer lid timerPeriod scheduledWithdraw :: (if withdraw then [KWithdraw lid] else []))%list.

Definition on_response (lid : LeaseID) (res : response) (now : Z) (published : bool) (s : checker) : checker * list kaction :=
  match bc_leases s !! lid with
  | None => (s, [])
  | Some st =>
      let retry s acts :=
        let again := bool_decide (rp_state res = respStateScheduledWithdraw) in
        (timerFunc lid again st s, acts ++ [KTimer lid minute again])%list in
      match rp_closed res with
      | Some reason =>
          if published then (removeLease lid s, [KPublishClosed lid reason]) else retry s [KPublishClosed lid reason]
      | None =>
          match rp_err res with
          | Some _ => retry s []
          | None => reschedule lid res now st s
          end
      end
  end.

(** Take one of the checks that have been started. *)
Fixpoint take_check (c : LeaseID * bool) (l : list (LeaseID * bool)) : option (list (LeaseID * bool)) :=
  match l with
  | [] => None
  | x :: l => if bool_decide (x = c) then Some l else l' ← take_check c l; Some (x :: l')
  end.

Definition kstep (s : checker) (e : kevent) : option (checker * list kaction) :=
  match e with
  | KAdd lid isNew now checkIn => Some (on_add lid isNew now checkIn s)
  | KRemove lid => Some (removeLease lid s, [])
  | KFire t =>
      '(lid, scheduled) ← bc_timers s !! t;
      Some (MkChecker (bc_leases s) (delete t (bc_timers s)) (bc_checks s ++ [(lid, scheduled)])%list (bc_next s), [])
  | KResponse lid scheduled an now published =>
      checks ← take_check (lid, scheduled) (bc_checks s);
      Some (on_response lid (doEscrowCheck lid scheduled an) now published
              (MkChecker (bc_leases s) (bc_timers s) checks (bc_next s)))
  end.

Definition kruns : list kevent → list kaction → checker → Prop := runs kstep newBalanceChecker.

End checker.

(** ** No lease is forgotten *)

Section sound.
Context `{Escrow} `{Chain}.
Variable cfg : bconfig.

(** A lease is watched when its own timer runs or a check of it is under way. *)
Definition watched (lid : LeaseID) (st : leaseState) (s : checker) : Prop :=
  (∃ t sw, ls_tm st = Some t ∧ bc_timers s !! t = Some (lid, sw)) ∨ (∃ sw, (lid, sw) ∈ bc_checks s).

(** Timers are numbered in the order they are started, and the timer of a
    lease is not the timer of another. *)
Definition own_timer (lid : LeaseID) (st : leaseState) (s : checker) : Prop :=
  ∀ t, ls_tm st = Some t → (t < bc_next s)%nat ∧ ∀ c, bc_timers s !! t = Some c → c.1 = lid.

Definition watching (s : checker) : Prop :=
  map_Forall (λ lid st, watched lid st s ∧ own_timer lid st s) (bc_leases s)
  ∧ map_Forall (λ t _, (t < bc_next s)%nat) (bc_timers s).

(** Setting a new timer keeps every other lease watched. *)
Lemma timerFunc_watching lid sw st s leases :
  bc_leases s = leases →
  map_Forall (λ l st, l ≠ lid → watched l st s ∧ own_timer l st s) leases →
  map_Forall (λ t _, (t < bc_next s)%nat) (bc_timers s) →
  watching (timerFunc lid sw st s).
Proof.
  intros <- Hl Ht. split.
  - intros l st' Hst. cbn in Hst. apply lookup_insert_Some in Hst as [[<- <-]|[Hne Hst]].
    + split; [left; exists (bc_next s), sw; split; [done|]; cbn; by rewrite lookup_insert_eq|].
      intros t [= <-]. cbn. split; [lia|]. rewrite lookup_insert_eq. by intros c [= <-].
    + destruct (Hl _ _ Hst) as [Hw Ho]; [done|]. split.
      * destruct Hw as [(t & sw' & Et & El)|Hc]; [left; exists t, sw'|by right]. split; [done|].
        cbn. rewrite lookup_insert_ne; [done|]. destruct (Ho _ Et). lia.
      * intros t Et. destruct (Ho _ Et) as [Hlt Hown]. cbn. split; [lia|]. intros c. rewrite lookup_insert_ne by lia. apply Hown.
  - intros t c Hc. cbn in *. apply lookup_insert_Some in Hc as [[<- _]|[_ Hc]]; [lia|]. specialize (Ht _ _ Hc). cbn in Ht. lia.
Qed.

(** Removing a lease stops its own timer and leaves the others alone. *)
Lemma removeLease_watching lid s :
  map_Forall (λ l st, (l ≠ lid → watched l st s) ∧ own_timer l st s) (bc_leases s) →
  map_Forall (λ t _, (t < bc_next s)%nat) (bc_timers s) →
  watching (removeLease lid s).
Proof.
  intros Hl Ht. unfold removeLease. destruct (bc_leases s !! lid) as [st|] eqn:El.
  2:{ split; [|done]. intros l st' Hst. destruct (Hl _ _ Hst) as [Hw Ho]. split; [apply Hw; congruence|done]. }
  assert (match ls_tm st with Some t => delete t (bc_timers s) | None => bc_timers s end ⊆ bc_timers s) as Hsub.
  { destruct (ls_tm st); [apply delete_subseteq|done]. }
  split; cbn.
  - intros l st' Hst. apply lookup_delete_Some in Hst as [Hne Hst]. destruct (Hl _ _ Hst) as [Hw Ho]. specialize (Hw (not_eq_sym Hne)).
    split; [|intros t Et; destruct (Ho _ Et) as [? Hc]; split; [done|]; intros c E; apply Hc; by eapply lookup_weaken].
    destruct Hw as [(t & sw & Et & Etm)|Hc]; [left; exists t, sw|by right]. split; [done|]. cbn.
    destruct (ls_tm st) as [t'|] eqn:E'; [|done]. rewrite lookup_delete_ne; [done|]. intros ->.
    destruct (Hl _ _ El) as [_ Ho']. destruct (Ho' _ E') as [_ Hown]. by apply Hown in Etm.
  - intros t c E. eapply Ht. by eapply lookup_weaken.
Qed.

Lemma take_check_elem c l l' x : take_check c l = Some l' → x ∈ l → x = c ∨ x ∈ l'.
Proof.
  revert l'. induction l as [|y l IH]; intros l'; cbn; [done|]. case_bool_decide as Hy.
  - intros [= <-] [->|?]%elem_of_cons; auto.
  - destruct (take_check c l) as [l1|]; cbn; [|done]. intros [= <-] [->|Hx]%elem_of_cons; [right; set_solver|].
    destruct (IH _ eq_refl Hx); [by left|right; set_solver].
Qed.

(** More checks under way, fewer timers of other leases. *)
Lemma watched_more lid st s s' :
  bc_timers s = bc_timers s' → (∀ sw, (lid, sw) ∈ bc_checks s → (lid, sw) ∈ bc_checks s') → watched lid st s → watched lid st s'.
Proof. intros E Hc [(t & sw & Et & El)|[sw Hs]]; [left; exists t, sw; by rewrite <- E|right; eauto]. Qed.

Lemma on_add_watching lid isNew now checkIn s s' acts :
  watching s → on_add cfg lid isNew now checkIn s = (s', acts) → watching s'.
Proof.
  intros [Hl Ht]. unfold on_add. set (st := MkLeaseState None _). set (s1 := MkChecker _ _ _ _).
  assert (map_Forall (λ l st, l ≠ lid → watched l st s1 ∧ own_timer l st s1) (bc_leases s1)) as Hs1.
  { intros l st' Hst Hne. cbn in Hst. apply lookup_insert_Some in Hst as [[<- _]|[_ Hst]]; [done|]. exact (Hl _ _ Hst). }
  destruct isNew; cbn [negb]; intros [= <- <-]; [|by eapply timerFunc_watching].
  split; [|exact Ht]. intros l st' Hst. destruct (decide (l = lid)) as [->|Hne].
  - cbn in Hst. rewrite lookup_insert_eq in Hst. injection Hst as <-.
    split; [|by intros t]. right. exists false. cbn. set_solver.
  - destruct (Hs1 _ _ Hst Hne) as [Hw Ho]. split; [|exact Ho]. eapply watched_more, Hw; [done|]. cbn. set_solver.
Qed.

Lemma on_response_watching lid res now published s s' acts :
  map_Forall (λ l st, (l ≠ lid → watched l st s) ∧ own_timer l st s) (bc_leases s) →
  map_Forall (λ t _, (t < bc_next s)%nat) (bc_timers s) →
  on_response cfg lid res now published s = (s', acts) → watching s'.
Proof.
  intros Hl Ht. unfold on_response, reschedule.
  assert (map_Forall (λ l st, l ≠ lid → watched l st s ∧ own_timer l st s) (bc_leases s)) as Hs1.
  { intros l st Hst Hne. destruct (Hl _ _ Hst); auto. }
  destruct (bc_leases s !! lid) as [st|] eqn:El.
  2:{ intros [= <- <-]. split; [|done]. intros l st Hst. apply Hs1; [done|congruence]. }
  destruct (rp_closed res) as [reason|]; [destruct published|destruct (rp_err res)]; intros Hs;
    [simplify_eq; by apply removeLease_watching|simplify_eq; by eapply timerFunc_watching..|].
  repeat case_match; simplify_eq; by eapply timerFunc_watching.
Qed.

Lemma kstep_watching s e s' acts : watching s → kstep cfg s e = Some (s', acts) → watching s'.
Proof.
  intros Hw. assert (watching s) as [Hl Ht] by done. destruct e as [lid isNew now checkIn|lid|t|lid sw an now published]; cbn.
  - intros [= Hs]. by eapply on_add_watching.
  - intros [= <- <-]. apply removeLease_watching; [|done]. intros l st Hst. destruct (Hl _ _ Hst); auto.
  - destruct (bc_timers s !! t) as [[lid sw]|] eqn:Et; cbn; [|done]. intros [= <- <-]. split; cbn.
    + intros l st Hst. destruct (Hl _ _ Hst) as [Hwa Ho]. split.
      * destruct Hwa as [(t' & sw' & Et' & El)|[sw' Hc]]; [|right; exists sw'; cbn; set_solver].
        destruct (decide (t' = t)) as [->|Hne]; [right; exists sw; cbn; rewrite El in Et; simplify_eq; set_solver|].
        left. exists t', sw'. cbn. by rewrite lookup_delete_ne.
      * intros t' Et'. destruct (Ho _ Et') as [? Hc]. split; [done|]. cbn. intros c [_ E]%lookup_delete_Some. by apply Hc.
    + intros t' c [_ E]%lookup_delete_Some. by eapply Ht.
  - destruct (take_check (lid, sw) (bc_checks s)) as [checks|] eqn:Ec; cbn; [|done]. intros [= Hs].
    eapply on_response_watching, Hs; [|done]. intros l st Hst. destruct (Hl _ _ Hst) as [Hwa Ho]. split; [|exact Ho].
    intros Hne. eapply watched_more, Hwa; [done|]. intros sw' Hc. cbn.
    destruct (take_check_elem _ _ _ _ Ec Hc); naive_solver.
Qed.

(** The leases that are watched, from the events: added, and since then neither
    removed nor reported as closed. *)
Fixpoint monitors (lid : LeaseID) (es : list kevent) (m : bool) : bool :=
  match es with
  | [] => m
  | e :: es =>
      monitors lid es
        match e with
        | KAdd l _ _ _ => m || bool_decide (l = lid)
        | KRemove l => m && negb (bool_decide (l = lid))
        | KFire _ => m
        | KResponse l sw an _ published =>
            m && negb (bool_decide (l = lid) && published && bool_decide (is_Some (rp_closed (doEscrowCheck cfg l sw an))))
        end
  end.

Lemma monitors_snoc lid es e m : monitors lid (es ++ [e])%list m = monitors lid [e] (monitors lid es m).
Proof. revert m. induction es as [|e' es IH]; intros m; [done|]. cbn [app]. exact (IH _). Qed.

Lemma removeLease_dom lid l s :
  is_Some (bc_leases (removeLease l s) !! lid) ↔ is_Some (bc_leases s !! lid) ∧ l ≠ lid.
Proof.
  unfold removeLease. destruct (decide (l = lid)) as [->|Hne].
  - destruct (bc_leases s !! lid) as [st|] eqn:E; cbn; [rewrite lookup_delete_eq|rewrite E]; split; intros H'; try by destruct H'; naive_solver.
  - destruct (bc_leases s !! l); cbn; [rewrite lookup_delete_ne by done|]; naive_solver.
Qed.

Lemma timerFunc_dom lid l sw st s :
  is_Some (bc_leases (timerFunc l sw st s) !! lid) ↔ is_Some (bc_leases s !! lid) ∨ l = lid.
Proof.
  cbn. destruct (decide (l = lid)) as [->|Hne]; [rewrite lookup_insert_eq|rewrite lookup_insert_ne by done]; naive_solver.
Qed.

Lemma kstep_monitors lid s e s' acts m :
  (is_Some (bc_leases s !! lid) ↔ m = true) → kstep cfg s e = Some (s', acts) →
  is_Some (bc_leases s' !! lid) ↔ monitors lid [e] m = true.
Proof.
  intros Hm. destruct e as [l isNew now checkIn|l|t|l sw an now published]; cbn [kstep monitors].
  - intros [= Hs]. unfold on_add in Hs. rewrite orb_true_iff, bool_decide_eq_true, <- Hm.
    destruct isNew; cbn [negb] in Hs; injection Hs as <- <-; rewrite ?timerFunc_dom; cbn; rewrite lookup_insert_is_Some'; naive_solver.
  - intros [= <- <-]. rewrite removeLease_dom, andb_true_iff, negb_true_iff, bool_decide_eq_false. naive_solver.
  - destruct (bc_timers s !! t) as [[l sw]|]; cbn; [|done]. by intros [= <- <-].
  - destruct (take_check _ _) as [checks|]; cbn; [|done]. intros [= Hs]. unfold on_response in Hs.
    set (res := doEscrowCheck _ _ _ _) in *. set (s1 := MkChecker _ _ _ _) in *.
    change (is_Some (bc_leases s1 !! lid) ↔ m = true) in Hm. clearbody s1. destruct (bc_leases s1 !! l) as [st|] eqn:El.
    2:{ injection Hs as <- <-. rewrite Hm. destruct m; cbn; [|done]. case_bool_decide as Hl; [subst l|done].
        destruct Hm as [_ Hm]. destruct (Hm eq_refl); congruence. }
    assert (∀ sw st', is_Some (bc_leases (timerFunc l sw st' s1) !! lid) ↔ m = true) as Hkeep.
    { intros. rewrite timerFunc_dom. split; [|naive_solver]. intros [?|<-]; naive_solver. }
    destruct (rp_closed res) as [reason|] eqn:Ec.
    + destruct published; simplify_eq; [|by rewrite andb_false_r, andb_true_r].
      rewrite removeLease_dom, andb_true_r. case_bool_decide; cbn; rewrite ?andb_false_r, ?andb_true_r; naive_solver.
    + rewrite (bool_decide_eq_false_2 _ is_Some_None). rewrite !andb_false_r, andb_true_r.
      unfold reschedule in Hs. repeat case_match; simplify_eq; apply Hkeep.
Qed.

(** Claim C33.  No lease is forgotten: the monitored leases are those that were
    added and since then neither removed nor reported as closed, and for each
    of them at any time its timer runs or a check of its funds is under way,
    whatever the node answered and however often it failed. *)
Theorem no_lease_forgotten (es : list kevent) (acts : list kaction) (s : checker) (Hrun : kruns cfg es acts s) :
  (∀ lid, is_Some (bc_leases s !! lid) ↔ monitors lid es false = true)
  ∧ map_Forall (λ lid st, watched lid st s) (bc_leases s).
Proof.
  assert ((∀ lid, is_Some (bc_leases s !! lid) ↔ monitors lid es false = true) ∧ watching s) as [Hm [Hw _]].
  2:{ split; [done|]. intros lid st Hst. by destruct (Hw _ _ Hst). }
  revert es acts s Hrun. apply runs_invariant.
  - split; [|split; apply map_Forall_empty]. intros lid. cbn. rewrite lookup_empty. split; [by intros []|done].
  - intros es acts s e s' acts1 [Hm Hw] Hs. split; [|by eapply kstep_watching].
    intros lid. rewrite monitors_snoc. by eapply kstep_monitors.
Qed.

(** ** What a check does *)

Lemma check_after_bounds blocks :
  (0 < AverageBlockTime)%Z → (0 ≤ bcf_CheckInterval cfg < 2 ^ 63)%Z → (0 < blocks)%Z →
  (0 ≤ check_after cfg blocks ≤ bcf_CheckInterval cfg)%Z ∧ (check_after cfg blocks ≤ blocks * AverageBlockTime)%Z.
Proof.
  intros Ha Hc Hb. unfold check_after.
  assert (AverageBlockTime * (bcf_CheckInterval cfg ÷ AverageBlockTime) ≤ bcf_CheckInterval cfg)%Z by (apply Z.mul_quot_le; lia).
  assert (0 ≤ bcf_CheckInterval cfg ÷ AverageBlockTime)%Z by (apply Z.quot_pos; lia).
  set (q := (bcf_CheckInterval cfg ÷ AverageBlockTime)%Z) in *. clearbody q.
  destruct (Z.ltb_spec q blocks); rewrite i64_id by nia; nia.
Qed.

(** The blocks the account still pays for, when every answer is there and the
    lease is not closed. *)
Definition paid_blocks (lid : LeaseID) (an : escrow_answers) (blocks : Z) : Prop :=
  ∃ height st reason funds settledAt active reclaiming,
    ea_sync an = Ok (false, height) ∧ ea_lease an = Ok (lid, st, reason) ∧ (st = ChainActive ∨ st = ChainReclaiming)
    ∧ ea_deployment an = Ok (funds, settledAt) ∧ ea_active an = Ok active ∧ ea_reclaiming an = Ok reclaiming
    ∧ blocks = LeaseCalcBlocks (uact_balance funds) height settledAt (foldr Z.add 0 active + foldr Z.add 0 reclaiming)%Z.

(** What [doEscrowCheck] answers. *)
Lemma doEscrowCheck_cases lid sw an :
  let res := doEscrowCheck cfg lid sw an in
  let state := if sw then respStateScheduledWithdraw else respStateNextCheck in
  (∃ blocks, paid_blocks lid an blocks ∧
     res = if (blocks <=? 0)%Z then MkResponse (10 * minute) respStateOutOfFunds None None
           else MkResponse (check_after cfg blocks) state None None)
  ∨ (rp_state res = state ∧ (is_Some (rp_closed res) ∨ is_Some (rp_err res)) ∧ ∀ blocks, ¬ paid_blocks lid an blocks).
Proof.
  unfold doEscrowCheck, paid_blocks. destruct an as [sync lease dep act rec]; cbn.
  destruct sync as [[[] height]|e]; [right; naive_solver| |right; naive_solver].
  destruct lease as [[[id st] reason]|e]; [|right; naive_solver]. case_bool_decide; subst; cbn; [|right; naive_solver].
  destruct st; try (right; naive_solver);
    (destruct dep as [[funds settled]|]; [|right; naive_solver]); (destruct act; [|right; naive_solver]);
    (destruct rec; [|right; naive_solver]); left; eexists; (split; [by repeat eexists; eauto|done]).
Qed.

Lemma paid_blocks_unique lid an b1 b2 : paid_blocks lid an b1 → paid_blocks lid an b2 → b1 = b2.
Proof. destruct an. intros (?&?&?&?&?&?&?&?&?&?&?&?&?&->) (?&?&?&?&?&?&?&?&?&?&?&?&?&->). cbn in *. by simplify_eq. Qed.

(** The next check, and the withdrawal. *)
Lemma reschedule_acts lid res now st s s' acts :
  reschedule cfg lid res now st s = (s', acts) →
  ∃ period again,
    acts = KTimer lid period again :: (if bool_decide (rp_state res = respStateNextCheck) then [] else [KWithdraw lid])
    ∧ (period ≤ rp_checkAfter res)%Z
    ∧ (rp_state res = respStateNextCheck → ∀ at_, ls_withdrawAt st = Some at_ →
         (now + period ≤ at_)%Z ∧ (again = true ↔ now + period = at_)%Z).
Proof.
  unfold reschedule. case_bool_decide as Hst; cbn [negb andb].
  - destruct (ls_withdrawAt st) as [at_|]; [destruct (Z.leb_spec (at_ - now) (rp_checkAfter res))|]; intros [= _ <-];
      do 2 eexists; (split_and!; [done|lia|]); intros _ ? [= <-]; split; try lia; split; intros; (done || lia).
  - intros Hs. repeat case_match; simplify_eq; do 2 eexists; (split_and!; [done|lia|done]).
Qed.

(** What a check does for a monitored lease: the funds are withdrawn
    exactly when the node answered everything, the lease is not closed, and the
    account is out of funds or the withdrawal was scheduled; and the next check
    is set no later than ten minutes or the configured interval from now, no
    later than the paid blocks last, and no later than the next scheduled
    withdrawal unless the funds are withdrawn now. *)
Theorem funds_withdrawn_iff (lid : LeaseID) (sw : bool) (an : escrow_answers) (now : Z) (published : bool)
  (s s' : checker) (acts : list kaction) (st : leaseState)
  (Hblock : (0 < AverageBlockTime)%Z) (Hint : (0 ≤ bcf_CheckInterval cfg < 2 ^ 63)%Z)
  (Hlease : bc_leases s !! lid = Some st)
  (Hstep : kstep cfg s (KResponse lid sw an now published) = Some (s', acts)) :
  (KWithdraw lid ∈ acts ↔ ∃ blocks, paid_blocks lid an blocks ∧ (blocks ≤ 0 ∨ sw = true)%Z)
  ∧ (∀ period again, KTimer lid period again ∈ acts →
       (period ≤ Z.max (10 * minute) (bcf_CheckInterval cfg))%Z
       ∧ (∀ blocks, paid_blocks lid an blocks → (0 < blocks)%Z →
            (period ≤ blocks * AverageBlockTime)%Z
            ∧ (sw = false → ∀ at_, ls_withdrawAt st = Some at_ →
                 (now + period ≤ at_)%Z ∧ (again = true ↔ now + period = at_)%Z))).
Proof.
  cbn in Hstep. destruct (take_check _ _) as [checks|]; [|done]. cbn in Hstep. injection Hstep as Hs.
  unfold on_response in Hs. cbn [bc_leases] in Hs. rewrite Hlease in Hs.
  destruct (doEscrowCheck_cases lid sw an) as [(blocks & Hp & Hres)|(Hst & Hno & Hnp)].
  - pose proof (λ b Hb, paid_blocks_unique _ _ b _ Hb Hp) as Hu. rewrite Hres in Hs.
    destruct (Z.leb_spec blocks 0) as [Hle|Hlt]; apply reschedule_acts in Hs as (p & again & -> & Hper & Hat); cbn in *.
    + split; [|intros ?? [[= -> ->]|?]%elem_of_cons; [|set_solver]]; [|split; [lia|]; intros b Hb; rewrite (Hu b Hb); lia].
      split; [by eauto|]. intros _. set_solver.
    + destruct (check_after_bounds blocks Hblock Hint Hlt) as [Hb1 Hb2]. split.
      * destruct sw; cbn; split; [by eauto|set_solver|set_solver|]. intros (b & Hb & [?|?]); [|done]. rewrite (Hu b Hb) in *. lia.
      * intros p' again' Hin. assert (p' = p ∧ again' = again) as [-> ->] by (destruct sw; set_solver).
        split; [lia|]. intros b Hb. rewrite (Hu b Hb). intros _. split; [lia|]. intros ->. by apply Hat.
  - assert (KWithdraw lid ∉ acts ∧ ∀ p w, KTimer lid p w ∈ acts → p = minute) as [Hw Ht].
    { destruct (rp_closed _); [destruct published|destruct (rp_err _); [|by destruct Hno as [[? ?]|[? ?]]]]; simplify_eq; set_solver. }
    split; [naive_solver|]. intros p w Hin. rewrite (Ht _ _ Hin). split; [unfold minute; lia|]. naive_solver.
Qed.

End sound.

(** ** A run *)

Module CheckerSample.

Definition escrow_sample : Escrow := λ balance height settledAt amount,
  if (amount =? 0)%Z then 0%Z else ((default 0%Z balance - (height - settledAt) * amount) ÷ amount)%Z.
Definition chain_sample : Chain := {| AverageBlockTime := 6 * 1000000000; DenomUact := "uact" |}.
#[local] Existing Instance escrow_sample.
#[local] Existing Instance chain_sample.

(** A day between withdrawals, an hour between checks. *)
Definition cfg : bconfig := MkBConfig (1440 * minute) (60 * minute).
Definition lid1 : LeaseID := MkLeaseID "alice" 1 1 1 "p".
Definition lid2 : LeaseID := MkLeaseID "bob" 7 1 1 "p".

Definition answers (lid : LeaseID) (st : chain_lease_state) (funds height : Z) : escrow_answers :=
  MkEscrowAnswers (Ok (false, height)) (Ok (lid, st, 0%Z)) (Ok ([("uakt", 5%Z); ("uact", funds)], 100%Z)) (Ok [10%Z]) (Ok []).
Definition unreachable : escrow_answers := MkEscrowAnswers (Err "no connection") (Err "") (Err "") (Err "") (Err "").

(** The first lease is new and its account runs dry after a failed check; the second was there before the
    start and is found closed. *)
Definition dry : list kevent :=
  [KAdd lid1 true 0 0; KAdd lid2 false 0 7; KResponse lid1 false unreachable 1 true; KFire 1; KFire 0;
   KResponse lid2 false (answers lid2 ChainClosed 0 110) 2 true].
Definition before : checker := match exec (kstep cfg) newBalanceChecker dry with Some (_, s) => s | None => newBalanceChecker end.

Lemma dry_runs : ∃ acts, kruns cfg dry acts before.
Proof. eexists. apply exec_runs. vm_compute. reflexivity. Qed.

Definition last : kevent := KResponse lid1 false (answers lid1 ChainActive 100 110) (70 * minute) true.
Definition after : checker := match kstep cfg before last with Some (s, _) => s | None => before end.

Lemma last_step : kstep cfg before last = Some (after, [KTimer lid1 (10 * minute) false; KWithdraw lid1]).
Proof. vm_compute. reflexivity. Qed.

End CheckerSample.

Lemma no_lease_forgotten_witness :
  map_Forall (λ lid st, watched lid st CheckerSample.before) (bc_leases CheckerSample.before)
  ∧ bc_leases CheckerSample.before !! CheckerSample.lid2 = None
  ∧ bc_checks CheckerSample.before = [(CheckerSample.lid1, false)].
Proof.
  destruct CheckerSample.dry_runs as [acts Hrun].
  split_and!; [exact (proj2 (no_lease_forgotten CheckerSample.cfg CheckerSample.dry acts _ Hrun))|by vm_compute..].
Defined.

Lemma funds_withdrawn_iff_witness :
  ∃ blocks, paid_blocks (H := CheckerSample.escrow_sample) (H0 := CheckerSample.chain_sample) CheckerSample.lid1
    (CheckerSample.answers CheckerSample.lid1 ChainActive 100 110) blocks ∧ (blocks ≤ 0 ∨ false = true)%Z.
Proof.
  apply (proj1 (funds_withdrawn_iff (H := CheckerSample.escrow_sample) (H0 := CheckerSample.chain_sample) CheckerSample.cfg
    CheckerSample.lid1 false (CheckerSample.answers CheckerSample.lid1 ChainActive 100 110) (70 * minute) true
    CheckerSample.before CheckerSample.after [KTimer CheckerSample.lid1 (10 * minute) false; KWithdraw CheckerSample.lid1]
    (MkLeaseState (Some 1%nat) (Some (1440 * minute)%Z)) eq_refl ltac:(split; [by vm_compute|reflexivity]) ltac:(by vm_compute) CheckerSample.last_step)).
  rewrite !elem_of_cons. auto.
Defined.
