(* ===== verification/OperatorCommon.v ===== *)
(** * What the operators share

    [operator/common]: the list of leases whose events fail ([ignore_list.go])
    and the results that are prepared for the web endpoints
    ([prepared_data.go], [operator_server.go]). *)
From Stdlib Require Import Ascii String.
From S2P Require Import Prelude Traces GoStrings LeaseNames.

Open Scope string_scope.

(** ** The ignore list *)

Record IgnoreListConfig := MkIgnoreConfig { ilc_FailureLimit : Z; ilc_EntryLimit : Z; ilc_AgeLimit : Z }.

Record ignoreListEntry := MkIgnoreEntry {
  ie_failureCount : Z; ie_failedAt : Z; ie_lastError : string; ie_extra : gset string }.

(** [ignoreList.entries]; the configuration is an argument. *)
Notation ignoreList := (gmap LeaseID ignoreListEntry).

Definition NewIgnoreList : ignoreList := ∅.

(** The entry a map without the key answers: zero values. *)
Definition zero_entry : ignoreListEntry := MkIgnoreEntry 0 0 "" ∅.

Definition AddError (k : LeaseID) (failure : string) (extra : list string) (now : Z) (il : ignoreList) : ignoreList :=
  let entry := default zero_entry (il !! k) in
  <[k := MkIgnoreEntry (u64 (ie_failureCount entry + 1)) now failure (ie_extra entry ∪ list_to_set extra)]> il.

Definition IsFlagged (cfg : IgnoreListConfig) (k : LeaseID) (il : ignoreList) : bool :=
  match il !! k with
  | None => false
  | Some entry => (ilc_FailureLimit cfg <=? ie_failureCount entry)%Z
  end.

Definition delete_all (ks : list LeaseID) (il : ignoreList) : ignoreList := foldl (λ m k, delete k m) il ks.

Section prune.
Context `{MapOrder}.

(** The first loop: the entries that are older than the limit. *)
Definition expired_entries (cfg : IgnoreListConfig) (now : Z) (il : ignoreList) : list LeaseID :=
  fst <$> List.filter (λ e, (ilc_AgeLimit cfg <? now - ie_failedAt e.2)%Z) (map_order _ (map_to_list il)).

(** The second: keys in the order of the map until few enough are left. *)
Fixpoint excess_entries (limit size : Z) (keys : list LeaseID) (toDelete : list LeaseID) : list LeaseID :=
  match keys with
  | [] => toDelete
  | k :: keys =>
      if (size - Z.of_nat (List.length toDelete) <=? limit)%Z then toDelete
      else excess_entries limit size keys (toDelete ++ [k])%list
  end.

Definition Prune (cfg : IgnoreListConfig) (now : Z) (il : ignoreList) : ignoreList * bool :=
  let limit := i64 (ilc_EntryLimit cfg) in
  if (limit <? Z.of_nat (size il))%Z then
    let toDelete := expired_entries cfg now il in
    let il1 := delete_all toDelete il in
    let toDelete' := excess_entries limit (Z.of_nat (size il1)) (fst <$> map_order _ (map_to_list il1)) [] in
    (delete_all toDelete' il1, negb (bool_decide (toDelete = [] ∧ toDelete' = [])))
  else (il, false).

(** ** Proofs *)

Lemma delete_all_lookup ks il k : delete_all ks il !! k = if bool_decide (k ∈ ks) then None else il !! k.
Proof.
  revert il. induction ks as [|k' ks IH]; intros il; [done|].
  change (delete_all (k' :: ks) il) with (delete_all ks (delete k' il)). rewrite IH. destruct (decide (k = k')) as [->|Hne].
  - rewrite lookup_delete_eq, (bool_decide_eq_true_2 (k' ∈ k' :: ks)) by set_solver. by case_bool_decide.
  - rewrite lookup_delete_ne by done. rewrite !bool_decide_decide. repeat case_decide; set_solver.
Qed.

Lemma delete_all_sub ks il : delete_all ks il ⊆ il.
Proof. apply map_subseteq_spec. intros k e. rewrite delete_all_lookup. by case_bool_decide. Qed.

Lemma delete_all_size ks il :
  NoDup ks → (∀ k, k ∈ ks → is_Some (il !! k)) → (size (delete_all ks il) + List.length ks)%nat = size il.
Proof.
  revert il. induction ks as [|k ks IH]; intros il Hnd Hin; [cbn; lia|]. apply NoDup_cons in Hnd as [Hk Hnd].
  change (delete_all (k :: ks) il) with (delete_all ks (delete k il)). cbn [List.length].
  destruct (Hin k) as [e He]; [set_solver|]. pose proof (map_size_delete_Some k il ltac:(by eexists)) as Hs.
  assert (size il ≠ 0%nat) by (intros E%map_size_empty_inv; by rewrite E, lookup_empty in He).
  specialize (IH (delete k il) Hnd). rewrite Nat.add_succ_r, IH; [lia|].
  intros k' Hk'. rewrite lookup_delete_ne by (intros ->; done). apply Hin. set_solver.
Qed.

Lemma order_keys (il : ignoreList) :
  NoDup (fst <$> map_order _ (map_to_list il)) ∧ (∀ k, k ∈ fst <$> map_order _ (map_to_list il) ↔ is_Some (il !! k))
  ∧ List.length (fst <$> map_order _ (map_to_list il)) = size il.
Proof.
  pose proof (map_order_perm _ (map_to_list il)) as Hp. split_and!.
  - rewrite Hp. apply NoDup_fst_map_to_list.
  - intros k. rewrite Hp, list_elem_of_fmap. split.
    + intros ([k' e] & -> & He%elem_of_map_to_list). by eexists.
    + intros [e He%elem_of_map_to_list]. by exists (k, e).
  - rewrite Hp. by rewrite length_fmap, length_map_to_list.
Qed.

Lemma excess_entries_spec limit size keys acc :
  ∃ n, excess_entries limit size keys acc = (acc ++ take n keys)%list
    ∧ n = Z.to_nat (Z.min (Z.of_nat (List.length keys)) (size - Z.of_nat (List.length acc) - limit)).
Proof.
  revert acc. induction keys as [|k keys IH]; intros acc; cbn [excess_entries].
  - eexists. split; [|done]. by rewrite take_nil, app_nil_r.
  - destruct (Z.leb_spec (size - Z.of_nat (List.length acc)) limit).
    + exists 0%nat. rewrite take_0, app_nil_r. split; [done|]. cbn. lia.
    + destruct (IH (acc ++ [k])%list) as (n & -> & Hn). exists (S n). cbn [take]. rewrite <- app_assoc. split; [done|].
      rewrite length_app in Hn. cbn in Hn |- *. lia.
Qed.

(** The entries of the list that are not too old. *)
Definition young (cfg : IgnoreListConfig) (now : Z) (il : ignoreList) : ignoreList :=
  filter (λ e, (now - ie_failedAt e.2 ≤ ilc_AgeLimit cfg)%Z) il.

Lemma expired_young cfg now il : delete_all (expired_entries cfg now il) il = young cfg now il.
Proof.
  apply map_eq. intros k. rewrite delete_all_lookup. unfold expired_entries, young.
  assert (k ∈ fst <$> List.filter (λ e, (ilc_AgeLimit cfg <? now - ie_failedAt e.2)%Z) (map_order _ (map_to_list il))
    ↔ ∃ e, il !! k = Some e ∧ (ilc_AgeLimit cfg < now - ie_failedAt e)%Z) as Hk.
  { rewrite list_elem_of_fmap. setoid_rewrite list_elem_of_In. setoid_rewrite filter_In. setoid_rewrite <- list_elem_of_In.
    setoid_rewrite (map_order_perm _ (map_to_list il)). setoid_rewrite Z.ltb_lt. split.
    - intros ([k' e] & -> & He%elem_of_map_to_list & Hlt). eauto.
    - intros (e & He%elem_of_map_to_list & Hlt). by exists (k, e). }
  case_bool_decide as Hb.
  - apply Hk in Hb as (e & He & Hlt). symmetry. apply map_lookup_filter_None. right. intros e' He' Hle. cbn in Hle. simplify_eq. lia.
  - destruct (il !! k) as [e|] eqn:He.
    + symmetry. apply map_lookup_filter_Some. split; [done|]. cbn. destruct (decide (now - ie_failedAt e ≤ ilc_AgeLimit cfg)%Z); [done|].
      destruct Hb. apply Hk. exists e. split; [done|lia].
    + symmetry. apply map_lookup_filter_None. by left.
Qed.

(** Pruning keeps the list bounded and throws away no more than it
    must: a list within the limit is left alone; a longer one loses its expired
    entries and then, in the order of the map, exactly as many others as are
    over the limit; the entries that stay are unchanged, and the result says
    whether any was removed. *)
Theorem prune_bounded (cfg : IgnoreListConfig) (now : Z) (il il' : ignoreList) (deleted : bool)
  (Hlimit : (0 ≤ ilc_EntryLimit cfg < 2 ^ 63)%Z) (Hprune : Prune cfg now il = (il', deleted)) :
  (Z.of_nat (size il') ≤ ilc_EntryLimit cfg)%Z
  ∧ (Z.of_nat (size il) ≤ ilc_EntryLimit cfg → il' = il)%Z
  ∧ (ilc_EntryLimit cfg < Z.of_nat (size il) →
       il' ⊆ young cfg now il ∧ Z.of_nat (size il') = Z.min (ilc_EntryLimit cfg) (Z.of_nat (size (young cfg now il))))%Z
  ∧ (deleted = true ↔ il' ≠ il).
Proof.
  unfold Prune in Hprune. rewrite i64_id in Hprune by lia.
  destruct (Z.ltb_spec (ilc_EntryLimit cfg) (Z.of_nat (size il))) as [Hlt|Hle]; simplify_eq; [|split_and!; (done || lia)].
  rewrite expired_young. set (il1 := young cfg now il). destruct (order_keys il1) as (Hnd & Hin & Hlen).
  destruct (excess_entries_spec (ilc_EntryLimit cfg) (Z.of_nat (size il1)) (fst <$> map_order _ (map_to_list il1)) []) as (n & -> & Hn).
  rewrite Hlen in Hn. cbn [List.length app] in *. set (ks := take n _).
  assert (size (delete_all ks il1) + List.length ks = size il1)%nat as Hsz.
  { apply delete_all_size; [eapply sublist_NoDup; [exact Hnd|apply sublist_take]|]. intros k Hk. apply Hin. apply elem_of_take in Hk as (i & Hi & _). by eapply list_elem_of_lookup_2. }
  assert (List.length ks = n) as Hks by (unfold ks; rewrite length_take, Hlen; lia).
  assert (delete_all ks il1 ⊆ il1) as Hsub by apply delete_all_sub.
  split_and!; [lia|lia|split; [done|lia]|].
  assert (delete_all ks il1 ≠ il) as Hne by (intros E; rewrite E in *; lia).
  split; [done|]. intros _. apply negb_true_iff, bool_decide_eq_false. intros [He Hk]. apply Hne.
  rewrite Hk. cbn. unfold il1. by rewrite <- expired_young, He.
Qed.

End prune.

Lemma AddError_count k failure extra now il :
  ie_failureCount <$> AddError k failure extra now il !! k = Some (u64 (default 0%Z (ie_failureCount <$> il !! k) + 1)).
Proof. unfold AddError. rewrite lookup_insert_eq. cbn. by destruct (il !! k). Qed.

Lemma AddError_other k k' failure extra now il : k ≠ k' → AddError k failure extra now il !! k' = il !! k'.
Proof. intros Hne. unfold AddError. by rewrite lookup_insert_ne. Qed.

(** ** Prepared results *)

Definition preparedResultByteSizeLimit : N := 8388608.

Record preparedResult := MkPrepared { pr_needsPrepare : bool; pr_preparedAt : Z; pr_data : string }.

Definition pr_Flag (pr : preparedResult) : preparedResult := MkPrepared true (pr_preparedAt pr) (pr_data pr).

Definition pr_Set (data : string) (now : Z) (pr : preparedResult) : preparedResult :=
  MkPrepared false now (if (preparedResultByteSizeLimit <? strlen data)%N then str_take (N.to_nat preparedResultByteSizeLimit) data else data).

(** [needsPrepare] is true only until the empty result is set. *)
Definition newPreparedResult (now : Z) : preparedResult := pr_Set "" now (MkPrepared true 0 "").

(** Status and body of [servePreparedResult]. *)
Definition servePreparedResult (pr : preparedResult) : Z * string :=
  if (strlen (pr_data pr) =? 0)%N then (204%Z, "") else (200%Z, pr_data pr).

(** [operatorHTTP.results]: the result of each path; what prepares it is an
    argument of [PrepareAll]. *)
Notation operatorHTTP := (gmap string preparedResult).

Definition AddPreparedEndpoint (path : string) (now : Z) (op : operatorHTTP) : outcome operatorHTTP :=
  match op !! path with Some _ => Panic | None => Ret (<[path := newPreparedResult now]> op) end.

Definition flag_endpoint (path : string) (op : operatorHTTP) : operatorHTTP := alter pr_Flag path op.

Section prepare.
Context `{MapOrder}.

(** [prepare path] is the data the endpoint's function encodes, or its error. *)
Fixpoint prepare_results (prepare : string → result string string) (now : Z) (l : list (string * preparedResult)) (op : operatorHTTP)
  : operatorHTTP * option string :=
  match l with
  | [] => (op, None)
  | (path, pr) :: l =>
      if negb (pr_needsPrepare pr) then prepare_results prepare now l op
      else match prepare path with
      | Ok data => prepare_results prepare now l (<[path := pr_Set data now pr]> op)
      | Err e => (op, Some e)
      end
  end.

Definition PrepareAll (prepare : string → result string string) (now : Z) (op : operatorHTTP) : operatorHTTP * option string :=
  prepare_results prepare now (map_order _ (map_to_list op)) op.

Lemma prepare_results_spec prepare now l op op' :
  NoDup (fst <$> l) → (∀ path pr, (path, pr) ∈ l → op !! path = Some pr) → prepare_results prepare now l op = (op', None) →
  ∀ path, op' !! path =
    if bool_decide (path ∈ fst <$> l) then
      pr ← op !! path;
      if pr_needsPrepare pr then match prepare path with Ok data => Some (pr_Set data now pr) | Err _ => None end else Some pr
    else op !! path.
Proof.
  revert op. induction l as [|[p pr] l IH]; intros op Hnd Hin; cbn [prepare_results]; [by intros [= ->]|].
  apply NoDup_cons in Hnd as [Hp Hnd]. cbn in Hp, Hnd.
  assert (∀ path pr0, (path, pr0) ∈ l → path ≠ p) as Hne.
  { intros path pr0 Hl ->. apply Hp, list_elem_of_fmap. by exists (p, pr0). }
  assert (op !! p = Some pr) as Hop by (apply Hin; set_solver).
  destruct (pr_needsPrepare pr) eqn:En; cbn [negb].
  - destruct (prepare p) as [data|e] eqn:Ep; [|done]. intros Hs path. apply IH with (path := path) in Hs; [rewrite Hs|done|].
    2:{ intros path' pr0 Hl. rewrite lookup_insert_ne by (apply not_eq_sym; by eapply Hne). apply Hin. set_solver. }
    destruct (decide (path = p)) as [->|Hpp].
    + rewrite bool_decide_eq_false_2 by done. rewrite lookup_insert_eq, bool_decide_eq_true_2 by set_solver. rewrite Hop. cbn. by rewrite En, Ep.
    + rewrite lookup_insert_ne by done. rewrite !bool_decide_decide. cbn. repeat case_decide; set_solver.
  - intros Hs path. apply IH with (path := path) in Hs; [rewrite Hs|done|intros; apply Hin; set_solver].
    destruct (decide (path = p)) as [->|Hpp].
    + rewrite bool_decide_eq_false_2 by done. rewrite bool_decide_eq_true_2 by set_solver. rewrite Hop. cbn. by rewrite En.
    + rewrite !bool_decide_decide. cbn. repeat case_decide; set_solver.
Qed.

(** When every function succeeds each flagged endpoint has its new data, none
    is flagged, and the others are as before. *)
Theorem prepared_all (prepare : string → result string string) (now : Z) (op op' : operatorHTTP) :
  PrepareAll prepare now op = (op', None) →
  ∀ path, op' !! path =
    pr ← op !! path;
    if pr_needsPrepare pr then match prepare path with Ok data => Some (pr_Set data now pr) | Err _ => None end else Some pr.
Proof.
  intros Hs path. pose proof (map_order_perm _ (map_to_list op)) as Hperm.
  apply prepare_results_spec with (path := path) in Hs; [rewrite Hs|rewrite Hperm; apply NoDup_fst_map_to_list|].
  2:{ intros p pr. rewrite Hperm. by intros ?%elem_of_map_to_list. }
  case_bool_decide as Hin; [done|]. destruct (op !! path) as [pr|] eqn:E; [|done]. destruct Hin. rewrite Hperm.
  apply list_elem_of_fmap. exists (path, pr). split; [done|]. by apply elem_of_map_to_list.
Qed.

End prepare.

Module IgnoreSample.

#[local] Existing Instance listed_order.

Definition lid (n : Z) : LeaseID := MkLeaseID "alice" n 1 1 "p".
Definition cfg : IgnoreListConfig := MkIgnoreConfig 3 1 100.
Definition failing : ignoreList :=
  AddError (lid 3) "not found" ["c.example"] 195 (AddError (lid 2) "not found" ["b.example"] 190 (AddError (lid 1) "not found" ["a.example"] 10 NewIgnoreList)).

End IgnoreSample.

Lemma prune_bounded_witness :
  (0 ≤ ilc_EntryLimit IgnoreSample.cfg < 2 ^ 63)%Z
  ∧ (Z.of_nat (size (Prune (H := listed_order) IgnoreSample.cfg 200 IgnoreSample.failing).1) ≤ 1)%Z
  ∧ size (young IgnoreSample.cfg 200 IgnoreSample.failing) = 2%nat.
Proof.
  split_and!; [done|done| |vm_compute; reflexivity].
  exact (proj1 (prune_bounded (H := listed_order) IgnoreSample.cfg 200 IgnoreSample.failing _ _
    ltac:(split; [done|reflexivity]) (surjective_pairing _))).
Defined.
