(* ===== verification/ProxyConfig.v ===== *)
(** * The proxy settings of an exposed hostname

    [ConnectToDeploymentDirective] and what the two ingress paths make of it:
    the annotations of an ingress ([operator/hostname/operator.go], the same
    text is in [cluster/kube/client_ingress.go]) and the nginx snippet of a
    gateway route ([cluster/kube/gateway/nginx_gateway.go]).  One nginx serves
    all tenants and refuses a configuration as a whole: the values come from
    the tenant, so that what is rendered must always be acceptable. *)
From Stdlib Require Import Ascii String.
From stdpp Require Import pretty.
From S2P Require Import Prelude GoStrings LeaseNames.

Open Scope string_scope.

(** [ConnectToDeploymentDirective]; the numbers are uint32, the port int32. *)
Record Directive := MkDirective {
  dr_Hostname : string; dr_LeaseID : LeaseID; dr_ServiceName : string; dr_ServicePort : Z;
  dr_ReadTimeout : Z; dr_SendTimeout : Z; dr_NextTimeout : Z; dr_MaxBodySize : Z; dr_NextTries : Z;
  dr_NextCases : list string; dr_ProxyBufferingDisable : bool; dr_ProxyBufferSize : Z; dr_ProxyBuffersNumber : Z;
  dr_ProxyBuffersSize : Z; dr_ProxyBusyBuffersSize : Z; dr_ProxyConnectTimeout : Z }.

(** ** Buffers of an ingress *)

Record IngressProxyBuffers := MkBuffers { ib_BufferSize : Z; ib_Number : Z; ib_BusySize : Z }.

Definition directive_IngressProxyBuffers (d : Directive) : IngressProxyBuffers :=
  let bufferSize := dr_ProxyBufferSize d in
  let out := MkBuffers (if (0 <? bufferSize)%Z then bufferSize else 0) 0 0 in
  let number := dr_ProxyBuffersNumber d in
  let busy := dr_ProxyBusyBuffersSize d in
  if ((number =? 0)%Z && (busy =? 0)%Z) || (bufferSize =? 0)%Z then out
  else
    let number := if (number =? 0)%Z then 4%Z else number in
    if (number <? 2)%Z then out
    else
      let busy := if (busy =? 0)%Z then u32 (2 * bufferSize) else busy in
      if (busy <? bufferSize)%Z || (u32 (u32 (number - 1) * bufferSize) <? busy)%Z then out
      else MkBuffers (ib_BufferSize out) number busy.

(** ** Annotations of an ingress *)

(** [int(math.Ceil(float64(ms) / 1000.0))]: the division is exact enough for
    every uint32 that its ceiling is that of the quotient. *)
Definition msToSec (ms : Z) : Z := ((ms + 999) / 1000)%Z.

Definition root : string := "nginx.ingress.kubernetes.io".

Definition is_status_digit (c : ascii) : bool := in_range 49 53 c.

(** The loop over the next cases: [v[0]] of an empty string panics. *)
Fixpoint next_cases_text (l : list string) : outcome string :=
  match l with
  | [] => Ret ""
  | EmptyString :: _ => Panic
  | (String c _ as v) :: l =>
      let! rest := next_cases_text l in
      Ret ((if is_status_digit c then "http_" else "") +:+ v +:+ (match l with [] => "" | _ => " " end) +:+ rest)
  end%go.

Definition set_if (b : bool) (k v : string) (m : gmap string string) : gmap string string := if b then <[k := v]> m else m.

Definition kubeNginxIngressAnnotations (d : Directive) : outcome (gmap string string) :=
  (let! cases := next_cases_text (dr_NextCases d) in
  let pb := directive_IngressProxyBuffers d in
  let m := <[root +:+ "/proxy-read-timeout" := FormatUint (msToSec (dr_ReadTimeout d))]>
          (<[root +:+ "/proxy-send-timeout" := FormatUint (msToSec (dr_SendTimeout d))]>
          (<[root +:+ "/proxy-next-upstream-tries" := FormatUint (dr_NextTries d)]>
          (<[root +:+ "/proxy-body-size" := FormatUint (dr_MaxBodySize d)]> ∅))) in
  let m := <[root +:+ "/proxy-next-upstream-timeout" := FormatUint (if (0 <? dr_NextTimeout d)%Z then msToSec (dr_NextTimeout d) else 0)]> m in
  let m := <[root +:+ "/proxy-next-upstream" := cases]> m in
  let m := set_if (dr_ProxyBufferingDisable d) (root +:+ "/proxy-buffering") "off" m in
  let m := set_if (0 <? ib_BufferSize pb)%Z (root +:+ "/proxy-buffer-size") (FormatUint (ib_BufferSize pb)) m in
  let m := set_if (0 <? ib_Number pb)%Z (root +:+ "/proxy-buffers-number") (FormatUint (ib_Number pb)) m in
  let m := set_if (0 <? ib_BusySize pb)%Z (root +:+ "/proxy-busy-buffers-size") (FormatUint (ib_BusySize pb)) m in
  Ret (set_if (0 <? dr_ProxyConnectTimeout d)%Z (root +:+ "/proxy-connect-timeout") (FormatUint (msToSec (dr_ProxyConnectTimeout d))) m))%go.

(** ** The snippet of a gateway route *)

Definition proxyBufferLines (d : Directive) : list string :=
  let bufferSize := dr_ProxyBufferSize d in
  let poolNum := dr_ProxyBuffersNumber d in
  let poolSize := dr_ProxyBuffersSize d in
  let busy := dr_ProxyBusyBuffersSize d in
  if xorb (poolNum =? 0)%Z (poolSize =? 0)%Z then []
  else if (bufferSize =? 0)%Z && (poolNum =? 0)%Z && (busy =? 0)%Z then []
  else
    let bufferSize := if (bufferSize =? 0)%Z then poolSize else bufferSize in
    let poolSize := if (poolSize =? 0)%Z then bufferSize else poolSize in
    let poolNum := if (poolNum =? 0)%Z then 8%Z else poolNum in
    if (bufferSize =? 0)%Z || (poolSize =? 0)%Z || (poolNum <? 2)%Z then []
    else
      let minBusy := if (bufferSize <? poolSize)%Z then poolSize else bufferSize in
      let maxBusy := u32 (u32 (poolNum - 1) * poolSize) in
      let busy := if (busy =? 0)%Z then minBusy else busy in
      if (busy <? minBusy)%Z || (maxBusy <? busy)%Z then []
      else ["proxy_buffer_size " +:+ FormatUint bufferSize +:+ ";";
            "proxy_buffers " +:+ FormatUint poolNum +:+ " " +:+ FormatUint poolSize +:+ ";";
            "proxy_busy_buffers_size " +:+ FormatUint busy +:+ ";"].

Definition validProxyNextUpstreamTokens : list string :=
  ["error"; "timeout"; "invalid_header"; "http_500"; "http_502"; "http_503"; "http_504"; "http_403"; "http_404"; "http_429";
   "non_idempotent"; "off"].

(** Whether [strconv.Atoi] succeeds: an optional sign and digits, within int64. *)
Definition Atoi_ok (s : string) : bool :=
  let '(limit, digits) :=
    match s with
    | String c t => if (c =? "-")%char then ((2 ^ 63)%Z, t) else if (c =? "+")%char then ((2 ^ 63 - 1)%Z, t) else ((2 ^ 63 - 1)%Z, s)
    | EmptyString => ((2 ^ 63 - 1)%Z, s)
    end in
  match ParseUint digits with (n, None) => (n <=? limit)%Z | _ => false end.

Definition normalizeNextCase (c : string) : option string :=
  let c := if Atoi_ok c then "http_" +:+ c else c in
  if bool_decide (c ∈ validProxyNextUpstreamTokens) then Some c else None.

(** [strings.Join(l, " ")]. *)
Definition join_space (l : list string) : string := String.concat " " l.

Definition when (b : bool) (l : string) : list string := if b then [l] else [].

(** The lines of the snippet. *)
Definition snippet_lines (d : Directive) : list string :=
  let cases := omap normalizeNextCase (dr_NextCases d) in
  (when (0 <? dr_MaxBodySize d)%Z ("client_max_body_size " +:+ FormatUint (dr_MaxBodySize d) +:+ ";")
   ++ when (0 <? dr_ReadTimeout d)%Z ("proxy_read_timeout " +:+ FormatUint (dr_ReadTimeout d) +:+ "ms;")
   ++ when (0 <? dr_SendTimeout d)%Z ("proxy_send_timeout " +:+ FormatUint (dr_SendTimeout d) +:+ "ms;")
   ++ when (0 <? dr_ProxyConnectTimeout d)%Z ("proxy_connect_timeout " +:+ FormatUint (msToSec (dr_ProxyConnectTimeout d)) +:+ "s;")
   ++ when (dr_ProxyBufferingDisable d) "proxy_buffering off;"
   ++ proxyBufferLines d
   ++ when (0 <? dr_NextTries d)%Z ("proxy_next_upstream_tries " +:+ FormatUint (dr_NextTries d) +:+ ";")
   ++ when (0 <? dr_NextTimeout d)%Z ("proxy_next_upstream_timeout " +:+ FormatUint (dr_NextTimeout d) +:+ "ms;")
   ++ when (negb (bool_decide (cases = []))) ("proxy_next_upstream " +:+ join_space cases +:+ ";"))%list.

Definition newline : string := String (byte_of 10) "".

Definition httpOptionsSnippet (d : Directive) : string := String.concat "" ((λ l, l +:+ newline) <$> snippet_lines d).

(** ** What nginx accepts *)

(** The values are uint32. *)
Definition uint32_fields (d : Directive) : Prop :=
  Forall (λ z, 0 ≤ z < 2 ^ 32)%Z [dr_ProxyBufferSize d; dr_ProxyBuffersNumber d; dr_ProxyBuffersSize d; dr_ProxyBusyBuffersSize d].

(** Wrapping around only lowers the bound. *)
Lemma u32_le z : (0 ≤ z → 0 ≤ u32 z ≤ z)%Z.
Proof. intros Hz. unfold u32. pose proof (Z.mod_pos_bound z (2 ^ 32) eq_refl). pose proof (Z.mod_le z (2 ^ 32) Hz eq_refl). lia. Qed.

Lemma u32_double z : (0 ≤ z < 2 ^ 32 → z ≤ u32 (2 * z) → u32 (2 * z) = 2 * z)%Z.
Proof.
  intros Hz Hle. destruct (decide (2 * z < 2 ^ 32)%Z); [apply u32_id; lia|]. exfalso.
  unfold u32 in Hle. rewrite <- (Z.mod_add _ (-1)), Z.mod_small in Hle by lia. lia.
Qed.

(** nginx's condition on a pool of [num] buffers of size [pool], a buffer of
    size [size] and [busy] bytes of busy buffers. *)
Definition nginx_accepts (size num pool busy : Z) : Prop :=
  (2 ≤ num ∧ 0 < size ∧ 0 < pool ∧ Z.max size pool ≤ busy ≤ (num - 1) * pool)%Z.

Lemma ingress_buffers_accepted d :
  uint32_fields d →
  let b := directive_IngressProxyBuffers d in
  (ib_Number b = 0 ∧ ib_BusySize b = 0)%Z ∨ nginx_accepts (ib_BufferSize b) (ib_Number b) (ib_BufferSize b) (ib_BusySize b).
Proof.
  intros Hd. unfold uint32_fields in Hd. rewrite !Forall_cons in Hd. destruct Hd as (Hs & Hn & Hp & Hb & _).
  unfold directive_IngressProxyBuffers. case_match eqn:E0; [by left|]. apply orb_false_iff in E0 as [_ Hz%Z.eqb_neq].
  set (num := if (dr_ProxyBuffersNumber d =? 0)%Z then 4%Z else _).
  assert (0 ≤ num < 2 ^ 32)%Z as Hnum by (unfold num; case_match; lia). clearbody num.
  destruct (Z.ltb_spec num 2); [by left|]. set (busy := if (_ =? 0)%Z then u32 _ else _).
  case_match eqn:E2; [by left|]. apply orb_false_iff in E2 as [E2%Z.ltb_ge E3%Z.ltb_ge]. right. cbn.
  rewrite (proj2 (Z.ltb_lt 0 _)) by lia. rewrite (u32_id (num - 1)) in E3 by lia.
  pose proof (u32_le ((num - 1) * dr_ProxyBufferSize d) ltac:(nia)). unfold nginx_accepts. lia.
Qed.

Lemma gateway_buffers_accepted d :
  uint32_fields d →
  proxyBufferLines d = [] ∨ ∃ size num pool busy, nginx_accepts size num pool busy ∧
    proxyBufferLines d = ["proxy_buffer_size " +:+ FormatUint size +:+ ";";
      "proxy_buffers " +:+ FormatUint num +:+ " " +:+ FormatUint pool +:+ ";";
      "proxy_busy_buffers_size " +:+ FormatUint busy +:+ ";"].
Proof.
  intros Hd. unfold uint32_fields in Hd. rewrite !Forall_cons in Hd. destruct Hd as (Hs & Hn & Hp & Hb & _).
  unfold proxyBufferLines. case_match; [by left|]. case_match; [by left|].
  set (size := if (dr_ProxyBufferSize d =? 0)%Z then _ else _). set (pool := if (dr_ProxyBuffersSize d =? 0)%Z then _ else _).
  set (num := if (dr_ProxyBuffersNumber d =? 0)%Z then _ else _).
  assert (0 ≤ size < 2 ^ 32 ∧ 0 ≤ pool < 2 ^ 32 ∧ 0 ≤ num < 2 ^ 32)%Z as (Hsize & Hpool & Hnum).
  { unfold pool, size, num. repeat case_match; lia. }
  clearbody size pool num. case_match eqn:E1; [by left|]. apply orb_false_iff in E1 as [[E1%Z.eqb_neq E2%Z.eqb_neq]%orb_false_iff E3%Z.ltb_ge].
  set (busy := if (_ =? 0)%Z then _ else _). case_match eqn:E4; [by left|].
  apply orb_false_iff in E4 as [E4%Z.ltb_ge E5%Z.ltb_ge]. right. exists size, num, pool, busy. split; [|done].
  rewrite (u32_id (num - 1)) in E5 by lia. pose proof (u32_le ((num - 1) * pool) ltac:(nia)). unfold nginx_accepts.
  revert E4. clearbody busy. destruct (Z.ltb_spec size pool); lia.
Qed.

(** Whatever sizes a tenant asks for, the buffers that are rendered
    are a set nginx accepts, in exact arithmetic although the limits are
    computed in 32 bits: for an ingress the number and the busy size are left
    out together or within nginx's limits, for a gateway route the three lines
    are left out together or within them.  A complete request within the
    limits is rendered as it is. *)
Theorem nginx_buffers_accepted (d : Directive) (Hd : uint32_fields d) :
  (let b := directive_IngressProxyBuffers d in
   (ib_Number b = 0 ∧ ib_BusySize b = 0)%Z ∨ nginx_accepts (ib_BufferSize b) (ib_Number b) (ib_BufferSize b) (ib_BusySize b))
  ∧ (proxyBufferLines d = [] ∨ ∃ size num pool busy, nginx_accepts size num pool busy ∧
       proxyBufferLines d = ["proxy_buffer_size " +:+ FormatUint size +:+ ";";
         "proxy_buffers " +:+ FormatUint num +:+ " " +:+ FormatUint pool +:+ ";";
         "proxy_busy_buffers_size " +:+ FormatUint busy +:+ ";"])
  ∧ (let size := dr_ProxyBufferSize d in let num := dr_ProxyBuffersNumber d in
     let pool := dr_ProxyBuffersSize d in let busy := dr_ProxyBusyBuffersSize d in
     (nginx_accepts size num size busy → (num - 1) * size < 2 ^ 32 → directive_IngressProxyBuffers d = MkBuffers size num busy)%Z
     ∧ (nginx_accepts size num pool busy → (num - 1) * pool < 2 ^ 32 →
          proxyBufferLines d = ["proxy_buffer_size " +:+ FormatUint size +:+ ";";
            "proxy_buffers " +:+ FormatUint num +:+ " " +:+ FormatUint pool +:+ ";";
            "proxy_busy_buffers_size " +:+ FormatUint busy +:+ ";"])%Z).
Proof.
  split; [by apply ingress_buffers_accepted|]. split; [by apply gateway_buffers_accepted|].
  unfold uint32_fields in Hd. rewrite !Forall_cons in Hd. destruct Hd as (Hs & Hn & Hp & Hb & _). split.
  - intros (H2 & H3 & _ & H4) Hov. unfold directive_IngressProxyBuffers.
    rewrite !(proj2 (Z.eqb_neq _ _)), (proj2 (Z.ltb_lt 0 _)) by lia. cbn. rewrite (proj2 (Z.ltb_ge _ 2)) by lia.
    rewrite (u32_id (_ - 1)), u32_id by nia. by rewrite !(proj2 (Z.ltb_ge _ _)) by lia.
  - intros (H2 & H3 & H3' & H4) Hov. unfold proxyBufferLines. rewrite !(proj2 (Z.eqb_neq _ _)) by lia. cbn.
    rewrite (proj2 (Z.ltb_ge _ 2)) by lia. rewrite (u32_id (_ - 1)), u32_id by nia.
    rewrite (proj2 (Z.ltb_ge _ (dr_ProxyBusyBuffersSize d))) by lia. rewrite orb_false_r.
    by rewrite (proj2 (Z.ltb_ge (dr_ProxyBusyBuffersSize d) _)) by (destruct (Z.ltb_spec (dr_ProxyBufferSize d) (dr_ProxyBuffersSize d)); lia).
Qed.

(** ** No injection *)

Definition safe_char (c : ascii) : bool := is_lower c || is_digit c || (c =? "_")%char || (c =? " ")%char.

(** One directive: its text holds no separator, brace, quote or line break. *)
Definition safe_line (l : string) : Prop := ∃ body, l = body +:+ ";" ∧ str_forall safe_char body = true.

Lemma FormatUint_safe z : str_forall safe_char (FormatUint z) = true.
Proof.
  eapply str_forall_impl, Itoa_digits. intros c Hc. unfold safe_char. by rewrite Hc, !orb_true_r.
Qed.

(** Between fixed text and a fixed end, safe text is safe. *)
Lemma safe_between pre mid suf :
  str_forall safe_char pre = true → str_forall safe_char mid = true → str_forall safe_char suf = true →
  safe_line (pre +:+ mid +:+ suf +:+ ";").
Proof.
  intros Hp Hm Hs. exists (pre +:+ mid +:+ suf). rewrite !str_forall_app, Hp, Hm, Hs. split; [|done]. by rewrite !str_app_assoc.
Qed.

Lemma safe_number pre z suf :
  str_forall safe_char pre = true → str_forall safe_char suf = true → safe_line (pre +:+ FormatUint z +:+ suf +:+ ";").
Proof. intros. apply safe_between; [done|apply FormatUint_safe|done]. Qed.

Lemma when_safe b l : safe_line l → Forall safe_line (when b l).
Proof. destruct b; by repeat constructor. Qed.

Lemma buffer_lines_safe size num pool busy :
  Forall safe_line ["proxy_buffer_size " +:+ FormatUint size +:+ ";"; "proxy_buffers " +:+ FormatUint num +:+ " " +:+ FormatUint pool +:+ ";";
    "proxy_busy_buffers_size " +:+ FormatUint busy +:+ ";"].
Proof.
  rewrite !Forall_cons. split_and!; [exact (safe_number "proxy_buffer_size " size "" eq_refl eq_refl)| |
    exact (safe_number "proxy_busy_buffers_size " busy "" eq_refl eq_refl)|constructor].
  exists ("proxy_buffers " +:+ FormatUint num +:+ " " +:+ FormatUint pool). split; [by rewrite !str_app_assoc|].
  by rewrite !str_forall_app, !FormatUint_safe.
Qed.

Lemma proxyBufferLines_safe d : Forall safe_line (proxyBufferLines d).
Proof.
  unfold proxyBufferLines. cbv zeta. repeat match goal with |- Forall _ (if ?b then [] else _) => destruct b; [constructor|] end.
  apply buffer_lines_safe.
Qed.

Lemma normalizeNextCase_valid c t : normalizeNextCase c = Some t → t ∈ validProxyNextUpstreamTokens.
Proof. unfold normalizeNextCase. case_match; [|done]. intros [= <-]. by eapply bool_decide_eq_true_1. Qed.

Lemma join_space_safe l : Forall (λ t, t ∈ validProxyNextUpstreamTokens) l → str_forall safe_char (join_space l) = true.
Proof.
  assert (∀ t, t ∈ validProxyNextUpstreamTokens → str_forall safe_char t = true) as Hv.
  { assert (Forall (λ t, str_forall safe_char t = true) validProxyNextUpstreamTokens) as Hall by (repeat constructor).
    intros t Ht. by rewrite Forall_forall in Hall; apply Hall. }
  unfold join_space. induction 1 as [|t l Ht Hl IH]; [done|]. destruct l as [|t' l]; [by apply Hv|].
  change (String.concat " " (t :: t' :: l)) with (t +:+ " " +:+ String.concat " " (t' :: l)).
  by rewrite !str_forall_app, (Hv t), IH.
Qed.

Lemma split_lines l :
  Forall safe_line l → Split (String.concat "" ((λ x, x +:+ newline) <$> l)) (byte_of 10) = (l ++ [""])%list.
Proof.
  induction 1 as [|x l (body & -> & Hb) Hl IH]; [done|].
  assert (∀ r, Split ((body +:+ ";") +:+ String (byte_of 10) r) (byte_of 10) = (body +:+ ";") :: Split r (byte_of 10)) as Hs.
  { intros r. unfold Split. rewrite split_sep; [by rewrite str_app_nil_l|]. rewrite str_forall_app. apply andb_true_iff. split; [|done].
    eapply str_forall_impl, Hb. intros c. apply implb_true_iff. revert c.
    apply (bytes_forall (λ c, implb (safe_char c) (negb (c =? byte_of 10)%char))). by vm_compute. }
  rewrite fmap_cons. destruct l as [|y l]; cbn [String.concat fmap list_fmap app] in *.
  - unfold newline. by rewrite Hs.
  - etransitivity; [|rewrite <- IH; exact (Hs _)]. f_equal. unfold newline. by rewrite !str_app_assoc.
Qed.

(** A tenant cannot inject configuration into the shared gateway:
    whatever numbers and next cases the manifest holds, the lines of the
    snippet are the directives meant, each a single directive ended by its only
    semicolon and made of lower case letters, digits, underscores and spaces;
    and every condition rendered for [proxy_next_upstream] is one nginx knows. *)
Theorem snippet_injection_free (d : Directive) :
  Split (httpOptionsSnippet d) (byte_of 10) = (snippet_lines d ++ [""])%list
  ∧ Forall safe_line (snippet_lines d)
  ∧ Forall (λ t, t ∈ validProxyNextUpstreamTokens) (omap normalizeNextCase (dr_NextCases d)).
Proof.
  assert (Forall (λ t, t ∈ validProxyNextUpstreamTokens) (omap normalizeNextCase (dr_NextCases d))) as Hv.
  { apply Forall_forall. intros t (c & _ & Hc)%list_elem_of_omap. by eapply normalizeNextCase_valid. }
  assert (Forall safe_line (snippet_lines d)) as Hl; [|split_and!; [by apply split_lines|done|done]].
  unfold snippet_lines. repeat apply Forall_app_2; try apply proxyBufferLines_safe; apply when_safe.
  all: first [by apply (safe_number _ _ "")|by apply (safe_number _ _ "ms")|by apply (safe_number _ _ "s")|idtac].
  - by exists "proxy_buffering off".
  - apply (safe_between _ _ ""); [done| |done]. by apply join_space_safe.
Qed.

Definition sample_directive : Directive :=
  MkDirective "app.example" (MkLeaseID "alice" 1 1 1 "p") "web" 80 60000 60000 0 1048576 3 ["error"; "500"; "503; }"] false 4096 8 4096 8192 1500.

Lemma sample_uint32 : uint32_fields sample_directive.
Proof. unfold uint32_fields, sample_directive. cbn. rewrite !Forall_cons. split_and!; [lia..|constructor]. Qed.

Lemma nginx_buffers_accepted_witness :
  uint32_fields sample_directive ∧ directive_IngressProxyBuffers sample_directive = MkBuffers 4096 8 8192
  ∧ omap normalizeNextCase (dr_NextCases sample_directive) = ["error"; "http_500"].
Proof.
  split_and!; [exact sample_uint32| |vm_compute; reflexivity].
  apply (proj1 (proj2 (proj2 (nginx_buffers_accepted sample_directive sample_uint32))));
    unfold nginx_accepts; cbn; lia.
Defined.
