(* ===== verification/HostRoutes.v ===== *)
(** * Objects that route a hostname to a deployment

    The labels of a lease ([builder.AppendLeaseLabels],
    [clientcommon.RecoverLeaseIDFromLabels]), the ingress of a hostname
    ([operator/hostname/operator.go]) and the HTTPRoute of the Gateway API
    ([cluster/kube/gateway/httproute.go], [nginx_gateway.go]).  A function that
    talks to the API server returns the calls it made, each with its answer,
    next to its result; the answers are arguments. *)
From Stdlib Require Import Ascii String.
From S2P Require Import Prelude GoStrings LeaseNames ProxyConfig.

Open Scope string_scope.

(** ** Labels *)

Notation label_map := (gmap string string).

Definition AkashManagedLabelName : string := "akash.network".
Definition AkashLeaseOwnerLabelName : string := "akash.network/lease.id.owner".
Definition AkashLeaseDSeqLabelName : string := "akash.network/lease.id.dseq".
Definition AkashLeaseGSeqLabelName : string := "akash.network/lease.id.gseq".
Definition AkashLeaseOSeqLabelName : string := "akash.network/lease.id.oseq".
Definition AkashLeaseProviderLabelName : string := "akash.network/lease.id.provider".

Definition AppendLeaseLabels (lid : LeaseID) (labels : label_map) : label_map :=
  <[AkashLeaseProviderLabelName := lid_Provider lid]>
  (<[AkashLeaseOSeqLabelName := FormatUint (lid_OSeq lid)]>
  (<[AkashLeaseGSeqLabelName := FormatUint (lid_GSeq lid)]>
  (<[AkashLeaseDSeqLabelName := FormatUint (lid_DSeq lid)]>
  (<[AkashLeaseOwnerLabelName := lid_Owner lid]> labels)))).

Definition label (labels : label_map) (name : string) : result string string :=
  match labels !! name with Some v => Ok v | None => Err ("kube: missing label: " +:+ name) end.

(** [strconv.ParseUint(s, 10, bits)] where only whether it failed matters. *)
Definition uint_label (bits : Z) (s : string) : result string Z :=
  match ParseUint s with
  | (n, None) => if (n <? 2 ^ bits)%Z then Ok n else Err "kube: invalid label value"
  | (_, Some _) => Err "kube: invalid label value"
  end.

Definition RecoverLeaseIDFromLabels (labels : label_map) : result string LeaseID :=
  (let* dseqS := label labels AkashLeaseDSeqLabelName in
  let* gseqS := label labels AkashLeaseGSeqLabelName in
  let* oseqS := label labels AkashLeaseOSeqLabelName in
  let* owner := label labels AkashLeaseOwnerLabelName in
  let* provider := label labels AkashLeaseProviderLabelName in
  let* dseq := uint_label 64 dseqS in
  let* gseq := uint_label 32 gseqS in
  let* oseq := uint_label 32 oseqS in
  Ok (MkLeaseID owner dseq gseq oseq provider))%go.

(** The labels of the object of a hostname. *)
Definition managed_labels (lid : LeaseID) : label_map := AppendLeaseLabels lid (<[AkashManagedLabelName := "true"]> ∅).

(** ** Connections and ingresses *)

(** [LeaseIDHostnameConnection]. *)
Record connection := MkConnection { co_LeaseID : LeaseID; co_Hostname : string; co_ExternalPort : Z; co_ServiceName : string }.

(** A rule: its host and, for each of its paths, the service and its port. *)
Record ingress_rule := MkRule { ir_Host : string; ir_Paths : list (string * Z) }.
Record Ingress := MkIngress { in_Name : string; in_Labels : label_map; in_Annotations : label_map; in_Rules : list ingress_rule }.

Definition ingressRules (hostname kubeServiceName : string) (kubeServicePort : Z) : list ingress_rule :=
  [MkRule hostname [(kubeServiceName, kubeServicePort)]].

(** The object [connectHostnameToDeployment] writes. *)
Definition ingress_object (d : Directive) : outcome Ingress :=
  (let! annotations := kubeNginxIngressAnnotations d in
  Ret (MkIngress (dr_Hostname d) (managed_labels (dr_LeaseID d)) annotations
         (ingressRules (dr_Hostname d) (dr_ServiceName d) (dr_ServicePort d))))%go.

(** What [getHostnameDeploymentConnections] makes of one ingress. *)
Definition ingress_connection (i : Ingress) : result string connection :=
  (let* lid := RecoverLeaseIDFromLabels (in_Labels i) in
  match in_Rules i with
  | [rule] =>
      match ir_Paths rule with
      | [(name, port)] => Ok (MkConnection lid (ir_Host rule) port name)
      | _ => Err "invalid number of paths"
      end
  | _ => Err "invalid number of rules"
  end)%go.

Fixpoint ingress_connections (l : list Ingress) : result string (list connection) :=
  match l with
  | [] => Ok []
  | i :: l => let* c := ingress_connection i in let* cs := ingress_connections l in Ok (c :: cs)
  end%go.

(** ** HTTP routes *)

(** An extension: a [SnippetsFilter] with its name, namespace and value. *)
Record extension := MkExtension { xt_Kind : string; xt_Name : string; xt_Namespace : string; xt_Snippet : string }.

Record route_rule := MkRouteRule { rr_Filters : list (string * string); rr_BackendRefs : list (string * option Z) }.
Record HTTPRouteSpec := MkRouteSpec { rs_ParentRefs : list (string * string); rs_Hostnames : list string; rs_Rules : list route_rule }.
Record HTTPRoute := MkRoute { ro_Name : string; ro_Labels : label_map; ro_Spec : HTTPRouteSpec }.

Definition empty_spec : HTTPRouteSpec := MkRouteSpec [] [] [].

Definition BuildRouteExtensions (namespace routeName : string) (d : Directive) : list extension :=
  let snippet := httpOptionsSnippet d in
  if bool_decide (snippet = "") then [] else [MkExtension "SnippetsFilter" routeName namespace snippet].

Definition BuildHTTPRouteSpec (gatewayName gatewayNamespace hostname serviceName : string) (servicePort : Z) (exts : list extension) : HTTPRouteSpec :=
  MkRouteSpec [(gatewayNamespace, gatewayName)] [hostname]
    [MkRouteRule ((λ e, (xt_Kind e, xt_Name e)) <$> exts) [(serviceName, Some servicePort)]].

(** The object of a directive, with the routable spec or without. *)
Definition route_object (d : Directive) (spec : HTTPRouteSpec) : HTTPRoute :=
  MkRoute (dr_Hostname d) (managed_labels (dr_LeaseID d)) spec.

(** What [ListHTTPRouteConnections] makes of one route: nothing of one without
    hostname, rule or backend. *)
Definition route_connection (r : HTTPRoute) : result string (option connection) :=
  (let* lid := RecoverLeaseIDFromLabels (ro_Labels r) in
  match rs_Hostnames (ro_Spec r), rs_Rules (ro_Spec r) with
  | host :: _, rule :: _ =>
      match rr_BackendRefs rule with
      | (name, Some port) :: _ => Ok (Some (MkConnection lid host port name))
      | _ => Ok None
      end
  | _, _ => Ok None
  end)%go.

(** *** Errors and calls *)

(** Errors as [kerrors.IsNotFound] and [IsConflict] tell them apart. *)
Inductive kerror := NotFound | Conflict | OtherError (msg : string).
#[export] Instance kerror_eq_dec : EqDecision kerror.
Proof. solve_decision. Defined.

(** A condition that a controller reports on an extension. *)
Record condition := MkCondition { cd_Type : string; cd_Status : string; cd_ObservedGeneration : option Z }.

(** Calls with their answers: a version or uid, a generation, conditions. *)
Inductive route_call :=
| RGet (r : result kerror Z)
| RCreate (o : HTTPRoute) (r : result kerror Z)
| RUpdate (o : HTTPRoute) (version : Z) (r : result kerror Z)
| XGet (name : string) (r : result kerror Z)
| XCreate (e : extension) (owner : Z) (r : result kerror Z)
| XUpdate (e : extension) (owner version : Z) (r : result kerror Z)
| XPoll (name : string) (r : result kerror (list condition)).

(** [extensionAccepted]. *)
Definition condition_accepts (generation : Z) (c : condition) : bool :=
  (cd_Type c =? "Accepted") && (cd_Status c =? "True")
  && match cd_ObservedGeneration c with None => true | Some g => (g =? 0)%Z || (generation <=? g)%Z end.
Definition extensionAccepted (conds : list condition) (generation : Z) : bool := existsb (condition_accepts generation) conds.

(** [waitForExtensionAccepted]: the polls until the timeout. *)
Fixpoint waitForExtensionAccepted (name : string) (generation : Z) (polls : list (result kerror (list condition)))
  : list route_call * option kerror :=
  match polls with
  | [] => ([], Some (OtherError "context deadline exceeded"))
  | Err e :: _ => ([XPoll name (Err e)], Some e)
  | Ok conds :: polls =>
      if extensionAccepted conds generation then ([XPoll name (Ok conds)], None)
      else let '(calls, err) := waitForExtensionAccepted name generation polls in (XPoll name (Ok conds) :: calls, err)
  end.

(** The answers about one extension. *)
Record ext_answers := MkExtAnswers {
  xa_get : result kerror Z; xa_apply : result kerror Z; xa_polls : list (result kerror (list condition)) }.

Definition applyRouteExtension (ownerUID : Z) (e : extension) (an : ext_answers) : list route_call * option kerror :=
  let wait calls r :=
    match r with
    | Err err => (calls, Some err)
    | Ok generation =>
        let '(polls, err) := waitForExtensionAccepted (xt_Name e) generation (xa_polls an) in ((calls ++ polls)%list, err)
    end in
  match xa_get an with
  | Ok version => wait [XGet (xt_Name e) (Ok version); XUpdate e ownerUID version (xa_apply an)] (xa_apply an)
  | Err NotFound => wait [XGet (xt_Name e) (Err NotFound); XCreate e ownerUID (xa_apply an)] (xa_apply an)
  | Err err => ([XGet (xt_Name e) (Err err)], Some err)
  end.

Fixpoint applyRouteExtensions (ownerUID : Z) (exts : list extension) (an : extension → ext_answers) : list route_call * option kerror :=
  match exts with
  | [] => ([], None)
  | e :: exts =>
      match applyRouteExtension ownerUID e (an e) with
      | (calls, Some err) => (calls, Some err)
      | (calls, None) => let '(calls', err) := applyRouteExtensions ownerUID exts an in ((calls ++ calls')%list, err)
      end
  end.

(** [retry.RetryOnConflict(retry.DefaultRetry, ...)]: again after a conflict,
    a fixed number of times; the number of attempts after the first. *)
Class ConflictRetries := conflict_retries : nat.

Fixpoint retryOnConflict (o : HTTPRoute) (retries i : nat) (an : nat → result kerror Z * result kerror Z) : list route_call * option kerror :=
  let failed calls err :=
    match retries with
    | S retries =>
        if bool_decide (err = Conflict) then let '(calls', err') := retryOnConflict o retries (S i) an in ((calls ++ calls')%list, err')
        else (calls, Some err)
    | 0%nat => (calls, Some err)
    end in
  match (an i).1 with
  | Err e => failed [RGet (Err e)] e
  | Ok version =>
      match (an i).2 with
      | Err e => failed [RGet (Ok version); RUpdate o version (Err e)] e
      | Ok v => ([RGet (Ok version); RUpdate o version (Ok v)], None)
      end
  end.

(** The answers of the API server to one attempt. *)
Record route_answers := MkRouteAnswers {
  ra_convert : HTTPRouteSpec → option kerror;
  ra_get : result kerror Z;
  ra_create : HTTPRouteSpec → result kerror Z;
  ra_ext : extension → ext_answers;
  ra_update : nat → result kerror Z * result kerror Z
}.

Record HTTPRouteConfig := MkRouteConfig { rg_GatewayName : string; rg_GatewayNamespace : string }.

Section routes.
Context `{GoUnicode} `{Cosmos} `{ConflictRetries}.

Definition route_extensions (d : Directive) : list extension :=
  BuildRouteExtensions (LeaseIDToNamespace (dr_LeaseID d)) (dr_Hostname d) d.
Definition route_spec (cfg : HTTPRouteConfig) (d : Directive) : HTTPRouteSpec :=
  BuildHTTPRouteSpec (rg_GatewayName cfg) (rg_GatewayNamespace cfg) (dr_Hostname d) (dr_ServiceName d) (dr_ServicePort d) (route_extensions d).

(** From the extensions on; [fresh] when nothing of the route exists. *)
Definition publish_route (cfg : HTTPRouteConfig) (d : Directive) (an : route_answers) (fresh : bool) (ownerUID : Z) (calls : list route_call)
  : list route_call * option kerror :=
  match applyRouteExtensions ownerUID (route_extensions d) (ra_ext an) with
  | (ext_calls, Some err) => ((calls ++ ext_calls)%list, Some err)
  | (ext_calls, None) =>
      let calls := (calls ++ ext_calls)%list in
      let spec := route_spec cfg d in
      match ra_convert an spec with
      | Some err => (calls, Some err)
      | None =>
          if fresh then
            (calls ++ [RCreate (route_object d spec) (ra_create an spec)],
             match ra_create an spec with Ok _ => None | Err e => Some e end)%list
          else let '(updates, err) := retryOnConflict (route_object d spec) conflict_retries 0 (ra_update an) in ((calls ++ updates)%list, err)
      end
  end.

Definition CreateOrUpdateHTTPRoute (cfg : HTTPRouteConfig) (d : Directive) (an : route_answers) : list route_call * option kerror :=
  match ra_get an with
  | Ok uid => publish_route cfg d an false uid [RGet (Ok uid)]
  | Err NotFound =>
      let calls := [RGet (Err NotFound)] in
      if bool_decide (route_extensions d = []) then publish_route cfg d an true 0 calls
      else match ra_convert an empty_spec with
      | Some err => (calls, Some err)
      | None =>
          let calls := (calls ++ [RCreate (route_object d empty_spec) (ra_create an empty_spec)])%list in
          match ra_create an empty_spec with
          | Err e => (calls, Some e)
          | Ok uid => publish_route cfg d an false uid calls
          end
      end
  | Err e => ([RGet (Err e)], Some e)
  end.

(** ** What was written is read back *)

(** Identifiers of the widths they have in Go. *)
Definition lease_widths (lid : LeaseID) : Prop :=
  (0 ≤ lid_DSeq lid < 2 ^ 64)%Z ∧ (0 ≤ lid_GSeq lid < 2 ^ 32)%Z ∧ (0 ≤ lid_OSeq lid < 2 ^ 32)%Z.

Lemma uint_label_FormatUint bits z : (0 ≤ bits ≤ 64)%Z → (0 ≤ z < 2 ^ bits)%Z → uint_label bits (FormatUint z) = Ok z.
Proof.
  intros Hb Hz. assert (2 ^ bits ≤ 2 ^ 64)%Z by (apply Z.pow_le_mono_r; lia).
  unfold uint_label. rewrite ParseUint_FormatUint by lia. by rewrite (proj2 (Z.ltb_lt _ _)) by lia.
Qed.

Lemma labels_roundtrip lid labels : lease_widths lid → RecoverLeaseIDFromLabels (AppendLeaseLabels lid labels) = Ok lid.
Proof.
  intros (Hd & Hg & Ho). unfold RecoverLeaseIDFromLabels, AppendLeaseLabels, label.
  repeat first [rewrite lookup_insert_eq|rewrite lookup_insert_ne by done]. cbn [rbind].
  rewrite !uint_label_FormatUint by lia. cbn. by destruct lid.
Qed.

(** What the operator writes for a hostname it reads back after a
    restart: an ingress and a published route are listed as the connection of
    the same lease, hostname, service and port, and a placeholder route, which
    serves nothing, is not listed. *)
Theorem connection_roundtrip (cfg : HTTPRouteConfig) (d : Directive) (Hlid : lease_widths (dr_LeaseID d)) :
  let c := MkConnection (dr_LeaseID d) (dr_Hostname d) (dr_ServicePort d) (dr_ServiceName d) in
  (∀ i, ingress_object d = Ret i → ingress_connection i = Ok c)
  ∧ route_connection (route_object d (route_spec cfg d)) = Ok (Some c)
  ∧ route_connection (route_object d empty_spec) = Ok None.
Proof.
  unfold ingress_connection, route_connection. cbn -[managed_labels]. unfold managed_labels.
  rewrite labels_roundtrip by done. split_and!; [|done|done]. intros i. unfold ingress_object.
  rewrite obind_ret. intros (a & _ & [= <-]). cbn -[managed_labels]. unfold managed_labels. by rewrite labels_roundtrip.
Qed.

(** ** A route is published after its filters *)

(** The extension was applied at some generation, and seen accepted. *)
Definition filter_ready (e : extension) (calls : list route_call) : Prop :=
  ∃ gen conds, ((∃ owner, XCreate e owner (Ok gen) ∈ calls) ∨ (∃ owner v, XUpdate e owner v (Ok gen) ∈ calls))
    ∧ XPoll (xt_Name e) (Ok conds) ∈ calls ∧ extensionAccepted conds gen = true.

(** Calls that write the route, and those that succeed. *)
Definition writes_route (o : HTTPRoute) (c : route_call) : Prop :=
  (∃ r, c = RCreate o r) ∨ (∃ v r, c = RUpdate o v r).
Definition published (o : HTTPRoute) (c : route_call) : Prop :=
  (∃ v, c = RCreate o (Ok v)) ∨ (∃ v v', c = RUpdate o v (Ok v')).

(** Calls that do not write a route. *)
Definition auxiliary (c : route_call) : Prop :=
  match c with RCreate _ _ | RUpdate _ _ _ => False | _ => True end.

Lemma wait_accepted name gen polls calls :
  waitForExtensionAccepted name gen polls = (calls, None) →
  ∃ conds, XPoll name (Ok conds) ∈ calls ∧ extensionAccepted conds gen = true.
Proof.
  revert calls. induction polls as [|[conds|e] polls IH]; intros calls; cbn; [done| |done].
  destruct (extensionAccepted conds gen) eqn:Ea; [intros [= <-]; exists conds; set_solver|].
  destruct (waitForExtensionAccepted name gen polls) as [calls' err] eqn:Ew. intros [= <- ->].
  destruct (IH _ eq_refl) as (c & ? & ?). exists c. set_solver.
Qed.

Lemma wait_auxiliary name gen polls calls err :
  waitForExtensionAccepted name gen polls = (calls, err) → Forall auxiliary calls.
Proof.
  revert calls err. induction polls as [|[conds|e] polls IH]; intros calls err; cbn; [by intros [= <- _]| |intros [= <- _]; by repeat constructor].
  destruct (extensionAccepted conds gen); [intros [= <- _]; by repeat constructor|].
  destruct (waitForExtensionAccepted name gen polls) as [calls' err'] eqn:Ew. intros [= <- _]. constructor; [done|]. by eapply IH.
Qed.

Lemma filter_ready_more e calls calls' : (∀ c, c ∈ calls → c ∈ calls') → filter_ready e calls → filter_ready e calls'.
Proof. unfold filter_ready. naive_solver. Qed.

Lemma apply_one owner e an calls err :
  applyRouteExtension owner e an = (calls, err) → Forall auxiliary calls ∧ (err = None → filter_ready e calls).
Proof.
  unfold applyRouteExtension.
  destruct (xa_get an) as [version|[| |msg]]; [| |intros [= <- <-]; split; [by repeat constructor|done]..].
  all: destruct (xa_apply an) as [gen|e']; [|intros [= <- <-]; split; [by repeat constructor|done]].
  all: destruct (waitForExtensionAccepted _ _ _) as [polls err'] eqn:Ew; intros [= <- <-]; apply wait_auxiliary in Ew as Ha.
  all: split; [by repeat (constructor; [done|])|intros ->].
  all: apply wait_accepted in Ew as (conds & Hp & Hacc); exists gen, conds; split_and!; [|set_solver|done].
  - right. exists owner, version. set_solver.
  - left. exists owner. set_solver.
Qed.

Lemma apply_all owner exts an calls err :
  applyRouteExtensions owner exts an = (calls, err) →
  Forall auxiliary calls ∧ (err = None → Forall (λ e, filter_ready e calls) exts).
Proof.
  revert calls err. induction exts as [|e exts IH]; intros calls err; cbn; [intros [= <- <-]; by repeat constructor|].
  destruct (applyRouteExtension owner e (an e)) as [calls1 [err1|]] eqn:E1; apply apply_one in E1 as [Ha1 Hr1].
  { intros [= <- <-]. by split. }
  destruct (applyRouteExtensions owner exts an) as [calls2 err2] eqn:E2. intros [= <- <-].
  destruct (IH _ _ eq_refl) as [Ha2 Hr2]. split; [by apply Forall_app_2|]. intros ->. constructor.
  - eapply filter_ready_more, Hr1; [set_solver|done].
  - eapply Forall_impl; [by apply Hr2|]. intros e' He'. cbn in He'. eapply filter_ready_more, He'. set_solver.
Qed.

Lemma retry_updates o retries i an calls err :
  retryOnConflict o retries i an = (calls, err) →
  Forall (λ c, auxiliary c ∨ writes_route o c) calls ∧ (err = None ↔ ∃ c, c ∈ calls ∧ published o c).
Proof.
  assert (∀ v, ¬ published o (RGet v)) as Hg by (intros v [[? ?]|(? & ? & ?)]; done).
  assert (∀ v e, ¬ published o (RUpdate o v (Err e))) as Hu by (intros v e [[? ?]|(? & ? & ?)]; done).
  revert i calls err. induction retries as [|retries IH]; intros i calls err; cbn [retryOnConflict];
    (destruct (an i).1 as [version|e]; [destruct (an i).2 as [v|e]|]).
  all: try (intros [= <- <-]; split; [repeat (constructor; [unfold writes_route; naive_solver|]); constructor|]).
  all: try (split; [done|]; intros (c & Hc & Hp); rewrite ?elem_of_cons, ?elem_of_nil in Hc; naive_solver).
  all: try (split; [|done]; intros _; exists (RUpdate o version (Ok v)); split; [set_solver|right; eauto]).
  all: case_bool_decide; [|intros [= <- <-]; split;
    [repeat (constructor; [unfold writes_route; naive_solver|]); constructor
    |split; [done|]; intros (c & Hc & Hp); rewrite ?elem_of_cons, ?elem_of_nil in Hc; naive_solver]].
  all: destruct (retryOnConflict o retries (S i) an) as [calls' err'] eqn:Er; intros [= <- <-];
    destruct (IH _ _ _ Er) as [Hw Hi]; split;
    [repeat (constructor; [unfold writes_route; naive_solver|]); done|].
  all: rewrite Hi; split; intros (c & Hc & Hp); exists c; [set_solver|].
  all: rewrite ?elem_of_app, ?elem_of_cons, ?elem_of_nil in Hc; naive_solver.
Qed.

(** The shape of an attempt: reads and perhaps the placeholder, the filters,
    and then the route. *)
Definition route_trace (cfg : HTTPRouteConfig) (d : Directive) (an : route_answers) (calls : list route_call) (err : option kerror) : Prop :=
  let o := route_object d (route_spec cfg d) in
  ∃ first ext tail, calls = (first ++ ext ++ tail)%list
    ∧ Forall (λ c, auxiliary c ∨ (writes_route (route_object d empty_spec) c ∧ ra_get an = Err NotFound)) (first ++ ext)
    ∧ (tail = [] ∨ Forall (λ e, filter_ready e ext) (route_extensions d))
    ∧ Forall (λ c, auxiliary c ∨ writes_route o c) tail ∧ (err = None ↔ ∃ c, c ∈ tail ∧ published o c).

Lemma trace_failed cfg d an calls e :
  Forall (λ c, auxiliary c ∨ (writes_route (route_object d empty_spec) c ∧ ra_get an = Err NotFound)) calls →
  route_trace cfg d an calls (Some e).
Proof.
  intros Hc. exists calls, [], []. rewrite !app_nil_r. do 4 (split; [by auto|]). split; [done|]. intros (c & Hin & _). set_solver.
Qed.

Lemma publish_trace cfg d an fresh uid first calls err :
  Forall (λ c, auxiliary c ∨ (writes_route (route_object d empty_spec) c ∧ ra_get an = Err NotFound)) first →
  publish_route cfg d an fresh uid first = (calls, err) → route_trace cfg d an calls err.
Proof.
  intros Hf Hs. unfold publish_route in Hs. set (o := route_object d (route_spec cfg d)) in *.
  destruct (applyRouteExtensions uid (route_extensions d) (ra_ext an)) as [ext e] eqn:Ee; apply apply_all in Ee as [Ha Hr].
  assert (Forall (λ c, auxiliary c ∨ (writes_route (route_object d empty_spec) c ∧ ra_get an = Err NotFound)) (first ++ ext)%list) as Hfe.
  { apply Forall_app_2; [done|]. eapply Forall_impl; [done|]. auto. }
  destruct e as [e|]; [simplify_eq; by apply trace_failed|].
  destruct (ra_convert an (route_spec cfg d)); [simplify_eq; by apply trace_failed|]. destruct fresh.
  - simplify_eq. exists first, ext, [RCreate o (ra_create an (route_spec cfg d))]. rewrite app_assoc. do 3 (split; [by auto|]). split.
    + apply Forall_singleton. right. left. eauto.
    + destruct (ra_create an (route_spec cfg d)) as [v|e]; split; try done.
      * intros _. eexists. split; [by apply list_elem_of_singleton|]. left. eauto.
      * intros (c & ->%list_elem_of_singleton & [[v ?]|(? & ? & ?)]); done.
  - destruct (retryOnConflict _ _ _ _) as [updates err'] eqn:Er. simplify_eq. exists first, ext, updates. rewrite app_assoc.
    apply retry_updates in Er as [Hw Hi]. by auto 10.
Qed.

Lemma attempt_trace cfg d an calls err : CreateOrUpdateHTTPRoute cfg d an = (calls, err) → route_trace cfg d an calls err.
Proof.
  assert (∀ r, Forall (λ c, auxiliary c ∨ (writes_route (route_object d empty_spec) c ∧ ra_get an = Err NotFound)) [RGet r]) as Hg.
  { intros r. apply Forall_singleton. by left. }
  unfold CreateOrUpdateHTTPRoute. destruct (ra_get an) as [uid|[| |msg]] eqn:Eg.
  - apply publish_trace. rewrite Eg. apply Hg.
  - case_bool_decide; [apply publish_trace; rewrite Eg; apply Hg|].
    destruct (ra_convert an empty_spec); [intros [= <- <-]; apply trace_failed; rewrite Eg; apply Hg|].
    assert (∀ r, Forall (λ c, auxiliary c ∨ (writes_route (route_object d empty_spec) c ∧ ra_get an = Err NotFound))
      ([RGet (Err NotFound)] ++ [RCreate (route_object d empty_spec) r])%list) as Hf.
    { intros r. rewrite Eg. apply Forall_app_2; [apply Hg|]. apply Forall_singleton. right. split; [|done]. left. eauto. }
    destruct (ra_create an empty_spec); [by apply publish_trace|]. intros [= <- <-]. exact (trace_failed _ _ _ _ _ (Hf _)).
  - intros [= <- <-]. apply trace_failed. rewrite Eg. apply Hg.
  - intros [= <- <-]. apply trace_failed. rewrite Eg. apply Hg.
Qed.

Lemma not_auxiliary o c : writes_route o c → ¬ auxiliary c.
Proof. intros [[r ->]|(v & r & ->)] Ha; exact Ha. Qed.

Lemma writes_same o o' c : writes_route o c → writes_route o' c → o = o'.
Proof. intros [[r ->]|(v & r & ->)] [[r' E]|(v' & r' & E)]; by simplify_eq. Qed.

Lemma published_writes o c : published o c → writes_route o c.
Proof. unfold published, writes_route. naive_solver. Qed.

(** A gateway route serves a hostname only with its options: the
    routable spec is written only after each of its filters was applied and
    the gateway reported it accepted at that generation; the attempt reports
    success exactly when the routable spec was stored; and the only other thing
    it writes is the empty placeholder of a route that did not exist. *)
Theorem route_after_filters (cfg : HTTPRouteConfig) (d : Directive) (an : route_answers) (calls : list route_call) (err : option kerror)
  (Hrun : CreateOrUpdateHTTPRoute cfg d an = (calls, err)) :
  let o := route_object d (route_spec cfg d) in
  (∀ pre c post, calls = (pre ++ c :: post)%list → writes_route o c → Forall (λ e, filter_ready e pre) (route_extensions d))
  ∧ (err = None ↔ ∃ c, c ∈ calls ∧ published o c)
  ∧ (∀ c o', c ∈ calls → writes_route o' c → o' = o ∨ (o' = route_object d empty_spec ∧ ra_get an = Err NotFound)).
Proof.
  intros o. destruct (attempt_trace _ _ _ _ _ Hrun) as (first & ext & tail & -> & Hf & Hready & Htail & Herr). fold o in Htail, Herr.
  rewrite Forall_forall in Hf, Htail.
  assert (∀ c, c ∈ (first ++ ext)%list → ¬ writes_route o c) as Hno.
  { intros c [Ha|[Hw _]]%Hf Hwo; [by eapply not_auxiliary|]. by eapply writes_same in Hwo; [|exact Hw]. }
  rewrite app_assoc. split_and!.
  - intros pre c post E Hw. apply app_eq_inv in E as [(k & E & E')|(k & E & E')].
    + destruct k as [|c' k]; cbn in E'.
      * rewrite app_nil_r in E. subst pre tail. destruct Hready as [|Hr]; [done|]. eapply Forall_impl; [exact Hr|].
        intros e He. cbn in He. eapply filter_ready_more, He. set_solver.
      * simplify_eq. destruct (Hno c'); [rewrite E; set_solver|done].
    + destruct Hready as [->|Hr]; [by destruct k|]. subst pre. eapply Forall_impl; [exact Hr|].
      intros e He. cbn in He. eapply filter_ready_more, He. set_solver.
  - rewrite Herr. split; intros (c & Hc & Hp); exists c; (split; [|done]); [set_solver|].
    apply elem_of_app in Hc as [Hc|Hc]; [|done]. by destruct (Hno c Hc (published_writes _ _ Hp)).
  - intros c o' [Hc|Hc]%elem_of_app Hw.
    + right. destruct (Hf c Hc) as [Ha|[Hw' ?]]; [by destruct (not_auxiliary _ _ Hw)|]. by rewrite (writes_same _ _ _ Hw Hw').
    + left. destruct (Htail c Hc) as [Ha|Hw']; [by destruct (not_auxiliary _ _ Hw)|by eapply writes_same].
Qed.

End routes.

Module RouteSample.

#[local] Instance ascii_only : GoUnicode := λ s, s.
#[local] Instance four_retries : ConflictRetries := 4%nat.
#[local] Existing Instance PlainCosmos.plain.

Definition cfg : HTTPRouteConfig := MkRouteConfig "akash-gateway" "akash-gateway".
Definition accepted (gen : Z) : list condition := [MkCondition "Accepted" "True" (Some gen)].

(** A new route: the filter is accepted at the second look, and the route is
    written at the second attempt. *)
Definition answers : route_answers :=
  MkRouteAnswers (λ _, None) (Err NotFound) (λ _, Ok 7%Z) (λ _, MkExtAnswers (Err NotFound) (Ok 2%Z) [Ok (accepted 1); Ok (accepted 2)])
    (λ i, (Ok (Z.of_nat i), if (i =? 0)%nat then Err Conflict else Ok 9%Z)).

Definition attempt := CreateOrUpdateHTTPRoute cfg sample_directive answers.

Lemma widths : lease_widths (dr_LeaseID sample_directive).
Proof. unfold lease_widths. cbn. lia. Qed.

Lemma attempt_ok : attempt.2 = None ∧ List.length attempt.1 = 10%nat.
Proof. vm_compute. done. Qed.

End RouteSample.

Lemma connection_roundtrip_witness :
  route_connection (route_object sample_directive (route_spec (H := RouteSample.ascii_only) (H0 := PlainCosmos.plain) RouteSample.cfg sample_directive))
  = Ok (Some (MkConnection (dr_LeaseID sample_directive) "app.example" 80 "web")).
Proof.
  exact (proj1 (proj2 (connection_roundtrip (H := RouteSample.ascii_only) (H0 := PlainCosmos.plain) RouteSample.cfg sample_directive RouteSample.widths))).
Defined.

Lemma route_after_filters_witness :
  ∃ c, c ∈ RouteSample.attempt.1
    ∧ published (route_object sample_directive (route_spec (H := RouteSample.ascii_only) (H0 := PlainCosmos.plain) RouteSample.cfg sample_directive)) c.
Proof.
  exact (proj1 (proj1 (proj2 (route_after_filters (H := RouteSample.ascii_only) (H0 := PlainCosmos.plain) (H1 := RouteSample.four_retries)
    RouteSample.cfg sample_directive RouteSample.answers _ _ (surjective_pairing RouteSample.attempt)))) (proj1 RouteSample.attempt_ok)).
Defined.
