(* ===== verification/HostnameOperator.v ===== *)
(** * The hostname operator

    [operator/hostname/operator.go]: follows the [ProviderHost] resources and
    keeps, for every hostname, one ingress or gateway route in the namespace of
    the lease that serves it.  The answers of the API server to one event are
    an argument of the event; what was written or removed is recorded, and the
    routes of the cluster are read off these records. *)
From Stdlib Require Import Ascii String.
From S2P Require Import Prelude Traces GoStrings ChainTypes LeaseNames CrdManifest ProxyConfig HostRoutes OperatorCommon.

Open Scope string_scope.

(** [manifest.ServiceExpose.GetExternalPort] of a port and an external port. *)
Class ExposePorts := GetExternalPort : Z → Z → Z.

(** The text of an error of the API server. *)
Class ErrorTexts := kerror_text : kerror → string.

(** ** Events *)

Inductive ProviderResourceEvent := ProviderResourceAdd | ProviderResourceUpdate | ProviderResourceDelete.
#[export] Instance ProviderResourceEvent_eq_dec : EqDecision ProviderResourceEvent.
Proof. solve_decision. Defined.

Record hostnameResourceEvent := MkHostEvent {
  he_eventType : ProviderResourceEvent; he_hostname : string; he_lid : LeaseID; he_serviceName : string; he_externalPort : Z }.

Section observe.
Context `{Cosmos}.

Definition host_event (t : ProviderResourceEvent) (s : ProviderHostSpec) : option hostnameResourceEvent :=
  match ProviderHostSpec_LeaseID s with
  | Ok lid => Some (MkHostEvent t (ph_Hostname s) lid (ph_ServiceName s) (ph_ExternalPort s))
  | Err _ => None
  end.

(** The resources that exist when the observation starts. *)
Definition listed_events (data : list ProviderHostSpec) : list hostnameResourceEvent := omap (host_event ProviderResourceAdd) data.

(** Results of the watch: a change of a resource, an object of another type,
    a type of change that is not followed, an error. *)
Inductive watch_result := Watched (t : ProviderResourceEvent) (s : ProviderHostSpec) | WatchedOther | WatchBookmark (s : ProviderHostSpec) | WatchError.

(** [None] ends the stream; an empty list skips the result. *)
Definition watch_events (w : watch_result) : option (list hostnameResourceEvent) :=
  match w with
  | WatchError => None
  | WatchedOther | WatchBookmark _ => Some []
  | Watched t s => Some (match host_event t s with Some ev => [ev] | None => [] end)
  end.

(** The events of an observation. *)
Fixpoint watched_events (l : list watch_result) : list hostnameResourceEvent :=
  match l with
  | [] => []
  | w :: l => match watch_events w with None => [] | Some evs => (evs ++ watched_events l)%list end
  end.
Definition observeHostnameState (data : list ProviderHostSpec) (l : list watch_result) : list hostnameResourceEvent :=
  (listed_events data ++ watched_events l)%list.

End observe.

(** ** Errors *)

Inductive operror := ApiError (e : kerror) | ExpectedResourceNotFound (what : string).

(** [strings.Contains]. *)
Fixpoint Contains (s sub : string) : bool :=
  String.prefix sub s || match s with EmptyString => false | String _ s => Contains s sub end.

Section operator.
Context `{GoUnicode} `{Cosmos} `{ConflictRetries} `{ExposePorts} `{ErrorTexts} `{MapOrder}.

Definition operror_text (e : operror) : string :=
  match e with ApiError e => kerror_text e | ExpectedResourceNotFound what => "observation stopped: resource not found: " +:+ what end.

Definition errorIsKubernetesResourceNotFound (e : operror) : bool :=
  match e with
  | ApiError NotFound | ExpectedResourceNotFound _ => true
  | e => Contains (operror_text e) "not found"
  end.

(** ** The directive of an event *)

Definition buildDirective (ev : hostnameResourceEvent) (expose : ManifestServiceExpose) : Directive :=
  let o := ce_HTTPOptions expose in
  let base := MkDirective (he_hostname ev) (he_lid ev) (he_serviceName ev) (i32 (he_externalPort ev)) in
  if (ch_MaxBodySize o =? 0)%Z then base 60000 60000 60000 1048576 3 ["error"; "timeout"] false 0 0 0 0 0
  else base (ch_ReadTimeout o) (ch_SendTimeout o) (ch_NextTimeout o) (ch_MaxBodySize o) (ch_NextTries o) (ch_NextCases o)
         (ch_ProxyBufferingDisable o) (ch_ProxyBufferSize o) (ch_ProxyBuffersNumber o) (ch_ProxyBuffersSize o)
         (ch_ProxyBusyBuffersSize o) (ch_ProxyConnectTimeout o).

(** [getManifestGroup] answers [Ok None] when the manifest is not there. *)
Definition getManifestGroup (r : result kerror ManifestGroup) : result operror (option ManifestGroup) :=
  match r with
  | Ok g => Ok (Some g)
  | Err NotFound => Ok None
  | Err e => Err (ApiError e)
  end.

Definition locateServiceFromManifest (r : result kerror ManifestGroup) (serviceName : string) (externalPort : Z)
  : result operror ManifestServiceExpose :=
  match getManifestGroup r with
  | Err e => Err e
  | Ok None => Err (ExpectedResourceNotFound "manifest")
  | Ok (Some g) =>
      match List.find (λ s, ms_Name s =? serviceName) (mg_Services g) with
      | None => Err (ExpectedResourceNotFound "service")
      | Some svc =>
          if (ms_Count svc =? 0)%Z then Err (ExpectedResourceNotFound "service")
          else match List.find (λ e, ce_Global e && (externalPort =? u32 (GetExternalPort (ce_Port e) (ce_ExternalPort e)))%Z) (ms_Expose svc) with
          | None => Err (ExpectedResourceNotFound "service expose")
          | Some e => if (ce_Port e =? 0)%Z then Err (ExpectedResourceNotFound "service expose") else Ok e
          end
      end
  end.

(** ** Writing and removing routes *)

Inductive ingress_mode := IngressMode | GatewayMode (cfg : HTTPRouteConfig).

(** The answers of the API server to one event. *)
Record api_answers := MkApiAnswers {
  ap_manifest : result kerror ManifestGroup;
  ap_get : result kerror Z;
  ap_write : option kerror;
  ap_route : route_answers;
  ap_remove : option kerror
}.

(** What succeeded: a hostname routed as a directive says, or the route of a
    hostname removed from the namespace of a lease, or found not to be there. *)
Inductive effect := Routed (d : Directive) | Unrouted (lid : LeaseID) (hostname : string).

Definition connectHostnameToDeployment (mode : ingress_mode) (d : Directive) (an : api_answers) : outcome (list effect * option kerror) :=
  match mode with
  | GatewayMode cfg =>
      let err := (CreateOrUpdateHTTPRoute cfg d (ap_route an)).2 in
      Ret (match err with None => [Routed d] | Some _ => [] end, err)
  | IngressMode =>
      (let! _ := ingress_object d in
      match ap_get an with
      | Ok _ | Err NotFound => Ret (match ap_write an with None => [Routed d] | Some _ => [] end, ap_write an)
      | Err e => Ret ([], Some e)
      end)%go
  end.

Definition removeHostnameFromDeployment (hostname : string) (lid : LeaseID) (allowMissing : bool) (an : api_answers) : list effect * option kerror :=
  match ap_remove an with
  | None => ([Unrouted lid hostname], None)
  | Some NotFound => ([Unrouted lid hostname], if allowMissing then None else Some NotFound)
  | Some e => ([], Some e)
  end.

(** ** The operator *)

Record managedHostname := MkManaged {
  mh_lastEvent : option hostnameResourceEvent; mh_presentLease : LeaseID; mh_presentServiceName : string;
  mh_presentExternalPort : Z; mh_lastChangeAt : Z }.

(** [ho_observing]: an observation is under way; it ends with an error, and
    [run] starts the next. *)
Record hostnameOperator := MkHostOperator {
  ho_hostnames : gmap string managedHostname;
  ho_leasesIgnored : ignoreList;
  ho_server : operatorHTTP;
  ho_observing : bool
}.

Definition with_hostnames (f : gmap string managedHostname → gmap string managedHostname) (op : hostnameOperator) : hostnameOperator :=
  MkHostOperator (f (ho_hostnames op)) (ho_leasesIgnored op) (flag_endpoint "/managed-hostnames" (ho_server op)) (ho_observing op).
Definition with_ignored (il : ignoreList) (op : hostnameOperator) : hostnameOperator :=
  MkHostOperator (ho_hostnames op) il (flag_endpoint "/ignore-list" (ho_server op)) (ho_observing op).
Definition with_server (server : operatorHTTP) (op : hostnameOperator) : hostnameOperator :=
  MkHostOperator (ho_hostnames op) (ho_leasesIgnored op) server (ho_observing op).
Definition with_observing (b : bool) (op : hostnameOperator) : hostnameOperator :=
  MkHostOperator (ho_hostnames op) (ho_leasesIgnored op) (ho_server op) b.

Definition newHostnameOperator (now : Z) : outcome hostnameOperator :=
  (let! server := AddPreparedEndpoint "/ignore-list" now ∅ in
  let! server := AddPreparedEndpoint "/managed-hostnames" now server in
  Ret (MkHostOperator ∅ NewIgnoreList server false))%go.

Definition entry_of (c : connection) : managedHostname :=
  MkManaged None (co_LeaseID c) (co_ServiceName c) (u32 (co_ExternalPort c)) 0.

(** The start of an observation: the table is rebuilt from the routes that
    exist. *)
Definition table_of (conns : list connection) : gmap string managedHostname :=
  foldl (λ m c, <[co_Hostname c := entry_of c]> m) ∅ conns.
Definition list_connections (conns : list connection) (op : hostnameOperator) : hostnameOperator :=
  with_hostnames (λ _, table_of conns) op.

Definition prune (cfg : IgnoreListConfig) (now : Z) (op : hostnameOperator) : hostnameOperator :=
  let '(il, deleted) := Prune cfg now (ho_leasesIgnored op) in
  if deleted then with_ignored il op
  else MkHostOperator (ho_hostnames op) il (ho_server op) (ho_observing op).

Definition recordEventError (ev : hostnameResourceEvent) (failure : option operror) (now : Z) (op : hostnameOperator) : hostnameOperator :=
  match failure with
  | None => op
  | Some e =>
      if negb (errorIsKubernetesResourceNotFound e) then op
      else with_ignored (AddError (he_lid ev) (operror_text e) [he_hostname ev] now (ho_leasesIgnored op)) op
  end.

Definition applyDeleteEvent (ev : hostnameResourceEvent) (an : api_answers) (op : hostnameOperator) : hostnameOperator * list effect * option operror :=
  match removeHostnameFromDeployment (he_hostname ev) (he_lid ev) true an with
  | (effects, None) => (with_hostnames (delete (he_hostname ev)) op, effects, None)
  | (effects, Some e) => (op, effects, Some (ApiError e))
  end.

(** The entry that is stored when everything went well. *)
Definition connected (ev : hostnameResourceEvent) (now : Z) (op : hostnameOperator) : hostnameOperator :=
  with_hostnames (<[he_hostname ev := MkManaged (Some ev) (he_lid ev) (he_serviceName ev) (he_externalPort ev) now]>) op.

Definition applyAddOrUpdateEvent (mode : ingress_mode) (ev : hostnameResourceEvent) (an : api_answers) (now : Z) (op : hostnameOperator)
  : outcome (hostnameOperator * list effect * option operror) :=
  match locateServiceFromManifest (ap_manifest an) (he_serviceName ev) (he_externalPort ev) with
  | Err e => Ret (op, [], Some e)
  | Ok expose =>
      let directive := buildDirective ev expose in
      let connect (op : hostnameOperator) (before : list effect) :=
        (let! (effects, err) := connectHostnameToDeployment mode directive an in
        match err with
        | None => Ret (connected ev now op, (before ++ effects)%list, None)
        | Some e => Ret (op, (before ++ effects)%list, Some (ApiError e))
        end)%go in
      match ho_hostnames op !! he_hostname ev with
      | None => connect op []
      | Some entry =>
          if bool_decide (mh_presentLease entry = he_lid ev) then connect op []
          else match removeHostnameFromDeployment (he_hostname ev) (mh_presentLease entry) false an with
          | (effects, Some e) => Ret (op, effects, Some (ApiError e))
          | (effects, None) =>
              (* the entry leaves the table without a flag of the web data *)
              connect (MkHostOperator (delete (he_hostname ev) (ho_hostnames op)) (ho_leasesIgnored op) (ho_server op) (ho_observing op)) effects
          end
      end
  end.

Definition applyEvent (mode : ingress_mode) (cfg : IgnoreListConfig) (ev : hostnameResourceEvent) (an : api_answers) (now : Z) (op : hostnameOperator)
  : outcome (hostnameOperator * list effect * option operror) :=
  match he_eventType ev with
  | ProviderResourceDelete => Ret (applyDeleteEvent ev an op)
  | ProviderResourceAdd | ProviderResourceUpdate =>
      if IsFlagged cfg (he_lid ev) (ho_leasesIgnored op) then Ret (op, [], None)
      else (let! (op, effects, err) := applyAddOrUpdateEvent mode ev an now op in Ret (recordEventError ev err now op, effects, err))%go
  end.

(** ** The loop *)

Inductive hevent :=
| HStart (conns : list connection) (watching : bool)
| HStartFailed
| HEvent (ev : hostnameResourceEvent) (an : api_answers) (now : Z)
| HPrune (now : Z)
| HPrepare (prepare : string → result string string) (now : Z)
| HStopped.

(** One turn: a panic or an event outside an observation is no step.  A start
    lists the routes and then watches the resources; either may fail. *)
Definition hstep (mode : ingress_mode) (cfg : IgnoreListConfig) (op : hostnameOperator) (e : hevent) : option (hostnameOperator * list effect) :=
  match e with
  | HStart conns watching => if ho_observing op then None else Some (with_observing watching (list_connections conns op), [])
  | HStartFailed =>
      if ho_observing op then None else Some (MkHostOperator ∅ (ho_leasesIgnored op) (ho_server op) false, [])
  | HEvent ev an now =>
      if negb (ho_observing op) then None
      else match applyEvent mode cfg ev an now op with
      | Panic => None
      | Ret (op, effects, None) => Some (op, effects)
      | Ret (op, effects, Some _) => Some (with_observing false op, effects)
      end
  | HPrune now => if ho_observing op then Some (prune cfg now op, []) else None
  | HPrepare prepare now => if ho_observing op then Some (with_server (PrepareAll prepare now (ho_server op)).1 op, []) else None
  | HStopped => if ho_observing op then Some (with_observing false op, []) else None
  end.

End operator.
