(* ===== verification/HostnameOperatorSound.v ===== *)
(** * The hostname operator keeps one route per hostname

    The routes of the cluster are read off what the operator wrote and
    removed.  As long as a resource that is deleted names the lease that serves
    its hostname, the table of the operator and these routes agree. *)
From Stdlib Require Import Ascii String.
From S2P Require Import Prelude Traces GoStrings ChainTypes LeaseNames CrdManifest ProxyConfig HostRoutes OperatorCommon HostnameOperator.

Open Scope string_scope.

(** The routes by namespace and hostname. *)
Notation routes := (gmap (string * string) connection).

Section sound.
Context `{GoUnicode} `{Cosmos} `{ConflictRetries} `{ExposePorts} `{ErrorTexts} `{MapOrder}.
Variable mode : ingress_mode.
Variable cfg : IgnoreListConfig.

(** Whether a removal for a lease takes an object: an ingress is selected by
    the labels of the lease, a gateway route by its name alone. *)
Definition selected (lid : LeaseID) (c : connection) : bool :=
  match mode with
  | GatewayMode _ => true
  | IngressMode =>
      (lid_Owner lid =? lid_Owner (co_LeaseID c)) && (lid_DSeq lid =? lid_DSeq (co_LeaseID c))%Z
      && (lid_GSeq lid =? lid_GSeq (co_LeaseID c))%Z && (lid_OSeq lid =? lid_OSeq (co_LeaseID c))%Z
  end.

Definition unroute (lid : LeaseID) (h : string) (r : routes) : routes :=
  match r !! (LeaseIDToNamespace lid, h) with
  | Some c => if selected lid c then delete (LeaseIDToNamespace lid, h) r else r
  | None => r
  end.

Definition apply_effect (r : routes) (e : effect) : routes :=
  match e with
  | Routed d =>
      <[(LeaseIDToNamespace (dr_LeaseID d), dr_Hostname d) :=
          MkConnection (dr_LeaseID d) (dr_Hostname d) (dr_ServicePort d) (dr_ServiceName d)]> r
  | Unrouted lid h => unroute lid h r
  end.

(** Runs together with the routes.  The list at the start of an observation is
    that of the routes; others may remove routes at any time (a namespace is
    deleted with all it holds); [ok] restricts the events. *)
Inductive hruns (ok : hostnameOperator → hevent → Prop) (op0 : hostnameOperator) (r0 : routes) : list hevent → hostnameOperator → routes → Prop :=
| hruns_nil : hruns ok op0 r0 [] op0 r0
| hruns_snoc es op r e op' effects :
    hruns ok op0 r0 es op r → hstep mode cfg op e = Some (op', effects) → ok op e →
    (∀ conns w, e = HStart conns w → conns ≡ₚ (map_to_list r).*2) →
    hruns ok op0 r0 (es ++ [e]) op' (foldl apply_effect r effects)
| hruns_gone es op r r' : hruns ok op0 r0 es op r → r' ⊆ r → hruns ok op0 r0 es op r'.

(** A deleted resource names the lease that serves its hostname. *)
Definition own_delete (op : hostnameOperator) (e : hevent) : Prop :=
  match e with
  | HEvent ev _ _ =>
      he_eventType ev = ProviderResourceDelete →
      ∀ entry, ho_hostnames op !! he_hostname ev = Some entry → mh_presentLease entry = he_lid ev
  | _ => True
  end.

(** ** The invariant *)

Definition connection_of (h : string) (e : managedHostname) : connection :=
  MkConnection (mh_presentLease e) h (i32 (mh_presentExternalPort e)) (mh_presentServiceName e).

(** Every route is where its lease and hostname put it, and is the only one of
    its hostname. *)
Definition well_routed (r : routes) : Prop :=
  ∀ ns h c, r !! (ns, h) = Some c →
    co_Hostname c = h ∧ ns = LeaseIDToNamespace (co_LeaseID c) ∧ i32 (co_ExternalPort c) = co_ExternalPort c
    ∧ ∀ ns' c', r !! (ns', h) = Some c' → ns' = ns.

(** Every route is the one its entry of the table describes. *)
Definition accounted (m : gmap string managedHostname) (r : routes) : Prop :=
  ∀ ns h c, r !! (ns, h) = Some c → ∃ e, m !! h = Some e ∧ c = connection_of h e.

Definition host_inv (op : hostnameOperator) (r : routes) : Prop :=
  well_routed r ∧ (ho_observing op = true → accounted (ho_hostnames op) r).

(** A hostname that has no route, or one of the same lease, can be routed. *)
Lemma route_well d r :
  well_routed r → i32 (dr_ServicePort d) = dr_ServicePort d →
  (∀ ns c, r !! (ns, dr_Hostname d) = Some c → ns = LeaseIDToNamespace (dr_LeaseID d)) →
  well_routed (apply_effect r (Routed d)).
Proof.
  intros Hr Hp Hns ns h c. cbn. intros Hc. apply lookup_insert_Some in Hc as [[[= <- <-] <-]|[Hne Hc]].
  - split_and!; [done..|]. intros ns' c' Hc'. apply lookup_insert_Some in Hc' as [[[= <-] _]|[_ Hc']]; [done|]. by eapply Hns.
  - destruct (Hr _ _ _ Hc) as (-> & -> & Hi & Hu). split_and!; [done..|]. intros ns' c' Hc'.
    apply lookup_insert_Some in Hc' as [[[= <- E] _]|[_ Hc']]; [|by eapply Hu].
    subst. symmetry. by eapply Hns.
Qed.

Lemma route_accounted ev m r d now :
  accounted m r → (∀ ns c, r !! (ns, dr_Hostname d) = Some c → ns = LeaseIDToNamespace (dr_LeaseID d)) →
  dr_Hostname d = he_hostname ev → dr_LeaseID d = he_lid ev → dr_ServiceName d = he_serviceName ev → dr_ServicePort d = i32 (he_externalPort ev) →
  accounted (<[he_hostname ev := MkManaged (Some ev) (he_lid ev) (he_serviceName ev) (he_externalPort ev) now]> m) (apply_effect r (Routed d)).
Proof.
  intros Ha Hns Hh Hl Hs Hp ns h c. cbn. rewrite Hh, Hl, Hs, Hp in *. intros Hc. apply lookup_insert_Some in Hc as [[[= <- <-] <-]|[Hne Hc]].
  - eexists. split; [apply lookup_insert_eq|done].
  - destruct (decide (h = he_hostname ev)) as [->|Hne']; [destruct Hne; f_equal; symmetry; by eapply Hns|].
    rewrite lookup_insert_ne by done. by eapply Ha.
Qed.

Lemma unroute_lookup lid h r ns h' c : unroute lid h r !! (ns, h') = Some c → r !! (ns, h') = Some c.
Proof. unfold unroute. repeat case_match; [|done..]. by intros [_ ?]%lookup_delete_Some. Qed.

Lemma unroute_other lid h r ns h' : h ≠ h' → unroute lid h r !! (ns, h') = r !! (ns, h').
Proof. intros Hne. unfold unroute. repeat case_match; [|done..]. apply lookup_delete_ne. congruence. Qed.

Lemma unroute_well lid h r : well_routed r → well_routed (unroute lid h r).
Proof.
  intros Hr ns h' c Hc%unroute_lookup. destruct (Hr _ _ _ Hc) as (-> & -> & Hi & Hu). split_and!; [done..|].
  intros ns' c' Hc'%unroute_lookup. by eapply Hu.
Qed.

Lemma selected_own h e : selected (mh_presentLease e) (connection_of h e) = true.
Proof. unfold selected. destruct mode; [|done]. cbn. by rewrite String.eqb_refl, !Z.eqb_refl. Qed.

(** Removing the route of an entry leaves none of the hostname. *)
Lemma unroute_entry m r h e ns :
  well_routed r → accounted m r → m !! h = Some e → unroute (mh_presentLease e) h r !! (ns, h) = None.
Proof.
  intros Hr Ha He. apply eq_None_not_Some. intros [c Hc]. apply unroute_lookup in Hc as Hc'.
  destruct (Ha _ _ _ Hc') as (e' & He' & ->). simplify_eq. destruct (Hr _ _ _ Hc') as (_ & -> & _). cbn in Hc, Hc'.
  unfold unroute in Hc. rewrite Hc', selected_own, lookup_delete_eq in Hc. done.
Qed.

(** Removing a hostname from the table and from the routes. *)
Lemma unroute_accounted m r lid h :
  well_routed r → accounted m r → (∀ e, m !! h = Some e → mh_presentLease e = lid) → accounted (delete h m) (unroute lid h r).
Proof.
  intros Hr Ha Hl ns h' c Hc. apply unroute_lookup in Hc as Hc'. destruct (Ha _ _ _ Hc') as (e & He & ->).
  destruct (decide (h = h')) as [<-|Hne].
  - rewrite <- (Hl e He), (unroute_entry m r h e ns) in Hc; done.
  - exists e. by rewrite lookup_delete_ne.
Qed.

(** ** Steps *)

Lemma connect_cases d an effects err :
  connectHostnameToDeployment mode d an = Ret (effects, err) →
  (err = None ∧ effects = [Routed d]) ∨ (is_Some err ∧ effects = []).
Proof.
  unfold connectHostnameToDeployment. destruct mode; [|intros [= <- <-]; case_match; naive_solver].
  rewrite obind_ret. intros (_ & _ & Hc). repeat case_match; naive_solver.
Qed.

Lemma remove_cases h lid allow an effects err :
  removeHostnameFromDeployment h lid allow an = (effects, err) →
  effects = [Unrouted lid h] ∨ (is_Some err ∧ effects = []).
Proof. unfold removeHostnameFromDeployment. intros Hs. repeat case_match; naive_solver. Qed.

(** The directive of an event says what the event says. *)
Lemma buildDirective_target ev expose :
  let d := buildDirective ev expose in
  dr_Hostname d = he_hostname ev ∧ dr_LeaseID d = he_lid ev ∧ dr_ServiceName d = he_serviceName ev ∧ dr_ServicePort d = i32 (he_externalPort ev).
Proof. unfold buildDirective. by case_match. Qed.

Lemma routes_sub m r r' : r' ⊆ r → well_routed r → accounted m r → well_routed r' ∧ accounted m r'.
Proof.
  intros Hsub Hr Ha. split.
  - intros ns h c Hc. eapply lookup_weaken in Hc; [|exact Hsub]. destruct (Hr _ _ _ Hc) as (? & ? & ? & Hu). split_and!; [done..|].
    intros ns' c' Hc'. eapply lookup_weaken in Hc'; [|exact Hsub]. by eapply Hu.
  - intros ns h c Hc. eapply Ha, lookup_weaken; eauto.
Qed.

Lemma unroute_sub lid h r : unroute lid h r ⊆ r.
Proof. unfold unroute. repeat case_match; [apply delete_subseteq|done..]. Qed.

(** What an attempt to route a hostname achieves. *)
Definition route_result (ev : hostnameResourceEvent) (err : option operror) (op : hostnameOperator) (r : routes) : Prop :=
  well_routed r ∧ accounted (ho_hostnames op) r
  ∧ (err = None → r !! (LeaseIDToNamespace (he_lid ev), he_hostname ev)
       = Some (MkConnection (he_lid ev) (he_hostname ev) (i32 (he_externalPort ev)) (he_serviceName ev))).

Lemma connect_result ev expose an now op r before op' effects err :
  well_routed r → accounted (ho_hostnames op) r →
  (∀ ns c, r !! (ns, he_hostname ev) = Some c → ns = LeaseIDToNamespace (he_lid ev)) →
  obind (connectHostnameToDeployment mode (buildDirective ev expose) an)
    (λ '(effects, err), match err with
       | None => Ret (connected ev now op, (before ++ effects)%list, None)
       | Some e => Ret (op, (before ++ effects)%list, Some (ApiError e)) end) = Ret (op', effects, err) →
  ∃ effects', effects = (before ++ effects')%list ∧ route_result ev err op' (foldl apply_effect r effects').
Proof.
  intros Hr Ha Hns (x & Hc & Hs)%obind_ret. destruct x as [eff e]. destruct (buildDirective_target ev expose) as (Hh & Hl & Hsv & Hp).
  destruct (connect_cases _ _ _ _ Hc) as [[-> ->]|[[e' ->] ->]]; simplify_eq; eexists; (split; [done|]); [|done].
  cbn [foldl]. split_and!.
  - apply route_well; [done|by rewrite Hp, i32_idem|]. by rewrite Hh, Hl.
  - apply route_accounted; [done|by rewrite Hh, Hl|done..].
  - intros _. cbn. by rewrite Hh, Hl, Hsv, Hp, lookup_insert_eq.
Qed.

Lemma update_result ev an now op r op' effects err :
  well_routed r → accounted (ho_hostnames op) r →
  applyAddOrUpdateEvent mode ev an now op = Ret (op', effects, err) → route_result ev err op' (foldl apply_effect r effects).
Proof.
  intros Hr Ha. unfold applyAddOrUpdateEvent. destruct (locateServiceFromManifest _ _ _) as [expose|e]; [|by intros [= <- <- <-]].
  destruct (ho_hostnames op !! he_hostname ev) as [entry|] eqn:Em.
  2:{ intros (eff & -> & Hres)%(connect_result _ _ _ _ _ r); [done|done|done|].
      intros ns c Hc. destruct (Ha _ _ _ Hc) as (e & He & _). congruence. }
  case_bool_decide as Hl.
  { intros (eff & -> & Hres)%(connect_result _ _ _ _ _ r); [done|done|done|].
    intros ns c Hc. destruct (Ha _ _ _ Hc) as (e & He & ->). simplify_eq. destruct (Hr _ _ _ Hc) as (_ & -> & _). cbn. by rewrite Hl. }
  destruct (removeHostnameFromDeployment _ _ _ _) as [effects0 [e|]] eqn:Er; apply remove_cases in Er.
  - intros [= <- <- <-]. destruct Er as [->|[_ ->]]; [|done]. cbn.
    destruct (routes_sub _ _ _ (unroute_sub (mh_presentLease entry) (he_hostname ev) r) Hr Ha). by split_and!.
  - destruct Er as [->|[[? ?] _]]; [|done].
    intros (eff & -> & Hres)%(connect_result _ _ _ _ _ (unroute (mh_presentLease entry) (he_hostname ev) r)); [done| | |].
    + by apply unroute_well.
    + cbn. apply unroute_accounted; [done|done|]. congruence.
    + intros ns c. rewrite (unroute_entry (ho_hostnames op)); done.
Qed.

(** ** The table after a start *)

Lemma table_snoc conns c : table_of (conns ++ [c])%list = <[co_Hostname c := entry_of c]> (table_of conns).
Proof. unfold table_of. by rewrite foldl_app. Qed.

Lemma table_lookup conns h e : table_of conns !! h = Some e → ∃ c, c ∈ conns ∧ co_Hostname c = h ∧ e = entry_of c.
Proof.
  induction conns as [|c conns IH] using rev_ind; [done|]. rewrite table_snoc.
  intros [[<- <-]|[_ He]]%lookup_insert_Some; [exists c; set_solver|]. destruct (IH He) as (c' & ? & ? & ?). exists c'. set_solver.
Qed.

Lemma table_listed conns c : c ∈ conns → is_Some (table_of conns !! co_Hostname c).
Proof.
  induction conns as [|c' conns IH] using rev_ind; [by intros ?%elem_of_nil|]. rewrite table_snoc, elem_of_app, lookup_insert_is_Some'.
  intros [Hc| ->%list_elem_of_singleton]; [right; by apply IH|by left].
Qed.

Lemma start_accounted conns r : well_routed r → conns ≡ₚ (map_to_list r).*2 → accounted (table_of conns) r.
Proof.
  intros Hr Hp ns h c Hc.
  assert (∀ c', c' ∈ conns ↔ ∃ k, r !! k = Some c') as Hin.
  { intros c'. rewrite Hp, list_elem_of_fmap. split.
    - intros ([k c0] & -> & Hk%elem_of_map_to_list). eauto.
    - intros (k & Hk%elem_of_map_to_list). by exists (k, c'). }
  destruct (Hr _ _ _ Hc) as (Hh & Hns & Hi & Hu). destruct (table_listed conns c) as [e He]; [apply Hin; eauto|].
  rewrite Hh in He. exists e. split; [done|]. destruct (table_lookup _ _ _ He) as (c' & Hc' & Hh' & ->).
  apply Hin in Hc' as [[ns' h'] Hc']. destruct (Hr _ _ _ Hc') as (E & _ & _). rewrite Hh' in E. subst h'.
  rewrite (Hu _ _ Hc') in Hc'. rewrite Hc in Hc'. injection Hc' as <-. unfold connection_of. cbn. rewrite i32_u32, Hi. rewrite <- Hh. by destruct c.
Qed.

(** ** The invariant holds *)

Lemma recordEventError_hostnames ev err now op : ho_hostnames (recordEventError ev err now op) = ho_hostnames op.
Proof. unfold recordEventError. by repeat case_match. Qed.

Lemma event_result ev an now op r op' effects err :
  well_routed r → accounted (ho_hostnames op) r → own_delete op (HEvent ev an now) →
  applyEvent mode cfg ev an now op = Ret (op', effects, err) →
  well_routed (foldl apply_effect r effects) ∧ accounted (ho_hostnames op') (foldl apply_effect r effects)
  ∧ (he_eventType ev ≠ ProviderResourceDelete → IsFlagged cfg (he_lid ev) (ho_leasesIgnored op) = false → err = None →
       foldl apply_effect r effects !! (LeaseIDToNamespace (he_lid ev), he_hostname ev)
       = Some (MkConnection (he_lid ev) (he_hostname ev) (i32 (he_externalPort ev)) (he_serviceName ev))).
Proof.
  intros Hr Ha Hd. unfold applyEvent. destruct (he_eventType ev) eqn:Et.
  1-2: destruct (IsFlagged _ _ _); [by intros [= <- <- <-]|]; rewrite obind_ret; intros ([[op1 eff] e] & Hs & [= <- <- <-]);
    destruct (update_result _ _ _ _ _ _ _ _ Hr Ha Hs) as (? & ? & ?); rewrite recordEventError_hostnames; by split_and!.
  - intros [= Hs]. specialize (Hd Et). unfold applyDeleteEvent in Hs.
    destruct (removeHostnameFromDeployment _ _ _ _) as [eff [e|]] eqn:Er; apply remove_cases in Er; simplify_eq.
    + destruct Er as [->|[_ ->]]; [|by split_and!]. cbn.
      destruct (routes_sub _ _ _ (unroute_sub (he_lid ev) (he_hostname ev) r) Hr Ha). by split_and!.
    + destruct Er as [->|[[? ?] _]]; [|done]. cbn. split_and!; [by apply unroute_well|by apply unroute_accounted|done].
Qed.

Lemma hstep_inv op r e op' effects :
  host_inv op r → own_delete op e → (∀ conns w, e = HStart conns w → conns ≡ₚ (map_to_list r).*2) →
  hstep mode cfg op e = Some (op', effects) → host_inv op' (foldl apply_effect r effects).
Proof.
  intros [Hr Ha] Hok Hlist. destruct e as [conns w| |ev an now|now|prepare now|]; cbn; destruct (ho_observing op) eqn:Eo; try done; cbn.
  - intros [= <- <-]. split; [done|]. intros _. apply start_accounted; [done|by eapply Hlist].
  - intros [= <- <-]. by split.
  - destruct (applyEvent mode cfg ev an now op) as [[[op1 eff] err]|] eqn:Ee; [|done].
    destruct (event_result _ _ _ _ _ _ _ _ Hr (Ha eq_refl) Hok Ee) as (? & ? & _). destruct err; intros [= <- <-]; by split.
  - intros [= <- <-]. split; [done|]. intros _. unfold prune. destruct (Prune _ _ _) as [il []]; by apply Ha.
  - intros [= <- <-]. split; [done|]. intros _. by apply Ha.
  - intros [= <- <-]. by split.
Qed.

(** Claim C16.  A hostname is never routed to two leases, from a start at which none
    is and every route is in its place, as long as a resource that is deleted names
    the lease that serves its hostname (when an update was ignored and its
    resource is deleted, it does not, and a second route can follow): however the operator fails and
    restarts and whatever routes others remove, in ingress and in gateway mode, there is at most one
    route of each hostname, during an observation every route is the one the
    table describes, and when an event other than a deletion, for a lease that is not ignored, has been
    applied without error the hostname is routed to the lease, service and
    port of the event. *)
Theorem one_route (op0 op : hostnameOperator) (r0 r : routes) (es : list hevent)
  (Hwell : well_routed r0) (Hidle : ho_observing op0 = false) (Hrun : hruns own_delete op0 r0 es op r) :
  (∀ ns ns' h c c', r !! (ns, h) = Some c → r !! (ns', h) = Some c' → ns = ns' ∧ c = c')
  ∧ (ho_observing op = true → accounted (ho_hostnames op) r)
  ∧ (∀ ev an now op' effects, ho_observing op = true → own_delete op (HEvent ev an now) →
       applyEvent mode cfg ev an now op = Ret (op', effects, None) →
       he_eventType ev ≠ ProviderResourceDelete → IsFlagged cfg (he_lid ev) (ho_leasesIgnored op) = false →
       foldl apply_effect r effects !! (LeaseIDToNamespace (he_lid ev), he_hostname ev)
       = Some (MkConnection (he_lid ev) (he_hostname ev) (i32 (he_externalPort ev)) (he_serviceName ev))).
Proof.
  assert (host_inv op r) as [Hr Ha].
  { induction Hrun as [|es op r e op' effects Hrun IH Hs Hok Hlist|es op r r' Hrun IH Hsub].
    - split; [done|congruence].
    - by eapply hstep_inv.
    - destruct IH as [Hr Ha]. split.
      + intros ns h c Hc. eapply lookup_weaken in Hc; [|exact Hsub]. destruct (Hr _ _ _ Hc) as (? & ? & ? & Hu). split_and!; [done..|].
        intros ns' c' Hc'. eapply lookup_weaken in Hc'; [|exact Hsub]. by eapply Hu.
      + intros Ho ns h c Hc. eapply (Ha Ho), lookup_weaken; eauto. }
  split_and!; [|done|].
  - intros ns ns' h c c' Hc Hc'. destruct (Hr _ _ _ Hc) as (_ & _ & _ & Hu). assert (ns' = ns) as -> by by eapply Hu. split; [done|congruence].
  - intros ev an now op' effects Ho Hd Hs Ht Hf. eapply event_result; eauto.
Qed.

End sound.

(** * Runs of the hostname operator

    The witness of the invariant, and a run that needs its condition: an update
    that is ignored and a deletion after it leave a route behind. *)

#[local] Instance ascii_only : GoUnicode := λ s, s.
#[local] Existing Instance PlainCosmos.plain.
#[local] Instance four_retries : ConflictRetries := 4%nat.
#[local] Instance expose_ports : ExposePorts := λ port external, if (external =? 0)%Z then port else external.
#[local] Instance error_texts : ErrorTexts := λ e, match e with NotFound => "not found" | Conflict => "conflict" | OtherError msg => msg end.
#[local] Existing Instance listed_order.

Definition cfg : IgnoreListConfig := MkIgnoreConfig 3 1000 1000.
Definition lid (owner : string) (n : Z) : LeaseID := MkLeaseID owner n 1 1 "p".
Definition alice1 : LeaseID := lid "alice" 1.
Definition alice2 : LeaseID := lid "alice" 2.
Definition bob : LeaseID := lid "bob" 3.

Definition web : ManifestService :=
  MkCrdService "web" "img" [] [] []
    (MkCrdResources 1 (MkRCPU 500 []) (MkRGPU 0 []) (MkRMemory "1024" []) []) 1
    [MkCrdExpose 80 0 "TCP" "" true ["app.example"] (MkCrdHTTP 0 0 0 0 0 [] false 0 0 0 0 0) "" 0] None None None "".

Definition refused : route_answers :=
  MkRouteAnswers (λ _, None) (Err Conflict) (λ _, Err Conflict) (λ _, MkExtAnswers (Err Conflict) (Err Conflict) []) (λ _, (Err Conflict, Err Conflict)).
Definition fine : api_answers := MkApiAnswers (Ok (MkCrdGroup "west" [web])) (Err NotFound) None refused None.
Definition no_manifest : api_answers := MkApiAnswers (Err NotFound) (Err NotFound) None refused None.

Definition event (t : ProviderResourceEvent) (l : LeaseID) : hostnameResourceEvent := MkHostEvent t "app.example" l "web" 80.

Definition idle : hostnameOperator := MkHostOperator ∅ NewIgnoreList ∅ false.

(** Drive the operator: an observation starts with the list of the routes. *)
Fixpoint drive (op : hostnameOperator) (r : routes) (steps : list (routes → hevent)) : option (list hevent * hostnameOperator * routes) :=
  match steps with
  | [] => Some ([], op, r)
  | f :: steps =>
      '(op1, effects) ← hstep IngressMode cfg op (f r);
      '(es, op2, r2) ← drive op1 (foldl (apply_effect IngressMode) r effects) steps;
      Some (f r :: es, op2, r2)
  end.

Definition start : routes → hevent := λ r, HStart (map_to_list r).*2 true.

(** Steps that start with the list, or do not start. *)
Definition lists (f : routes → hevent) : Prop := ∀ r conns w, f r = HStart conns w → conns ≡ₚ (map_to_list r).*2.

Lemma hruns_cons ok op r e op1 effects es op2 r2 :
  hstep IngressMode cfg op e = Some (op1, effects) → ok op e → (∀ conns w, e = HStart conns w → conns ≡ₚ (map_to_list r).*2) →
  hruns IngressMode cfg ok op1 (foldl (apply_effect IngressMode) r effects) es op2 r2 → hruns IngressMode cfg ok op r (e :: es) op2 r2.
Proof.
  intros Hs Hok Hl. induction 1 as [|es op' r' e' op'' eff Hrun IH Hs' Hok' Hl'|es op' r' r'' Hrun IH Hsub].
  - apply (hruns_snoc IngressMode cfg ok op r [] op r e op1 effects); [constructor|done..].
  - change (e :: es ++ [e'])%list with ((e :: es) ++ [e'])%list. by econstructor.
  - by eapply hruns_gone.
Qed.

Lemma drive_runs op r steps es op' r' :
  Forall lists steps → drive op r steps = Some (es, op', r') → hruns IngressMode cfg (λ _ _, True) op r es op' r'.
Proof.
  intros Hl. revert op r es. induction Hl as [|f steps Hf Hl IH]; intros op r es; cbn; [intros [= <- <- <-]; constructor|].
  destruct (hstep IngressMode cfg op (f r)) as [[op1 effects]|] eqn:Es; [|done]. cbn.
  destruct (drive op1 _ steps) as [[[es1 op2] r2]|] eqn:Ed; [|done]. cbn. intros [= <- <- <-].
  eapply hruns_cons; [done|done|apply Hf|]. by apply IH.
Qed.

Lemma start_lists : lists start.
Proof. by intros r conns w [= <- _]. Qed.

Lemma event_lists ev an now : lists (λ _, HEvent ev an now).
Proof. done. Qed.

(** ** The run of the witness *)

Definition swapped : list (routes → hevent) :=
  [start; (λ _, HEvent (event ProviderResourceAdd alice1) fine 1); (λ _, HEvent (event ProviderResourceUpdate alice2) fine 2)].
Definition swapped_end : hostnameOperator * routes :=
  match drive idle ∅ swapped with Some (_, op, r) => (op, r) | None => (idle, ∅) end.

Lemma hruns_weaken ok op0 r0 es op r :
  hruns IngressMode cfg (λ _ _, True) op0 r0 es op r → (∀ op e, e ∈ es → ok op e) → hruns IngressMode cfg ok op0 r0 es op r.
Proof.
  induction 1 as [|es op' r' e' op'' eff Hrun IH Hs' Hok' Hl'|es op' r' r'' Hrun IH Hsub]; intros Hok; [constructor| |].
  - econstructor; [apply IH|done|apply Hok|done]; set_solver.
  - eapply hruns_gone; [by apply IH|done].
Qed.

Definition driven (steps : list (routes → hevent)) : bool := match drive idle ∅ steps with Some _ => true | None => false end.

Lemma driven_spec steps : driven steps = true → is_Some (drive idle ∅ steps).
Proof. unfold driven. by destruct (drive idle ∅ steps). Qed.

Lemma drive_events (P : hevent → Prop) op r steps es op' r' :
  Forall (λ f, ∀ r, P (f r)) steps → drive op r steps = Some (es, op', r') → Forall P es.
Proof.
  intros Hl. revert op r es. induction Hl as [|f steps Hf Hl IH]; intros op r es; cbn; [intros [= <- _ _]; constructor|].
  destruct (hstep IngressMode cfg op (f r)) as [[op1 effects]|]; [|done]. cbn.
  destruct (drive op1 _ steps) as [[[es1 op2] r2]|] eqn:Ed; [|done]. cbn. intros [= <- <- <-]. constructor; [apply Hf|]. eapply IH, Ed.
Qed.

Lemma swapped_driven : driven swapped = true.
Proof. vm_compute. reflexivity. Qed.

Lemma swapped_runs : ∃ es, hruns IngressMode cfg (own_delete) idle ∅ es swapped_end.1 swapped_end.2.
Proof.
  unfold swapped_end. destruct (driven_spec _ swapped_driven) as [[[es op] r] E]. rewrite E. exists es. apply hruns_weaken.
  - eapply drive_runs, E. repeat constructor; [apply start_lists|apply event_lists..].
  - intros op' e He. assert (Forall (λ e, ∀ op, own_delete op e) es) as Hall by (eapply drive_events, E; by repeat constructor).
    rewrite Forall_forall in Hall. by apply Hall.
Qed.

Lemma one_route_witness :
  (∀ ns ns' h c c', swapped_end.2 !! (ns, h) = Some c → swapped_end.2 !! (ns', h) = Some c' → ns = ns' ∧ c = c')
  ∧ swapped_end.2 !! (LeaseIDToNamespace alice2, "app.example") = Some (MkConnection alice2 "app.example" 80 "web").
Proof.
  split; [|vm_compute; reflexivity]. destruct swapped_runs as [es Hrun].
  apply (proj1 (one_route IngressMode cfg idle swapped_end.1 ∅ swapped_end.2 es ltac:(by intros ??? ?%lookup_empty_Some) eq_refl Hrun)).
Defined.

(** ** A route that is left behind *)

(** The hostname moves to a lease whose manifest is missing: the event fails
    three times, is then ignored, and the resource is deleted. *)
Definition stranded : list (routes → hevent) :=
  [start; (λ _, HEvent (event ProviderResourceAdd alice1) fine 1);
   (λ _, HEvent (event ProviderResourceUpdate alice2) no_manifest 2);
   start; (λ _, HEvent (event ProviderResourceAdd alice2) no_manifest 3);
   start; (λ _, HEvent (event ProviderResourceAdd alice2) no_manifest 4);
   start; (λ _, HEvent (event ProviderResourceAdd alice2) no_manifest 5);
   (λ _, HEvent (event ProviderResourceDelete alice2) fine 6);
   (λ _, HEvent (event ProviderResourceAdd bob) fine 7)].

Definition stranded_end : routes := match drive idle ∅ stranded with Some (_, _, r) => r | None => ∅ end.

(** The entry of the hostname is dropped although another lease serves it, its
    route stays, and the next lease gets a second route of the same hostname. *)
Theorem ignored_update_strands_route :
  (∃ es op, hruns IngressMode cfg (λ _ _, True) idle ∅ es op stranded_end)
  ∧ stranded_end !! (LeaseIDToNamespace alice1, "app.example") = Some (MkConnection alice1 "app.example" 80 "web")
  ∧ stranded_end !! (LeaseIDToNamespace bob, "app.example") = Some (MkConnection bob "app.example" 80 "web").
Proof.
  split; [|split; vm_compute; reflexivity]. unfold stranded_end.
  assert (is_Some (drive idle ∅ stranded)) as [[[es op] r] E] by (apply driven_spec; vm_compute; reflexivity). rewrite E. exists es, op.
  eapply drive_runs, E. repeat constructor; first [apply start_lists|apply event_lists].
Qed.
