(* ===== verification/MetalLb.v ===== *)
(** * The MetalLB client

    [cluster/kube/operators/clients/metallb/client.go]: a leased IP address is
    a Kubernetes service of type LoadBalancer, with the sharing key as an
    annotation.  The client writes and removes these services, lists them back
    and reads the use of the address pool from MetalLB's metrics.  Answers of
    the API server are arguments; what was written or removed is recorded. *)
From Stdlib Require Import Ascii String.
From S2P Require Import Prelude GoStrings LeaseNames CrdManifest ProxyConfig HostRoutes.

Open Scope string_scope.

(** ** Protocols *)

(** The protocols of the SDK: the two that exist, the zero value of a field
    that was not set, the text of the verb v of a format, and the protocol of a
    Kubernetes port. *)
Class KubeProtocols `{Protocols} := {
  TCP : ServiceProtocol;
  UDP : ServiceProtocol;
  zero_protocol : ServiceProtocol;
  protocol_eq_dec :: EqDecision ServiceProtocol;
  Protocol_text : ServiceProtocol → string;
  ServiceProtocolFromKube : string → result string ServiceProtocol
}.

(** What the client relies on. *)
Class KubeProtocolLaws `{KubeProtocols} : Prop := {
  tcp_not_udp : TCP ≠ UDP;
  zero_not_tcp : zero_protocol ≠ TCP;
  zero_not_udp : zero_protocol ≠ UDP;
  tcp_text : Protocol_text TCP = "TCP";
  udp_text : Protocol_text UDP = "UDP";
  tcp_from_kube : ServiceProtocolFromKube "TCP" = Ok TCP;
  udp_from_kube : ServiceProtocolFromKube "UDP" = Ok UDP
}.

(** ** Label selectors *)

(** Requirements name=value that are joined by commas. *)
Definition selector : Type := list (string * string).
Definition matches (s : selector) (labels : label_map) : bool :=
  forallb (λ '(k, v), match labels !! k with Some v' => v' =? v | None => false end) s.

(** ** Services *)

Inductive int_or_string := IntVal (z : Z) | StrVal (s : string).
#[export] Instance int_or_string_eq_dec : EqDecision int_or_string.
Proof. solve_decision. Defined.

(** The value [strconv.Atoi] returns, next to an error or not. *)
Definition Atoi_value (s : string) : Z :=
  let signed (neg : bool) (s : string) :=
    match ParseUint s with
    | (_, Some err) => if err =? "invalid syntax" then 0%Z else if neg then (- 2 ^ 63)%Z else (2 ^ 63 - 1)%Z
    | (n, None) => if neg then Z.max (- n) (- 2 ^ 63) else Z.min n (2 ^ 63 - 1)
    end in
  match s with
  | String "-" s => signed true s
  | String "+" s => signed false s
  | s => signed false s
  end.

Definition IntValue (v : int_or_string) : Z := match v with IntVal z => z | StrVal s => Atoi_value s end.

(** [intstr.FromInt]. *)
Definition FromInt (z : Z) : int_or_string := IntVal (i32 z).

Record ServicePort := MkSvcPort { sp_Name : string; sp_Protocol : string; sp_Port : Z; sp_TargetPort : int_or_string }.

(** [ks_Ingress]: the addresses of the status. *)
Record KService := MkKService {
  ks_Name : string; ks_Labels : label_map; ks_Annotations : label_map; ks_Ports : list ServicePort;
  ks_Selector : label_map; ks_Type : string; ks_Ingress : list string }.

Definition AkashServiceTarget : string := "akash.network/service-target".
Definition AkashMetalLB : string := "metal-lb".
Definition AkashManifestServiceLabelName : string := "akash.network/manifest-service".
Definition metalLbAllowSharedIP : string := "metallb.universe.tf/allow-shared-ip".
Definition metalLbPoolAnnotation : string := "metallb.universe.tf/address-pool".
Definition defaultMetalLBPoolName : string := "default".
Definition ServiceTypeLoadBalancer : string := "LoadBalancer".

(** The selector of both listings. *)
Definition metallb_selector : selector := [(AkashManagedLabelName, "true"); (AkashServiceTarget, AkashMetalLB)].

Section client.
Context `{KubeProtocols} `{GoUnicode} `{Cosmos}.

(** [ClusterIPPassthroughDirective]. *)
Record IpDirective := MkIpDirective {
  id_LeaseID : LeaseID; id_ServiceName : string; id_Port : Z; id_ExternalPort : Z; id_SharingKey : string;
  id_Protocol : ServiceProtocol }.

Definition createIPPassthroughResourceName (d : IpDirective) : string :=
  ToLower (id_ServiceName d +:+ "-ip-" +:+ FormatUint (id_ExternalPort d) +:+ "-" +:+ Protocol_text (id_Protocol d)).

Definition kube_protocol (p : ServiceProtocol) : option string :=
  if bool_decide (p = TCP) then Some "TCP" else if bool_decide (p = UDP) then Some "UDP" else None.

Variable poolName : string.

(** The object of a directive. *)
Definition service_object (proto : string) (d : IpDirective) : KService :=
  let name := createIPPassthroughResourceName d in
  let annotations := <[metalLbAllowSharedIP := id_SharingKey d]> (∅ : label_map) in
  MkKService name
    (<[AkashServiceTarget := AkashMetalLB]> (<[AkashManagedLabelName := "true"]> (AppendLeaseLabels (id_LeaseID d) ∅)))
    (if negb (poolName =? defaultMetalLBPoolName) then <[metalLbPoolAnnotation := poolName]> annotations else annotations)
    [MkSvcPort name proto (i32 (id_ExternalPort d)) (FromInt (id_Port d))]
    (<[AkashManifestServiceLabelName := id_ServiceName d]> (<[AkashManagedLabelName := "true"]> ∅))
    ServiceTypeLoadBalancer [].

(** What succeeded: the service of a directive was created in the namespace of
    its lease, or updated; a service was deleted, or found not to be there. *)
Inductive svc_effect :=
| SvcCreated (d : IpDirective) (s : KService)
| SvcUpdated (d : IpDirective) (s : KService) (version : Z)
| SvcDeleted (ns name : string).

(** The answers to the [Get] and to the write, and to a [Delete]. *)
Record ip_answers := MkIpAnswers { ia_get : result kerror Z; ia_write : option kerror; ia_delete : option kerror }.

Definition CreateIPPassthrough (d : IpDirective) (an : ip_answers) : list svc_effect * option kerror :=
  match kube_protocol (id_Protocol d) with
  | None => ([], Some (OtherError "internal error unknown protocol"))
  | Some proto =>
      let write e := match ia_write an with None => ([e], None) | Some err => ([], Some err) end in
      match ia_get an with
      | Ok version => write (SvcUpdated d (service_object proto d) version)
      | Err NotFound => write (SvcCreated d (service_object proto d))
      | Err e => ([], Some e)
      end
  end.

Definition PurgeIPPassthrough (d : IpDirective) (an : ip_answers) : list svc_effect * option kerror :=
  let gone := SvcDeleted (LeaseIDToNamespace (id_LeaseID d)) (createIPPassthroughResourceName d) in
  match ia_delete an with
  | None | Some NotFound => ([gone], None)
  | Some e => ([], Some e)
  end.

(** ** Listing *)

Record ipPassthrough := MkPassthrough {
  pt_LeaseID : LeaseID; pt_ServiceName : string; pt_Port : Z; pt_ExternalPort : Z; pt_SharingKey : string;
  pt_Protocol : ServiceProtocol }.

Definition map_value (m : label_map) (k : string) : string := default EmptyString (m !! k).

(** One service of [GetIPPassthroughs]; [None] is not of a deployment.  The
    port is left at its zero value. *)
Definition passthrough_of (s : KService) : result string (option ipPassthrough) :=
  match ks_Labels s !! AkashLeaseOwnerLabelName with
  | None => Ok None
  | Some _ =>
      if negb (ks_Type s =? ServiceTypeLoadBalancer) then Err "metal lb error: wrong type in service definition"
      else match ks_Ports s with
      | [port] =>
          (let* lid := RecoverLeaseIDFromLabels (ks_Labels s) in
          let* proto := ServiceProtocolFromKube (sp_Protocol port) in
          let serviceName := map_value (ks_Selector s) AkashManifestServiceLabelName in
          if serviceName =? "" then Err "metal lb error: service has empty selector"
          else Ok (Some (MkPassthrough lid serviceName 0 (u32 (sp_Port port)) (map_value (ks_Annotations s) metalLbAllowSharedIP) proto)))%go
      | _ => Err "metal lb error: wrong number of ports in load balancer service definition"
      end
  end.

(** All services of the cluster, in the order they are listed. *)
Fixpoint passthroughs_of (l : list KService) : result string (list ipPassthrough) :=
  match l with
  | [] => Ok []
  | s :: l => let* p := passthrough_of s in let* ps := passthroughs_of l in Ok (match p with Some p => p :: ps | None => ps end)
  end%go.
Definition GetIPPassthroughs (services : list KService) : result string (list ipPassthrough) :=
  passthroughs_of (List.filter (λ s, matches metallb_selector (ks_Labels s)) services).

Record ipLeaseState := MkLeaseState { ls_Passthrough : ipPassthrough; ls_IP : string }.

(** One service of [GetIPAddressStatusForLease]. *)
Definition lease_state_of (lid : LeaseID) (s : KService) : result string ipLeaseState :=
  match ks_Ingress s with
  | [ip] =>
      match ks_Ports s with
      | [port] =>
          (let* proto := ServiceProtocolFromKube (sp_Protocol port) in
          Ok (MkLeaseState
                (MkPassthrough lid (map_value (ks_Selector s) AkashManifestServiceLabelName) (u32 (IntValue (sp_TargetPort port)))
                   (u32 (sp_Port port)) (map_value (ks_Annotations s) metalLbAllowSharedIP) proto) ip))%go
      | _ => Err "metal lb error lease service error: port specs"
      end
  | _ => Err "metal lb error lease service error: load balancers"
  end.

Fixpoint lease_states_of (lid : LeaseID) (l : list KService) : result string (list ipLeaseState) :=
  match l with
  | [] => Ok []
  | s :: l => let* st := lease_state_of lid s in let* sts := lease_states_of lid l in Ok (st :: sts)
  end%go.
(** [services]: those of the namespace of the lease. *)
Definition GetIPAddressStatusForLease (lid : LeaseID) (services : list KService) : result string (list ipLeaseState) :=
  lease_states_of lid (List.filter (λ s, matches metallb_selector (ks_Labels s)) services).

End client.

(** ** Use of the address pool *)

Definition metricNameAddrInUse : string := "metallb_allocator_addresses_in_use_total".
Definition metricNameAddrTotal : string := "metallb_allocator_addresses_total".

Section usage.
Context {F : Type} (uint : F → Z) `{MapOrder}.

(** A metric: its gauge, if it is one, whose value may be nil, and labels. *)
Record metric := MkMetric { me_Gauge : option (option F); me_Label : list (string * string) }.

Variable poolName : string.

(** The labels of one metric: the first that names the pool ends the search. *)
Fixpoint search_labels (value : option F) (labels : list (string * string)) : outcome (option Z) :=
  match labels with
  | [] => Ret None
  | (k, v) :: labels =>
      if negb (k =? "pool") then search_labels value labels
      else if negb (v =? poolName) then search_labels value labels
      else (let! x := deref value in Ret (Some (uint x)))%go
  end.

Fixpoint search_metrics (l : list metric) : outcome (option Z) :=
  match l with
  | [] => Ret None
  | m :: l =>
      match me_Gauge m with
      | None => search_metrics l
      | Some value =>
          (let! found := search_labels value (me_Label m) in
          match found with Some z => Ret (Some z) | None => search_metrics l end)%go
      end
  end.

(** The two counts, each [None] until it is set. *)
Fixpoint search_families (l : list (string * list metric)) (inUse available : option Z) : outcome (option Z * option Z) :=
  match l with
  | [] => Ret (inUse, available)
  | (name, metrics) :: l =>
      if bool_decide (is_Some inUse ∧ is_Some available) then Ret (inUse, available)
      else if name =? metricNameAddrInUse then
        (let! z := search_metrics metrics in search_families l (match z with Some z => Some z | None => inUse end) available)%go
      else if name =? metricNameAddrTotal then
        (let! z := search_metrics metrics in search_families l inUse (match z with Some z => Some z | None => available end))%go
      else search_families l inUse available
  end.

(** What is returned for the families of a response. *)
Definition usage_of (families : gmap string (list metric)) : outcome (Z * Z) :=
  (let! (inUse, available) := search_families (map_order _ (map_to_list families)) None None in
  Ret (default 0%Z inUse, default 0%Z available))%go.

Definition MaxUint32 : Z := (2 ^ 32 - 1)%Z.

(** The answer to the request: the client, the request, the response, its
    status and its parsed body. *)
Definition GetIPAddressUsage (setup : option string) (response : result string (Z * result string (gmap string (list metric))))
  : outcome (Z * Z * option string) :=
  let failed e := Ret (MaxUint32, MaxUint32, Some e) in
  match setup with
  | Some e => failed e
  | None =>
      match response with
      | Err e => failed e
      | Ok (status, body) =>
          if negb (status =? 200)%Z then failed "metal lb error: response status"
          else match body with
          | Err e => failed e
          | Ok families => (let! (u, a) := usage_of families in Ret (u, a, None))%go
          end
      end
  end.

(** The count of a pool in the family of a name, wherever it is. *)
Definition pool_count (families : gmap string (list metric)) (name : string) : Z :=
  match families !! name with
  | Some l => match search_metrics l with Ret (Some z) => z | _ => 0%Z end
  | None => 0%Z
  end.

Lemma search_labels_some x labels : ∃ z, search_labels (Some x) labels = Ret z.
Proof. induction labels as [|[k v] labels IH]; cbn; [eauto|]. repeat case_match; eauto. Qed.

Definition valued (m : metric) : Prop := me_Gauge m ≠ Some None.

Lemma search_metrics_valued l : Forall valued l → ∃ z, search_metrics l = Ret z.
Proof.
  induction 1 as [|m l Hm _ IH]; cbn; [eauto|]. unfold valued in Hm. destruct (me_Gauge m) as [[x|]|]; [|done|done].
  destruct (search_labels_some x (me_Label m)) as [[z|] ->]; cbn; eauto.
Qed.

(** The count of a name in a list of families. *)
Definition count_in (l : list (string * list metric)) (name : string) : option Z :=
  match List.find (λ f, f.1 =? name) l with
  | Some f => match search_metrics f.2 with Ret z => z | Panic => None end
  | None => None
  end.

Lemma count_absent l name : name ∉ l.*1 → count_in l name = None.
Proof.
  unfold count_in. induction l as [|[n ms] l IH]; [done|]. cbn. intros Hn. apply not_elem_of_cons in Hn as [Hn Hl].
  destruct (String.eqb_spec n name) as [<-|]; [done|by apply IH].
Qed.

Lemma search_families_spec l inUse available :
  NoDup l.*1 → Forall (λ f, Forall valued f.2) l →
  (is_Some inUse → metricNameAddrInUse ∉ l.*1) → (is_Some available → metricNameAddrTotal ∉ l.*1) →
  search_families l inUse available
  = Ret (match inUse with Some z => Some z | None => count_in l metricNameAddrInUse end,
         match available with Some z => Some z | None => count_in l metricNameAddrTotal end).
Proof.
  revert inUse available. induction l as [|[name ms] l IH]; intros u a Hnd Hv Hu Ha; cbn [search_families].
  { by destruct u, a. }
  apply NoDup_cons in Hnd as [Hn Hnd]. apply Forall_cons in Hv as [Hms Hv]. cbn in Hn, Hms.
  destruct (search_metrics_valued ms Hms) as [z Ez]. case_bool_decide as Hb.
  { destruct Hb as [[x ->] [y ->]]. done. }
  unfold count_in. cbn [List.find fst]. destruct (String.eqb_spec name metricNameAddrInUse) as [->|Hne].
  - cbn [snd]. rewrite Ez. cbn [obind]. change (metricNameAddrInUse =? metricNameAddrTotal) with false. cbv iota.
    destruct u as [x|]; [destruct Hu; [eauto|cbn; set_solver]|]. fold (count_in l metricNameAddrTotal).
    rewrite IH; [|done|done|done|by intros ?%Ha; cbn in *; set_solver]. f_equal. f_equal. destruct z; [done|by apply count_absent].
  - destruct (String.eqb_spec name metricNameAddrTotal) as [->|Hne'].
    + cbn [snd]. rewrite Ez. cbn [obind]. destruct a as [x|]; [destruct Ha; [eauto|cbn; set_solver]|].
      fold (count_in l metricNameAddrInUse).
      rewrite IH; [|done|done|by intros ?%Hu; cbn in *; set_solver|done]. f_equal. f_equal. destruct z; [done|by apply count_absent].
    + fold (count_in l metricNameAddrInUse) (count_in l metricNameAddrTotal). apply IH; [done|done| |].
      * intros ?%Hu. cbn in *. set_solver.
      * intros ?%Ha. cbn in *. set_solver.
Qed.

Lemma count_in_map families name :
  default 0%Z (count_in (map_order _ (map_to_list families)) name) = pool_count families name.
Proof.
  pose proof (map_order_perm _ (map_to_list families)) as Hp. unfold count_in, pool_count.
  destruct (List.find _ _) as [[n ms]|] eqn:Ef.
  - apply List.find_some in Ef as [Hin Hn]. apply String.eqb_eq in Hn. cbn in Hn. subst n. apply list_elem_of_In in Hin. rewrite Hp in Hin.
    apply elem_of_map_to_list in Hin. rewrite Hin. cbn. by destruct (search_metrics ms) as [[]|].
  - destruct (families !! name) as [ms|] eqn:El; [|done]. apply elem_of_map_to_list in El. rewrite <- Hp in El.
    apply list_elem_of_In in El. eapply List.find_none in Ef; [|exact El]. cbn in Ef. by rewrite String.eqb_refl in Ef.
Qed.

(** The counts of the address pool do not depend on the order in
    which Go walks the metrics: though the search stops as soon as both are
    found, each is that of the first gauge of its family labelled with the
    pool, or 0 when there is none. *)
Theorem usage_by_name (families : gmap string (list metric))
  (Hvalued : ∀ name l, families !! name = Some l → Forall valued l) :
  usage_of families = Ret (pool_count families metricNameAddrInUse, pool_count families metricNameAddrTotal).
Proof.
  pose proof (map_order_perm _ (map_to_list families)) as Hp. unfold usage_of. rewrite search_families_spec.
  - cbn. by rewrite !count_in_map.
  - rewrite Hp. apply NoDup_fst_map_to_list.
  - rewrite Hp. apply Forall_forall. intros [n l] Hl%elem_of_map_to_list. by eapply Hvalued.
  - by intros [].
  - by intros [].
Qed.

End usage.

(** ** Names *)

(** Characters that [ToLower] leaves alone: those of DNS labels. *)
Lemma name_ok_lower c : name_ok c = true → is_ascii c && (lower_ascii c =? c)%char = true.
Proof.
  intros Hc. enough (implb (name_ok c) (is_ascii c && (lower_ascii c =? c)%char) = true) as E by by rewrite Hc in E.
  revert c Hc. intros c _. revert c. apply bytes_forall. vm_compute. reflexivity.
Qed.

Lemma str_map_app f s t : str_map f (s +:+ t) = str_map f s +:+ str_map f t.
Proof. induction s as [|c s IH]; [done|]. rewrite str_app_cons. cbn. by rewrite IH. Qed.

Lemma ToLower_names `{GoUnicode} s t :
  str_forall name_ok s = true → str_forall is_ascii t = true → ToLower (s +:+ t) = s +:+ str_map lower_ascii t.
Proof.
  intros Hs Ht. unfold ToLower. rewrite str_forall_app, Ht.
  rewrite (str_forall_impl name_ok is_ascii s) by (done || intros c [??]%name_ok_lower%andb_true_iff; done). cbn.
  rewrite str_map_app. f_equal. apply (str_map_forall_id name_ok); [|done].
  intros c [_ E%Ascii.eqb_eq]%name_ok_lower%andb_true_iff. done.
Qed.

Lemma digits_name_ok s : str_forall is_digit s = true → str_forall name_ok s = true.
Proof. apply str_forall_impl. intros c Hc. unfold name_ok. rewrite Hc. by destruct (is_lower c). Qed.

Section names.
Context `{KubeProtocols} `{!KubeProtocolLaws} `{GoUnicode} `{Cosmos}.

(** A directive that the client can carry out, with the values a manifest
    allows: the name of a service is a DNS label. *)
Definition directive_ok (d : IpDirective) : Prop :=
  lease_widths (id_LeaseID d) ∧ str_forall name_ok (id_ServiceName d) = true ∧ id_ServiceName d ≠ ""
  ∧ (0 ≤ id_Port d < 2 ^ 32)%Z ∧ (0 ≤ id_ExternalPort d < 2 ^ 32)%Z ∧ (id_Protocol d = TCP ∨ id_Protocol d = UDP).

Lemma lower_protocol p : p = TCP ∨ p = UDP → str_map lower_ascii (Protocol_text p) = if bool_decide (p = TCP) then "tcp" else "udp".
Proof.
  pose proof tcp_not_udp. intros [->| ->]; [by rewrite tcp_text, bool_decide_eq_true_2|]. rewrite udp_text, bool_decide_eq_false_2; [done|].
  intros E. by apply tcp_not_udp.
Qed.

Lemma protocol_ascii p : p = TCP ∨ p = UDP → str_forall is_ascii (Protocol_text p) = true.
Proof. intros [->| ->]; rewrite ?tcp_text, ?udp_text; done. Qed.

Lemma name_eq d :
  directive_ok d →
  createIPPassthroughResourceName d
  = id_ServiceName d +:+ "-ip-" +:+ Itoa (Z.to_N (id_ExternalPort d)) +:+ "-" +:+ (if bool_decide (id_Protocol d = TCP) then "tcp" else "udp").
Proof.
  intros (_ & Hs & _ & _ & _ & Hp). unfold createIPPassthroughResourceName, FormatUint. rewrite <- lower_protocol by done.
  rewrite ToLower_names; [|done|].
  - f_equal. rewrite !str_map_app. do 2 f_equal. apply (str_map_forall_id name_ok); [|apply digits_name_ok, Itoa_digits].
    intros c [_ E%Ascii.eqb_eq]%name_ok_lower%andb_true_iff. done.
  - rewrite !str_forall_app, protocol_ascii by done. rewrite (str_forall_impl name_ok is_ascii (Itoa _)); [done| |apply digits_name_ok, Itoa_digits].
    intros c [??]%name_ok_lower%andb_true_iff. done.
Qed.

(** Two directives that the client carries out have the same service only
    when they name the same service, external port and protocol: the digits
    and the protocol can be read off the end of the name. *)
Lemma passthrough_name_inj d d' :
  directive_ok d → directive_ok d' → createIPPassthroughResourceName d = createIPPassthroughResourceName d' →
  id_ServiceName d = id_ServiceName d' ∧ id_ExternalPort d = id_ExternalPort d' ∧ id_Protocol d = id_Protocol d'.
Proof.
  intros Hd Hd'. rewrite !name_eq by done. destruct Hd as (_ & _ & _ & _ & He & Hp), Hd' as (_ & _ & _ & _ & He' & Hp').
  set (q := if bool_decide (id_Protocol d = TCP) then "tcp" else "udp"). set (q' := if bool_decide (id_Protocol d' = TCP) then "tcp" else "udp").
  intros E. apply (f_equal str_rev) in E. rewrite !str_rev_app_distr, !str_app_assoc in E.
  assert (∀ b : bool, str_forall is_lower (str_rev (if b then "tcp" else "udp")) = true) as Hq by by intros [].
  change (str_rev "-") with "-" in E. change (str_rev "-ip-") with "-pi-" in E.
  apply (str_split_at is_lower "-") in E as [Eq E]; [|done|apply Hq..].
  apply (str_split_at is_digit "-") in E as [En E]; [|done|rewrite str_forall_rev; apply Itoa_digits..].
  injection E as E. apply (f_equal str_rev) in E, En, Eq. rewrite !str_rev_involutive in E, En, Eq. apply Itoa_inj in En.
  split_and!; [done|lia|]. unfold q, q' in Eq. destruct Hp as [Hp|Hp], Hp' as [Hp'|Hp']; rewrite Hp, Hp' in Eq |- *; [done| | |done]; pose proof tcp_not_udp; case_bool_decide; case_bool_decide; congruence.
Qed.

Lemma protocol_reads p :
  p = TCP ∨ p = UDP → ∃ proto, kube_protocol p = Some proto ∧ ServiceProtocolFromKube proto = Ok p.
Proof.
  pose proof tcp_not_udp. unfold kube_protocol. intros [->| ->].
  - rewrite bool_decide_eq_true_2 by done. exists "TCP". by rewrite tcp_from_kube.
  - rewrite bool_decide_eq_false_2 by congruence. rewrite bool_decide_eq_true_2 by done. exists "UDP". by rewrite udp_from_kube.
Qed.

Lemma object_labels poolName proto d :
  let labels := ks_Labels (service_object poolName proto d) in
  matches metallb_selector labels = true ∧ labels !! AkashLeaseOwnerLabelName = Some (lid_Owner (id_LeaseID d))
  ∧ (lease_widths (id_LeaseID d) → RecoverLeaseIDFromLabels labels = Ok (id_LeaseID d)).
Proof.
  cbn [service_object ks_Labels]. split_and!.
  - unfold matches. cbn [metallb_selector forallb]. by rewrite lookup_insert_ne, !lookup_insert_eq.
  - unfold AppendLeaseLabels. by repeat first [rewrite lookup_insert_eq|rewrite lookup_insert_ne by done].
  - intros Hl. rewrite <- (labels_roundtrip (id_LeaseID d) ∅ Hl). unfold RecoverLeaseIDFromLabels, label. by rewrite !lookup_insert_ne by done.
Qed.

Lemma object_values poolName proto d :
  map_value (ks_Annotations (service_object poolName proto d)) metalLbAllowSharedIP = id_SharingKey d
  ∧ map_value (ks_Selector (service_object poolName proto d)) AkashManifestServiceLabelName = id_ServiceName d.
Proof.
  unfold map_value. cbn [service_object ks_Annotations ks_Selector]. rewrite lookup_insert_eq. split; [|done].
  destruct (negb _); [rewrite lookup_insert_ne by done|]; by rewrite lookup_insert_eq.
Qed.

(** The service of a directive once MetalLB has given it addresses. *)
Definition with_addresses (ips : list string) (s : KService) : KService :=
  MkKService (ks_Name s) (ks_Labels s) (ks_Annotations s) (ks_Ports s) (ks_Selector s) (ks_Type s) ips.

(** What is known of a directive from its service. *)
Definition passthrough_for (port : Z) (d : IpDirective) : ipPassthrough :=
  MkPassthrough (id_LeaseID d) (id_ServiceName d) port (id_ExternalPort d) (id_SharingKey d) (id_Protocol d).

Lemma passthrough_of_object poolName proto ips d :
  directive_ok d → ServiceProtocolFromKube proto = Ok (id_Protocol d) →
  passthrough_of (with_addresses ips (service_object poolName proto d)) = Ok (Some (passthrough_for 0 d)).
Proof.
  intros (Hl & _ & Hn & _ & He & _) Hp. destruct (object_labels poolName proto d) as (_ & Ho & Hr).
  destruct (object_values poolName proto d) as [Ha Hs]. unfold passthrough_of. cbn [with_addresses ks_Labels ks_Type ks_Ports ks_Selector ks_Annotations].
  rewrite Ho, Hr, Ha, Hs by done. cbn [service_object ks_Type ks_Ports sp_Protocol sp_Port]. rewrite Hp. cbn -[u32 i32].
  apply String.eqb_neq in Hn. rewrite Hn. by rewrite u32_i32, u32_id.
Qed.

Lemma lease_state_of_object poolName proto ip d :
  directive_ok d → ServiceProtocolFromKube proto = Ok (id_Protocol d) →
  lease_state_of (id_LeaseID d) (with_addresses [ip] (service_object poolName proto d)) = Ok (MkLeaseState (passthrough_for (id_Port d) d) ip).
Proof.
  intros (_ & _ & _ & Hp & He & _) Hproto. destruct (object_values poolName proto d) as [Ha Hs].
  unfold lease_state_of. cbn [with_addresses ks_Ingress ks_Ports ks_Selector ks_Annotations]. rewrite Ha, Hs.
  cbn [service_object ks_Ports sp_Protocol sp_Port sp_TargetPort]. rewrite Hproto. cbn -[u32 i32]. by rewrite !u32_i32, !u32_id.
Qed.

(** What the client writes for a leased IP it reads back after a
    restart, except the port of the service, which comes back as zero: lease,
    service, external port, sharing key and protocol are those of the directive.
    Once an address is assigned, the status of the lease has the port too. *)
Theorem passthrough_roundtrip (poolName : string) (d : IpDirective) (an : ip_answers) (effects : list svc_effect)
  (Hd : directive_ok d) (Hwritten : CreateIPPassthrough poolName d an = (effects, None)) :
  ∃ s, (effects = [SvcCreated d s] ∨ ∃ v, effects = [SvcUpdated d s v])
  ∧ ks_Name s = createIPPassthroughResourceName d
  ∧ (∀ ips, GetIPPassthroughs [with_addresses ips s] = Ok [passthrough_for 0 d])
  ∧ (∀ ip, GetIPAddressStatusForLease (id_LeaseID d) [with_addresses [ip] s] = Ok [MkLeaseState (passthrough_for (id_Port d) d) ip]).
Proof.
  destruct (protocol_reads (id_Protocol d)) as (proto & Ek & Ef); [apply Hd|].
  exists (service_object poolName proto d). unfold CreateIPPassthrough in Hwritten. rewrite Ek in Hwritten.
  split; [destruct (ia_get an) as [v|[]], (ia_write an); simplify_eq; eauto|]. split; [done|].
  unfold GetIPPassthroughs, GetIPAddressStatusForLease. cbn [List.filter with_addresses ks_Labels].
  destruct (object_labels poolName proto d) as (-> & _ & _). split.
  - intros ips. cbn [passthroughs_of]. by rewrite (passthrough_of_object poolName proto ips d).
  - intros ip. cbn [lease_states_of]. by rewrite (lease_state_of_object poolName proto ip d).
Qed.

End names.
