(* ===== verification/IpOperator.v ===== *)
(** * The IP operator

    [operator/ip/operator.go] and [types.go]: follows the [ProviderLeasedIP]
    resources and keeps, for every leased IP, one service of MetalLB in the
    namespace of the lease.  The answers of the API server and of MetalLB to one
    turn of the loop are arguments of the turn. *)
From Stdlib Require Import Ascii String.
From S2P Require Import Prelude Traces GoStrings ChainTypes LeaseNames CrdManifest ProxyConfig HostRoutes OperatorCommon.
From S2P Require Import HostnameOperator MetalLb.

Open Scope string_scope.

(** ** Observation *)

(** [ProviderLeasedIPSpec]. *)
Record LeasedIPSpec := MkLeasedIP {
  lp_LeaseID : CrdLeaseID; lp_ServiceName : string; lp_Port : Z; lp_ExternalPort : Z; lp_SharingKey : string; lp_Protocol : string }.

Section observe.
Context `{KubeProtocols} `{Cosmos}.

(** The type of an event is empty when the watch reported an error. *)
Record ipResourceEvent := MkIpEvent {
  ev_lID : LeaseID; ev_eventType : option ProviderResourceEvent; ev_serviceName : string; ev_port : Z; ev_externalPort : Z;
  ev_sharingKey : string; ev_protocol : ServiceProtocol }.

Definition ip_event (t : option ProviderResourceEvent) (s : LeasedIPSpec) : result string ipResourceEvent :=
  (let* _ := AccAddress_String (cl_Owner (lp_LeaseID s)) in
  let* _ := AccAddress_String (cl_Provider (lp_LeaseID s)) in
  let* lid := LeaseID_FromCRD (lp_LeaseID s) in
  let* proto := ParseServiceProtocol (lp_Protocol s) in
  Ok (MkIpEvent lid t (lp_ServiceName s) (lp_Port s) (lp_ExternalPort s) (lp_SharingKey s) proto))%go.

(** The resources that exist when the observation starts: one that cannot be
    read fails the observation. *)
Fixpoint listed_ips (data : list LeasedIPSpec) : result string (list ipResourceEvent) :=
  match data with
  | [] => Ok []
  | s :: data => let* ev := ip_event (Some ProviderResourceAdd) s in let* evs := listed_ips data in Ok (ev :: evs)
  end%go.

(** Results of the watch: a change, a type of change that is not followed, an
    error, each with a leased IP; and any with another object. *)
Inductive ip_watch_result :=
| IpWatched (t : ProviderResourceEvent) (s : LeasedIPSpec)
| IpUnfollowed (s : LeasedIPSpec)
| IpWatchError (s : LeasedIPSpec)
| IpOtherObject.

(** A resource that cannot be read is skipped; an object of another type
    panics in the goroutine. *)
Definition watched_ip (w : ip_watch_result) : outcome (list ipResourceEvent) :=
  let emit t s := match ip_event t s with Ok ev => [ev] | Err _ => [] end in
  match w with
  | IpOtherObject => Panic
  | IpWatched t s => Ret (emit (Some t) s)
  | IpWatchError s => Ret (emit None s)
  | IpUnfollowed _ => Ret []
  end.

Fixpoint watched_ips (l : list ip_watch_result) : outcome (list ipResourceEvent) :=
  match l with
  | [] => Ret []
  | w :: l => let! evs := watched_ip w in let! evs' := watched_ips l in Ret (evs ++ evs')%list
  end%go.

(** The events of an observation, or the error that prevents it. *)
Definition observeIPState (data : list LeasedIPSpec) (l : list ip_watch_result) : result string (outcome (list ipResourceEvent)) :=
  (let* listed := listed_ips data in Ok (let! watched := watched_ips l in Ret (listed ++ watched)%list))%go.

End observe.

(** ** The operator *)

Section operator.
Context `{KubeProtocols} `{GoUnicode} `{Cosmos} `{ErrorTexts} `{MapOrder}.

Record managedIP := MkManagedIP {
  mi_presentLease : LeaseID; mi_presentServiceName : string; mi_lastEvent : option ipResourceEvent; mi_presentSharingKey : string;
  mi_presentExternalPort : Z; mi_presentPort : Z; mi_lastChangedAt : Z; mi_presentProtocol : ServiceProtocol }.

(** [io_observing]: the barrier is enabled, that is, the loop of
    [monitorUntilError] runs. *)
Record ipOperator := MkIpOperator {
  io_state : gmap string managedIP;
  io_leasesIgnored : ignoreList;
  io_server : operatorHTTP;
  io_available : Z;
  io_inUse : Z;
  io_observing : bool
}.

Definition flagState (op : ipOperator) : ipOperator :=
  MkIpOperator (io_state op) (io_leasesIgnored op) (flag_endpoint "/state" (io_server op)) (io_available op) (io_inUse op) (io_observing op).
Definition set_state (m : gmap string managedIP) (op : ipOperator) : ipOperator :=
  MkIpOperator m (io_leasesIgnored op) (io_server op) (io_available op) (io_inUse op) (io_observing op).
Definition set_ignored (il : ignoreList) (op : ipOperator) : ipOperator :=
  MkIpOperator (io_state op) il (flag_endpoint "/ignored-leases" (io_server op)) (io_available op) (io_inUse op) (io_observing op).
Definition set_observing (b : bool) (op : ipOperator) : ipOperator :=
  MkIpOperator (io_state op) (io_leasesIgnored op) (io_server op) (io_available op) (io_inUse op) b.

Definition newIPOperator (now : Z) : outcome ipOperator :=
  (let! server := AddPreparedEndpoint "/state" now ∅ in
  let! server := AddPreparedEndpoint "/ignored-leases" now server in
  let! server := AddPreparedEndpoint "/usage" now server in
  Ret (MkIpOperator ∅ NewIgnoreList server 0 0 false))%go.

Definition getStateKey (lid : LeaseID) (sharingKey : string) (externalPort : Z) : string :=
  lid_Owner lid +:+ "-" +:+ sharingKey +:+ "-" +:+ FormatUint externalPort.

Definition event_key (ev : ipResourceEvent) : string := getStateKey (ev_lID ev) (ev_sharingKey ev) (ev_externalPort ev).

Definition buildIPDirective (ev : ipResourceEvent) : IpDirective :=
  MkIpDirective (ev_lID ev) (ev_serviceName ev) (ev_port ev) (ev_externalPort ev) (ev_sharingKey ev) (ev_protocol ev).

Inductive ip_failure := IpApi (e : kerror) | IpUnknownEvent.

Definition recordIPEventError (ev : ipResourceEvent) (failure : option kerror) (now : Z) (op : ipOperator) : ipOperator :=
  match failure with
  | Some NotFound => set_ignored (AddError (ev_lID ev) (kerror_text NotFound) [ev_sharingKey ev] now (io_leasesIgnored op)) op
  | _ => op
  end.

Variable poolName : string.

Definition applyIPDeleteEvent (ev : ipResourceEvent) (an : ip_answers) (op : ipOperator) : ipOperator * list svc_effect * option kerror :=
  match PurgeIPPassthrough (buildIPDirective ev) an with
  | (effects, None) => (flagState (set_state (delete (event_key ev) (io_state op)) op), effects, None)
  | (effects, Some e) => (op, effects, Some e)
  end.

(** The directive that removes what an entry describes. *)
Definition entry_directive (e : managedIP) : IpDirective :=
  MkIpDirective (mi_presentLease e) (mi_presentServiceName e) (mi_presentPort e) (mi_presentExternalPort e) (mi_presentSharingKey e)
    (mi_presentProtocol e).

Definition entry_for (ev : ipResourceEvent) (now : Z) : managedIP :=
  MkManagedIP (ev_lID ev) (ev_serviceName ev) (Some ev) (ev_sharingKey ev) (ev_externalPort ev) (ev_port ev) now (ev_protocol ev).

(** The entry that is stored in the end. *)
Definition ip_connected (ev : ipResourceEvent) (now : Z) (op : ipOperator) : ipOperator :=
  flagState (set_state (<[event_key ev := entry_for ev now]> (io_state op)) op).

Definition hasChanged (entry : managedIP) (ev : ipResourceEvent) : bool :=
  negb (mi_presentServiceName entry =? ev_serviceName ev) || negb (mi_presentPort entry =? ev_port ev)%Z
  || negb (mi_presentSharingKey entry =? ev_sharingKey ev) || negb (mi_presentExternalPort entry =? ev_externalPort ev)%Z
  || negb (bool_decide (mi_presentProtocol entry = ev_protocol ev)).

Definition applyIPAddOrUpdateEvent (ev : ipResourceEvent) (an : ip_answers) (now : Z) (op : ipOperator)
  : ipOperator * list svc_effect * option kerror :=
  let directive := buildIPDirective ev in
  let finish (before : list svc_effect) (r : list svc_effect * option kerror) (op : ipOperator) :=
    match r with
    | (effects, Some e) => (op, (before ++ effects)%list, Some e)
    | (effects, None) => (ip_connected ev now op, (before ++ effects)%list, None)
    end in
  match io_state op !! event_key ev with
  | None => finish [] (CreateIPPassthrough poolName directive an) op
  | Some entry =>
      if bool_decide (mi_presentLease entry = ev_lID ev) then
        finish [] (if hasChanged entry ev then CreateIPPassthrough poolName directive an else ([], None)) op
      else match PurgeIPPassthrough (entry_directive entry) an with
      | (effects, Some e) => (op, effects, Some e)
      | (effects, None) =>
          finish effects (CreateIPPassthrough poolName directive an) (set_state (delete (event_key ev) (io_state op)) op)
      end
  end.

Definition applyIPEvent (cfg : IgnoreListConfig) (ev : ipResourceEvent) (an : ip_answers) (now : Z) (op : ipOperator)
  : ipOperator * list svc_effect * option ip_failure :=
  match ev_eventType ev with
  | Some ProviderResourceDelete => let '(op, effects, err) := applyIPDeleteEvent ev an op in (op, effects, IpApi <$> err)
  | Some ProviderResourceAdd | Some ProviderResourceUpdate =>
      if IsFlagged cfg (ev_lID ev) (io_leasesIgnored op) then (op, [], None)
      else let '(op, effects, err) := applyIPAddOrUpdateEvent ev an now op in (recordIPEventError ev err now op, effects, IpApi <$> err)
  | None => (op, [], Some IpUnknownEvent)
  end.

(** ** The loop *)

(** The counts of the address pool, or the error of MetalLB. *)
Definition updateCounts (usage : result string (Z * Z)) (op : ipOperator) : ipOperator * option string :=
  match usage with
  | Err e => (op, Some e)
  | Ok (inUse, available) =>
      (MkIpOperator (io_state op) (io_leasesIgnored op) (flag_endpoint "/usage" (io_server op)) available inUse (io_observing op), None)
  end.

(** What the turn of a loop reads: the counts and the data of the endpoints. *)
Record turn := MkTurn { tn_usage : result string (Z * Z); tn_prepare : string → result string string; tn_now : Z }.

(** An error is only logged. *)
Definition prepare_web (t : turn) (op : ipOperator) : ipOperator :=
  MkIpOperator (io_state op) (io_leasesIgnored op) (PrepareAll (tn_prepare t) (tn_now t) (io_server op)).1 (io_available op) (io_inUse op)
    (io_observing op).

(** The end of a turn that updates: an error of MetalLB ends the loop. *)
Definition finish_update (t : turn) (op : ipOperator) : ipOperator :=
  match updateCounts (tn_usage t) op with
  | (op, Some _) => set_observing false op
  | (op, None) => prepare_web t op
  end.

(** The entry of a service that exists: the protocol is not taken over, and
    the port of a passthrough is not known. *)
Definition startup_entry (now : Z) (p : ipPassthrough) : managedIP :=
  MkManagedIP (pt_LeaseID p) (pt_ServiceName p) None (pt_SharingKey p) (pt_ExternalPort p) (pt_Port p) now zero_protocol.
Definition passthrough_key (p : ipPassthrough) : string := getStateKey (pt_LeaseID p) (pt_SharingKey p) (pt_ExternalPort p).
Definition startup_table (now : Z) (l : list ipPassthrough) : gmap string managedIP :=
  foldl (λ m p, <[passthrough_key p := startup_entry now p]> m) ∅ l.

(** From the start of [monitorUntilError] to the loop: the services that
    exist, the counts, the observation, the pool changes and the web data, in
    this order; any may fail.  [watching] is the error of the two watches. *)
Definition monitor_start (listed : result string (list KService)) (watching : option string) (t : turn) (op : ipOperator) : ipOperator :=
  match (let* services := listed in GetIPPassthroughs services)%go with
  | Err _ => set_state ∅ op
  | Ok entries =>
      match updateCounts (tn_usage t) (flagState (set_state (startup_table (tn_now t) entries) op)) with
      | (op, Some _) => op
      | (op, None) =>
          match watching with
          | Some _ => op
          | None =>
              match PrepareAll (tn_prepare t) (tn_now t) (io_server op) with
              | (server, None) => MkIpOperator (io_state op) (io_leasesIgnored op) server (io_available op) (io_inUse op) true
              | (server, Some _) => MkIpOperator (io_state op) (io_leasesIgnored op) server (io_available op) (io_inUse op) false
              end
          end
      end
  end.

Inductive ievent :=
| IStart (listed : result string (list KService)) (watching : option string) (t : turn)
| IEvent (ev : ipResourceEvent) (an : ip_answers) (t : turn)
| IPrune (t : turn)
| IPrepare (t : turn)
| IUpdate (t : turn)
| IStopped.

(** One turn.  [run] starts the next observation after one has ended, also
    when it ended without an error because the pool changes were closed. *)
Definition istep (cfg : IgnoreListConfig) (op : ipOperator) (e : ievent) : option (ipOperator * list svc_effect) :=
  match e with
  | IStart listed watching t => if io_observing op then None else Some (monitor_start listed watching t op, [])
  | IEvent ev an t =>
      if negb (io_observing op) then None
      else match applyIPEvent cfg ev an (tn_now t) op with
      | (op, effects, Some _) => Some (set_observing false op, effects)
      | (op, effects, None) => Some (finish_update t op, effects)
      end
  | IPrune t => if io_observing op then Some (prepare_web t (set_ignored (Prune cfg (tn_now t) (io_leasesIgnored op)).1 op), []) else None
  | IPrepare t => if io_observing op then Some (prepare_web t op, []) else None
  | IUpdate t => if io_observing op then Some (finish_update t op, []) else None
  | IStopped => if io_observing op then Some (set_observing false op, []) else None
  end.

(** ** Requests *)

(** [cip.LeaseIPStatus]. *)
Record LeaseIPStatus := MkIPStatus { st_Port : Z; st_ExternalPort : Z; st_ServiceName : string; st_IP : string; st_Protocol : string }.

Definition ip_status (s : ipLeaseState) : LeaseIPStatus :=
  let p := ls_Passthrough s in MkIPStatus (pt_Port p) (pt_ExternalPort p) (pt_ServiceName p) (ls_IP s) (Protocol_ToString (pt_Protocol p)).

(** [handleIPLeaseStatusGet]: the status and the body of a response to the
    variables of a path, behind the barrier. *)
Definition handleIPLeaseStatusGet (provider : string) (owner dseq gseq oseq : string) (services : LeaseID → result string (list KService))
  : Z * list LeaseIPStatus :=
  match uint_label 64 dseq, uint_label 32 gseq, uint_label 32 oseq, AccAddress_String owner with
  | Ok dseq, Ok gseq, Ok oseq, Ok _ =>
      let lid := MkLeaseID owner dseq gseq oseq provider in
      match (let* l := services lid in GetIPAddressStatusForLease lid l)%go with
      | Err _ => (500%Z, [])
      | Ok [] => (204%Z, [])
      | Ok l => (200%Z, map ip_status l)
      end
  | _, _, _, _ => (404%Z, [])
  end.

Definition serve_ip_status (op : ipOperator) (provider owner dseq gseq oseq : string) (services : LeaseID → result string (list KService))
  : Z * list LeaseIPStatus :=
  if io_observing op then handleIPLeaseStatusGet provider owner dseq gseq oseq services else (503%Z, []).

End operator.
