(* ===== verification/IpOperatorSound.v ===== *)
(** * The IP operator keeps one service per leased address and port

    The services of the cluster are read off what the operator wrote and
    removed.  As long as the declared resources are orderly, the table of the
    operator and these services agree. *)
From Stdlib Require Import Ascii String.
From S2P Require Import Prelude Traces GoStrings ChainTypes LeaseNames CrdManifest ProxyConfig HostRoutes OperatorCommon.
From S2P Require Import HostnameOperator MetalLb IpOperator.

Open Scope string_scope.

Section sound.
Context `{KubeProtocols} `{!KubeProtocolLaws} `{GoUnicode} `{Cosmos} `{ErrorTexts} `{MapOrder}.
Variable poolName : string.
Variable cfg : IgnoreListConfig.

(** The services by namespace and name, each the directive it was written for. *)
Notation services := (gmap (string * string) IpDirective).

Definition slot_of (d : IpDirective) : string * string := (LeaseIDToNamespace (id_LeaseID d), createIPPassthroughResourceName d).
(** The owner, the sharing key and the external port of a directive. *)
Definition key_of (d : IpDirective) : string := getStateKey (id_LeaseID d) (id_SharingKey d) (id_ExternalPort d).

Definition apply_svc (r : services) (e : svc_effect) : services :=
  match e with
  | SvcCreated d _ | SvcUpdated d _ _ => <[slot_of d := d]> r
  | SvcDeleted ns name => delete (ns, name) r
  end.

(** What a listing returns: the services, with the addresses they have, next to
    others that are not of MetalLB. *)
Definition lists_services (r : services) (l : list KService) : Prop :=
  ∃ ips : IpDirective → list string,
    List.filter (λ s, matches metallb_selector (ks_Labels s)) l
    ≡ₚ (λ d, with_addresses (ips d) (service_object poolName (default EmptyString (kube_protocol (id_Protocol d))) d)) <$> (map_to_list r).*2.

(** Runs together with the services.  Others may remove services at any time. *)
Inductive iruns (ok : ipOperator → services → ievent → Prop) (op0 : ipOperator) (r0 : services)
  : list ievent → ipOperator → services → Prop :=
| iruns_nil : iruns ok op0 r0 [] op0 r0
| iruns_snoc es op r e op' effects :
    iruns ok op0 r0 es op r → istep poolName cfg op e = Some (op', effects) → ok op r e →
    (∀ l w t, e = IStart (Ok l) w t → lists_services r l) →
    iruns ok op0 r0 (es ++ [e]) op' (foldl apply_svc r effects)
| iruns_gone es op r r' : iruns ok op0 r0 es op r → r' ⊆ r → iruns ok op0 r0 es op r'.

(** The declared resources are orderly: a resource can be carried out; the
    service it names is not in use for another address; a lease that has the
    address has it for the same service and protocol; and when another lease
    has it, that was declared since the operator started and is taken over, not
    deleted. *)
Definition orderly (op : ipOperator) (r : services) (e : ievent) : Prop :=
  match e with
  | IEvent ev _ _ =>
      let d := buildIPDirective ev in
      directive_ok d
      ∧ (∀ d', r !! slot_of d = Some d' → key_of d' = key_of d)
      ∧ (∀ s d', r !! s = Some d' → key_of d' = key_of d → id_LeaseID d' = id_LeaseID d → s = slot_of d)
      ∧ (∀ entry, io_state op !! event_key ev = Some entry → mi_presentLease entry ≠ ev_lID ev →
           ev_eventType ev ≠ Some ProviderResourceDelete ∧ is_Some (mi_lastEvent entry))
  | _ => True
  end.

(** ** The invariant *)

(** Every service is where its directive puts it, and is the only one of its
    address and port. *)
Definition well_kept (r : services) : Prop :=
  ∀ s d, r !! s = Some d → directive_ok d ∧ s = slot_of d ∧ ∀ s' d', r !! s' = Some d' → key_of d' = key_of d → s' = s.

(** An entry describes a directive; one from the start lacks its port and
    protocol. *)
Definition describes (e : managedIP) (d : IpDirective) : Prop :=
  mi_presentLease e = id_LeaseID d ∧ mi_presentServiceName e = id_ServiceName d ∧ mi_presentSharingKey e = id_SharingKey d
  ∧ mi_presentExternalPort e = id_ExternalPort d
  ∧ match mi_lastEvent e with
    | Some _ => mi_presentPort e = id_Port d ∧ mi_presentProtocol e = id_Protocol d
    | None => mi_presentProtocol e = zero_protocol
    end.

Definition ips_accounted (m : gmap string managedIP) (r : services) : Prop :=
  ∀ s d, r !! s = Some d → ∃ e, m !! key_of d = Some e ∧ describes e d.

Definition ip_inv (op : ipOperator) (r : services) : Prop :=
  well_kept r ∧ (io_observing op = true → ips_accounted (io_state op) r).

Lemma kept_sub r r' : r' ⊆ r → well_kept r → well_kept r'.
Proof.
  intros Hsub Hr s d Hd. eapply lookup_weaken in Hd; [|exact Hsub]. destruct (Hr _ _ Hd) as (? & ? & Hu). split_and!; [done..|].
  intros s' d' Hd'. eapply lookup_weaken in Hd'; [|exact Hsub]. by apply Hu.
Qed.

Lemma accounted_sub m r r' : r' ⊆ r → ips_accounted m r → ips_accounted m r'.
Proof. intros Hsub Ha s d Hd. eapply Ha, lookup_weaken; eauto. Qed.

(** A directive whose address has no service elsewhere can be written. *)
Lemma write_kept d r :
  well_kept r → directive_ok d → (∀ s d', r !! s = Some d' → key_of d' = key_of d → s = slot_of d) → well_kept (<[slot_of d := d]> r).
Proof.
  intros Hr Hd Hk s d' [[<- <-]|[Hne Hd']]%lookup_insert_Some.
  - split_and!; [done..|]. intros s' d' [[<- <-]|[_ Hd']]%lookup_insert_Some E; [done|]. by eapply Hk.
  - destruct (Hr _ _ Hd') as (? & ? & Hu). split_and!; [done..|]. intros s' d'' [[<- <-]|[_ Hd'']]%lookup_insert_Some E; [|by eapply Hu].
    symmetry. eapply Hk; [exact Hd'|done].
Qed.

Lemma describes_event ev now : describes (entry_for ev now) (buildIPDirective ev).
Proof. done. Qed.

Lemma write_accounted ev now m r :
  ips_accounted m r → (∀ s d', r !! s = Some d' → key_of d' = event_key ev → s = slot_of (buildIPDirective ev)) →
  ips_accounted (<[event_key ev := entry_for ev now]> m) (<[slot_of (buildIPDirective ev) := buildIPDirective ev]> r).
Proof.
  intros Ha Hk s d [[<- <-]|[Hne Hd]]%lookup_insert_Some.
  - eexists. split; [apply lookup_insert_eq|apply describes_event].
  - destruct (decide (key_of d = event_key ev)) as [E|Hn]; [destruct Hne; symmetry; by eapply Hk|].
    rewrite lookup_insert_ne by done. by eapply Ha.
Qed.

(** Dropping the services of a key together with its entry. *)
Lemma drop_accounted m r s k :
  ips_accounted m r → (∀ s' d', r !! s' = Some d' → key_of d' = k → s' = s) → ips_accounted (delete k m) (delete s r).
Proof.
  intros Ha Hk s' d' [Hne Hd']%lookup_delete_Some. destruct (Ha _ _ Hd') as (e & He & Hdes). exists e. split; [|done].
  rewrite lookup_delete_ne; [done|]. intros E. destruct Hne. symmetry. by eapply Hk.
Qed.

(** ** Calls *)

Lemma create_cases d an effects err :
  CreateIPPassthrough poolName d an = (effects, err) →
  (is_Some err ∧ effects = []) ∨ (err = None ∧ ∀ r, foldl apply_svc r effects = <[slot_of d := d]> r).
Proof.
  unfold CreateIPPassthrough. destruct (kube_protocol _); [|intros [= <- <-]; eauto].
  destruct (ia_get an) as [v|[]], (ia_write an); intros [= <- <-]; eauto.
Qed.

Lemma purge_cases d an effects err :
  PurgeIPPassthrough d an = (effects, err) →
  (is_Some err ∧ effects = []) ∨ (err = None ∧ ∀ r, foldl apply_svc r effects = delete (slot_of d) r).
Proof. unfold PurgeIPPassthrough. destruct (ia_delete an) as [[]|]; intros [= <- <-]; eauto. Qed.

(** ** Events *)

(** What an event achieves: the services agree with the table, and without an
    error the service of the event is there, unless its entry said so already. *)
Definition event_result (op : ipOperator) (ev : ipResourceEvent) (err : option kerror) (effects : list svc_effect) (op' : ipOperator) (r' : services) : Prop :=
  well_kept r' ∧ ips_accounted (io_state op') r'
  ∧ (err = None → r' !! slot_of (buildIPDirective ev) = Some (buildIPDirective ev)
       ∨ effects = [] ∧ ∃ e, io_state op !! event_key ev = Some e ∧ mi_presentLease e = ev_lID ev ∧ hasChanged e ev = false).

(** Writing the service of an event once the others of its address are gone. *)
Lemma create_event op ev an now r m effects err :
  well_kept r → ips_accounted m r → directive_ok (buildIPDirective ev) →
  (∀ s d', r !! s = Some d' → key_of d' = event_key ev → s = slot_of (buildIPDirective ev)) →
  CreateIPPassthrough poolName (buildIPDirective ev) an = (effects, err) →
  let r' := foldl apply_svc r effects in
  well_kept r' ∧ ips_accounted (match err with None => <[event_key ev := entry_for ev now]> m | Some _ => m end) r'
  ∧ (err = None → r' !! slot_of (buildIPDirective ev) = Some (buildIPDirective ev)
       ∨ effects = [] ∧ ∃ e, io_state op !! event_key ev = Some e ∧ mi_presentLease e = ev_lID ev ∧ hasChanged e ev = false).
Proof.
  intros Hr Ha Hd Hk [[[e ->] ->]|[-> Hw]]%create_cases; [done|]. cbn. rewrite Hw.
  split_and!; [by apply write_kept|by apply write_accounted|]. intros _. left. apply lookup_insert_eq.
Qed.

Lemma hasChanged_false e ev :
  hasChanged e ev = false →
  mi_presentServiceName e = ev_serviceName ev ∧ mi_presentPort e = ev_port ev ∧ mi_presentSharingKey e = ev_sharingKey ev
  ∧ mi_presentExternalPort e = ev_externalPort ev ∧ mi_presentProtocol e = ev_protocol ev.
Proof.
  unfold hasChanged. rewrite !orb_false_iff, !negb_false_iff, !String.eqb_eq, !Z.eqb_eq, bool_decide_eq_true. tauto.
Qed.

(** An event that changes nothing keeps what its entry describes. *)
Lemma unchanged_accounted e ev now m r :
  ips_accounted m r → directive_ok (buildIPDirective ev) → m !! event_key ev = Some e → mi_presentLease e = ev_lID ev → hasChanged e ev = false →
  ips_accounted (<[event_key ev := entry_for ev now]> m) r.
Proof.
  intros Ha (_ & _ & _ & _ & _ & Hp) He Hl (Hn & Hport & Hk & Hx & Hpr)%hasChanged_false s d Hd. destruct (Ha _ _ Hd) as (e' & He' & Hdes).
  destruct (decide (key_of d = event_key ev)) as [E|Hne]; [|exists e'; by rewrite lookup_insert_ne].
  rewrite E in *. simplify_eq. eexists. split; [apply lookup_insert_eq|]. destruct Hdes as (? & ? & ? & ? & Hlast).
  destruct (mi_lastEvent e) as [ev'|].
  - destruct Hlast. unfold describes. cbn. split_and!; congruence.
  - cbn in Hp. pose proof zero_not_tcp. pose proof zero_not_udp. destruct Hp; congruence.
Qed.

Lemma update_event op ev an now r op' effects err :
  well_kept r → ips_accounted (io_state op) r → (∃ t, orderly op r (IEvent ev an t)) →
  applyIPAddOrUpdateEvent poolName ev an now op = (op', effects, err) →
  event_result op ev err effects op' (foldl apply_svc r effects).
Proof.
  intros Hr Ha (t & Hd & Hslot & Hsame & Hother). unfold applyIPAddOrUpdateEvent.
  destruct (io_state op !! event_key ev) as [e|] eqn:Em.
  2:{ destruct (CreateIPPassthrough _ _ _) as [eff er] eqn:Ec. intros Hs.
      assert (event_result op ev er eff (match er with None => ip_connected ev now op | Some _ => op end) (foldl apply_svc r eff)) as Hres.
      { destruct (create_event op ev an now r (io_state op) eff er) as (? & ? & ?); [done|done|done| |done|].
        - intros s d' Hd' E. destruct (Ha _ _ Hd') as (e & He & _). rewrite E in He. congruence.
        - split_and!; [done| |done]. by destruct er. }
      destruct er; by simplify_eq/=. }
  case_bool_decide as Hl.
  - assert (∀ s d', r !! s = Some d' → key_of d' = event_key ev → s = slot_of (buildIPDirective ev)) as Hk.
    { intros s d' Hd' E. eapply Hsame; [done|done|]. destruct (Ha _ _ Hd') as (e' & He' & Hdes). rewrite E in He'. simplify_eq.
      destruct Hdes as [<- _]. done. }
    destruct (hasChanged e ev) eqn:Ech.
    + destruct (CreateIPPassthrough _ _ _) as [eff er] eqn:Ec. intros Hs.
      destruct (create_event op ev an now r (io_state op) eff er) as (? & ? & ?); [done..|].
      destruct er; simplify_eq/=; by split_and!.
    + intros [= <- <- <-]. cbn. split_and!; [done| |].
      * by eapply unchanged_accounted.
      * intros _. right. split; [done|]. by exists e.
  - destruct (Hother e eq_refl Hl) as [_ [ev' Hev']].
    destruct (PurgeIPPassthrough _ _) as [eff [er|]] eqn:Ep; apply purge_cases in Ep as [[[? ?] ->]|[? Hw]]; simplify_eq.
    + intros [= <- <- <-]. by split_and!.
    + assert (∀ s d', r !! s = Some d' → key_of d' = event_key ev → s = slot_of (entry_directive e)) as Hk.
      { intros s d' Hd' E. destruct (Ha _ _ Hd') as (e' & He' & Hdes). rewrite E in He'. simplify_eq.
        destruct (Hr _ _ Hd') as (_ & -> & _). destruct Hdes as (Hl1 & Hs1 & _ & Hx1 & Hlast). rewrite Hev' in Hlast. destruct Hlast as [_ Hp1].
        unfold slot_of, createIPPassthroughResourceName. cbn. by rewrite Hl1, Hs1, Hx1, Hp1. }
      assert (∀ s d', delete (slot_of (entry_directive e)) r !! s = Some d' → key_of d' = event_key ev → s = slot_of (buildIPDirective ev)) as Hk'.
      { intros s d' [Hne Hd']%lookup_delete_Some E. destruct Hne. symmetry. by eapply Hk. }
      destruct (CreateIPPassthrough _ _ _) as [eff' er] eqn:Ec. intros Hs.
      destruct (create_event op ev an now (delete (slot_of (entry_directive e)) r) (delete (event_key ev) (io_state op)) eff' er)
        as (? & ? & Hdone); [by eapply kept_sub, Hr; apply delete_subseteq|by apply drop_accounted|done|done|done|].
      assert (foldl apply_svc r (eff ++ eff')%list = foldl apply_svc (delete (slot_of (entry_directive e)) r) eff') as Hfold by by rewrite foldl_app, Hw.
      destruct er; simplify_eq/=; unfold event_result; rewrite Hfold; split_and!; try done.
      intros E. destruct (Hdone E) as [?|[-> Hx]]; [by left|]. destruct Hx as (e' & He' & Hl' & _). rewrite Em in He'. by simplify_eq.
Qed.

Lemma recordIPEventError_state ev err now op : io_state (recordIPEventError ev err now op) = io_state op.
Proof. unfold recordIPEventError. by repeat case_match. Qed.

Lemma delete_event op ev an r op' effects err t :
  well_kept r → ips_accounted (io_state op) r → orderly op r (IEvent ev an t) → ev_eventType ev = Some ProviderResourceDelete →
  applyIPDeleteEvent ev an op = (op', effects, err) →
  well_kept (foldl apply_svc r effects) ∧ ips_accounted (io_state op') (foldl apply_svc r effects)
  ∧ (err = None → foldl apply_svc r effects !! slot_of (buildIPDirective ev) = None).
Proof.
  intros Hr Ha (Hd & Hslot & Hsame & Hother) Ht. unfold applyIPDeleteEvent.
  destruct (PurgeIPPassthrough _ _) as [eff [er|]] eqn:Ep; apply purge_cases in Ep as [[[? ?] ->]|[? Hw]]; simplify_eq;
    intros [= <- <- <-]; [done|]. rewrite Hw. split_and!; [by eapply kept_sub, Hr; apply delete_subseteq| |intros _; apply lookup_delete_eq].
  cbn. apply drop_accounted; [done|]. intros s d' Hd' E. eapply Hsame; [done|done|]. destruct (Ha _ _ Hd') as (e & He & Hdes).
  rewrite E in He. destruct (decide (mi_presentLease e = ev_lID ev)) as [El|Hne]; [by destruct Hdes as [<- _]|].
  by destruct (Hother e He Hne).
Qed.

Lemma apply_event op ev an now r op' effects err t :
  well_kept r → ips_accounted (io_state op) r → orderly op r (IEvent ev an t) → applyIPEvent poolName cfg ev an now op = (op', effects, err) →
  well_kept (foldl apply_svc r effects) ∧ ips_accounted (io_state op') (foldl apply_svc r effects)
  ∧ (err = None → IsFlagged cfg (ev_lID ev) (io_leasesIgnored op) = false →
       if bool_decide (ev_eventType ev = Some ProviderResourceDelete) then foldl apply_svc r effects !! slot_of (buildIPDirective ev) = None
       else foldl apply_svc r effects !! slot_of (buildIPDirective ev) = Some (buildIPDirective ev)
         ∨ effects = [] ∧ ∃ e, io_state op !! event_key ev = Some e ∧ mi_presentLease e = ev_lID ev ∧ hasChanged e ev = false).
Proof.
  intros Hr Ha Hok. unfold applyIPEvent. destruct (ev_eventType ev) as [[]|] eqn:Et; [| | |by intros [= <- <- <-]].
  1-2: rewrite bool_decide_eq_false_2 by done; destruct (IsFlagged _ _ _); [by intros [= <- <- <-]|];
    destruct (applyIPAddOrUpdateEvent _ _ _ _ _) as [[op1 eff] er] eqn:Eu; intros [= <- <- <-];
    destruct (update_event _ _ _ _ _ _ _ _ Hr Ha (ex_intro _ t Hok) Eu) as (? & ? & Hdone);
    rewrite recordIPEventError_state; split_and!; [done..|]; intros Ee _; apply Hdone; by destruct er.
  rewrite bool_decide_eq_true_2 by done. destruct (applyIPDeleteEvent _ _ _) as [[op1 eff] er] eqn:Ed. intros [= <- <- <-].
  destruct (delete_event _ _ _ _ _ _ _ _ Hr Ha Hok Et Ed) as (? & ? & Hdone). split_and!; [done..|]. intros Ee _. apply Hdone. by destruct er.
Qed.

(** ** The table after a start *)

Lemma startup_snoc now l p : startup_table now (l ++ [p])%list = <[passthrough_key p := startup_entry now p]> (startup_table now l).
Proof. unfold startup_table. by rewrite foldl_app. Qed.

Lemma startup_lookup now l k e : startup_table now l !! k = Some e → ∃ p, p ∈ l ∧ passthrough_key p = k ∧ e = startup_entry now p.
Proof.
  induction l as [|p l IH] using rev_ind; [done|]. rewrite startup_snoc.
  intros [[<- <-]|[_ He]]%lookup_insert_Some; [exists p; set_solver|]. destruct (IH He) as (p' & ? & ? & ?). exists p'. set_solver.
Qed.

Lemma startup_listed now l p : p ∈ l → is_Some (startup_table now l !! passthrough_key p).
Proof.
  induction l as [|p' l IH] using rev_ind; [by intros ?%elem_of_nil|]. rewrite startup_snoc, elem_of_app, lookup_insert_is_Some'.
  intros [Hp| ->%list_elem_of_singleton]; [right; by apply IH|by left].
Qed.

Lemma passthroughs_listed ips ds :
  Forall directive_ok ds →
  passthroughs_of ((λ d, with_addresses (ips d) (service_object poolName (default EmptyString (kube_protocol (id_Protocol d))) d)) <$> ds)
  = Ok (passthrough_for 0 <$> ds).
Proof.
  induction 1 as [|d ds Hd _ IH]; [done|]. rewrite !fmap_cons. cbn [passthroughs_of].
  destruct (protocol_reads (id_Protocol d)) as (proto & Ek & Ef); [apply Hd|]. rewrite Ek. cbn [default].
  rewrite (passthrough_of_object poolName proto (ips d) d Hd Ef), IH. done.
Qed.

Lemma start_listing r l : well_kept r → lists_services r l → ∃ ds, ds ≡ₚ (map_to_list r).*2 ∧ GetIPPassthroughs l = Ok (passthrough_for 0 <$> ds).
Proof.
  intros Hr [ips Hp]. apply Permutation_map_inv in Hp as (ds & Hl & Hds). exists ds. symmetry in Hds. split; [done|].
  unfold GetIPPassthroughs. rewrite Hl. apply passthroughs_listed. rewrite Hds. apply Forall_forall.
  intros d ([s d0] & -> & Hd%elem_of_map_to_list)%list_elem_of_fmap. by apply (Hr _ _ Hd).
Qed.

Lemma start_ips_accounted now r ds :
  well_kept r → ds ≡ₚ (map_to_list r).*2 → ips_accounted (startup_table now (passthrough_for 0 <$> ds)) r.
Proof.
  intros Hr Hp s d Hd.
  assert (∀ d', d' ∈ ds ↔ ∃ s, r !! s = Some d') as Hin.
  { intros d'. rewrite Hp, list_elem_of_fmap. split.
    - intros ([s' d0] & -> & Hk%elem_of_map_to_list). eauto.
    - intros (s' & Hk%elem_of_map_to_list). by exists (s', d'). }
  destruct (startup_listed now (passthrough_for 0 <$> ds) (passthrough_for 0 d)) as [e He].
  { apply list_elem_of_fmap. exists d. split; [done|]. apply Hin. eauto. }
  exists e. split; [done|]. destruct (startup_lookup _ _ _ _ He) as (p & Hpin & Hk & ->).
  apply list_elem_of_fmap in Hpin as (d' & -> & [s' Hd']%Hin).
  destruct (Hr _ _ Hd) as (_ & _ & Hu). rewrite (Hu _ _ Hd' Hk) in Hd'. rewrite Hd in Hd'. injection Hd' as ->. done.
Qed.

(** ** The invariant holds *)

Lemma updateCounts_state usage op : io_state (updateCounts usage op).1 = io_state op ∧ io_observing (updateCounts usage op).1 = io_observing op.
Proof. by destruct usage as [[]|]. Qed.

Lemma finish_update_state t op : io_state (finish_update t op) = io_state op.
Proof. unfold finish_update. by destruct (tn_usage t) as [[]|]. Qed.

Lemma monitor_start_inv listed w t op r :
  well_kept r → io_observing op = false → (∀ l, listed = Ok l → lists_services r l) →
  io_observing (monitor_start listed w t op) = true → ips_accounted (io_state (monitor_start listed w t op)) r.
Proof.
  intros Hr Ho Hl. unfold monitor_start. destruct listed as [l|e]; cbn [rbind]; [|cbn; congruence].
  destruct (start_listing r l Hr (Hl l eq_refl)) as (ds & Hds & ->).
  destruct (updateCounts _ _) as [op1 [e|]] eqn:Eu; pose proof (updateCounts_state (tn_usage t)
    (flagState (set_state (startup_table (tn_now t) (passthrough_for 0 <$> ds)) op))) as [Es Eo]; rewrite Eu in Es, Eo; cbn in Es, Eo; [congruence|].
  destruct w; [congruence|]. destruct (PrepareAll _ _ _) as [server [e|]]; cbn; [done|]. intros _. rewrite Es. by apply start_ips_accounted.
Qed.

Lemma istep_inv op r e op' effects :
  ip_inv op r → orderly op r e → (∀ l w t, e = IStart (Ok l) w t → lists_services r l) →
  istep poolName cfg op e = Some (op', effects) → ip_inv op' (foldl apply_svc r effects).
Proof.
  intros [Hr Ha] Hok Hlist. destruct e as [listed w t|ev an t|t|t|t|]; cbn; destruct (io_observing op) eqn:Eo; try done; cbn.
  - intros [= <- <-]. split; [done|]. apply monitor_start_inv; [done|done|]. intros l ->. by eapply Hlist.
  - destruct (applyIPEvent poolName cfg ev an (tn_now t) op) as [[op1 eff] err] eqn:Ee.
    destruct (apply_event _ _ _ _ _ _ _ _ t Hr (Ha eq_refl) Hok Ee) as (? & ? & _).
    destruct err; intros [= <- <-]; split; try done. intros _. by rewrite finish_update_state.
  - intros [= <- <-]. split; [done|]. intros _. by apply Ha.
  - intros [= <- <-]. split; [done|]. intros _. by apply Ha.
  - intros [= <- <-]. split; [done|]. intros _. rewrite finish_update_state. by apply Ha.
  - intros [= <- <-]. by split.
Qed.

Lemma iruns_inv op0 r0 es op r : well_kept r0 → io_observing op0 = false → iruns orderly op0 r0 es op r → ip_inv op r.
Proof.
  intros Hw Hi Hrun. induction Hrun as [|es op r e op' effects Hrun IH Hs Hok Hlist|es op r r' Hrun [Hr Ha] Hsub].
  - split; [done|congruence].
  - by eapply istep_inv.
  - split; [by eapply kept_sub|]. intros Ho. eapply accounted_sub; [done|by apply Ha].
Qed.

(** Claim C18.  A leased address and port is not served for two leases, as long as
    what is declared is orderly: a resource can be carried out; a lease declares
    an address and external port for one service, port and protocol only (TCP and
    UDP at one port are outside); the service a resource names is not in use for
    another address; and an address that another lease has in the table is
    taken over only if that lease declared it since the operator started, and
    is deleted only by the lease that has it.  Then, from services that are alone at
    their address, however the operator fails and restarts and whatever services
    others remove, there is at most one service of each owner, sharing key and
    external port, it is in the namespace of its lease under the name of its
    service, port and protocol, and during an observation the table describes
    it.  An event of a lease that is not ignored, applied without error, has its
    effect: a deleted resource has no service; for another the service its
    resource describes was written, unless the table described the resource
    already, when nothing is written. *)
Theorem one_service_per_address (op0 op : ipOperator) (r0 r : services) (es : list ievent)
  (Hwell : well_kept r0) (Hidle : io_observing op0 = false) (Hrun : iruns orderly op0 r0 es op r) :
  (∀ s s' d d', r !! s = Some d → r !! s' = Some d' → key_of d = key_of d' → s = s' ∧ d = d')
  ∧ (∀ s d, r !! s = Some d → s = slot_of d)
  ∧ (io_observing op = true → ips_accounted (io_state op) r)
  ∧ (∀ ev an t op' effects, io_observing op = true → orderly op r (IEvent ev an t) →
       applyIPEvent poolName cfg ev an (tn_now t) op = (op', effects, None) → IsFlagged cfg (ev_lID ev) (io_leasesIgnored op) = false →
       let r' := foldl apply_svc r effects in
       if bool_decide (ev_eventType ev = Some ProviderResourceDelete) then r' !! slot_of (buildIPDirective ev) = None
       else r' !! slot_of (buildIPDirective ev) = Some (buildIPDirective ev)
         ∨ effects = [] ∧ ∃ e, io_state op !! event_key ev = Some e ∧ mi_presentLease e = ev_lID ev ∧ hasChanged e ev = false).
Proof.
  destruct (iruns_inv _ _ _ _ _ Hwell Hidle Hrun) as [Hr Ha]. split_and!; [| |done|].
  - intros s s' d d' Hd Hd' E. destruct (Hr _ _ Hd) as (_ & _ & Hu). assert (s' = s) as -> by by eapply Hu. split; [done|congruence].
  - intros s d Hd. by apply (Hr _ _ Hd).
  - intros ev an t op' effects Ho Hok Hs Hf. by apply (apply_event _ _ _ _ _ _ _ _ t Hr (Ha Ho) Hok Hs).
Qed.

End sound.

(** * The barrier of the IP operator

    [operator/ip/types.go]: requests enter only while the operator observes, and
    the end of an observation waits until those inside have left.  The check and
    the count of [enter] are two atomic operations, so other steps may come
    between them. *)
(** [active] is an int32. *)
Record barrier := MkBarrier { ba_enabled : Z; ba_active : Z }.

Definition zero_barrier : barrier := MkBarrier 0 0.
Definition barrier_enable (b : barrier) : barrier := MkBarrier 1 (ba_active b).
Definition barrier_disable (b : barrier) : barrier := MkBarrier 0 (ba_active b).
(** The two halves of [enter]. *)
Definition enter_check (b : barrier) : bool := (ba_enabled b =? 1)%Z.
Definition enter_count (b : barrier) : barrier := MkBarrier (ba_enabled b) (i32 (ba_active b + 1)).
Definition barrier_exit (b : barrier) : barrier := MkBarrier (ba_enabled b) (i32 (ba_active b - 1)).

(** [waitUntilClear]: the values seen at the ticks until the context ends. *)
Fixpoint waitUntilClear (ticks : list barrier) : bool :=
  match ticks with
  | [] => false
  | b :: ticks => if (ba_active b =? 0)%Z then true else waitUntilClear ticks
  end.

(** ** Requests *)

(** Where the handler of a request is: past the check, or inside. *)
Inductive place := Checked | Inside.
#[export] Instance place_eq_dec : EqDecision place.
Proof. solve_decision. Defined.

(** Requests under way by their number. *)
Record system := MkSystem { sy_barrier : barrier; sy_requests : gmap nat place }.

Inductive bstep : system → system → Prop :=
| b_enable s : bstep s (MkSystem (barrier_enable (sy_barrier s)) (sy_requests s))
| b_disable s : bstep s (MkSystem (barrier_disable (sy_barrier s)) (sy_requests s))
| b_check s n :
    sy_requests s !! n = None → enter_check (sy_barrier s) = true → bstep s (MkSystem (sy_barrier s) (<[n := Checked]> (sy_requests s)))
| b_count s n :
    sy_requests s !! n = Some Checked → bstep s (MkSystem (enter_count (sy_barrier s)) (<[n := Inside]> (sy_requests s)))
| b_exit s n :
    sy_requests s !! n = Some Inside → bstep s (MkSystem (barrier_exit (sy_barrier s)) (delete n (sy_requests s))).

Definition initial : system := MkSystem zero_barrier ∅.

(** The requests inside. *)
Definition inside (s : system) : gmap nat place := filter (λ p, p.2 = Inside) (sy_requests s).

Lemma i32_add a b : i32 (i32 a + b) = i32 (a + b).
Proof.
  rewrite <- (i32_u32 (i32 a + b)), <- (i32_u32 (a + b)). f_equal. unfold u32. rewrite Zplus_mod. fold (u32 (i32 a)).
  rewrite u32_i32. unfold u32. by rewrite <- Zplus_mod.
Qed.

Lemma i32_small z : (0 ≤ z < 2 ^ 31)%Z → i32 z = z.
Proof. intros Hz. unfold i32. rewrite u32_id by lia. by case_decide; lia. Qed.

Lemma filter_same n p (m : gmap nat place) : p ≠ Inside → m !! n ≠ Some Inside → filter (λ p, p.2 = Inside) (<[n := p]> m) = filter (λ p, p.2 = Inside) m.
Proof.
  intros Hp Hm. rewrite map_filter_insert_False by done. apply map_eq. intros i.
  destruct (decide (i = n)) as [->|Hne]; rewrite !map_lookup_filter; [|by rewrite lookup_delete_ne].
  rewrite lookup_delete_eq. cbn. destruct (m !! n) as [q|]; cbn; [|done]. case_guard; [|done]. cbn in *. congruence.
Qed.

Lemma counted s : rtc bstep initial s → ba_active (sy_barrier s) = i32 (Z.of_nat (size (inside s))).
Proof.
  revert s. apply rtc_ind_r; [done|]. intros s s' _ Hstep IH. destruct Hstep as [s|s|s n Hn Hc|s n Hn|s n Hn]; try done.
  - unfold inside in *. cbn. rewrite filter_same by congruence. done.
  - unfold inside in *. cbn. rewrite IH, i32_add. f_equal. rewrite map_filter_insert_True by done.
    rewrite map_size_insert_None by (apply map_lookup_filter_None; right; intros q; rewrite Hn; by intros [= <-]). lia.
  - unfold inside in *. cbn. rewrite IH, map_filter_delete.
    assert (filter (λ p, p.2 = Inside) (sy_requests s) !! n = Some Inside) as Hi by by apply map_lookup_filter_Some.
    pose proof (map_size_delete_Some n (filter (λ p, p.2 = Inside) (sy_requests s)) ltac:(by eexists)) as Hs.
    assert (size (filter (λ p, p.2 = Inside) (sy_requests s)) ≠ 0%nat) as Hz by (intros E%map_size_empty_inv; by rewrite E, lookup_empty in Hi).
    replace (i32 (Z.of_nat (size (filter (λ p, p.2 = Inside) (sy_requests s)))) - 1)%Z
      with (i32 (Z.of_nat (size (filter (λ p, p.2 = Inside) (sy_requests s)))) + -1)%Z by lia.
    rewrite i32_add. f_equal. rewrite Hs. lia.
Qed.

(** No request enters while the barrier is disabled and none is between its
    check and its count. *)
Definition shut (s : system) : Prop := ba_enabled (sy_barrier s) = 0%Z ∧ ∀ n, sy_requests s !! n ≠ Some Checked.

Lemma shut_step s s' : shut s → bstep s s' → ba_enabled (sy_barrier s') = 0%Z → shut s' ∧ inside s' ⊆ inside s.
Proof.
  intros [Hd Hc] Hstep Hne. destruct Hstep as [s|s|s n Hn Hck|s n Hn|s n Hn].
  - done.
  - by split.
  - unfold enter_check in Hck. rewrite Hd in Hck. done.
  - by destruct (Hc n).
  - split; [split; [done|]|].
    + intros n'. cbn. rewrite lookup_delete_Some. intros [_ Hn']. by destruct (Hc n').
    + unfold inside. cbn. rewrite map_filter_delete. apply delete_subseteq.
Qed.

(** The barrier counts the requests: whatever the interleaving, the
    count that [waitUntilClear] waits for is zero exactly when no request is
    inside, as long as there are fewer than 2^31; and once the barrier is
    disabled and no request is between its check and its count, requests only
    leave until it is enabled again. *)
Theorem barrier_counts (s : system) (Hrun : rtc bstep initial s) (Hfew : (Z.of_nat (size (inside s)) < 2 ^ 31)%Z) :
  (ba_active (sy_barrier s) = 0%Z ↔ inside s = ∅)
  ∧ (shut s → ∀ s', rtc (λ a b, bstep a b ∧ ba_enabled (sy_barrier b) = 0%Z) s s' → shut s' ∧ inside s' ⊆ inside s).
Proof.
  split.
  - rewrite counted, i32_small by (done || lia). rewrite <- map_size_empty_iff. lia.
  - clear Hrun Hfew. intros Hs s' Hr. induction Hr as [s|s s1 s2 [Hst Hne] _ IH]; [done|].
    destruct (shut_step _ _ Hs Hst Hne) as [Hs1 Hsub]. destruct (IH Hs1) as [Hs2 Hsub2]. split; [done|by etrans].
Qed.

(** ** Samples *)

(** Request 1 passes the check, the operator disables the barrier and sees no
    request, and only then does the request count itself. *)
Definition late : system := MkSystem (MkBarrier 0 1) {[1%nat := Inside]}.

(** A request may enter after the barrier was found clear. *)
Theorem late_entry :
  ∃ s, rtc bstep initial s ∧ ba_enabled (sy_barrier s) = 0%Z ∧ waitUntilClear [sy_barrier s] = true ∧ bstep s late.
Proof.
  exists (MkSystem (MkBarrier 0 0) {[1%nat := Checked]}). split_and!; [|done|done|].
  - eapply rtc_l; [apply b_enable|]. eapply rtc_l; [by apply (b_check _ 1)|]. eapply rtc_l; [apply b_disable|]. cbn.
    rewrite insert_empty. apply rtc_refl.
  - pose proof (b_count (MkSystem (MkBarrier 0 0) {[1%nat := Checked]}) 1 eq_refl) as Hb. cbn in Hb. by rewrite insert_singleton in Hb.
Qed.

(** Request 2 is inside, and the barrier is disabled. *)
Definition closing : system := MkSystem (MkBarrier 0 1) {[2%nat := Inside]}.

Lemma closing_reached : rtc bstep initial closing.
Proof.
  eapply rtc_l; [apply b_enable|]. eapply rtc_l; [by apply (b_check _ 2)|]. eapply rtc_l; [by apply (b_count _ 2)|].
  eapply rtc_l; [apply b_disable|]. cbn. rewrite insert_empty, insert_singleton. apply rtc_refl.
Qed.

Lemma barrier_counts_witness :
  rtc bstep initial closing ∧ (Z.of_nat (size (inside closing)) < 2 ^ 31)%Z ∧ shut closing
  ∧ (ba_active (sy_barrier closing) = 0%Z ↔ inside closing = ∅)
  ∧ (∀ s', rtc (λ a b, bstep a b ∧ ba_enabled (sy_barrier b) = 0%Z) closing s' → shut s' ∧ inside s' ⊆ inside closing).
Proof.
  assert (shut closing) as Hs by (split; [done|]; intros n; cbn; rewrite lookup_singleton_Some; by intros [_ ?]).
  destruct (barrier_counts closing closing_reached ltac:(by vm_compute)) as [Hc Hshut].
  split; [apply closing_reached|]. split; [by vm_compute|]. split; [done|]. split; [exact Hc|exact (Hshut Hs)].
Defined.
