(* ===== verification/IpOperatorSample.v ===== *)
(** * Runs of the IP operator

    The witnesses of the theorems about leased IPs, and four runs that need the
    conditions on the declared resources: each ends with a service that nobody
    declares, or without one that is declared. *)
From Stdlib Require Import Ascii String.
From S2P Require Import Prelude Traces GoStrings ChainTypes LeaseNames CrdManifest ProxyConfig HostRoutes OperatorCommon.
From S2P Require Import HostnameOperator MetalLb IpOperator IpOperatorSound.

Open Scope string_scope.

(** Protocols as texts, with the empty text as the zero value. *)
Inductive proto := NoProto | Tcp | Udp.
#[local] Instance proto_eq_dec : EqDecision proto.
Proof. solve_decision. Defined.
Definition proto_text (p : proto) : string := match p with NoProto => "" | Tcp => "TCP" | Udp => "UDP" end.
Definition proto_of (s : string) : result string proto :=
  if s =? "TCP" then Ok Tcp else if s =? "UDP" then Ok Udp else Err "unsupported protocol".
#[local] Instance protocols : Protocols := {| ServiceProtocol := proto; Protocol_ToString := proto_text; ParseServiceProtocol := proto_of |}.
#[local] Instance kube_protocols : KubeProtocols :=
  {| TCP := Tcp; UDP := Udp; zero_protocol := NoProto; protocol_eq_dec := proto_eq_dec; Protocol_text := proto_text;
     ServiceProtocolFromKube := proto_of |}.
#[local] Instance kube_laws : KubeProtocolLaws.
Proof. by constructor. Defined.
#[local] Instance ascii_only : GoUnicode := λ s, s.
#[local] Existing Instance PlainCosmos.plain.
#[local] Instance error_texts : ErrorTexts := λ e, match e with NotFound => "not found" | Conflict => "conflict" | OtherError msg => msg end.
#[local] Existing Instance listed_order.

Definition pool : string := "default".
Definition cfg : IgnoreListConfig := MkIgnoreConfig 3 1000 1000.
Definition lid (n : Z) : LeaseID := MkLeaseID "alice" n 1 1 "p".
Definition fine : ip_answers := MkIpAnswers (Err NotFound) None None.
Definition at_ (now : Z) : turn := MkTurn (Ok (1%Z, 9%Z)) (λ _, Ok "{}") now.

Definition event (t : ProviderResourceEvent) (n : Z) (svc : string) (key : string) (p : proto) : ipResourceEvent :=
  MkIpEvent (lid n) (Some t) svc 8053 53 ("alice-ip-" +:+ key) p.
Definition directive (n : Z) (svc key : string) (p : proto) : IpDirective :=
  MkIpDirective (lid n) svc 8053 53 ("alice-ip-" +:+ key) p.

Definition idle : ipOperator := MkIpOperator ∅ NewIgnoreList ∅ 0 0 false.

Notation services := (gmap (string * string) IpDirective).

(** The services as the API server lists them, each with one address. *)
Definition listing (r : services) : list KService :=
  (λ d, with_addresses ["10.0.0.1"] (service_object pool (default EmptyString (kube_protocol (id_Protocol d))) d)) <$> (map_to_list r).*2.

(** Drive the operator. *)
Fixpoint drive (op : ipOperator) (r : services) (steps : list (services → ievent)) : option (list ievent * ipOperator * services) :=
  match steps with
  | [] => Some ([], op, r)
  | f :: steps =>
      '(op1, effects) ← istep pool cfg op (f r);
      '(es, op2, r2) ← drive op1 (foldl apply_svc r effects) steps;
      Some (f r :: es, op2, r2)
  end.

Definition start : services → ievent := λ r, IStart (Ok (listing r)) None (at_ 0).
Definition ev (e : ipResourceEvent) : services → ievent := λ _, IEvent e fine (at_ 1).
Definition restart : list (services → ievent) := [(λ _, IStopped); start].

Lemma listing_lists r : lists_services pool r (listing r).
Proof.
  exists (λ _, ["10.0.0.1"]). unfold listing. induction (map_to_list r).*2 as [|d l IH]; [done|].
  rewrite !fmap_cons. cbn [List.filter with_addresses ks_Labels].
  destruct (object_labels pool (default EmptyString (kube_protocol (id_Protocol d))) d) as (-> & _ & _). by rewrite IH.
Qed.

(** Steps that start with the listing, or do not start. *)
Definition lists_ips (f : services → ievent) : Prop := ∀ r l w t, f r = IStart (Ok l) w t → lists_services pool r l.

Lemma iruns_cons ok op r e op1 effects es op2 r2 :
  istep pool cfg op e = Some (op1, effects) → ok op r e → (∀ l w t, e = IStart (Ok l) w t → lists_services pool r l) →
  iruns pool cfg ok op1 (foldl apply_svc r effects) es op2 r2 → iruns pool cfg ok op r (e :: es) op2 r2.
Proof.
  intros Hs Hok Hl. induction 1 as [|es op' r' e' op'' eff Hrun IH Hs' Hok' Hl'|es op' r' r'' Hrun IH Hsub].
  - apply (iruns_snoc pool cfg ok op r [] op r e op1 effects); [constructor|done..].
  - change (e :: es ++ [e'])%list with ((e :: es) ++ [e'])%list. by econstructor.
  - by eapply iruns_gone.
Qed.

Lemma drive_iruns op r steps es op' r' :
  Forall lists_ips steps → drive op r steps = Some (es, op', r') → iruns pool cfg (λ _ _ _, True) op r es op' r'.
Proof.
  intros Hl. revert op r es. induction Hl as [|f steps Hf Hl IH]; intros op r es; cbn; [intros [= <- <- <-]; constructor|].
  destruct (istep pool cfg op (f r)) as [[op1 effects]|] eqn:Es; [|done]. cbn.
  destruct (drive op1 _ steps) as [[[es1 op2] r2]|] eqn:Ed; [|done]. cbn. intros [= <- <- <-].
  eapply iruns_cons; [done|done|apply Hf|]. by apply IH.
Qed.

Lemma start_lists_ips : lists_ips start.
Proof. intros r l w t [= <- _ _]. apply listing_lists. Qed.

Lemma ev_lists_ips e : lists_ips (ev e).
Proof. done. Qed.

Lemma stop_lists_ips : lists_ips (λ _, IStopped).
Proof. done. Qed.

Definition end_of (steps : list (services → ievent)) : services := match drive idle ∅ steps with Some (_, _, r) => r | None => ∅ end.
Definition driven (steps : list (services → ievent)) : bool := match drive idle ∅ steps with Some _ => true | None => false end.

Lemma end_runs steps :
  driven steps = true → Forall lists_ips steps → ∃ es op, iruns pool cfg (λ _ _ _, True) idle ∅ es op (end_of steps).
Proof.
  unfold driven, end_of. destruct (drive idle ∅ steps) as [[[es op] r]|] eqn:E; [|done]. intros _ Hl. exists es, op. by eapply drive_iruns.
Qed.

(** ** The run of the witness *)

Definition moved_on : list (services → ievent) :=
  [start; ev (event ProviderResourceAdd 1 "dns" "a" Udp); ev (event ProviderResourceUpdate 2 "dns" "a" Udp)].

(** The condition on a step as a test. *)
#[local] Instance directive_ok_dec d : Decision (directive_ok d).
Proof. unfold directive_ok, lease_widths. apply _. Defined.

Definition orderly_test (op : ipOperator) (r : services) (e : ievent) : bool :=
  match e with
  | IEvent ev _ _ =>
      let d := buildIPDirective ev in
      bool_decide (directive_ok d)
      && match r !! slot_of d with Some d' => key_of d' =? key_of d | None => true end
      && forallb (λ p, implb ((key_of p.2 =? key_of d) && bool_decide (id_LeaseID p.2 = id_LeaseID d)) (bool_decide (p.1 = slot_of d))) (map_to_list r)
      && match io_state op !! event_key ev with
         | Some entry =>
             bool_decide (mi_presentLease entry = ev_lID ev)
             || (negb (bool_decide (ev_eventType ev = Some ProviderResourceDelete)) && bool_decide (is_Some (mi_lastEvent entry)))
         | None => true
         end
  | _ => true
  end.

Lemma orderly_tested op r e : orderly_test op r e = true → orderly op r e.
Proof.
  destruct e as [| ev an t | | | |]; try done. cbn -[directive_ok_dec]. rewrite !andb_true_iff, bool_decide_eq_true. intros [[[Hd Hs] Hall] He].
  split_and!; [done| | |].
  - intros d' Hd'. rewrite Hd' in Hs. by apply String.eqb_eq.
  - intros s d' Hd'%elem_of_map_to_list%list_elem_of_In Hk Hl. rewrite forallb_forall in Hall. specialize (Hall _ Hd'). cbn in Hall.
    rewrite Hk, String.eqb_refl, bool_decide_eq_true_2 in Hall by done. by apply bool_decide_eq_true in Hall.
  - intros entry Hentry Hne. rewrite Hentry, bool_decide_eq_false_2 in He by done. cbn in He.
    apply andb_true_iff in He as [Ht Hl]. apply negb_true_iff, bool_decide_eq_false in Ht. by apply bool_decide_eq_true in Hl.
Qed.

Fixpoint tested (op : ipOperator) (r : services) (steps : list (services → ievent)) : bool :=
  match steps with
  | [] => true
  | f :: steps =>
      orderly_test op r (f r)
      && match istep pool cfg op (f r) with Some (op1, effects) => tested op1 (foldl apply_svc r effects) steps | None => false end
  end.

Lemma tested_runs op r steps :
  Forall lists_ips steps → tested op r steps = true →
  ∃ es op' r', drive op r steps = Some (es, op', r') ∧ iruns pool cfg orderly op r es op' r'.
Proof.
  intros Hl. revert op r. induction Hl as [|f steps Hf Hl IH]; intros op r; cbn; [intros _; eexists _, _, _; split; [done|constructor]|].
  intros [Ho Ht]%andb_true_iff. destruct (istep pool cfg op (f r)) as [[op1 effects]|] eqn:Es; [|done].
  destruct (IH _ _ Ht) as (es & op' & r' & Ed & Hrun). cbn. rewrite Ed. eexists _, _, _. split; [done|].
  eapply iruns_cons; [done|by apply orderly_tested|apply Hf|done].
Qed.

Lemma moved_on_tested : tested idle ∅ moved_on = true.
Proof. vm_compute. reflexivity. Qed.

Lemma moved_on_lists : Forall lists_ips moved_on.
Proof. repeat constructor; first [apply start_lists_ips|apply ev_lists_ips]. Qed.

Lemma one_service_per_address_witness :
  (∀ s s' d d', end_of moved_on !! s = Some d → end_of moved_on !! s' = Some d' → key_of d = key_of d' → s = s' ∧ d = d')
  ∧ end_of moved_on !! slot_of (directive 2 "dns" "a" Udp) = Some (directive 2 "dns" "a" Udp)
  ∧ end_of moved_on !! slot_of (directive 1 "dns" "a" Udp) = None.
Proof.
  split; [|split; vm_compute; reflexivity]. unfold end_of.
  destruct (tested_runs idle ∅ moved_on moved_on_lists moved_on_tested) as (es & op & r & E & Hrun). rewrite E.
  exact (proj1 (one_service_per_address pool cfg idle op ∅ r es ltac:(by intros s d ?%lookup_empty_Some) eq_refl Hrun)).
Defined.

Lemma passthrough_roundtrip_witness :
  ∃ s, (∀ ips, GetIPPassthroughs [with_addresses ips s] = Ok [passthrough_for 0 (directive 1 "dns" "a" Udp)])
    ∧ GetIPAddressStatusForLease (lid 1) [with_addresses ["10.0.0.1"] s]
      = Ok [MkLeaseState (passthrough_for 8053 (directive 1 "dns" "a" Udp)) "10.0.0.1"].
Proof.
  destruct (passthrough_roundtrip pool (directive 1 "dns" "a" Udp) fine _ ltac:(vm_compute; split_and!; first [done|by right]) eq_refl)
    as (s & _ & _ & Hl & Hs).
  exists s. split; [exact Hl|exact (Hs "10.0.0.1")].
Defined.

(** Metrics of two pools, the total listed twice. *)
Definition sample_families : gmap string (list (metric (F := Z))) :=
  <[metricNameAddrTotal := [MkMetric None []; MkMetric (Some (Some 7%Z)) [("pool", "other")]; MkMetric (Some (Some 100%Z)) [("pool", "default")];
      MkMetric (Some (Some 5%Z)) [("pool", "default")]]]>
  (<[metricNameAddrInUse := [MkMetric (Some (Some 3%Z)) [("zone", "x"); ("pool", "default")]]]> ∅).

Lemma usage_by_name_witness : usage_of (λ z : Z, z) "default" sample_families = Ret (3%Z, 100%Z).
Proof.
  rewrite (usage_by_name (λ z : Z, z) "default" sample_families); [vm_compute; reflexivity|].
  intros name l. unfold sample_families. rewrite !lookup_insert_Some, lookup_empty. intros [[_ <-]|[_ [[_ <-]|[_ ?]]]]; [|..|done]; by repeat constructor.
Defined.

(** ** Services that are left behind *)

(** The resource names another service of the same lease: the service of the
    old name stays, and stays when the resource is deleted. *)
Definition renamed : list (services → ievent) :=
  [start; ev (event ProviderResourceAdd 1 "dns" "a" Udp); ev (event ProviderResourceUpdate 1 "bind" "a" Udp);
   ev (event ProviderResourceDelete 1 "bind" "a" Udp)].

Theorem renamed_service_stays :
  (∃ es op, iruns pool cfg (λ _ _ _, True) idle ∅ es op (end_of renamed))
  ∧ end_of renamed !! slot_of (directive 1 "dns" "a" Udp) = Some (directive 1 "dns" "a" Udp).
Proof.
  split; [|vm_compute; reflexivity]. apply end_runs; [vm_compute; reflexivity|].
  repeat constructor; first [apply start_lists_ips|apply ev_lists_ips].
Qed.

(** The operator restarts and another lease of the owner declares the address:
    the table does not know the protocol of the service, so the service of the
    first lease is not found and stays. *)
Definition restarted : list (services → ievent) :=
  ([start; ev (event ProviderResourceAdd 1 "dns" "a" Udp)] ++ restart ++ [ev (event ProviderResourceAdd 2 "dns" "a" Udp)])%list.

Theorem restart_strands_service :
  (∃ es op, iruns pool cfg (λ _ _ _, True) idle ∅ es op (end_of restarted))
  ∧ end_of restarted !! slot_of (directive 1 "dns" "a" Udp) = Some (directive 1 "dns" "a" Udp)
  ∧ end_of restarted !! slot_of (directive 2 "dns" "a" Udp) = Some (directive 2 "dns" "a" Udp).
Proof.
  split; [|split; vm_compute; reflexivity]. apply end_runs; [vm_compute; reflexivity|].
  repeat constructor; first [apply start_lists_ips|apply ev_lists_ips|apply stop_lists_ips].
Qed.

(** Both protocols of a port share one entry of the table: when another lease
    takes the address over, only the service of the last one is removed. *)
Definition both_protocols : list (services → ievent) :=
  [start; ev (event ProviderResourceAdd 1 "dns" "a" Tcp); ev (event ProviderResourceAdd 1 "dns" "a" Udp);
   ev (event ProviderResourceUpdate 2 "dns" "a" Tcp); ev (event ProviderResourceUpdate 2 "dns" "a" Udp)].

Theorem both_protocols_strand_service :
  (∃ es op, iruns pool cfg (λ _ _ _, True) idle ∅ es op (end_of both_protocols))
  ∧ end_of both_protocols !! slot_of (directive 1 "dns" "a" Tcp) = Some (directive 1 "dns" "a" Tcp)
  ∧ end_of both_protocols !! slot_of (directive 1 "dns" "a" Udp) = None.
Proof.
  split; [|split; vm_compute; reflexivity]. apply end_runs; [vm_compute; reflexivity|].
  repeat constructor; first [apply start_lists_ips|apply ev_lists_ips].
Qed.

(** A service moves to another address: the new resource is declared before
    the old one is deleted, as the deployment manager does, and the deletion
    removes the service they share.  The table still describes it, so an update
    of the new resource does not bring it back. *)
Definition readdressed : list (services → ievent) :=
  [start; ev (event ProviderResourceAdd 1 "dns" "a" Udp); ev (event ProviderResourceAdd 1 "dns" "b" Udp);
   ev (event ProviderResourceDelete 1 "dns" "a" Udp); ev (event ProviderResourceUpdate 1 "dns" "b" Udp)].

Theorem readdressed_service_lost :
  (∃ es op, iruns pool cfg (λ _ _ _, True) idle ∅ es op (end_of readdressed)) ∧ end_of readdressed = ∅.
Proof.
  split; [|vm_compute; reflexivity]. apply end_runs; [vm_compute; reflexivity|].
  repeat constructor; first [apply start_lists_ips|apply ev_lists_ips].
Qed.
