(* ===== verification/KubeDeclare.v ===== *)
(** * Declared hostnames and leased IPs

    [cluster/kube/client_hostname_connections.go] and
    [cluster_ip_connections.go] (which [operator/ip/operator.go] repeats): the
    provider declares hostnames and leased IPs as custom resources of its
    namespace, purges them, and lists them.  The resources are a map by name;
    each request to the API server may fail, and otherwise acts on the map. *)
From Stdlib Require Import Ascii String.
From S2P Require Import Prelude GoStrings ChainTypes LeaseNames CrdManifest ProxyConfig HostRoutes OperatorCommon.
From S2P Require Import HostnameOperator MetalLb IpOperator.

Open Scope string_scope.

Definition serviceNameLabel : string := "service-name".
Definition externalPortLabel : string := "external-port".
Definition protoLabel : string := "proto".
Definition AkashLeaseUpdatedAt : string := "akash.network/lease.updated_at".

(** The provider of the lease is not part of it. *)
Definition kubeSelectorForLease (lid : LeaseID) : selector :=
  [(AkashLeaseOwnerLabelName, lid_Owner lid); (AkashLeaseDSeqLabelName, FormatUint (lid_DSeq lid));
   (AkashLeaseGSeqLabelName, FormatUint (lid_GSeq lid)); (AkashLeaseOSeqLabelName, FormatUint (lid_OSeq lid))].

(** ** Resources *)

(** A resource: its labels, annotations and spec. *)
Record resource (A : Type) := MkResource { rs_Labels : label_map; rs_Annotations : label_map; rs_Spec : A }.
Arguments MkResource {A}.
Arguments rs_Labels {A}.
Arguments rs_Annotations {A}.
Arguments rs_Spec {A}.

#[export] Instance resource_eq_dec {A} `{EqDecision A} : EqDecision (resource A).
Proof. solve_decision. Defined.

(** [Get]: an error of the server, or what is there. *)
Definition api_get {A} (fail : option kerror) (name : string) (st : gmap string A) : result kerror (option A) :=
  match fail with
  | Some NotFound => Ok None
  | Some e => Err e
  | None => Ok (st !! name)
  end.

(** [Create] and [Update] store the resource. *)
Definition api_put {A} (fail : option kerror) (name : string) (x : A) (st : gmap string A) : gmap string A * option kerror :=
  match fail with Some e => (st, Some e) | None => (<[name := x]> st, None) end.

(** What a collection with a label selector and perhaps a name holds. *)
Definition picked {A} (sel : selector) (name : option string) (p : string * resource A) : bool :=
  matches sel (rs_Labels p.2) && match name with Some n => p.1 =? n | None => true end.

(** [DeleteCollection]. *)
Definition api_delete_collection {A} (fail : option kerror) (sel : selector) (name : option string) (st : gmap string (resource A))
  : gmap string (resource A) * option kerror :=
  match fail with
  | Some e => (st, Some e)
  | None => (filter (λ p, picked sel name p = false) st, None)
  end.

Definition api_list {A} `{MapOrder} (sel : selector) (st : gmap string (resource A)) : list (resource A) :=
  List.filter (λ x, matches sel (rs_Labels x)) (map_order _ (map_to_list st)).*2.

(** ** Leased IPs *)

Section ips.
Context `{Protocols} `{GoUnicode} `{Cosmos} `{MapOrder}.

Notation ip_store := (gmap string (resource LeasedIPSpec)).

Definition GetDeclaredIPs (fail : option kerror) (lid : LeaseID) (st : ip_store) : result kerror (list LeasedIPSpec) :=
  match fail with
  | Some e => Err e
  | None => Ok (rs_Spec <$> api_list (kubeSelectorForLease lid) st)
  end.

(** The selector that is built for the passthrough is not the one that is
    used. *)
Definition PurgeDeclaredIP (fail : option kerror) (lid : LeaseID) (serviceName : string) (externalPort : Z) (proto : ServiceProtocol)
  (st : ip_store) : ip_store * option kerror :=
  api_delete_collection fail [(AkashManagedLabelName, "true")] None st.

Definition PurgeDeclaredIPs (fail : option kerror) (lid : LeaseID) (st : ip_store) : ip_store * option kerror :=
  api_delete_collection fail ((AkashManagedLabelName, "true") :: kubeSelectorForLease lid) None st.

Inductive declare_error := DeclareExists | DeclareApi (e : kerror).

Definition ip_resource_name (sharingKey : string) (proto : ServiceProtocol) (externalPort : Z) : string :=
  ToLower (sharingKey +:+ "-" +:+ Protocol_ToString proto +:+ "-" +:+ FormatUint externalPort).

Definition ip_resource (lid : LeaseID) (serviceName : string) (port externalPort : Z) (proto : ServiceProtocol) (sharingKey : string) : resource LeasedIPSpec :=
  MkResource
    (AppendLeaseLabels lid (<[protoLabel := Protocol_ToString proto]> (<[externalPortLabel := FormatUint externalPort]>
      (<[serviceNameLabel := serviceName]> (<[AkashManagedLabelName := "true"]> ∅)))))
    ∅ (MkLeasedIP (LeaseIDFromAkash lid) serviceName port externalPort sharingKey (Protocol_ToString proto)).

Definition DeclareIP (get_fail put_fail : option kerror) (lid : LeaseID) (serviceName : string) (port externalPort : Z)
  (proto : ServiceProtocol) (sharingKey : string) (overwrite : bool) (st : ip_store) : ip_store * option declare_error :=
  let resourceName := ip_resource_name sharingKey proto externalPort in
  match api_get get_fail resourceName st with
  | Err e => (st, Some (DeclareApi e))
  | Ok found =>
      if bool_decide (is_Some found) && negb overwrite then (st, Some DeclareExists)
      else let '(st, err) := api_put put_fail resourceName (ip_resource lid serviceName port externalPort proto sharingKey) st in
        (st, DeclareApi <$> err)
  end.

(** The stream of the client is that of the IP operator. *)
Definition ObserveIPState (data : list LeasedIPSpec) (l : list ip_watch_result) : result string (outcome (list ipResourceEvent)) := observeIPState data l.

End ips.

(** ** Hostnames *)

Section hosts.
Context `{Cosmos} `{MapOrder}.

Notation host_store := (gmap string (resource ProviderHostSpec)).

Definition host_spec (lid : LeaseID) (host serviceName : string) (externalPort : Z) : ProviderHostSpec :=
  MkHostSpec (lid_Owner lid) (lid_Provider lid) host (lid_DSeq lid) (lid_GSeq lid) (lid_OSeq lid) serviceName externalPort.

(** [now] is the formatted time. *)
Definition DeclareHostname (get_fail put_fail : option kerror) (now : string) (lid : LeaseID) (host serviceName : string) (externalPort : Z)
  (st : host_store) : host_store * option kerror :=
  match api_get get_fail host st with
  | Err e => (st, Some e)
  | Ok found =>
      let annotations := match found with Some obj => rs_Annotations obj | None => ∅ end in
      api_put put_fail host
        (MkResource (managed_labels lid) (<[AkashLeaseUpdatedAt := now]> annotations) (host_spec lid host serviceName externalPort)) st
  end.

Definition PurgeDeclaredHostname (fail : option kerror) (lid : LeaseID) (hostname : string) (st : host_store) : host_store * option kerror :=
  api_delete_collection fail (kubeSelectorForLease lid) (Some hostname) st.

Definition PurgeDeclaredHostnames (fail : option kerror) (lid : LeaseID) (st : host_store) : host_store * option kerror :=
  api_delete_collection fail (kubeSelectorForLease lid) None st.

(** The address of twenty zero bytes. *)
Variable unrecoverableOwner : string.

Definition valid_address (s : string) : bool := match AccAddress_String s with Ok _ => true | Err _ => false end.

Definition reservationLeaseID (ph : resource ProviderHostSpec) : LeaseID :=
  let s := rs_Spec ph in
  let owner :=
    match List.find valid_address [ph_Owner s; map_value (rs_Labels ph) AkashLeaseOwnerLabelName] with
    | Some owner => owner
    | None => unrecoverableOwner
    end in
  MkLeaseID owner (ph_Dseq s) (ph_Gseq s) (ph_Oseq s) (ph_Provider s).

(** [ActiveHostname]. *)
Record ActiveHostname := MkActive { ah_ID : LeaseID; ah_Hostname : string }.

Definition active_hostname (ph : resource ProviderHostSpec) : ActiveHostname :=
  MkActive (match ProviderHostSpec_LeaseID (rs_Spec ph) with Ok lid => lid | Err _ => reservationLeaseID ph end) (ph_Hostname (rs_Spec ph)).

Definition AllHostnames (fail : option kerror) (st : host_store) : result kerror (list ActiveHostname) :=
  match fail with
  | Some e => Err e
  | None => Ok (active_hostname <$> api_list [(AkashManagedLabelName, "true")] st)
  end.

(** The stream of the client is that of the hostname operator. *)
Definition ObserveHostnameState (data : list ProviderHostSpec) (l : list watch_result) : list hostnameResourceEvent := observeHostnameState data l.

End hosts.

(** ** Proofs *)

Lemma FormatUint_inj a b : (0 ≤ a)%Z → (0 ≤ b)%Z → FormatUint a = FormatUint b → a = b.
Proof. unfold FormatUint. intros ?? E%Itoa_inj. lia. Qed.

(** The same lease up to its provider. *)
Definition same_lease (a b : LeaseID) : Prop :=
  lid_Owner a = lid_Owner b ∧ lid_DSeq a = lid_DSeq b ∧ lid_GSeq a = lid_GSeq b ∧ lid_OSeq a = lid_OSeq b.
#[export] Instance same_lease_dec a b : Decision (same_lease a b).
Proof. unfold same_lease. apply _. Defined.

Lemma lease_selected lid lid' labels :
  lease_widths lid → lease_widths lid' →
  matches (kubeSelectorForLease lid) (AppendLeaseLabels lid' labels) = bool_decide (same_lease lid' lid).
Proof.
  intros (Hd & Hg & Ho) (Hd' & Hg' & Ho'). unfold matches, kubeSelectorForLease, AppendLeaseLabels. cbn [forallb].
  repeat first [rewrite lookup_insert_eq|rewrite lookup_insert_ne by done]. rewrite andb_true_r.
  apply eq_true_iff_eq. rewrite !andb_true_iff, !String.eqb_eq, bool_decide_eq_true. split.
  - intros (? & Ed%FormatUint_inj & Eg%FormatUint_inj & Eo%FormatUint_inj); [done|lia..].
  - by intros (-> & -> & -> & ->).
Qed.

Lemma managed_selected lid labels :
  labels !! AkashManagedLabelName = Some "true" → matches [(AkashManagedLabelName, "true")] (AppendLeaseLabels lid labels) = true.
Proof. intros Hl. unfold matches, AppendLeaseLabels. cbn [forallb]. by rewrite !lookup_insert_ne, Hl. Qed.

Lemma api_list_elem {A} `{MapOrder} sel (st : gmap string (resource A)) x :
  x ∈ api_list sel st ↔ ∃ name, st !! name = Some x ∧ matches sel (rs_Labels x) = true.
Proof.
  unfold api_list. rewrite list_elem_of_In, filter_In, <- list_elem_of_In, list_elem_of_fmap.
  setoid_rewrite (map_order_perm _ (map_to_list st)). split.
  - intros (([name x'] & -> & He%elem_of_map_to_list) & Hm). eauto.
  - intros (name & He%elem_of_map_to_list & Hm). split; [|done]. by exists (name, x).
Qed.

Lemma delete_collection_lookup {A} sel name (st : gmap string (resource A)) n :
  (api_delete_collection None sel name st).1 !! n = x ← st !! n; if picked sel name (n, x) then None else Some x.
Proof.
  cbn. rewrite map_lookup_filter. destruct (st !! n) as [x|]; [|done]. cbn. by case_guard as Hp; [rewrite Hp|destruct (picked sel name (n, x))].
Qed.

Section ip_proofs.
Context `{Protocols} `{GoUnicode} `{Cosmos} `{MapOrder}.

Notation ip_store := (gmap string (resource LeasedIPSpec)).

(** The requests that change the leased IPs, with the failures of the API
    server. *)
Inductive ip_request :=
| ReqDeclare (get_fail put_fail : option kerror) (lid : LeaseID) (svc : string) (port ext : Z) (proto : ServiceProtocol) (key : string) (overwrite : bool)
| ReqPurge (fail : option kerror) (lid : LeaseID) (svc : string) (ext : Z) (proto : ServiceProtocol)
| ReqPurgeLease (fail : option kerror) (lid : LeaseID).

Definition serve (st : ip_store) (r : ip_request) : ip_store :=
  match r with
  | ReqDeclare g p lid svc port ext proto key o => (DeclareIP g p lid svc port ext proto key o st).1
  | ReqPurge f lid svc ext proto => (PurgeDeclaredIP f lid svc ext proto st).1
  | ReqPurgeLease f lid => (PurgeDeclaredIPs f lid st).1
  end.

(** Every resource is as [DeclareIP] makes it, under its name. *)
Definition declared_form (name : string) (x : resource LeasedIPSpec) : Prop :=
  ∃ lid svc port ext proto key, x = ip_resource lid svc port ext proto key ∧ name = ip_resource_name key proto ext.

Lemma serve_form st r :
  (∀ n x, st !! n = Some x → declared_form n x) → ∀ n x, serve st r !! n = Some x → declared_form n x.
Proof.
  intros Hst n x. destruct r as [g p lid svc port ext proto key o|f lid svc ext proto|f lid]; cbn.
  - unfold DeclareIP. destruct (api_get g _ st) as [found|e]; [|by apply Hst].
    destruct (bool_decide (is_Some found) && negb o); [by apply Hst|]. destruct p as [e|]; cbn; [by apply Hst|].
    intros [[<- <-]|[_ Hx]]%lookup_insert_Some; [|by apply Hst]. by eexists _, _, _, _, _, _.
  - destruct f; [by apply Hst|]. intros [Hx _]%map_lookup_filter_Some. by apply Hst.
  - destruct f; [by apply Hst|]. intros [Hx _]%map_lookup_filter_Some. by apply Hst.
Qed.

Lemma served_form rs n x : foldl serve ∅ rs !! n = Some x → declared_form n x.
Proof.
  revert n x. induction rs as [|r rs IH] using rev_ind; [cbn; by intros n x ?%lookup_empty_Some|]. rewrite foldl_app. by apply serve_form.
Qed.

Lemma form_managed n x : declared_form n x → matches [(AkashManagedLabelName, "true")] (rs_Labels x) = true.
Proof.
  intros (lid & svc & port & ext & proto & key & -> & _). cbn [ip_resource rs_Labels]. apply managed_selected.
  by repeat first [rewrite lookup_insert_eq|rewrite lookup_insert_ne by done].
Qed.

(** Purging one leased IP of one lease, when the API server carries it out,
    removes every leased IP of every lease: after any declarations and purges
    nothing is left. *)
Theorem purge_one_purges_all (rs : list ip_request) (lid : LeaseID) (svc : string) (ext : Z) (proto : ServiceProtocol) :
  foldl serve ∅ (rs ++ [ReqPurge None lid svc ext proto])%list = ∅.
Proof.
  rewrite foldl_app. apply map_eq. intros n. rewrite lookup_empty. cbn [foldl serve]. unfold PurgeDeclaredIP.
  rewrite delete_collection_lookup. destruct (foldl serve ∅ rs !! n) as [x|] eqn:Ex; [|done]. cbn -[picked]. unfold picked. cbn [snd].
  by rewrite (form_managed n x) by (by eapply served_form).
Qed.

(** A leased IP is declared once and observed as declared: a second
    declaration of the same sharing key, protocol and external port is refused
    unless it may overwrite, and an error changes nothing; after a success the
    resource is listed for the lease, and the operator observes it with the
    lease, service, ports, sharing key and protocol that were declared; every
    other resource is as before. *)
Theorem declared_ip_observed (get_fail put_fail : option kerror) (lid : LeaseID) (svc : string) (port ext : Z) (proto : ServiceProtocol)
  (key : string) (overwrite : bool) (st st' : gmap string (resource LeasedIPSpec)) (err : option declare_error)
  (Hwidths : lease_widths lid) (Howner : AccAddress_String (lid_Owner lid) = Ok (lid_Owner lid))
  (Hprovider : AccAddress_String (lid_Provider lid) = Ok (lid_Provider lid))
  (Hproto : ParseServiceProtocol (Protocol_ToString proto) = Ok proto)
  (Hrun : DeclareIP get_fail put_fail lid svc port ext proto key overwrite st = (st', err)) :
  let name := ip_resource_name key proto ext in
  (get_fail = None → is_Some (st !! name) → overwrite = false → err = Some DeclareExists)
  ∧ (is_Some err → st' = st)
  ∧ (∀ n, n ≠ name → st' !! n = st !! n)
  ∧ (err = None → ∃ spec, rs_Spec <$> st' !! name = Some spec
       ∧ (∃ l, GetDeclaredIPs None lid st' = Ok l ∧ spec ∈ l)
       ∧ ∀ t, ip_event t spec = Ok (MkIpEvent lid t svc port ext key proto)).
Proof.
  intros name. unfold DeclareIP in Hrun. fold name in Hrun. destruct (api_get get_fail name st) as [found|e] eqn:Eg.
  2:{ simplify_eq. split_and!; try done. intros ->. by cbn in Eg. }
  destruct (bool_decide (is_Some found) && negb overwrite) eqn:Eo.
  { simplify_eq. split_and!; try done. }
  destruct put_fail as [e|]; cbn in Hrun; simplify_eq.
  { split_and!; try done. intros -> Hs ->. cbn in Eg. simplify_eq. rewrite bool_decide_eq_true_2 in Eo by done. done. }
  split_and!.
  - intros -> Hs ->. cbn in Eg. simplify_eq. rewrite bool_decide_eq_true_2 in Eo by done. done.
  - by intros [].
  - intros n Hn. by rewrite lookup_insert_ne.
  - intros _. rewrite lookup_insert_eq. eexists. split; [done|]. split.
    + eexists. split; [done|]. apply list_elem_of_fmap. exists (ip_resource lid svc port ext proto key). split; [done|].
      apply api_list_elem. exists name. rewrite lookup_insert_eq. split; [done|]. cbn [ip_resource rs_Labels]. rewrite lease_selected by done.
      by apply bool_decide_eq_true.
    + intros t. cbn [ip_resource rs_Spec]. unfold ip_event, LeaseID_FromCRD, LeaseIDFromAkash.
      cbn [lp_LeaseID cl_Owner cl_Provider cl_DSeq cl_GSeq cl_OSeq lp_Protocol]. rewrite Howner, Hprovider. cbn [rbind].
      rewrite ParseUint_FormatUint by apply Hwidths. cbn [rbind]. rewrite Hproto. by destruct lid.
Qed.

End ip_proofs.

Section host_proofs.
Context `{Cosmos} `{MapOrder}.

Notation host_store := (gmap string (resource ProviderHostSpec)).

Inductive host_request :=
| HostDeclare (get_fail put_fail : option kerror) (now : string) (lid : LeaseID) (host svc : string) (ext : Z)
| HostPurge (fail : option kerror) (lid : LeaseID) (host : string)
| HostPurgeLease (fail : option kerror) (lid : LeaseID).

Definition serve_host (st : host_store) (r : host_request) : host_store :=
  match r with
  | HostDeclare g p now lid host svc ext => (DeclareHostname g p now lid host svc ext st).1
  | HostPurge f lid host => (PurgeDeclaredHostname f lid host st).1
  | HostPurgeLease f lid => (PurgeDeclaredHostnames f lid st).1
  end.

(** Identifiers of the widths they have in Go, with addresses of the chain. *)
Definition lease_valid (lid : LeaseID) : Prop :=
  lease_widths lid ∧ AccAddress_String (lid_Owner lid) = Ok (lid_Owner lid) ∧ AccAddress_String (lid_Provider lid) = Ok (lid_Provider lid).
Definition host_valid (r : host_request) : Prop :=
  match r with HostDeclare _ _ _ lid _ _ _ | HostPurge _ lid _ | HostPurgeLease _ lid => lease_valid lid end.

(** The abstract state: which lease, service and port each hostname is
    declared for. *)
Notation declarations := (gmap string (LeaseID * string * Z)).

Definition abs_host (x : resource ProviderHostSpec) : LeaseID * string * Z :=
  let s := rs_Spec x in (MkLeaseID (ph_Owner s) (ph_Dseq s) (ph_Gseq s) (ph_Oseq s) (ph_Provider s), ph_ServiceName s, ph_ExternalPort s).
Definition abs_hosts (st : host_store) : declarations := abs_host <$> st.

(** What the requests promise: the last declaration of a hostname counts, and
    a purge takes only what its lease has declared. *)
Definition spec_host (m : declarations) (r : host_request) : declarations :=
  match r with
  | HostDeclare g p _ lid host svc ext =>
      match g, p with
      | None, None | Some NotFound, None => <[host := (lid, svc, ext)]> m
      | _, _ => m
      end
  | HostPurge None lid host => filter (λ p, ¬ (p.1 = host ∧ same_lease p.2.1.1 lid)) m
  | HostPurgeLease None lid => filter (λ p, ¬ same_lease p.2.1.1 lid) m
  | HostPurge (Some _) _ _ | HostPurgeLease (Some _) _ => m
  end.

(** Every resource is as [DeclareHostname] makes it. *)
Definition host_form (n : string) (x : resource ProviderHostSpec) : Prop :=
  ∃ lid svc ext, lease_valid lid ∧ rs_Labels x = managed_labels lid ∧ rs_Spec x = host_spec lid n svc ext.

Lemma serve_host_form st r :
  host_valid r → (∀ n x, st !! n = Some x → host_form n x) → ∀ n x, serve_host st r !! n = Some x → host_form n x.
Proof.
  intros Hw Hst n x. destruct r as [g p now lid host svc ext|f lid host|f lid]; cbn.
  - unfold DeclareHostname. destruct (api_get g host st) as [found|e]; [|by apply Hst]. destruct p as [e|]; cbn; [by apply Hst|].
    intros [[<- <-]|[_ Hx]]%lookup_insert_Some; [|by apply Hst]. by exists lid, svc, ext.
  - destruct f; [by apply Hst|]. intros [Hx _]%map_lookup_filter_Some. by apply Hst.
  - destruct f; [by apply Hst|]. intros [Hx _]%map_lookup_filter_Some. by apply Hst.
Qed.

Lemma form_selected n x lid : host_form n x → lease_valid lid → matches (kubeSelectorForLease lid) (rs_Labels x) = bool_decide (same_lease (abs_host x).1.1 lid).
Proof.
  intros (lid' & svc & ext & [Hw _] & Hl & Hs) [Hw' _]. rewrite Hl. unfold managed_labels. rewrite lease_selected by done. unfold abs_host. rewrite Hs. by destruct lid'.
Qed.

Lemma serve_host_spec st r :
  host_valid r → (∀ n x, st !! n = Some x → host_form n x) → abs_hosts (serve_host st r) = spec_host (abs_hosts st) r.
Proof.
  intros Hw Hst. unfold abs_hosts. apply map_eq. intros n. rewrite lookup_fmap.
  destruct r as [g p now lid host svc ext|f lid host|f lid]; cbn [serve_host spec_host].
  - unfold DeclareHostname. destruct g as [[| |msg]|], p as [e|]; cbn; rewrite ?lookup_fmap; try done;
      (destruct (decide (n = host)) as [->|Hne]; [by rewrite !lookup_insert_eq; destruct lid|by rewrite !lookup_insert_ne, lookup_fmap]).
  - destruct f; [by rewrite lookup_fmap|]. unfold PurgeDeclaredHostname. rewrite delete_collection_lookup, map_lookup_filter, lookup_fmap.
    destruct (st !! n) as [x|] eqn:Ex; [|done]. cbn -[same_lease]. unfold picked. cbn [snd fst].
    rewrite (form_selected n x lid) by (done || by apply Hst).
    case_guard as Hg; cbn in Hg; case_bool_decide; destruct (String.eqb_spec n host); cbn; tauto.
  - destruct f; [by rewrite lookup_fmap|]. unfold PurgeDeclaredHostnames. rewrite delete_collection_lookup, map_lookup_filter, lookup_fmap.
    destruct (st !! n) as [x|] eqn:Ex; [|done]. cbn -[same_lease]. unfold picked. cbn [snd fst].
    rewrite (form_selected n x lid), andb_true_r by (done || by apply Hst).
    case_guard as Hg; cbn in Hg; case_bool_decide; cbn; tauto.
Qed.

Lemma served_hosts rs :
  Forall host_valid rs → abs_hosts (foldl serve_host ∅ rs) = foldl spec_host ∅ rs ∧ ∀ n x, foldl serve_host ∅ rs !! n = Some x → host_form n x.
Proof.
  induction rs as [|r rs IH] using rev_ind; [intros _; split; [apply fmap_empty|cbn; by intros n x ?%lookup_empty_Some]|].
  intros [Hrs Hr]%Forall_app. apply Forall_cons in Hr as [Hr _]. destruct (IH Hrs) as [Ha Hf]. rewrite !foldl_app. cbn [foldl]. split.
  - rewrite (serve_host_spec _ _ Hr Hf). by rewrite Ha.
  - by apply serve_host_form.
Qed.

Lemma form_active unrecoverable n x lid svc ext :
  lease_valid lid → rs_Spec x = host_spec lid n svc ext → active_hostname unrecoverable x = MkActive lid n.
Proof.
  intros (_ & Ho & Hp) Hs. unfold active_hostname, ProviderHostSpec_LeaseID. rewrite Hs. cbn. rewrite Ho, Hp. by destruct lid.
Qed.

(** Declared hostnames refine their specification: after any
    requests of the provider, with any failures of the API server, each hostname
    is declared for the lease, service and port of the last declaration that a
    purge by that lease has not removed; a purge by another lease leaves it.
    The hostnames a starting provider reserves are exactly these, each for its
    lease. *)
Theorem declared_hosts_refine (unrecoverable : string) (rs : list host_request) (Hvalid : Forall host_valid rs) :
  abs_hosts (foldl serve_host ∅ rs) = foldl spec_host ∅ rs
  ∧ ∃ l, AllHostnames unrecoverable None (foldl serve_host ∅ rs) = Ok l
    ∧ ∀ a, a ∈ l ↔ ∃ svc ext, foldl spec_host ∅ rs !! ah_Hostname a = Some (ah_ID a, svc, ext).
Proof.
  destruct (served_hosts rs Hvalid) as [Ha Hf]. split; [done|]. eexists. split; [done|]. intros a. rewrite list_elem_of_fmap.
  rewrite <- Ha. unfold abs_hosts. setoid_rewrite lookup_fmap. split.
  - intros (x & -> & (n & Hx & _)%api_list_elem). destruct (Hf n x Hx) as (lid & svc & ext & Hv & _ & Hs).
    rewrite (form_active unrecoverable n x lid svc ext) by done. cbn. rewrite Hx. cbn. unfold abs_host. rewrite Hs. destruct lid. eauto.
  - intros (svc & ext & Hx). destruct (foldl serve_host ∅ rs !! ah_Hostname a) as [x|] eqn:Ex; [|done]. cbn in Hx. exists x.
    destruct (Hf _ _ Ex) as (lid & svc' & ext' & Hw & Hl & Hs). unfold abs_host in Hx. rewrite Hs in Hx. cbn in Hx. split.
    + rewrite (form_active unrecoverable (ah_Hostname a) x lid svc' ext') by done. destruct a as [id h], lid. cbn in *. by simplify_eq.
    + apply api_list_elem. exists (ah_Hostname a). split; [done|]. rewrite Hl. unfold managed_labels. apply managed_selected. apply lookup_insert_eq.
Qed.

(** Whatever the resources hold, each is reserved for an owner whose address
    is valid, as a reservation requires. *)
Theorem reserved_owner_valid (unrecoverable : string) (x : resource ProviderHostSpec) (Hzero : valid_address unrecoverable = true)
  (Hcanon : ∀ s t, AccAddress_String s = Ok t → valid_address t = true) :
  valid_address (lid_Owner (ah_ID (active_hostname unrecoverable x))) = true.
Proof.
  unfold active_hostname. cbn [ah_ID]. unfold ProviderHostSpec_LeaseID.
  destruct (AccAddress_String (ph_Owner (rs_Spec x))) as [o|] eqn:Eo; cbn [rbind].
  1: destruct (AccAddress_String (ph_Provider (rs_Spec x))); cbn [rbind]; [by eapply Hcanon|].
  all: unfold reservationLeaseID; cbn [lid_Owner]; destruct (List.find _ _) eqn:Ef; [by apply List.find_some in Ef as [_ ?]|done].
Qed.

End host_proofs.

(** ** Samples *)

Module DeclareSample.

#[local] Existing Instance PlainCosmos.plain.
#[local] Existing Instance listed_order.

Definition lid (owner : string) (n : Z) : LeaseID := MkLeaseID ("akash1" +:+ owner) n 1 1 "akash1p".

(** Alice declares two hostnames; bob cannot purge one of them, alice can; the
    API server refuses a declaration of bob. *)
Definition requests : list host_request :=
  [HostDeclare None None "t1" (lid "alice" 1) "a.example" "web" 80; HostDeclare None None "t2" (lid "alice" 1) "b.example" "web" 80;
   HostPurge None (lid "bob" 2) "a.example"; HostPurge None (lid "alice" 1) "b.example";
   HostDeclare None (Some Conflict) "t3" (lid "bob" 2) "a.example" "web" 80].

Lemma requests_valid : Forall host_valid requests.
Proof. repeat (apply Forall_cons; split; [unfold host_valid, lease_valid, lease_widths; cbn; split_and!; first [done|lia]|]). constructor. Qed.

Inductive proto := Tcp | Udp.
#[local] Instance protocols : Protocols := {|
  ServiceProtocol := proto; Protocol_ToString p := match p with Tcp => "TCP" | Udp => "UDP" end;
  ParseServiceProtocol s := if s =? "TCP" then Ok Tcp else if s =? "UDP" then Ok Udp else Err "unsupported protocol" |}.
#[local] Instance ascii_only : GoUnicode := λ s, s.

Definition declare (overwrite : bool) (st : gmap string (resource LeasedIPSpec)) :=
  DeclareIP None None (lid "alice" 1) "dns" 8053 53 Udp "alice-ip-a" overwrite st.

Definition none : gmap string (resource LeasedIPSpec) := ∅.

Lemma declare_ok : (declare false none).2 = None ∧ is_Some ((declare false none).1 !! ip_resource_name "alice-ip-a" Udp 53).
Proof. vm_compute. eauto. Qed.

Lemma declared_ip_observed_witness :
  (declare false (declare false none).1).2 = Some DeclareExists
  ∧ ∃ spec, rs_Spec <$> (declare false none).1 !! ip_resource_name "alice-ip-a" Udp 53 = Some spec
    ∧ ∀ t, ip_event t spec = Ok (MkIpEvent (lid "alice" 1) t "dns" 8053 53 "alice-ip-a" Udp).
Proof.
  assert (lease_widths (lid "alice" 1)) as Hw by (unfold lease_widths; cbn; lia).
  assert (AccAddress_String (lid_Owner (lid "alice" 1)) = Ok (lid_Owner (lid "alice" 1))) as Ho by (vm_compute; reflexivity).
  assert (AccAddress_String (lid_Provider (lid "alice" 1)) = Ok (lid_Provider (lid "alice" 1))) as Hp by (vm_compute; reflexivity). split.
  - apply (proj1 (@declared_ip_observed protocols ascii_only PlainCosmos.plain listed_order None None (lid "alice" 1) "dns" 8053 53 Udp "alice-ip-a" false _ _ _ Hw Ho Hp eq_refl (surjective_pairing (declare false (declare false none).1))));
      [done|apply declare_ok|done].
  - destruct (proj2 (proj2 (proj2 (@declared_ip_observed protocols ascii_only PlainCosmos.plain listed_order None None (lid "alice" 1) "dns" 8053 53 Udp "alice-ip-a" false _ _ _ Hw Ho Hp eq_refl (surjective_pairing (declare false none)))))
      (proj1 declare_ok)) as (spec & Hs & _ & He). by exists spec.
Defined.

End DeclareSample.

Lemma declared_hosts_refine_witness :
  (foldl spec_host ∅ DeclareSample.requests !! "a.example" = Some (DeclareSample.lid "alice" 1, "web", 80%Z))
  ∧ abs_hosts (foldl serve_host ∅ DeclareSample.requests) = foldl spec_host ∅ DeclareSample.requests.
Proof.
  split; [vm_compute; reflexivity|].
  exact (proj1 (declared_hosts_refine (H := PlainCosmos.plain) (H0 := listed_order) "zero" _ DeclareSample.requests_valid)).
Defined.
