(* ===== verification/Pricing.v ===== *)
(** * Bid prices

    [bidengine/pricing.go] and [shellscript.go]: what the provider asks for an
    order.  Prices by scale are computed with decimals of unlimited precision
    (canonical rationals here); the division of decimals and the text of the
    chain's 18-digit decimals are calls into libraries. *)
From Stdlib Require Import Ascii String QArith Qround Qcanon.
From S2P Require Import Prelude GoStrings ChainTypes ClusterTypes LeaseNames.

Open Scope string_scope.

(** The decimal libraries and the chain SDK: the division of decimals, which
    rounds; the chain's decimal of the text of a decimal, in units of its last
    digit; the largest one that sorts; the denominations; the storage class
    of a volume that is not persistent. *)
Class Decimals := {
  dec_Div : Qc → Qc → Qc;
  LegacyNewDecFromStr : Qc → result string Z;
  LegacyMaxSortableDec : Z;
  ValidDenom : string → bool;
  StorageEphemeral : string
}.

(** What the prices rely on: a quotient has the sign of its operands, and the
    chain's decimal of a text is the number, or an error. *)
Class DecimalLaws `{Decimals} : Prop := {
  dec_Div_nonneg : ∀ a b, (0 ≤ a)%Qc → (0 < b)%Qc → (0 ≤ dec_Div a b)%Qc;
  LegacyNewDecFromStr_exact : ∀ x z, LegacyNewDecFromStr x = Ok z → (x = Qc_of_Z z / Qc_of_Z (10 ^ 18))%Qc
}.

(** Errors of the strategies. *)
Inductive price_error :=
| ErrAllScalesZero
| ErrScaleNegative
| ErrNoPriceScaleForStorageClass (class : string)
| ErrBidQuantityInvalid
| ErrBidZero
| ErrDecimal (msg : string)
| ErrPathEmpty
| ErrProcessLimitZero
| ErrProcessRuntimeLimitZero
| ErrScript (msg : string).

(** [Request]; the price of the group is a method of the SDK. *)
Record Request := MkRequest {
  rq_Owner : string; rq_GSpec : GroupSpec; rq_Price : DecCoin; rq_AllocatedResources : list ResourceUnit; rq_PricePrecision : Z }.

Section pricing.
Context `{Decimals} `{ChainSdk} `{MapOrder}.

(** [sdk.NewDecCoinFromDec] panics on a denomination that is not valid and on
    a negative amount. *)
Definition NewDecCoinFromDec (denom : string) (amount : Z) : outcome DecCoin :=
  if ValidDenom denom && (0 <=? amount)%Z then Ret (MkDecCoin denom amount) else Panic.

(** ** Prices by scale *)

(** The type [Storage]: a price for each class. *)
Notation scales := (gmap string Qc).

Definition IsAnyZero (ss : scales) : bool := bool_decide (size ss = 0%nat) || existsb (λ p, bool_decide (p.2 = 0%Qc)) (map_to_list ss).
Definition IsAnyNegative (ss : scales) : bool := existsb (λ p, bool_decide (p.2 < 0)%Qc) (map_to_list ss).
Definition AllLessThenOrEqual (val : Qc) (ss : scales) : bool := forallb (λ p, bool_decide (p.2 ≤ val)%Qc) (map_to_list ss).

Record scalePricing := MkScale {
  sc_cpuScale : Qc; sc_memoryScale : Qc; sc_storageScale : scales; sc_endpointScale : Qc; sc_ipScale : Qc }.

Definition MakeScalePricing (cpu memory : Qc) (storage : scales) (endpoint ip : Qc) : result price_error scalePricing :=
  if bool_decide (cpu = 0%Qc) && bool_decide (memory = 0%Qc) && IsAnyZero storage && bool_decide (endpoint = 0%Qc) && bool_decide (ip = 0%Qc)
  then Err ErrAllScalesZero
  else if bool_decide (cpu < 0)%Qc || bool_decide (memory < 0)%Qc || IsAnyNegative storage || bool_decide (endpoint < 0)%Qc
    || bool_decide (ip < 0)%Qc
  then Err ErrScaleNegative
  else Ok (MkScale cpu memory storage endpoint ip).

(** [ceilBigRatToBigInt] of a fraction in lowest terms. *)
Definition ceilBigRatToBigInt (v : Qc) : Z :=
  let q := (Qnum v / Zpos (Qden v))%Z in if (Qden v =? 1)%positive then q else (q + 1)%Z.

(** What the loop sums up. *)
Record totals := MkTotals { to_cpu : Qc; to_memory : Qc; to_storage : scales; to_endpoint : Qc }.

Definition price_class (attrs : Attributes) : string :=
  if (find_AsBool attrs StorageAttributePersistent).1 then
    match find_AsString attrs StorageAttributeClass with (class, true) => class | (_, false) => StorageEphemeral end
  else StorageEphemeral.

Fixpoint sum_volumes (count : Qc) (l : list Storage) (t : scales) : result price_error scales :=
  match l with
  | [] => Ok t
  | s :: l =>
      let class := price_class (sto_Attributes s) in
      match t !! class with
      | None => Err (ErrNoPriceScaleForStorageClass class)
      | Some total => sum_volumes count l (<[class := (total + Qc_of_Z (sto_Quantity s) * count)%Qc]> t)
      end
  end.

(** A resource without CPU or memory panics. *)
Fixpoint sum_units (l : list ResourceUnit) (t : totals) : outcome (result price_error totals) :=
  match l with
  | [] => Ret (Ok t)
  | u :: l =>
      let r := ru_Resources u in
      let count := Qc_of_Z (Z.of_nat (ru_Count u)) in
      (let! cpu := deref (res_CPU r) in
      let! memory := deref (res_Memory r) in
      match sum_volumes count (res_Storage r) (to_storage t) with
      | Err e => Ret (Err e)
      | Ok storage =>
          sum_units l (MkTotals (to_cpu t + Qc_of_Z (cpu_Units cpu) * count)%Qc (to_memory t + Qc_of_Z (mem_Quantity memory) * count)%Qc storage
                         (to_endpoint t + Qc_of_Z (Z.of_nat (List.length (res_Endpoints r))))%Qc)
      end)%go
  end.

Definition Mi : Z := (1024 * 1024)%Z.
Definition mebibytes : Qc := Qc_of_Z Mi.

Definition scale_CalculatePrice (fp : scalePricing) (req : Request) : outcome (result price_error DecCoin) :=
  let start := MkTotals 0%Qc 0%Qc ((λ _, 0%Qc) <$> sc_storageScale fp) 0%Qc in
  let ipTotal := ((0 + sc_ipScale fp) * Qc_of_Z (Z.of_nat (GetEndpointQuantityOfResourceGroup (AGroupSpec (rq_GSpec req)) LEASED_IP)))%Qc in
  (let! sums := sum_units (gs_Resources (rq_GSpec req)) start in
  match sums with
  | Err e => Ret (Err e)
  | Ok t =>
      let cpuTotal := (to_cpu t * sc_cpuScale fp)%Qc in
      let memoryTotal := (dec_Div (to_memory t) mebibytes * sc_memoryScale fp)%Qc in
      let storageTotal := map_imap (λ class total, Some (dec_Div total mebibytes * default 0 (sc_storageScale fp !! class))%Qc) (to_storage t) in
      let endpointTotal := (to_endpoint t * sc_endpointScale fp)%Qc in
      if bool_decide (cpuTotal < 0)%Qc || bool_decide (memoryTotal < 0)%Qc || IsAnyNegative storageTotal || bool_decide (endpointTotal < 0)%Qc
        || bool_decide (ipTotal < 0)%Qc
      then Ret (Err ErrBidQuantityInvalid)
      else
        let totalCost := foldl (λ acc p, (acc + p.2)%Qc) (cpuTotal + memoryTotal)%Qc (map_order _ (map_to_list storageTotal)) in
        let totalCost := (totalCost + endpointTotal + ipTotal)%Qc in
        if bool_decide (totalCost < 0)%Qc then Ret (Err ErrBidQuantityInvalid)
        else if bool_decide (totalCost = 0%Qc) then Ret (Err ErrBidZero)
        else match LegacyNewDecFromStr totalCost with
        | Err e => Ret (Err (ErrDecimal e))
        | Ok costDec =>
            if negb (costDec <=? LegacyMaxSortableDec)%Z then Ret (Err ErrBidQuantityInvalid)
            else let! coin := NewDecCoinFromDec (dc_Denom (rq_Price req)) costDec in Ret (Ok coin)
        end
  end)%go.

(** ** Random prices *)

Definition Gi : Z := (1024 * 1024 * 1024)%Z.
(** A whole number as a decimal of the chain. *)
Definition LegacyNewDec (z : Z) : Z := (z * 10 ^ 18)%Z.

Fixpoint sum_memory (l : list ResourceUnit) : outcome Z :=
  match l with
  | [] => Ret 0%Z
  | u :: l =>
      (let! m := deref (res_Memory (ru_Resources u)) in
      let! rest := sum_memory l in
      Ret (mem_Quantity m * Z.of_nat (ru_Count u) + rest)%Z)%go
  end.

Definition calculatePriceRange (gspec : GroupSpec) (price : DecCoin) : outcome (DecCoin * DecCoin) :=
  (let! mem := sum_memory (gs_Resources gspec) in
  let cmin := LegacyNewDec (mem * 50 ÷ Gi) in
  let cmax := LegacyNewDec (mem * 1048576 ÷ Gi) in
  let cmax := if (dc_Amount price <? cmax)%Z then dc_Amount price else cmax in
  let cmin := if (cmin =? 0)%Z then LegacyNewDec 1 else cmin in
  let cmax := if (cmax =? 0)%Z then LegacyNewDec 1 else cmax in
  let! lo := NewDecCoinFromDec (dc_Denom price) cmin in
  let! hi := NewDecCoinFromDec (dc_Denom price) cmax in
  Ret (lo, hi))%go.

(** [rand] is the number drawn below a bound, or the error of the source;
    [TruncateInt64] panics when the number does not fit.  The quotients of the
    chain's decimals by an integer drop the remainder. *)
Definition random_CalculatePrice (req : Request) (rand : Z → result string Z) : outcome (result price_error DecCoin) :=
  (let! (minPrice, maxPrice) := calculatePriceRange (rq_GSpec req) (rq_Price req) in
  if (dc_Amount minPrice =? dc_Amount maxPrice)%Z then Ret (Ok maxPrice)
  else
    let delta := ((dc_Amount maxPrice - dc_Amount minPrice) * 10000)%Z in
    let minbid := (delta ÷ 10 ^ 18)%Z in
    if negb ((- 2 ^ 63 <=? minbid)%Z && (minbid <? 2 ^ 63)%Z) then Panic
    else match rand (Z.max 1 minbid) with
    | Err e => Ret (Err (ErrDecimal e))
    | Ok val =>
        let scaledValue := (LegacyNewDec val ÷ 10000 ÷ 100)%Z in
        let! coin := NewDecCoinFromDec (dc_Denom minPrice) (dc_Amount minPrice + scaledValue)%Z in Ret (Ok coin)
    end)%go.

(** ** Prices from a script *)

Record storageElement := MkStorageElement { se_Class : string; se_Size : Z }.
Record gpuVendorAttributes := MkVendorAttributes { gv_Model : string; gv_RAM : option string; gv_Interface : option string }.
Record gpuElement := MkGpuElement { ge_Units : Z; ge_Vendor : gmap string gpuVendorAttributes }.
Record dataForScriptElement := MkScriptElement {
  de_Memory : Z; de_CPU : Z; de_GPU : gpuElement; de_Storage : list storageElement; de_Count : Z; de_EndpointQuantity : Z;
  de_IPLeaseQuantity : Z }.
Record dataForScript := MkScriptData {
  df_Resources : list dataForScriptElement; df_Price : DecCoin; df_PricePrecision : option Z; df_ConfidentialCompute : bool }.

(** The pairs after vendor and model; an odd number of tokens panics. *)
Fixpoint gpu_pairs (tokens : list string) (a : gpuVendorAttributes) : outcome gpuVendorAttributes :=
  match tokens with
  | [] => Ret a
  | [_] => Panic
  | key :: val :: tokens =>
      gpu_pairs tokens
        (if key =? "ram" then MkVendorAttributes (gv_Model a) (Some val) (gv_Interface a)
         else if key =? "interface" then MkVendorAttributes (gv_Model a) (gv_RAM a) (Some val)
         else a)
  end.

Fixpoint gpu_vendors (attrs : Attributes) (m : gmap string gpuVendorAttributes) : outcome (gmap string gpuVendorAttributes) :=
  match attrs with
  | [] => Ret m
  | attr :: attrs =>
      match Split (attr_Key attr) "/"%char with
      | "vendor" :: tokens =>
          match tokens with
          | vendor :: _ :: model :: pairs =>
              (let! a := gpu_pairs pairs (MkVendorAttributes model None None) in gpu_vendors attrs (<[vendor := a]> m))%go
          | _ => Panic
          end
      | _ => gpu_vendors attrs m
      end
  end.

Definition parseGPU (g : GPU) : outcome gpuElement :=
  (let! m := gpu_vendors (gpu_Attributes g) ∅ in Ret (MkGpuElement (gpu_Units g) m))%go.

Definition parseStorage (l : list Storage) : list storageElement :=
  map (λ s, let class := (find_AsString (sto_Attributes s) StorageAttributeClass).1 in
    MkStorageElement (if class =? "" then StorageEphemeral else class) (sto_Quantity s)) l.

Definition script_element (u : ResourceUnit) : outcome dataForScriptElement :=
  let r := ru_Resources u in
  (let! cpu := deref (res_CPU r) in
  let! gpu := deref (res_GPU r) in
  let! g := parseGPU gpu in
  let! memory := deref (res_Memory r) in
  Ret (MkScriptElement (mem_Quantity memory) (cpu_Units cpu) g (parseStorage (res_Storage r)) (Z.of_nat (ru_Count u))
         (Z.of_nat (List.length (res_Endpoints r))) (Z.of_nat (GetEndpointQuantityOfResourceUnits r LEASED_IP))))%go.

Definition zero_element : dataForScriptElement := MkScriptElement 0 0 (MkGpuElement 0 ∅) [] 0 0 0.

(** The elements are written into a slice as long as the resources that were
    asked for; more allocated ones panic. *)
Fixpoint script_elements (i : nat) (l : list ResourceUnit) (d : list dataForScriptElement) : outcome (list dataForScriptElement) :=
  match l with
  | [] => Ret d
  | u :: l =>
      (let! e := script_element u in
      if (i <? List.length d)%nat then script_elements (S i) l (<[i := e]> d) else Panic)%go
  end.

Definition newDataForScript (r : Request) : outcome dataForScript :=
  let resources := match rq_AllocatedResources r with [] => gs_Resources (rq_GSpec r) | l => l end in
  let confidential := existsb (λ a, (attr_Key a =? "confidential-compute") && (attr_Value a =? "true")) (gs_Requirements (rq_GSpec r)) in
  (let! d := script_elements 0 resources (replicate (List.length (gs_Resources (rq_GSpec r))) zero_element) in
  Ret (MkScriptData d (rq_Price r) (if (0 <? rq_PricePrecision r)%Z then Some (rq_PricePrecision r) else None) confidential))%go.

(** [ss_free]: the tokens in the channel that limits the processes. *)
Record shellScriptPricing := MkScript { ss_path : string; ss_processLimit : Z; ss_runtimeLimit : Z; ss_free : Z }.

Definition MakeShellScriptPricing (path : string) (processLimit runtimeLimit : Z) : result price_error shellScriptPricing :=
  if (String.length path =? 0)%nat then Err ErrPathEmpty
  else if (processLimit =? 0)%Z then Err ErrProcessLimitZero
  else if (runtimeLimit =? 0)%Z then Err ErrProcessRuntimeLimitZero
  else Ok (MkScript path processLimit runtimeLimit processLimit).

(** A script may start while a token is free. *)
Definition script_begin (s : shellScriptPricing) : option shellScriptPricing :=
  if (0 <? ss_free s)%Z then Some (MkScript (ss_path s) (ss_processLimit s) (ss_runtimeLimit s) (ss_free s - 1)) else None.
Definition script_end (s : shellScriptPricing) : shellScriptPricing :=
  MkScript (ss_path s) (ss_processLimit s) (ss_runtimeLimit s) (ss_free s + 1).

(** The number a text is, as far as [LegacyNewDecFromStr] reads it. *)
Class DecimalText := LegacyNewDecFromText : string → result string Z.

(** What is made of the run of the script: whether it timed out, its exit and
    its output. *)
Definition script_price `{DecimalText} (req : Request) (ctxErr : option string) (exit : option string) (output : string)
  : outcome (result price_error DecCoin) :=
  match ctxErr with
  | Some e => Ret (Err (ErrScript e))
  | None =>
      match exit with
      | Some e => Ret (Err (ErrScript e))
      | None =>
          let valueStr := TrimSpace output in
          if valueStr =? "" then Ret (Err ErrBidQuantityInvalid)
          else match LegacyNewDecFromText valueStr with
          | Err _ => Ret (Err ErrBidQuantityInvalid)
          | Ok price =>
              if (price =? 0)%Z then Ret (Err ErrBidZero)
              else if (price <? 0)%Z then Ret (Err ErrBidQuantityInvalid)
              else (let! coin := NewDecCoinFromDec (dc_Denom (rq_Price req)) price in Ret (Ok coin))%go
          end
      end
  end.

End pricing.

(** ** Prices by scale are linear *)

Section scale.
Context `{Decimals} `{!DecimalLaws} `{ChainSdk} `{MapOrder}.

Fixpoint qsum {A} (f : A → Qc) (l : list A) : Qc := match l with [] => 0%Qc | x :: l => (f x + qsum f l)%Qc end.

Lemma qsum_app {A} (f : A → Qc) l l' : qsum f (l ++ l')%list = (qsum f l + qsum f l')%Qc.
Proof. induction l as [|x l IH]; cbn; [by rewrite Qcplus_0_l|]. by rewrite IH, Qcplus_assoc. Qed.

#[local] Instance qsum_perm {A} (f : A → Qc) : Proper ((≡ₚ) ==> (=)) (qsum f).
Proof. intros l l'. induction 1; cbn; [done|by f_equal|ring|congruence]. Qed.

Lemma qsum_ext {A} (f g : A → Qc) l : (∀ x, x ∈ l → f x = g x) → qsum f l = qsum g l.
Proof. induction l as [|x l IH]; cbn; intros Hf; [done|]. rewrite Hf by set_solver. f_equal. apply IH. set_solver. Qed.

Lemma foldl_qsum {A} (f : A → Qc) l acc : foldl (λ acc x, (acc + f x)%Qc) acc l = (acc + qsum f l)%Qc.
Proof. revert acc. induction l as [|x l IH]; intros acc; cbn; [ring|]. rewrite IH. ring. Qed.

Lemma Qc_add_nonneg a b : (0 ≤ a)%Qc → (0 ≤ b)%Qc → (0 ≤ a + b)%Qc.
Proof. intros Ha Hb. rewrite <- (Qcplus_0_l 0). by apply Qcplus_le_compat. Qed.

Lemma Qc_mul_nonneg a b : (0 ≤ a)%Qc → (0 ≤ b)%Qc → (0 ≤ a * b)%Qc.
Proof. intros Ha Hb. rewrite <- (Qcmult_0_l b). by apply Qcmult_le_compat_r. Qed.

Lemma qsum_nonneg {A} (f : A → Qc) l : (∀ x, x ∈ l → (0 ≤ f x)%Qc) → (0 ≤ qsum f l)%Qc.
Proof. induction l as [|x l IH]; cbn; intros Hf; [apply Qcle_refl|]. apply Qc_add_nonneg; [apply Hf; set_solver|apply IH; set_solver]. Qed.

(** What the units ask for. *)
Definition unit_count (u : ResourceUnit) : Qc := Qc_of_Z (Z.of_nat (ru_Count u)).
Definition unit_cpu (u : ResourceUnit) : Qc :=
  match res_CPU (ru_Resources u) with Some c => (Qc_of_Z (cpu_Units c) * unit_count u)%Qc | None => 0%Qc end.
Definition unit_memory (u : ResourceUnit) : Qc :=
  match res_Memory (ru_Resources u) with Some m => (Qc_of_Z (mem_Quantity m) * unit_count u)%Qc | None => 0%Qc end.
Definition volume_of (count : Qc) (class : string) (s : Storage) : Qc :=
  if bool_decide (price_class (sto_Attributes s) = class) then (Qc_of_Z (sto_Quantity s) * count)%Qc else 0%Qc.
Definition unit_volume (class : string) (u : ResourceUnit) : Qc := qsum (volume_of (unit_count u) class) (res_Storage (ru_Resources u)).
Definition unit_endpoints (u : ResourceUnit) : Qc := Qc_of_Z (Z.of_nat (List.length (res_Endpoints (ru_Resources u)))).

(** The price per unit of what is asked for, summed up; memory and volumes by
    the mebibyte, replicas counted, endpoints and addresses by the group. *)
Definition cost (fp : scalePricing) (spec : GroupSpec) : Qc :=
  let l := gs_Resources spec in
  (sc_cpuScale fp * qsum unit_cpu l + sc_memoryScale fp * dec_Div (qsum unit_memory l) mebibytes
   + qsum (λ p, p.2 * dec_Div (qsum (unit_volume p.1) l) mebibytes) (map_to_list (sc_storageScale fp))
   + sc_endpointScale fp * qsum unit_endpoints l
   + sc_ipScale fp * Qc_of_Z (Z.of_nat (GetEndpointQuantityOfResourceGroup (AGroupSpec spec) LEASED_IP)))%Qc.

(** The first storage class, in the order of the group, that has no price. *)
Definition classes_of (l : list ResourceUnit) : list string :=
  concat (map (λ u, map (λ s, price_class (sto_Attributes s)) (res_Storage (ru_Resources u))) l).
Definition unpriced (fp : scalePricing) (l : list ResourceUnit) : option string :=
  List.find (λ c, negb (bool_decide (is_Some (sc_storageScale fp !! c)))) (classes_of l).

(** Units as the chain has them: CPU and memory are set, quantities are not
    negative. *)
Definition complete_unit (u : ResourceUnit) : Prop :=
  (∃ c, res_CPU (ru_Resources u) = Some c ∧ (0 ≤ cpu_Units c)%Z) ∧ (∃ m, res_Memory (ru_Resources u) = Some m ∧ (0 ≤ mem_Quantity m)%Z)
  ∧ Forall (λ s, (0 ≤ sto_Quantity s)%Z) (res_Storage (ru_Resources u)).

(** *** The sums *)

Lemma find_ext {A} (f g : A → bool) l : (∀ x, f x = g x) → List.find f l = List.find g l.
Proof. intros Hf. induction l as [|x l IH]; cbn; [done|]. by rewrite Hf, IH. Qed.

Lemma find_app {A} (f : A → bool) l l' : List.find f (l ++ l')%list = match List.find f l with Some x => Some x | None => List.find f l' end.
Proof. induction l as [|x l IH]; cbn; [done|]. by destruct (f x). Qed.

Lemma sum_volumes_spec count l (t : gmap string Qc) :
  match List.find (λ c, negb (bool_decide (is_Some (t !! c)))) (map (λ s, price_class (sto_Attributes s)) l) with
  | Some c => sum_volumes count l t = Err (ErrNoPriceScaleForStorageClass c)
  | None => ∃ t', sum_volumes count l t = Ok t' ∧ ∀ c, t' !! c = (λ x, (x + qsum (volume_of count c) l)%Qc) <$> t !! c
  end.
Proof.
  revert t. induction l as [|s l IH]; intros t; cbn [map List.find sum_volumes].
  { exists t. split; [done|]. intros c. cbn. destruct (t !! c); [|done]. cbn. by rewrite Qcplus_0_r. }
  set (class := price_class (sto_Attributes s)). destruct (t !! class) as [total|] eqn:Et.
  2:{ rewrite bool_decide_eq_false_2 by by intros []. done. }
  rewrite bool_decide_eq_true_2 by done. cbn [negb].
  specialize (IH (<[class := (total + Qc_of_Z (sto_Quantity s) * count)%Qc]> t)).
  assert (∀ c, bool_decide (is_Some (<[class := (total + Qc_of_Z (sto_Quantity s) * count)%Qc]> t !! c)) = bool_decide (is_Some (t !! c))) as Hdom.
  { intros c. apply bool_decide_ext. rewrite lookup_insert_is_Some'. split; [intros [<-|?]; [by rewrite Et|done]|auto]. }
  rewrite (find_ext _ (λ c, negb (bool_decide (is_Some (t !! c))))) in IH by (intros c; by rewrite Hdom).
  destruct (List.find _ _); [done|]. destruct IH as (t' & -> & Ht'). exists t'. split; [done|]. intros c. rewrite Ht'. cbn [qsum].
  unfold volume_of at 2. fold class. destruct (decide (class = c)) as [->|Hne].
  - rewrite lookup_insert_eq, Et, bool_decide_eq_true_2 by done. cbn. f_equal. ring.
  - rewrite lookup_insert_ne, bool_decide_eq_false_2 by done. destruct (t !! c); [|done]. cbn. f_equal. ring.
Qed.

(** The sums of the units that come after those already in [t]. *)
Definition summed (t : totals) (l : list ResourceUnit) (t' : totals) : Prop :=
  to_cpu t' = (to_cpu t + qsum unit_cpu l)%Qc ∧ to_memory t' = (to_memory t + qsum unit_memory l)%Qc
  ∧ to_endpoint t' = (to_endpoint t + qsum unit_endpoints l)%Qc
  ∧ ∀ c, to_storage t' !! c = (λ x, (x + qsum (unit_volume c) l)%Qc) <$> to_storage t !! c.

Lemma sum_units_spec l t :
  Forall complete_unit l →
  match List.find (λ c, negb (bool_decide (is_Some (to_storage t !! c)))) (classes_of l) with
  | Some c => sum_units l t = Ret (Err (ErrNoPriceScaleForStorageClass c))
  | None => ∃ t', sum_units l t = Ret (Ok t') ∧ summed t l t'
  end.
Proof.
  intros Hl. revert t. induction Hl as [|u l Hu Hl IH]; intros t.
  { cbn. exists t. split; [done|]. unfold summed. cbn. rewrite !Qcplus_0_r. split_and!; try done. intros c.
    destruct (to_storage t !! c); [|done]. cbn. by rewrite Qcplus_0_r. }
  destruct Hu as ((cpu & Ec & _) & (mem & Em & _) & _). unfold classes_of. cbn [map concat sum_units]. rewrite Ec, Em. cbn [deref obind].
  rewrite find_app. pose proof (sum_volumes_spec (unit_count u) (res_Storage (ru_Resources u)) (to_storage t)) as Hv. fold (unit_count u).
  destruct (List.find _ (map _ _)) as [c|]; [by rewrite Hv|]. destruct Hv as (st & -> & Hst).
  match goal with |- context [sum_units l ?x] => specialize (IH x); set (t1 := x) in * end. cbn [to_storage t1] in IH. fold (classes_of l).
  assert (∀ c, bool_decide (is_Some (st !! c)) = bool_decide (is_Some (to_storage t !! c))) as Hdom.
  { intros c. apply bool_decide_ext. by rewrite Hst, fmap_is_Some. }
  rewrite (find_ext _ (λ c, negb (bool_decide (is_Some (to_storage t !! c))))) in IH by (intros c; by rewrite Hdom).
  destruct (List.find _ (classes_of l)) as [c|]; [done|]. destruct IH as (t' & E & Hc & Hm & He & Hs). exists t'. split; [done|].
  unfold summed. cbn [qsum to_cpu to_memory to_endpoint to_storage t1] in *. unfold unit_cpu at 1, unit_memory at 1. rewrite Ec, Em, Hc, Hm, He.
  split_and!; [ring|ring|unfold unit_endpoints at 2; ring|]. intros c. rewrite Hs, Hst. destruct (to_storage t !! c); [|done]. cbn. f_equal.
  fold (unit_volume c u). ring.
Qed.

(** *** The price *)

Lemma bool_lt_nonneg (x : Qc) : (0 ≤ x)%Qc → bool_decide (x < 0)%Qc = false.
Proof. intros Hx. apply bool_decide_eq_false. by apply Qcle_not_lt. Qed.

Lemma any_negative_false (m : gmap string Qc) : (∀ c x, m !! c = Some x → (0 ≤ x)%Qc) → IsAnyNegative m = false.
Proof.
  intros Hm. unfold IsAnyNegative. apply not_true_iff_false. rewrite existsb_exists. intros ([c x] & Hin%list_elem_of_In & Hx).
  apply bool_decide_eq_true in Hx. apply elem_of_map_to_list in Hin. by apply Qclt_not_le in Hx; destruct Hx; eapply Hm.
Qed.

Lemma any_negative_nonneg (m : gmap string Qc) c x : IsAnyNegative m = false → m !! c = Some x → (0 ≤ x)%Qc.
Proof.
  unfold IsAnyNegative. intros Hf Hx. apply Qcnot_lt_le. intros Hlt. apply not_true_iff_false in Hf. apply Hf, existsb_exists.
  exists (c, x). split; [by apply list_elem_of_In, elem_of_map_to_list|]. by apply bool_decide_eq_true.
Qed.

(** Scales that [MakeScalePricing] accepts are not negative. *)
Definition scales_nonneg (fp : scalePricing) : Prop :=
  (0 ≤ sc_cpuScale fp)%Qc ∧ (0 ≤ sc_memoryScale fp)%Qc ∧ (∀ c x, sc_storageScale fp !! c = Some x → (0 ≤ x)%Qc)
  ∧ (0 ≤ sc_endpointScale fp)%Qc ∧ (0 ≤ sc_ipScale fp)%Qc.

Lemma made_nonneg cpu memory storage endpoint ip fp :
  MakeScalePricing cpu memory storage endpoint ip = Ok fp → fp = MkScale cpu memory storage endpoint ip ∧ scales_nonneg fp.
Proof.
  unfold MakeScalePricing. case_match; [done|]. case_match eqn:Hn; [done|]. intros [= <-]. split; [done|].
  rewrite !orb_false_iff, !bool_decide_eq_false in Hn. destruct Hn as ((((Hc & Hm) & Hs) & He) & Hi).
  split_and!; try (by apply Qcnot_lt_le). intros c x. by apply any_negative_nonneg.
Qed.

Lemma Qc_of_Z_nonneg z : (0 ≤ z)%Z → (0 ≤ Qc_of_Z z)%Qc.
Proof. intros Hz. rewrite <- Z2Qc_inj_0. exact (proj1 (Z2Qc_inj_le 0%Z z) Hz). Qed.

Lemma sums_nonneg l :
  Forall complete_unit l →
  (0 ≤ qsum unit_cpu l)%Qc ∧ (0 ≤ qsum unit_memory l)%Qc ∧ (0 ≤ qsum unit_endpoints l)%Qc ∧ ∀ c, (0 ≤ qsum (unit_volume c) l)%Qc.
Proof.
  intros Hl. rewrite Forall_forall in Hl.
  assert (∀ u, (0 ≤ unit_count u)%Qc) as Hcount by (intros u; apply Qc_of_Z_nonneg; lia).
  split_and!; [| | |intros c]; apply qsum_nonneg; intros u Hu; destruct (Hl u Hu) as ((cpu & Ec & Hc) & (mem & Em & Hm) & Hs).
  - unfold unit_cpu. rewrite Ec. apply Qc_mul_nonneg; [by apply Qc_of_Z_nonneg|done].
  - unfold unit_memory. rewrite Em. apply Qc_mul_nonneg; [by apply Qc_of_Z_nonneg|done].
  - apply Qc_of_Z_nonneg. lia.
  - apply qsum_nonneg. intros s Hin. unfold volume_of. case_bool_decide; [|apply Qcle_refl].
    apply Qc_mul_nonneg; [|done]. rewrite Forall_forall in Hs. by apply Qc_of_Z_nonneg, Hs.
Qed.

Lemma mebibytes_pos : (0 < mebibytes)%Qc.
Proof. done. Qed.

(** What a cost becomes. *)
Definition price_of_cost (denom : string) (c : Qc) : outcome (result price_error DecCoin) :=
  if bool_decide (c = 0%Qc) then Ret (Err ErrBidZero)
  else match LegacyNewDecFromStr c with
  | Err e => Ret (Err (ErrDecimal e))
  | Ok z =>
      if (z <=? LegacyMaxSortableDec)%Z then (let! coin := NewDecCoinFromDec denom z in Ret (Ok coin))%go
      else Ret (Err ErrBidQuantityInvalid)
  end.

Lemma storage_cost fp (t : totals) l :
  (∀ c, to_storage t !! c = (λ _, qsum (unit_volume c) l) <$> sc_storageScale fp !! c) →
  let m := map_imap (λ class total, Some (dec_Div total mebibytes * default 0 (sc_storageScale fp !! class))%Qc) (to_storage t) in
  (∀ c, m !! c = (λ x, (x * dec_Div (qsum (unit_volume c) l) mebibytes)%Qc) <$> sc_storageScale fp !! c)
  ∧ qsum snd (map_to_list m) = qsum (λ p, (p.2 * dec_Div (qsum (unit_volume p.1) l) mebibytes)%Qc) (map_to_list (sc_storageScale fp)).
Proof.
  intros Ht m. assert (∀ c, m !! c = (λ x, (x * dec_Div (qsum (unit_volume c) l) mebibytes)%Qc) <$> sc_storageScale fp !! c) as Hm.
  { intros c. unfold m. rewrite map_lookup_imap, Ht. destruct (sc_storageScale fp !! c) as [x|]; [|done]. cbn. f_equal. ring. }
  split; [done|].
  assert (m = map_imap (λ c x, Some (x * dec_Div (qsum (unit_volume c) l) mebibytes)%Qc) (sc_storageScale fp)) as ->.
  { apply map_eq. intros c. rewrite Hm, map_lookup_imap. by destruct (sc_storageScale fp !! c). }
  generalize (sc_storageScale fp). clear. intros s. induction s as [|c x s Hc IH] using map_ind; [done|].
  rewrite map_imap_insert. cbn [option_union_with union_with]. rewrite !map_to_list_insert; [|done|by rewrite map_lookup_imap, Hc].
  cbn [qsum snd fst]. by rewrite IH.
Qed.

Lemma cost_nonneg fp spec : scales_nonneg fp → Forall complete_unit (gs_Resources spec) → (0 ≤ cost fp spec)%Qc.
Proof.
  intros (Hsc & Hsm & Hss & Hse & Hsi) Hunits. destruct (sums_nonneg _ Hunits) as (Hnc & Hnm & Hne & Hnv). unfold cost.
  repeat apply Qc_add_nonneg; try apply Qc_mul_nonneg; try done; try (by apply dec_Div_nonneg); [|apply Qc_of_Z_nonneg; lia].
  apply qsum_nonneg. intros [k x] Hin%elem_of_map_to_list. apply Qc_mul_nonneg; [by eapply Hss|by apply dec_Div_nonneg].
Qed.

Lemma start_unpriced fp l :
  List.find (λ c, negb (bool_decide (is_Some (((λ _, 0%Qc) <$> sc_storageScale fp) !! c)))) (classes_of l) = unpriced fp l.
Proof. apply find_ext. intros k. by rewrite lookup_fmap, (bool_decide_ext _ _ (fmap_is_Some _ _)). Qed.

Lemma unpriced_error fp req class :
  Forall complete_unit (gs_Resources (rq_GSpec req)) → unpriced fp (gs_Resources (rq_GSpec req)) = Some class →
  scale_CalculatePrice fp req = Ret (Err (ErrNoPriceScaleForStorageClass class)).
Proof.
  intros Hunits Hun. unfold scale_CalculatePrice.
  pose proof (sum_units_spec (gs_Resources (rq_GSpec req)) (MkTotals 0%Qc 0%Qc ((λ _, 0%Qc) <$> sc_storageScale fp) 0%Qc) Hunits) as Hs.
  cbn [to_storage] in Hs. rewrite start_unpriced, Hun in Hs. by rewrite Hs.
Qed.

(** With a price for every class the cost is what is summed up. *)
Lemma priced_cost fp req :
  scales_nonneg fp → Forall complete_unit (gs_Resources (rq_GSpec req)) → unpriced fp (gs_Resources (rq_GSpec req)) = None →
  scale_CalculatePrice fp req = price_of_cost (dc_Denom (rq_Price req)) (cost fp (rq_GSpec req)).
Proof.
  intros Hscales Hunits Hun. pose proof (cost_nonneg fp (rq_GSpec req) Hscales Hunits) as Hcost. set (c := cost fp (rq_GSpec req)) in *.
  destruct Hscales as (Hsc & Hsm & Hss & Hse & Hsi). destruct (sums_nonneg _ Hunits) as (Hnc & Hnm & Hne & Hnv).
  unfold scale_CalculatePrice.
  pose proof (sum_units_spec (gs_Resources (rq_GSpec req)) (MkTotals 0%Qc 0%Qc ((λ _, 0%Qc) <$> sc_storageScale fp) 0%Qc) Hunits) as Hs.
  cbn [to_storage] in Hs. rewrite start_unpriced, Hun in Hs. destruct Hs as (t & -> & Hc & Hm & He & Hst).
  cbn [to_cpu to_memory to_endpoint to_storage] in *. rewrite !Qcplus_0_l in Hc, Hm, He.
  assert (∀ k, to_storage t !! k = (λ _, qsum (unit_volume k) (gs_Resources (rq_GSpec req))) <$> sc_storageScale fp !! k) as Ht.
  { intros k. rewrite Hst, lookup_fmap. destruct (sc_storageScale fp !! k); [|done]. cbn. by rewrite Qcplus_0_l. }
  destruct (storage_cost fp t _ Ht) as [Hlook Hsum]. cbn [obind]. rewrite Hc, Hm, He, Qcplus_0_l.
  set (m := map_imap _ _) in *. pose proof (map_order_perm _ (map_to_list m)) as Hperm.
  assert (qsum snd (map_order _ (map_to_list m)) = qsum snd (map_to_list m)) as Hq by by rewrite Hperm.
  rewrite (foldl_qsum snd), Hq, Hsum.
  assert (0 ≤ Qc_of_Z (Z.of_nat (GetEndpointQuantityOfResourceGroup (AGroupSpec (rq_GSpec req)) LEASED_IP)))%Qc as Hips by (apply Qc_of_Z_nonneg; lia).
  match goal with |- context [LegacyNewDecFromStr ?x] => replace x with c by (unfold c, cost; ring) end.
  rewrite (any_negative_false m).
  2:{ intros k x. rewrite Hlook. destruct (sc_storageScale fp !! k) as [y|] eqn:Ek; [|done]. intros [= <-].
      apply Qc_mul_nonneg; [by eapply Hss|by apply dec_Div_nonneg]. }
  rewrite !bool_lt_nonneg; [|done|by apply Qc_mul_nonneg..|apply Qc_mul_nonneg; [by apply dec_Div_nonneg|done]|by apply Qc_mul_nonneg].
  cbn [orb]. unfold price_of_cost. case_bool_decide; [done|]. destruct (LegacyNewDecFromStr c) as [z|]; [|done]. by destruct (z <=? _)%Z.
Qed.

(** A price by scale is the linear cost of what is asked for: with
    scales that were accepted, a group with a volume of a class without price is
    an error naming the first such class; otherwise the price is the cost, exactly
    (up to the rounding of the division by the mebibyte), in whatever order Go
    walks the classes, and a bid is made just when the cost is not zero, has a
    decimal of the chain and is not too large.  A price is positive. *)
Theorem scale_price_linear (cpu memory : Qc) (storage : gmap string Qc) (endpoint ip : Qc) (fp : scalePricing) (req : Request)
  (Hmake : MakeScalePricing cpu memory storage endpoint ip = Ok fp) (Hunits : Forall complete_unit (gs_Resources (rq_GSpec req))) :
  let c := cost fp (rq_GSpec req) in
  scale_CalculatePrice fp req
  = match unpriced fp (gs_Resources (rq_GSpec req)) with
    | Some class => Ret (Err (ErrNoPriceScaleForStorageClass class))
    | None => price_of_cost (dc_Denom (rq_Price req)) c
    end
  ∧ ∀ coin, scale_CalculatePrice fp req = Ret (Ok coin) →
      (0 < dc_Amount coin ≤ LegacyMaxSortableDec)%Z ∧ c = (Qc_of_Z (dc_Amount coin) / Qc_of_Z (10 ^ 18))%Qc.
Proof.
  intros c. destruct (made_nonneg _ _ _ _ _ _ Hmake) as [_ Hscales]. pose proof (cost_nonneg fp (rq_GSpec req) Hscales Hunits) as Hc. fold c in Hc.
  destruct (unpriced fp (gs_Resources (rq_GSpec req))) as [class|] eqn:Eu.
  - assert (scale_CalculatePrice fp req = Ret (Err (ErrNoPriceScaleForStorageClass class))) as E by by apply unpriced_error.
    split; [done|]. intros coin. by rewrite E.
  - split; [by apply priced_cost|]. intros coin. rewrite priced_cost by done. fold c. unfold price_of_cost.
    case_bool_decide as Hz; [done|]. destruct (LegacyNewDecFromStr c) as [z|] eqn:Ed; [|done]. apply LegacyNewDecFromStr_exact in Ed.
    destruct (Z.leb_spec z LegacyMaxSortableDec); [|done]. rewrite obind_ret. intros (a & Ha & [= <-]). unfold NewDecCoinFromDec in Ha.
    destruct (ValidDenom _ && _) eqn:Ev; [|done]. injection Ha as <-. cbn [dc_Amount]. split; [|done].
    apply andb_true_iff in Ev as [_ Hpos%Z.leb_le]. destruct (decide (z = 0%Z)) as [->|]; [|lia]. destruct Hz. rewrite Ed.
    rewrite Z2Qc_inj_0. unfold Qcdiv. by rewrite Qcmult_0_l.
Qed.
End scale.

(** ** Rounding up *)

(** [ceilBigRatToBigInt] is the ceiling: the least integer not below. *)
Lemma ceil_is_ceiling (v : Qc) : ceilBigRatToBigInt v = Qceiling v.
Proof.
  destruct v as [[n d] Hcanon]. unfold ceilBigRatToBigInt, Qceiling. cbn [this Qnum Qden Qopp Qfloor].
  apply Qred_iff in Hcanon. cbn [Qnum Qden] in Hcanon. destruct (Pos.eqb_spec d 1) as [->|Hd]; [by rewrite !Z.div_1_r, Z.opp_involutive|].
  rewrite Z_div_nz_opp_full; [lia|done|]. intros Hm. apply Hd. apply Z.mod_divide in Hm; [|done].
  assert (Z.gcd n (Zpos d) = Zpos d) as E by (rewrite Z.gcd_comm; apply Z.divide_gcd_iff; [lia|done]). rewrite E in Hcanon. lia.
Qed.

(** ** Random prices *)

Section random.
Context `{Decimals}.

Lemma range_shape spec price lo hi :
  calculatePriceRange spec price = Ret (lo, hi) →
  dc_Denom lo = dc_Denom price ∧ dc_Denom hi = dc_Denom price ∧ (0 ≤ dc_Amount lo)%Z ∧ (0 ≤ dc_Amount hi)%Z
  ∧ (dc_Amount hi ≤ dc_Amount price ∨ dc_Amount hi = LegacyNewDec 1)%Z.
Proof.
  unfold calculatePriceRange, NewDecCoinFromDec. rewrite obind_ret. intros (mem & _ & Hr). cbv zeta in Hr.
  destruct (ValidDenom (dc_Denom price) && _) eqn:E1; [|done]. cbn [obind] in Hr. destruct (ValidDenom (dc_Denom price) && _) eqn:E2 in Hr; [|done].
  injection Hr as <- <-. apply andb_true_iff in E1 as [_ E1%Z.leb_le], E2 as [_ E2%Z.leb_le]. cbn [dc_Denom dc_Amount].
  split_and!; try done. destruct (Z.ltb_spec (dc_Amount price) (LegacyNewDec (mem * 1048576 ÷ Gi))); (case_match; [by right|left; lia]).
Qed.

Lemma scaled_bound val d : (0 ≤ val)%Z → (val * 10 ^ 18 ≤ d * 10000)%Z → (0 ≤ LegacyNewDec val ÷ 10000 ÷ 100 ≤ d / 100)%Z.
Proof.
  intros Hv Hd. unfold LegacyNewDec. assert (0 ≤ val * 10 ^ 18)%Z as H0 by lia. assert (0 ≤ val * 10 ^ 18 / 10000)%Z as H1 by (apply Z.div_pos; lia).
  rewrite (Z.quot_div_nonneg (val * _)) by lia. rewrite Z.quot_div_nonneg by lia. split; [apply Z.div_pos; lia|].
  apply Z.div_le_mono; [lia|]. apply Z.div_le_upper_bound; lia.
Qed.

(** A random price stays near the bottom of its range: it is at least
    the minimum, and with a maximum that is not below, at most a hundredth of
    the range above the minimum, so never above the maximum, which is the price
    of the order or less, or one.  With a maximum below the minimum the price is
    the minimum, above what the order pays. *)
Theorem random_price_range (req : Request) (rand : Z → result string Z) (coin lo hi : DecCoin)
  (Hrand : ∀ n v, (0 < n)%Z → rand n = Ok v → (0 ≤ v < n)%Z)
  (Hrange : calculatePriceRange (rq_GSpec req) (rq_Price req) = Ret (lo, hi)) (Hprice : random_CalculatePrice req rand = Ret (Ok coin)) :
  dc_Denom coin = dc_Denom (rq_Price req)
  ∧ (dc_Amount lo ≤ dc_Amount coin)%Z
  ∧ (dc_Amount lo ≤ dc_Amount hi → dc_Amount coin ≤ dc_Amount lo + (dc_Amount hi - dc_Amount lo) / 100 ∧ dc_Amount coin ≤ dc_Amount hi)%Z
  ∧ (dc_Amount hi < dc_Amount lo → dc_Amount coin = dc_Amount lo)%Z
  ∧ (dc_Amount hi ≤ dc_Amount (rq_Price req) ∨ dc_Amount hi = LegacyNewDec 1)%Z.
Proof.
  destruct (range_shape _ _ _ _ Hrange) as (Hdl & Hdh & Hl0 & Hh0 & Hcap). unfold random_CalculatePrice in Hprice. rewrite Hrange in Hprice.
  cbn [obind] in Hprice. set (d := (dc_Amount hi - dc_Amount lo)%Z) in *.
  destruct (Z.eqb_spec (dc_Amount lo) (dc_Amount hi)) as [E|Hne].
  { injection Hprice as <-. split_and!; try done; try lia. intros _. replace d with 0%Z by lia. rewrite Z.div_0_l; lia. }
  destruct (negb _); [done|]. destruct (rand _) as [val|] eqn:Er; [|done]. apply Hrand in Er; [|lia].
  rewrite obind_ret in Hprice. destruct Hprice as (c & Hc & [= <-]). unfold NewDecCoinFromDec in Hc.
  destruct (ValidDenom _ && _); [|done]. injection Hc as <-. cbn [dc_Denom dc_Amount].
  assert (dc_Amount lo ≤ dc_Amount hi → 0 ≤ LegacyNewDec val ÷ 10000 ÷ 100 ≤ d / 100)%Z as Hup.
  { intros Hle. apply scaled_bound; [lia|]. destruct (decide (1 ≤ d * 10000 ÷ 10 ^ 18)%Z) as [H1|H1].
    - rewrite Z.max_r in Er by lia. rewrite Z.quot_div_nonneg in Er by lia.
      assert (10 ^ 18 * (d * 10000 / 10 ^ 18) ≤ d * 10000)%Z by (apply Z.mul_div_le; lia). nia.
    - rewrite Z.max_l in Er by lia. assert (val = 0)%Z as -> by lia. lia. }
  assert (dc_Amount hi < dc_Amount lo → LegacyNewDec val ÷ 10000 ÷ 100 = 0)%Z as Hdown.
  { intros Hlt. assert (d * 10000 ÷ 10 ^ 18 ≤ 0)%Z as Hq by (apply Z.quot_le_upper_bound; lia).
    rewrite Z.max_l in Er by lia. assert (val = 0)%Z as -> by lia. done. }
  split_and!; [done| | | |done].
  - destruct (Z.le_gt_cases (dc_Amount lo) (dc_Amount hi)) as [Hle|Hlt]; [specialize (Hup Hle)|specialize (Hdown Hlt)]; lia.
  - intros Hle. specialize (Hup Hle). assert (d / 100 ≤ d)%Z by (apply Z.div_le_upper_bound; lia). lia.
  - intros Hlt. specialize (Hdown Hlt). lia.
Qed.

End random.

(** ** Scripts *)

Section script.
Context `{Decimals} `{ChainSdk}.

Lemma script_elements_spec i l d d' :
  script_elements i l d = Ret d' →
  (i + List.length l ≤ List.length d ∨ l = [])%nat ∧ List.length d' = List.length d
  ∧ (∀ j u, l !! j = Some u → ∃ e, script_element u = Ret e ∧ d' !! (i + j)%nat = Some e)
  ∧ (∀ j, (j < i ∨ i + List.length l ≤ j)%nat → d' !! j = d !! j).
Proof.
  revert i d. induction l as [|u l IH]; intros i d; cbn [script_elements].
  { intros [= <-]. split_and!; try done. by right. }
  rewrite obind_ret. intros (e & He & Hs). destruct (Nat.ltb_spec i (List.length d)); [|done].
  destruct (IH _ _ Hs) as (Hlen & Hd' & Hin & Hout). rewrite length_insert in Hd', Hlen. split_and!.
  - left. cbn. destruct Hlen as [?| ->]; cbn; lia.
  - done.
  - intros [|j] v; cbn.
    + intros [= <-]. exists e. split; [done|]. rewrite Nat.add_0_r, Hout by lia. by apply list_lookup_insert_eq.
    + intros Hv. replace (i + S j)%nat with (S i + j)%nat by lia. by apply Hin.
  - intros j Hj. cbn in Hj. rewrite Hout by lia. apply list_lookup_insert_ne. lia.
Qed.

(** The script is told what is offered: each of the resources that
    were allocated, or else asked for, is described at its place in the order of
    the group; places beyond the last hold zeros, and more allocated resources
    than were asked for end the process. *)
Theorem script_data_offered (r : Request) (d : dataForScript) (Hrun : newDataForScript r = Ret d) :
  let resources := match rq_AllocatedResources r with [] => gs_Resources (rq_GSpec r) | l => l end in
  (List.length resources ≤ List.length (gs_Resources (rq_GSpec r)))%nat
  ∧ List.length (df_Resources d) = List.length (gs_Resources (rq_GSpec r))
  ∧ (∀ i u, resources !! i = Some u → ∃ e, script_element u = Ret e ∧ df_Resources d !! i = Some e)
  ∧ (∀ i, (List.length resources ≤ i < List.length (gs_Resources (rq_GSpec r)))%nat → df_Resources d !! i = Some zero_element).
Proof.
  intros resources. unfold newDataForScript in Hrun. fold resources in Hrun. rewrite obind_ret in Hrun. destruct Hrun as (l & Hl & [= <-]).
  destruct (script_elements_spec _ _ _ _ Hl) as (Hlen & Hd & Hin & Hout). rewrite length_replicate in Hd, Hlen. cbn [df_Resources]. split_and!.
  - destruct Hlen as [?| ->]; cbn; lia.
  - done.
  - intros i u Hu. by apply (Hin i u).
  - intros i Hi. rewrite Hout by lia. apply lookup_replicate. split; [done|lia].
Qed.

(** A script bids only with a positive amount in the denomination of the order. *)
Lemma script_price_positive `{DecimalText} req ctxErr exit output coin :
  script_price req ctxErr exit output = Ret (Ok coin) →
  (0 < dc_Amount coin)%Z ∧ dc_Denom coin = dc_Denom (rq_Price req) ∧ ctxErr = None ∧ exit = None.
Proof.
  unfold script_price. destruct ctxErr, exit; try done. case_match; [done|]. destruct (LegacyNewDecFromText _) as [z|]; [|done].
  destruct (Z.eqb_spec z 0); [done|]. destruct (Z.ltb_spec z 0); [done|]. rewrite obind_ret. intros (c & Hc & [= <-]).
  unfold NewDecCoinFromDec in Hc. case_match; [|done]. injection Hc as <-. cbn. split_and!; (done || lia).
Qed.

(** Runs of scripts: one more begins, or one ends. *)
Inductive script_runs (s0 : shellScriptPricing) : nat → shellScriptPricing → Prop :=
| script_idle : script_runs s0 0 s0
| script_more n s s' : script_runs s0 n s → script_begin s = Some s' → script_runs s0 (S n) s'
| script_less n s : script_runs s0 (S n) s → script_runs s0 n (script_end s).

(** No more scripts run at a time than the limit. *)
Lemma scripts_limited path limit runtime s0 n s :
  MakeShellScriptPricing path limit runtime = Ok s0 → (0 ≤ limit)%Z → script_runs s0 n s → (Z.of_nat n ≤ limit)%Z.
Proof.
  intros Hmake Hl Hrun. assert (ss_free s0 = limit) as Hfree.
  { unfold MakeShellScriptPricing in Hmake. repeat (case_match; [done|]). by injection Hmake as <-. }
  assert (ss_free s + Z.of_nat n = limit ∧ 0 ≤ ss_free s)%Z as [? ?]; [|lia].
  induction Hrun as [|n s s' _ IH Hb|n s _ IH]; [lia| |cbn; lia]. unfold script_begin in Hb.
  destruct (Z.ltb_spec 0 (ss_free s)); [|done]. injection Hb as <-. cbn. lia.
Qed.

End script.

(** ** Samples *)

Module PriceSample.

#[local] Existing Instance listed_order.

(** Texts of up to 18 digits. *)
Definition whole (y : Qc) : result string Z := if (Qden y =? 1)%positive then Ok (Qnum y) else Err "value exceeds max precision".
Definition parse18 (x : Qc) : result string Z := whole (x * Qc_of_Z (10 ^ 18))%Qc.

Lemma whole_exact y z : whole y = Ok z → y = Qc_of_Z z.
Proof.
  unfold whole. destruct (Pos.eqb_spec (Qden y) 1) as [Hd|]; [|done]. intros [= <-].
  apply Qc_is_canon. unfold Qc_of_Z. cbn [this]. unfold inject_Z, Qeq. cbn [Qnum Qden]. by rewrite Hd.
Qed.

(** Division without rounding. *)
#[export] Instance decimals : Decimals := {|
  dec_Div a b := (a / b)%Qc;
  LegacyNewDecFromStr := parse18;
  LegacyMaxSortableDec := (10 ^ 36)%Z;
  ValidDenom d := negb (d =? "");
  StorageEphemeral := "ephemeral"
|}.

#[export] Instance laws : DecimalLaws.
Proof.
  split.
  - intros a b Ha Hb. cbn. unfold Qcdiv. apply Qc_mul_nonneg; [done|]. apply Qcnot_lt_le. intros Hlt.
    assert (b * / b < b * 0)%Qc as Hm by (rewrite !(Qcmult_comm b); by apply Qcmult_lt_compat_r).
    rewrite Qcmult_inv_r in Hm by (intros ->; by apply Qclt_not_eq in Hb). rewrite Qcmult_0_r in Hm. done.
  - intros x z E%whole_exact. rewrite <- E. by rewrite Qcdiv_mult_l.
Qed.

#[export] Instance sdk : ChainSdk := {|
  find_AsBool attrs k := match List.find (λ a, attr_Key a =? k) attrs with Some a => (attr_Value a =? "true", true) | None => (false, false) end;
  find_AsString attrs k := match List.find (λ a, attr_Key a =? k) attrs with Some a => (attr_Value a, true) | None => (EmptyString, false) end;
  StorageAttributePersistent := "persistent";
  StorageAttributeClass := "class";
  MemoryQuantity_Gi s := Ok s;
  IsStorageClassSupported caps c := true;
  IsValidLabelValue s := []
|}.

Definition unit_ : ResourceUnit :=
  MkUnit (MkResources 1 (Some (MkCPU 500 [])) (Some (MkMemory (3 * Mi) []))
    [MkStorage "root" (2 * Mi) []; MkStorage "data" (10 * Mi) [MkAttr "persistent" "true"; MkAttr "class" "beta2"]]
    (Some (MkGPU 1 [MkAttr "vendor/nvidia/model/a100/ram/80Gi" "true"])) [MkEndpoint SHARED_HTTP 0; MkEndpoint LEASED_IP 1]) 2.
Definition spec : GroupSpec := MkGroupSpec "west" [] [unit_].
Definition request : Request := MkRequest "alice" spec (MkDecCoin "uakt" (10 ^ 24)) [unit_] 6.

Definition scales : gmap string Qc := <["beta2" := Qc_of_Z 4]> (<["ephemeral" := Qc_of_Z 3]> ∅).
Definition pricing : scalePricing := MkScale (Qc_of_Z 1) (Qc_of_Z 2) scales (Qc_of_Z 5) (Qc_of_Z 7).

Lemma unit_complete : complete_unit unit_.
Proof. unfold complete_unit. cbn. split_and!; [by eexists..|]. repeat constructor; done. Qed.

Lemma units_complete : Forall complete_unit (gs_Resources spec).
Proof. apply Forall_cons. split; [apply unit_complete|constructor]. Qed.

End PriceSample.
Import PriceSample.

(** 1000 for CPU, 12 for memory, 12 and 80 for the volumes, 10 for two
    endpoints and 7 for the address. *)
Lemma scale_price_linear_witness :
  scale_CalculatePrice (H1 := listed_order) pricing request = Ret (Ok (MkDecCoin "uakt" (1121 * 10 ^ 18)))
  ∧ cost pricing spec = (Qc_of_Z (1121 * 10 ^ 18) / Qc_of_Z (10 ^ 18))%Qc.
Proof.
  assert (scale_CalculatePrice (H1 := listed_order) pricing request = Ret (Ok (MkDecCoin "uakt" (1121 * 10 ^ 18)))) as E
    by (vm_compute; reflexivity).
  split; [exact E|].
  exact (proj2 (proj2 (scale_price_linear (H2 := listed_order) (Qc_of_Z 1) (Qc_of_Z 2) scales (Qc_of_Z 5) (Qc_of_Z 7) pricing
    request ltac:(vm_compute; reflexivity) units_complete) _ E)).
Defined.

(** A class has a price and another the price zero: the scales are refused as
    if all were zero. *)
Theorem zero_class_refused :
  MakeScalePricing 0 0 (<["beta2" := Qc_of_Z 4]> (<["ephemeral" := 0%Qc]> ∅)) 0 0 = Err ErrAllScalesZero.
Proof. vm_compute. reflexivity. Qed.

(** Drawing the largest number: 6 Mi of memory, so at least one and at most
    6144, of which the price takes a hundredth. *)
Definition draw (n : Z) : result string Z := Ok (n - 1)%Z.

Definition sample_lo : DecCoin := MkDecCoin "uakt" (10 ^ 18).
Definition sample_hi : DecCoin := MkDecCoin "uakt" (6144 * 10 ^ 18).
Definition sample_price : DecCoin := MkDecCoin "uakt" 62429999000000000000.

Lemma random_price_range_witness :
  random_CalculatePrice request draw = Ret (Ok sample_price)
  ∧ (dc_Amount sample_price ≤ dc_Amount sample_lo + (dc_Amount sample_hi - dc_Amount sample_lo) / 100)%Z.
Proof.
  assert (calculatePriceRange spec (rq_Price request) = Ret (sample_lo, sample_hi)) as Er by (vm_compute; reflexivity).
  assert (random_CalculatePrice request draw = Ret (Ok sample_price)) as Ep by (vm_compute; reflexivity). split; [exact Ep|].
  assert (∀ n v, (0 < n)%Z → draw n = Ok v → (0 ≤ v < n)%Z) as Hd by (intros n v Hn [= <-]; lia).
  apply (proj1 (proj2 (proj2 (random_price_range request draw sample_price sample_lo sample_hi Hd Er Ep)))). by vm_compute.
Defined.

Lemma script_data_offered_witness :
  ∃ d e, newDataForScript request = Ret d ∧ df_Resources d !! 0%nat = Some e ∧ ge_Vendor (de_GPU e) !! "nvidia" = Some (MkVendorAttributes "a100" (Some "80Gi") None).
Proof.
  destruct (newDataForScript request) as [d|] eqn:E; [|by vm_compute in E].
  destruct (proj1 (proj2 (proj2 (script_data_offered request d E))) 0%nat unit_ eq_refl) as (e & He & Hd). exists d, e. split_and!; [done|done|].
  vm_compute in He. injection He as <-. vm_compute. reflexivity.
Defined.
