(* ===== verification/KubeObjects.v ===== *)
(** * Objects of a lease

    [cluster/kube/builder]: the settings ([settings.go]), what all builders
    share ([builder.go]), and the builders of the namespace, the service
    account, the role with its rules ([permissions.go]), the role binding, the
    pull secret and the manifest.  An object is a resource under its name in the
    namespace of the lease; what the API server adds to it is not modelled.  A
    slice or map that is nil reads like an empty one. *)
From Stdlib Require Import Ascii String.
From S2P Require Import Prelude GoStrings Json ChainTypes ClusterTypes LeaseNames CrdManifest HostRoutes MetalLb KubeDeclare.

Open Scope string_scope.

(** ** Settings *)

Inductive IngressMode := IngressModeIngress | IngressModeGateway | OtherMode (s : string).

Definition ParseIngressMode (s : string) : result string IngressMode :=
  if s =? "ingress" then Ok IngressModeIngress
  else if s =? "gateway-api" then Ok IngressModeGateway
  else Err "invalid ingress-mode".

(** [net.IP]: the bytes of an IPv4 address, or the text of another. *)
Inductive IP := IPv4 (a b c d : Z) | IPv6 (text : string).
Record TCPAddr := MkTCPAddr { ta_IP : IP; ta_Port : Z }.

Definition dotted (a b c d : Z) : string :=
  FormatUint a +:+ "." +:+ FormatUint b +:+ "." +:+ FormatUint c +:+ "." +:+ FormatUint d.
Definition IP_String (ip : IP) : string := match ip with IPv4 a b c d => dotted a b c d | IPv6 t => t end.

(** From the SDK: levels of commitment, the part of a quantity that is
    requested under one, the names of two storage classes, and the check of a
    domain name. *)
Class KubeSdk := {
  Level : Type;
  no_level : Level;
  ComputeCommittedResources : Level → Z → Z;
  StorageClassRAM : string;
  StorageClassDefault : string;
  IsDomainName : string → bool
}.

(** At most what is asked for is committed, and something of something. *)
Class KubeSdkLaws `{KubeSdk} : Prop := committed_range : ∀ level z, (0 < z)%Z → (0 < ComputeCommittedResources level z ≤ z)%Z.

Record Settings `{KubeSdk} := MkSettings {
  s_DeploymentServiceType : string; s_DeploymentIngressStaticHosts : bool; s_DeploymentIngressDomain : string;
  s_DeploymentIngressExposeLBHosts : bool; s_ClusterPublicHostname : string; s_NetworkPoliciesEnabled : bool;
  s_APIServerEndpoints : list TCPAddr; s_CPUCommitLevel : Level; s_GPUCommitLevel : Level; s_MemoryCommitLevel : Level;
  s_StorageCommitLevel : Level; s_DeploymentRuntimeClass : string; s_DockerImagePullSecretsName : string;
  s_IngressMode : IngressMode; s_GatewayName : string; s_GatewayNamespace : string; s_GatewayProvider : string;
  s_InterconnectRoCENetworksNamespace : string; s_InterconnectRoCENetworks : string }.

Definition ValidateSettings `{KubeSdk} (s : Settings) : option string :=
  if s_DeploymentIngressStaticHosts s then
    if s_DeploymentIngressDomain s =? "" then Some "settings validation: empty ingress domain"
    else if negb (IsDomainName (s_DeploymentIngressDomain s)) then Some "settings validation: invalid domain name"
    else None
  else None.

Definition NewDefaultSettings `{KubeSdk} : Settings :=
  MkSettings _ "ClusterIP" false "" false "" false [] no_level no_level no_level no_level "" "" (OtherMode "") "" "" "" "" "".

(** ** What all builders share *)

Definition akashNetworkNamespace : string := "akash.network/namespace".
Definition AkashManifestResourceVersion : string := "akash.network/manifest.resource.version".
Definition AkashInterconnectGroupLabelName : string := "akash.network/interconnect-group".

Notation LidNS := LeaseIDToNamespace (only parsing).

Section base.
Context `{GoUnicode} `{Cosmos} `{Protocols}.

Definition builder_labels (d : ClusterDeployment) : label_map :=
  <[AkashManifestResourceVersion := cd_resourceVersion d]>
    (<[akashNetworkNamespace := LidNS (cd_Lid d)]> (<[AkashManagedLabelName := "true"]> ∅)).

Definition builder_selectorLabels (d : ClusterDeployment) : label_map :=
  <[akashNetworkNamespace := LidNS (cd_Lid d)]> (<[AkashManagedLabelName := "true"]> ∅).

Definition IsObjectRevisionLatest (d : ClusterDeployment) (labels : label_map) : bool :=
  match labels !! AkashManifestResourceVersion with
  | None => false
  | Some objVersion => cd_resourceVersion d =? objVersion
  end.

End base.

(** Labels that begin like those of akash are replaced, the others kept. *)
Definition updateAkashLabels (currLabels newLabels : label_map) : label_map :=
  newLabels ∪ filter (λ p, HasPrefix p.1 AkashManagedLabelName = false) currLabels.

Definition SuffixForNodePortServiceName : string := "-np".
Definition makeGlobalServiceNameFromBasename (basename : string) : string := basename +:+ SuffixForNodePortServiceName.

(** ** Environment variables *)

Definition addIfNotPresent (envVarsAlreadyAdded : gset string) (env : list (string * string)) (key value : string) : list (string * string) :=
  if bool_decide (key ∈ envVarsAlreadyAdded) then env else (env ++ [(key, value)])%list.

(** ** Namespaces *)

Section ns.
Context `{GoUnicode} `{Cosmos} `{Protocols}.

Definition ns_labels (d : ClusterDeployment) : label_map := AppendLeaseLabels (cd_Lid d) (builder_labels d).

Definition ns_Create (d : ClusterDeployment) : resource unit := MkResource (ns_labels d) ∅ tt.
Definition ns_Update (d : ClusterDeployment) (obj : resource unit) : resource unit :=
  MkResource (updateAkashLabels (rs_Labels obj) (ns_labels d)) (rs_Annotations obj) tt.

End ns.

(** ** Permissions *)

Inductive PermissionType := PermissionTypeRead | OtherPermission (s : string).
#[export] Instance PermissionType_eq_dec : EqDecision PermissionType.
Proof. solve_decision. Defined.

(** A workload without permissions has [None]. *)
Record WorkloadPermissions := MkWPermissions { wp_Read : list string }.

Definition HasAny (p : option WorkloadPermissions) : bool :=
  match p with None => false | Some p => match wp_Read p with [] => false | _ => true end end.
Definition HasRead (p : option WorkloadPermissions) : bool :=
  match p with None => false | Some p => match wp_Read p with [] => false | _ => true end end.
Definition GetByType (p : option WorkloadPermissions) (t : PermissionType) : list string :=
  match p, t with Some p, PermissionTypeRead => wp_Read p | _, _ => [] end.

Record PolicyRule := MkPolicyRule { pr_APIGroups : list string; pr_Resources : list string; pr_Verbs : list string }.
#[export] Instance PolicyRule_eq_dec : EqDecision PolicyRule.
Proof. solve_decision. Defined.

Definition PolicyRuleGenerator : Type := string → PermissionType → list PolicyRule.
Notation PolicyRuleRegistry := (gmap string PolicyRuleGenerator).

Definition logsResourceMapping : string * PolicyRuleGenerator :=
  ("logs", λ _ permType,
    match permType with
    | PermissionTypeRead =>
        [MkPolicyRule [""] ["pods"] ["get"; "list"; "watch"]; MkPolicyRule [""] ["pods/log"] ["get"];
         MkPolicyRule ["apps"] ["deployments"] ["get"; "list"; "watch"]]
    | _ => []
    end).

Definition eventsResourceMapping : string * PolicyRuleGenerator :=
  ("events", λ _ permType,
    match permType with
    | PermissionTypeRead => [MkPolicyRule [""] ["events"] ["get"; "list"; "watch"]]
    | _ => []
    end).

Definition Register (r : PolicyRuleRegistry) (mapping : string * PolicyRuleGenerator) : PolicyRuleRegistry := <[mapping.1 := mapping.2]> r.
Definition NewPolicyRuleRegistry : PolicyRuleRegistry := Register (Register ∅ logsResourceMapping) eventsResourceMapping.

(** The loop over the resources of one type of permission. *)
Fixpoint rules_for (r : PolicyRuleRegistry) (t : PermissionType) (seen : gset string) (resources : list string) : list PolicyRule :=
  match resources with
  | [] => []
  | res :: resources =>
      if bool_decide (res ∈ seen) then rules_for r t seen resources
      else (match r !! res with Some generator => generator res t | None => [] end
            ++ rules_for r t ({[res]} ∪ seen) resources)%list
  end.

Definition GenerateRules (r : PolicyRuleRegistry) (p : option WorkloadPermissions) : list PolicyRule :=
  match p with None => [] | Some p => rules_for r PermissionTypeRead ∅ (wp_Read p) end.
