(* ===== verification/Workload.v ===== *)
(** * Workloads

    [cluster/kube/builder]: the builder of a workload ([workload.go]), the
    deployment or stateful set that runs a service of the manifest, the services
    in front of it ([service.go]), its service account, role and role binding,
    and the secret with the credentials of its registry.

    [NewWorkloadBuilder] reads the group of the manifest that is stored in the
    cluster; [w_service] and [w_params] are the service and the scheduler
    parameters it finds there, [w_declared] is the service in the group of the
    deployment.  Amounts of a resource are in thousandths. *)
From Stdlib Require Import Ascii String.
From S2P Require Import Prelude GoStrings Json ChainTypes ClusterTypes LeaseNames CrdManifest HostRoutes MetalLb KubeDeclare.
From S2P Require Import ManifestManager KubeObjects.

Open Scope string_scope.
Open Scope go_scope.

(** ** Containers *)

Definition SidecarCPURequestMillicores : Z := 10.
Definition SidecarMemoryRequestBytes : Z := 32 * megabytes.
Definition SidecarGPUMemoryRequestBytes : Z := 64 * megabytes.
Definition MinPrimaryCPUMillicores : Z := 10.
Definition MinPrimaryMemoryBytes : Z := 16 * megabytes.

Definition ResourceCPU : string := "cpu".
Definition ResourceMemory : string := "memory".
Definition ResourceEphemeralStorage : string := "ephemeral-storage".
Definition ResourceGPUNvidia : string := "nvidia.com/gpu".
Definition ResourceGPUNvidiaPGPU : string := "nvidia.com/pgpu".
Definition ResourceGPUAMD : string := "amd.com/gpu".

Record ResourceRequirements := MkRequirements { rq_Limits : gmap string Z; rq_Requests : gmap string Z }.

Definition put_resource (name : string) (request limit : Z) (r : ResourceRequirements) : ResourceRequirements :=
  MkRequirements (<[name := limit]> (rq_Limits r)) (<[name := request]> (rq_Requests r)).

(** [resource.NewQuantity]. *)
Definition whole (z : Z) : Z := z * 1000.

Record VolumeMount := MkMount { vm_Name : string; vm_ReadOnly : bool; vm_MountPath : string }.
(** The flags of the security context are all false. *)
Record Container := MkContainer {
  c_Name : string; c_Image : string; c_Command : list string; c_Args : list string; c_Resources : ResourceRequirements;
  c_VolumeMounts : list VolumeMount; c_Env : list (string * string); c_Ports : list Z }.

(** A volume in memory and its size; a claim, its size and its class. *)
Record RamVolume := MkRamVolume { rv_name : string; rv_SizeLimit : Z }.
Record VolumeClaim := MkClaim { vc_Name : string; vc_Request : Z; vc_StorageClassName : option string }.

(** Requirements on nodes. *)
Inductive node_operator := OpIn | OpGt.
Record NodeSelectorRequirement := MkNodeReq { nr_Key : string; nr_Operator : node_operator; nr_Values : list string }.
(** [af_AntiGroup]: no other pod with this label on the same host. *)
Record Affinity := MkAffinity { af_Node : list NodeSelectorRequirement; af_AntiGroup : option (string * string) }.

Record PodSpec := MkPodSpec {
  ps_Affinity : Affinity; ps_RuntimeClassName : option string; ps_RunAsNonRoot : bool; ps_AutomountServiceAccountToken : bool;
  ps_ServiceAccountName : string; ps_Containers : list Container; ps_ImagePullSecrets : list string; ps_Volumes : list RamVolume }.
Record PodTemplate := MkTemplate { pt_Labels : label_map; pt_Annotations : label_map; pt_Spec : PodSpec }.

Record rolling_update := MkRolling { ru_MaxUnavailable : Z; ru_MaxSurge : Z }.
Record DeploymentSpec := MkDeploymentSpec {
  ds_Selector : label_map; ds_Strategy : option rolling_update; ds_RevisionHistoryLimit : option Z; ds_Replicas : Z; ds_Template : PodTemplate }.
Record StatefulSetSpec := MkStatefulSetSpec {
  st_Selector : label_map; st_Partition : Z; st_MaxUnavailable : Z; st_RevisionHistoryLimit : Z; st_Replicas : Z; st_Template : PodTemplate;
  st_VolumeClaimTemplates : list VolumeClaim }.

(** ** Services of the cluster *)

Record SvcPort := MkPort { vp_Name : string; vp_Protocol : string; vp_Port : Z; vp_TargetPort : int_or_string; vp_NodePort : Z }.
Record ServiceSpec := MkServiceSpec { vs_Type : string; vs_Selector : label_map; vs_Ports : list SvcPort }.

(** ** Roles *)

Record RoleRef := MkRoleRef { rf_APIGroup : string; rf_Kind : string; rf_Name : string }.
Record Subject := MkSubject { sj_Kind : string; sj_Name : string; sj_Namespace : string }.
Record RoleBindingSpec := MkBinding { rb_RoleRef : RoleRef; rb_Subjects : list Subject }.
Record SecretSpec := MkSecret { sc_Data : gmap string string; sc_Type : string }.

#[export] Instance ResourceRequirements_eq_dec : EqDecision ResourceRequirements.
Proof. solve_decision. Defined.
#[export] Instance VolumeMount_eq_dec : EqDecision VolumeMount.
Proof. solve_decision. Defined.
#[export] Instance Container_eq_dec : EqDecision Container.
Proof. solve_decision. Defined.
#[export] Instance RamVolume_eq_dec : EqDecision RamVolume.
Proof. solve_decision. Defined.
#[export] Instance VolumeClaim_eq_dec : EqDecision VolumeClaim.
Proof. solve_decision. Defined.
#[export] Instance node_operator_eq_dec : EqDecision node_operator.
Proof. solve_decision. Defined.
#[export] Instance NodeSelectorRequirement_eq_dec : EqDecision NodeSelectorRequirement.
Proof. solve_decision. Defined.
#[export] Instance Affinity_eq_dec : EqDecision Affinity.
Proof. solve_decision. Defined.
#[export] Instance PodSpec_eq_dec : EqDecision PodSpec.
Proof. solve_decision. Defined.
#[export] Instance PodTemplate_eq_dec : EqDecision PodTemplate.
Proof. solve_decision. Defined.
#[export] Instance rolling_update_eq_dec : EqDecision rolling_update.
Proof. solve_decision. Defined.
#[export] Instance DeploymentSpec_eq_dec : EqDecision DeploymentSpec.
Proof. solve_decision. Defined.
#[export] Instance StatefulSetSpec_eq_dec : EqDecision StatefulSetSpec.
Proof. solve_decision. Defined.
#[export] Instance SvcPort_eq_dec : EqDecision SvcPort.
Proof. solve_decision. Defined.
#[export] Instance ServiceSpec_eq_dec : EqDecision ServiceSpec.
Proof. solve_decision. Defined.
#[export] Instance RoleRef_eq_dec : EqDecision RoleRef.
Proof. solve_decision. Defined.
#[export] Instance Subject_eq_dec : EqDecision Subject.
Proof. solve_decision. Defined.
#[export] Instance RoleBindingSpec_eq_dec : EqDecision RoleBindingSpec.
Proof. solve_decision. Defined.
#[export] Instance SecretSpec_eq_dec : EqDecision SecretSpec.
Proof. solve_decision. Defined.

(** [strings.SplitN(s, =, 2)]: the part before the first separator and, when
    there is one, the part after it. *)
Fixpoint split_once (sep : ascii) (s : string) : string * option string :=
  match s with
  | EmptyString => (EmptyString, None)
  | String c s => if (c =? sep)%char then (EmptyString, Some s) else let '(a, b) := split_once sep s in (String c a, b)
  end.

Section workload.
Context `{GoUnicode} `{Cosmos} `{Protocols} `{!KubeProtocols} `{!ManifestSdk} `{KubeSdk} `{ChainSdk}.

Record Workload := MkWorkload {
  w_settings : Settings; w_deployment : ClusterDeployment; w_service : Service; w_params : option SchedulerParams; w_declared : Service }.

(** *** The container *)

Definition sidecar_enabled (params : option SchedulerParams) : bool :=
  match params with
  | Some p => RuntimeClass_Is (sp_RuntimeClass p) [WithCC] && negb (sp_AttestationDisabled p)
  | None => false
  end.

(** The limit and the request that are left beside the sidecar. *)
Definition beside_sidecar (sidecarLimit sidecarRequest minimum limit request : Z) : Z * Z :=
  let limit := i64 (limit - sidecarLimit) in
  let request := i64 (request - sidecarRequest) in
  let limit := if (limit <? minimum)%Z then minimum else limit in
  let request := if (request <? minimum)%Z then minimum else request in
  (limit, if (limit <? request)%Z then limit else request).

Definition cpu_resources (w : Workload) (r : ResourceRequirements) : ResourceRequirements :=
  match res_CPU (svc_Resources (w_service w)) with
  | None => r
  | Some cpu =>
      let limit := i64 (cpu_Units cpu) in
      let request := i64 (ComputeCommittedResources (s_CPUCommitLevel (w_settings w)) (cpu_Units cpu)) in
      let '(limit, request) :=
        if sidecar_enabled (w_params w)
        then beside_sidecar SidecarCPULimitMillicores SidecarCPURequestMillicores MinPrimaryCPUMillicores limit request
        else (limit, request) in
      put_resource ResourceCPU request limit r
  end.

(** The extended resource of the vendor; another vendor panics. *)
Definition gpu_resource_name (p : SchedulerParams) (vendor : string) : outcome string :=
  if vendor =? "nvidia" then Ret (if RuntimeClass_Is (sp_RuntimeClass p) [WithCC] then ResourceGPUNvidiaPGPU else ResourceGPUNvidia)
  else if vendor =? "amd" then Ret ResourceGPUAMD
  else Panic.

Definition gpu_resources (w : Workload) (r : ResourceRequirements) : outcome ResourceRequirements :=
  match res_GPU (svc_Resources (w_service w)) with
  | Some gpu =>
      if (0 <? gpu_Units gpu)%Z then
        let! p := deref (w_params w) in
        let! res := deref (sp_Resources p) in
        let! g := deref (sr_GPU res) in
        let! name := gpu_resource_name p (sg_Vendor g) in
        Ret (put_resource name (whole (i64 (ComputeCommittedResources (s_GPUCommitLevel (w_settings w)) (gpu_Units gpu)))) (whole (i64 (gpu_Units gpu))) r)
      else Ret r
  | None => Ret r
  end.

Definition sparamsInterconnect (params : option SchedulerParams) : option SchedulerResourceInterconnect :=
  match params with
  | Some p => match sp_Resources p with Some res => sr_Interconnect res | None => None end
  | None => None
  end.

Definition interconnect_resources (w : Workload) (r : ResourceRequirements) : ResourceRequirements :=
  match sparamsInterconnect (w_params w) with
  | Some ic =>
      if si_Enabled ic && negb (si_ResourceName ic =? "")
      then put_resource (si_ResourceName ic) (whole (i64 (si_Units ic))) (whole (i64 (si_Units ic))) r
      else r
  | None => r
  end.

(** Volumes that are not persistent: those in RAM add to the memory. *)
Fixpoint ephemeral_resources (level : Level) (l : list Storage) (requestedMem : Z) (r : ResourceRequirements) : Z * ResourceRequirements :=
  match l with
  | [] => (requestedMem, r)
  | ephemeral :: l =>
      let persistent := (find_AsBool (sto_Attributes ephemeral) StorageAttributePersistent).1 in
      let class := (find_AsString (sto_Attributes ephemeral) StorageAttributeClass).1 in
      if persistent then ephemeral_resources level l requestedMem r
      else if class =? "ram" then ephemeral_resources level l (u64 (requestedMem + sto_Quantity ephemeral)) r
      else if class =? "" then
        ephemeral_resources level l requestedMem
          (put_resource ResourceEphemeralStorage (whole (i64 (ComputeCommittedResources level (sto_Quantity ephemeral)))) (whole (i64 (sto_Quantity ephemeral))) r)
      else ephemeral_resources level l requestedMem r
  end.

Definition memory_resources (w : Workload) (requestedMem : Z) (r : ResourceRequirements) : ResourceRequirements :=
  match res_Memory (svc_Resources (w_service w)) with
  | None => r
  | Some mem =>
      let limit := i64 (u64 (mem_Quantity mem + requestedMem)) in
      let request := i64 (ComputeCommittedResources (s_MemoryCommitLevel (w_settings w)) (mem_Quantity mem)) in
      let '(limit, request) :=
        if sidecar_enabled (w_params w) then
          let gpu := match w_params w with Some p => RuntimeClass_Is (sp_RuntimeClass p) [WithGPU] | None => false end in
          beside_sidecar (if gpu then SidecarGPUMemoryLimitBytes else SidecarMemoryLimitBytes)
            (if gpu then SidecarGPUMemoryRequestBytes else SidecarMemoryRequestBytes) MinPrimaryMemoryBytes limit request
        else (limit, request) in
      put_resource ResourceMemory (whole request) (whole limit) r
  end.

Definition container_resources (w : Workload) : outcome ResourceRequirements :=
  let r := cpu_resources w (MkRequirements ∅ ∅) in
  let! r := gpu_resources w r in
  let r := interconnect_resources w r in
  let '(requestedMem, r) := ephemeral_resources (s_StorageCommitLevel (w_settings w)) (res_Storage (svc_Resources (w_service w))) 0 r in
  Ret (memory_resources w requestedMem r).

Definition envVar (env : string) : string * string := let '(name, value) := split_once "=" env in (name, default "" value).

Definition addEnvVarsForDeployment (w : Workload) (added : gset string) (env : list (string * string)) : list (string * string) :=
  let lid := cd_Lid (w_deployment w) in
  let env := addIfNotPresent added env "AKASH_GROUP_SEQUENCE" (FormatUint (lid_GSeq lid)) in
  let env := addIfNotPresent added env "AKASH_DEPLOYMENT_SEQUENCE" (FormatUint (lid_DSeq lid)) in
  let env := addIfNotPresent added env "AKASH_ORDER_SEQUENCE" (FormatUint (lid_OSeq lid)) in
  let env := addIfNotPresent added env "AKASH_OWNER" (lid_Owner lid) in
  let env := addIfNotPresent added env "AKASH_PROVIDER" (lid_Provider lid) in
  let env := addIfNotPresent added env "AKASH_CLUSTER_PUBLIC_HOSTNAME" (s_ClusterPublicHostname (w_settings w)) in
  match sparamsInterconnect (w_params w) with
  | Some ic =>
      if si_Enabled ic then
        let env := addIfNotPresent added env "NCCL_IB_DISABLE" "0" in
        let hca := String.concat "," (si_NCCLHCAPrefixes ic) in
        if negb (hca =? "") then addIfNotPresent added env "NCCL_IB_HCA" hca else env
      else env
  | None => env
  end.

Definition container (w : Workload) : outcome Container :=
  let service := w_service w in
  let! resources := container_resources w in
  let env := envVar <$> svc_Env service in
  Ret (MkContainer (svc_Name service) (svc_Image service) (svc_Command service) (svc_Args service) resources
    (match svc_Params service with
     | Some p => (λ s, MkMount (svc_Name service +:+ "-" +:+ stp_Name s) (stp_ReadOnly s) (stp_Mount s)) <$> par_Storage p
     | None => []
     end)
    (addEnvVarsForDeployment w (list_to_set env.*1) env)
    ((λ e, i32 (se_Port e)) <$> svc_Expose service)).

(** *** Volumes *)

(** A volume in RAM; [Int64] panics beyond its range. *)
Definition ram_volume (name : string) (s : Storage) : outcome (list RamVolume) :=
  let '(sclass, ok) := find_AsString (sto_Attributes s) StorageAttributeClass in
  if negb ok || negb (sclass =? StorageClassRAM) then Ret []
  else
    let '(persistent, ok) := find_AsBool (sto_Attributes s) StorageAttributePersistent in
    if negb ok || persistent then Ret []
    else if (sto_Quantity s <? 2 ^ 63)%Z then Ret [MkRamVolume (name +:+ "-" +:+ sto_Name s) (whole (sto_Quantity s))]
    else Panic.

Fixpoint volumes (name : string) (l : list Storage) : outcome (list RamVolume) :=
  match l with
  | [] => Ret []
  | s :: l => let! v := ram_volume name s in let! vs := volumes name l in Ret (v ++ vs)%list
  end.

Definition is_persistent (s : Storage) : bool :=
  let '(persistent, valid) := find_AsBool (sto_Attributes s) StorageAttributePersistent in valid && persistent.

Definition claim_of (name : string) (s : Storage) : VolumeClaim :=
  let '(class, valid) := find_AsString (sto_Attributes s) StorageAttributeClass in
  MkClaim (name +:+ "-" +:+ sto_Name s) (whole (i64 (sto_Quantity s))) (if valid && negb (class =? StorageClassDefault) then Some class else None).

Definition persistentVolumeClaims (w : Workload) : list VolumeClaim :=
  claim_of (svc_Name (w_service w)) <$> List.filter is_persistent (res_Storage (svc_Resources (w_service w))).

(** *** Labels and annotations *)

Definition workload_labels (w : Workload) : label_map :=
  let svc := w_declared w in
  let obj := <[AkashManifestServiceLabelName := svc_Name svc]> (builder_labels (w_deployment w)) in
  if negb (svc_InterconnectGroup svc =? "") then <[AkashInterconnectGroupLabelName := svc_InterconnectGroup svc]> obj else obj.

Definition workload_selectorLabels (w : Workload) : label_map :=
  <[AkashManifestServiceLabelName := svc_Name (w_declared w)]> (builder_selectorLabels (w_deployment w)).

Definition podLabels (w : Workload) (current : label_map) : label_map :=
  let labels := delete AkashManifestResourceVersion (workload_labels w) in
  match current !! AkashManifestResourceVersion with
  | Some version => <[AkashManifestResourceVersion := version]> labels
  | None => labels
  end.

Definition AkashAttestationDisabledAnnotation : string := "akash.network/attestation-disabled".
Definition InterconnectFabricRoCE : string := "roce".
Definition multusNetworksAnnotation : string := "k8s.v1.cni.cncf.io/networks".

Definition podAnnotations (w : Workload) : label_map :=
  let obj : label_map := match w_params w with
    | Some p => if sp_AttestationDisabled p then {[AkashAttestationDisabledAnnotation := "true"]} else ∅
    | None => ∅
    end in
  match sparamsInterconnect (w_params w) with
  | Some ic =>
      if si_Enabled ic && (si_Fabric ic =? InterconnectFabricRoCE) then
        let networks := TrimSpace (s_InterconnectRoCENetworks (w_settings w)) in
        if negb (networks =? "") then <[multusNetworksAnnotation := networks]> obj else obj
      else obj
  | None => obj
  end.

Definition runtimeClass (w : Workload) : option string :=
  match w_params w with
  | Some p => let rc := sp_RuntimeClass p in if negb (rc =? "") && negb (rc =? "none") then Some rc else None
  | None => None
  end.

Definition replicas (w : Workload) : Z := i32 (svc_Count (w_declared w)).

(** *** Affinity *)

Definition AkashServiceCapabilityGPU : string := "akash.network/capabilities.gpu".
Definition AkashServiceCapabilityStorage : string := "akash.network/capabilities.storage".

Definition node_has (key : string) : NodeSelectorRequirement := MkNodeReq key OpIn ["true"].
Definition node_more (key : string) : NodeSelectorRequirement := MkNodeReq key OpGt ["0"].

Definition nodeSelectorsFromResources (res : SchedulerResources) : list NodeSelectorRequirement :=
  match sr_GPU res with
  | None => []
  | Some gpu =>
      let key := AkashServiceCapabilityGPU +:+ ".vendor." +:+ sg_Vendor gpu +:+ ".model." +:+ sg_Model gpu in
      node_more key :: (if negb (sg_MemorySize gpu =? "") then [node_more (key +:+ ".ram." +:+ sg_MemorySize gpu)] else [])
      ++ (if negb (sg_Interface gpu =? "") then [node_more (key +:+ ".interface." +:+ sg_Interface gpu)] else [])
  end%list.

(** Nodes for confidential computing. *)
Definition cc_selectors (p : SchedulerParams) : list NodeSelectorRequirement :=
  let has opt := RuntimeClass_Is (sp_RuntimeClass p) [opt] in
  if has WithCC then
    node_has "katacontainers.io/kata-runtime" ::
    (if has WithSNP then [node_has "amd.feature.node.kubernetes.io/snp"] else [])
    ++ (if has WithTDX then [node_has "intel.feature.node.kubernetes.io/tdx"] else [])
    ++ (if has WithGPU then [node_has "nvidia.com/cc.ready.state"] else [])
  else []%list.

Definition storage_selector (s : Storage) : list NodeSelectorRequirement :=
  let '(class, valid) := find_AsString (sto_Attributes s) StorageAttributeClass in
  if valid then [node_more (AkashServiceCapabilityStorage +:+ ".class." +:+ class)] else [].

Definition affinity (w : Workload) : Affinity :=
  let service := w_service w in
  MkAffinity
    (node_has AkashManagedLabelName ::
     (match w_params w with
      | Some p => match sp_Resources p with Some res => nodeSelectorsFromResources res | None => [] end ++ cc_selectors p
      | None => []
      end
      ++ (List.filter is_persistent (res_Storage (svc_Resources service)) ≫= storage_selector))%list)
    (if negb (svc_InterconnectGroup service =? "") then Some (AkashInterconnectGroupLabelName, svc_InterconnectGroup service) else None).

(** *** Permissions and credentials *)

Definition getWorkloadPermissions (w : Workload) : option WorkloadPermissions :=
  match svc_Params (w_service w) with
  | Some p => match par_Permissions p with Some read => Some (MkWPermissions read) | None => None end
  | None => None
  end.
Definition hasPermissions (w : Workload) : bool := HasAny (getWorkloadPermissions w).
Definition getPermissions (w : Workload) : list string :=
  match getWorkloadPermissions w with None => [] | Some p => wp_Read p end.
Definition automountServiceAccountToken (w : Workload) : bool := if hasPermissions w then true else false.
Definition workload_Name (w : Workload) : string := svc_Name (w_declared w).
Definition serviceAccountName (w : Workload) : string := if hasPermissions w then workload_Name w else "".

Definition credentials_Name (w : Workload) : string := "docker-creds-" +:+ workload_Name w.

Definition imagePullSecrets (w : Workload) : list string :=
  let sname := match svc_Credentials (w_service w) with
    | Some _ => credentials_Name w
    | None => s_DockerImagePullSecretsName (w_settings w)
    end in
  if sname =? "" then [] else [sname].

Definition encodeAuth (username password : string) : string := b64_EncodeToString (username +:+ ":" +:+ password).

(** A member that is left out when it is empty. *)
Definition omitempty (name value : string) : list (string * json) := if value =? "" then [] else [(name, JStr value)].

Definition encodeSecret (c : ImageCredentials) : string :=
  let entry :=
    (omitempty "username" (TrimSpace (cr_Username c)) ++ omitempty "password" (TrimSpace (cr_Password c))
     ++ omitempty "email" (TrimSpace (cr_Email c))
     ++ omitempty "auth" (encodeAuth (TrimSpace (cr_Username c)) (TrimSpace (cr_Password c))))%list in
  json_Marshal (JObj [("auths", JObj [(cr_Host c, JObj entry)])]).

Definition DockerConfigJsonKey : string := ".dockerconfigjson".
Definition SecretTypeDockerConfigJson : string := "kubernetes.io/dockerconfigjson".

Definition secret_spec (c : ImageCredentials) : SecretSpec := MkSecret {[DockerConfigJsonKey := encodeSecret c]} SecretTypeDockerConfigJson.
Definition credentials_Create (w : Workload) (c : ImageCredentials) : resource SecretSpec := MkResource (workload_labels w) ∅ (secret_spec c).
Definition credentials_Update (w : Workload) (c : ImageCredentials) (obj : resource SecretSpec) : resource SecretSpec :=
  MkResource (updateAkashLabels (rs_Labels obj) (workload_labels w)) (rs_Annotations obj) (secret_spec c).

(** *** Service account, role and binding *)

Definition rbac_labels (w : Workload) : label_map := AppendLeaseLabels (cd_Lid (w_deployment w)) (workload_labels w).

Definition serviceAccount_Create (w : Workload) : resource unit := MkResource (rbac_labels w) ∅ tt.
Definition serviceAccount_Update (w : Workload) (obj : resource unit) : resource unit :=
  MkResource (updateAkashLabels (rs_Labels obj) (rbac_labels w)) (rs_Annotations obj) tt.

Definition buildPolicyRules (w : Workload) : list PolicyRule :=
  let permissions := getWorkloadPermissions w in
  if negb (HasAny permissions) then [] else GenerateRules NewPolicyRuleRegistry permissions.

Definition role_Create (w : Workload) : resource (list PolicyRule) := MkResource (rbac_labels w) ∅ (buildPolicyRules w).
Definition role_Update (w : Workload) (obj : resource (list PolicyRule)) : resource (list PolicyRule) :=
  MkResource (updateAkashLabels (rs_Labels obj) (rbac_labels w)) (rs_Annotations obj) (buildPolicyRules w).

Definition binding_spec (w : Workload) : RoleBindingSpec :=
  MkBinding (MkRoleRef "rbac.authorization.k8s.io" "Role" (workload_Name w))
    [MkSubject "ServiceAccount" (workload_Name w) (LidNS (cd_Lid (w_deployment w)))].
Definition roleBinding_Create (w : Workload) : resource RoleBindingSpec := MkResource (rbac_labels w) ∅ (binding_spec w).
Definition roleBinding_Update (w : Workload) (obj : resource RoleBindingSpec) : resource RoleBindingSpec :=
  MkResource (updateAkashLabels (rs_Labels obj) (rbac_labels w)) (rs_Annotations obj) (binding_spec w).

(** *** Deployments and stateful sets *)

(** The volumes were computed by [NewWorkloadBuilder]. *)
Definition workload_volumes (w : Workload) : outcome (list RamVolume) := volumes (svc_Name (w_service w)) (res_Storage (svc_Resources (w_service w))).

Definition pod_spec (w : Workload) (runAsNonRoot : bool) : outcome PodSpec :=
  let! c := container w in
  let! vs := workload_volumes w in
  Ret (MkPodSpec (affinity w) (runtimeClass w) runAsNonRoot (automountServiceAccountToken w) (serviceAccountName w) [c] (imagePullSecrets w) vs).

Definition new_strategy : rolling_update := MkRolling 1 0.

Definition deployment_Create (w : Workload) : outcome (resource DeploymentSpec) :=
  let! spec := pod_spec w false in
  Ret (MkResource (workload_labels w) ∅
    (MkDeploymentSpec (workload_selectorLabels w) (Some new_strategy) (Some 10%Z) (replicas w) (MkTemplate (podLabels w ∅) (podAnnotations w) spec))).

Definition deployment_Update (w : Workload) (obj : resource DeploymentSpec) : outcome (resource DeploymentSpec) :=
  let ospec := rs_Spec obj in
  let otemplate := ds_Template ospec in
  let! spec := pod_spec w (ps_RunAsNonRoot (pt_Spec otemplate)) in
  Ret (MkResource (updateAkashLabels (rs_Labels obj) (workload_labels w)) (rs_Annotations obj)
    (MkDeploymentSpec (workload_selectorLabels w) (ds_Strategy ospec) (ds_RevisionHistoryLimit ospec) (replicas w)
      (MkTemplate (podLabels w (pt_Labels otemplate)) (podAnnotations w) spec))).

Definition statefulSet_Create (w : Workload) : outcome (resource StatefulSetSpec) :=
  let! spec := pod_spec w false in
  Ret (MkResource (workload_labels w) ∅
    (MkStatefulSetSpec (workload_selectorLabels w) 0 1 1 (replicas w) (MkTemplate (podLabels w ∅) (podAnnotations w) spec) (persistentVolumeClaims w))).

Definition statefulSet_Update (w : Workload) (obj : resource StatefulSetSpec) : outcome (resource StatefulSetSpec) :=
  let ospec := rs_Spec obj in
  let otemplate := st_Template ospec in
  let! spec := pod_spec w (ps_RunAsNonRoot (pt_Spec otemplate)) in
  Ret (MkResource (updateAkashLabels (rs_Labels obj) (workload_labels w)) (rs_Annotations obj)
    (MkStatefulSetSpec (workload_selectorLabels w) (st_Partition ospec) (st_MaxUnavailable ospec) (st_RevisionHistoryLimit ospec) (replicas w)
      (MkTemplate (podLabels w (pt_Labels otemplate)) (podAnnotations w) spec) (persistentVolumeClaims w))).

(** *** Services *)

Definition service_Name (w : Workload) (requireNodePort : bool) : string :=
  if requireNodePort then makeGlobalServiceNameFromBasename (workload_Name w) else workload_Name w.

Definition workloadServiceType (requireNodePort : bool) : string := if requireNodePort then "NodePort" else "ClusterIP".

Definition service_Any (w : Workload) (requireNodePort : bool) : bool :=
  existsb (λ e,
    if requireNodePort && IsIngress e then false
    else if negb requireNodePort && IsIngress e then true
    else Bool.eqb (se_Global e) requireNodePort) (svc_Expose (w_declared w)).

(** Whether an exposed port is one of the service. *)
Definition port_included (requireNodePort : bool) (e : ServiceExpose) : bool :=
  (Bool.eqb (se_Global e) requireNodePort || (negb requireNodePort && IsIngress e)) && negb (requireNodePort && IsIngress e).

Inductive service_error := errUnsupportedProtocol | errInvalidServiceBuilder.

(** The loop, from the place [i] on and with the external ports already added. *)
Fixpoint service_ports (requireNodePort : bool) (i : N) (l : list ServiceExpose) (portsAdded : gset Z) : result service_error (list SvcPort) :=
  match l with
  | [] => Ok []
  | e :: l =>
      if port_included requireNodePort e then
        match kube_protocol (se_Proto e) with
        | None => Err errUnsupportedProtocol
        | Some protocol =>
            let externalPort := GetExternalPort e in
            if bool_decide (externalPort ∈ portsAdded) then service_ports requireNodePort (i + 1) l portsAdded
            else
              let* ports := service_ports requireNodePort (i + 1) l ({[externalPort]} ∪ portsAdded) in
              Ok (MkPort (Itoa i +:+ "-" +:+ FormatUint externalPort) protocol (i32 externalPort) (IntVal (i32 (se_Port e))) 0 :: ports)
        end
      else service_ports requireNodePort (i + 1) l portsAdded
  end.

Definition ports (w : Workload) (requireNodePort : bool) : result service_error (list SvcPort) :=
  let* l := service_ports requireNodePort 0 (svc_Expose (w_declared w)) ∅ in
  match l with [] => Err errInvalidServiceBuilder | _ => Ok l end.

Definition service_Create (w : Workload) (requireNodePort : bool) : result service_error (resource ServiceSpec) :=
  let* l := ports w requireNodePort in
  Ok (MkResource (workload_labels w) ∅ (MkServiceSpec (workloadServiceType requireNodePort) (workload_selectorLabels w) l)).

(** The port that is in use for the same values is kept. *)
Definition same_port (curport port : SvcPort) : bool :=
  (vp_Name curport =? vp_Name port) && (vp_Port curport =? vp_Port port)%Z
  && (IntValue (vp_TargetPort curport) =? IntValue (vp_TargetPort port))%Z && (vp_Protocol curport =? vp_Protocol port).

(** The loop compares with the port it started from; the last match stays. *)
Definition retain_port (curports : list SvcPort) (port : SvcPort) : SvcPort :=
  foldl (λ kept curport, if same_port curport port then curport else kept) port curports.

Definition service_Update (w : Workload) (requireNodePort : bool) (obj : resource ServiceSpec) : result service_error (resource ServiceSpec) :=
  let* l := ports w requireNodePort in
  let l := if requireNodePort then retain_port (vs_Ports (rs_Spec obj)) <$> l else l in
  Ok (MkResource (updateAkashLabels (rs_Labels obj) (workload_labels w)) (rs_Annotations obj)
    (MkServiceSpec (vs_Type (rs_Spec obj)) (workload_selectorLabels w) l)).

(** *** The builder *)

(** [group] and [sparams] are those of the stored manifest; an index beyond
    them, or beyond the group of the deployment, panics. *)
Definition NewWorkloadBuilder (settings : Settings) (deployment : ClusterDeployment) (store : list SchedulerParams) (mani : ManifestGroup) (serviceIdx : nat)
  : outcome (result string Workload) :=
  match Group_FromCRD mani with
  | Err e => Ret (Err e)
  | Ok (group, sparams) =>
      let! service := deref (g_Services group !! serviceIdx) in
      let! params := deref (sparams !! serviceIdx) in
      let! declared := deref (g_Services (cd_Group deployment) !! serviceIdx) in
      let w := MkWorkload settings deployment service (l ← params; store !! l) declared in
      let! _ := workload_volumes w in
      Ret (Ok w)
  end.

End workload.
