(* ===== verification/WorkloadSound.v ===== *)
(** * What the workloads promise

    Containers request no more than their limit and leave room for the
    attestation sidecar; selectors pick exactly the pods of their service;
    another version of the same manifest rolls no pods; the role of a workload
    grants what was asked for and only reading; services open each external
    port once. *)
From Stdlib Require Import Ascii String.
From S2P Require Import Prelude GoStrings Json ChainTypes ClusterTypes LeaseNames CrdManifest HostRoutes MetalLb KubeDeclare.
From S2P Require Import ManifestManager KubeObjects Workload.

Open Scope string_scope.

Section proofs.
Context `{GoUnicode} `{Cosmos} `{Protocols} `{!KubeProtocols} `{!ManifestSdk} `{KubeSdk} `{ChainSdk}.

(** ** Resources *)

(** Every resource has a request and a limit, the request within it. *)
Definition fits (r : ResourceRequirements) : Prop :=
  ∀ name, match rq_Requests r !! name, rq_Limits r !! name with
    | Some q, Some l => (q ≤ l)%Z
    | None, None => True
    | _, _ => False
    end.

Lemma fits_empty : fits (MkRequirements ∅ ∅).
Proof. intros name. cbn. by rewrite !lookup_empty. Qed.

Lemma fits_put name q l r : (q ≤ l)%Z → fits r → fits (put_resource name q l r).
Proof.
  intros Hle Hr n. cbn. destruct (decide (name = n)) as [->|].
  - by rewrite !lookup_insert_eq.
  - rewrite !lookup_insert_ne by done. apply Hr.
Qed.

(** Amounts that an int64 holds. *)
Definition amount (z : Z) : Prop := (0 < z < 2 ^ 63)%Z.

Lemma amount_i64 z : amount z → i64 z = z.
Proof. intros [??]. apply i64_id. lia. Qed.

Lemma whole_mono a b : (a ≤ b)%Z → (whole a ≤ whole b)%Z.
Proof. unfold whole. lia. Qed.

Lemma beside_within sl sr m l q : ((beside_sidecar sl sr m l q).2 ≤ (beside_sidecar sl sr m l q).1)%Z.
Proof. unfold beside_sidecar. cbn [fst snd]. destruct (Z.ltb_spec (if i64 (l - sl) <? m then m else i64 (l - sl))%Z (if i64 (q - sr) <? m then m else i64 (q - sr))%Z); lia. Qed.

Lemma beside_limit sl sr m l q : amount l → (0 ≤ sl < 2 ^ 40)%Z → (beside_sidecar sl sr m l q).1 = Z.max m (l - sl).
Proof.
  intros [??] [??]. unfold beside_sidecar. cbn [fst]. rewrite i64_id by lia. destruct (Z.ltb_spec (l - sl) m); lia.
Qed.

(** The volumes in RAM of a service. *)
Definition in_ram (s : Storage) : bool :=
  negb (find_AsBool (sto_Attributes s) StorageAttributePersistent).1 && ((find_AsString (sto_Attributes s) StorageAttributeClass).1 =? "ram").
Definition ram_total (l : list Storage) : Z := foldr (λ s acc, if in_ram s then sto_Quantity s + acc else acc)%Z 0%Z l.

Lemma ram_total_nonneg l : Forall (λ s, amount (sto_Quantity s)) l → (0 ≤ ram_total l)%Z.
Proof. unfold ram_total. induction 1 as [|s l [??] _ IH]; cbn; [lia|]. destruct (in_ram s); lia. Qed.

Context `{!KubeSdkLaws}.

Lemma committed_le level z : amount z → (i64 (ComputeCommittedResources level z) ≤ i64 z)%Z.
Proof. intros [??]. destruct (committed_range level z) as [??]; [done|]. rewrite !i64_id by lia. lia. Qed.

Lemma ephemeral_spec level l mem r :
  Forall (λ s, amount (sto_Quantity s)) l → (0 ≤ mem)%Z → (mem + ram_total l < 2 ^ 63)%Z → fits r →
  (ephemeral_resources level l mem r).1 = (mem + ram_total l)%Z ∧ fits (ephemeral_resources level l mem r).2
  ∧ ∀ n, n ≠ ResourceEphemeralStorage → rq_Limits (ephemeral_resources level l mem r).2 !! n = rq_Limits r !! n.
Proof.
  intros Hl. revert mem r. induction Hl as [|s l Hs Hl IH]; intros mem r Hm Hsum Hr; cbn [ephemeral_resources].
  - cbn in *. split_and!; [lia|done|done].
  - pose proof (ram_total_nonneg l Hl) as Hpos. revert Hsum. cbn [ram_total foldr]. fold (ram_total l). unfold in_ram.
    destruct (find_AsBool (sto_Attributes s) StorageAttributePersistent).1; cbn [negb andb]; [by intros Hsum; apply IH|].
    destruct ((find_AsString (sto_Attributes s) StorageAttributeClass).1 =? "ram"); intros Hsum.
    + destruct Hs as [??]. rewrite u64_id by lia. destruct (IH (mem + sto_Quantity s)%Z r) as (E & ? & ?); [lia|lia|done|]. rewrite E. split_and!; [lia|done|done].
    + destruct ((find_AsString (sto_Attributes s) StorageAttributeClass).1 =? ""); [|by apply IH].
      destruct (IH mem (put_resource ResourceEphemeralStorage (whole (i64 (ComputeCommittedResources level (sto_Quantity s)))) (whole (i64 (sto_Quantity s))) r)) as (? & ? & E); [done|done| |].
      { apply fits_put; [|done]. by apply whole_mono, committed_le. }
      split_and!; [done|done|]. intros n Hn. rewrite E by done. cbn. by rewrite lookup_insert_ne.
Qed.

(** The quantities of a service: none of those that count is zero, and they and
    the memory with the volumes in RAM fit an int64. *)
Definition quantities_ok (res : Resources) : Prop :=
  (∀ cpu, res_CPU res = Some cpu → amount (cpu_Units cpu))
  ∧ (∀ gpu, res_GPU res = Some gpu → (0 ≤ gpu_Units gpu < 2 ^ 63)%Z)
  ∧ (∀ mem, res_Memory res = Some mem → amount (mem_Quantity mem) ∧ (mem_Quantity mem + ram_total (res_Storage res) < 2 ^ 63)%Z)
  ∧ Forall (λ s, amount (sto_Quantity s)) (res_Storage res) ∧ (ram_total (res_Storage res) < 2 ^ 63)%Z.

(** What the sidecar takes of a limit. *)
Definition sidecar_cpu (w : Workload) : Z := if sidecar_enabled (w_params w) then SidecarCPULimitMillicores else 0.
Definition sidecar_memory (w : Workload) : Z :=
  if sidecar_enabled (w_params w) then
    match w_params w with
    | Some p => if RuntimeClass_Is (sp_RuntimeClass p) [WithGPU] then SidecarGPUMemoryLimitBytes else SidecarMemoryLimitBytes
    | None => 0
    end
  else 0.
Definition least (w : Workload) (minimum : Z) : Z := if sidecar_enabled (w_params w) then minimum else 0.

Lemma cpu_fits w : quantities_ok (svc_Resources (w_service w)) →
  fits (cpu_resources w (MkRequirements ∅ ∅))
  ∧ ∀ cpu, res_CPU (svc_Resources (w_service w)) = Some cpu →
    rq_Limits (cpu_resources w (MkRequirements ∅ ∅)) !! ResourceCPU = Some (Z.max (least w MinPrimaryCPUMillicores) (cpu_Units cpu - sidecar_cpu w)).
Proof.
  intros (Hcpu & _). unfold cpu_resources. destruct (res_CPU (svc_Resources (w_service w))) as [cpu|]; [|by split; [apply fits_empty|]].
  pose proof (Hcpu _ eq_refl) as Ha. unfold least, sidecar_cpu. destruct (sidecar_enabled (w_params w)).
  - pose proof (beside_within SidecarCPULimitMillicores SidecarCPURequestMillicores MinPrimaryCPUMillicores (i64 (cpu_Units cpu))
      (i64 (ComputeCommittedResources (s_CPUCommitLevel (w_settings w)) (cpu_Units cpu)))) as Hle.
    pose proof (beside_limit SidecarCPULimitMillicores SidecarCPURequestMillicores MinPrimaryCPUMillicores (i64 (cpu_Units cpu))
      (i64 (ComputeCommittedResources (s_CPUCommitLevel (w_settings w)) (cpu_Units cpu)))) as E.
    rewrite (amount_i64 _ Ha) in Hle, E |- *. specialize (E Ha). destruct (beside_sidecar _ _ _ _ _) as [l q]. cbn in Hle, E.
    split; [apply fits_put; [done|apply fits_empty]|]. intros ? [= <-]. cbn. rewrite lookup_insert_eq. f_equal. apply E. unfold SidecarCPULimitMillicores. lia.
  - split; [apply fits_put; [by apply committed_le|apply fits_empty]|]. intros ? [= <-]. cbn. rewrite lookup_insert_eq, amount_i64 by done. f_equal. destruct Ha. lia.
Qed.

Lemma gpu_fits w r r' : quantities_ok (svc_Resources (w_service w)) → fits r → gpu_resources w r = Ret r' →
  fits r' ∧ rq_Limits r' !! ResourceCPU = rq_Limits r !! ResourceCPU.
Proof.
  intros (_ & Hgpu & _) Hr. unfold gpu_resources. destruct (res_GPU (svc_Resources (w_service w))) as [gpu|]; [|by intros [= <-]].
  destruct (Z.ltb_spec 0 (gpu_Units gpu)) as [Hpos|]; [|by intros [= <-]].
  rewrite !obind_ret. intros (p & _ & Hrun). rewrite obind_ret in Hrun. destruct Hrun as (res & _ & Hrun). rewrite obind_ret in Hrun. destruct Hrun as (g & _ & Hrun).
  rewrite obind_ret in Hrun. destruct Hrun as (name & Hname & [= <-]). split.
  - apply fits_put; [|done]. apply whole_mono, committed_le. specialize (Hgpu _ eq_refl). split; [done|lia].
  - cbn. apply lookup_insert_ne. intros ->. revert Hname. unfold gpu_resource_name. repeat case_match; by intros [=].
Qed.

Lemma interconnect_fits w r : fits r → fits (interconnect_resources w r).
Proof.
  intros Hr. unfold interconnect_resources. destruct (sparamsInterconnect (w_params w)) as [ic|]; [|done]. case_match; [|done]. by apply fits_put.
Qed.

Lemma memory_fits w mem r : quantities_ok (svc_Resources (w_service w)) → mem = ram_total (res_Storage (svc_Resources (w_service w))) → fits r →
  fits (memory_resources w mem r)
  ∧ (∀ n, n ≠ ResourceMemory → rq_Limits (memory_resources w mem r) !! n = rq_Limits r !! n)
  ∧ ∀ m, res_Memory (svc_Resources (w_service w)) = Some m →
    rq_Limits (memory_resources w mem r) !! ResourceMemory = Some (whole (Z.max (least w MinPrimaryMemoryBytes) (mem_Quantity m + mem - sidecar_memory w))).
Proof.
  intros (_ & _ & Hmem & Hst & _) -> Hr. unfold memory_resources. destruct (res_Memory (svc_Resources (w_service w))) as [m|]; [|done].
  destruct (Hmem _ eq_refl) as [Ha Hsum]. pose proof (ram_total_nonneg _ Hst) as Hnn. set (t := ram_total _) in *.
  assert (amount (mem_Quantity m + t)) as Ht by (destruct Ha; split; lia).
  assert (i64 (u64 (mem_Quantity m + t)) = mem_Quantity m + t)%Z as -> by (rewrite u64_id by (destruct Ht; lia); by apply amount_i64).
  unfold least, sidecar_memory. destruct (sidecar_enabled (w_params w)) eqn:Es.
  - destruct (w_params w) as [p|]; [|done].
    set (sl := if RuntimeClass_Is (sp_RuntimeClass p) [WithGPU] then SidecarGPUMemoryLimitBytes else SidecarMemoryLimitBytes).
    set (sr := if RuntimeClass_Is (sp_RuntimeClass p) [WithGPU] then SidecarGPUMemoryRequestBytes else SidecarMemoryRequestBytes).
    pose proof (beside_within sl sr MinPrimaryMemoryBytes (mem_Quantity m + t) (i64 (ComputeCommittedResources (s_MemoryCommitLevel (w_settings w)) (mem_Quantity m)))) as Hle.
    pose proof (beside_limit sl sr MinPrimaryMemoryBytes (mem_Quantity m + t) (i64 (ComputeCommittedResources (s_MemoryCommitLevel (w_settings w)) (mem_Quantity m))) Ht) as E.
    destruct (beside_sidecar _ _ _ _ _) as [l q]. cbn in Hle, E. split_and!.
    + apply fits_put; [by apply whole_mono|done].
    + intros n Hn. cbn. by apply lookup_insert_ne.
    + intros ? [= <-]. cbn. rewrite lookup_insert_eq. do 2 f_equal. apply E. unfold sl, SidecarGPUMemoryLimitBytes, SidecarMemoryLimitBytes, megabytes. case_match; lia.
  - split_and!.
    + apply fits_put; [|done]. apply whole_mono. pose proof (committed_le (s_MemoryCommitLevel (w_settings w)) _ Ha) as Hc. rewrite (amount_i64 _ Ha) in Hc. lia.
    + intros n Hn. cbn. by apply lookup_insert_ne.
    + intros ? [= <-]. cbn. rewrite lookup_insert_eq. do 2 f_equal. destruct Ht. lia.
Qed.

Lemma container_limits (w : Workload) (c : Container)
  (Hquantities : quantities_ok (svc_Resources (w_service w))) (Hrun : container w = Ret c) :
  fits (c_Resources c)
  ∧ (∀ mem, res_Memory (svc_Resources (w_service w)) = Some mem →
      rq_Limits (c_Resources c) !! ResourceMemory
      = Some (whole (Z.max (least w MinPrimaryMemoryBytes) (mem_Quantity mem + ram_total (res_Storage (svc_Resources (w_service w))) - sidecar_memory w))))
  ∧ (∀ cpu, res_CPU (svc_Resources (w_service w)) = Some cpu →
      (∀ ic, sparamsInterconnect (w_params w) = Some ic → si_ResourceName ic ≠ ResourceCPU) →
      rq_Limits (c_Resources c) !! ResourceCPU = Some (Z.max (least w MinPrimaryCPUMillicores) (cpu_Units cpu - sidecar_cpu w))).
Proof.
  unfold container in Hrun. rewrite obind_ret in Hrun. destruct Hrun as (r & Hr & [= <-]). cbn [c_Resources].
  unfold container_resources in Hr. rewrite obind_ret in Hr. destruct Hr as (r1 & Hg & Hr).
  destruct (cpu_fits w Hquantities) as [Hf0 Hcpu]. destruct (gpu_fits _ _ _ Hquantities Hf0 Hg) as [Hf1 Hl1].
  pose proof (interconnect_fits w _ Hf1) as Hf2.
  pose proof Hquantities as (_ & _ & _ & Hst & Hram).
  destruct (ephemeral_spec (s_StorageCommitLevel (w_settings w)) _ 0 _ Hst (Z.le_refl 0) Hram Hf2) as (Em & Hf3 & Hl3).
  destruct (ephemeral_resources _ _ 0 _) as [mem r3]. cbn in Em, Hf3, Hl3. injection Hr as <-.
  destruct (memory_fits w mem r3 Hquantities) as (Hf4 & Hl4 & Hmem); [lia|done|]. split_and!.
  - done.
  - intros m Hm. by rewrite (Hmem m Hm), Em.
  - intros cpu Hc Hne. rewrite Hl4 by done. rewrite Hl3 by done. unfold interconnect_resources.
    destruct (sparamsInterconnect (w_params w)) as [ic|]; [|rewrite Hl1; by apply Hcpu].
    case_match; [|rewrite Hl1; by apply Hcpu]. cbn. rewrite lookup_insert_ne by (by apply Hne). rewrite Hl1. by apply Hcpu.
Qed.

(** A container asks for what its tenant pays for: every resource
    has a request within its limit, as Kubernetes demands; the memory limit is
    the memory of the service with its volumes in RAM, less what the attestation
    sidecar takes but never below the minimum, and likewise the CPU limit,
    unless the fabric of an interconnect is named like it. *)
Theorem container_fits (w : Workload) (c : Container)
  (Hquantities : quantities_ok (svc_Resources (w_service w))) (Hrun : container w = Ret c) :
  fits (c_Resources c)
  ∧ (∀ mem, res_Memory (svc_Resources (w_service w)) = Some mem →
      rq_Limits (c_Resources c) !! ResourceMemory
      = Some (whole (Z.max (least w MinPrimaryMemoryBytes) (mem_Quantity mem + ram_total (res_Storage (svc_Resources (w_service w))) - sidecar_memory w))))
  ∧ (∀ cpu, res_CPU (svc_Resources (w_service w)) = Some cpu →
      (∀ ic, sparamsInterconnect (w_params w) = Some ic → si_ResourceName ic ≠ ResourceCPU) →
      rq_Limits (c_Resources c) !! ResourceCPU = Some (Z.max (least w MinPrimaryCPUMillicores) (cpu_Units cpu - sidecar_cpu w))).
Proof. by apply container_limits. Qed.

(** ** Selectors *)

(** The labels the selectors name. *)
Lemma pod_label_ns w current : podLabels w current !! akashNetworkNamespace = Some (LidNS (cd_Lid (w_deployment w))).
Proof.
  unfold podLabels, workload_labels, builder_labels.
  repeat case_match; repeat first [rewrite lookup_insert_eq|rewrite lookup_insert_ne by done|rewrite lookup_delete_ne by done]; done.
Qed.
Lemma pod_label_managed w current : podLabels w current !! AkashManagedLabelName = Some "true".
Proof.
  unfold podLabels, workload_labels, builder_labels.
  repeat case_match; repeat first [rewrite lookup_insert_eq|rewrite lookup_insert_ne by done|rewrite lookup_delete_ne by done]; done.
Qed.
Lemma pod_label_service w current : podLabels w current !! AkashManifestServiceLabelName = Some (workload_Name w).
Proof.
  unfold podLabels, workload_labels, builder_labels.
  repeat case_match; repeat first [rewrite lookup_insert_eq|rewrite lookup_insert_ne by done|rewrite lookup_delete_ne by done]; done.
Qed.

Lemma selector_subset w (m : label_map) :
  workload_selectorLabels w ⊆ m ↔
  m !! AkashManifestServiceLabelName = Some (workload_Name w) ∧ m !! akashNetworkNamespace = Some (LidNS (cd_Lid (w_deployment w)))
  ∧ m !! AkashManagedLabelName = Some "true".
Proof.
  unfold workload_selectorLabels, builder_selectorLabels. split.
  - intros Hsub. rewrite map_subseteq_spec in Hsub. split_and!; apply Hsub; by repeat first [rewrite lookup_insert_eq|rewrite lookup_insert_ne by done].
  - intros (? & ? & ?). repeat (apply insert_subseteq_l; [done|]). apply map_empty_subseteq.
Qed.

(** Selectors pick exactly the pods of their service: the selector of
    a workload (which its deployment or stateful set and the services in front
    of it use) is contained in the labels of a pod, as it was created or
    updated, exactly when the pod runs the service of that name in the namespace
    of the same lease. *)
Theorem selects_own_pods (w w' : Workload) (current : label_map) :
  (workload_selectorLabels w ⊆ podLabels w' current
   ↔ workload_Name w = workload_Name w' ∧ LidNS (cd_Lid (w_deployment w)) = LidNS (cd_Lid (w_deployment w')))
  ∧ (∀ np o, service_Create w np = Ok o → vs_Selector (rs_Spec o) = workload_selectorLabels w)
  ∧ (∀ np obj o, service_Update w np obj = Ok o → vs_Selector (rs_Spec o) = workload_selectorLabels w)
  ∧ (∀ o, deployment_Create w = Ret o → ds_Selector (rs_Spec o) = workload_selectorLabels w ∧ ds_Selector (rs_Spec o) ⊆ pt_Labels (ds_Template (rs_Spec o)))
  ∧ (∀ obj o, deployment_Update w obj = Ret o → ds_Selector (rs_Spec o) = workload_selectorLabels w ∧ ds_Selector (rs_Spec o) ⊆ pt_Labels (ds_Template (rs_Spec o)))
  ∧ (∀ o, statefulSet_Create w = Ret o → st_Selector (rs_Spec o) = workload_selectorLabels w ∧ st_Selector (rs_Spec o) ⊆ pt_Labels (st_Template (rs_Spec o)))
  ∧ (∀ obj o, statefulSet_Update w obj = Ret o → st_Selector (rs_Spec o) = workload_selectorLabels w ∧ st_Selector (rs_Spec o) ⊆ pt_Labels (st_Template (rs_Spec o))).
Proof.
  assert (∀ current, workload_selectorLabels w ⊆ podLabels w current) as Hown.
  { intros cur. by rewrite selector_subset, pod_label_service, pod_label_ns, pod_label_managed. }
  split; [|split_and!].
  - rewrite selector_subset, pod_label_service, pod_label_ns, pod_label_managed. split; [by intros ([= E1] & [= E2] & _)|by intros [-> ->]].
  - intros np o. unfold service_Create. rewrite rbind_ok. by intros (l & _ & [= <-]).
  - intros np obj o. unfold service_Update. rewrite rbind_ok. by intros (l & _ & [= <-]).
  - intros o. unfold deployment_Create. rewrite obind_ret. intros (l & _ & [= <-]). cbn. by split; [|apply Hown].
  - intros obj o. unfold deployment_Update. rewrite obind_ret. intros (l & _ & [= <-]). cbn. by split; [|apply Hown].
  - intros o. unfold statefulSet_Create. rewrite obind_ret. intros (l & _ & [= <-]). cbn. by split; [|apply Hown].
  - intros obj o. unfold statefulSet_Update. rewrite obind_ret. intros (l & _ & [= <-]). cbn. by split; [|apply Hown].
Qed.

(** ** Rollouts *)

(** The same workload for another version of the manifest. *)
Definition at_version (v : string) (w : Workload) : Workload :=
  let d := w_deployment w in
  MkWorkload (w_settings w) (MkDeployment (cd_Lid d) (cd_Group d) (cd_Sparams d) v (cd_updateManifest d)) (w_service w) (w_params w) (w_declared w).

Lemma podLabels_version v w current : podLabels (at_version v w) current = podLabels w current.
Proof.
  assert (delete AkashManifestResourceVersion (workload_labels (at_version v w)) = delete AkashManifestResourceVersion (workload_labels w)) as E.
  { apply map_eq. intros i. destruct (decide (i = AkashManifestResourceVersion)) as [->|Hne]; [by rewrite !lookup_delete_eq|].
    rewrite !lookup_delete_ne by done. unfold workload_labels, builder_labels. cbn. case_match; rewrite !lookup_insert; by repeat case_decide. }
  unfold podLabels. by rewrite E.
Qed.

Lemma podLabels_idem w current : podLabels w (podLabels w current) = podLabels w current.
Proof.
  unfold podLabels at 1. destruct (podLabels w current !! AkashManifestResourceVersion) as [v|] eqn:E.
  - revert E. unfold podLabels. destruct (current !! AkashManifestResourceVersion) as [v'|].
    + rewrite lookup_insert_eq. by intros [= ->].
    + by rewrite lookup_delete_eq.
  - revert E. unfold podLabels. destruct (current !! AkashManifestResourceVersion) as [v'|]; [by rewrite lookup_insert_eq|done].
Qed.

Lemma pod_spec_version v w b : pod_spec (at_version v w) b = pod_spec w b.
Proof. done. Qed.

Lemma pod_spec_root w b spec : pod_spec w b = Ret spec → ps_RunAsNonRoot spec = b.
Proof. unfold pod_spec. rewrite obind_ret. intros (c & _ & Hr). rewrite obind_ret in Hr. by destruct Hr as (vs & _ & [= <-]). Qed.

(** Labels of akash that an object carries from before are replaced. *)
Lemma update_labels_version d (m new : label_map) : new !! AkashManifestResourceVersion = Some (cd_resourceVersion d) → IsObjectRevisionLatest d (updateAkashLabels m new) = true.
Proof.
  intros E. unfold IsObjectRevisionLatest, updateAkashLabels. rewrite (lookup_union_Some_l _ _ _ _ E). apply String.eqb_refl.
Qed.

Lemma workload_version w : workload_labels w !! AkashManifestResourceVersion = Some (cd_resourceVersion (w_deployment w)).
Proof.
  unfold workload_labels, builder_labels. case_match; by repeat first [rewrite lookup_insert_eq|rewrite lookup_insert_ne by done].
Qed.

(** A new version of the same manifest rolls no pods: when a
    deployment or stateful set was updated for a workload, updating it again
    for another version of the manifest that changes nothing else leaves its
    whole specification, pod template included, as it is, and only marks the
    object with the new version. *)
Theorem version_rolls_no_pods (w : Workload) (v : string) :
  (∀ obj o, deployment_Update w obj = Ret o →
     ∃ o', deployment_Update (at_version v w) o = Ret o' ∧ rs_Spec o' = rs_Spec o
     ∧ IsObjectRevisionLatest (w_deployment (at_version v w)) (rs_Labels o') = true)
  ∧ (∀ obj o, statefulSet_Update w obj = Ret o →
     ∃ o', statefulSet_Update (at_version v w) o = Ret o' ∧ rs_Spec o' = rs_Spec o
     ∧ IsObjectRevisionLatest (w_deployment (at_version v w)) (rs_Labels o') = true).
Proof.
  split; intros obj o; [unfold deployment_Update|unfold statefulSet_Update]; rewrite obind_ret; intros (spec & Hspec & [= <-]); cbn;
    rewrite (pod_spec_root _ _ _ Hspec); change (pod_spec (at_version v w)) with (pod_spec w); rewrite Hspec; cbn; eexists; (split; [done|]); cbn;
    (split; [by rewrite podLabels_version, podLabels_idem|apply update_labels_version; apply (workload_version (at_version v w))]).
Qed.

(** What an object that exists becomes is what a new one would be, up to the
    labels and settings that are not the provider's. *)
Lemma deployment_refreshed w obj o n :
  deployment_Update w obj = Ret o → deployment_Create w = Ret n → ps_RunAsNonRoot (pt_Spec (ds_Template (rs_Spec obj))) = false →
  pt_Spec (ds_Template (rs_Spec o)) = pt_Spec (ds_Template (rs_Spec n)) ∧ ds_Replicas (rs_Spec o) = ds_Replicas (rs_Spec n)
  ∧ pt_Annotations (ds_Template (rs_Spec o)) = pt_Annotations (ds_Template (rs_Spec n)).
Proof.
  unfold deployment_Update, deployment_Create. rewrite !obind_ret. intros (s & Hs & [= <-]) (s' & Hs' & [= <-]) E. rewrite E in Hs. cbn. split_and!; congruence.
Qed.

(** ** Permissions *)

Lemma rules_for_elem r t seen l x :
  x ∈ rules_for r t seen l ↔ ∃ res generator, res ∈ l ∧ res ∉ seen ∧ r !! res = Some generator ∧ x ∈ generator res t.
Proof.
  revert seen. induction l as [|res l IH]; intros seen; cbn [rules_for]; [split; [by intros ?%elem_of_nil|set_solver]|].
  case_bool_decide as Hin.
  - rewrite IH. split; intros (res' & g & Hl & Hs & Hg & Hx); exists res', g; (split_and!; [|done..]); set_solver.
  - rewrite elem_of_app, IH. split.
    + intros [Hx|(res' & g & ? & ? & ? & ?)]; [|exists res', g; split_and!; set_solver].
      destruct (r !! res) as [g|] eqn:E; [|by apply elem_of_nil in Hx]. exists res, g. split_and!; [left|done..].
    + intros (res' & g & Hl & Hs & Hg & Hx). destruct (decide (res' = res)) as [->|]; [left; by rewrite Hg|].
      right. exists res', g. split_and!; set_solver.
Qed.

(** The service of the workload asks to read a resource. *)
Definition asks_for (w : Workload) (resource : string) : Prop :=
  ∃ p l, svc_Params (w_service w) = Some p ∧ par_Permissions p = Some l ∧ resource ∈ l.

Lemma asks_for_iff w resource : asks_for w resource ↔ resource ∈ getPermissions w.
Proof.
  unfold asks_for, getPermissions, getWorkloadPermissions. destruct (svc_Params (w_service w)) as [p|]; [|rewrite elem_of_nil; naive_solver].
  destruct (par_Permissions p) as [l|] eqn:E; cbn; [naive_solver|rewrite elem_of_nil; naive_solver].
Qed.

(** Claim C36.  A workload may do what its tenant asked for and no more.  Its role
    has exactly these rules: if logs were asked for, to get, list and watch the
    pods (of the core group) and the deployments (of the group [apps]) and to get
    the logs of pods; if events were asked for, to get, list and watch the events
    (of the core group).  The token of its service account is mounted exactly
    when anything was asked for, and its binding ties the role of its name to
    the account of its name in the namespace of the lease. *)
Theorem role_least_privilege (w : Workload) :
  (∀ rule, rule ∈ rs_Spec (role_Create w) ↔
     (asks_for w "logs" ∧
        ((pr_APIGroups rule = [""] ∧ pr_Resources rule = ["pods"] ∧ pr_Verbs rule = ["get"; "list"; "watch"])
         ∨ (pr_APIGroups rule = [""] ∧ pr_Resources rule = ["pods/log"] ∧ pr_Verbs rule = ["get"])
         ∨ (pr_APIGroups rule = ["apps"] ∧ pr_Resources rule = ["deployments"] ∧ pr_Verbs rule = ["get"; "list"; "watch"])))
     ∨ (asks_for w "events" ∧ pr_APIGroups rule = [""] ∧ pr_Resources rule = ["events"] ∧ pr_Verbs rule = ["get"; "list"; "watch"]))
  ∧ (∀ obj, rs_Spec (role_Update w obj) = rs_Spec (role_Create w))
  ∧ (∀ b spec, pod_spec w b = Ret spec →
       (ps_AutomountServiceAccountToken spec = true ↔ ∃ resource, asks_for w resource)
       ∧ ps_ServiceAccountName spec = if ps_AutomountServiceAccountToken spec then svc_Name (w_declared w) else "")
  ∧ rb_RoleRef (rs_Spec (roleBinding_Create w)) = MkRoleRef "rbac.authorization.k8s.io" "Role" (svc_Name (w_declared w))
  ∧ rb_Subjects (rs_Spec (roleBinding_Create w)) = [MkSubject "ServiceAccount" (svc_Name (w_declared w)) (LidNS (cd_Lid (w_deployment w)))].
Proof.
  assert (∀ rule, rule ∈ rs_Spec (role_Create w) ↔
     ("logs" ∈ getPermissions w ∧ rule ∈ logsResourceMapping.2 "logs" PermissionTypeRead)
     ∨ ("events" ∈ getPermissions w ∧ rule ∈ eventsResourceMapping.2 "events" PermissionTypeRead)) as Hrules.
  { intros rule. cbn [rs_Spec role_Create]. unfold buildPolicyRules, getPermissions.
    destruct (getWorkloadPermissions w) as [[[|x l]]|]; cbn [HasAny negb wp_Read GenerateRules]; [set_solver| |set_solver].
    rewrite rules_for_elem. split.
    - intros (res & g & Hl & _ & Hg & Hx). revert Hg. unfold NewPolicyRuleRegistry, Register. rewrite lookup_insert_Some.
      intros [[<- <-]|[_ Hg]]; [by right|]. rewrite lookup_insert_Some in Hg. destruct Hg as [[<- <-]|[_ Hg]]; [by left|by rewrite lookup_empty in Hg].
    - intros [[Hl Hx]|[Hl Hx]]; [exists "logs", logsResourceMapping.2|exists "events", eventsResourceMapping.2]; (split_and!; [done|set_solver|done|done]). }
  setoid_rewrite asks_for_iff. split_and!; [|done| |done|done].
  - intros rule. rewrite Hrules. cbn [logsResourceMapping eventsResourceMapping snd]. rewrite !elem_of_cons, !elem_of_nil.
    destruct rule as [groups resources verbs]. cbn [pr_APIGroups pr_Resources pr_Verbs]. naive_solver.
  - intros b spec. unfold pod_spec. rewrite obind_ret. intros (c & _ & Hs). rewrite obind_ret in Hs. destruct Hs as (vs & _ & [= <-]). cbn.
    unfold automountServiceAccountToken, serviceAccountName, hasPermissions, getPermissions. destruct (getWorkloadPermissions w) as [[[|x l]]|]; cbn; (split; [|done]);
      [split; [done|by intros (? & ?%elem_of_nil)]|split; [intros _; exists x; left|done]|split; [done|by intros (? & ?%elem_of_nil)]].
Qed.

(** ** Services *)

(** The port an exposed port becomes at its place. *)
Definition port_at (i : N) (e : ServiceExpose) (p : SvcPort) : Prop :=
  vp_Name p = Itoa i +:+ "-" +:+ FormatUint (GetExternalPort e) ∧ kube_protocol (se_Proto e) = Some (vp_Protocol p)
  ∧ vp_Port p = i32 (GetExternalPort e) ∧ vp_TargetPort p = IntVal (i32 (se_Port e)) ∧ vp_NodePort p = 0%Z.

Lemma service_ports_ok np i l seen ps :
  service_ports np i l seen = Ok ps →
  (∀ e, e ∈ l → port_included np e = true → is_Some (kube_protocol (se_Proto e))
     ∧ (GetExternalPort e ∈ seen ∨ ∃ p, p ∈ ps ∧ vp_Port p = i32 (GetExternalPort e)))
  ∧ (∀ p, p ∈ ps → ∃ n e, l !! n = Some e ∧ port_included np e = true ∧ GetExternalPort e ∉ seen ∧ port_at (i + N.of_nat n) e p)
  ∧ ((∀ e, e ∈ l → (0 ≤ GetExternalPort e < 2 ^ 31)%Z) → NoDup (vp_Port <$> ps)).
Proof.
  revert i seen ps. induction l as [|e l IH]; intros i seen ps; cbn [service_ports].
  { intros [= <-]. split_and!; [by intros e ?%elem_of_nil|by intros p ?%elem_of_nil|constructor]. }
  assert (∀ p seen', (∃ n e', l !! n = Some e' ∧ port_included np e' = true ∧ GetExternalPort e' ∉ seen' ∧ port_at (i + 1 + N.of_nat n) e' p) → seen ⊆ seen' →
    ∃ n e', (e :: l) !! n = Some e' ∧ port_included np e' = true ∧ GetExternalPort e' ∉ seen ∧ port_at (i + N.of_nat n) e' p) as Hshift.
  { intros p seen' (n & e' & ? & ? & ? & Hp) Hsub. exists (S n), e'. split_and!; [done|done|set_solver|].
    by replace (i + N.of_nat (S n))%N with (i + 1 + N.of_nat n)%N by lia. }
  destruct (port_included np e) eqn:Einc.
  - destruct (kube_protocol (se_Proto e)) as [protocol|] eqn:Epro; [|done]. case_bool_decide as Hin.
    + intros Hrun. destruct (IH _ _ _ Hrun) as (H1' & H2' & H3'). split_and!.
      * intros e' [->|He']%elem_of_cons Hi; [rewrite Epro; split; [done|by left]|by apply H1'].
      * intros p Hp. by apply (Hshift p seen); [apply H2'|].
      * intros Hr. apply H3'. intros e' He'. apply Hr. by right.
    + rewrite rbind_ok. intros (ps' & Hrun & [= <-]). destruct (IH _ _ _ Hrun) as (H1' & H2' & H3'). split_and!.
      * intros e' [->|He']%elem_of_cons Hi; [rewrite Epro; split; [done|]; right; eexists; split; [left|done]|].
        destruct (H1' e' He' Hi) as [? [Hs|(p & Hp & E)]]; (split; [done|]).
        -- rewrite elem_of_union, elem_of_singleton in Hs. destruct Hs as [->|]; [right; eexists; split; [left|done]|by left].
        -- right. exists p. split; [by right|done].
      * intros p [->|Hp]%elem_of_cons; [exists 0%nat, e; split_and!; [done|done|done|]; by rewrite N.add_0_r|].
        apply (Hshift p ({[GetExternalPort e]} ∪ seen)); [by apply H2'|set_solver].
      * intros Hr. cbn. constructor.
        -- rewrite list_elem_of_fmap. intros (p & E & Hp). destruct (H2' p Hp) as (n & e' & Hn & _ & Hns & (_ & _ & E' & _)).
           apply Hns, elem_of_union. left. apply elem_of_singleton. cbn in E. rewrite E' in E. apply list_elem_of_lookup_2 in Hn.
           pose proof (Hr e ltac:(left)) as R1. pose proof (Hr e' ltac:(by right)) as R2. revert E. unfold i32. rewrite !u32_id by lia. repeat case_decide; lia.
        -- apply H3'. intros e' He'. apply Hr. by right.
  - intros Hrun. destruct (IH _ _ _ Hrun) as (H1' & H2' & H3'). split_and!.
    + intros e' [->|He']%elem_of_cons Hi; [congruence|by apply H1'].
    + intros p Hp. by apply (Hshift p seen); [apply H2'|].
    + intros Hr. apply H3'. intros e' He'. apply Hr. by right.
Qed.

Lemma service_ports_err np i l seen e : service_ports np i l seen = Err e → e = errUnsupportedProtocol ∧ ∃ x, x ∈ l ∧ port_included np x = true ∧ kube_protocol (se_Proto x) = None.
Proof.
  revert i seen. induction l as [|x l IH]; intros i seen; cbn [service_ports]; [done|].
  assert ((∃ y, y ∈ l ∧ port_included np y = true ∧ kube_protocol (se_Proto y) = None) → ∃ y, y ∈ x :: l ∧ port_included np y = true ∧ kube_protocol (se_Proto y) = None) as Hup.
  { intros (y & ? & ? & ?). exists y. split_and!; [by right|done|done]. }
  destruct (port_included np x) eqn:Ei; [|intros [??]%IH; auto].
  destruct (kube_protocol (se_Proto x)) eqn:Ep; [|intros [= <-]; split; [done|]; exists x; split_and!; [left|done|done]].
  case_bool_decide; [intros [??]%IH; auto|]. destruct (service_ports np (i + 1) l _) eqn:Es; cbn; [done|]. intros [= ->]. apply IH in Es as [??]. auto.
Qed.

Lemma any_included w np : service_Any w np = true ↔ ∃ e, e ∈ svc_Expose (w_declared w) ∧ port_included np e = true.
Proof.
  unfold service_Any. rewrite existsb_exists. setoid_rewrite <- list_elem_of_In.
  split; intros (e & He & Hb); exists e; (split; [done|]); revert Hb; unfold port_included; destruct np, (IsIngress e), (se_Global e); done.
Qed.

Lemma retain_spec curs p :
  (∃ c, c ∈ curs ∧ same_port c p = true ∧ retain_port curs p = c) ∨ ((∀ c, c ∈ curs → same_port c p = false) ∧ retain_port curs p = p).
Proof.
  unfold retain_port. assert (∀ kept, (∃ c, c ∈ curs ∧ same_port c p = true ∧ foldl (λ kept c, if same_port c p then c else kept) kept curs = c)
    ∨ ((∀ c, c ∈ curs → same_port c p = false) ∧ foldl (λ kept c, if same_port c p then c else kept) kept curs = kept)) as Hg; [|apply Hg].
  induction curs as [|c curs IH]; intros kept; cbn; [right; split; [by intros c ?%elem_of_nil|done]|].
  destruct (same_port c p) eqn:E.
  - destruct (IH c) as [(c' & ? & ? & ?)|[? Heq]]; left; [exists c'; split_and!; [by right|done|done]|exists c; split_and!; [left|done|done]].
  - destruct (IH kept) as [(c' & ? & ? & ?)|[Hn Heq]]; [left; exists c'; split_and!; [by right|done|done]|right; split; [|done]].
    intros c' [->|?]%elem_of_cons; auto.
Qed.

(** The two services of a workload open what it exposes: a service
    that is applied ([Any]) has ports unless a protocol is not supported; each
    of its ports is an exposed one, targets its container port and speaks its
    protocol; each external port that is exposed is open, and once; and an
    update keeps the port of the nodes that was assigned to an unchanged port. *)
Theorem service_opens_exposed (w : Workload) (np : bool) :
  (∀ err, service_Any w np = true → ports w np = Err err →
     err = errUnsupportedProtocol ∧ ∃ e, e ∈ svc_Expose (w_declared w) ∧ port_included np e = true ∧ kube_protocol (se_Proto e) = None)
  ∧ (∀ ps, ports w np = Ok ps →
      (∀ p, p ∈ ps → ∃ i e, svc_Expose (w_declared w) !! i = Some e ∧ port_included np e = true ∧ port_at (N.of_nat i) e p)
      ∧ (∀ e, e ∈ svc_Expose (w_declared w) → port_included np e = true → ∃ p, p ∈ ps ∧ vp_Port p = i32 (GetExternalPort e))
      ∧ ((∀ e, e ∈ svc_Expose (w_declared w) → (0 ≤ GetExternalPort e < 2 ^ 31)%Z) → NoDup (vp_Port <$> ps)))
  ∧ (∀ obj o, np = true → service_Update w np obj = Ok o → ∃ ps, ports w np = Ok ps
      ∧ Forall2 (λ p q, (q ∈ vs_Ports (rs_Spec obj) ∧ same_port q p = true) ∨ ((∀ c, c ∈ vs_Ports (rs_Spec obj) → same_port c p = false) ∧ q = p)) ps (vs_Ports (rs_Spec o))).
Proof.
  split_and!.
  - intros err Hany. unfold ports. destruct (service_ports np 0 (svc_Expose (w_declared w)) ∅) as [l|e] eqn:E; cbn; [|intros [= <-]; by apply service_ports_err in E].
    destruct l as [|p l]; [|done]. intros _. apply any_included in Hany as (e & He & Hi).
    destruct (service_ports_ok _ _ _ _ _ E) as (H1' & _). destruct (H1' e He Hi) as [_ [Hs|(p & Hp & _)]]; [set_solver|by apply elem_of_nil in Hp].
  - intros ps. unfold ports. rewrite rbind_ok. intros (l & E & Hl). assert (l = ps) as -> by (destruct l; congruence).
    destruct (service_ports_ok _ _ _ _ _ E) as (H1' & H2' & H3'). split_and!; [| |done].
    + intros p Hp. destruct (H2' p Hp) as (n & e & ? & ? & _ & ?). by exists n, e.
    + intros e He Hi. destruct (H1' e He Hi) as [_ [Hs|Hp]]; [set_solver|done].
  - intros obj o -> Hu. unfold service_Update in Hu. rewrite rbind_ok in Hu. destruct Hu as (ps & E & [= <-]). exists ps. split; [done|]. cbn.
    clear E. induction ps as [|p ps IH]; cbn; constructor; [|done]. destruct (retain_spec (vs_Ports (rs_Spec obj)) p) as [(c & ? & ? & ->)|[? ->]]; auto.
Qed.

End proofs.
