(* ===== verification/NetPol.v ===== *)
(** * Network policies of a lease

    [cluster/kube/builder/netpol.go]: the policies that isolate the namespace of
    a tenant and open what its manifest exposes.  What a set of policies allows
    is defined after the documentation of Kubernetes: a pod is isolated in a
    direction as soon as a policy of its namespace selects it for that
    direction, and then exactly the connections that some rule of some such
    policy allows are possible. *)
From Stdlib Require Import Ascii String.
From S2P Require Import Prelude GoStrings ChainTypes ClusterTypes LeaseNames CrdManifest HostRoutes MetalLb KubeDeclare.
From S2P Require Import ManifestManager KubeObjects.

Open Scope string_scope.

(** ** Policies *)

(** [None] is a nil selector; a selector is matched by labels that contain it. *)
Record IPBlock := MkIPBlock { ib_CIDR : string; ib_Except : list string }.
Record Peer := MkPeer { np_PodSelector : option label_map; np_NamespaceSelector : option label_map; np_IPBlock : option IPBlock }.
Record PolicyPort := MkPolicyPort { pp_Protocol : string; pp_Port : int_or_string }.
(** A rule of ingress (from) or of egress (to). *)
Record PolicyRules := MkRules { ru_Peers : list Peer; ru_Ports : list PolicyPort }.
Inductive PolicyType := PolicyTypeIngress | PolicyTypeEgress.
Record PolicySpec := MkPolicySpec {
  po_PodSelector : label_map; po_PolicyTypes : list PolicyType; po_Ingress : list PolicyRules; po_Egress : list PolicyRules }.

#[export] Instance IPBlock_eq_dec : EqDecision IPBlock.
Proof. solve_decision. Defined.
#[export] Instance Peer_eq_dec : EqDecision Peer.
Proof. solve_decision. Defined.
#[export] Instance PolicyPort_eq_dec : EqDecision PolicyPort.
Proof. solve_decision. Defined.
#[export] Instance PolicyRules_eq_dec : EqDecision PolicyRules.
Proof. solve_decision. Defined.
#[export] Instance PolicyType_eq_dec : EqDecision PolicyType.
Proof. solve_decision. Defined.
#[export] Instance PolicySpec_eq_dec : EqDecision PolicySpec.
Proof. solve_decision. Defined.

(** A policy with its name and namespace. *)
Record NetworkPolicy := MkPolicy { n_Name : string; n_Namespace : string; n_Labels : label_map; n_Spec : PolicySpec }.

(** ** The builder *)

Definition akashDeploymentPolicyName : string := "akash-deployment-restrictions".
Definition ingressLabelName : string := "app.kubernetes.io/name".
Definition ingressLabelValue : string := "ingress-nginx".
Definition metadataName : string := "kubernetes.io/metadata.name".

Definition namespace_peer (labels : label_map) : Peer := MkPeer None (Some labels) None.
Definition block_peer (cidr : string) (except : list string) : Peer := MkPeer None None (Some (MkIPBlock cidr except)).

(** [hostCIDR]. *)
Definition hostCIDR (ip : IP) : string :=
  match ip with IPv4 _ _ _ _ => IP_String ip +:+ "/32" | IPv6 _ => IP_String ip +:+ "/128" end.

Section netpol.
Context `{GoUnicode} `{Cosmos} `{Protocols} `{!KubeProtocols} `{!ManifestSdk} `{KubeSdk}.

Definition serviceHasReadPermissions (service : Service) : bool :=
  match svc_Params service with
  | Some p => match par_Permissions p with Some (_ :: _) => true | _ => false end
  | None => false
  end.

Definition ingress_rules (s : Settings) (d : ClusterDeployment) : list PolicyRules :=
  ([MkRules [namespace_peer {[akashNetworkNamespace := LidNS (cd_Lid d)]}] [];
    MkRules [MkPeer (Some {[ingressLabelName := ingressLabelValue]}) (Some {[ingressLabelName := ingressLabelValue]}) None] [];
    MkRules [] [MkPolicyPort "TCP" (FromInt 8790)]]
   ++ match s_IngressMode s with
      | IngressModeGateway =>
          if negb (s_GatewayNamespace s =? "") then [MkRules [namespace_peer {[metadataName := s_GatewayNamespace s]}] []] else []
      | _ => []
      end)%list.

Definition egress_rules (d : ClusterDeployment) : list PolicyRules :=
  [MkRules [namespace_peer {[akashNetworkNamespace := LidNS (cd_Lid d)]}] [];
   MkRules [MkPeer (Some {["k8s-app" := "kube-dns"]}) (Some {[metadataName := "kube-system"]}) None]
     [MkPolicyPort "UDP" (FromInt 53); MkPolicyPort "TCP" (FromInt 53)];
   MkRules [block_peer "0.0.0.0/0" ["10.0.0.0/8"; "192.168.0.0/16"; "172.16.0.0/12"]] []].

Definition np_policy (d : ClusterDeployment) (name : string) (spec : PolicySpec) : NetworkPolicy :=
  MkPolicy name (LidNS (cd_Lid d)) (builder_labels d) spec.

Definition restrictions (s : Settings) (d : ClusterDeployment) : NetworkPolicy :=
  np_policy d akashDeploymentPolicyName (MkPolicySpec ∅ [PolicyTypeIngress; PolicyTypeEgress] (ingress_rules s d) (egress_rules d)).

(** The protocol of the entry is empty when it is neither. *)
Definition port_entry (e : ServiceExpose) : PolicyPort :=
  MkPolicyPort (default "" (kube_protocol (se_Proto e))) (FromInt (se_Port e)).

(** Ports that are opened for a leased IP, and those that are opened directly. *)
Definition has_ip (e : ServiceExpose) : bool := negb (se_IP e =? "").
Definition opened (e : ServiceExpose) : bool := se_Global e && negb (IsIngress e).

Definition service_selector (name : string) : label_map := {[AkashManifestServiceLabelName := name]}.

(** The loop over the endpoints of the API server: each address once more, each
    port once. *)
Fixpoint api_ports (seen : gset Z) (l : list TCPAddr) : list PolicyPort :=
  match l with
  | [] => []
  | ep :: l =>
      let p := i32 (ta_Port ep) in
      if bool_decide (p ∈ seen) then api_ports seen l else MkPolicyPort "TCP" (IntVal p) :: api_ports ({[p]} ∪ seen) l
  end.

(** The policies of one service. *)
Definition service_policies (s : Settings) (d : ClusterDeployment) (service : Service) : list NetworkPolicy :=
  let name := svc_Name service in
  let ports := port_entry <$> List.filter opened (svc_Expose service) in
  let portsWithIP := port_entry <$> List.filter has_ip (svc_Expose service) in
  ((match ports with
    | [] => []
    | _ => [np_policy d ("akash-" +:+ name +:+ "-np") (MkPolicySpec (service_selector name) [PolicyTypeIngress] [MkRules [] ports] [])]
    end)
   ++ (match portsWithIP with
       | [] => []
       | _ => [np_policy d ("akash-" +:+ name +:+ "-ip") (MkPolicySpec (service_selector name) [PolicyTypeIngress] [MkRules [block_peer "0.0.0.0/0" []] portsWithIP] [])]
       end)
   ++ (match s_APIServerEndpoints s with
       | [] => []
       | endpoints =>
           if serviceHasReadPermissions service
           then [np_policy d ("akash-apiserver-" +:+ name)
                   (MkPolicySpec (service_selector name) [PolicyTypeEgress] [] [MkRules ((λ ep, block_peer (hostCIDR (ta_IP ep)) []) <$> endpoints) (api_ports ∅ endpoints)])]
           else []
       end))%list.

Definition netPol_Create (s : Settings) (d : ClusterDeployment) : list NetworkPolicy :=
  if negb (s_NetworkPoliciesEnabled s) then []
  else restrictions s d :: (g_Services (cd_Group d) ≫= service_policies s d).

(** The copy of a policy, with the labels of the provider. *)
Definition netPol_Update (d : ClusterDeployment) (obj : NetworkPolicy) : NetworkPolicy :=
  MkPolicy (n_Name obj) (n_Namespace obj) (updateAkashLabels (n_Labels obj) (builder_labels d)) (n_Spec obj).

End netpol.

(** ** What policies allow *)

(** An endpoint of a connection: a pod with its labels, its namespace and the
    labels of that, or nothing of the cluster; and its address. *)
Record pod := MkPod { pd_Labels : label_map; pd_Namespace : string; pd_NamespaceLabels : label_map }.
Record party := MkParty { pa_Pod : option pod; pa_IP : IP }.

(** Blocks of addresses: a text in dotted notation with a prefix length. *)
Definition byte_value (s : string) : option Z :=
  match ParseUint s with (n, None) => if (n <? 256)%Z then Some n else None | _ => None end.
Definition ip_value (a b c d : Z) : Z := (((a * 256 + b) * 256 + c) * 256 + d)%Z.

Definition parse_dotted (s : string) : option Z :=
  match Split s "." with
  | [a; b; c; d] => a ← byte_value a; b ← byte_value b; c ← byte_value c; d ← byte_value d; Some (ip_value a b c d)
  | _ => None
  end.

Definition cidr_contains (cidr : string) (ip : IP) : bool :=
  match Split cidr "/" with
  | [net; len] =>
      match ip with
      | IPv4 a b c d =>
          match parse_dotted net, byte_value len with
          | Some n, Some k => (k <=? 32)%Z && (n / 2 ^ (32 - k) =? ip_value a b c d / 2 ^ (32 - k))%Z
          | _, _ => false
          end
      | IPv6 t => (net =? t) && (len =? "128")
      end
  | _ => false
  end.

Definition block_contains (b : IPBlock) (ip : IP) : bool := cidr_contains (ib_CIDR b) ip && negb (existsb (λ x, cidr_contains x ip) (ib_Except b)).

(** Whether a party is a peer of a policy in a namespace. *)
Definition peer_matches (ns : string) (p : Peer) (x : party) : bool :=
  match np_IPBlock p with
  | Some b => block_contains b (pa_IP x)
  | None =>
      match pa_Pod x with
      | None => false
      | Some pd =>
          match np_NamespaceSelector p with
          | Some sel => bool_decide (sel ⊆ pd_NamespaceLabels pd)
          | None => pd_Namespace pd =? ns
          end
          && match np_PodSelector p with Some sel => bool_decide (sel ⊆ pd_Labels pd) | None => true end
      end
  end.

Definition port_matches (p : PolicyPort) (protocol : string) (port : Z) : bool := (pp_Protocol p =? protocol) && bool_decide (pp_Port p = IntVal port).

Definition rule_allows (ns : string) (r : PolicyRules) (x : party) (protocol : string) (port : Z) : bool :=
  match ru_Peers r with [] => true | l => existsb (λ p, peer_matches ns p x) l end
  && match ru_Ports r with [] => true | l => existsb (λ p, port_matches p protocol port) l end.

Definition rules_of (t : PolicyType) (s : PolicySpec) : list PolicyRules := match t with PolicyTypeIngress => po_Ingress s | PolicyTypeEgress => po_Egress s end.

(** The policies that isolate a pod in a direction. *)
Definition isolating (t : PolicyType) (policies : list NetworkPolicy) (x : pod) : list NetworkPolicy :=
  List.filter (λ p, (n_Namespace p =? pd_Namespace x) && bool_decide (po_PodSelector (n_Spec p) ⊆ pd_Labels x) && bool_decide (t ∈ po_PolicyTypes (n_Spec p))) policies.

(** A connection of a pod with a party at a protocol and a port, coming in or
    going out. *)
Definition allowed (t : PolicyType) (policies : list NetworkPolicy) (x : pod) (y : party) (protocol : string) (port : Z) : bool :=
  match isolating t policies x with
  | [] => true
  | l => existsb (λ p, existsb (λ r, rule_allows (n_Namespace p) r y protocol port) (rules_of t (n_Spec p))) l
  end.
