(* ===== verification/NetPolSound.v ===== *)
(** * Tenants are isolated

    What the policies of a lease allow, as an equivalence for either
    direction. *)
From Stdlib Require Import Ascii String.
From S2P Require Import Prelude GoStrings ChainTypes ClusterTypes LeaseNames CrdManifest HostRoutes MetalLb KubeDeclare.
From S2P Require Import ManifestManager KubeObjects Workload NetPol.

Open Scope string_scope.

(** ** Addresses *)

Definition byte (z : Z) : Prop := (0 ≤ z < 256)%Z.

(** Addresses as Go holds them: bytes, or a text without a slash. *)
Definition ip_ok (ip : IP) : Prop :=
  match ip with
  | IPv4 a b c d => byte a ∧ byte b ∧ byte c ∧ byte d
  | IPv6 t => str_forall (λ c, negb (c =? "/")%char) t = true
  end.

Lemma ip_value_range a b c d : byte a → byte b → byte c → byte d → (0 ≤ ip_value a b c d < 2 ^ 32)%Z.
Proof. unfold byte, ip_value. lia. Qed.

Lemma ip_value_inj a b c d a' b' c' d' :
  byte a → byte b → byte c → byte d → byte a' → byte b' → byte c' → byte d' →
  ip_value a b c d = ip_value a' b' c' d' → a = a' ∧ b = b' ∧ c = c' ∧ d = d'.
Proof. unfold byte, ip_value. lia. Qed.

Lemma byte_value_text z : byte z → byte_value (FormatUint z) = Some z.
Proof. intros Hz. unfold byte_value. rewrite ParseUint_FormatUint by (unfold byte in Hz; lia). by rewrite (proj2 (Z.ltb_lt _ _)) by apply Hz. Qed.

Lemma digits_without sep s : is_digit sep = false → str_forall is_digit s = true → str_forall (λ c, negb (c =? sep)%char) s = true.
Proof.
  intros Hsep. apply str_forall_impl. intros c Hc. destruct (Ascii.eqb_spec c sep) as [->|]; [congruence|done].
Qed.

Lemma dotted_without a b c d : str_forall (λ x, negb (x =? "/")%char) (dotted a b c d) = true.
Proof.
  unfold dotted. rewrite !str_forall_app. cbn [str_forall]. unfold FormatUint.
  by rewrite !(digits_without "/") by (done || apply Itoa_digits).
Qed.

Lemma parse_dotted_text a b c d : byte a → byte b → byte c → byte d → parse_dotted (dotted a b c d) = Some (ip_value a b c d).
Proof.
  intros. unfold parse_dotted, Split, dotted. unfold FormatUint at 1 2 3 4.
  assert (∀ n, str_forall (λ x, negb (x =? ".")%char) (Itoa n) = true) as Hn by (intros n; apply digits_without; [done|apply Itoa_digits]).
  assert (∀ x, "." +:+ x = String "." x) as Hdot by done. rewrite !Hdot, !(split_sep "." (Itoa _)) by apply Hn. rewrite split_no_sep by apply Hn. cbn [str_rev str_rev_app].
  rewrite !str_app_nil_l. fold (FormatUint a) (FormatUint b) (FormatUint c) (FormatUint d). by rewrite !byte_value_text.
Qed.

(** A block of a single host contains that host. *)
Lemma hostCIDR_contains ip ip' : ip_ok ip → ip_ok ip' → cidr_contains (hostCIDR ip) ip' = true ↔ ip = ip'.
Proof.
  intros Hip Hip'. unfold cidr_contains, hostCIDR, Split. destruct ip as [a b c d|t]; cbn [IP_String].
  - rewrite split_sep by apply dotted_without. cbn [split_go]. cbn -[cidr_contains dotted].
    destruct ip' as [a' b' c' d'|t']; [|split; [|done]].
    + destruct Hip as (?&?&?&?), Hip' as (?&?&?&?). rewrite ?str_app_nil_l, parse_dotted_text by done.
      change (byte_value "32") with (Some 32%Z). cbn. rewrite !Z.div_1_r, Z.eqb_eq. split; [|by intros [= -> -> -> ->]].
      intros E. by destruct (ip_value_inj a b c d a' b' c' d') as (-> & -> & -> & ->).
    + rewrite andb_false_r. done.
  - rewrite split_sep by done. cbn. destruct ip' as [a' b' c' d'|t'].
    + destruct (parse_dotted _); [|done]. by change (byte_value "128") with (Some 128%Z).
    + rewrite andb_true_r, String.eqb_eq, ?str_app_nil_l. split; [by intros ->|by intros [= ->]].
Qed.

(** Any IPv4 address is in the block of all. *)
Lemma all_contains ip : ip_ok ip → cidr_contains "0.0.0.0/0" ip = match ip with IPv4 _ _ _ _ => true | IPv6 _ => false end.
Proof.
  destruct ip as [a b c d|t]; intros Hip; [|change (cidr_contains "0.0.0.0/0" (IPv6 t)) with (("0.0.0.0" =? t) && false); by rewrite andb_false_r].
  destruct Hip as (?&?&?&?). change (cidr_contains "0.0.0.0/0" (IPv4 a b c d)) with ((0 <=? 32)%Z && (0 / 2 ^ 32 =? ip_value a b c d / 2 ^ 32)%Z).
  pose proof (ip_value_range a b c d) as Hr. rewrite (Z.div_small (ip_value a b c d)) by (apply Hr; done). done.
Qed.

(** The blocks that are set aside for private networks. *)
Definition private (ip : IP) : Prop :=
  match ip with IPv4 a b _ _ => a = 10%Z ∨ (a = 192%Z ∧ b = 168%Z) ∨ (a = 172%Z ∧ (16 ≤ b < 32)%Z) | IPv6 _ => False end.

Lemma except_contains ip : ip_ok ip →
  existsb (λ x, cidr_contains x ip) ["10.0.0.0/8"; "192.168.0.0/16"; "172.16.0.0/12"] = true ↔ private ip.
Proof.
  destruct ip as [a b c d|t]; intros Hip; cbn [existsb].
  - destruct Hip as (?&?&?&?).
    change (cidr_contains "10.0.0.0/8" (IPv4 a b c d)) with (10 =? ip_value a b c d / 2 ^ 24)%Z.
    change (cidr_contains "192.168.0.0/16" (IPv4 a b c d)) with (49320 =? ip_value a b c d / 2 ^ 16)%Z.
    change (cidr_contains "172.16.0.0/12" (IPv4 a b c d)) with (2753 =? ip_value a b c d / 2 ^ 20)%Z.
    rewrite orb_false_r, !orb_true_iff, !Z.eqb_eq. unfold ip_value, byte, private in *.
    rewrite (Z.mul_comm _ 256). 
    assert (ip_value a b c d / 2 ^ 24 = a)%Z as E1 by (unfold ip_value; symmetry; apply (Z.div_unique _ _ _ (b * 65536 + c * 256 + d)); lia).
    assert (ip_value a b c d / 2 ^ 16 = a * 256 + b)%Z as E2 by (unfold ip_value; symmetry; apply (Z.div_unique _ _ _ (c * 256 + d)); lia).
    assert (ip_value a b c d / 2 ^ 20 = a * 16 + b / 16)%Z as E3.
    { unfold ip_value. symmetry. pose proof (Z.div_mod b 16) as Eb. pose proof (Z.mod_pos_bound b 16) as Hb.
      apply (Z.div_unique _ _ _ ((b mod 16) * 65536 + c * 256 + d)); lia. }
    unfold ip_value in E1, E2, E3. rewrite (Z.mul_comm _ 256) in E1, E2, E3. rewrite E1, E2, E3.
    pose proof (Z.div_mod b 16) as Eb. pose proof (Z.mod_pos_bound b 16) as Hb. pose proof (Z.div_pos b 16) as Hd. lia.
  - change (cidr_contains "10.0.0.0/8" (IPv6 t)) with (("10.0.0.0" =? t) && false).
    change (cidr_contains "192.168.0.0/16" (IPv6 t)) with (("192.168.0.0" =? t) && false).
    change (cidr_contains "172.16.0.0/12" (IPv6 t)) with (("172.16.0.0" =? t) && false). by rewrite !andb_false_r.
Qed.

(** ** Connections *)

Lemma allowed_iff t policies x y protocol port :
  isolating t policies x ≠ [] →
  allowed t policies x y protocol port = true ↔
  ∃ p r, p ∈ policies ∧ n_Namespace p = pd_Namespace x ∧ po_PodSelector (n_Spec p) ⊆ pd_Labels x ∧ t ∈ po_PolicyTypes (n_Spec p)
    ∧ r ∈ rules_of t (n_Spec p) ∧ rule_allows (n_Namespace p) r y protocol port = true.
Proof.
  intros Hne. unfold allowed. destruct (isolating t policies x) as [|p0 l] eqn:E; [done|]. rewrite <- E. clear Hne E.
  rewrite existsb_exists. split.
  - intros (p & Hp & Hr). apply existsb_exists in Hr as (r & Hr & Ha). apply filter_In in Hp as [Hp Hs].
    apply andb_true_iff in Hs as [[Hn Hs]%andb_true_iff Ht]. apply String.eqb_eq in Hn. apply bool_decide_eq_true in Hs, Ht.
    exists p, r. split_and!; [by apply list_elem_of_In|done|done|done|by apply list_elem_of_In|done].
  - intros (p & r & Hp & Hn & Hs & Ht & Hr & Ha). exists p. split.
    + apply filter_In. split; [by apply list_elem_of_In|]. rewrite !andb_true_iff, String.eqb_eq, !bool_decide_eq_true. done.
    + apply existsb_exists. exists r. split; [by apply list_elem_of_In|done].
Qed.

Lemma singleton_sub (m : label_map) k v : ({[k := v]} : label_map) ⊆ m ↔ m !! k = Some v.
Proof. apply map_singleton_subseteq_l. Qed.

Lemma namespace_peer_matches ns k v y :
  peer_matches ns (namespace_peer {[k := v]}) y = true ↔ ∃ pd, pa_Pod y = Some pd ∧ pd_NamespaceLabels pd !! k = Some v.
Proof.
  unfold peer_matches, namespace_peer. cbn. destruct (pa_Pod y) as [pd|]; [|naive_solver].
  rewrite andb_true_r, bool_decide_eq_true, singleton_sub. naive_solver.
Qed.

Lemma pod_peer_matches ns k v k' v' y :
  peer_matches ns (MkPeer (Some {[k := v]}) (Some {[k' := v']}) None) y = true ↔
  ∃ pd, pa_Pod y = Some pd ∧ pd_Labels pd !! k = Some v ∧ pd_NamespaceLabels pd !! k' = Some v'.
Proof.
  unfold peer_matches. cbn. destruct (pa_Pod y) as [pd|]; [|naive_solver].
  rewrite andb_true_iff, !bool_decide_eq_true, !singleton_sub. naive_solver.
Qed.

Lemma rule_one_peer ns p y protocol port : rule_allows ns (MkRules [p] []) y protocol port = peer_matches ns p y.
Proof. unfold rule_allows. cbn. by rewrite orb_false_r, andb_true_r. Qed.

Lemma FromInt_small z port : (0 ≤ z < 2 ^ 31)%Z → (FromInt z = IntVal port ↔ port = z).
Proof. intros Hz. unfold FromInt, i32. rewrite u32_id by lia. case_decide; [|lia]. naive_solver. Qed.

Section proofs.
Context `{GoUnicode} `{Cosmos} `{Protocols} `{!KubeProtocols} `{!ManifestSdk} `{KubeSdk}.

Lemma create_elem s d p :
  s_NetworkPoliciesEnabled s = true →
  p ∈ netPol_Create s d ↔ p = restrictions s d ∨ ∃ svc, svc ∈ g_Services (cd_Group d) ∧ p ∈ service_policies s d svc.
Proof.
  intros He. unfold netPol_Create. rewrite He. cbn [negb]. rewrite elem_of_cons, list_elem_of_bind. naive_solver.
Qed.

Lemma service_policies_elem s d svc p :
  p ∈ service_policies s d svc ↔
  (p = np_policy d ("akash-" +:+ svc_Name svc +:+ "-np") (MkPolicySpec (service_selector (svc_Name svc)) [PolicyTypeIngress] [MkRules [] (port_entry <$> List.filter opened (svc_Expose svc))] [])
     ∧ List.filter opened (svc_Expose svc) ≠ [])
  ∨ (p = np_policy d ("akash-" +:+ svc_Name svc +:+ "-ip") (MkPolicySpec (service_selector (svc_Name svc)) [PolicyTypeIngress] [MkRules [block_peer "0.0.0.0/0" []] (port_entry <$> List.filter has_ip (svc_Expose svc))] [])
     ∧ List.filter has_ip (svc_Expose svc) ≠ [])
  ∨ (p = np_policy d ("akash-apiserver-" +:+ svc_Name svc) (MkPolicySpec (service_selector (svc_Name svc)) [PolicyTypeEgress] [] [MkRules ((λ ep, block_peer (hostCIDR (ta_IP ep)) []) <$> s_APIServerEndpoints s) (api_ports ∅ (s_APIServerEndpoints s))])
     ∧ s_APIServerEndpoints s ≠ [] ∧ serviceHasReadPermissions svc = true).
Proof.
  unfold service_policies. rewrite !elem_of_app.
  assert (∀ (P Q R P' Q' R' : Prop), (P ↔ P') → (Q ↔ Q') → (R ↔ R') → (P ∨ Q ∨ R ↔ P' ∨ Q' ∨ R')) as Hor by tauto. apply Hor; clear Hor.
  - destruct (List.filter opened (svc_Expose svc)); cbn -[np_policy]; [split; [by intros ?%elem_of_nil|naive_solver]|rewrite list_elem_of_singleton; naive_solver].
  - destruct (List.filter has_ip (svc_Expose svc)); cbn -[np_policy]; [split; [by intros ?%elem_of_nil|naive_solver]|rewrite list_elem_of_singleton; naive_solver].
  - destruct (s_APIServerEndpoints s); [split; [by intros ?%elem_of_nil|naive_solver]|].
    destruct (serviceHasReadPermissions svc); [rewrite list_elem_of_singleton; naive_solver|split; [by intros ?%elem_of_nil|naive_solver]].
Qed.

(** The policy of the namespace isolates every pod in it. *)
Lemma isolated t s d x :
  s_NetworkPoliciesEnabled s = true → pd_Namespace x = LidNS (cd_Lid d) → isolating t (netPol_Create s d) x ≠ [].
Proof.
  intros He Hx. unfold netPol_Create. rewrite He. cbn [negb isolating List.filter]. unfold restrictions at 1 2 3. cbn [n_Namespace np_policy n_Spec po_PodSelector po_PolicyTypes].
  rewrite Hx, String.eqb_refl, (bool_decide_eq_true_2 (∅ ⊆ _)) by apply map_empty_subseteq. rewrite bool_decide_eq_true_2 by (destruct t; set_solver). done.
Qed.

Definition protocol_ok (protocol : string) : Prop := protocol = "TCP" ∨ protocol = "UDP".

(** The ports of a list of exposed ports. *)
Lemma ports_match (f : ServiceExpose → bool) l protocol port :
  protocol_ok protocol →
  existsb (λ p, port_matches p protocol port) (port_entry <$> List.filter f l) = true ↔
  ∃ e, e ∈ l ∧ f e = true ∧ kube_protocol (se_Proto e) = Some protocol ∧ i32 (se_Port e) = port.
Proof.
  intros Hp. rewrite existsb_exists. setoid_rewrite <- list_elem_of_In. setoid_rewrite list_elem_of_fmap. split.
  - intros (p & (e & -> & He) & Hm). apply list_elem_of_In, filter_In in He as [He Hf]. apply list_elem_of_In in He.
    unfold port_matches in Hm. apply andb_true_iff in Hm as [H1'%String.eqb_eq H2'%bool_decide_eq_true].
    exists e. split_and!; [done|done| |by injection H2'].
    cbn in H1'. destruct (kube_protocol (se_Proto e)); cbn in H1'; [by rewrite H1'|]. by destruct Hp as [-> | ->].
  - intros (e & He & Hf & Hpr & Hpo). exists (port_entry e). split; [exists e; split; [done|]; apply list_elem_of_In, filter_In; split; [by apply list_elem_of_In|done]|].
    unfold port_matches, port_entry, FromInt. cbn. rewrite Hpr, Hpo. cbn. by rewrite String.eqb_refl, bool_decide_eq_true_2.
Qed.

Lemma nonempty_filter {A} (f : A → bool) l e : e ∈ l → f e = true → List.filter f l ≠ [].
Proof. intros He Hf E. assert (e ∈ List.filter f l) as Hin by (apply list_elem_of_In, filter_In; split; [by apply list_elem_of_In|done]). rewrite E in Hin. by apply elem_of_nil in Hin. Qed.

Lemma rule_peers_ports ns peers ports y protocol port :
  ports ≠ [] →
  rule_allows ns (MkRules peers ports) y protocol port
  = match peers with [] => true | _ => existsb (λ p, peer_matches ns p y) peers end && existsb (λ p, port_matches p protocol port) ports.
Proof. unfold rule_allows. cbn [ru_Peers ru_Ports]. by destruct peers, ports. Qed.

Lemma entries_nonempty (l : list ServiceExpose) : l ≠ [] → port_entry <$> l ≠ [].
Proof. by destruct l. Qed.

Lemma opened_iff e : opened e = true ↔ se_Global e = true ∧ IsIngress e = false.
Proof. unfold opened. by rewrite andb_true_iff, negb_true_iff. Qed.
Lemma has_ip_iff e : has_ip e = true ↔ se_IP e ≠ "".
Proof. unfold has_ip. rewrite negb_true_iff. apply String.eqb_neq. Qed.

Lemma ingress_allowed (s : Settings) (d : ClusterDeployment) (x : pod) (y : party) (protocol : string) (port : Z)
  (Henabled : s_NetworkPoliciesEnabled s = true) (Hx : pd_Namespace x = LidNS (cd_Lid d)) (Hy : ip_ok (pa_IP y)) (Hprotocol : protocol_ok protocol) :
  allowed PolicyTypeIngress (netPol_Create s d) x y protocol port = true ↔
    (∃ pd, pa_Pod y = Some pd ∧ pd_NamespaceLabels pd !! akashNetworkNamespace = Some (LidNS (cd_Lid d)))
    ∨ (∃ pd, pa_Pod y = Some pd ∧ pd_Labels pd !! ingressLabelName = Some ingressLabelValue ∧ pd_NamespaceLabels pd !! ingressLabelName = Some ingressLabelValue)
    ∨ (s_IngressMode s = IngressModeGateway ∧ s_GatewayNamespace s ≠ "" ∧ ∃ pd, pa_Pod y = Some pd ∧ pd_NamespaceLabels pd !! metadataName = Some (s_GatewayNamespace s))
    ∨ (protocol = "TCP" ∧ port = 8790%Z)
    ∨ ∃ svc e, svc ∈ g_Services (cd_Group d) ∧ pd_Labels x !! AkashManifestServiceLabelName = Some (svc_Name svc) ∧ e ∈ svc_Expose svc
        ∧ kube_protocol (se_Proto e) = Some protocol ∧ i32 (se_Port e) = port
        ∧ (opened e = true ∨ (has_ip e = true ∧ match pa_IP y with IPv4 _ _ _ _ => True | IPv6 _ => False end)).
Proof.
  rewrite allowed_iff by by apply isolated. split.
  - intros (p & r & Hp & Hn & Hs & Ht & Hr & Ha). apply create_elem in Hp as [->|(svc & Hsvc & Hp)]; [| |done].
    + cbn -[ingress_rules] in Hr. unfold ingress_rules in Hr. rewrite elem_of_app in Hr. destruct Hr as [Hr|Hr].
      * repeat (apply elem_of_cons in Hr as [->|Hr]; [|]); [| | |by apply elem_of_nil in Hr].
        -- rewrite rule_one_peer, namespace_peer_matches in Ha. by left.
        -- rewrite rule_one_peer, pod_peer_matches in Ha. right; by left.
        -- unfold rule_allows in Ha. cbn [ru_Peers ru_Ports existsb andb] in Ha. rewrite orb_false_r in Ha. unfold port_matches in Ha. cbn [pp_Protocol pp_Port] in Ha.
           apply andb_true_iff in Ha as [E1%String.eqb_eq E2%bool_decide_eq_true]. apply FromInt_small in E2; [|lia]. do 3 right. left. done.
      * destruct (s_IngressMode s); [by apply elem_of_nil in Hr| |by apply elem_of_nil in Hr].
        destruct (String.eqb_spec (s_GatewayNamespace s) "") as [|Hg]; [by apply elem_of_nil in Hr|]. apply list_elem_of_singleton in Hr as ->.
        rewrite rule_one_peer, namespace_peer_matches in Ha. do 2 right. left. done.
    + do 4 right. apply service_policies_elem in Hp as [[-> Hf]|[[-> Hf]|[-> _]]]; [| |by apply list_elem_of_singleton in Ht].
      * apply list_elem_of_singleton in Hr as ->. apply singleton_sub in Hs. rewrite rule_peers_ports in Ha by by apply entries_nonempty. cbn [andb] in Ha. apply ports_match in Ha as (e & ? & ? & ? & ?); [|done].
        exists svc, e. auto 10.
      * apply list_elem_of_singleton in Hr as ->. apply singleton_sub in Hs. rewrite rule_peers_ports in Ha by by apply entries_nonempty.
        apply andb_true_iff in Ha as [Hb Ha]. cbn [existsb] in Hb. rewrite orb_false_r in Hb. unfold peer_matches, block_contains in Hb. cbn -[cidr_contains] in Hb. rewrite all_contains, andb_true_r in Hb by done.
        apply ports_match in Ha as (e & ? & ? & ? & ?); [|done].
        exists svc, e. split_and!; [done..|]. right. split; [done|]. by destruct (pa_IP y).
  - assert (∀ r, r ∈ ingress_rules s d → rule_allows (LidNS (cd_Lid d)) r y protocol port = true →
      ∃ p r, p ∈ netPol_Create s d ∧ n_Namespace p = pd_Namespace x ∧ po_PodSelector (n_Spec p) ⊆ pd_Labels x
        ∧ PolicyTypeIngress ∈ po_PolicyTypes (n_Spec p) ∧ r ∈ rules_of PolicyTypeIngress (n_Spec p) ∧ rule_allows (n_Namespace p) r y protocol port = true) as Hmain.
    { intros r Hr Ha. exists (restrictions s d), r. split_and!; [apply create_elem; [done|by left]|done|apply map_empty_subseteq|left|done|done]. }
    intros [Hc|[Hc|[(Hm & Hg & Hc)|[[-> ->]|(svc & e & Hsvc & Hl & He & Hpr & Hpo & Hc)]]]].
    + apply (Hmain (MkRules [namespace_peer {[akashNetworkNamespace := LidNS (cd_Lid d)]}] [])); [left|]. by rewrite rule_one_peer, namespace_peer_matches.
    + apply (Hmain (MkRules [MkPeer (Some {[ingressLabelName := ingressLabelValue]}) (Some {[ingressLabelName := ingressLabelValue]}) None] [])); [right; left|]. by rewrite rule_one_peer, pod_peer_matches.
    + apply (Hmain (MkRules [namespace_peer {[metadataName := s_GatewayNamespace s]}] [])).
      * unfold ingress_rules. apply elem_of_app. right. rewrite Hm. destruct (String.eqb_spec (s_GatewayNamespace s) ""); [done|]. left.
      * by rewrite rule_one_peer, namespace_peer_matches.
    + by apply (Hmain (MkRules [] [MkPolicyPort "TCP" (FromInt 8790)])); [right; right; left|].
    + destruct Hc as [Ho|[Hi Hip]].
      * eexists (np_policy d _ _), _. split_and!; [apply create_elem; [done|]; right; exists svc; split; [done|]; apply service_policies_elem; left; split; [done|by eapply nonempty_filter]| | | | |];
          [done|by apply singleton_sub|left|left|]. rewrite rule_peers_ports by (apply entries_nonempty; by eapply nonempty_filter). cbn [andb]. apply ports_match; [done|]. by exists e.
      * eexists (np_policy d _ _), _. split_and!; [apply create_elem; [done|]; right; exists svc; split; [done|]; apply service_policies_elem; right; left; split; [done|by eapply nonempty_filter]| | | | |];
          [done|by apply singleton_sub|left|left|]. rewrite rule_peers_ports by (apply entries_nonempty; by eapply nonempty_filter).
        apply andb_true_iff. split; [cbn [existsb]; unfold peer_matches, block_contains; cbn -[cidr_contains]; rewrite all_contains by done; by destruct (pa_IP y)|]. apply ports_match; [done|]. by exists e.
Qed.

(** Claim C5.  Connections into the namespace of a lease, when policies are
    enabled: a party reaches a pod of the lease exactly if it is a pod of a
    namespace labelled with this lease, or the ingress controller, or in
    gateway mode a pod of the gateway's namespace, or the port is the one of the
    attestation sidecar, or the pod's service exposes the port globally and not
    by ingress, or exposes it at a leased IP and the party has an IPv4 address. *)
Theorem ingress_isolated (s : Settings) (d : ClusterDeployment) (x : pod) (y : party) (protocol : string) (port : Z)
  (Henabled : s_NetworkPoliciesEnabled s = true) (Hx : pd_Namespace x = LidNS (cd_Lid d)) (Hy : ip_ok (pa_IP y)) (Hprotocol : protocol_ok protocol) :
  allowed PolicyTypeIngress (netPol_Create s d) x y protocol port = true ↔
    (∃ pd, pa_Pod y = Some pd ∧ pd_NamespaceLabels pd !! akashNetworkNamespace = Some (LidNS (cd_Lid d)))
    ∨ (∃ pd, pa_Pod y = Some pd ∧ pd_Labels pd !! ingressLabelName = Some ingressLabelValue ∧ pd_NamespaceLabels pd !! ingressLabelName = Some ingressLabelValue)
    ∨ (s_IngressMode s = IngressModeGateway ∧ s_GatewayNamespace s ≠ "" ∧ ∃ pd, pa_Pod y = Some pd ∧ pd_NamespaceLabels pd !! metadataName = Some (s_GatewayNamespace s))
    ∨ (protocol = "TCP" ∧ port = 8790%Z)
    ∨ ∃ svc e, svc ∈ g_Services (cd_Group d) ∧ pd_Labels x !! AkashManifestServiceLabelName = Some (svc_Name svc) ∧ e ∈ svc_Expose svc
        ∧ kube_protocol (se_Proto e) = Some protocol ∧ i32 (se_Port e) = port
        ∧ ((se_Global e = true ∧ IsIngress e = false) ∨ (se_IP e ≠ "" ∧ match pa_IP y with IPv4 _ _ _ _ => True | IPv6 _ => False end)).
Proof. setoid_rewrite <- opened_iff. setoid_rewrite <- has_ip_iff. by apply ingress_allowed. Qed.

Lemma api_ports_match seen l protocol port :
  existsb (λ p, port_matches p protocol port) (api_ports seen l) = true ↔
  protocol = "TCP" ∧ ∃ ep, ep ∈ l ∧ i32 (ta_Port ep) = port ∧ port ∉ seen.
Proof.
  revert seen. induction l as [|ep l IH]; intros seen; cbn [api_ports]; [split; [done|by intros (_ & ep & ?%elem_of_nil & _)]|].
  case_bool_decide as Hin.
  - rewrite IH. split; intros (-> & ep' & He & Hp & Hs); (split; [done|]); [exists ep'; split_and!; [by right|done|done]|].
    apply elem_of_cons in He as [->|He]; [by subst|]. by exists ep'.
  - cbn [existsb]. rewrite orb_true_iff, IH. unfold port_matches at 1. cbn [pp_Protocol pp_Port]. rewrite andb_true_iff, String.eqb_eq, bool_decide_eq_true. split.
    + intros [[<- [= <-]]|(-> & ep' & He & Hp & Hs)]; (split; [done|]); [exists ep; split_and!; [left|done|done]|]. exists ep'. split_and!; [by right|done|set_solver].
    + intros (-> & ep' & He & Hp & Hs). destruct (decide (i32 (ta_Port ep) = port)) as [->|Hne]; [by left|]. right. split; [done|].
      apply elem_of_cons in He as [->|He]; [done|]. exists ep'. split_and!; [done|done|set_solver].
Qed.

Lemma api_ports_nonempty ep l : api_ports ∅ (ep :: l) ≠ [].
Proof. cbn. by rewrite bool_decide_eq_false_2 by set_solver. Qed.

Lemma block_matches ns cidr except y : peer_matches ns (block_peer cidr except) y = cidr_contains cidr (pa_IP y) && negb (existsb (λ x, cidr_contains x (pa_IP y)) except).
Proof. done. Qed.

(** A service that asks for permissions. *)
Definition asks_to_read (svc : Service) : Prop := ∃ p l, svc_Params svc = Some p ∧ par_Permissions p = Some l ∧ l ≠ [].
Lemma asks_to_read_iff svc : serviceHasReadPermissions svc = true ↔ asks_to_read svc.
Proof.
  unfold serviceHasReadPermissions, asks_to_read. split.
  - destruct (svc_Params svc) as [p|]; [|done]. destruct (par_Permissions p) as [[|x l]|] eqn:E; [done| |done]. intros _. by exists p, (x :: l).
  - intros (p & l & -> & -> & Hl). by destruct l.
Qed.

Lemma egress_allowed (s : Settings) (d : ClusterDeployment) (x : pod) (y : party) (protocol : string) (port : Z)
  (Henabled : s_NetworkPoliciesEnabled s = true) (Hx : pd_Namespace x = LidNS (cd_Lid d)) (Hy : ip_ok (pa_IP y)) (Hprotocol : protocol_ok protocol)
  (Hendpoints : Forall (λ ep, ip_ok (ta_IP ep)) (s_APIServerEndpoints s)) :
  allowed PolicyTypeEgress (netPol_Create s d) x y protocol port = true ↔
    (∃ pd, pa_Pod y = Some pd ∧ pd_NamespaceLabels pd !! akashNetworkNamespace = Some (LidNS (cd_Lid d)))
    ∨ (port = 53%Z ∧ ∃ pd, pa_Pod y = Some pd ∧ pd_Labels pd !! "k8s-app" = Some "kube-dns" ∧ pd_NamespaceLabels pd !! metadataName = Some "kube-system")
    ∨ (match pa_IP y with IPv4 _ _ _ _ => True | IPv6 _ => False end ∧ ¬ private (pa_IP y))
    ∨ ∃ svc ep, svc ∈ g_Services (cd_Group d) ∧ pd_Labels x !! AkashManifestServiceLabelName = Some (svc_Name svc) ∧ serviceHasReadPermissions svc = true
        ∧ ep ∈ s_APIServerEndpoints s ∧ pa_IP y = ta_IP ep ∧ protocol = "TCP" ∧ ∃ ep', ep' ∈ s_APIServerEndpoints s ∧ i32 (ta_Port ep') = port.
Proof.
  rewrite allowed_iff by by apply isolated. split.
  - intros (p & r & Hp & Hn & Hs & Ht & Hr & Ha). apply create_elem in Hp as [->|(svc & Hsvc & Hp)]; [| |done].
    + cbn -[egress_rules] in Hr. unfold egress_rules in Hr. repeat (apply elem_of_cons in Hr as [->|Hr]; [|]); [| | |by apply elem_of_nil in Hr].
      * rewrite rule_one_peer, namespace_peer_matches in Ha. by left.
      * rewrite rule_peers_ports in Ha by done. apply andb_true_iff in Ha as [Hb Ha]. cbn [existsb] in Hb, Ha. rewrite orb_false_r in Hb. rewrite pod_peer_matches in Hb.
        right; left. split; [|done]. unfold port_matches in Ha. cbn [pp_Protocol pp_Port] in Ha. rewrite orb_false_r in Ha.
        apply orb_true_iff in Ha as [Ha|Ha]; apply andb_true_iff in Ha as [_ E%bool_decide_eq_true]; by apply FromInt_small in E.
      * rewrite rule_one_peer, block_matches, all_contains in Ha by done. apply andb_true_iff in Ha as [Hb Ha]. do 2 right. left.
        split; [by destruct (pa_IP y)|]. intros Hpr. apply except_contains in Hpr; [|done]. by rewrite Hpr in Ha.
    + do 3 right. apply service_policies_elem in Hp as [[-> Hf]|[[-> Hf]|(-> & Hne & Hperm)]]; [by apply list_elem_of_singleton in Ht..|].
      apply list_elem_of_singleton in Hr as ->. apply singleton_sub in Hs.
      rewrite rule_peers_ports in Ha by (destruct (s_APIServerEndpoints s); [done|apply api_ports_nonempty]). apply andb_true_iff in Ha as [Hb Ha].
      apply api_ports_match in Ha as (-> & ep' & He' & Hp' & _).
      assert (existsb (λ p, peer_matches (n_Namespace (np_policy d ("akash-apiserver-" +:+ svc_Name svc) (MkPolicySpec ∅ [] [] []))) p y) ((λ ep, block_peer (hostCIDR (ta_IP ep)) []) <$> s_APIServerEndpoints s) = true) as Hb'
        by (destruct (s_APIServerEndpoints s); [done|exact Hb]).
      apply existsb_exists in Hb' as (q & Hq & Hm). apply list_elem_of_In, list_elem_of_fmap in Hq as (ep & -> & Hep).
      rewrite block_matches, andb_true_r in Hm. rewrite Forall_forall in Hendpoints. apply hostCIDR_contains in Hm; [|by apply Hendpoints|done].
      exists svc, ep. split_and!; [done..|]. by exists ep'.
  - assert (∀ r, r ∈ egress_rules d → rule_allows (LidNS (cd_Lid d)) r y protocol port = true →
      ∃ p r, p ∈ netPol_Create s d ∧ n_Namespace p = pd_Namespace x ∧ po_PodSelector (n_Spec p) ⊆ pd_Labels x
        ∧ PolicyTypeEgress ∈ po_PolicyTypes (n_Spec p) ∧ r ∈ rules_of PolicyTypeEgress (n_Spec p) ∧ rule_allows (n_Namespace p) r y protocol port = true) as Hmain.
    { intros r Hr Ha. exists (restrictions s d), r. split_and!; [apply create_elem; [done|by left]|done|apply map_empty_subseteq|right; left|done|done]. }
    intros [Hc|[[-> Hc]|[[Hip Hpr]|(svc & ep & Hsvc & Hl & Hperm & Hep & Hip & -> & ep' & Hep' & Hpo)]]].
    + apply (Hmain (MkRules [namespace_peer {[akashNetworkNamespace := LidNS (cd_Lid d)]}] [])); [left|]. by rewrite rule_one_peer, namespace_peer_matches.
    + eapply Hmain; [right; left|]. rewrite rule_peers_ports by done. apply andb_true_iff. split; [cbn [existsb]; rewrite orb_false_r; by apply pod_peer_matches|].
      by destruct Hprotocol as [-> | ->].
    + eapply Hmain; [right; right; left|]. rewrite rule_one_peer, block_matches, all_contains by done. destruct (pa_IP y) eqn:E; [|done]. cbn [andb].
      apply negb_true_iff, not_true_iff_false. rewrite except_contains by (by rewrite <- E in Hy |- * || done). done.
    + eexists (np_policy d _ _), _. split_and!; [apply create_elem; [done|]; right; exists svc; split; [done|]; apply service_policies_elem; do 2 right; split_and!; [done| |done]| | | | |];
        [intros E; rewrite E in Hep; by apply elem_of_nil in Hep|done|by apply singleton_sub|left|left|].
      rewrite rule_peers_ports by (destruct (s_APIServerEndpoints s); [by apply elem_of_nil in Hep|apply api_ports_nonempty]). apply andb_true_iff. split.
      * destruct (s_APIServerEndpoints s) as [|e0 eps] eqn:Eeps; [by apply elem_of_nil in Hep|]. rewrite <- Eeps in *. 
        assert (existsb (λ p, peer_matches (LidNS (cd_Lid d)) p y) ((λ ep, block_peer (hostCIDR (ta_IP ep)) []) <$> s_APIServerEndpoints s) = true) as Hb.
        { apply existsb_exists. exists (block_peer (hostCIDR (ta_IP ep)) []). split; [apply list_elem_of_In, list_elem_of_fmap; by exists ep|].
          rewrite block_matches, andb_true_r. rewrite Forall_forall in Hendpoints. apply hostCIDR_contains; [by apply Hendpoints|done|done]. }
        rewrite Eeps in *. exact Hb.
      * apply api_ports_match. split; [done|]. exists ep'. split_and!; [done|done|set_solver].
Qed.

(** The IPv4 addresses that are neither private nor public: this host, shared
    address space, loopback, link-local, protocol assignments, documentation,
    benchmarking, multicast and reserved. *)
Definition special (ip : IP) : Prop :=
  match ip with
  | IPv4 a b c _ =>
      a = 0%Z ∨ (a = 100%Z ∧ (64 ≤ b < 128)%Z) ∨ a = 127%Z ∨ (a = 169%Z ∧ b = 254%Z) ∨ (a = 192%Z ∧ b = 0%Z ∧ (c = 0 ∨ c = 2)%Z)
      ∨ (a = 198%Z ∧ (b = 18 ∨ b = 19)%Z) ∨ (a = 198%Z ∧ b = 51%Z ∧ c = 100%Z) ∨ (a = 203%Z ∧ b = 0%Z ∧ c = 113%Z) ∨ (224 ≤ a)%Z
  | IPv6 _ => False
  end.
Definition public (ip : IP) : Prop := match ip with IPv4 _ _ _ _ => ¬ private ip ∧ ¬ special ip | IPv6 _ => False end.

(** Where a pod of the lease may connect to inside the cluster: pods of the
    lease, the name server at its port, and, for the pods of a service that was
    given permissions, the API server. *)
Definition inside (s : Settings) (d : ClusterDeployment) (x : pod) (y : party) (protocol : string) (port : Z) : Prop :=
  (∃ pd, pa_Pod y = Some pd ∧ pd_NamespaceLabels pd !! akashNetworkNamespace = Some (LidNS (cd_Lid d)))
  ∨ (port = 53%Z ∧ ∃ pd, pa_Pod y = Some pd ∧ pd_Labels pd !! "k8s-app" = Some "kube-dns" ∧ pd_NamespaceLabels pd !! metadataName = Some "kube-system")
  ∨ ∃ svc ep, svc ∈ g_Services (cd_Group d) ∧ pd_Labels x !! AkashManifestServiceLabelName = Some (svc_Name svc) ∧ asks_to_read svc
      ∧ ep ∈ s_APIServerEndpoints s ∧ pa_IP y = ta_IP ep ∧ protocol = "TCP" ∧ ∃ ep', ep' ∈ s_APIServerEndpoints s ∧ i32 (ta_Port ep') = port.

(** Claim C22.  Connections out of the namespace of a lease, when policies are
    enabled.  A pod of the lease reaches the pods of a namespace labelled with
    this lease, the name server of the cluster at its port, every public IPv4
    address, and, if its service was given permissions, the endpoints of the
    API server at the port of one; it reaches no other IPv6 address and
    nothing else in the three private blocks.  (What of the IPv4 addresses that
    are neither public nor private is not settled here: the comment in the code
    wants them closed, and they are open.) *)
Theorem egress_isolated (s : Settings) (d : ClusterDeployment) (x : pod) (y : party) (protocol : string) (port : Z)
  (Henabled : s_NetworkPoliciesEnabled s = true) (Hx : pd_Namespace x = LidNS (cd_Lid d)) (Hy : ip_ok (pa_IP y)) (Hprotocol : protocol_ok protocol)
  (Hendpoints : Forall (λ ep, ip_ok (ta_IP ep)) (s_APIServerEndpoints s)) :
  let reached := allowed PolicyTypeEgress (netPol_Create s d) x y protocol port = true in
  (inside s d x y protocol port ∨ public (pa_IP y) → reached)
  ∧ (reached → inside s d x y protocol port ∨ public (pa_IP y) ∨ special (pa_IP y) ∧ ¬ private (pa_IP y)).
Proof.
  cbv zeta. pose proof (egress_allowed s d x y protocol port Henabled Hx Hy Hprotocol Hendpoints) as He. unfold inside. setoid_rewrite <- asks_to_read_iff. rewrite He. split.
  - intros [[?|[?|?]]|Hp]; [by left|by right; left|by do 3 right|]. do 2 right. left. unfold public in Hp. destruct (pa_IP y); [|done]. by destruct Hp.
  - intros [?|[?|[[Hv4 Hp]|?]]]; [by left; left|by left; right; left| |by left; right; right]. right. unfold public. destruct (pa_IP y) as [a b c e|t]; [|done].
    assert (special (IPv4 a b c e) ∨ ¬ special (IPv4 a b c e)) as [Hs|Hs]; [|by right|by left].
    unfold special. destruct (decide (a = 0 ∨ (a = 100 ∧ (64 ≤ b ∧ b < 128)) ∨ a = 127 ∨ (a = 169 ∧ b = 254) ∨ (a = 192 ∧ b = 0 ∧ (c = 0 ∨ c = 2))
      ∨ (a = 198 ∧ (b = 18 ∨ b = 19)) ∨ (a = 198 ∧ b = 51 ∧ c = 100) ∨ (a = 203 ∧ b = 0 ∧ c = 113) ∨ 224 ≤ a)%Z); [by left|by right].
Qed.

End proofs.
