(* ===== verification/KubeApi.v ===== *)
(** * The API server

    The objects of one lease as the Kubernetes API server holds them, and the
    requests of the client.  Each request may be answered with an error; the
    answers are a stream in the state, and a stream that has ended answers
    without error.  Objects have a version: an update that names another version
    than the current one is a conflict, an update that changes nothing keeps the
    version.  Deleting a namespace takes the namespace away; the objects in it are
    removed by the cluster afterwards, which no request of the client waits for
    and no theorem counts on: they stay in the state. *)
From Stdlib Require Import Ascii String.
From S2P Require Import Prelude GoStrings ChainTypes ClusterTypes LeaseNames CrdManifest HostRoutes MetalLb KubeDeclare.
From S2P Require Import ManifestManager KubeObjects Workload NetPol.

Open Scope string_scope.

(** An object with its version; a new object has none of its own. *)
Record object (A : Type) := MkObj { o_version : Z; o_res : resource A }.
Arguments MkObj {A}.
Arguments o_version {A}.
Arguments o_res {A}.

Notation store A := (gmap string (object A)).

(** ** Manifests *)

(** The manifest as it is stored: the scheduler parameters are values here. *)
Record ManifestSpec := MkManifestSpec { mf_LeaseID : CrdLeaseID; mf_Group : ManifestGroup; mf_Params : list (option SchedulerParams) }.

#[export] Instance CrdLeaseID_eq_dec : EqDecision CrdLeaseID.
Proof. solve_decision. Defined.
#[export] Instance ResourceCPU_eq_dec : EqDecision CrdManifest.ResourceCPU.
Proof. solve_decision. Defined.
#[export] Instance ResourceGPU_eq_dec : EqDecision ResourceGPU.
Proof. solve_decision. Defined.
#[export] Instance ResourceMemory_eq_dec : EqDecision CrdManifest.ResourceMemory.
Proof. solve_decision. Defined.
#[export] Instance ResourceVolume_eq_dec : EqDecision ResourceVolume.
Proof. solve_decision. Defined.
#[export] Instance CrdResources_eq_dec : EqDecision CrdResources.
Proof. solve_decision. Defined.
#[export] Instance CrdHTTPOptions_eq_dec : EqDecision CrdHTTPOptions.
Proof. solve_decision. Defined.
#[export] Instance ManifestServiceExpose_eq_dec : EqDecision ManifestServiceExpose.
Proof. solve_decision. Defined.
#[export] Instance StorageParams_eq_dec : EqDecision StorageParams.
Proof. solve_decision. Defined.
#[export] Instance ManifestServicePermissions_eq_dec : EqDecision ManifestServicePermissions.
Proof. solve_decision. Defined.
#[export] Instance ManifestServiceParams_eq_dec : EqDecision ManifestServiceParams.
Proof. solve_decision. Defined.
#[export] Instance ImageCredentials_eq_dec : EqDecision ImageCredentials.
Proof. solve_decision. Defined.
#[export] Instance ManifestService_eq_dec : EqDecision ManifestService.
Proof. solve_decision. Defined.
#[export] Instance ManifestGroup_eq_dec : EqDecision ManifestGroup.
Proof. solve_decision. Defined.
#[export] Instance ManifestSpec_eq_dec : EqDecision ManifestSpec.
Proof. solve_decision. Defined.

Definition with_params (sp : option nat) (s : ManifestService) : ManifestService :=
  MkCrdService (ms_Name s) (ms_Image s) (ms_Command s) (ms_Args s) (ms_Env s) (ms_Resources s) (ms_Count s) (ms_Expose s) (ms_Params s) sp
    (ms_Credentials s) (ms_InterconnectGroup s).

(** Written to the server: what the pointers point to. *)
Definition freeze (id : CrdLeaseID) (st : list SchedulerParams) (g : ManifestGroup) : ManifestSpec :=
  MkManifestSpec id (MkCrdGroup (mg_Name g) (with_params None <$> mg_Services g)) ((λ s, l ← ms_SchedulerParams s; st !! l) <$> mg_Services g).

(** Read from the server: fresh pointers. *)
Definition thaw (m : ManifestSpec) : ManifestGroup * list SchedulerParams :=
  (MkCrdGroup (mg_Name (mf_Group m)) (imap (λ i s, with_params (match mf_Params m !! i with Some (Some _) => Some i | _ => None end) s) (mg_Services (mf_Group m))),
   default SParams_zero <$> mf_Params m).

(** ** The objects of a lease *)

Record kube := MkKube {
  k_clock : Z; k_manifests : store ManifestSpec; k_namespaces : store unit; k_policies : store PolicySpec; k_accounts : store unit;
  k_roles : store (list PolicyRule); k_bindings : store RoleBindingSpec; k_secrets : store SecretSpec; k_stateful : store StatefulSetSpec;
  k_deployments : store DeploymentSpec; k_services : store ServiceSpec }.

(** A kind of object: where it is kept. *)
Record kind (A : Type) := MkKind { kd_get : kube → store A; kd_set : store A → kube → kube }.
Arguments MkKind {A}.
Arguments kd_get {A}.
Arguments kd_set {A}.

Definition tick (k : kube) : kube :=
  MkKube (k_clock k + 1) (k_manifests k) (k_namespaces k) (k_policies k) (k_accounts k) (k_roles k) (k_bindings k) (k_secrets k) (k_stateful k) (k_deployments k) (k_services k).
Definition Manifests : kind ManifestSpec := MkKind k_manifests (λ m k,
  MkKube (k_clock k) m (k_namespaces k) (k_policies k) (k_accounts k) (k_roles k) (k_bindings k) (k_secrets k) (k_stateful k) (k_deployments k) (k_services k)).
Definition Namespaces : kind unit := MkKind k_namespaces (λ m k,
  MkKube (k_clock k) (k_manifests k) m (k_policies k) (k_accounts k) (k_roles k) (k_bindings k) (k_secrets k) (k_stateful k) (k_deployments k) (k_services k)).
Definition NetworkPolicies : kind PolicySpec := MkKind k_policies (λ m k,
  MkKube (k_clock k) (k_manifests k) (k_namespaces k) m (k_accounts k) (k_roles k) (k_bindings k) (k_secrets k) (k_stateful k) (k_deployments k) (k_services k)).
Definition ServiceAccounts : kind unit := MkKind k_accounts (λ m k,
  MkKube (k_clock k) (k_manifests k) (k_namespaces k) (k_policies k) m (k_roles k) (k_bindings k) (k_secrets k) (k_stateful k) (k_deployments k) (k_services k)).
Definition Roles : kind (list PolicyRule) := MkKind k_roles (λ m k,
  MkKube (k_clock k) (k_manifests k) (k_namespaces k) (k_policies k) (k_accounts k) m (k_bindings k) (k_secrets k) (k_stateful k) (k_deployments k) (k_services k)).
Definition RoleBindings : kind RoleBindingSpec := MkKind k_bindings (λ m k,
  MkKube (k_clock k) (k_manifests k) (k_namespaces k) (k_policies k) (k_accounts k) (k_roles k) m (k_secrets k) (k_stateful k) (k_deployments k) (k_services k)).
Definition Secrets : kind SecretSpec := MkKind k_secrets (λ m k,
  MkKube (k_clock k) (k_manifests k) (k_namespaces k) (k_policies k) (k_accounts k) (k_roles k) (k_bindings k) m (k_stateful k) (k_deployments k) (k_services k)).
Definition StatefulSets : kind StatefulSetSpec := MkKind k_stateful (λ m k,
  MkKube (k_clock k) (k_manifests k) (k_namespaces k) (k_policies k) (k_accounts k) (k_roles k) (k_bindings k) (k_secrets k) m (k_deployments k) (k_services k)).
Definition Deployments : kind DeploymentSpec := MkKind k_deployments (λ m k,
  MkKube (k_clock k) (k_manifests k) (k_namespaces k) (k_policies k) (k_accounts k) (k_roles k) (k_bindings k) (k_secrets k) (k_stateful k) m (k_services k)).
Definition Services : kind ServiceSpec := MkKind k_services (λ m k,
  MkKube (k_clock k) (k_manifests k) (k_namespaces k) (k_policies k) (k_accounts k) (k_roles k) (k_bindings k) (k_secrets k) (k_stateful k) (k_deployments k) m).

(** ** Requests *)

Record server := MkServer { sv_kube : kube; sv_answers : list (option kerror) }.

(** A computation may change the server and may panic. *)
Definition M (A : Type) : Type := server → outcome A * server.
Definition kret {A} (a : A) : M A := λ s, (Ret a, s).
Definition kbind {A B} (c : M A) (f : A → M B) : M B :=
  λ s, match c s with (Ret a, s) => f a s | (Panic, s) => (Panic, s) end.
Definition of_outcome {A} (o : outcome A) : M A := λ s, (o, s).

Notation "'let%' x ':=' c 'in' k" := (kbind c (λ x, k)) (at level 10, x pattern, c at level 100, k at level 200) : go_scope.
Open Scope go_scope.

(** The answer to the next request: an error, or none. *)
Definition answer : M (option kerror) :=
  λ s, match sv_answers s with
    | [] => (Ret None, s)
    | a :: l => (Ret a, MkServer (sv_kube s) l)
    end.

Definition read {A} (f : kube → A) : M A := λ s, (Ret (f (sv_kube s)), s).
Definition write (f : kube → kube) : M unit := λ s, (Ret tt, MkServer (f (sv_kube s)) (sv_answers s)).

(** A request is answered with an error, or carried out. *)
Definition request {A} (act : M (result kerror A)) : M (result kerror A) :=
  let% e := answer in match e with Some e => kret (Err e) | None => act end.

(** The object is stored under a new version. *)
Definition put {A} (K : kind A) (name : string) (x : resource A) : M (result kerror (object A)) :=
  let% clock := read k_clock in
  let o := MkObj clock x in
  let% _ := write (λ k, tick (kd_set K (<[name := o]> (kd_get K k)) k)) in
  kret (Ok o).

Definition kc_get {A} (K : kind A) (name : string) : M (result kerror (object A)) :=
  request (let% st := read (kd_get K) in
    kret (match st !! name with Some o => Ok o | None => Err NotFound end)).

Definition kc_create {A} (K : kind A) (name : string) (x : resource A) : M (result kerror (object A)) :=
  request (let% st := read (kd_get K) in
    match st !! name with Some _ => kret (Err (OtherError "already exists")) | None => put K name x end).

(** [version]: that of the object, if it was read from the server. *)
Definition kc_update {A} `{EqDecision A} (K : kind A) (name : string) (version : option Z) (x : resource A) : M (result kerror (object A)) :=
  request (let% st := read (kd_get K) in
    match st !! name with
    | None => kret (Err NotFound)
    | Some o =>
        if bool_decide (version = None ∨ version = Some (o_version o))
        then if bool_decide (o_res o = x) then kret (Ok o) else put K name x
        else kret (Err Conflict)
    end).

Definition kc_delete {A} (K : kind A) (name : string) : M (result kerror unit) :=
  request (let% st := read (kd_get K) in
    match st !! name with
    | None => kret (Err NotFound)
    | Some _ => let% _ := write (λ k, kd_set K (delete name (kd_get K k)) k) in kret (Ok tt)
    end).

(** *** Label selectors with sets *)

Inductive requirement := ReqEquals (key value : string) | ReqNotIn (key : string) (values : list string).

(** A label that is missing is in no set. *)
Definition requirement_met (labels : label_map) (r : requirement) : bool :=
  match r with
  | ReqEquals k v => bool_decide (labels !! k = Some v)
  | ReqNotIn k vs => match labels !! k with Some v => bool_decide (v ∉ vs) | None => true end
  end.
Definition selected {A} (sel : list requirement) (p : string * object A) : bool := forallb (requirement_met (rs_Labels (o_res p.2))) sel.

Definition kc_list {A} `{MapOrder} (K : kind A) (sel : list requirement) : M (result kerror (list (string * object A))) :=
  request (let% st := read (kd_get K) in kret (Ok (List.filter (selected sel) (map_order _ (map_to_list st))))).

Definition kc_delete_collection {A} (K : kind A) (sel : list requirement) : M (result kerror unit) :=
  request (let% _ := write (λ k, kd_set K (filter (λ p, selected sel p = false) (kd_get K k)) k) in kret (Ok tt)).
