(* ===== verification/KubeApply.v ===== *)
(** * Applying the objects of a lease

    [cluster/kube/apply.go] and [cleanup.go]: each object is created, or updated
    when what the builder makes of it differs; then what the manifest no longer
    names is deleted. *)
From Stdlib Require Import Ascii String.
From S2P Require Import Prelude GoStrings ChainTypes ClusterTypes LeaseNames CrdManifest HostRoutes MetalLb KubeDeclare.
From S2P Require Import ManifestManager KubeObjects Workload NetPol KubeApi.

Open Scope string_scope.
Open Scope go_scope.

Inductive apply_error := ApiError (e : kerror) | BuildError (e : service_error) | LabelError.

(** New, updated and old object, and the error.  An object that was not found
    is empty in Go and [None] here. *)
Record applied (A : Type) := MkApplied { ap_new : option (object A); ap_updated : option (object A); ap_old : option (object A); ap_err : option apply_error }.
Arguments MkApplied {A}.
Arguments ap_new {A}.
Arguments ap_updated {A}.
Arguments ap_old {A}.
Arguments ap_err {A}.

(** What the functions share: [needed] compares the old object with the one
    the builder made of it. *)
Definition apply_object {A} `{EqDecision A} (K : kind A) (name : string) (create : outcome (result service_error (resource A)))
  (update : resource A → outcome (result service_error (resource A))) (needed : resource A → resource A → bool) : M (applied A) :=
  let% o := kc_get K name in
  match o with
  | Ok oobj =>
      let% u := of_outcome (update (o_res oobj)) in
      match u with
      | Err e => kret (MkApplied None None (Some oobj) (Some (BuildError e)))
      | Ok ures =>
          if needed (o_res oobj) ures then
            let% r := kc_update K name (Some (o_version oobj)) ures in
            kret (match r with
              | Ok uobj => MkApplied None (Some uobj) (Some oobj) None
              | Err e => MkApplied None None (Some oobj) (Some (ApiError e))
              end)
          else kret (MkApplied None (Some (MkObj (o_version oobj) ures)) (Some oobj) None)
      end
  | Err NotFound =>
      let% n := of_outcome create in
      match n with
      | Err e => kret (MkApplied None None None (Some (BuildError e)))
      | Ok nres =>
          let% r := kc_create K name nres in
          kret (match r with
            | Ok nobj => MkApplied (Some nobj) None None None
            | Err e => MkApplied None None None (Some (ApiError e))
            end)
      end
  | Err e => kret (MkApplied None None None (Some (ApiError e)))
  end.

Section apply.
Context `{GoUnicode} `{Cosmos} `{Protocols} `{!KubeProtocols} `{!ManifestSdk} `{KubeSdk} `{ChainSdk} `{MapOrder}.

Definition labels_differ {A} (u o : resource A) : bool := negb (bool_decide (rs_Labels u = rs_Labels o)).
Definition spec_differs {A} `{EqDecision A} (u o : resource A) : bool := negb (bool_decide (rs_Spec u = rs_Spec o)).

Definition applyNS (d : ClusterDeployment) : M (applied unit) :=
  apply_object Namespaces (LidNS (cd_Lid d)) (Ret (Ok (ns_Create d))) (λ obj, Ret (Ok (ns_Update d obj)))
    (λ o u, negb (IsObjectRevisionLatest d (rs_Labels o)) || spec_differs u o || labels_differ u o).

Definition applyServiceCredentials (w : Workload) (c : ImageCredentials) : M (applied SecretSpec) :=
  apply_object Secrets (credentials_Name w) (Ret (Ok (credentials_Create w c))) (λ obj, Ret (Ok (credentials_Update w c obj)))
    (λ o u, negb (IsObjectRevisionLatest (w_deployment w) (rs_Labels u)) || negb (bool_decide (sc_Data (rs_Spec u) = sc_Data (rs_Spec o))) || labels_differ u o).

Definition applyStatefulSet (w : Workload) : M (applied StatefulSetSpec) :=
  apply_object StatefulSets (workload_Name w) (let! r := statefulSet_Create w in Ret (Ok r)) (λ obj, let! r := statefulSet_Update w obj in Ret (Ok r))
    (λ o u, IsObjectRevisionLatest (w_deployment w) (rs_Labels u) || spec_differs u o || labels_differ u o).

Definition applyService (w : Workload) (requireNodePort : bool) : M (applied ServiceSpec) :=
  apply_object Services (service_Name w requireNodePort) (Ret (service_Create w requireNodePort)) (λ obj, Ret (service_Update w requireNodePort obj))
    (λ o u, IsObjectRevisionLatest (w_deployment w) (rs_Labels u) || spec_differs u o || labels_differ u o).

Definition applyServiceAccount (w : Workload) : M (applied unit) :=
  apply_object ServiceAccounts (workload_Name w) (Ret (Ok (serviceAccount_Create w))) (λ obj, Ret (Ok (serviceAccount_Update w obj)))
    (λ o u, negb (IsObjectRevisionLatest (w_deployment w) (rs_Labels u)) || labels_differ u o).

Definition applyRole (w : Workload) : M (applied (list PolicyRule)) :=
  apply_object Roles (workload_Name w) (Ret (Ok (role_Create w))) (λ obj, Ret (Ok (role_Update w obj)))
    (λ o u, negb (IsObjectRevisionLatest (w_deployment w) (rs_Labels u)) || spec_differs u o || labels_differ u o).

Definition applyRoleBinding (w : Workload) : M (applied RoleBindingSpec) :=
  apply_object RoleBindings (workload_Name w) (Ret (Ok (roleBinding_Create w))) (λ obj, Ret (Ok (roleBinding_Update w obj)))
    (λ o u, negb (IsObjectRevisionLatest (w_deployment w) (rs_Labels u)) || labels_differ u o).

(** *** Deployments *)

(** A JSON patch is applied to what is stored, whatever its version. *)
Definition kc_patch {A} `{EqDecision A} (K : kind A) (name : string) (f : resource A → resource A) : M (result kerror (object A)) :=
  request (let% st := read (kd_get K) in
    match st !! name with
    | None => kret (Err NotFound)
    | Some o => if bool_decide (o_res o = f (o_res o)) then kret (Ok o) else put K name (f (o_res o))
    end).

(** The patches: the history limit when it is not 10 already; the strategy in
    any case, since [DeepEqual] is asked to compare a pointer with a pointer to
    a pointer. *)
Definition patch_deployment (limit : bool) (r : resource DeploymentSpec) : resource DeploymentSpec :=
  let s := rs_Spec r in
  MkResource (rs_Labels r) (rs_Annotations r)
    (MkDeploymentSpec (ds_Selector s) (Some new_strategy) (if limit then Some 10%Z else ds_RevisionHistoryLimit s) (ds_Replicas s) (ds_Template s)).

(** The error of the update is replaced by that of the patch, and the old
    object by the patched one. *)
Definition applyDeployment (w : Workload) : M (applied DeploymentSpec) :=
  let name := workload_Name w in
  let% o := kc_get Deployments name in
  match o with
  | Ok oobj =>
      let% ures := of_outcome (deployment_Update w (o_res oobj)) in
      let% uobj :=
        (if IsObjectRevisionLatest (w_deployment w) (rs_Labels ures) || spec_differs ures (o_res oobj) || labels_differ ures (o_res oobj) then
           let% r := kc_update Deployments name (Some (o_version oobj)) ures in
           kret (match r with Ok uobj => Some uobj | Err _ => None end)
         else kret (Some (MkObj (o_version oobj) ures))) in
      let limit := negb (bool_decide (ds_RevisionHistoryLimit (rs_Spec (o_res oobj)) = Some 10%Z)) in
      let% p := kc_patch Deployments name (patch_deployment limit) in
      kret (match p with
        | Ok patched => MkApplied None uobj (Some patched) None
        | Err e => MkApplied None uobj None (Some (ApiError e))
        end)
  | Err NotFound =>
      let% nres := of_outcome (deployment_Create w) in
      let% r := kc_create Deployments name nres in
      kret (match r with
        | Ok nobj => MkApplied (Some nobj) None None None
        | Err e => MkApplied None None None (Some (ApiError e))
        end)
  | Err e => kret (MkApplied None None None (Some (ApiError e)))
  end.

(** *** Network policies *)

Definition policy_resource (p : NetworkPolicy) : resource PolicySpec := MkResource (n_Labels p) ∅ (n_Spec p).

(** One policy: what was created or updated, or the error that ends the loop. *)
Definition apply_policy (d : ClusterDeployment) (pol : NetworkPolicy) : M (result kerror (option (string * object PolicySpec) * option (string * object PolicySpec))) :=
  let% o := kc_get NetworkPolicies (n_Name pol) in
  match o with
  | Ok oobj =>
      let u := netPol_Update d pol in
      if negb (IsObjectRevisionLatest d (n_Labels u)) || negb (bool_decide (n_Spec u = rs_Spec (o_res oobj)))
         || negb (bool_decide (n_Labels u = rs_Labels (o_res oobj))) then
        let% r := kc_update NetworkPolicies (n_Name pol) None (policy_resource pol) in
        kret (match r with Ok uobj => Ok (None, Some (n_Name pol, uobj)) | Err e => Err e end)
      else kret (Ok (None, None))
  | Err NotFound =>
      let% r := kc_create NetworkPolicies (n_Name pol) (policy_resource pol) in
      kret (match r with Ok nobj => Ok (Some (n_Name pol, nobj), None) | Err e => Err e end)
  | Err e => kret (Err e)
  end.

Fixpoint apply_policies (d : ClusterDeployment) (l : list NetworkPolicy) : M (list (string * object PolicySpec) * list (string * object PolicySpec)) :=
  match l with
  | [] => kret ([], [])
  | pol :: l =>
      let% r := apply_policy d pol in
      match r with
      | Err _ => kret ([], [])
      | Ok (n, u) => let% (ns, us) := apply_policies d l in kret ((option_list n ++ ns)%list, (option_list u ++ us)%list)
      end
  end.

(** The variable that is returned as the error is not the one the loop sets:
    an error in the loop ends it and is forgotten. *)
Definition applyNetPolicies (s : Settings) (d : ClusterDeployment)
  : M (list (string * object PolicySpec) * list (string * object PolicySpec) * list (string * object PolicySpec) * option apply_error) :=
  let policies := netPol_Create s d in
  let% currPolicies := kc_list NetworkPolicies [] in
  match currPolicies with
  | Err e => kret ([], [], [], Some (ApiError e))
  | Ok oobjs => let% (ns, us) := apply_policies d policies in kret (ns, us, oobjs, None)
  end.

(** *** What is stale *)

(** [labels.NewRequirement] with [selection.NotIn]. *)
Definition new_not_in (key : string) (values : list string) : option requirement :=
  if bool_decide (values ≠ []) && forallb (λ v, bool_decide (IsValidLabelValue v = [])) values then Some (ReqNotIn key values) else None.

(** Delete one object after the other until an error. *)
Fixpoint delete_each {A} (K : kind A) (l : list (string * object A)) : M (option apply_error) :=
  match l with
  | [] => kret None
  | (name, _) :: l =>
      let% r := kc_delete K name in
      match r with Ok _ => delete_each K l | Err e => kret (Some (ApiError e)) end
  end.

(** List what is selected and delete it. *)
Definition delete_listed {A} (K : kind A) (sel : list requirement) : M (option apply_error) :=
  let% l := kc_list K sel in
  match l with Err e => kret (Some (ApiError e)) | Ok l => delete_each K l end.

(** Go on unless there is an error. *)
Definition and_then (c k : M (option apply_error)) : M (option apply_error) :=
  let% e := c in match e with Some e => kret (Some e) | None => k end.

Definition delete_all {A} (K : kind A) (sel : list requirement) : M (option apply_error) :=
  let% r := kc_delete_collection K sel in kret (match r with Ok _ => None | Err e => Some (ApiError e) end).

Definition cleanupStaleRBACResources (servicesWithPermissions : list string) : M (option apply_error) :=
  match (match servicesWithPermissions with
         | [] => Some []
         | _ => (λ r, [r]) <$> new_not_in AkashManifestServiceLabelName servicesWithPermissions
         end) with
  | None => kret (Some LabelError)
  | Some sel =>
      let rbacSelector := (sel ++ [ReqEquals AkashManagedLabelName "true"])%list in
      and_then (delete_listed ServiceAccounts rbacSelector) (and_then (delete_listed Roles rbacSelector) (delete_listed RoleBindings rbacSelector))
  end.

Definition stale_selector (req1 : requirement) : list requirement := [req1; ReqEquals AkashServiceTarget "true"; ReqNotIn AkashManagedLabelName [AkashMetalLB]].

Definition cleanupStaleResources (group : Group) (servicesWithPermissions : list string) : M (option apply_error) :=
  match new_not_in AkashManifestServiceLabelName (svc_Name <$> g_Services group) with
  | None => kret (Some LabelError)
  | Some req1 =>
      let selector := stale_selector req1 in
      and_then (delete_all Deployments selector)
        (and_then (delete_all StatefulSets selector)
          (and_then (delete_listed Services selector) (cleanupStaleRBACResources servicesWithPermissions)))
  end.

End apply.
