(* ===== verification/KubeApplySound.v ===== *)
(** * What applying promises *)
From Stdlib Require Import Ascii String.
From S2P Require Import Prelude GoStrings ChainTypes ClusterTypes LeaseNames CrdManifest HostRoutes MetalLb KubeDeclare.
From S2P Require Import ManifestManager KubeObjects Workload WorkloadSound NetPol KubeApi KubeApply.

Open Scope string_scope.

(** ** Kinds *)

(** What is stored of a kind is what is read of it, and the clock is apart. *)
Class Kind {A} (K : kind A) : Prop := {
  kind_get : ∀ m k, kd_get K (kd_set K m k) = m;
  kind_tick : ∀ k, kd_get K (tick k) = kd_get K k;
  kind_clock : ∀ m k, k_clock (kd_set K m k) = k_clock k
}.
#[export] Instance Manifests_kind : Kind Manifests. Proof. by constructor. Qed.
#[export] Instance Namespaces_kind : Kind Namespaces. Proof. by constructor. Qed.
#[export] Instance NetworkPolicies_kind : Kind NetworkPolicies. Proof. by constructor. Qed.
#[export] Instance ServiceAccounts_kind : Kind ServiceAccounts. Proof. by constructor. Qed.
#[export] Instance Roles_kind : Kind Roles. Proof. by constructor. Qed.
#[export] Instance RoleBindings_kind : Kind RoleBindings. Proof. by constructor. Qed.
#[export] Instance Secrets_kind : Kind Secrets. Proof. by constructor. Qed.
#[export] Instance StatefulSets_kind : Kind StatefulSets. Proof. by constructor. Qed.
#[export] Instance Deployments_kind : Kind Deployments. Proof. by constructor. Qed.
#[export] Instance Services_kind : Kind Services. Proof. by constructor. Qed.

(** ** What a computation leaves alone *)

Definition keeps {X A} (f : kube → X) (c : M A) : Prop := ∀ s, f (sv_kube (c s).2) = f (sv_kube s).

Lemma keeps_ret {X A} (f : kube → X) (a : A) : keeps f (kret a).
Proof. done. Qed.
Lemma keeps_outcome {X A} (f : kube → X) (o : outcome A) : keeps f (of_outcome o).
Proof. done. Qed.
Lemma keeps_bind {X A B} (f : kube → X) (c : M A) (k : A → M B) : keeps f c → (∀ a, keeps f (k a)) → keeps f (kbind c k).
Proof.
  intros Hc Hk s. unfold kbind. specialize (Hc s). destruct (c s) as [[a|] s'] eqn:E; cbn in *; [|done]. rewrite Hk. done.
Qed.
Lemma keeps_answer {X} (f : kube → X) : keeps f answer.
Proof. intros s. unfold answer. by destruct (sv_answers s). Qed.
Lemma keeps_read {X A} (f : kube → X) (g : kube → A) : keeps f (read g).
Proof. done. Qed.
Lemma keeps_write {X} (f : kube → X) (g : kube → kube) : (∀ k, f (g k) = f k) → keeps f (write g).
Proof. intros Hg s. apply Hg. Qed.

(** Solves [keeps] of a computation that is built from these. *)
Ltac keep :=
  repeat first
    [ apply keeps_ret | apply keeps_outcome | apply keeps_answer | apply keeps_read
    | apply keeps_write; intros ?; done
    | apply keeps_bind; [|intros ?]
    | progress unfold request, put, kc_get, kc_create, kc_update, kc_delete, kc_list, kc_delete_collection, kc_patch, delete_all, delete_listed, and_then
    | case_match ].

Lemma keeps_delete_each {X A} (f : kube → X) (K : kind A) l : (∀ m k, f (kd_set K m k) = f k) → keeps f (delete_each K l).
Proof. intros Hf. induction l as [|[n o] l IH]; cbn; keep; try done. Qed.

(** ** Requests *)

(** A request that reads changes nothing but the answers. *)
Lemma get_run {A} (K : kind A) name s : (kc_get K name s).1 ≠ Panic ∧ sv_kube (kc_get K name s).2 = sv_kube s.
Proof. unfold kc_get, request, kbind, answer. destruct (sv_answers s) as [|[e|] l]; done. Qed.

Lemma get_ok {A} (K : kind A) name s o s' : kc_get K name s = (Ret (Ok o), s') → kd_get K (sv_kube s) !! name = Some o ∧ sv_kube s' = sv_kube s.
Proof.
  unfold kc_get, request, kbind, answer. destruct (sv_answers s) as [|[e|] l]; cbn; [| done |]; destruct (kd_get K (sv_kube s) !! name) eqn:E; intros [= <- <-]; done.
Qed.

Lemma get_err {A} (K : kind A) name s e s' : kc_get K name s = (Ret (Err e), s') → sv_kube s' = sv_kube s.
Proof. intros E. pose proof (get_run K name s) as [_ Hk]. by rewrite E in Hk. Qed.

Lemma put_run {A} (K : kind A) name x s :
  put K name x s = (Ret (Ok (MkObj (k_clock (sv_kube s)) x)),
    MkServer (tick (kd_set K (<[name := MkObj (k_clock (sv_kube s)) x]> (kd_get K (sv_kube s))) (sv_kube s))) (sv_answers s)).
Proof. done. Qed.

(** An update or creation that succeeded stored the object; one that failed
    changed nothing. *)
Lemma update_run {A} `{EqDecision A} (K : kind A) `{!Kind K} name v x s r s' :
  kc_update K name v x s = (r, s') →
  ∃ a, r = Ret a ∧ match a with
    | Err _ => sv_kube s' = sv_kube s
    | Ok o => o_res o = x ∧ is_Some (kd_get K (sv_kube s) !! name) ∧ kd_get K (sv_kube s') = <[name := o]> (kd_get K (sv_kube s))
    end.
Proof.
  assert (∀ s, ((let% st := read (kd_get K) in match st !! name with
      | None => kret (Err NotFound)
      | Some o => if bool_decide (v = None ∨ v = Some (o_version o)) then if bool_decide (o_res o = x) then kret (Ok o) else put K name x else kret (Err Conflict)
      end)%go : M (result kerror (object A))) s = (r, s') →
    ∃ a, r = Ret a ∧ match a with
      | Err _ => sv_kube s' = sv_kube s
      | Ok o => o_res o = x ∧ is_Some (kd_get K (sv_kube s) !! name) ∧ kd_get K (sv_kube s') = <[name := o]> (kd_get K (sv_kube s))
      end) as Hact.
  { clear s. intros s. unfold kbind, read. destruct (kd_get K (sv_kube s) !! name) as [o|] eqn:E; [|intros [= <- <-]; by eexists].
    case_bool_decide; [|intros [= <- <-]; by eexists]. case_bool_decide as Ex; [intros [= <- <-]|].
    - eexists. split; [done|]. cbn. rewrite insert_id by done. done.
    - rewrite put_run. intros [= <- <-]. eexists. split; [done|]. cbn. rewrite kind_tick, kind_get. by split_and!; [|eexists|]. }
  unfold kc_update, request. unfold kbind at 1. unfold answer. destruct (sv_answers s) as [|[e|] l]; [apply Hact|intros [= <- <-]; by eexists|].
  intros Hr. apply Hact in Hr. done.
Qed.

Lemma create_run {A} (K : kind A) `{!Kind K} name x s r s' :
  kc_create K name x s = (r, s') →
  ∃ a, r = Ret a ∧ match a with
    | Err _ => sv_kube s' = sv_kube s
    | Ok o => o_res o = x ∧ kd_get K (sv_kube s) !! name = None ∧ kd_get K (sv_kube s') = <[name := o]> (kd_get K (sv_kube s))
    end.
Proof.
  assert (∀ s, ((let% st := read (kd_get K) in match st !! name with Some _ => kret (Err (OtherError "already exists")) | None => put K name x end)%go
      : M (result kerror (object A))) s = (r, s') →
    ∃ a, r = Ret a ∧ match a with
      | Err _ => sv_kube s' = sv_kube s
      | Ok o => o_res o = x ∧ kd_get K (sv_kube s) !! name = None ∧ kd_get K (sv_kube s') = <[name := o]> (kd_get K (sv_kube s))
      end) as Hact.
  { clear s. intros s. unfold kbind, read. destruct (kd_get K (sv_kube s) !! name) as [o|] eqn:E; [intros [= <- <-]; by eexists|].
    rewrite put_run. intros [= <- <-]. eexists. split; [done|]. cbn. by rewrite kind_tick, kind_get. }
  unfold kc_create, request. unfold kbind at 1. unfold answer. destruct (sv_answers s) as [|[e|] l]; [apply Hact|intros [= <- <-]; by eexists|].
  intros Hr. apply Hact in Hr. done.
Qed.

(** ** Applying one object *)

(** What an application leaves under the name. *)
Definition applied_as {A} (create : outcome (result service_error (resource A))) (update : resource A → outcome (result service_error (resource A)))
  (needed : resource A → resource A → bool) (old : option (object A)) (new : object A) : Prop :=
  match old with
  | None => create = Ret (Ok (o_res new))
  | Some o => ∃ u, update (o_res o) = Ret (Ok u) ∧ o_res new = if needed (o_res o) u then u else o_res o
  end.

Lemma apply_object_run {A} `{EqDecision A} (K : kind A) `{!Kind K} name create update needed s r s' :
  apply_object K name create update needed s = (Ret r, s') →
  match ap_err r with
  | Some _ => sv_kube s' = sv_kube s
  | None => ∃ new, kd_get K (sv_kube s') = <[name := new]> (kd_get K (sv_kube s)) ∧ applied_as create update needed (kd_get K (sv_kube s) !! name) new
  end.
Proof.
  unfold apply_object. unfold kbind at 1. destruct (kc_get K name s) as [[[oobj|e]|] s1] eqn:Eg; [| |done].
  - apply get_ok in Eg as [Eo Ek]. unfold kbind at 1, of_outcome at 1. destruct (update (o_res oobj)) as [[ures|e]|] eqn:Eu; [| |done].
    + destruct (needed (o_res oobj) ures) eqn:En.
      * unfold kbind. destruct (kc_update K name (Some (o_version oobj)) ures s1) as [r1 s2] eqn:Er. destruct (update_run _ _ _ _ _ _ _ Er) as (a & -> & Ha).
        destruct a as [o|e]; intros [= <- <-]; cbn; [|by rewrite Ha].
        destruct Ha as (Ha & _ & Hs). exists o. rewrite <- Ek. split; [done|]. rewrite Ek, Eo. exists ures. by rewrite En.
      * intros [= <- <-]. cbn. exists oobj. rewrite Ek, insert_id, Eo by done. split; [done|]. exists ures. by rewrite En.
    + intros [= <- <-]. done.
  - apply get_err in Eg. destruct e; [|by intros [= <- <-]..]. unfold kbind at 1, of_outcome. destruct create as [[nres|e]|] eqn:Ec; [| |done].
    + unfold kbind. destruct (kc_create K name nres s1) as [r1 s2] eqn:Er. destruct (create_run _ _ _ _ _ _ Er) as (a & -> & Ha).
      destruct a as [o|e]; intros [= <- <-]; cbn; [|by rewrite Ha].
      destruct Ha as (Ha & Hn & Hs). exists o. rewrite <- Eg. split; [done|]. rewrite Hn. cbn. by rewrite Ha.
    + by intros [= <- <-].
Qed.

(** The object under the name is now what the builder makes, anew or of the one
    that was there. *)
Definition stored_as_built {A} (K : kind A) (name : string) (create : outcome (result service_error (resource A)))
  (update : resource A → outcome (result service_error (resource A))) (k k' : kube) : Prop :=
  ∃ new, kd_get K k' = <[name := new]> (kd_get K k)
    ∧ match kd_get K k !! name with None => create = Ret (Ok (o_res new)) | Some o => update (o_res o) = Ret (Ok (o_res new)) end.

(** Either the application failed and changed nothing, or it stored. *)
Definition all_or_nothing {A} (K : kind A) (name : string) (create : outcome (result service_error (resource A)))
  (update : resource A → outcome (result service_error (resource A))) (c : M (applied A)) : Prop :=
  ∀ s r s', c s = (Ret r, s') →
    match ap_err r with Some _ => sv_kube s' = sv_kube s | None => stored_as_built K name create update (sv_kube s) (sv_kube s') end.

Lemma apply_object_exact {A} `{EqDecision A} (K : kind A) `{!Kind K} name create update needed :
  (∀ o u, update o = Ret (Ok u) → needed o u = false → u = o) →
  all_or_nothing K name create update (apply_object K name create update needed).
Proof.
  intros Hn s r s' Hr. apply apply_object_run in Hr; [|done]. destruct (ap_err r); [done|]. destruct Hr as (new & Hk & Ha). exists new. split; [done|].
  destruct (kd_get K (sv_kube s) !! name) as [o|]; [|done]. destruct Ha as (u & Hu & Ho). rewrite Hu. do 2 f_equal.
  destruct (needed (o_res o) u) eqn:E; [done|]. rewrite Ho. by apply Hn.
Qed.

Section proofs.
Context `{GoUnicode} `{Cosmos} `{Protocols} `{!KubeProtocols} `{!ManifestSdk} `{KubeSdk} `{ChainSdk} `{MapOrder}.

Lemma same_resource {A} `{EqDecision A} (u o : resource A) :
  rs_Annotations u = rs_Annotations o → spec_differs u o = false → labels_differ u o = false → u = o.
Proof.
  unfold spec_differs, labels_differ. intros Ea Es%negb_false_iff%bool_decide_eq_true El%negb_false_iff%bool_decide_eq_true. destruct u, o; cbn in *; congruence.
Qed.

Lemma unit_spec (u o : resource unit) : spec_differs u o = false.
Proof. unfold spec_differs. apply negb_false_iff, bool_decide_eq_true. by destruct (rs_Spec u), (rs_Spec o). Qed.

Lemma stateful_exact w :
  all_or_nothing StatefulSets (workload_Name w) (let! r := statefulSet_Create w in Ret (Ok r))%go (λ obj, let! r := statefulSet_Update w obj in Ret (Ok r))%go (applyStatefulSet w).
Proof.
  apply apply_object_exact; [apply _|]. intros o u Hu Hn.
  rewrite obind_ret in Hu. destruct Hu as (v & Hv & [= <-]). rewrite !orb_false_iff in Hn. destruct Hn as [[_ ?] ?]. apply same_resource; [|done|done].
  unfold statefulSet_Update in Hv. rewrite obind_ret in Hv. by destruct Hv as (spec & _ & [= <-]).
Qed.

(** Claim C32.  Applying the namespace, a stateful set, a service, a service account
    or a role is all or nothing, whatever the server answers: an error leaves
    every object of the lease as it was; without one the object under the name is what
    the builder makes anew, or of the object that was there, the others of its
    kind being as before.  (Deployments and network policies are not among them: of
    these a refused update is reported as success.) *)
Theorem apply_all_or_nothing (d : ClusterDeployment) (w : Workload) (np : bool) :
  all_or_nothing Namespaces (LidNS (cd_Lid d)) (Ret (Ok (ns_Create d))) (λ obj, Ret (Ok (ns_Update d obj))) (applyNS d)
  ∧ all_or_nothing StatefulSets (workload_Name w) (let! r := statefulSet_Create w in Ret (Ok r))%go (λ obj, let! r := statefulSet_Update w obj in Ret (Ok r))%go (applyStatefulSet w)
  ∧ all_or_nothing Services (service_Name w np) (Ret (service_Create w np)) (λ obj, Ret (service_Update w np obj)) (applyService w np)
  ∧ all_or_nothing ServiceAccounts (workload_Name w) (Ret (Ok (serviceAccount_Create w))) (λ obj, Ret (Ok (serviceAccount_Update w obj))) (applyServiceAccount w)
  ∧ all_or_nothing Roles (workload_Name w) (Ret (Ok (role_Create w))) (λ obj, Ret (Ok (role_Update w obj))) (applyRole w).
Proof.
  split_and!; [|apply stateful_exact|..]; (apply apply_object_exact; [apply _|]); intros o u Hu Hn.
  - injection Hu as <-. rewrite !orb_false_iff in Hn. destruct Hn as [[_ ?] ?]. by apply same_resource.
  - injection Hu as Hu. rewrite !orb_false_iff in Hn. destruct Hn as [[_ ?] ?]. apply same_resource; [|done|done].
    unfold service_Update in Hu. rewrite rbind_ok in Hu. by destruct Hu as (l & _ & [= <-]).
  - injection Hu as <-. rewrite !orb_false_iff in Hn. destruct Hn as [_ ?]. apply same_resource; [done|apply unit_spec|done].
  - injection Hu as <-. rewrite !orb_false_iff in Hn. destruct Hn as [[_ ?] ?]. by apply same_resource.
Qed.

(** ** Rights that were withdrawn *)

Lemma delete_ok {A} (K : kind A) `{!Kind K} name s s' : kc_delete K name s = (Ret (Ok tt), s') → kd_get K (sv_kube s') = delete name (kd_get K (sv_kube s)).
Proof.
  unfold kc_delete, request, kbind, answer, read, write. destruct (sv_answers s) as [|[e|] l]; cbn; [|done|];
    destruct (kd_get K (sv_kube s) !! name); intros [= <-]; cbn; by rewrite kind_get.
Qed.

Lemma delete_each_ok {A} (K : kind A) `{!Kind K} l s s' :
  delete_each K l s = (Ret None, s') → kd_get K (sv_kube s') = filter (λ p, p.1 ∉ l.*1) (kd_get K (sv_kube s)).
Proof.
  revert s. induction l as [|[n o] l IH]; intros s; cbn [delete_each].
  - intros [= <-]. symmetry. apply map_filter_id. intros i x _. cbn. set_solver.
  - unfold kbind. destruct (kc_delete K n s) as [[[[]|e]|] s1] eqn:E; [|done|done]. apply delete_ok in E; [|done]. intros Hr. rewrite (IH _ Hr), E.
    apply map_eq. intros i. apply option_eq. intros x. rewrite !map_lookup_filter_Some, lookup_delete_Some. cbn. set_solver.
Qed.

Lemma list_ok {A} (K : kind A) sel s l s' : kc_list K sel s = (Ret (Ok l), s') →
  l = List.filter (selected sel) (map_order _ (map_to_list (kd_get K (sv_kube s)))) ∧ sv_kube s' = sv_kube s.
Proof. unfold kc_list, request, kbind, answer, read. destruct (sv_answers s) as [|[e|] l']; cbn; [|done|]; by intros [= <- <-]. Qed.

Lemma delete_listed_ok {A} (K : kind A) `{!Kind K} sel s s' :
  delete_listed K sel s = (Ret None, s') → kd_get K (sv_kube s') = filter (λ p, selected sel p = false) (kd_get K (sv_kube s)).
Proof.
  unfold delete_listed, kbind. destruct (kc_list K sel s) as [[[l|e]|] s1] eqn:E; [|done|done]. apply list_ok in E as [-> Ek].
  intros Hd. apply delete_each_ok in Hd; [|done]. rewrite Hd, Ek. apply map_eq. intros i. apply option_eq. intros x. rewrite !map_lookup_filter_Some.
  split; intros [Hx Hs]; (split; [done|]); cbn in *.
  - apply not_true_iff_false. intros Ht. apply Hs, list_elem_of_fmap. exists (i, x). split; [done|]. apply list_elem_of_In, filter_In. split; [|done].
    apply list_elem_of_In. rewrite map_order_perm. by apply elem_of_map_to_list.
  - rewrite list_elem_of_fmap. intros ([j y] & -> & Hj). cbn in *. apply list_elem_of_In, filter_In in Hj as [Hj Ht].
    apply list_elem_of_In in Hj. rewrite map_order_perm in Hj. apply elem_of_map_to_list in Hj. congruence.
Qed.

Lemma and_then_ok c k s s' : and_then c k s = (Ret None, s') → ∃ s1, c s = (Ret None, s1) ∧ k s1 = (Ret None, s').
Proof. unfold and_then, kbind. destruct (c s) as [[[e|]|] s1]; [done| |done]. intros Hk. by exists s1. Qed.

Lemma delete_listed_keeps {X A} (f : kube → X) (K : kind A) sel : (∀ m k, f (kd_set K m k) = f k) → keeps f (delete_listed K sel).
Proof. intros Hf. unfold delete_listed. apply keeps_bind; [keep|]. intros [l|e]; [by apply keeps_delete_each|keep]. Qed.

(** Objects of the provider that belong to none of these services. *)
Definition withdrawn {A} (services : list string) (o : object A) : bool :=
  bool_decide (rs_Labels (o_res o) !! AkashManagedLabelName = Some "true")
  && match rs_Labels (o_res o) !! AkashManifestServiceLabelName with Some v => bool_decide (v ∉ services) | None => true end.

(** Rights that a manifest no longer asks for are withdrawn: when the
    cleanup reports no error, the service accounts, roles and role bindings of
    the lease are those that were there less the provider's own of services
    without permissions, and nothing else has changed. *)
Theorem rights_withdrawn (services : list string) (s s' : server) (Hrun : cleanupStaleRBACResources services s = (Ret None, s')) :
  k_accounts (sv_kube s') = filter (λ p, withdrawn services p.2 = false) (k_accounts (sv_kube s))
  ∧ k_roles (sv_kube s') = filter (λ p, withdrawn services p.2 = false) (k_roles (sv_kube s))
  ∧ k_bindings (sv_kube s') = filter (λ p, withdrawn services p.2 = false) (k_bindings (sv_kube s))
  ∧ k_deployments (sv_kube s') = k_deployments (sv_kube s) ∧ k_stateful (sv_kube s') = k_stateful (sv_kube s)
  ∧ k_services (sv_kube s') = k_services (sv_kube s) ∧ k_policies (sv_kube s') = k_policies (sv_kube s) ∧ k_secrets (sv_kube s') = k_secrets (sv_kube s).
Proof.
  unfold cleanupStaleRBACResources in Hrun.
  destruct (match services with [] => Some [] | _ => (λ r, [r]) <$> new_not_in AkashManifestServiceLabelName services end) as [sel|] eqn:Esel; [|done].
  assert (∀ A (p : string * object A), selected (sel ++ [ReqEquals AkashManagedLabelName "true"])%list p = withdrawn services p.2) as Hsel.
  { intros A p. unfold selected, withdrawn. rewrite forallb_app. cbn [forallb requirement_met]. rewrite andb_true_r, andb_comm. f_equal.
    destruct services as [|x l]; [injection Esel as <-; cbn; case_match; [|done]; symmetry; apply bool_decide_eq_true; set_solver|].
    unfold new_not_in in Esel. case_match; [|done]. injection Esel as <-. cbn [forallb requirement_met]. by rewrite andb_true_r. }
  apply and_then_ok in Hrun as (s1 & R1 & Hrun). apply and_then_ok in Hrun as (s2 & R2 & R3).
  assert (∀ X (f : kube → X), (∀ m k, f (kd_set ServiceAccounts m k) = f k) → f (sv_kube s1) = f (sv_kube s)) as K1.
  { intros X f Hf. pose proof (delete_listed_keeps f _ (sel ++ [ReqEquals AkashManagedLabelName "true"])%list Hf s) as E. by rewrite R1 in E. }
  assert (∀ X (f : kube → X), (∀ m k, f (kd_set Roles m k) = f k) → f (sv_kube s2) = f (sv_kube s1)) as K2.
  { intros X f Hf. pose proof (delete_listed_keeps f _ (sel ++ [ReqEquals AkashManagedLabelName "true"])%list Hf s1) as E. by rewrite R2 in E. }
  assert (∀ X (f : kube → X), (∀ m k, f (kd_set RoleBindings m k) = f k) → f (sv_kube s') = f (sv_kube s2)) as K3.
  { intros X f Hf. pose proof (delete_listed_keeps f _ (sel ++ [ReqEquals AkashManagedLabelName "true"])%list Hf s2) as E. by rewrite R3 in E. }
  apply delete_listed_ok in R1, R2, R3; [|apply _..]. cbn [kd_get ServiceAccounts Roles RoleBindings] in R1, R2, R3.
  split_and!; [rewrite (K3 _ k_accounts), (K2 _ k_accounts), R1 by done|rewrite (K3 _ k_roles), R2, (K1 _ k_roles) by done|rewrite R3, (K2 _ k_bindings), (K1 _ k_bindings) by done|..];
    [by apply map_filter_ext; intros i x _; rewrite Hsel..| | | | |].
  - by rewrite (K3 _ k_deployments), (K2 _ k_deployments), (K1 _ k_deployments).
  - by rewrite (K3 _ k_stateful), (K2 _ k_stateful), (K1 _ k_stateful).
  - by rewrite (K3 _ k_services), (K2 _ k_services), (K1 _ k_services).
  - by rewrite (K3 _ k_policies), (K2 _ k_policies), (K1 _ k_policies).
  - by rewrite (K3 _ k_secrets), (K2 _ k_secrets), (K1 _ k_secrets).
Qed.

(** ** What goes wrong *)

(** No object of these kinds is marked as the target of a service, which the
    builders never do. *)
Definition unmarked {A} (m : store A) : Prop := ∀ name o, m !! name = Some o → rs_Labels (o_res o) !! AkashServiceTarget ≠ Some "true".

Lemma builders_unmarked w : workload_labels w !! AkashServiceTarget = None.
Proof. unfold workload_labels, builder_labels. case_match; repeat rewrite lookup_insert_ne by done; done. Qed.

Lemma unmarked_selected {A} (m : store A) req1 name o : unmarked m → m !! name = Some o → selected (stale_selector req1) (name, o) = false.
Proof.
  intros Hm Ho. unfold selected, stale_selector. cbn [forallb requirement_met snd]. rewrite (bool_decide_eq_false_2 (_ = Some "true")) by by eapply Hm.
  by rewrite andb_false_r.
Qed.

Lemma delete_all_unmarked {A} (K : kind A) `{!Kind K} req1 s : unmarked (kd_get K (sv_kube s)) → kd_get K (sv_kube (delete_all K (stale_selector req1) s).2) = kd_get K (sv_kube s).
Proof.
  intros Hm. assert (∀ s', kd_get K (sv_kube s') = kd_get K (sv_kube s) → filter (λ p, selected (stale_selector req1) p = false) (kd_get K (sv_kube s')) = kd_get K (sv_kube s)) as E.
  { intros s' ->. apply map_filter_id. intros i x Hx. by eapply unmarked_selected. }
  unfold delete_all, kc_delete_collection, request, kbind, answer, write, kret. destruct (sv_answers s) as [|[e|] l]; cbn; [|done|]; rewrite kind_get; by apply E.
Qed.

Lemma delete_listed_unmarked {A} (K : kind A) `{!Kind K} req1 s :
  unmarked (kd_get K (sv_kube s)) → kd_get K (sv_kube (delete_listed K (stale_selector req1) s).2) = kd_get K (sv_kube s).
Proof.
  intros Hm. unfold delete_listed, kbind. pose proof (get_run K "" s) as _. destruct (kc_list K (stale_selector req1) s) as [[[l|e]|] s1] eqn:E.
  - apply list_ok in E as [El Ek]. assert (l = []) as ->.
    { rewrite El. destruct (List.filter _ _) as [|[n o] l'] eqn:Ef; [done|]. assert ((n, o) ∈ List.filter (selected (stale_selector req1)) (map_order _ (map_to_list (kd_get K (sv_kube s))))) as Hin by (rewrite Ef; left).
      apply list_elem_of_In, filter_In in Hin as [Hin Hs]. apply list_elem_of_In in Hin. rewrite map_order_perm in Hin. apply elem_of_map_to_list in Hin.
      rewrite (unmarked_selected _ req1 n o Hm Hin) in Hs. done. }
    cbn. by rewrite Ek.
  - revert E. unfold kc_list, request, kbind, answer, read, kret. destruct (sv_answers s) as [|[e'|] l']; cbn; intros [= <- <-]; done.
  - revert E. unfold kc_list, request, kbind, answer, read, kret. destruct (sv_answers s) as [|[e'|] l']; cbn; intros [= <-]; done.
Qed.

(** The cleanup deletes no deployment, stateful set or service that a builder
    made, whatever the manifest: it selects those whose label of a service
    target is true, where the label of the provider was meant. *)
Theorem stale_workloads_kept (group : Group) (services : list string) (s : server) :
  unmarked (k_deployments (sv_kube s)) → unmarked (k_stateful (sv_kube s)) → unmarked (k_services (sv_kube s)) →
  let k' := sv_kube (cleanupStaleResources group services s).2 in
  k_deployments k' = k_deployments (sv_kube s) ∧ k_stateful k' = k_stateful (sv_kube s) ∧ k_services k' = k_services (sv_kube s).
Proof.
  intros Hd Hs Hv. unfold cleanupStaleResources. destruct (new_not_in _ _) as [req1|]; [|done].
  assert (∀ X (f : kube → X), (∀ m k, f (kd_set ServiceAccounts m k) = f k) → (∀ m k, f (kd_set Roles m k) = f k) → (∀ m k, f (kd_set RoleBindings m k) = f k) →
    keeps f (cleanupStaleRBACResources services)) as Hrbac.
  { intros X f ???. unfold cleanupStaleRBACResources. case_match; [|keep]. unfold and_then.
    repeat first [by apply delete_listed_keeps|apply keeps_bind; [|intros [?|]]|apply keeps_ret]. }
  assert (∀ X (f : kube → X) c k t, keeps f k → f (sv_kube (and_then c k t).2) = f (sv_kube (c t).2)) as Hthen.
  { intros X f c k t Hk. unfold and_then, kbind. destruct (c t) as [[[e|]|] t']; [done|apply Hk|done]. }
  assert (∀ X (f : kube → X) c k t, keeps f c → f (sv_kube (and_then c k t).2) = f (sv_kube (k (c t).2).2) ∨ f (sv_kube (and_then c k t).2) = f (sv_kube t)) as Hthen'.
  { intros X f c k t Hc. unfold and_then, kbind. specialize (Hc t). destruct (c t) as [[[e|]|] t']; [by right|by left|by right]. }
  set (sel := stale_selector req1). cbn. split_and!.
  - rewrite (Hthen _ k_deployments).
    + apply (delete_all_unmarked Deployments). done.
    + unfold and_then. repeat first [by apply Hrbac|by apply delete_listed_keeps|apply keeps_bind; [|intros [?|]]|apply keeps_ret|progress keep].
  - destruct (Hthen' _ k_stateful (delete_all Deployments sel) (and_then (delete_all StatefulSets sel) (and_then (delete_listed Services sel) (cleanupStaleRBACResources services))) s ltac:(keep)) as [-> | ->]; [|done].
    assert (k_stateful (sv_kube (delete_all Deployments sel s).2) = k_stateful (sv_kube s)) as E by (revert s Hd Hs Hv; fold (keeps k_stateful (delete_all Deployments sel)); intros s; intros; apply (ltac:(keep) : keeps k_stateful (delete_all Deployments sel))).
    rewrite (Hthen _ k_stateful), <- E; [apply (delete_all_unmarked StatefulSets); cbn; by rewrite E|].
    unfold and_then. repeat first [by apply Hrbac|by apply delete_listed_keeps|apply keeps_bind; [|intros [?|]]|apply keeps_ret].
  - assert (∀ t, k_services (sv_kube (delete_all Deployments sel t).2) = k_services (sv_kube t)) as E1 by (fold (keeps k_services (delete_all Deployments sel)); keep).
    assert (∀ t, k_services (sv_kube (delete_all StatefulSets sel t).2) = k_services (sv_kube t)) as E2 by (fold (keeps k_services (delete_all StatefulSets sel)); keep).
    destruct (Hthen' _ k_services (delete_all Deployments sel) (and_then (delete_all StatefulSets sel) (and_then (delete_listed Services sel) (cleanupStaleRBACResources services))) s E1) as [-> | ->]; [|done].
    destruct (Hthen' _ k_services (delete_all StatefulSets sel) (and_then (delete_listed Services sel) (cleanupStaleRBACResources services)) (delete_all Deployments sel s).2 E2) as [-> | ->]; [|by rewrite E1].
    rewrite (Hthen _ k_services) by by apply Hrbac. set (t := (delete_all StatefulSets sel (delete_all Deployments sel s).2).2).
    assert (k_services (sv_kube t) = k_services (sv_kube s)) as Et by (unfold t; by rewrite E2, E1).
    rewrite <- Et. apply (delete_listed_unmarked Services). cbn. by rewrite Et.
Qed.

(** An error of the server in the loop over the policies is forgotten: the
    application reports none, and the policies are as they were. *)
Theorem policy_error_forgotten (settings : Settings) (d : ClusterDeployment) (k : kube) (e : kerror) (l : list (option kerror)) :
  s_NetworkPoliciesEnabled settings = true → e ≠ NotFound →
  ∃ o, applyNetPolicies settings d (MkServer k (None :: Some e :: l)) = (Ret ([], [], o, None), MkServer k l).
Proof.
  intros He Hne. unfold applyNetPolicies, netPol_Create. rewrite He. cbn [negb]. unfold kbind at 1, kc_list, request, kbind at 1, answer at 1. cbn [sv_answers sv_kube].
  unfold kbind at 1, read, kret at 1. cbn [sv_kube]. cbn [apply_policies]. unfold kbind at 1 2, apply_policy, kc_get, request, kbind at 1 2, answer. cbn.
  eexists. by destruct e.
Qed.

(** So is the error of updating a deployment: the patch that follows succeeds,
    and the pods stay as they were. *)
Theorem update_error_forgotten (w : Workload) (k : kube) (old : object DeploymentSpec) (u : resource DeploymentSpec) (e : kerror) (l : list (option kerror)) :
  k_deployments k !! workload_Name w = Some old → deployment_Update w (o_res old) = Ret u →
  ∃ r s', applyDeployment w (MkServer k (None :: Some e :: None :: l)) = (Ret r, s') ∧ ap_err r = None
    ∧ ∃ new, k_deployments (sv_kube s') !! workload_Name w = Some new ∧ ds_Template (rs_Spec (o_res new)) = ds_Template (rs_Spec (o_res old))
      ∧ ds_Replicas (rs_Spec (o_res new)) = ds_Replicas (rs_Spec (o_res old)).
Proof.
  intros Ho Hu. unfold applyDeployment. unfold kbind at 1, kc_get, request, kbind at 1, answer at 1. cbn [sv_answers sv_kube]. unfold kbind at 1, read, kret at 1. cbn [sv_kube kd_get Deployments].
  rewrite Ho. unfold kbind at 1, of_outcome. rewrite Hu.
  assert (IsObjectRevisionLatest (w_deployment w) (rs_Labels u) = true) as ->.
  { unfold deployment_Update in Hu. rewrite obind_ret in Hu. destruct Hu as (spec & _ & [= <-]). apply update_labels_version, workload_version. }
  cbn [orb]. unfold kbind at 1 2, kc_update, request, kbind at 1, answer at 1. cbn [sv_answers sv_kube]. unfold kret at 1 2.
  set (limit := negb _). unfold kbind at 1, kc_patch, request, kbind at 1, answer. cbn [sv_answers sv_kube]. unfold kbind at 1, read. cbn [sv_kube kd_get Deployments].
  rewrite Ho. case_bool_decide.
  - cbn. do 2 eexists. split; [done|]. split; [done|]. cbn. by exists old.
  - cbn. do 2 eexists. split; [done|]. split; [done|]. cbn. rewrite lookup_insert_eq. by eexists.
Qed.

End proofs.
