(* ===== verification/KubeDeploy.v ===== *)
(** * Deploying a lease

    [cluster/kube/client.go]: [Deploy] with the recovery of the previous
    objects, [TeardownLease], and the questions about a lease. *)
From Stdlib Require Import Ascii String.
From S2P Require Import Prelude GoStrings ChainTypes ClusterTypes LeaseNames CrdManifest HostRoutes MetalLb KubeDeclare.
From S2P Require Import ManifestManager KubeObjects Workload NetPol KubeApi KubeApply.

Open Scope string_scope.
Open Scope go_scope.

(** ** The previous objects *)

Notation named A := (string * object A)%type.

(** New, updated and old objects of a kind, in the order they were applied. *)
Record tracked (A : Type) := MkTracked { tr_new : list (named A); tr_updated : list (named A); tr_old : list (named A) }.
Arguments MkTracked {A}.
Arguments tr_new {A}.
Arguments tr_updated {A}.
Arguments tr_old {A}.

Record previousObj := MkPrevious {
  po_nmani : option (object ManifestSpec); po_umani : option (object ManifestSpec); po_omani : option (object ManifestSpec);
  po_nns : option (object unit); po_uns : option (object unit); po_ons : option (object unit);
  po_policies : tracked PolicySpec; po_accounts : tracked unit; po_roles : tracked (list PolicyRule);
  po_bindings : tracked RoleBindingSpec; po_creds : tracked SecretSpec; po_stateful : tracked StatefulSetSpec;
  po_deployments : tracked DeploymentSpec; po_local : tracked ServiceSpec; po_global : tracked ServiceSpec }.

Definition no_previous : previousObj :=
  MkPrevious None None None None None None (MkTracked [] [] []) (MkTracked [] [] []) (MkTracked [] [] []) (MkTracked [] [] []) (MkTracked [] [] []) (MkTracked [] [] []) (MkTracked [] [] []) (MkTracked [] [] []) (MkTracked [] [] []).

Definition set_nmani (x : option (object ManifestSpec)) (p : previousObj) : previousObj :=
  MkPrevious x (po_umani p) (po_omani p) (po_nns p) (po_uns p) (po_ons p) (po_policies p) (po_accounts p) (po_roles p) (po_bindings p) (po_creds p) (po_stateful p) (po_deployments p) (po_local p) (po_global p).
Definition set_umani (x : option (object ManifestSpec)) (p : previousObj) : previousObj :=
  MkPrevious (po_nmani p) x (po_omani p) (po_nns p) (po_uns p) (po_ons p) (po_policies p) (po_accounts p) (po_roles p) (po_bindings p) (po_creds p) (po_stateful p) (po_deployments p) (po_local p) (po_global p).
Definition set_omani (x : option (object ManifestSpec)) (p : previousObj) : previousObj :=
  MkPrevious (po_nmani p) (po_umani p) x (po_nns p) (po_uns p) (po_ons p) (po_policies p) (po_accounts p) (po_roles p) (po_bindings p) (po_creds p) (po_stateful p) (po_deployments p) (po_local p) (po_global p).
Definition set_nns (x : option (object unit)) (p : previousObj) : previousObj :=
  MkPrevious (po_nmani p) (po_umani p) (po_omani p) x (po_uns p) (po_ons p) (po_policies p) (po_accounts p) (po_roles p) (po_bindings p) (po_creds p) (po_stateful p) (po_deployments p) (po_local p) (po_global p).
Definition set_uns (x : option (object unit)) (p : previousObj) : previousObj :=
  MkPrevious (po_nmani p) (po_umani p) (po_omani p) (po_nns p) x (po_ons p) (po_policies p) (po_accounts p) (po_roles p) (po_bindings p) (po_creds p) (po_stateful p) (po_deployments p) (po_local p) (po_global p).
Definition set_ons (x : option (object unit)) (p : previousObj) : previousObj :=
  MkPrevious (po_nmani p) (po_umani p) (po_omani p) (po_nns p) (po_uns p) x (po_policies p) (po_accounts p) (po_roles p) (po_bindings p) (po_creds p) (po_stateful p) (po_deployments p) (po_local p) (po_global p).
Definition set_policies (x : tracked PolicySpec) (p : previousObj) : previousObj :=
  MkPrevious (po_nmani p) (po_umani p) (po_omani p) (po_nns p) (po_uns p) (po_ons p) x (po_accounts p) (po_roles p) (po_bindings p) (po_creds p) (po_stateful p) (po_deployments p) (po_local p) (po_global p).
Definition set_accounts (x : tracked unit) (p : previousObj) : previousObj :=
  MkPrevious (po_nmani p) (po_umani p) (po_omani p) (po_nns p) (po_uns p) (po_ons p) (po_policies p) x (po_roles p) (po_bindings p) (po_creds p) (po_stateful p) (po_deployments p) (po_local p) (po_global p).
Definition set_roles (x : tracked (list PolicyRule)) (p : previousObj) : previousObj :=
  MkPrevious (po_nmani p) (po_umani p) (po_omani p) (po_nns p) (po_uns p) (po_ons p) (po_policies p) (po_accounts p) x (po_bindings p) (po_creds p) (po_stateful p) (po_deployments p) (po_local p) (po_global p).
Definition set_bindings (x : tracked RoleBindingSpec) (p : previousObj) : previousObj :=
  MkPrevious (po_nmani p) (po_umani p) (po_omani p) (po_nns p) (po_uns p) (po_ons p) (po_policies p) (po_accounts p) (po_roles p) x (po_creds p) (po_stateful p) (po_deployments p) (po_local p) (po_global p).
Definition set_creds (x : tracked SecretSpec) (p : previousObj) : previousObj :=
  MkPrevious (po_nmani p) (po_umani p) (po_omani p) (po_nns p) (po_uns p) (po_ons p) (po_policies p) (po_accounts p) (po_roles p) (po_bindings p) x (po_stateful p) (po_deployments p) (po_local p) (po_global p).
Definition set_stateful (x : tracked StatefulSetSpec) (p : previousObj) : previousObj :=
  MkPrevious (po_nmani p) (po_umani p) (po_omani p) (po_nns p) (po_uns p) (po_ons p) (po_policies p) (po_accounts p) (po_roles p) (po_bindings p) (po_creds p) x (po_deployments p) (po_local p) (po_global p).
Definition set_deployments (x : tracked DeploymentSpec) (p : previousObj) : previousObj :=
  MkPrevious (po_nmani p) (po_umani p) (po_omani p) (po_nns p) (po_uns p) (po_ons p) (po_policies p) (po_accounts p) (po_roles p) (po_bindings p) (po_creds p) (po_stateful p) x (po_local p) (po_global p).
Definition set_local (x : tracked ServiceSpec) (p : previousObj) : previousObj :=
  MkPrevious (po_nmani p) (po_umani p) (po_omani p) (po_nns p) (po_uns p) (po_ons p) (po_policies p) (po_accounts p) (po_roles p) (po_bindings p) (po_creds p) (po_stateful p) (po_deployments p) x (po_global p).
Definition set_global (x : tracked ServiceSpec) (p : previousObj) : previousObj :=
  MkPrevious (po_nmani p) (po_umani p) (po_omani p) (po_nns p) (po_uns p) (po_ons p) (po_policies p) (po_accounts p) (po_roles p) (po_bindings p) (po_creds p) (po_stateful p) (po_deployments p) (po_local p) x.

(** What was applied is appended where it is not nil. *)
Definition track {A} (name : string) (a : applied A) (t : tracked A) : tracked A :=
  let one (o : option (object A)) := match o with Some o => [(name, o)] | None => [] end in
  MkTracked (tr_new t ++ one (ap_new a)) (tr_updated t ++ one (ap_updated a)) (tr_old t ++ one (ap_old a)).

Section deploy.
Context `{GoUnicode} `{Cosmos} `{Protocols} `{!KubeProtocols} `{!ManifestSdk} `{KubeSdk} `{ChainSdk} `{MapOrder}.

(** Errors are collected and not looked at. *)
Fixpoint delete_back {A} (K : kind A) (l : list (named A)) : M unit :=
  match l with
  | [] => kret tt
  | (name, _) :: l => let% _ := kc_delete K name in delete_back K l
  end.
Fixpoint restore_back {A} `{EqDecision A} (K : kind A) (l : list (named A)) : M unit :=
  match l with
  | [] => kret tt
  | (name, o) :: l => let% _ := kc_update K name (Some (o_version o)) (o_res o) in restore_back K l
  end.

(** [name] is that of the namespace and of the manifest. *)
Definition previous_recover (name : string) (p : previousObj) : M unit :=
  let% _ := delete_back Services (rev (tr_new (po_global p))) in
  let% _ := restore_back Services (rev (tr_old (po_global p))) in
  let% _ := delete_back Services (rev (tr_new (po_local p))) in
  let% _ := restore_back Services (rev (tr_old (po_local p))) in
  let% _ := restore_back Deployments (rev (tr_old (po_deployments p))) in
  let% _ := restore_back StatefulSets (rev (tr_old (po_stateful p))) in
  let% _ := delete_back RoleBindings (rev (tr_new (po_bindings p))) in
  let% _ := restore_back RoleBindings (rev (tr_old (po_bindings p))) in
  let% _ := delete_back Roles (rev (tr_new (po_roles p))) in
  let% _ := restore_back Roles (rev (tr_old (po_roles p))) in
  let% _ := delete_back ServiceAccounts (rev (tr_new (po_accounts p))) in
  let% _ := restore_back ServiceAccounts (rev (tr_old (po_accounts p))) in
  let% _ := delete_back Secrets (rev (tr_new (po_creds p))) in
  let% _ := restore_back Secrets (rev (tr_old (po_creds p))) in
  let% _ := delete_back NetworkPolicies (rev (tr_new (po_policies p))) in
  let% _ := restore_back NetworkPolicies (rev (tr_old (po_policies p))) in
  let% _ := match po_nns p with Some _ => let% _ := kc_delete Namespaces name in kret tt | None => kret tt end in
  let% _ := match po_ons p with Some o => let% _ := kc_update Namespaces name (Some (o_version o)) (o_res o) in kret tt | None => kret tt end in
  match po_omani p with Some o => let% _ := kc_update Manifests name (Some (o_version o)) (o_res o) in kret tt | None => kret tt end.

(** ** Deploy *)

Inductive deploy_error :=
| ErrNotConfiguredWithSettings | ErrSettings (s : string) | ErrBuilder (s : string) | ErrNoRoCERailNetworks
| ErrManifestRenameNotAllowed | ErrApply (e : apply_error) | ErrInternalError.

(** The body: it ends, returns an error, or panics. *)
Inductive exit (A : Type) := Done (a : A) | Fail (e : deploy_error) | Crash.
#[global] Arguments Done {A}.
#[global] Arguments Fail {A}.
#[global] Arguments Crash {A}.

Record dstate := MkDState { d_server : server; d_po : previousObj }.
Definition D (A : Type) : Type := dstate → exit A * dstate.
Definition dret {A} (a : A) : D A := λ s, (Done a, s).
Definition dbind {A B} (c : D A) (f : A → D B) : D B :=
  λ s, match c s with (Done a, s) => f a s | (Fail e, s) => (Fail e, s) | (Crash, s) => (Crash, s) end.
Definition throw {A} (e : deploy_error) : D A := λ s, (Fail e, s).
Definition call {A} (c : M A) : D A :=
  λ s, match c (d_server s) with (Ret a, v) => (Done a, MkDState v (d_po s)) | (Panic, v) => (Crash, MkDState v (d_po s)) end.
Definition note (f : previousObj → previousObj) : D unit := λ s, (Done tt, MkDState (d_server s) (f (d_po s))).

Notation "'let&' x ':=' c 'in' k" := (dbind c (λ x, k)) (at level 10, x pattern, c at level 100, k at level 200) : go_scope.

Definition deploymentNeedsRoCENetworks (st : list SchedulerParams) (d : ClusterDeployment) : bool :=
  existsb (λ sp, match sparamsInterconnect (l ← sp; st !! l) with
    | Some ic => si_Enabled ic && (si_Fabric ic =? InterconnectFabricRoCE)
    | None => false
    end) (cd_Sparams d).

(** [nads]: the answer to the listing, names only. *)
Definition interconnectRoCENetworks (namespace : string) (nads : result kerror (list string)) : result deploy_error string :=
  if namespace =? "" then Ok ""
  else match nads with
    | Err NotFound => Err ErrNoRoCERailNetworks
    | Err e => Err (ErrApply (ApiError e))
    | Ok [] => Err ErrNoRoCERailNetworks
    | Ok names => Ok (String.concat "," (sort_strings ((λ n, namespace +:+ "/" +:+ n) <$> names)))
    end.

Definition with_networks (networks : string) (s : Settings) : Settings :=
  MkSettings _ (s_DeploymentServiceType s) (s_DeploymentIngressStaticHosts s) (s_DeploymentIngressDomain s) (s_DeploymentIngressExposeLBHosts s)
    (s_ClusterPublicHostname s) (s_NetworkPoliciesEnabled s) (s_APIServerEndpoints s) (s_CPUCommitLevel s) (s_GPUCommitLevel s) (s_MemoryCommitLevel s)
    (s_StorageCommitLevel s) (s_DeploymentRuntimeClass s) (s_DockerImagePullSecretsName s) (s_IngressMode s) (s_GatewayName s) (s_GatewayNamespace s)
    (s_GatewayProvider s) (s_InterconnectRoCENetworksNamespace s) networks.

Definition with_version (v : string) (d : ClusterDeployment) : ClusterDeployment :=
  MkDeployment (cd_Lid d) (cd_Group d) (cd_Sparams d) v (cd_updateManifest d).

(** *** The manifest *)

Definition manifest_labels (d : ClusterDeployment) : label_map := AppendLeaseLabels (cd_Lid d) (delete AkashManifestResourceVersion (builder_labels d)).

(** The specification and the scheduler parameters it writes to. *)
Definition manifest_spec (ns : string) (st : list SchedulerParams) (d : ClusterDeployment) : result string ManifestSpec :=
  let* (m, st) := NewManifest ns (cd_Lid d) (cd_Group d) (cd_Sparams d) st in
  Ok (freeze (m_LeaseID m) st (m_Group m)).

Definition manifest_Create (ns : string) (st : list SchedulerParams) (d : ClusterDeployment) : result string (resource ManifestSpec) :=
  let* spec := manifest_spec ns st d in Ok (MkResource (manifest_labels d) ∅ spec).
Definition manifest_Update (ns : string) (st : list SchedulerParams) (d : ClusterDeployment) (obj : resource ManifestSpec) : result string (resource ManifestSpec) :=
  let* spec := manifest_spec ns st d in Ok (MkResource (rs_Labels obj) (rs_Annotations obj) spec).

Definition manifest_names (m : resource ManifestSpec) : list string := ms_Name <$> mg_Services (mf_Group (rs_Spec m)).

(** Each service of the update is one that exists, and only once. *)
Fixpoint services_kept (currSvcs : gset string) (l : list string) : option (gset string) :=
  match l with
  | [] => Some currSvcs
  | name :: l => if bool_decide (name ∈ currSvcs) then services_kept (currSvcs ∖ {[name]}) l else None
  end.

Definition check_names (omani : option (object ManifestSpec)) (umani : option (resource ManifestSpec)) : bool :=
  let currSvcs := match omani with Some o => list_to_set (manifest_names (o_res o)) | None => ∅ end in
  match (match umani with Some u => services_kept currSvcs (manifest_names u) | None => Some currSvcs end) with
  | None => false
  | Some rest => bool_decide (rest = ∅)
  end.

(** The manifest that counts from here on. *)
Definition apply_manifest (ns : string) (st : list SchedulerParams) (d : ClusterDeployment) : D (option (object ManifestSpec)) :=
  let name := LidNS (cd_Lid d) in
  let& got := call (kc_get Manifests name) in
  let& omani := match got with
    | Ok o => let& _ := note (set_omani (Some o)) in dret (Some o)
    | Err NotFound => dret None
    | Err e => throw (ErrApply (ApiError e))
    end in
  if negb (cd_updateManifest d) then dret omani
  else
    match omani with
    | Some o =>
        match manifest_Update ns st d (o_res o) with
        | Err e => throw (ErrBuilder e)
        | Ok u =>
            if negb (check_names omani (Some u)) then throw ErrManifestRenameNotAllowed
            else if spec_differs u (o_res o) || labels_differ u (o_res o) then
              let& r := call (kc_update Manifests name (Some (o_version o)) u) in
              match r with
              | Err e => throw (ErrApply (ApiError e))
              | Ok m => let& _ := note (set_umani (Some m)) in dret (Some m)
              end
            else let& _ := note (set_umani (Some (MkObj (o_version o) u))) in dret (Some (MkObj (o_version o) u))
        end
    | None =>
        match manifest_Create ns st d with
        | Err e => throw (ErrBuilder e)
        | Ok n =>
            let& r := call (kc_create Manifests name n) in
            match r with
            | Err e => throw (ErrApply (ApiError e))
            | Ok m => let& _ := note (set_nmani (Some m)) in dret (Some m)
            end
        end
    end.

(** *** The services *)

(** What the loop prepares for a service. *)
Record deploymentService := MkDeploymentService {
  dsv_workload : Workload; dsv_credentials : option ImageCredentials; dsv_persistent : bool; dsv_permissions : bool; dsv_exposed : bool }.

Definition prepare_service (settings : Settings) (d : ClusterDeployment) (currManifest : object ManifestSpec) (svcIdx : nat) (service : Service) : D deploymentService :=
  let '(group, params) := thaw (rs_Spec (o_res currManifest)) in
  let& built := call (of_outcome (NewWorkloadBuilder settings d params group svcIdx)) in
  match built with
  | Err e => throw (ErrBuilder e)
  | Ok w =>
      dret (MkDeploymentService w (svc_Credentials service)
        (existsb (λ s, (find_AsBool (sto_Attributes s) StorageAttributePersistent).1) (res_Storage (svc_Resources service)))
        (hasPermissions w) (match svc_Expose service with [] => false | _ => true end))
  end.

(** A manifest that is nil panics when it is read. *)
Fixpoint prepare_services (settings : Settings) (d : ClusterDeployment) (currManifest : option (object ManifestSpec)) (svcIdx : nat) (l : list Service)
  : D (list deploymentService) :=
  match l with
  | [] => dret []
  | service :: l =>
      let& m := call (of_outcome (deref currManifest)) in
      let& svc := prepare_service settings d m svcIdx service in
      let& rest := prepare_services settings d currManifest (S svcIdx) l in
      dret (svc :: rest)
  end.

(** An error of the application is returned; otherwise the objects are noted. *)
Definition apply_noted {A} (c : M (applied A)) (notes : applied A → previousObj → previousObj) : D unit :=
  let& a := call c in
  match ap_err a with
  | Some e => throw (ErrApply e)
  | None => note (notes a)
  end.

Definition when (b : bool) (c : D unit) : D unit := if b then c else dret tt.

Definition apply_service (svc : deploymentService) : D unit :=
  let w := dsv_workload svc in
  let& _ := when (dsv_permissions svc) (apply_noted (applyServiceAccount w) (λ a p, set_accounts (track (workload_Name w) a (po_accounts p)) p)) in
  let& _ := when (dsv_permissions svc) (apply_noted (applyRole w) (λ a p, set_roles (track (workload_Name w) a (po_roles p)) p)) in
  let& _ := when (dsv_permissions svc) (apply_noted (applyRoleBinding w) (λ a p, set_bindings (track (workload_Name w) a (po_bindings p)) p)) in
  let& _ := match dsv_credentials svc with
    | Some c => apply_noted (applyServiceCredentials w c) (λ a p, set_creds (track (credentials_Name w) a (po_creds p)) p)
    | None => dret tt
    end in
  let& _ := when (dsv_persistent svc) (apply_noted (applyStatefulSet w) (λ a p, set_stateful (track (workload_Name w) a (po_stateful p)) p)) in
  let& _ := when (negb (dsv_persistent svc)) (apply_noted (applyDeployment w) (λ a p, set_deployments (track (workload_Name w) a (po_deployments p)) p)) in
  let& _ := when (dsv_exposed svc && service_Any w false) (apply_noted (applyService w false) (λ a p, set_local (track (service_Name w false) a (po_local p)) p)) in
  when (dsv_exposed svc && service_Any w true) (apply_noted (applyService w true) (λ a p, set_global (track (service_Name w true) a (po_global p)) p)).

Fixpoint apply_services (l : list deploymentService) : D unit :=
  match l with [] => dret tt | svc :: l => let& _ := apply_service svc in apply_services l end.

(** The names of what exists are listed and not used. *)
Definition list_names {A} (K : kind A) : D unit :=
  let& r := call (kc_list K []) in match r with Err e => throw (ErrApply (ApiError e)) | Ok _ => dret tt end.

(** From the first request on, with the version of the manifest. *)
Definition deploy_body (settings : Settings) (ns : string) (st : list SchedulerParams) (cdeployment : ClusterDeployment) : D unit :=
  let& currManifest := apply_manifest ns st cdeployment in
  let& d := if cd_resourceVersion cdeployment =? "" then
      let& m := call (of_outcome (deref currManifest)) in dret (with_version (FormatUint (o_version m)) cdeployment)
    else dret cdeployment in
  let group := cd_Group d in
  let& services := prepare_services settings d currManifest 0 (g_Services group) in
  let servicesWithPermissions := workload_Name ∘ dsv_workload <$> List.filter dsv_permissions services in
  let& a := call (applyNS d) in
  let& _ := note (λ p, set_nns (ap_new a) (set_uns (ap_updated a) (set_ons (ap_old a) p))) in
  let& _ := match ap_err a with Some e => throw (ErrApply e) | None => dret tt end in
  let& (n, u, o, err) := call (applyNetPolicies settings d) in
  let& _ := note (set_policies (MkTracked n u o)) in
  let& _ := match err with Some e => throw (ErrApply e) | None => dret tt end in
  let& cleaned := call (cleanupStaleResources group servicesWithPermissions) in
  let& _ := match cleaned with Some e => throw (ErrApply e) | None => dret tt end in
  let& _ := list_names Services in
  let& _ := list_names Deployments in
  let& _ := list_names StatefulSets in
  apply_services services.

(** The deferred function: an error, or a panic, recovers the previous objects. *)
Definition with_recovery (name : string) (body : D unit) (s : server) : option deploy_error * server :=
  match body (MkDState s no_previous) with
  | (Done _, t) => (None, d_server t)
  | (Fail e, t) => (Some e, (previous_recover name (d_po t) (d_server t)).2)
  | (Crash, t) => (Some ErrInternalError, (previous_recover name (d_po t) (d_server t)).2)
  end.

(** The settings come with the context; [nads] answers the listing of the
    rails, which is asked for only where a service needs them. *)
Definition Deploy (settings : option Settings) (ns : string) (nads : result kerror (list string)) (st : list SchedulerParams)
  (lid : LeaseID) (group : Group) (params : cluster_params) (resourceVersion : string) (s : server) : option deploy_error * server :=
  match settings with
  | None => (Some ErrNotConfiguredWithSettings, s)
  | Some settings =>
      match ValidateSettings settings with
      | Some e => (Some (ErrSettings e), s)
      | None =>
          match ClusterDeploymentFromDeployment st lid group params resourceVersion with
          | Err e => (Some (ErrBuilder e), s)
          | Ok cdeployment =>
              let rails :=
                if deploymentNeedsRoCENetworks st cdeployment && negb (s_InterconnectRoCENetworksNamespace settings =? "")
                then match interconnectRoCENetworks (s_InterconnectRoCENetworksNamespace settings) nads with
                  | Ok networks => Ok (with_networks networks settings)
                  | Err e => Err e
                  end
                else Ok settings in
              match rails with
              | Err e => (Some e, s)
              | Ok settings => with_recovery (LidNS lid) (deploy_body settings ns st cdeployment) s
              end
          end
      end
  end.

(** ** Teardown *)

(** [errors.Join] of what is left of the two errors. *)
Definition TeardownLease (lid : LeaseID) : M (list kerror) :=
  let% r := kc_delete Namespaces (LidNS lid) in
  let% m := kc_delete Manifests (LidNS lid) in
  let left (r : result kerror unit) := match r with Ok _ => [] | Err NotFound => [] | Err e => [e] end in
  kret (left r ++ left m)%list.

End deploy.
