(* ===== verification/KubeDeploySound.v ===== *)
(** * What deploying promises *)
From Stdlib Require Import Ascii String.
From S2P Require Import Prelude GoStrings ChainTypes ClusterTypes LeaseNames CrdManifest HostRoutes MetalLb KubeDeclare.
From S2P Require Import ManifestManager KubeObjects Workload WorkloadSound NetPol KubeApi KubeApply KubeApplySound KubeDeploy.

Open Scope string_scope.

(** Each service that is kept is one of the set, and once. *)
Lemma services_kept_spec (S : gset string) l R : services_kept S l = Some R → NoDup l ∧ list_to_set l ⊆ S ∧ R = S ∖ list_to_set l.
Proof.
  revert S. induction l as [|x l IH]; intros S; cbn; [intros [= <-]; split_and!; [constructor|set_solver|set_solver]|].
  case_bool_decide as Hx; [|done]. intros (Hnd & Hsub & ->)%IH. split_and!; [constructor; [|done]|set_solver|set_solver].
  intros Hin. assert (x ∈ (list_to_set l : gset string)) as Hin' by by apply elem_of_list_to_set. set_solver.
Qed.

Lemma check_names_spec o u : NoDup (manifest_names (o_res o)) → check_names (Some o) (Some u) = true → manifest_names u ≡ₚ manifest_names (o_res o).
Proof.
  intros Hnd. unfold check_names. destruct (services_kept _ _) as [R|] eqn:E; [|done]. intros Hr%bool_decide_eq_true.
  apply services_kept_spec in E as (Hu & Hsub & ->). apply NoDup_Permutation; [done|done|]. intros x.
  rewrite <- (elem_of_list_to_set (C := gset string) x (manifest_names u)), <- (elem_of_list_to_set (C := gset string) x (manifest_names (o_res o))).
  split; [apply Hsub|]. intros Hx. destruct (decide (x ∈ (list_to_set (manifest_names u) : gset string))) as [Hin|Hout]; [done|].
  exfalso. apply (not_elem_of_empty (C := gset string) x). rewrite <- Hr. by apply elem_of_difference.
Qed.

Section proofs.
Context `{GoUnicode} `{Cosmos} `{Protocols} `{!KubeProtocols} `{!ManifestSdk} `{KubeSdk} `{ChainSdk} `{MapOrder}.

(** ** Names of services *)

Lemma services_toCRD_names l sps st ms st' : services_toCRD l sps st = Ok (ms, st') → List.length l = List.length sps → ms_Name <$> ms = svc_Name <$> l.
Proof.
  revert sps st ms. induction l as [|svc l IH]; intros sps st ms; cbn; [by intros [= <- _]|].
  destruct sps as [|sp sps]; [done|]. intros Hr [= Hlen]. rewrite rbind_ok in Hr. destruct Hr as ([m st1] & Hm & Hr). rewrite rbind_ok in Hr. destruct Hr as ([ms' st2] & Hms & [= <- <-]).
  cbn. f_equal; [|by eapply IH]. unfold manifestServiceFromProvider in Hm. rewrite rbind_ok in Hm. destruct Hm as (res & _ & Hm).
  destruct (apply_tee _ _ _) as [sp' st'']. by injection Hm as <- <-.
Qed.

Lemma manifest_spec_names ns st d spec : manifest_spec ns st d = Ok spec → ms_Name <$> mg_Services (mf_Group spec) = svc_Name <$> g_Services (cd_Group d).
Proof.
  unfold manifest_spec, NewManifest. destruct (Nat.eqb_spec (List.length (g_Services (cd_Group d))) (List.length (cd_Sparams d))) as [Hlen|]; cbn [negb]; [|done].
  rewrite rbind_ok. intros ([m st'] & Hm & [= <-]). rewrite rbind_ok in Hm. destruct Hm as ([g st2] & Hg & [= <- <-]). cbn.
  unfold manifestGroupToCRD in Hg. rewrite rbind_ok in Hg. destruct Hg as ([ms st3] & Hms & [= <- <-]). cbn.
  rewrite <- list_fmap_compose. rewrite (list_fmap_ext _ ms_Name) by done. by eapply services_toCRD_names.
Qed.

(** Recovering only the manifest, from the version that is stored, changes
    nothing. *)
Lemma update_same {A} `{EqDecision A} (K : kind A) name o s :
  kd_get K (sv_kube s) !! name = Some o → sv_kube (kc_update K name (Some (o_version o)) (o_res o) s).2 = sv_kube s.
Proof.
  intros Ho. unfold kc_update, request, kbind, answer, read. destruct (sv_answers s) as [|[e|] l]; cbn -[bool_decide]; [|done|]; rewrite Ho;
    rewrite bool_decide_eq_true_2 by (by right); by rewrite bool_decide_eq_true_2.
Qed.

Lemma recover_manifest name p s :
  p = set_omani (po_omani p) no_previous → (∀ o, po_omani p = Some o → k_manifests (sv_kube s) !! name = Some o) →
  sv_kube (previous_recover name p s).2 = sv_kube s.
Proof.
  intros -> Ho. cbn [set_omani po_omani] in Ho. unfold previous_recover. cbn. destruct (po_omani p) as [o|]; [|done].
  specialize (Ho o eq_refl). pose proof (update_same Manifests name o s Ho) as E. revert E. unfold kbind.
  destruct (kc_update Manifests name (Some (o_version o)) (o_res o) s) as [[a|] s']; by cbn.
Qed.

(** How the manifest is applied when there is one. *)
Lemma apply_manifest_existing ns st d o k l x t :
  k_manifests k !! LidNS (cd_Lid d) = Some o → cd_updateManifest d = true → NoDup (manifest_names (o_res o)) →
  apply_manifest ns st d (MkDState (MkServer k l) no_previous) = (x, t) →
  (svc_Name <$> g_Services (cd_Group d) ≡ₚ manifest_names (o_res o))
  ∨ (∃ e, x = Fail e) ∧ sv_kube (d_server t) = k ∧ d_po t = set_omani (po_omani (d_po t)) no_previous ∧ (∀ o', po_omani (d_po t) = Some o' → o' = o).
Proof.
  intros Ho Hup Hnd. unfold apply_manifest, dbind at 1, call at 1. cbn [d_server].
  assert (∃ l', kc_get Manifests (LidNS (cd_Lid d)) (MkServer k l) = (Ret (Ok o), MkServer k l') ∨ ∃ e, kc_get Manifests (LidNS (cd_Lid d)) (MkServer k l) = (Ret (Err e), MkServer k l')) as (l' & Hget).
  { unfold kc_get, request, kbind, answer, read. destruct l as [|[e|] l]; cbn -[LeaseIDToNamespace]; [|by exists l; right; exists e|]; rewrite Ho; eexists; by left. }
  destruct Hget as [-> |[e ->]].
  - unfold dbind at 1 2, note. unfold dret at 1. rewrite Hup. cbn [negb]. destruct (manifest_Update ns st d (o_res o)) as [u|e] eqn:Eu.
    + destruct (check_names (Some o) (Some u)) eqn:Ec; cbn [negb].
      * intros _. left. apply check_names_spec in Ec; [|done]. rewrite <- Ec. unfold manifest_Update in Eu. rewrite rbind_ok in Eu. destruct Eu as (spec & Hspec & [= <-]).
        unfold manifest_names. cbn [rs_Spec]. by rewrite (manifest_spec_names _ _ _ _ Hspec).
      * intros [= <- <-]. right. cbn. split_and!; [by eexists|done|done|by intros ? [= <-]].
    + intros [= <- <-]. right. cbn. split_and!; [by eexists|done|done|by intros ? [= <-]].
  - destruct e; [|intros [= <- <-]; right; cbn; split_and!; [by eexists|done|done|done]..].
    unfold dbind at 1, dret at 1. rewrite Hup. cbn [negb]. destruct (manifest_Create ns st d) as [n|e] eqn:En; [|intros [= <- <-]; right; cbn; split_and!; [by eexists|done|done|done]].
    unfold dbind at 1, call at 1. cbn [d_server]. destruct (kc_create Manifests (LidNS (cd_Lid d)) n (MkServer k l')) as [r s1] eqn:Ec.
    destruct (create_run _ _ _ _ _ _ Ec) as ([m|e] & -> & Hm); [destruct Hm as (_ & Hno & _); cbn in Hno; congruence|].
    intros [= <- <-]. right. cbn. split_and!; [by eexists|done|done|done].
Qed.

Lemma reservation_deployment st lid group reservation v d :
  ClusterDeploymentFromDeployment st lid group (AsReservation reservation) v = Ok d → cd_updateManifest d = true ∧ cd_Lid d = lid ∧ cd_Group d = group.
Proof.
  unfold ClusterDeploymentFromDeployment. rewrite rbind_ok. intros ([sps b] & Hp & Hr). rewrite rbind_ok in Hp. destruct Hp as (sps' & _ & [= <- <-]).
  rewrite rbind_ok in Hr. by destruct Hr as (_ & _ & [= <-]).
Qed.

(** Claim C23.  The services of a deployed lease are fixed: a manifest that
    renames, adds or removes a service of a lease that has one is refused with
    an error and nothing in the cluster changes, whatever the server answers. *)
Theorem services_fixed (settings : option Settings) (ns : string) (nads : result kerror (list string)) (st : list SchedulerParams) (lid : LeaseID)
  (group : Group) (reservation : gmap Z (option nat)) (version : string) (s s' : server) (err : option deploy_error) (o : object ManifestSpec)
  (Hmanifest : k_manifests (sv_kube s) !! LidNS lid = Some o) (Hnames : NoDup (manifest_names (o_res o)))
  (Hrun : Deploy settings ns nads st lid group (AsReservation reservation) version s = (err, s')) :
  svc_Name <$> g_Services group ≡ₚ manifest_names (o_res o) ∨ (err ≠ None ∧ sv_kube s' = sv_kube s).
Proof.
  unfold Deploy in Hrun. destruct settings as [settings|]; [|injection Hrun as <- <-; by right].
  destruct (ValidateSettings settings); [injection Hrun as <- <-; by right|].
  destruct (ClusterDeploymentFromDeployment st lid group (AsReservation reservation) version) as [d|e] eqn:Ed; [|injection Hrun as <- <-; by right].
  destruct (reservation_deployment _ _ _ _ _ _ Ed) as (Hup & Hlid & Hgroup).
  destruct (if deploymentNeedsRoCENetworks st d && _ then _ else _) as [settings'|e]; [|injection Hrun as <- <-; by right].
  unfold with_recovery, deploy_body in Hrun. unfold dbind at 1 in Hrun.
  destruct (apply_manifest ns st d (MkDState s no_previous)) as [x t] eqn:Em. destruct s as [k l]. cbn [sv_kube] in *. rewrite <- Hlid in Hmanifest.
  destruct (apply_manifest_existing ns st d o k l x t Hmanifest Hup Hnames Em) as [Hperm|((e & ->) & Hk & Hpo & Ho)]; [left; by rewrite <- Hgroup|].
  injection Hrun as <- <-. right. split; [done|]. rewrite recover_manifest; [done|done|]. intros o' Ho'. rewrite Hk, <- Hlid. by rewrite (Ho o' Ho').
Qed.

(** ** What a successful deployment leaves *)

Lemma dbind_done {A B} (c : D A) (f : A → D B) s b t : dbind c f s = (Done b, t) → ∃ a s1, c s = (Done a, s1) ∧ f a s1 = (Done b, t).
Proof. unfold dbind. destruct (c s) as [[a|e|] s1]; [|done|done]. intros Hf. by exists a, s1. Qed.

Lemma call_done {A} (c : M A) s a t : call c s = (Done a, t) → c (d_server s) = (Ret a, d_server t) ∧ d_po t = d_po s.
Proof. unfold call. destruct (c (d_server s)) as [[a'|] v]; [|done]. by intros [= <- <-]. Qed.

(** A server that carries out every request goes on to. *)
Definition calm {A} (c : M A) : Prop := ∀ s, sv_answers s = [] → sv_answers (c s).2 = [].

Lemma calm_bind {A B} (c : M A) (k : A → M B) : calm c → (∀ a, calm (k a)) → calm (kbind c k).
Proof. intros Hc Hk s Hs. unfold kbind. specialize (Hc s Hs). destruct (c s) as [[a|] s'] eqn:E; cbn in *; [|done]. by apply Hk. Qed.
Lemma calm_answer : calm answer.
Proof. intros s Hs. unfold answer. by rewrite Hs. Qed.
Lemma calm_pure {A} (c : M A) : (∀ s, sv_answers (c s).2 = sv_answers s) → calm c.
Proof. intros Hc s Hs. by rewrite Hc. Qed.

Ltac calm_down :=
  repeat first
    [ apply calm_answer | apply calm_bind; [|intros ?] | apply calm_pure; intros ?; done
    | progress unfold request, put, kc_get, kc_create, kc_update, kc_delete, kc_list, kc_delete_collection, kc_patch, delete_all, delete_listed, and_then, apply_object
    | case_match ].

Lemma calm_object {A} `{EqDecision A} (K : kind A) name create update needed : calm (apply_object K name create update needed).
Proof. calm_down. Qed.
Lemma keeps_object {X A} `{EqDecision A} (f : kube → X) (K : kind A) name create update needed :
  (∀ m k, f (kd_set K m k) = f k) → (∀ k, f (tick k) = f k) → keeps f (apply_object K name create update needed).
Proof.
  intros Hf Ht. unfold apply_object. keep; apply keeps_write; intros k; by rewrite ?Ht, Hf.
Qed.

(** The pods of a workload, in what controls them. *)
Definition template_of (w : Workload) (t : PodTemplate) : Prop :=
  (∃ b, pod_spec w b = Ret (pt_Spec t)) ∧ (∃ current, pt_Labels t = podLabels w current) ∧ pt_Annotations t = podAnnotations w.

Definition stateful_of (w : Workload) (o : object StatefulSetSpec) : Prop :=
  let spec := rs_Spec (o_res o) in
  template_of w (st_Template spec) ∧ st_Replicas spec = replicas w ∧ st_Selector spec = workload_selectorLabels w ∧ st_VolumeClaimTemplates spec = persistentVolumeClaims w.

Definition deployment_of (w : Workload) (o : object DeploymentSpec) : Prop :=
  let spec := rs_Spec (o_res o) in
  template_of w (ds_Template spec) ∧ ds_Replicas spec = replicas w ∧ ds_Selector spec = workload_selectorLabels w ∧ ds_Strategy spec = Some new_strategy.

Lemma applyStatefulSet_run w s r s' : applyStatefulSet w s = (Ret r, s') → ap_err r = None →
  ∃ o, k_stateful (sv_kube s') = <[workload_Name w := o]> (k_stateful (sv_kube s)) ∧ stateful_of w o.
Proof.
  intros Hr He. apply stateful_exact in Hr. rewrite He in Hr. destruct Hr as (o & Hk & Ho). exists o. split; [done|]. cbn in Ho.
  destruct (k_stateful (sv_kube s) !! workload_Name w) as [old|]; rewrite obind_ret in Ho; destruct Ho as (x & Hx & [= ->]);
    unfold statefulSet_Create, statefulSet_Update in Hx; rewrite obind_ret in Hx; destruct Hx as (spec & Hspec & Hx); injection Hx as Hx;
    unfold stateful_of, template_of; rewrite <- Hx; cbn; eauto 10.
Qed.

(** Requests that are carried out. *)
Lemma get_calm {A} (K : kind A) name s : sv_answers s = [] →
  kc_get K name s = (Ret (match kd_get K (sv_kube s) !! name with Some o => Ok o | None => Err NotFound end), s).
Proof. intros Hs. unfold kc_get, request, kbind, answer, read, kret. rewrite Hs. done. Qed.

Lemma create_calm {A} (K : kind A) `{!Kind K} name x s : sv_answers s = [] → kd_get K (sv_kube s) !! name = None →
  ∃ o s', kc_create K name x s = (Ret (Ok o), s') ∧ o_res o = x ∧ kd_get K (sv_kube s') = <[name := o]> (kd_get K (sv_kube s)).
Proof.
  intros Hs Hn. unfold kc_create, request, kbind, answer, read. rewrite Hs, Hn, put_run. do 2 eexists. split; [reflexivity|]. split; [done|]. cbn. by rewrite kind_tick, kind_get.
Qed.

Lemma update_calm {A} `{EqDecision A} (K : kind A) `{!Kind K} name x s old : sv_answers s = [] → kd_get K (sv_kube s) !! name = Some old →
  ∃ o s', kc_update K name (Some (o_version old)) x s = (Ret (Ok o), s') ∧ o_res o = x ∧ sv_answers s' = []
    ∧ kd_get K (sv_kube s') = <[name := o]> (kd_get K (sv_kube s)).
Proof.
  intros Hs Hn. unfold kc_update, request, kbind, answer, read. rewrite Hs, Hn. rewrite bool_decide_eq_true_2 by (by right). case_bool_decide as Ex.
  - exists old, s. split_and!; [done|done|done|]. by rewrite insert_id.
  - rewrite put_run. do 2 eexists. split; [reflexivity|]. split_and!; [done|done|]. cbn. by rewrite kind_tick, kind_get.
Qed.

Lemma patch_calm {A} `{EqDecision A} (K : kind A) `{!Kind K} name f s old : sv_answers s = [] → kd_get K (sv_kube s) !! name = Some old →
  ∃ o s', kc_patch K name f s = (Ret (Ok o), s') ∧ o_res o = f (o_res old) ∧ kd_get K (sv_kube s') = <[name := o]> (kd_get K (sv_kube s)).
Proof.
  intros Hs Hn. unfold kc_patch, request, kbind, answer, read. rewrite Hs, Hn. case_bool_decide as Ex.
  - exists old, s. split_and!; [done|done|]. by rewrite insert_id.
  - rewrite put_run. do 2 eexists. split; [reflexivity|]. split_and!; [done|]. cbn. by rewrite kind_tick, kind_get.
Qed.

Lemma deployment_Update_of w old u : deployment_Update w old = Ret u →
  let spec := rs_Spec u in template_of w (ds_Template spec) ∧ ds_Replicas spec = replicas w ∧ ds_Selector spec = workload_selectorLabels w.
Proof.
  unfold deployment_Update. rewrite obind_ret. intros (spec & Hspec & [= <-]). unfold template_of. cbn. eauto 10.
Qed.

Lemma applyDeployment_run w s r s' : sv_answers s = [] → applyDeployment w s = (Ret r, s') →
  ∃ o, k_deployments (sv_kube s') = <[workload_Name w := o]> (k_deployments (sv_kube s)) ∧ deployment_of w o.
Proof.
  intros Hs. unfold applyDeployment. unfold kbind at 1. rewrite get_calm by done. cbn [kd_get Deployments].
  destruct (k_deployments (sv_kube s) !! workload_Name w) as [old|] eqn:Eo.
  - unfold kbind at 1, of_outcome. destruct (deployment_Update w (o_res old)) as [u|] eqn:Eu; [|done]. apply deployment_Update_of in Eu as Hu. unfold kbind at 1.
    assert (∃ uobj s1, (if IsObjectRevisionLatest (w_deployment w) (rs_Labels u) || spec_differs u (o_res old) || labels_differ u (o_res old)
      then (let% r := kc_update Deployments (workload_Name w) (Some (o_version old)) u in kret (match r with Ok uobj => Some uobj | Err _ => None end))%go
      else kret (Some (MkObj (o_version old) u))) s = (Ret uobj, s1) ∧ sv_answers s1 = []
      ∧ ∃ o, k_deployments (sv_kube s1) = <[workload_Name w := o]> (k_deployments (sv_kube s)) ∧ rs_Spec (o_res o) = rs_Spec u) as (uobj & s1 & -> & Hs1 & o & Hk & Ho).
    { destruct (_ || _) eqn:En.
      - unfold kbind. destruct (update_calm Deployments (workload_Name w) u s old Hs Eo) as (o & s1 & -> & Ho & Hs1 & Hk). do 2 eexists. split; [reflexivity|]. split; [done|]. exists o. by rewrite Ho.
      - do 2 eexists. split; [reflexivity|]. split; [done|]. exists old. rewrite insert_id by done. split; [done|].
        rewrite !orb_false_iff in En. destruct En as [[_ En] _]. unfold spec_differs in En. apply negb_false_iff, bool_decide_eq_true in En. done. }
    unfold kbind at 1. destruct (patch_calm Deployments (workload_Name w) (patch_deployment (negb (bool_decide (ds_RevisionHistoryLimit (rs_Spec (o_res old)) = Some 10%Z)))) s1 o Hs1) as (p & s2 & -> & Hp & Hk2).
    { cbn. by rewrite Hk, lookup_insert_eq. }
    intros [= <- <-]. exists p. cbn in Hk2. rewrite Hk2, Hk, insert_insert_eq. split; [done|]. unfold deployment_of. rewrite Hp. cbn. rewrite Ho. split_and!; apply Hu || done.
  - unfold kbind at 1, of_outcome. destruct (deployment_Create w) as [n|] eqn:En; [|done]. unfold kbind.
    destruct (create_calm Deployments (workload_Name w) n s Hs Eo) as (o & s1 & -> & Ho & Hk). intros [= <- <-]. exists o. split; [done|]. unfold deployment_of. rewrite Ho.
    unfold deployment_Create in En. rewrite obind_ret in En. destruct En as (spec & Hspec & [= <-]). unfold template_of. cbn. eauto 10.
Qed.

(** What counts of the cluster here: the manifests and what controls pods. *)
Definition pods_of (k : kube) := (k_manifests k, k_stateful k, k_deployments k).

(** A step that leaves something alone, on a server that carries out requests. *)
Definition aside {X A} (f : kube → X) (c : D A) : Prop :=
  ∀ s a t, c s = (Done a, t) → sv_answers (d_server s) = [] → sv_answers (d_server t) = [] ∧ f (sv_kube (d_server t)) = f (sv_kube (d_server s)).

Section aside.
Context {X : Type} (f : kube → X).

Lemma aside_call {A} (c : M A) : calm c → keeps f c → aside f (call c).
Proof. intros Hc Hk s a t Ht Hs. apply call_done in Ht as [E _]. pose proof (Hc _ Hs) as H'. specialize (Hk (d_server s)). by rewrite E in H', Hk. Qed.

Lemma aside_bind {A B} (c : D A) (k : A → D B) : aside f c → (∀ a, aside f (k a)) → aside f (dbind c k).
Proof.
  intros Hc Hf s b t Ht Hs. apply dbind_done in Ht as (a & s1 & H1' & H2'). destruct (Hc _ _ _ H1' Hs) as [Hs1 E1]. destruct (Hf _ _ _ _ H2' Hs1) as [Hs2 E2].
  by rewrite E2.
Qed.

Lemma aside_ret {A} (a : A) : aside f (dret a).
Proof. by intros s b t [= _ <-] Hs. Qed.
Lemma aside_throw {A} e : aside f (@throw A e).
Proof. done. Qed.
Lemma aside_note g : aside f (note g).
Proof. by intros s b t [= _ <-] Hs. Qed.
Lemma aside_when b c : aside f c → aside f (when b c).
Proof. intros Hc. destruct b; [done|apply aside_ret]. Qed.

Lemma aside_noted {A} `{EqDecision A} (K : kind A) name create update needed notes :
  (∀ m k, f (kd_set K m k) = f k) → (∀ k, f (tick k) = f k) → aside f (apply_noted (apply_object K name create update needed) notes).
Proof.
  intros Hf Ht. apply aside_bind; [apply aside_call; [apply calm_object|by apply keeps_object]|]. intros a. destruct (ap_err a); [apply aside_throw|apply aside_note].
Qed.

(** A step that is passed. *)
Lemma aside_peel {A B} (c : D A) (k : A → D B) s b t : aside f c → dbind c k s = (Done b, t) → sv_answers (d_server s) = [] →
  ∃ a s1, k a s1 = (Done b, t) ∧ sv_answers (d_server s1) = [] ∧ f (sv_kube (d_server s1)) = f (sv_kube (d_server s)).
Proof. intros Hc E0 E1. apply dbind_done in E0 as (a & s1 & Ea & Eb). destruct (Hc _ _ _ Ea E1) as [? ?]. by exists a, s1. Qed.

End aside.

(** The workload runs: what controls its pods is stored. *)
Definition runs_workload (persistent : bool) (w : Workload) (k : kube) : Prop :=
  if persistent then ∃ o, k_stateful k !! workload_Name w = Some o ∧ stateful_of w o
  else ∃ o, k_deployments k !! workload_Name w = Some o ∧ deployment_of w o.

Definition apart (name : string) (k k' : kube) : Prop :=
  k_manifests k' = k_manifests k ∧ ∀ n, n ≠ name → k_stateful k' !! n = k_stateful k !! n ∧ k_deployments k' !! n = k_deployments k !! n.

Lemma apply_controller_run svc s x t :
  dbind (when (dsv_persistent svc) (apply_noted (applyStatefulSet (dsv_workload svc)) (λ a p, set_stateful (track (workload_Name (dsv_workload svc)) a (po_stateful p)) p)))
   (λ _, when (negb (dsv_persistent svc)) (apply_noted (applyDeployment (dsv_workload svc)) (λ a p, set_deployments (track (workload_Name (dsv_workload svc)) a (po_deployments p)) p))) s
    = (Done x, t) → sv_answers (d_server s) = [] →
  sv_answers (d_server t) = [] ∧ runs_workload (dsv_persistent svc) (dsv_workload svc) (sv_kube (d_server t))
  ∧ apart (workload_Name (dsv_workload svc)) (sv_kube (d_server s)) (sv_kube (d_server t)).
Proof.
  intros Ht Hs. set (w := dsv_workload svc) in *. apply dbind_done in Ht as ([] & s1 & H1' & H2'). unfold runs_workload. destruct (dsv_persistent svc); cbn [when negb] in *.
  - injection H2' as _ <-. apply dbind_done in H1' as (a & s2 & Hc & Hn). apply call_done in Hc as [Hc _]. destruct (ap_err a) eqn:Ea; [done|]. injection Hn as <-. cbn.
    pose proof (calm_object StatefulSets _ _ _ _ _ Hs : sv_answers (applyStatefulSet w (d_server s)).2 = []) as Hcalm. rewrite Hc in Hcalm. split; [done|].
    assert (keeps (λ k, (k_manifests k, k_deployments k)) (applyStatefulSet w)) as Hk by by apply keeps_object.
    specialize (Hk (d_server s)). rewrite Hc in Hk. injection Hk as Em Ed. destruct (applyStatefulSet_run _ _ _ _ Hc Ea) as (o & E & Ho). cbn in *.
    split; [exists o; split; [by rewrite E, lookup_insert_eq|done]|]. split; [done|]. intros n Hne. by rewrite E, lookup_insert_ne, Ed.
  - injection H1' as <-. apply dbind_done in H2' as (a & s2 & Hc & Hn). apply call_done in Hc as [Hc _]. destruct (ap_err a) eqn:Ea; [done|]. injection Hn as _ <-. cbn.
    assert (calm (applyDeployment w)) as Hcalm by (unfold applyDeployment; calm_down). specialize (Hcalm _ Hs). rewrite Hc in Hcalm. split; [done|].
    assert (keeps (λ k, (k_manifests k, k_stateful k)) (applyDeployment w)) as Hk by (unfold applyDeployment; keep).
    specialize (Hk (d_server s)). rewrite Hc in Hk. injection Hk as Em Ed. destruct (applyDeployment_run _ _ _ _ Hs Hc) as (o & E & Ho). cbn in *.
    split; [exists o; split; [by rewrite E, lookup_insert_eq|done]|]. split; [done|]. intros n Hne. by rewrite E, lookup_insert_ne, Ed.
Qed.

Lemma apart_of_pods name k k' : pods_of k' = pods_of k → apart name k k'.
Proof. intros [= Em Es Ed]. split; [done|]. intros n _. by rewrite Es, Ed. Qed.

Lemma apart_trans name k1 k2 k3 : apart name k1 k2 → apart name k2 k3 → apart name k1 k3.
Proof. intros [E1 H12] [E2 H23]. split; [by rewrite E2|]. intros n Hn. destruct (H12 n Hn) as [<- <-]. by apply H23. Qed.

Lemma runs_pods b w k k' : pods_of k' = pods_of k → runs_workload b w k → runs_workload b w k'.
Proof. intros [= Em Es Ed]. unfold runs_workload. by rewrite Es, Ed. Qed.

Lemma runs_apart b w k k' name : apart name k k' → workload_Name w ≠ name → runs_workload b w k → runs_workload b w k'.
Proof. intros [_ Ha] Hn. unfold runs_workload. destruct (Ha _ Hn) as [-> ->]. done. Qed.

Lemma apply_service_run svc s x t : apply_service svc s = (Done x, t) → sv_answers (d_server s) = [] →
  sv_answers (d_server t) = [] ∧ runs_workload (dsv_persistent svc) (dsv_workload svc) (sv_kube (d_server t))
  ∧ apart (workload_Name (dsv_workload svc)) (sv_kube (d_server s)) (sv_kube (d_server t)).
Proof.
  intros Ht Hs. unfold apply_service in Ht.
  apply (aside_peel pods_of) in Ht as (_ & s1 & Ht & Hs1 & E1); [|by apply aside_when, aside_noted|done].
  apply (aside_peel pods_of) in Ht as (_ & s2 & Ht & Hs2 & E2); [|by apply aside_when, aside_noted|done].
  apply (aside_peel pods_of) in Ht as (_ & s3 & Ht & Hs3 & E3); [|by apply aside_when, aside_noted|done].
  apply (aside_peel pods_of) in Ht as (_ & s4 & Ht & Hs4 & E4); [|destruct (dsv_credentials svc); [by apply aside_noted|apply aside_ret]|done].
  apply dbind_done in Ht as ([] & s5 & C1 & Ht). apply dbind_done in Ht as ([] & s6 & C2 & Ht).
  destruct (apply_controller_run svc s4 tt s6) as (Hs6 & Hruns & Hap); [by unfold dbind; rewrite C1|done|].
  apply (aside_peel pods_of) in Ht as (_ & s7 & Ht & Hs7 & E7); [|by apply aside_when, aside_noted|done].
  assert (aside pods_of (when (dsv_exposed svc && service_Any (dsv_workload svc) true) (apply_noted (applyService (dsv_workload svc) true)
    (λ a p, set_global (track (service_Name (dsv_workload svc) true) a (po_global p)) p)))) as Hlast by by apply aside_when, aside_noted.
  destruct (Hlast _ _ _ Ht Hs7) as [Hs8 E8]. split; [done|]. rewrite E7 in E8. split; [by eapply runs_pods|].
  apply (apart_trans _ _ (sv_kube (d_server s4))); [apply apart_of_pods; congruence|]. eapply apart_trans; [done|by apply apart_of_pods].
Qed.

Lemma apply_services_run l s x t : NoDup (workload_Name ∘ dsv_workload <$> l) → apply_services l s = (Done x, t) → sv_answers (d_server s) = [] →
  k_manifests (sv_kube (d_server t)) = k_manifests (sv_kube (d_server s))
  ∧ (∀ n, n ∉ workload_Name ∘ dsv_workload <$> l → k_stateful (sv_kube (d_server t)) !! n = k_stateful (sv_kube (d_server s)) !! n
      ∧ k_deployments (sv_kube (d_server t)) !! n = k_deployments (sv_kube (d_server s)) !! n)
  ∧ Forall (λ svc, runs_workload (dsv_persistent svc) (dsv_workload svc) (sv_kube (d_server t))) l.
Proof.
  revert s. induction l as [|svc l IH]; intros s; cbn [fmap list_fmap apply_services].
  - intros _ [= _ <-] _. split_and!; [done|done|constructor].
  - intros [Hnot Hnd]%NoDup_cons Ht Hs. apply dbind_done in Ht as (x' & s1 & H1' & Ht). destruct (apply_service_run _ _ _ _ H1' Hs) as (Hs1 & Hr & Hm & Hap).
    destruct (IH s1 Hnd Ht Hs1) as (Em & Ek & Hall). split_and!; [by rewrite Em| |].
    + intros n Hn. rewrite not_elem_of_cons in Hn. destruct Hn as [Hn Hn']. destruct (Ek n Hn') as [-> ->]. by apply Hap.
    + constructor; [|done]. unfold runs_workload in *. destruct (Ek _ Hnot) as [Es Ed]. cbn in Es, Ed. by rewrite Es, Ed.
Qed.

(** *** The rest of the deployment *)

Lemma prepare_services_done settings d m i l s svcs t : prepare_services settings d (Some m) i l s = (Done svcs, t) →
  t = s ∧ List.length svcs = List.length l
  ∧ ∀ j service, l !! j = Some service → ∃ w svc, svcs !! j = Some svc ∧ dsv_workload svc = w
      ∧ dsv_persistent svc = existsb (λ x, (find_AsBool (sto_Attributes x) StorageAttributePersistent).1) (res_Storage (svc_Resources service))
      ∧ NewWorkloadBuilder settings d (thaw (rs_Spec (o_res m))).2 (thaw (rs_Spec (o_res m))).1 (i + j) = Ret (Ok w).
Proof.
  revert i s svcs. induction l as [|service l IH]; intros i s svcs; cbn [prepare_services]; [intros [= <- <-]; by split_and!|].
  unfold dbind at 1, call at 1, of_outcome, deref. intros Ht. apply dbind_done in Ht as (svc & s1 & Hp & Ht). apply dbind_done in Ht as (rest & s2 & Hr & [= <- <-]).
  unfold prepare_service in Hp. destruct (thaw (rs_Spec (o_res m))) as [group params] eqn:Et. unfold dbind, call, of_outcome in Hp.
  destruct (NewWorkloadBuilder settings d params group i) as [[w|e]|] eqn:Ew; cbn [d_server d_po] in Hp; [|done|done]. injection Hp as <- <-.
  destruct (IH _ _ _ Hr) as (-> & Hlen & Hall). split_and!; [by destruct s|cbn; by rewrite Hlen|].
  intros [|j] service' Hj; cbn in Hj.
  - injection Hj as <-. eexists w, _. cbn. rewrite Nat.add_0_r. by split_and!.
  - destruct (Hall j service' Hj) as (w' & svc' & H1' & H2' & H3' & H4'). exists w', svc'. cbn. rewrite Nat.add_succ_r. by split_and!.
Qed.

Lemma built_declared settings d params mani i w : NewWorkloadBuilder settings d params mani i = Ret (Ok w) →
  g_Services (cd_Group d) !! i = Some (w_declared w) ∧ w_deployment w = d ∧ w_settings w = settings.
Proof.
  unfold NewWorkloadBuilder. destruct (Group_FromCRD mani) as [[group sparams]|e]; [|done]. rewrite obind_ret. intros (service & _ & Hr).
  rewrite obind_ret in Hr. destruct Hr as (params' & _ & Hr). rewrite obind_ret in Hr. destruct Hr as (declared & Hd & Hr). rewrite obind_ret in Hr. destruct Hr as (v & _ & [= <-]). cbn.
  unfold deref in Hd. destruct (g_Services (cd_Group d) !! i); [|done]. by injection Hd as ->.
Qed.

(** The manifest that counts is the one that is stored, and it is the one the
    deployment asks for. *)
Lemma apply_manifest_done ns st d s cur t : apply_manifest ns st d s = (Done cur, t) → cd_updateManifest d = true → sv_answers (d_server s) = [] →
  ∃ m, cur = Some m ∧ k_manifests (sv_kube (d_server t)) !! LidNS (cd_Lid d) = Some m ∧ manifest_spec ns st d = Ok (rs_Spec (o_res m)) ∧ sv_answers (d_server t) = [].
Proof.
  intros Ht Hup Hs. unfold apply_manifest in Ht. unfold dbind at 1, call at 1 in Ht. rewrite get_calm in Ht by done. cbn [kd_get Manifests d_server d_po] in Ht.
  destruct (k_manifests (sv_kube (d_server s)) !! LidNS (cd_Lid d)) as [o|] eqn:Eo.
  - unfold dbind at 1 2, note, dret at 1 in Ht. rewrite Hup in Ht. cbn [negb d_server d_po] in Ht. destruct (manifest_Update ns st d (o_res o)) as [u|e] eqn:Eu; [|done].
    unfold manifest_Update in Eu. rewrite rbind_ok in Eu. destruct Eu as (spec & Hspec & [= <-]). destruct (negb (check_names _ _)); [done|]. destruct (_ || _) eqn:En.
    + unfold dbind at 1, call at 1 in Ht. cbn [d_server] in Ht.
      destruct (update_calm Manifests (LidNS (cd_Lid d)) (MkResource (rs_Labels (o_res o)) (rs_Annotations (o_res o)) spec) (d_server s) o Hs Eo) as (m & s' & E & Hm & Hs' & Hk).
      rewrite E in Ht. injection Ht as <- <-. exists m. cbn in *. rewrite Hk, lookup_insert_eq, Hm. by split_and!.
    + injection Ht as <- <-. cbn. rewrite !orb_false_iff in En. destruct En as [En _]. unfold spec_differs in En. apply negb_false_iff, bool_decide_eq_true in En. cbn in En.
      eexists. split_and!; [done| |done|done]. rewrite Eo. f_equal. destruct o as [v [la an sp]]; cbn in *. by subst.
  - unfold dbind at 1, dret at 1 in Ht. rewrite Hup in Ht. cbn [negb] in Ht. unfold manifest_Create in Ht. destruct (manifest_spec ns st d) as [spec|e] eqn:Hspec; [|done]. cbn [rbind] in Ht.
    unfold dbind at 1, call at 1 in Ht. cbn [d_server] in Ht. destruct (create_calm Manifests (LidNS (cd_Lid d)) (MkResource (manifest_labels d) ∅ spec) (d_server s) Hs Eo) as (m & s' & E & Hm & Hk).
    assert (calm (kc_create Manifests (LidNS (cd_Lid d)) (MkResource (manifest_labels d) ∅ spec))) as Hc by calm_down. specialize (Hc _ Hs). rewrite E in Hc.
    rewrite E in Ht. injection Ht as <- <-. exists m. cbn in *. rewrite Hk, lookup_insert_eq, Hm. by split_and!.
Qed.

Lemma calm_policies settings d : calm (applyNetPolicies settings d).
Proof.
  assert (∀ l, calm (apply_policies d l)) as Hl by (intros l; induction l; cbn [apply_policies]; unfold apply_policy; calm_down; done).
  unfold applyNetPolicies. apply calm_bind; [calm_down|]. intros [oobjs|e]; [|calm_down]. apply calm_bind; [done|]. intros [? ?]. calm_down.
Qed.
Lemma keeps_policies settings d : keeps k_manifests (applyNetPolicies settings d).
Proof.
  assert (∀ l, keeps k_manifests (apply_policies d l)) as Hl by (intros l; induction l; cbn [apply_policies]; unfold apply_policy; keep; done).
  unfold applyNetPolicies. apply keeps_bind; [keep|]. intros [oobjs|e]; [|keep]. apply keeps_bind; [done|]. intros [? ?]. keep.
Qed.

Lemma calm_cleanup group l : calm (cleanupStaleResources group l).
Proof.
  assert (∀ A (K : kind A) l, calm (delete_each K l)) as He by (intros A K l'; induction l' as [|[? ?] ? ?]; cbn [delete_each]; calm_down; done).
  unfold cleanupStaleResources, cleanupStaleRBACResources. calm_down; apply He.
Qed.
Lemma keeps_cleanup group l : keeps k_manifests (cleanupStaleResources group l).
Proof.
  unfold cleanupStaleResources, cleanupStaleRBACResources. keep; by apply keeps_delete_each.
Qed.

Lemma aside_list {A} (K : kind A) : aside k_manifests (list_names K).
Proof. apply aside_bind; [apply aside_call; [calm_down|keep]|]. intros [?|?]; [apply aside_ret|apply aside_throw]. Qed.

(** From a successful body: the workloads of the stored manifest run. *)
Definition deployed (settings : Settings) (d : ClusterDeployment) (k : kube) : Prop :=
  ∃ m, k_manifests k !! LidNS (cd_Lid d) = Some m
  ∧ ∀ i service, g_Services (cd_Group d) !! i = Some service →
      ∃ w, NewWorkloadBuilder settings d (thaw (rs_Spec (o_res m))).2 (thaw (rs_Spec (o_res m))).1 i = Ret (Ok w)
        ∧ runs_workload (existsb (λ x, (find_AsBool (sto_Attributes x) StorageAttributePersistent).1) (res_Storage (svc_Resources service))) w k.

Lemma deploy_body_done settings ns st d s x t : deploy_body settings ns st d s = (Done x, t) → sv_answers (d_server s) = [] →
  cd_updateManifest d = true → NoDup (svc_Name <$> g_Services (cd_Group d)) →
  ∃ v, deployed settings (with_version v d) (sv_kube (d_server t)).
Proof.
  intros Ht Hs Hup Hnd. unfold deploy_body in Ht. apply dbind_done in Ht as (cur & s1 & Hm & Ht).
  destruct (apply_manifest_done _ _ _ _ _ _ Hm Hup Hs) as (m & -> & Hk & _ & Hs1).
  apply dbind_done in Ht as (d' & s2 & Hd & Ht).
  assert (∃ v, d' = with_version v d ∧ d_server s2 = d_server s1) as (v & -> & Es).
  { destruct (cd_resourceVersion d =? ""); [|injection Hd as <- <-; exists (cd_resourceVersion d); by destruct d].
    unfold dbind, call, of_outcome, deref, dret in Hd. injection Hd as <- <-. by eexists. }
  rewrite <- Es in Hk, Hs1. apply dbind_done in Ht as (svcs & s3 & Hp & Ht). destruct (prepare_services_done _ _ _ _ _ _ _ _ Hp) as (-> & Hlen & Hall).
  apply (aside_peel k_manifests) in Ht as (a & s3 & Ht & Hs3 & E3); [|apply aside_call; [apply calm_object|by apply keeps_object]|done].
  apply (aside_peel k_manifests) in Ht as (_ & s4 & Ht & Hs4 & E4); [|apply aside_note|done].
  apply (aside_peel k_manifests) in Ht as (_ & s5 & Ht & Hs5 & E5); [|destruct (ap_err a); [apply aside_throw|apply aside_ret]|done].
  apply (aside_peel k_manifests) in Ht as ([[[n u] o] err] & s6 & Ht & Hs6 & E6); [|apply aside_call; [apply calm_policies|apply keeps_policies]|done].
  apply (aside_peel k_manifests) in Ht as (_ & s7 & Ht & Hs7 & E7); [|apply aside_note|done].
  apply (aside_peel k_manifests) in Ht as (_ & s8 & Ht & Hs8 & E8); [|destruct err; [apply aside_throw|apply aside_ret]|done].
  apply (aside_peel k_manifests) in Ht as (cleaned & s9 & Ht & Hs9 & E9); [|apply aside_call; [apply calm_cleanup|apply keeps_cleanup]|done].
  apply (aside_peel k_manifests) in Ht as (_ & s10 & Ht & Hs10 & E10); [|destruct cleaned; [apply aside_throw|apply aside_ret]|done].
  do 3 (apply (aside_peel k_manifests) in Ht as (_ & ?s & Ht & ?Hs & ?E); [|apply aside_list|done]).
  apply apply_services_run in Ht as (Em & _ & Hruns); [| |done].
  - exists v, m. split; [cbn [cd_Lid with_version]; rewrite Em; congruence|]. intros i service Hi. destruct (Hall i service Hi) as (w & svc & Hsvc & Hw & Hpers & Hb).
    exists w. split; [done|]. rewrite Forall_lookup in Hruns. specialize (Hruns i svc Hsvc). by rewrite Hpers, Hw in Hruns.
  - assert (workload_Name ∘ dsv_workload <$> svcs = svc_Name <$> g_Services (cd_Group (with_version v d))) as ->; [|done].
    apply list_eq_same_length with (List.length svcs); [by rewrite length_fmap, Hlen|by rewrite length_fmap|].
    intros i x1 x2 Hi. rewrite !list_lookup_fmap. destruct (svcs !! i) as [svc|] eqn:Esvc; [|done]. destruct (lookup_lt_is_Some_2 (g_Services (cd_Group (with_version v d))) i) as [service Hserv]; [by rewrite <- Hlen|].
    rewrite Hserv. destruct (Hall i service Hserv) as (w & svc' & Hsvc & Hw & _ & Hb). rewrite Esvc in Hsvc. injection Hsvc as <-.
    apply built_declared in Hb as (Hdecl & _ & _). cbn in Hdecl. cbn in Hserv. rewrite Hserv in Hdecl. injection Hdecl as ->. cbn. unfold workload_Name. rewrite Hw. by intros [= <-] [= <-].
Qed.

(** A deployment without error, on a server that carries out its requests. *)
Lemma deploy_deployed (settings : Settings) (ns : string) (nads : result kerror (list string)) (st : list SchedulerParams) (lid : LeaseID)
  (group : Group) (reservation : gmap Z (option nat)) (version : string) (k : kube) (s' : server)
  (Hnames : NoDup (svc_Name <$> g_Services group))
  (Hrun : Deploy (Some settings) ns nads st lid group (AsReservation reservation) version (MkServer k []) = (None, s')) :
  ∃ settings' d, cd_Lid d = lid ∧ cd_Group d = group ∧ deployed settings' d (sv_kube s').
Proof.
  unfold Deploy in Hrun. destruct (ValidateSettings settings); [done|].
  destruct (ClusterDeploymentFromDeployment st lid group (AsReservation reservation) version) as [d|e] eqn:Ed; [|done].
  destruct (reservation_deployment _ _ _ _ _ _ Ed) as (Hup & Hlid & Hgroup).
  destruct (if deploymentNeedsRoCENetworks st d && _ then _ else _) as [settings'|e]; [|done].
  unfold with_recovery in Hrun. destruct (deploy_body settings' ns st d (MkDState (MkServer k []) no_previous)) as [[x|e|] t] eqn:Eb; [|done|done].
  injection Hrun as <-. rewrite <- Hgroup in Hnames. destruct (deploy_body_done _ _ _ _ _ _ _ Eb eq_refl Hup Hnames) as (v & Hdep). by exists settings', (with_version v d).
Qed.

(** Claim C2.  On an API server that carries out every request, a lease that was
    deployed without an error runs: each service of the group has a stateful set
    or a deployment, by whether its storage is persistent, with the replicas, the
    selector and the pods that the builder makes of the stored manifest, and the
    manifest stored is one of this lease.  (Where the server refuses the update
    of a workload, no error is reported and nothing is claimed.) *)
Theorem lease_runs (settings : Settings) (ns : string) (nads : result kerror (list string)) (st : list SchedulerParams) (lid : LeaseID)
  (group : Group) (reservation : gmap Z (option nat)) (version : string) (k : kube) (s' : server)
  (Hnames : NoDup (svc_Name <$> g_Services group))
  (Hrun : Deploy (Some settings) ns nads st lid group (AsReservation reservation) version (MkServer k []) = (None, s')) :
  ∃ settings' d, cd_Lid d = lid ∧ cd_Group d = group ∧ deployed settings' d (sv_kube s').
Proof. by eapply deploy_deployed. Qed.

(** ** Teardown *)

(** A deletion that is carried out leaves the object absent, whether or not it
    was there. *)
Lemma delete_run {A} (K : kind A) name k a l : kd_set K (kd_get K k) k = k →
  ∃ r, kc_delete K name (MkServer k (a :: l)) = (Ret r, MkServer (if a then k else kd_set K (delete name (kd_get K k)) k) l)
    ∧ (if r is Err e then a = Some e ∨ (a = None ∧ e = NotFound) else a = None).
Proof.
  intros Hk. unfold kc_delete, request, kbind, answer, read, write, kret. destruct a as [e|]; cbn; [by exists (Err e); split; [|left]|].
  destruct (kd_get K k !! name) as [o|] eqn:E; cbn; [by exists (Ok tt)|]. exists (Err NotFound). rewrite delete_id, Hk by done. by split; [|right].
Qed.

(** What is left of an answer. *)
Lemma error_left (r : result kerror unit) (a : option kerror) : (if r is Err e then a = Some e ∨ (a = None ∧ e = NotFound) else a = None) →
  match r with Ok _ => [] | Err NotFound => [] | Err e => [e] end = filter (λ e, e ≠ NotFound) (option_list a)
  ∧ (filter (λ e, e ≠ NotFound) (option_list a) = [] ↔ a = None ∨ a = Some NotFound).
Proof.
  assert (filter (λ e, e ≠ NotFound) (option_list a) = [] ↔ a = None ∨ a = Some NotFound) as Ha.
  { destruct a as [e|]; [|split; [by left|done]]. change (option_list (Some e)) with [e]. rewrite filter_cons, filter_nil. case_decide as He; split; [done|intros [[=]|[=]]; done|intros _|done].
    right. destruct e; [done|by destruct He..]. }
  intros Hr. split; [|done]. destruct r as [?|e]; [by subst|]. destruct Hr as [->|[-> ->]]; [|done]. change (option_list (Some e)) with [e]. rewrite filter_cons, filter_nil. by destruct e.
Qed.

(** Claim C38.  A teardown asks the server twice, whatever it answers: to delete
    the namespace of the lease, and, even when that fails, to delete its
    manifest.  A deletion that the server carries out takes that one object away
    and touches nothing else (what is in the namespace is left to the cluster).
    The teardown reports exactly the errors of the two answers that are not
    [NotFound], so it reports nothing exactly when each deletion was carried
    out or was answered by the server with [NotFound]. *)
Theorem teardown_complete (lid : LeaseID) (k : kube) (a b : option kerror) (l : list (option kerror)) :
  ∃ errs s', TeardownLease lid (MkServer k (a :: b :: l)) = (Ret errs, s') ∧ sv_answers s' = l
  ∧ errs = filter (λ e, e ≠ NotFound) (option_list a ++ option_list b)%list
  ∧ (errs = [] ↔ (a = None ∨ a = Some NotFound) ∧ (b = None ∨ b = Some NotFound))
  ∧ sv_kube s' = kd_set Manifests (if b then k_manifests k else delete (LidNS lid) (k_manifests k))
                   (kd_set Namespaces (if a then k_namespaces k else delete (LidNS lid) (k_namespaces k)) k).
Proof.
  unfold TeardownLease, kbind, kret. destruct (delete_run Namespaces (LidNS lid) k a (b :: l)) as (r & -> & Hr); [by destruct k|].
  set (k1 := if a then k else _). destruct (delete_run Manifests (LidNS lid) k1 b l) as (m & -> & Hm); [by destruct k1|].
  apply error_left in Hr as [Er Ha], Hm as [Em Hb]. do 2 eexists. split; [reflexivity|]. split; [done|]. cbv zeta. rewrite Er, Em, filter_app. split; [done|split].
  - by rewrite app_nil, Ha, Hb.
  - unfold k1. by destruct k, a, b.
Qed.

End proofs.
