(* ===== verification/KubeSample.v ===== *)
(** * A deployed lease

    A lease with two services, one that stores data, the witnesses of the
    theorems about its objects, and what is missed: a port that is exposed with
    two protocols, addresses that are not public, names of policies that are the
    same, and a recovery that restores nothing. *)
From Stdlib Require Import Ascii String.
From S2P Require Import Prelude GoStrings ChainTypes ClusterTypes LeaseNames CrdManifest HostRoutes MetalLb IpOperatorSample KubeDeclare InventorySample.
From S2P Require Import ManifestManager KubeObjects Workload WorkloadSound NetPol NetPolSound KubeApi KubeApply KubeApplySound KubeDeploy KubeDeploySound.

Open Scope string_scope.
Open Scope go_scope.

#[local] Existing Instance IpOperatorSample.protocols.
#[local] Existing Instance IpOperatorSample.kube_protocols.
#[local] Existing Instance IpOperatorSample.ascii_only.
#[local] Existing Instance PlainCosmos.plain.
#[local] Existing Instance listed_order.
#[local] Existing Instance InventorySample.Sample.sdk.

#[local] Instance chain_sdk : ManifestSdk := {|
  ChainGroup := Z * string;
  cg_GSeq := fst;
  cg_Name := snd;
  Validate _ := None;
  Version _ := Ok EmptyString;
  CheckAgainstDeployment _ _ := None;
  IsIngress e := se_Global e && (se_ExternalPort e =? 80)%Z;
  GetExternalPort e := if (se_ExternalPort e =? 0)%Z then se_Port e else se_ExternalPort e;
  owner_address o := Ok o
|}.

(** Everything that is asked for is committed. *)
#[local] Instance kube_sdk : KubeSdk :=
  {| Level := unit; no_level := tt; ComputeCommittedResources _ z := z; StorageClassRAM := "ram"; StorageClassDefault := "default"; IsDomainName s := negb (s =? "") |}.
#[local] Instance kube_sdk_laws : KubeSdkLaws.
Proof. intros level z Hz. cbn. lia. Qed.

Definition http : HTTPOptions := MkHTTP 0 0 0 0 0 [] None.
Definition expose (port external : Z) (p : proto) (global : bool) : ServiceExpose := MkExpose _ port external p "" global [] http "" 0.
Definition resources (id : Z) (storage : list Storage) : Resources :=
  MkResources id (Some (MkCPU 500 [])) (Some (MkMemory 1048576 [])) storage (Some (MkGPU 0 [])) [].
Definition service (name : string) (id : Z) (storage : list Storage) (exposed : list ServiceExpose) (params : option ServiceParams) : Service :=
  MkService _ name "img" [] [] ["A=1"] (resources id storage) 1 exposed params None "".

Definition lid : LeaseID := MkLeaseID "akash1alice" 1 1 1 "akash1p".
Definition web : Service := service "web" 1 [] [expose 80 80 Tcp true; expose 8080 0 Tcp true] (Some (MkParams [] (Some ["logs"]) None)).
Definition db : Service :=
  service "db" 2 [MkStorage "data" 4096 [MkAttr "persistent" "true"; MkAttr "class" "beta2"]] [expose 5432 0 Tcp false]
    (Some (MkParams [MkStorageParams "data" "/data" false] None None)).
Definition group : Group := MkGroup _ "west" [web; db].

Definition settings : Settings :=
  MkSettings _ "ClusterIP" false "" false "" true [MkTCPAddr (IPv4 10 0 0 1) 6443] tt tt tt tt "" "" IngressModeIngress "" "" "" "" "".

Definition deployment : ClusterDeployment := MkDeployment lid group [None; None] "1" true.
Definition nobody : kube := MkKube 1 ∅ ∅ ∅ ∅ ∅ ∅ ∅ ∅ ∅ ∅.
Definition reservation : gmap Z (option nat) := {[1%Z := None; 2%Z := None]}.

(** ** Connections *)

Definition no_labels : label_map := ∅.
Definition web_pod : pod := MkPod {[AkashManifestServiceLabelName := "web"]} (LidNS lid) {[akashNetworkNamespace := LidNS lid]}.
Definition db_pod : pod := MkPod {[AkashManifestServiceLabelName := "db"]} (LidNS lid) {[akashNetworkNamespace := LidNS lid]}.
Definition stranger : party := MkParty None (IPv4 203 0 113 7).

Lemma stranger_ok : ip_ok (pa_IP stranger).
Proof. by vm_compute. Qed.
Lemma tcp_ok : protocol_ok "TCP".
Proof. by left. Qed.

Lemma ingress_isolated_witness :
  allowed PolicyTypeIngress (netPol_Create settings deployment) web_pod stranger "TCP" 8080 = true
  ∧ ¬ allowed PolicyTypeIngress (netPol_Create settings deployment) db_pod stranger "TCP" 5432 = true.
Proof.
  split.
  - apply ingress_isolated; [reflexivity|reflexivity|by vm_compute|by left|]. do 4 right.
    exists web, (expose 8080 0 Tcp true). split; [left|]. split; [apply lookup_singleton_eq|]. split; [right; left|]. split; [reflexivity|]. split; [reflexivity|left; split; reflexivity].
  - intros E. apply (proj1 (ingress_isolated settings deployment db_pod stranger "TCP" 5432 eq_refl eq_refl stranger_ok tcp_ok)) in E. revert E.
    intros [(pd & [=] & _)|[(pd & [=] & _)|[(_ & _ & pd & [=] & _)|[[_ [=]]|(svc & e & Hsvc & Hl & He & _ & _ & Ho)]]]].
    unfold group in Hsvc. cbn in Hsvc. apply elem_of_cons in Hsvc as [->|Hsvc]; [unfold db_pod in Hl; cbn [pd_Labels] in Hl; rewrite lookup_singleton_eq in Hl; discriminate Hl|]. apply list_elem_of_singleton in Hsvc as ->.
    cbn in He. apply list_elem_of_singleton in He as ->. by destruct Ho as [[Ho _]|[Ho _]].
Defined.

Lemma egress_isolated_witness :
  allowed PolicyTypeEgress (netPol_Create settings deployment) web_pod (MkParty None (IPv4 10 0 0 1)) "TCP" 6443 = true
  ∧ allowed PolicyTypeEgress (netPol_Create settings deployment) db_pod (MkParty None (IPv4 8 8 8 8)) "TCP" 443 = true
  ∧ ¬ allowed PolicyTypeEgress (netPol_Create settings deployment) db_pod (MkParty None (IPv4 10 0 0 1)) "TCP" 6443 = true.
Proof.
  assert (ip_ok (IPv4 10 0 0 1)) as Hip by by vm_compute. assert (ip_ok (IPv4 8 8 8 8)) as Hip8 by by vm_compute.
  assert (Forall (λ ep, ip_ok (ta_IP ep)) (s_APIServerEndpoints settings)) as Hep by (constructor; [exact Hip|constructor]).
  split; [|split].
  - apply egress_isolated; [reflexivity|reflexivity|exact Hip|exact tcp_ok|exact Hep|]. left. do 2 right.
    exists web, (MkTCPAddr (IPv4 10 0 0 1) 6443). split; [left|]. split; [apply lookup_singleton_eq|]. split; [by repeat eexists|]. split; [left|].
    split; [reflexivity|]. split; [reflexivity|]. eexists. split; [left|reflexivity].
  - apply egress_isolated; [reflexivity|reflexivity|exact Hip8|exact tcp_ok|exact Hep|]. right. unfold public, private, special. cbn [pa_IP]. lia.
  - intros E. apply (proj2 (egress_isolated settings deployment db_pod (MkParty None (IPv4 10 0 0 1)) "TCP" 6443 eq_refl eq_refl Hip tcp_ok Hep)) in E. revert E.
    intros [[(pd & [=] & _)|[([=] & _)|(svc & ep & Hsvc & Hl & Hp & _)]]|[[Hpriv _]|[_ Hpriv]]]; [|apply Hpriv; by left|apply Hpriv; by left].
    unfold group in Hsvc. cbn in Hsvc. apply elem_of_cons in Hsvc as [->|Hsvc]; [unfold db_pod in Hl; cbn [pd_Labels] in Hl; rewrite lookup_singleton_eq in Hl; discriminate Hl|].
    apply list_elem_of_singleton in Hsvc as ->. destruct Hp as (p & l & [= <-] & [=] & _).
Defined.

(** ** Workloads *)

(** The database beside an attestation sidecar. *)
Definition confidential : SchedulerParams := MkSParams RuntimeClassKataQemuSNP None false "cpu".
Definition small : Workload := MkWorkload settings deployment db (Some confidential) db.

Lemma container_fits_witness : ∃ c, container small = Ret c ∧ fits (c_Resources c) ∧ rq_Limits (c_Resources c) !! ResourceMemory = Some (whole MinPrimaryMemoryBytes).
Proof.
  destruct (container small) as [c|] eqn:E; [|discriminate E]. exists c. split; [reflexivity|].
  destruct (container_fits small c) as (Hf & Hm & _); [|exact E|].
  - unfold quantities_ok, amount. split; [|split; [|split; [|split]]].
    + intros cpu [= <-]. cbn. lia.
    + intros gpu [= <-]. cbn. lia.
    + intros mem [= <-]. cbn. lia.
    + constructor; [cbn; lia|constructor].
    + cbn. lia.
  - split; [exact Hf|]. rewrite (Hm _ eq_refl). reflexivity.
Defined.

(** The website may read its logs and no events, with a mounted token. *)
Definition site : Workload := MkWorkload settings deployment web None web.

Lemma role_least_privilege_witness :
  MkPolicyRule [""] ["pods/log"] ["get"] ∈ rs_Spec (role_Create site) ∧ MkPolicyRule [""] ["events"] ["get"; "list"; "watch"] ∉ rs_Spec (role_Create site)
  ∧ (∃ spec, pod_spec site false = Ret spec ∧ ps_AutomountServiceAccountToken spec = true).
Proof.
  destruct (role_least_privilege site) as (Hrules & _ & Hpod & _).
  assert (asks_for site "logs") as Hlogs by (eexists _, _; split; [reflexivity|split; [reflexivity|left]]). split; [|split].
  - apply Hrules. left. split; [exact Hlogs|]. right. left. split; [reflexivity|split; reflexivity].
  - intros Hin%Hrules. destruct Hin as [[_ [(_ & [=] & _)|[(_ & [=] & _)|([=] & _)]]]|[(p & l & [= <-] & [= <-] & Hin) _]]. by apply list_elem_of_singleton in Hin.
  - destruct (pod_spec site false) as [spec|] eqn:E; [|discriminate E]. exists spec. split; [reflexivity|]. apply (Hpod false spec E). exists "logs". exact Hlogs.
Defined.

(** The role of the website is made on a server that answers, and the refusal of
    one that does not is reported. *)
Lemma apply_all_or_nothing_witness :
  (∃ r s' o, applyRole site (MkServer nobody []) = (Ret r, s') ∧ ap_err r = None ∧ k_roles (sv_kube s') !! workload_Name site = Some o ∧ o_res o = role_Create site)
  ∧ ∃ r s', applyRole site (MkServer nobody [None; Some (OtherError "down")]) = (Ret r, s') ∧ ap_err r ≠ None ∧ sv_kube s' = nobody.
Proof.
  destruct (apply_all_or_nothing deployment site false) as (_ & _ & _ & _ & Hrole).
  split.
  - destruct (applyRole site (MkServer nobody [])) as [[r|] s'] eqn:E; [|vm_compute in E; discriminate E]. specialize (Hrole _ _ _ E).
    assert (ap_err r = None) as He by (apply (f_equal fst) in E; vm_compute in E; injection E as <-; reflexivity). rewrite He in Hrole.
    destruct Hrole as (o & Hk & Ho). exists r, s', o. split; [reflexivity|]. split; [exact He|]. cbn [kd_get Roles sv_kube] in Hk, Ho. split; [rewrite Hk; apply lookup_insert_eq|].
    revert Ho. change (k_roles nobody !! workload_Name site) with (@None (object (list PolicyRule))). intros Ho. injection Ho as Ho. symmetry. exact Ho.
  - destruct (applyRole site (MkServer nobody [None; Some (OtherError "down")])) as [[r|] s'] eqn:E; [|vm_compute in E; discriminate E]. specialize (Hrole _ _ _ E).
    assert (ap_err r ≠ None) as He by (apply (f_equal fst) in E; vm_compute in E; injection E as <-; discriminate). exists r, s'. split; [reflexivity|]. split; [exact He|].
    destruct (ap_err r); [exact Hrole|by destruct He].
Defined.

(** ** Deploying *)

Definition run (g : Group) (s : server) : option deploy_error * server := Deploy (Some settings) "ns" (Ok []) [] lid g (AsReservation reservation) "" s.
Definition first : option deploy_error * server := run group (MkServer nobody []).

Lemma group_names : NoDup (svc_Name <$> g_Services group).
Proof. repeat constructor; rewrite ?list_elem_of_singleton; cbn; try done; apply not_elem_of_nil. Qed.

Lemma lease_runs_witness : ∃ settings' d, cd_Lid d = lid ∧ cd_Group d = group ∧ deployed settings' d (sv_kube first.2).
Proof.
  assert (first.1 = None) as Hn by (vm_compute; reflexivity). destruct first as [err s'] eqn:E. cbn [fst] in Hn. subst err. unfold first, run in E.
  exact (lease_runs settings "ns" (Ok []) [] lid group reservation "" nobody s' group_names E).
Defined.

(** The website under another name. *)
Definition renamed : Group := MkGroup _ "west" [service "site" 1 [] [] None; db].

Lemma services_fixed_witness : (run renamed first.2).1 ≠ None ∧ sv_kube (run renamed first.2).2 = sv_kube first.2.
Proof.
  assert (∃ o, k_manifests (sv_kube first.2) !! LidNS lid = Some o ∧ manifest_names (o_res o) = ["web"; "db"]) as (o & Ho & Hn).
  { assert (manifest_names ∘ o_res <$> k_manifests (sv_kube first.2) !! LidNS lid = Some ["web"; "db"]) as E by (vm_compute; reflexivity).
    destruct (k_manifests (sv_kube first.2) !! LidNS lid) as [o|]; [|discriminate E]. exists o. split; [reflexivity|]. by injection E. }
  assert (NoDup (manifest_names (o_res o))) as Hnd by (rewrite Hn; exact group_names).
  revert Ho. generalize (first.2). intros s Ho. destruct (run renamed s) as [err s'] eqn:E. unfold run in E.
  destruct (services_fixed (Some settings) "ns" (Ok []) [] lid renamed reservation "" s s' err o Ho Hnd E) as [Hp|[He Hk]]; [|by split].
  exfalso. rewrite Hn in Hp. assert ("site" ∈ ["web"; "db"]) as Hin by (rewrite <- Hp; left). rewrite !elem_of_cons in Hin. by destruct Hin as [?|[?|?%elem_of_nil]].
Defined.

(** The rights of the website are withdrawn when no service has any. *)
Lemma rights_withdrawn_witness :
  k_accounts (sv_kube (cleanupStaleRBACResources [] first.2).2) = filter (λ p, withdrawn [] p.2 = false) (k_accounts (sv_kube first.2)).
Proof.
  assert (match (cleanupStaleRBACResources [] first.2).1 with Ret None => true | _ => false end = true) as Hn by (vm_compute; reflexivity).
  revert Hn. generalize (first.2). intros s Hn. destruct (cleanupStaleRBACResources [] s) as [r s'] eqn:E. cbn [fst] in Hn.
  destruct r as [[e|]|]; try discriminate Hn. exact (proj1 (rights_withdrawn [] s s' E)).
Defined.

(** Tearing the lease down; the namespace is said to be gone already. *)
Lemma teardown_complete_witness :
  is_Some (k_manifests (sv_kube first.2) !! LidNS lid) ∧
  ∃ errs s', TeardownLease lid (MkServer (sv_kube first.2) [Some NotFound; None]) = (Ret errs, s') ∧ errs = [] ∧ k_manifests (sv_kube s') !! LidNS lid = None.
Proof.
  split; [apply (bool_decide_eq_true_1 _); vm_compute; reflexivity|]. generalize (sv_kube first.2). intros k.
  destruct (teardown_complete lid k (Some NotFound) None []) as (errs & s' & E & _ & _ & He & Hk). exists errs, s'.
  split; [exact E|]. split; [apply He; split; [by right|by left]|]. rewrite Hk. cbn. by rewrite lookup_delete_eq.
Defined.

(** ** What is missed *)

(** A service port that is exposed with both protocols is opened with the first. *)
Example second_protocol_dropped :
  service_ports false 0 [expose 53 0 Tcp false; expose 53 0 Udp false] ∅ = Ok [MkPort "0-53" "TCP" 53 (IntVal 53) 0].
Proof. vm_compute. reflexivity. Qed.

(** The address at which clouds serve the credentials of a machine is open to
    every pod. *)
Example metadata_service_reachable :
  allowed PolicyTypeEgress (netPol_Create settings deployment) web_pod (MkParty None (IPv4 169 254 169 254)) "TCP" 80 = true.
Proof. vm_compute. reflexivity. Qed.

(** Two services whose policies have the same name: the second policy replaces
    the first. *)
Definition clashing : ClusterDeployment :=
  MkDeployment lid (MkGroup _ "west" [service "web-np" 1 [] [] (Some (MkParams [] (Some ["logs"]) None)); service "apiserver-web" 2 [] [expose 8080 0 Tcp true] None])
    [None; None] "1" true.
Example policy_names_clash : n_Name <$> netPol_Create settings clashing = ["akash-deployment-restrictions"; "akash-apiserver-web-np"; "akash-apiserver-web-np"].
Proof. vm_compute. reflexivity. Qed.

(** The same website without its permissions: the service account goes, the
    policy that lets its pods reach the API server stays. *)
Definition silent : Group := MkGroup _ "west" [service "web" 1 [] (svc_Expose web) None; db].
Example policy_outlives_permission :
  let s := (run silent first.2).2 in
  (run silent first.2).1 = None ∧ (map_to_list (k_accounts (sv_kube s))).*1 = []
  ∧ "akash-apiserver-web" ∈ (map_to_list (k_policies (sv_kube s))).*1
  ∧ "akash-apiserver-web" ∉ n_Name <$> netPol_Create settings (MkDeployment lid silent [None; None] "1" true).
Proof.
  split; [vm_compute; reflexivity|]. split; [vm_compute; reflexivity|].
  split; [apply (bool_decide_eq_true_1 _)|apply (bool_decide_eq_true_1 _)]; vm_compute; reflexivity.
Qed.

(** An update whose [n]th request the server refuses. *)
Definition web2 : Service := MkService _ "web" "img2" [] [] ["A=1"] (svc_Resources web) 1 (svc_Expose web) (svc_Params web) None "".
Definition refused (n : nat) : option deploy_error * server :=
  run (MkGroup _ "west" [web2; db]) (MkServer (sv_kube first.2) (replicate n None ++ [Some (OtherError "down")])%list).
Definition image_of (k : kube) : option (list string) := (λ o, c_Image <$> ps_Containers (pt_Spec (ds_Template (rs_Spec (o_res o))))) <$> k_deployments k !! "web".

(** Refused while the database is applied, the deployment reports the error and
    recovers nothing: the website runs the new image. *)
Example recovery_restores_nothing : (refused 31).1 = Some (ErrApply (ApiError (OtherError "down"))) ∧ image_of (sv_kube (refused 31).2) = Some ["img2"].
Proof. split; vm_compute; reflexivity. Qed.

(** Refused while the website is updated, it reports success and the website
    runs the old image. *)
Example refused_update_succeeds : (refused 27).1 = None ∧ image_of (sv_kube (refused 27).2) = Some ["img"].
Proof. split; vm_compute; reflexivity. Qed.
