(* ===== verification/NodeDiscovery.v ===== *)
(** * Discovering the nodes of a cluster

    [operator/inventory]: what a node has and what its pods take
    ([node-discovery.go]), the configuration of the operator ([config.go]), the
    probe of the interconnect ([infiniband.go]) and the labels the scheduler
    goes by.  The loop over a node is a step on its state; what it reads from
    the API server and from the probe of the node comes with the event.  The
    channels of length one that wake the loop up are flags. *)
From Stdlib Require Import Ascii String.
From S2P Require Import Prelude GoStrings ChainTypes ClusterTypes HostRoutes MetalLb LeaseNames CrdManifest KubeDeclare ManifestManager KubeObjects Workload.

Open Scope string_scope.
Open Scope go_scope.

(** ** From Kubernetes, Go and the SDK *)

(** Arithmetic of quantities, which is exact: in billionths. *)
Class QuantityArith `{Quantities} := {
  q_Add : Quantity → Quantity → Quantity;
  q_Sub : Quantity → Quantity → Quantity;
  q_SetMilli : Z → Quantity
}.
Class QuantityLaws `{QuantityArith} := {
  q_nano : Quantity → Z;
  Add_law : ∀ a b, q_nano (q_Add a b) = (q_nano a + q_nano b)%Z;
  Sub_law : ∀ a b, q_nano (q_Sub a b) = (q_nano a - q_nano b)%Z;
  Set_zero_law : q_nano (q_Set 0) = 0%Z;
  SetMilli_zero_law : q_nano (q_SetMilli 0) = 0%Z;
  negative_law : ∀ q, q_negative q = (q_nano q <? 0)%Z
}.

(** [filepath.Match], which fails on a malformed pattern; the order of GPUs;
    and whether [DeepEqual] tells a node from its duplicate. *)
Class DiscoverySdk `{Quantities} := {
  filepath_Match : string → string → option bool;
  sort_gpus : list GPUInfo → list GPUInfo;
  sort_gpus_perm : ∀ l, sort_gpus l ≡ₚ l;
  dup_differs : Node → bool
}.

(** ** Kubernetes objects *)

Record Condition := MkCondition { co_Type : string; co_Status : string }.

(** [kv_EmptyDir]: medium and limit of an [emptyDir] volume. *)
Record KubeVolume `{Quantities} := MkKubeVolume { kv_EmptyDir : option (string * option Quantity) }.
Record KubePod `{Quantities} := MkKubePod {
  kp_Namespace : string; kp_Name : string; kp_Conditions : list Condition;
  kp_Requests : list (gmap string Quantity); kp_Volumes : list KubeVolume }.
Record KubeNode `{Quantities} := MkKubeNode {
  kn_Name : string; kn_Labels : label_map; kn_Unschedulable : bool; kn_Taints : list string; kn_Conditions : list Condition;
  kn_Architecture : string; kn_Allocatable : gmap string Quantity; kn_Capacity : gmap string Quantity }.

Inductive watch_type := WatchAdded | WatchModified | WatchDeleted | WatchOther.

(** ** Configuration *)

(** A regular expression is what it matches. *)
Record ExcludeNodeStorage := MkExcludeStorage { es_NodeFilter : string → bool; es_Classes : list string }.
Record Config := MkConfig {
  cf_ClusterStorage : list string; cf_ExcludeNodes : list (string → bool); cf_ExcludeStorage : list ExcludeNodeStorage; cf_ResourcePatterns : list string }.

Definition IsNodeExcluded (cfg : Config) (name : string) : bool := existsb (λ r, r name) (cf_ExcludeNodes cfg).
Definition IsStorageNodeExcluded (cfg : Config) (name class : string) : bool :=
  existsb (λ r, existsb (λ c, (c =? class) && es_NodeFilter r name) (es_Classes r)) (cf_ExcludeStorage cfg).
Definition HasStorageClass (cfg : Config) (name : string) : bool := existsb (λ class, class =? name) (cf_ClusterStorage cfg).

(** Elements are removed in place while the loop goes over the places of the
    original slice: [arr] is the array, [len] the length that is left.  Removing
    shifts the elements behind and panics beyond the length. *)
Definition remove_at (arr : list string) (len s : nat) : outcome (list string * nat) :=
  if (S s <=? len)%nat then Ret ((take s arr ++ take (len - S s) (drop (S s) arr) ++ drop (len - 1) arr)%list, (len - 1)%nat) else Panic.

Fixpoint remove_while (gone : string → bool) (places : list nat) (arr : list string) (len : nat) : outcome (list string) :=
  match places with
  | [] => Ret (take len arr)
  | j :: places =>
      let! class := deref (arr !! j) in
      if gone class then let! (arr, len) := remove_at arr len j in remove_while gone places arr len
      else remove_while gone places arr len
  end.
Definition remove_in_place (gone : string → bool) (l : list string) : outcome (list string) := remove_while gone (seq 0 (List.length l)) l (List.length l).

Fixpoint filter_rules (requestedSc : gset string) (l : list ExcludeNodeStorage) : outcome (list ExcludeNodeStorage) :=
  match l with
  | [] => Ret []
  | r :: l =>
      let! classes := remove_in_place (λ class, negb (bool_decide (class ∈ requestedSc))) (es_Classes r) in
      let! l := filter_rules requestedSc l in
      Ret (MkExcludeStorage (es_NodeFilter r) classes :: l)
  end.

Definition FilterOutStorageClasses `{MapOrder} (cfg : Config) (available : list string) : outcome Config :=
  if bool_decide (cf_ClusterStorage cfg = available) then Ret cfg
  else
    let requestedSc : gset string := list_to_set (cf_ClusterStorage cfg) ∩ list_to_set available in
    let! rules := filter_rules requestedSc (cf_ExcludeStorage cfg) in
    Ret (MkConfig (sort_strings (map_order _ (elements requestedSc))) (cf_ExcludeNodes cfg) rules (cf_ResourcePatterns cfg)).

(** The classes of the rules that fit the node, one after the other. *)
Fixpoint remove_classes (l : list string) (sc : list string) : outcome (list string) :=
  match l with
  | [] => Ret sc
  | eClass :: l => let! sc := remove_in_place (λ class, eClass =? class) sc in remove_classes l sc
  end.
Definition StorageClassesForNode (cfg : Config) (name : string) : outcome (list string) :=
  remove_classes (List.filter (λ r, es_NodeFilter r name) (cf_ExcludeStorage cfg) ≫= es_Classes) (cf_ClusterStorage cfg).

(** ** Hardware *)

Record RegistryGPUDevice := MkRegistryDevice { rd_Name : string; rd_Interface : string; rd_MemorySize : string }.
Record RegistryGPUVendor := MkRegistryVendor { rv_VendorName : string; rv_Devices : gmap string RegistryGPUDevice }.
Notation RegistryGPUVendors := (gmap string RegistryGPUVendor).

(** A card as the probe reports it, and a device of the PCI bus; identifiers
    that are nil are [None]. *)
Record GraphicsCard := MkCard { gc_Address : string; gc_Info : option (option string * option string) }.
Record PciDevice := MkPci { pci_Address : string; pci_Class : option string; pci_Vendor : option string; pci_Product : option string }.

(** A device that the registry knows. *)
Definition registered (info : RegistryGPUVendors) (vendor product : option string) : option GPUInfo :=
  v ← vendor; p ← product; vendor ← info !! v; model ← rv_Devices vendor !! p;
  Some (MkGPUInfo (rv_VendorName vendor) (rd_Name model) (rd_Interface model) (rd_MemorySize model)).

Definition card_gpu (info : RegistryGPUVendors) (dev : GraphicsCard) : option GPUInfo := '(v, p) ← gc_Info dev; registered info v p.

(** The fallback: display controllers that are not known yet. *)
Definition pci_gpu (info : RegistryGPUVendors) (knownAddresses : gset string) (dev : PciDevice) : option GPUInfo :=
  class ← pci_Class dev;
  if negb (HasPrefix class "03") then None
  else if bool_decide (pci_Address dev ∈ knownAddresses) then None
  else registered info (pci_Vendor dev) (pci_Product dev).

Section hardware.
Context `{DiscoverySdk}.

(** [None]: the query failed or found nothing. *)
Definition parseGPUInfo (info : RegistryGPUVendors) (gpus : option (list GraphicsCard)) (pciDevices : option (list PciDevice)) : list GPUInfo :=
  let cards := default [] gpus in
  let knownAddresses : gset string := list_to_set (gc_Address <$> List.filter (λ dev, bool_decide (is_Some (card_gpu info dev))) cards) in
  sort_gpus (omap (card_gpu info) cards ++ omap (pci_gpu info knownAddresses) (default [] pciDevices))%list.

End hardware.

Definition normalizeArch (arch : string) : string :=
  if arch =? "x86_64" then "amd64" else if arch =? "aarch64" then "arm64" else arch.

Definition cpuQueryMaxAttempts : nat := 5.

(** The number of processors each attempt reports, or [None] for an error. *)
Fixpoint parseCPUInfo (attempts : nat) (arch : string) (answers : nat → option nat) : list CPUInfo :=
  match attempts with
  | O => []
  | S attempts =>
      match answers 0%nat with
      | Some processors => replicate processors (MkCPUInfo arch)
      | None => parseCPUInfo attempts arch (λ n, answers (S n))
      end
  end.

(** *** Interconnect *)

Record IBDiscovery := MkIB { ib_NCCLIBHCAPrefixes : list string; ib_Fabric : string }.
Definition fabricInfiniband : string := "infiniband".
Definition fabricRoCE : string := "roce".

(** The instance number and the underscore before it. *)
Fixpoint drop_digits (s : string) : string :=
  match s with String c s' => if is_digit c then drop_digits s' else s | EmptyString => s end.
Definition familyPrefix (s : string) : string :=
  let rest := drop_digits (str_rev s) in
  if rest =? str_rev s then s
  else str_rev (match rest with String "_" r => r | _ => rest end).

Fixpoint prefixes_from (seen : gset string) (names : list string) : list string :=
  match names with
  | [] => []
  | n :: names =>
      let p := familyPrefix n in
      if (p =? "") || bool_decide (p ∈ seen) then prefixes_from seen names
      else p :: prefixes_from ({[p]} ∪ seen) names
  end.
Definition nccLHCAPrefixesOf (names : list string) : list string := prefixes_from ∅ names.

(** [link_layer]: the file of port 1 of a device, if it can be read. *)
Definition fabricOfFirstHCA `{GoUnicode} (link_layer : string → option string) (names : list string) : string :=
  match names with
  | [] => ""
  | name :: _ =>
      match link_layer name with
      | None => ""
      | Some raw =>
          let layer := TrimSpace (ToLower raw) in
          if layer =? fabricInfiniband then fabricInfiniband else if layer =? "ethernet" then fabricRoCE else ""
      end
  end.

(** [entries]: the names in the directory, or [None] when it cannot be read. *)
Definition discoverInfinibandAt `{GoUnicode} (entries : option (list string)) (link_layer : string → option string) : IBDiscovery :=
  match entries with
  | None | Some [] => MkIB [] ""
  | Some names => MkIB (nccLHCAPrefixesOf names) (fabricOfFirstHCA link_layer names)
  end.

Definition parseIBInfo (answer : option IBDiscovery) : IBDiscovery := default (MkIB [] "") answer.

(** ** What a node has *)

Section node.
Context `{GoUnicode} `{QuantityArith} `{!DiscoverySdk} `{MapOrder}.

Definition DefaultInterconnectResourcePattern : string := "rdma/rdma_shared_device_*".

(** A pattern without metacharacters is a prefix. *)
Definition has_meta (pattern : string) : bool :=
  negb (str_forall (λ c, negb ((c =? "*")%char || (c =? "?")%char || (c =? "[")%char)) pattern).
Definition resourcePatternMatches (pattern name : string) : bool :=
  if negb (has_meta pattern) then HasPrefix name pattern else default false (filepath_Match pattern name).

(** The smallest name that fits, whatever the order of the map. *)
Definition best_match (p : string) (names : list string) : string :=
  foldl (λ best name, if resourcePatternMatches p name && ((best =? "") || string_lt name best) then name else best) "" names.
Fixpoint first_match (effective : list string) (names : list string) : string :=
  match effective with
  | [] => ""
  | p :: effective => let best := best_match p names in if negb (best =? "") then best else first_match effective names
  end.
Definition matchInterconnectResourceName (quantities : gmap string Quantity) (patterns : list string) : string :=
  first_match (match patterns with [] => [DefaultInterconnectResourcePattern] | _ => patterns end) (map_order _ (map_to_list quantities).*1).

(** *** Resources by name *)

Inductive rkind := KCPU | KMemory | KEphemeral | KGPU | KInterconnect.
#[export] Instance rkind_eq_dec : EqDecision rkind.
Proof. solve_decision. Defined.

(** The cases of the switches, in their order. *)
Definition kind_of (interconnectResource name : string) : option rkind :=
  if name =? ResourceCPU then Some KCPU
  else if name =? ResourceMemory then Some KMemory
  else if name =? ResourceEphemeralStorage then Some KEphemeral
  else if (name =? ResourceGPUNvidia) || (name =? ResourceGPUNvidiaPGPU) || (name =? ResourceGPUAMD) then Some KGPU
  else if negb (interconnectResource =? "") && (name =? interconnectResource) then Some KInterconnect
  else None.

Definition pair_of (k : rkind) (r : NodeResources) : ResourcePair :=
  match k with
  | KCPU => icpu_Quantity (nr_CPU r) | KMemory => nr_Memory r | KEphemeral => nr_EphemeralStorage r
  | KGPU => igpu_Quantity (nr_GPU r) | KInterconnect => nr_GPUInterconnect r
  end.
Definition set_pair (k : rkind) (p : ResourcePair) (r : NodeResources) : NodeResources :=
  match k with
  | KCPU => set_CPU (MkInvCPU p (icpu_Info (nr_CPU r))) r
  | KMemory => set_Memory p r
  | KEphemeral => set_Ephemeral p r
  | KGPU => set_InvGPU (MkInvGPU p (igpu_Info (nr_GPU r))) r
  | KInterconnect => set_Interconnect p r
  end.
Definition on_pair (k : rkind) (f : ResourcePair → ResourcePair) (n : Node) : Node :=
  set_NodeRes (set_pair k (f (pair_of k (nd_Resources n))) (nd_Resources n)) n.

(** The pointers of a pair are made by [initNodeInfo] and are never nil. *)
Definition set_allocatable (q : Quantity) (p : ResourcePair) : ResourcePair := MkPair _ (rp_Capacity p) (Some q) (rp_Allocated p).
Definition set_capacity (q : Quantity) (p : ResourcePair) : ResourcePair := MkPair _ (Some q) (rp_Allocatable p) (rp_Allocated p).
Definition set_allocated (q : Quantity) (p : ResourcePair) : ResourcePair := MkPair _ (rp_Capacity p) (rp_Allocatable p) (Some q).

(** CPU is set in thousandths, the others as whole numbers. *)
Definition as_counted (k : rkind) (q : Quantity) : Quantity := match k with KCPU => q_SetMilli (q_MilliValue q) | _ => q_Set (q_Value q) end.

Definition set_caps (c : NodeCapabilities) (n : Node) : Node := MkNode (nd_Name n) (nd_Resources n) c.
Definition set_resource_name (s : string) (c : NodeCapabilities) : NodeCapabilities :=
  MkCaps (cap_StorageClasses c) (cap_InterconnectFabric c) s (cap_NCCLHCAPrefixes c).
Definition set_ib (ib : IBDiscovery) (c : NodeCapabilities) : NodeCapabilities :=
  MkCaps (cap_StorageClasses c) (ib_Fabric ib) (cap_InterconnectResourceName c) (ib_NCCLIBHCAPrefixes ib).
Definition set_classes (l : list string) (c : NodeCapabilities) : NodeCapabilities :=
  MkCaps l (cap_InterconnectFabric c) (cap_InterconnectResourceName c) (cap_NCCLHCAPrefixes c).
Definition set_gpus (l : list GPUInfo) (n : Node) : Node :=
  set_NodeRes (set_InvGPU (MkInvGPU (igpu_Quantity (nr_GPU (nd_Resources n))) l) (nd_Resources n)) n.

(** One of the loops over a list of resources. *)
Definition take_quantities (set : Quantity → ResourcePair → ResourcePair) (interconnectResource : string) (l : gmap string Quantity) (n : Node) : Node :=
  foldl (λ n '(name, r), match kind_of interconnectResource name with Some k => on_pair k (set (as_counted k r)) n | None => n end) n (map_order _ (map_to_list l)).

Definition updateNodeInfo (knode : KubeNode) (n : Node) (interconnectPatterns : list string) : Node :=
  let n := on_pair KInterconnect (λ p, set_allocatable (q_Set 0) (set_capacity (q_Set 0) p)) n in
  let ic := matchInterconnectResourceName (kn_Allocatable knode) interconnectPatterns in
  let ic := if ic =? "" then matchInterconnectResourceName (kn_Capacity knode) interconnectPatterns else ic in
  let n := set_caps (set_resource_name ic (nd_Capabilities n)) n in
  take_quantities set_capacity ic (kn_Capacity knode) (take_quantities set_allocatable ic (kn_Allocatable knode) n).

Definition zero_pair : ResourcePair := MkPair _ (Some (q_Set 0)) (Some (q_Set 0)) (Some (q_Set 0)).
Definition zero_milli_pair : ResourcePair := MkPair _ (Some (q_SetMilli 0)) (Some (q_SetMilli 0)) (Some (q_SetMilli 0)).

(** What the probe of a node answers. *)
Record probe := MkProbe {
  pb_cpu : nat → option nat; pb_gpus : option (list GraphicsCard); pb_pci : option (list PciDevice); pb_ib : option IBDiscovery }.

Definition initNodeInfo (gpusIDs : RegistryGPUVendors) (knode : KubeNode) (interconnectPatterns : list string) (pb : probe) : Node :=
  let arch := normalizeArch (kn_Architecture knode) in
  let ib := parseIBInfo (pb_ib pb) in
  updateNodeInfo knode
    (MkNode (kn_Name knode)
      (MkNodeResources (MkInvCPU zero_milli_pair (parseCPUInfo cpuQueryMaxAttempts arch (pb_cpu pb))) zero_pair
        (MkInvGPU zero_pair (parseGPUInfo gpusIDs (pb_gpus pb) (pb_pci pb))) zero_pair zero_pair zero_pair zero_pair)
      (MkCaps [] (ib_Fabric ib) "" (ib_NCCLIBHCAPrefixes ib)))
    interconnectPatterns.

Definition nodeAllocatableChanged (prev curr : KubeNode) : bool :=
  if negb (size (kn_Allocatable prev) =? size (kn_Allocatable curr))%nat then true
  else existsb (λ '(pres, pval), match kn_Allocatable curr !! pres with Some cval => negb (q_Value pval =? q_Value cval)%Z | None => true end)
         (map_order _ (map_to_list (kn_Allocatable prev))).

(** ** What its pods take *)

Definition podKey (pod : KubePod) : string := kp_Namespace pod +:+ "/" +:+ kp_Name pod.
Definition PodScheduled : string := "PodScheduled".
Definition isPodAllocated (conditions : list Condition) : bool :=
  match List.find (λ c, co_Type c =? PodScheduled) conditions with Some c => co_Status c =? "True" | None => false end.

Definition nodeResetAllocated (n : Node) : Node :=
  let r := nd_Resources n in
  set_NodeRes (MkNodeResources (MkInvCPU (set_allocated (q_SetMilli 0) (icpu_Quantity (nr_CPU r))) (icpu_Info (nr_CPU r)))
    (set_allocated (q_Set 0) (nr_Memory r)) (MkInvGPU (set_allocated (q_Set 0) (igpu_Quantity (nr_GPU r))) (igpu_Info (nr_GPU r)))
    (set_allocated (q_Set 0) (nr_EphemeralStorage r)) (set_allocated (q_Set 0) (nr_VolumesAttached r)) (set_allocated (q_Set 0) (nr_VolumesMounted r))
    (set_allocated (q_Set 0) (nr_GPUInterconnect r))) n.

(** [op] adds to what is allocated or subtracts from it. *)
Definition on_allocated (op : Quantity → Quantity → Quantity) (k : rkind) (q : Quantity) (n : Node) : Node :=
  on_pair k (λ p, set_allocated (op (default (q_Set 0) (rp_Allocated p)) q) p) n.

Definition StorageMediumMemory : string := "Memory".
Definition ram_limit (v : KubeVolume) : option Quantity :=
  '(medium, limit) ← kv_EmptyDir v; if medium =? StorageMediumMemory then limit else None.

(** The volumes in RAM are counted within the loop over the containers. *)
Definition account_pod (op : Quantity → Quantity → Quantity) (n : Node) (pod : KubePod) : Node :=
  let ic := cap_InterconnectResourceName (nd_Capabilities n) in
  foldl (λ n requests,
      let n := foldl (λ n '(name, q), match kind_of ic name with Some k => on_allocated op k q n | None => n end) n (map_order _ (map_to_list requests)) in
      foldl (λ n q, on_allocated op KMemory q n) n (omap ram_limit (kp_Volumes pod)))
    n (kp_Requests pod).
Definition addPodAllocatedResources (n : Node) (pod : KubePod) : Node := account_pod q_Add n pod.

(** A result below zero is logged and kept. *)
Definition subPodAllocatedResources (n : Node) (pod : KubePod) : Node := account_pod q_Sub n pod.

(** ** Labels *)

Definition labelNvidiaComGPUPresent : string := ResourceGPUNvidia +:+ ".present".
Definition isLabelManaged (key : string) : bool := HasPrefix key AkashManagedLabelName || (key =? labelNvidiaComGPUPresent).
Definition copyManagedLabels (l : label_map) : label_map := filter (λ p, isLabelManaged p.1 = true) l.
Definition removeManagedLabels (l : label_map) : label_map := filter (λ p, isLabelManaged p.1 = false) l.

Definition TaintEffectNoSchedule : string := "NoSchedule".
Definition TaintEffectNoExecute : string := "NoExecute".
Definition isNodeReady (knode : KubeNode) : bool :=
  if existsb (λ effect, (effect =? TaintEffectNoSchedule) || (effect =? TaintEffectNoExecute)) (kn_Taints knode) then false
  else match List.find (λ c, co_Type c =? "Ready") (kn_Conditions knode) with Some c => co_Status c =? "True" | None => false end.

(** [strconv.ParseUint] with 32 bits: beyond them the largest number. *)
Definition ParseUint32 (s : string) : Z := Z.min (ParseUint s).1 (2 ^ 32 - 1).

(** A label that counts; a text that is no number counts as zero. *)
Definition count_label (key : string) (res : label_map) : label_map :=
  match res !! key with
  | Some val => <[key := FormatUint (u64 (ParseUint32 val + 1))]> res
  | None => <[key := "1"]> res
  end.

Definition gpu_labels (res : label_map) (info : GPUInfo) : label_map :=
  let res := if (gi_Vendor info =? "nvidia") && negb (bool_decide (res !! labelNvidiaComGPUPresent = Some "true")) then <[labelNvidiaComGPUPresent := "true"]> res else res in
  let key := AkashServiceCapabilityGPU +:+ ".vendor." +:+ gi_Vendor info +:+ ".model." +:+ gi_Name info in
  let res := count_label key res in
  let res := if negb (gi_MemorySize info =? "") then count_label (key +:+ ".ram." +:+ gi_MemorySize info) res else res in
  if negb (gi_Interface info =? "") then count_label (key +:+ ".interface." +:+ FilterGPUInterface (gi_Interface info)) res else res.

(** [sc]: the names of the storage classes of the cluster. *)
Definition generateLabels (cfg : Config) (knode : KubeNode) (n : Node) (sc : gset string) : outcome (label_map * Node) :=
  let! adjConfig := FilterOutStorageClasses cfg (sort_strings (map_order _ (elements sc))) in
  if negb (isNodeReady knode) || kn_Unschedulable knode || IsNodeExcluded adjConfig (kn_Name knode) then
    Ret (∅, set_caps (set_classes [] (nd_Capabilities n)) n)
  else
    let! allowedSc := StorageClassesForNode adjConfig (kn_Name knode) in
    let res := foldl (λ res class, <[AkashServiceCapabilityStorage +:+ ".class." +:+ class := "1"]> res) {[AkashManagedLabelName := "true"]} allowedSc in
    Ret (foldl gpu_labels res (igpu_Info (nr_GPU (nd_Resources n))), set_caps (set_classes allowedSc (nd_Capabilities n)) n).

End node.

(** ** The loop over a node *)

Inductive nodeStateEnum := nodeStateRemoved | nodeStateUpdated.
#[export] Instance nodeStateEnum_eq_dec : EqDecision nodeStateEnum.
Proof. solve_decision. Defined.

Section monitor.
Context `{GoUnicode} `{QuantityArith} `{!DiscoverySdk} `{MapOrder}.

Record monitor := MkMonitor {
  mo_cfg : Config; mo_sc : gset string; mo_gpusIDs : RegistryGPUVendors; mo_knode : KubeNode; mo_node : Node;
  mo_labels : label_map; mo_pods : gmap string KubePod; mo_lastPub : nodeStateEnum; mo_statech : bool; mo_labelch : bool; mo_labelled : bool }.

Definition with_cfg (c : Config) (s : monitor) : monitor :=
  MkMonitor c (mo_sc s) (mo_gpusIDs s) (mo_knode s) (mo_node s) (mo_labels s) (mo_pods s) (mo_lastPub s) (mo_statech s) (mo_labelch s) (mo_labelled s).
Definition with_sc (c : gset string) (s : monitor) : monitor :=
  MkMonitor (mo_cfg s) c (mo_gpusIDs s) (mo_knode s) (mo_node s) (mo_labels s) (mo_pods s) (mo_lastPub s) (mo_statech s) (mo_labelch s) (mo_labelled s).
Definition with_ids (c : RegistryGPUVendors) (s : monitor) : monitor :=
  MkMonitor (mo_cfg s) (mo_sc s) c (mo_knode s) (mo_node s) (mo_labels s) (mo_pods s) (mo_lastPub s) (mo_statech s) (mo_labelch s) (mo_labelled s).
Definition with_knode (c : KubeNode) (s : monitor) : monitor :=
  MkMonitor (mo_cfg s) (mo_sc s) (mo_gpusIDs s) c (mo_node s) (mo_labels s) (mo_pods s) (mo_lastPub s) (mo_statech s) (mo_labelch s) (mo_labelled s).
Definition with_node (c : Node) (s : monitor) : monitor :=
  MkMonitor (mo_cfg s) (mo_sc s) (mo_gpusIDs s) (mo_knode s) c (mo_labels s) (mo_pods s) (mo_lastPub s) (mo_statech s) (mo_labelch s) (mo_labelled s).
Definition with_labels (c : label_map) (s : monitor) : monitor :=
  MkMonitor (mo_cfg s) (mo_sc s) (mo_gpusIDs s) (mo_knode s) (mo_node s) c (mo_pods s) (mo_lastPub s) (mo_statech s) (mo_labelch s) (mo_labelled s).
Definition with_pods (n : Node) (c : gmap string KubePod) (s : monitor) : monitor :=
  MkMonitor (mo_cfg s) (mo_sc s) (mo_gpusIDs s) (mo_knode s) n (mo_labels s) c (mo_lastPub s) (mo_statech s) (mo_labelch s) (mo_labelled s).
Definition with_pub (c : nodeStateEnum) (s : monitor) : monitor :=
  MkMonitor (mo_cfg s) (mo_sc s) (mo_gpusIDs s) (mo_knode s) (mo_node s) (mo_labels s) (mo_pods s) c (mo_statech s) (mo_labelch s) (mo_labelled s).
Definition with_statech (b : bool) (s : monitor) : monitor :=
  MkMonitor (mo_cfg s) (mo_sc s) (mo_gpusIDs s) (mo_knode s) (mo_node s) (mo_labels s) (mo_pods s) (mo_lastPub s) b (mo_labelch s) (mo_labelled s).
Definition with_labelch (b : bool) (s : monitor) : monitor :=
  MkMonitor (mo_cfg s) (mo_sc s) (mo_gpusIDs s) (mo_knode s) (mo_node s) (mo_labels s) (mo_pods s) (mo_lastPub s) (mo_statech s) b (mo_labelled s).
Definition with_labelled (s : monitor) : monitor :=
  MkMonitor (mo_cfg s) (mo_sc s) (mo_gpusIDs s) (mo_knode s) (mo_node s) (mo_labels s) (mo_pods s) (mo_lastPub s) (mo_statech s) (mo_labelch s) true.
Definition signalState (s : monitor) : monitor := with_statech true s.
Definition signalLabels (s : monitor) : monitor := with_labelch true s.

(** What a node does to the world: it publishes its state, or has its labels
    patched. *)
Inductive nd_action := PubUpdated (n : Node) | PubRemoved | PatchLabels (labels : label_map).

Inductive nd_result := NdContinue (s : monitor) (acts : list nd_action) | NdExit (acts : list nd_action).

(** [pods]: the listing, or [None] for an error of the watch or the listing. *)
Definition restartPodsWatcher (pods : option (list KubePod)) (s : monitor) : option monitor :=
  match pods with
  | None => None
  | Some items =>
      let allocated := List.filter (λ p, isPodAllocated (kp_Conditions p)) items in
      Some (with_pods (foldl addPodAllocatedResources (nodeResetAllocated (mo_node s)) allocated)
              (foldl (λ m p, <[podKey p := p]> m) ∅ allocated) s)
  end.

Inductive nd_event :=
| EvConfig (c : Config)
| EvStorageClasses (sc : gset string)
| EvGpuIDs (ids : RegistryGPUVendors) (gpus : option (list GraphicsCard)) (pci : option (list PciDevice))
| EvNode (t : watch_type) (obj : KubeNode) (ib : option IBDiscovery) (pods : option (list KubePod))
| EvPod (t : watch_type) (obj : KubePod)
| EvPodStatus
| EvPodsClosed (pods : option (list KubePod))
| EvState
| EvLabels
| EvDone.

(** The deferred function. *)
Definition nd_exit (s : monitor) : nd_result := NdExit (if bool_decide (mo_lastPub s = nodeStateRemoved) then [] else [PubRemoved]).

Definition on_pod (t : watch_type) (obj : KubePod) (s : monitor) : monitor :=
  let key := podKey obj in
  match t with
  | WatchAdded | WatchModified =>
      if bool_decide (mo_pods s !! key = None) && isPodAllocated (kp_Conditions obj)
      then with_pods (addPodAllocatedResources (mo_node s) obj) (<[key := obj]> (mo_pods s)) s
      else s
  | WatchDeleted =>
      match mo_pods s !! key with
      | None => s
      | Some pod => with_pods (subPodAllocatedResources (mo_node s) pod) (delete key (mo_pods s)) s
      end
  | WatchOther => s
  end.

Definition on_node (t : watch_type) (obj : KubeNode) (ib : option IBDiscovery) (pods : option (list KubePod)) (s : monitor) : nd_result :=
  match t with
  | WatchModified =>
      if nodeAllocatableChanged (mo_knode s) obj then
        let n := set_caps (set_ib (parseIBInfo ib) (nd_Capabilities (mo_node s))) (mo_node s) in
        match restartPodsWatcher pods (with_node (updateNodeInfo obj n (cf_ResourcePatterns (mo_cfg s))) s) with
        | None => nd_exit s
        | Some s => NdContinue (with_knode obj (signalLabels s)) []
        end
      else NdContinue (with_knode obj (signalLabels s)) []
  | _ => NdContinue (with_knode obj s) []
  end.

Definition on_state (s : monitor) : nd_result :=
  let s := with_statech false s in
  if bool_decide (mo_labels s ≠ ∅) then NdContinue (with_pub nodeStateUpdated s) [PubUpdated (mo_node s)]
  else if bool_decide (mo_lastPub s = nodeStateRemoved) then NdContinue s []
  else NdContinue (with_pub nodeStateRemoved s) [PubRemoved].

(** The labels and, after a first time, the classes decide whether anything has
    changed; an error of the patch is logged. *)
Definition on_labels (s : monitor) : outcome nd_result :=
  let s := with_labelch false s in
  let! (labels, nNode) := generateLabels (mo_cfg s) (mo_knode s) (mo_node s) (mo_sc s) in
  let changed := negb (mo_labelled s) || dup_differs (mo_node s)
    || negb (bool_decide (cap_StorageClasses (nd_Capabilities nNode) = cap_StorageClasses (nd_Capabilities (mo_node s)))) in
  let s := if changed then signalState (with_labelled (with_node nNode s)) else s in
  if bool_decide (labels = mo_labels s) then Ret (NdContinue s [])
  else Ret (NdContinue (signalState (with_labels (copyManagedLabels labels) s))
    [PatchLabels (removeManagedLabels (kn_Labels (mo_knode s)) ∪ labels)]).

(** An event the loop is not ready for is [None]; an event of the watch that
    is no pod panics. *)
Definition nd_step (dp_name : string) (s : monitor) (e : nd_event) : option (outcome nd_result) :=
  match e with
  | EvConfig c =>
      let changed := negb (bool_decide (cf_ResourcePatterns c = cf_ResourcePatterns (mo_cfg s))) in
      let s := with_cfg c s in
      let s := if changed then signalState (with_node (updateNodeInfo (mo_knode s) (mo_node s) (cf_ResourcePatterns c)) s) else s in
      Some (Ret (NdContinue (signalLabels s) []))
  | EvStorageClasses sc => Some (Ret (NdContinue (signalLabels (with_sc sc s)) []))
  | EvGpuIDs ids gpus pci => Some (Ret (NdContinue (signalLabels (with_node (set_gpus (parseGPUInfo ids gpus pci) (mo_node s)) (with_ids ids s))) []))
  | EvNode t obj ib pods =>
      if kn_Name obj =? dp_name then Some (Ret (on_node t obj ib pods s)) else Some (Ret (NdContinue s []))
  | EvPod t obj => Some (Ret (NdContinue (signalState (on_pod t obj s)) []))
  | EvPodStatus => Some Panic
  | EvPodsClosed pods =>
      match restartPodsWatcher pods s with
      | None => Some (Ret (nd_exit s))
      | Some s => Some (Ret (NdContinue s []))
      end
  | EvState => if mo_statech s then Some (Ret (on_state s)) else None
  | EvLabels => if mo_labelch s then Some (on_labels s) else None
  | EvDone => Some (Ret (nd_exit s))
  end.

(** Before the loop: the configuration, the classes and the identifiers have
    come, the node was read, or is empty when it could not be, and its pods are
    listed. *)
Definition no_node : KubeNode := MkKubeNode _ "" ∅ false [] [] "" ∅ ∅.
Definition nd_start (cfg : Config) (sc : gset string) (gpusIDs : RegistryGPUVendors) (got : option KubeNode) (pb : probe) (pods : option (list KubePod)) : option monitor :=
  let knode := default no_node got in
  restartPodsWatcher pods
    (MkMonitor cfg sc gpusIDs knode (initNodeInfo gpusIDs knode (cf_ResourcePatterns cfg) pb)
      (match got with Some k => copyManagedLabels (kn_Labels k) | None => ∅ end) ∅ nodeStateRemoved false false false).

End monitor.
