(* ===== verification/NodeDiscoverySound.v ===== *)
(** * What the inventory says of a node is true

    What a node reports as allocated is what the pods that run on it ask for,
    and the volumes in memory of a pod once more for each further container,
    through any run of the loop; the labels it is given admit the workloads
    that the inventory places on it; the interconnect resource does not depend
    on the order of a map. *)
From Stdlib Require Import Ascii String.
From S2P Require Import Prelude Traces GoStrings ChainTypes ClusterTypes HostRoutes MetalLb LeaseNames CrdManifest Inventory InventorySound GpuRequest KubeDeclare.
From S2P Require Import ManifestManager KubeObjects Workload NodeDiscovery IpOperatorSample InventorySample KubeSample.

Open Scope string_scope.
Open Scope go_scope.

(** ** Sums *)

Lemma sum_Z_cons x l : sum_Z (x :: l) = (x + sum_Z l)%Z.
Proof. done. Qed.
Lemma sum_Z_nonneg l : Forall (λ z, 0 ≤ z)%Z l → (0 ≤ sum_Z l)%Z.
Proof. induction 1; rewrite ?sum_Z_cons; [done|lia]. Qed.

Section load.
Context `{GoUnicode} `{QuantityLaws} `{!DiscoverySdk} `{MapOrder}.
Local Open Scope Z_scope.

(** ** What a pod takes of a resource *)

Definition request_load (ic : string) (k : rkind) (requests : gmap string Quantity) : Z :=
  sum_Z ((λ p, if decide (kind_of ic p.1 = Some k) then q_nano p.2 else 0) <$> map_to_list requests).
Definition ram_load (k : rkind) (pod : KubePod) : Z :=
  if decide (k = KMemory) then sum_Z (q_nano <$> omap ram_limit (kp_Volumes pod)) else 0.
(** As the code counts: volumes in memory with every container. *)
Definition pod_load (ic : string) (k : rkind) (pod : KubePod) : Z :=
  sum_Z ((λ requests, request_load ic k requests + ram_load k pod) <$> kp_Requests pod).
Definition pods_load (ic : string) (k : rkind) (pods : gmap string KubePod) : Z :=
  sum_Z ((λ p, pod_load ic k p.2) <$> map_to_list pods).

(** What a pod asks for: the requests of its containers, and its volumes in
    memory, which it has once. *)
Definition pod_asks (ic : string) (k : rkind) (pod : KubePod) : Z :=
  sum_Z (request_load ic k <$> kp_Requests pod) + ram_load k pod.
Definition pods_ask (ic : string) (k : rkind) (pods : gmap string KubePod) : Z :=
  sum_Z ((λ p, pod_asks ic k p.2) <$> map_to_list pods).

(** What is counted beyond that: volumes in memory once more for every further
    container. *)
Definition pod_excess (k : rkind) (pod : KubePod) : Z := (Z.of_nat (List.length (kp_Requests pod)) - 1) * ram_load k pod.
Definition pods_excess (k : rkind) (pods : gmap string KubePod) : Z :=
  sum_Z ((λ p, pod_excess k p.2) <$> map_to_list pods).

Lemma pod_load_asks ic k pod : pod_load ic k pod = pod_asks ic k pod + pod_excess k pod.
Proof.
  unfold pod_load, pod_asks, pod_excess. generalize (ram_load k pod) as r. intros r.
  induction (kp_Requests pod) as [|c l IH]; cbn [fmap list_fmap List.length]; [cbn; lia|]. rewrite !sum_Z_cons, IH. lia.
Qed.

Lemma pods_load_asks ic k pods : pods_load ic k pods = pods_ask ic k pods + pods_excess k pods.
Proof.
  unfold pods_load, pods_ask, pods_excess. induction (map_to_list pods) as [|p l IH]; [done|].
  cbn [fmap list_fmap]. rewrite !sum_Z_cons, IH, pod_load_asks. lia.
Qed.

(** Nothing is counted twice of what is not memory, nor of pods with one
    container or without volumes in memory. *)
Lemma pods_excess_none k pods :
  k ≠ KMemory ∨ (∀ key pod, pods !! key = Some pod → List.length (kp_Requests pod) = 1%nat ∨ omap ram_limit (kp_Volumes pod) = []) → pods_excess k pods = 0.
Proof.
  intros Hk. unfold pods_excess. assert (∀ p, p ∈ map_to_list pods → pod_excess k p.2 = 0) as Hz.
  { intros [key pod] Hin%elem_of_map_to_list. unfold pod_excess, ram_load. cbn [snd]. destruct Hk as [Hk|Hk]; [rewrite decide_False by done; lia|].
    destruct (Hk key pod Hin) as [->| ->]; [lia|]. case_decide; cbn; lia. }
  revert Hz. induction (map_to_list pods) as [|p l IH]; intros Hz; [done|]. cbn [fmap list_fmap]. rewrite sum_Z_cons, (Hz p) by (by left).
  rewrite IH; [done|]. intros q Hq. apply Hz. by right.
Qed.

(** What a node says is allocated. *)
Definition allocated (k : rkind) (n : Node) : Z := q_nano (default (q_Set 0) (rp_Allocated (pair_of k (nd_Resources n)))).
Definition resource_name (n : Node) : string := cap_InterconnectResourceName (nd_Capabilities n).

Lemma pods_load_insert ic k key p m : m !! key = None → pods_load ic k (<[key := p]> m) = pod_load ic k p + pods_load ic k m.
Proof. intros Hk. unfold pods_load. by rewrite (sum_Z_map_perm _ _ _ (map_to_list_insert m key p Hk)). Qed.

Lemma pods_load_delete ic k key p m : m !! key = Some p → pods_load ic k (delete key m) = pods_load ic k m - pod_load ic k p.
Proof.
  intros Hk. rewrite <- (insert_delete_id m key p Hk) at 2. rewrite pods_load_insert by apply lookup_delete_eq. lia.
Qed.

(** Only the interconnect depends on the name of its resource. *)
Lemma kind_of_name ic ic' name k : k ≠ KInterconnect → kind_of ic name = Some k ↔ kind_of ic' name = Some k.
Proof. intros Hk. unfold kind_of. repeat case_match; naive_solver. Qed.

Lemma pods_load_name ic ic' k pods : k ≠ KInterconnect → pods_load ic k pods = pods_load ic' k pods.
Proof.
  intros Hk. unfold pods_load. f_equal. apply list_fmap_ext. intros i [key p] _. unfold pod_load. f_equal.
  apply list_fmap_ext. intros j r _. f_equal. unfold request_load. f_equal.
  apply list_fmap_ext. intros l [name q] _. cbn. pose proof (kind_of_name ic ic' name k Hk).
  do 2 case_decide; naive_solver.
Qed.

(** ** Accounting *)

Lemma pair_of_set_pair k k' p r : pair_of k (set_pair k' p r) = if decide (k = k') then p else pair_of k r.
Proof. by destruct k, k'. Qed.

Lemma allocated_on_pair k k' f n : (∀ p, rp_Allocated (f p) = rp_Allocated p) → allocated k (on_pair k' f n) = allocated k n.
Proof.
  intros Hf. unfold allocated, on_pair. cbn [nd_Resources set_NodeRes]. rewrite pair_of_set_pair.
  case_decide; [subst; by rewrite Hf|done].
Qed.

Lemma allocated_caps k c n : allocated k (set_caps c n) = allocated k n.
Proof. done. Qed.

Section op.
Context (op : Quantity → Quantity → Quantity) (sign : Z) (op_law : ∀ a b, q_nano (op a b) = q_nano a + sign * q_nano b).

Lemma on_allocated_spec k k' q n :
  allocated k (on_allocated op k' q n) = allocated k n + sign * (if decide (k' = k) then q_nano q else 0)
  ∧ resource_name (on_allocated op k' q n) = resource_name n.
Proof.
  split; [|done]. unfold allocated, on_allocated, on_pair. cbn [nd_Resources set_NodeRes]. rewrite pair_of_set_pair.
  destruct (decide (k = k')) as [->|Hk]; [rewrite decide_True by done; apply op_law|rewrite decide_False by done; lia].
Qed.

Lemma account_requests ic k l n :
  let n' := foldl (λ n '(name, q), match kind_of ic name with Some k => on_allocated op k q n | None => n end) n l in
  allocated k n' = allocated k n + sign * sum_Z ((λ p, if decide (kind_of ic p.1 = Some k) then q_nano p.2 else 0) <$> l)
  ∧ resource_name n' = resource_name n.
Proof.
  revert n. induction l as [|[name q] l IH]; intros n; cbn [foldl fmap list_fmap]; [split; [cbn; lia|done]|].
  destruct (IH (match kind_of ic name with Some k => on_allocated op k q n | None => n end)) as [-> ->].
  rewrite sum_Z_cons. cbn [fst snd]. destruct (kind_of ic name) as [k'|].
  - destruct (on_allocated_spec k k' q n) as [-> ->]. split; [|done].
    destruct (decide (k' = k)) as [->|Hk]; [rewrite decide_True by done|rewrite decide_False by congruence]; lia.
  - rewrite decide_False by done. split; [lia|done].
Qed.

Lemma account_ram k l n :
  let n' := foldl (λ n q, on_allocated op KMemory q n) n l in
  allocated k n' = allocated k n + sign * (if decide (k = KMemory) then sum_Z (q_nano <$> l) else 0)
  ∧ resource_name n' = resource_name n.
Proof.
  revert n. induction l as [|q l IH]; intros n; cbn [foldl fmap list_fmap]; [split; [case_decide; cbn; lia|done]|].
  destruct (IH (on_allocated op KMemory q n)) as [-> ->]. destruct (on_allocated_spec k KMemory q n) as [-> ->].
  split; [|done]. rewrite sum_Z_cons. destruct (decide (k = KMemory)) as [->|]; [rewrite decide_True by done|rewrite decide_False by done]; lia.
Qed.

Lemma account_pod_spec k n pod :
  allocated k (account_pod op n pod) = allocated k n + sign * pod_load (resource_name n) k pod
  ∧ resource_name (account_pod op n pod) = resource_name n.
Proof.
  unfold account_pod, pod_load. fold (resource_name n). generalize (resource_name n) at 1 2 3 as ic. intros ic.
  revert n. induction (kp_Requests pod) as [|r l IH]; intros n; cbn [foldl fmap list_fmap]; [split; [cbn; lia|done]|].
  rewrite sum_Z_cons. edestruct IH as [-> ->]. edestruct account_ram as [-> ->]. edestruct account_requests as [-> ->].
  split; [|done]. unfold ram_load, request_load.
  rewrite (sum_Z_map_perm _ _ _ (map_order_perm _ (map_to_list r))). lia.
Qed.

End op.

Lemma add_pod_spec k n pod :
  allocated k (addPodAllocatedResources n pod) = allocated k n + pod_load (resource_name n) k pod
  ∧ resource_name (addPodAllocatedResources n pod) = resource_name n.
Proof.
  destruct (account_pod_spec q_Add 1) with (k := k) (n := n) (pod := pod) as [E ?]; [intros; rewrite Add_law; lia|].
  split; [|done]. unfold addPodAllocatedResources. lia.
Qed.

Lemma sub_pod_spec k n pod :
  allocated k (subPodAllocatedResources n pod) = allocated k n - pod_load (resource_name n) k pod
  ∧ resource_name (subPodAllocatedResources n pod) = resource_name n.
Proof.
  destruct (account_pod_spec q_Sub (-1)) with (k := k) (n := n) (pod := pod) as [E ?]; [intros; rewrite Sub_law; lia|].
  split; [|done]. unfold subPodAllocatedResources. lia.
Qed.

Lemma reset_spec k n : allocated k (nodeResetAllocated n) = 0 ∧ resource_name (nodeResetAllocated n) = resource_name n.
Proof. split; [|done]. destruct k; apply Set_zero_law || apply SetMilli_zero_law. Qed.

Lemma take_quantities_spec k set ic l n :
  (∀ q p, rp_Allocated (set q p) = rp_Allocated p) →
  allocated k (take_quantities set ic l n) = allocated k n ∧ resource_name (take_quantities set ic l n) = resource_name n.
Proof.
  intros Hset. unfold take_quantities. generalize (map_order _ (map_to_list l)). intros l'. revert n.
  induction l' as [|[name q] l' IH]; intros n; cbn [foldl]; [done|].
  destruct (IH (match kind_of ic name with Some k => on_pair k (set (as_counted k q)) n | None => n end)) as [-> ->].
  destruct (kind_of ic name); [|done]. by rewrite allocated_on_pair.
Qed.

(** What the kubelet reports leaves what is allocated alone. *)
Lemma updateNodeInfo_allocated k knode n patterns : allocated k (updateNodeInfo knode n patterns) = allocated k n.
Proof.
  unfold updateNodeInfo. cbv zeta. rewrite (proj1 (take_quantities_spec k set_capacity _ _ _ (λ _ _, eq_refl))).
  rewrite (proj1 (take_quantities_spec k set_allocatable _ _ _ (λ _ _, eq_refl))), allocated_caps. by apply allocated_on_pair.
Qed.

Lemma pods_load_nonneg ic k pods :
  (∀ key p q, pods !! key = Some p →
     (∃ r name, r ∈ kp_Requests p ∧ r !! name = Some q) ∨ (∃ v, v ∈ kp_Volumes p ∧ ram_limit v = Some q) → 0 ≤ q_nano q) →
  0 ≤ pods_load ic k pods.
Proof.
  intros Hpos. apply sum_Z_nonneg, Forall_fmap, Forall_forall. intros [key p] Hp%elem_of_map_to_list. cbn.
  apply sum_Z_nonneg, Forall_fmap, Forall_forall. intros r Hr. apply Z.add_nonneg_nonneg.
  - apply sum_Z_nonneg, Forall_fmap, Forall_forall. intros [name q] Hq%elem_of_map_to_list. cbn.
    case_decide; [|done]. eapply Hpos; eauto 8.
  - unfold ram_load. case_decide; [|done]. apply sum_Z_nonneg, Forall_fmap, Forall_forall. cbn.
    intros q (v & Hv & E)%list_elem_of_omap. eapply Hpos; eauto 8.
Qed.

(** ** The loop *)

(** A run of the loop, up to where it ends. *)
Definition nd_next (dp_name : string) (s : monitor) (e : nd_event) : option (monitor * list nd_action) :=
  match nd_step dp_name s e with Some (Ret (NdContinue s' acts)) => Some (s', acts) | _ => None end.

Definition counted (k : rkind) (s : monitor) : Prop := allocated k (mo_node s) = pods_load (resource_name (mo_node s)) k (mo_pods s).

(** The listing an event comes with. *)
Definition listing (e : nd_event) : list KubePod :=
  match e with EvNode _ _ _ (Some pods) | EvPodsClosed (Some pods) => pods | _ => [] end.
Definition keeps_patterns (patterns : list string) (e : nd_event) : Prop :=
  match e with EvConfig c => cf_ResourcePatterns c = patterns | _ => True end.

Lemma add_pods_counted k items n pods :
  NoDup (podKey <$> items) → (∀ p, p ∈ items → pods !! podKey p = None) → allocated k n = pods_load (resource_name n) k pods →
  let n' := foldl addPodAllocatedResources n items in
  allocated k n' = pods_load (resource_name n') k (foldl (λ m p, <[podKey p := p]> m) pods items).
Proof.
  revert n pods. induction items as [|p items IH]; intros n pods Hnd Hnew E; cbn [foldl]; [done|].
  inversion Hnd as [|? ? Hp Hnd']; subst. destruct (add_pod_spec k n p) as [Ea En]. apply IH; [done| |].
  - intros p' Hp'. rewrite lookup_insert_ne; [apply Hnew; by right|].
    intros Heq. apply Hp. fold (fmap (M := list) podKey items). rewrite Heq. by apply list_elem_of_fmap_2.
  - rewrite Ea, En, pods_load_insert by (apply Hnew; by left). lia.
Qed.

Lemma restart_counted k items s s' : NoDup (podKey <$> items) → restartPodsWatcher (Some items) s = Some s' → counted k s'.
Proof.
  intros Hnd [= <-]. unfold counted. cbn [mo_node mo_pods with_pods].
  apply add_pods_counted; [|by intros; apply lookup_empty|by rewrite (proj1 (reset_spec k _))].
  induction items as [|p items IH]; cbn [List.filter]; [constructor|].
  inversion Hnd as [|? ? Hp Hnd']; subst. specialize (IH Hnd'). destruct (isPodAllocated _); [|done].
  constructor; [|done]. intros (p' & E & Hin)%list_elem_of_fmap. apply Hp.
  apply list_elem_of_fmap. exists p'. split; [done|]. apply list_elem_of_In, List.filter_In in Hin. by apply list_elem_of_In, Hin.
Qed.

Lemma generateLabels_node cfg knode n sc labels n' :
  generateLabels cfg knode n sc = Ret (labels, n') → ∃ classes, n' = set_caps (set_classes classes (nd_Capabilities n)) n.
Proof.
  unfold generateLabels. intros (adj & _ & E)%obind_ret. destruct (_ || _); [injection E as _ <-; eauto|].
  apply obind_ret in E as (sc' & _ & [= _ <-]). eauto.
Qed.

Lemma on_pod_counted k t obj s : counted k s → counted k (on_pod t obj s).
Proof.
  unfold counted, on_pod. intros E. destruct t; try done.
  1,2: case_bool_decide; cbn [andb]; [|done]; destruct (isPodAllocated _); [|done]; cbn [mo_node mo_pods with_pods];
    destruct (add_pod_spec k (mo_node s) obj) as [-> ->]; rewrite pods_load_insert by done; lia.
  destruct (mo_pods s !! podKey obj) as [pod|] eqn:Ep; [|done]. cbn [mo_node mo_pods with_pods].
  destruct (sub_pod_spec k (mo_node s) pod) as [-> ->]. rewrite (pods_load_delete _ _ _ pod) by done. lia.
Qed.

(** One turn of the loop. *)
Lemma nd_next_counted k dp_name s e s' acts :
  nd_next dp_name s e = Some (s', acts) → NoDup (podKey <$> listing e) →
  k ≠ KInterconnect ∨ keeps_patterns (cf_ResourcePatterns (mo_cfg s)) e → counted k s → counted k s'.
Proof.
  unfold nd_next. intros E Hnd Hk Hc. destruct e as [c|sc|ids gpus pci|t obj ib pods|t obj| |pods| | |]; cbn [nd_step listing keeps_patterns] in *; try done.
  - injection E as <- _. destruct (negb _) eqn:En; [|done]. unfold counted in *. cbn [mo_node mo_pods with_node with_cfg signalLabels signalState with_labelch with_statech mo_knode].
    rewrite updateNodeInfo_allocated, Hc. destruct Hk as [Hk|Hk]; [by apply pods_load_name|].
    rewrite bool_decide_eq_true_2 in En by done. done.
  - by injection E as <- _.
  - by injection E as <- _.
  - destruct (String.eqb (kn_Name obj) dp_name); [|by injection E as <- _]. unfold on_node in E.
    destruct t; try by injection E as <- _. destruct (nodeAllocatableChanged _ _); [|by injection E as <- _].
    destruct pods as [pods|]; [|done]. destruct (restartPodsWatcher (Some pods) _) as [s1|] eqn:Er; [|done].
    injection E as <- _. exact (restart_counted k pods _ _ Hnd Er).
  - injection E as <- _. exact (on_pod_counted k t obj s Hc).
  - destruct pods as [pods|]; [|done]. injection E as <- _. exact (restart_counted k pods s _ Hnd eq_refl).
  - destruct (mo_statech s); [|done]. unfold on_state in E. repeat case_match; simplify_eq; done.
  - destruct (mo_labelch s); [|done]. destruct (on_labels s) as [r|] eqn:El; [|done].
    unfold on_labels in El. apply obind_ret in El as ([labels n'] & Eg & El).
    apply generateLabels_node in Eg as [classes ->]. repeat case_match; simplify_eq; done.
Qed.

Lemma nd_next_cfg dp_name s e s' acts :
  nd_next dp_name s e = Some (s', acts) → keeps_patterns (cf_ResourcePatterns (mo_cfg s)) e →
  cf_ResourcePatterns (mo_cfg s') = cf_ResourcePatterns (mo_cfg s).
Proof.
  unfold nd_next. intros E Hk. destruct e as [c|sc|ids gpus pci|t obj ib pods|t obj| |pods| | |]; cbn [nd_step keeps_patterns] in *; try done.
  - injection E as <- _. by destruct (negb _).
  - by injection E as <- _.
  - by injection E as <- _.
  - unfold on_node, restartPodsWatcher in E. repeat case_match; simplify_eq; done.
  - injection E as <- _. unfold on_pod. by repeat case_match.
  - unfold restartPodsWatcher in E. repeat case_match; simplify_eq; done.
  - unfold on_state in E. repeat case_match; simplify_eq; done.
  - destruct (mo_labelch s); [|done]. destruct (on_labels s) as [r|] eqn:El; [|done].
    unfold on_labels in El. apply obind_ret in El as ([labels n'] & Eg & El). repeat case_match; simplify_eq; done.
Qed.

(** Claim C11.  What a node reports as allocated is, of every resource, what
    the pods counted on it ask for, and, of memory, the volumes in memory of a pod once
    more for each of its containers after the first; so it is exactly what they
    ask for of all that is not memory, and of memory when no pod has both
    several containers and such volumes.  It holds however the loop has run:
    from its start, through listings, watch events, changes of the node, of its
    configuration and of its labels; of the interconnect only as long as the
    configured patterns stay what they are.  It is never negative when no
    request is. *)
Theorem allocated_exact k dp_name cfg sc ids got pb items s0 es acts s
  (Hstart : nd_start cfg sc ids got pb (Some items) = Some s0)
  (Hrun : runs (nd_next dp_name) s0 es acts s)
  (Hkeys : NoDup (podKey <$> items) ∧ Forall (λ e, NoDup (podKey <$> listing e)) es)
  (Hk : k ≠ KInterconnect ∨ Forall (keeps_patterns (cf_ResourcePatterns cfg)) es) :
  allocated k (mo_node s) = pods_ask (resource_name (mo_node s)) k (mo_pods s) + pods_excess k (mo_pods s)
  ∧ (k ≠ KMemory ∨ (∀ key pod, mo_pods s !! key = Some pod → List.length (kp_Requests pod) = 1%nat ∨ omap ram_limit (kp_Volumes pod) = []) →
     allocated k (mo_node s) = pods_ask (resource_name (mo_node s)) k (mo_pods s))
  ∧ ((∀ key p q, mo_pods s !! key = Some p →
        (∃ r name, r ∈ kp_Requests p ∧ r !! name = Some q) ∨ (∃ v, v ∈ kp_Volumes p ∧ ram_limit v = Some q) → 0 ≤ q_nano q) →
     0 ≤ allocated k (mo_node s)).
Proof.
  destruct Hkeys as [Hitems Hkeys].
  assert (counted k s) as Hc.
  2:{ unfold counted in Hc. pose proof (pods_load_nonneg (resource_name (mo_node s)) k (mo_pods s)). rewrite Hc. split_and!; [apply pods_load_asks| |done].
      intros Hn%pods_excess_none. rewrite pods_load_asks, Hn. lia. }
  assert (counted k s ∧ (k ≠ KInterconnect ∨ cf_ResourcePatterns (mo_cfg s) = cf_ResourcePatterns cfg)) as [? _]; [|done].
  induction Hrun as [|es acts s1 e s2 acts1 Hrun IH Hstep].
  - split; [exact (restart_counted k items _ _ Hitems Hstart)|]. right. injection Hstart as <-. done.
  - rewrite Forall_app, Forall_singleton in Hkeys. destruct IH as [Hc Hp]; [naive_solver| |].
    { destruct Hk as [?|Hk]; [by left|right]. rewrite Forall_app in Hk. apply Hk. }
    assert (k ≠ KInterconnect ∨ keeps_patterns (cf_ResourcePatterns (mo_cfg s1)) e ∧ cf_ResourcePatterns (mo_cfg s1) = cf_ResourcePatterns cfg) as Hk'.
    { destruct Hk as [?|Hk]; [by left|]. destruct Hp as [?|Hp]; [by left|right]. rewrite Hp.
      rewrite Forall_app, Forall_singleton in Hk. naive_solver. }
    split; [apply (nd_next_counted k _ _ _ _ _ Hstep); naive_solver|].
    destruct Hk' as [?|[Hk' <-]]; [by left|right]. exact (nd_next_cfg _ _ _ _ _ Hstep Hk').
Qed.

End load.

(** ** Labels *)

(** What the scheduler asks of the labels of a node: one of the values, or a
    number above the one given. *)
Definition admits (labels : label_map) (r : NodeSelectorRequirement) : bool :=
  match labels !! nr_Key r with
  | None => false
  | Some v =>
      match nr_Operator r, nr_Values r with
      | OpIn, values => existsb (String.eqb v) values
      | OpGt, [x] => match ParseUint v, ParseUint x with (a, None), (b, None) => (b <? a)%Z | _, _ => false end
      | OpGt, _ => false
      end
  end.

Definition is_count (v : string) : Prop := ∃ z, (1 ≤ z ≤ 2 ^ 32)%Z ∧ v = FormatUint z.
Definition positive (res : label_map) (key : string) : Prop := ∃ v, res !! key = Some v ∧ is_count v.
Definition capability (key : string) : bool := HasPrefix key "akash.network/capabilities".
Definition all_counts (res : label_map) : Prop := ∀ key v, capability key = true → res !! key = Some v → is_count v.

Lemma positive_admits res key : positive res key → admits res (node_more key) = true.
Proof.
  intros (v & E & z & Hz & ->). unfold admits. cbn [node_more nr_Key nr_Operator nr_Values].
  rewrite E, ParseUint_FormatUint by lia. change (ParseUint "0") with (0%Z, None (A := string)). cbv iota. apply Z.ltb_lt. lia.
Qed.

Lemma is_count_one : is_count "1".
Proof. exists 1%Z. split; [lia|done]. Qed.

Lemma insert_count res key key' v : is_count v → positive res key' → positive (<[key := v]> res) key'.
Proof.
  intros Hv (v' & E & Hv'). destruct (decide (key = key')) as [->|Hne].
  - exists v. by rewrite lookup_insert_eq.
  - exists v'. by rewrite lookup_insert_ne.
Qed.

(** What labels may grow to: counts stay counts. *)
Definition grows (res res' : label_map) : Prop :=
  (all_counts res → all_counts res') ∧ (all_counts res → ∀ key, capability key = true → positive res key → positive res' key)
  ∧ res' !! AkashManagedLabelName = res !! AkashManagedLabelName.

#[local] Instance grows_preorder : PreOrder grows.
Proof.
  split; [done|]. intros x y z (H1 & H2 & H3) (H4 & H5 & H6). split_and!; [naive_solver|naive_solver|congruence].
Qed.

Lemma grows_insert res key v : capability key = true → is_count v → grows res (<[key := v]> res).
Proof.
  intros Hkey Hv. split_and!.
  - intros Hall key' v' Hk'. destruct (decide (key = key')) as [->|Hne]; [rewrite lookup_insert_eq; naive_solver|].
    rewrite lookup_insert_ne by done. by apply Hall.
  - intros _ key' _ Hp. by apply insert_count.
  - rewrite lookup_insert_ne; [done|]. by intros ->.
Qed.

Lemma count_label_spec key res :
  capability key = true → grows res (count_label key res) ∧ (all_counts res → positive (count_label key res) key).
Proof.
  intros Hkey. unfold count_label. destruct (res !! key) as [val|] eqn:E.
  - assert (∀ z, (1 ≤ z ≤ 2 ^ 32)%Z → is_count (FormatUint (u64 (ParseUint32 (FormatUint z) + 1)))) as Hnext.
    { intros z Hz. exists (Z.min z (2 ^ 32 - 1) + 1)%Z. split; [lia|]. unfold ParseUint32.
      rewrite ParseUint_FormatUint by lia. cbn [fst]. rewrite u64_id; [done|lia]. }
    split; [|intros Hall; destruct (Hall key val Hkey E) as (z & Hz & ->); eexists; rewrite lookup_insert_eq; eauto].
    split_and!.
    + intros Hall. destruct (Hall key val Hkey E) as (z & Hz & ->). by apply grows_insert; [|apply Hnext|].
    + intros Hall. destruct (Hall key val Hkey E) as (z & Hz & ->). apply grows_insert; [done|by apply Hnext|done].
    + rewrite lookup_insert_ne; [done|]. by intros ->.
  - split; [apply grows_insert; [done|apply is_count_one]|]. intros _. exists "1". rewrite lookup_insert_eq. by split; [|apply is_count_one].
Qed.

Definition gpu_label (vendor model : string) : string := AkashServiceCapabilityGPU +:+ ".vendor." +:+ vendor +:+ ".model." +:+ model.

Section labels.
Context `{GoUnicode} `{QuantityArith} `{!DiscoverySdk} `{MapOrder}.

Lemma gpu_labels_spec res info :
  grows res (gpu_labels res info) ∧ (all_counts res → positive (gpu_labels res info) (gpu_label (gi_Vendor info) (gi_Name info))).
Proof.
  unfold gpu_labels. fold (gpu_label (gi_Vendor info) (gi_Name info)). set (key := gpu_label _ _).
  assert (∀ x, capability (key +:+ x) = true) as Hkeys by done.
  assert (capability key = true) as Hkey by done.
  assert (∀ res (b : bool) x, grows res (if b then count_label (key +:+ x) res else res)) as Hopt.
  { intros r [] x; [apply count_label_spec, Hkeys|done]. }
  cbv zeta. set (res1 := if _ && _ then _ else res).
  assert (grows res res1) as Hnv.
  { unfold res1. destruct (_ && _); [|done]. split_and!.
    - intros Hall key' v Hk'. rewrite lookup_insert_ne; [by apply Hall|]. by intros <-.
    - intros _ key' Hk' (v & E & Hv). exists v. rewrite lookup_insert_ne; [done|]. by intros <-.
    - by rewrite lookup_insert_ne. }
  destruct (count_label_spec key res1 Hkey) as [Hct Hp].
  split; [by rewrite <- Hopt, <- Hopt, <- Hct|]. intros Hall. specialize (Hp (proj1 Hnv Hall)).
  assert (all_counts (count_label key res1)) as Hall2 by (apply Hct, Hnv, Hall).
  apply Hopt; [by apply Hopt|done|]. by apply Hopt.
Qed.

Lemma gpus_labels_spec l res :
  grows res (foldl gpu_labels res l)
  ∧ (all_counts res → ∀ info, info ∈ l → positive (foldl gpu_labels res l) (gpu_label (gi_Vendor info) (gi_Name info))).
Proof.
  revert res. induction l as [|i l IH]; intros res; cbn [foldl]; [split; [done|]; intros _ info Hi; by apply not_elem_of_nil in Hi|].
  destruct (gpu_labels_spec res i) as [Hg Hp]. destruct (IH (gpu_labels res i)) as [Hg' Hp'].
  split; [by etransitivity; [exact Hg|]|]. intros Hall info [->|Hi]%elem_of_cons; [|by apply Hp'; [apply Hg|]].
  apply Hg'; [by apply Hg|done|by apply Hp].
Qed.

Definition class_label (class : string) : string := AkashServiceCapabilityStorage +:+ ".class." +:+ class.
Lemma classes_labels_spec l res :
  let res' := foldl (λ res class, <[AkashServiceCapabilityStorage +:+ ".class." +:+ class := "1"]> res) res l in
  grows res res' ∧ (all_counts res → ∀ class, class ∈ l → positive res' (class_label class)).
Proof.
  revert res. induction l as [|c l IH]; intros res; cbn [foldl]; [split; [done|]; intros _ info Hi; by apply not_elem_of_nil in Hi|].
  fold (class_label c). assert (grows res (<[class_label c := "1"]> res)) as Hg by (apply grows_insert; [done|apply is_count_one]).
  destruct (IH (<[class_label c := "1"]> res)) as [Hg' Hp']. split; [by etransitivity; [exact Hg|]|].
  intros Hall class [->|Hc]%elem_of_cons; [|by apply Hp'; [apply Hg|]].
  apply Hg'; [by apply Hg|done|]. exists "1". rewrite lookup_insert_eq. split; [done|apply is_count_one].
Qed.

(** The labels of a node that is ready: the mark, its classes, its GPUs. *)
Lemma generateLabels_spec cfg knode n sc labels n' :
  generateLabels cfg knode n sc = Ret (labels, n') → labels ≠ ∅ →
  labels !! AkashManagedLabelName = Some "true"
  ∧ (∀ class, class ∈ cap_StorageClasses (nd_Capabilities n') → positive labels (class_label class))
  ∧ ∀ info, info ∈ igpu_Info (nr_GPU (nd_Resources n')) → positive labels (gpu_label (gi_Vendor info) (gi_Name info)).
Proof.
  unfold generateLabels. intros (adj & _ & E)%obind_ret Hne. destruct (_ || _); [by injection E as <- _|].
  apply obind_ret in E as (classes & _ & [= <- <-]).
  destruct (classes_labels_spec classes {[AkashManagedLabelName := "true"]}) as [Hg Hp].
  destruct (gpus_labels_spec (igpu_Info (nr_GPU (nd_Resources n)))
    (foldl (λ res class, <[AkashServiceCapabilityStorage +:+ ".class." +:+ class := "1"]> res) {[AkashManagedLabelName := "true"]} classes)) as [Hg' Hp'].
  assert (all_counts {[AkashManagedLabelName := "true"]}) as Hall.
  { intros key v Hk [<- _]%lookup_singleton_Some. done. }
  split_and!.
  - etransitivity; [exact (proj2 (proj2 Hg'))|]. etransitivity; [exact (proj2 (proj2 Hg))|done].
  - intros class Hc. apply Hg'; [by apply Hg|done|by apply Hp].
  - intros info Hi. apply Hp'; [by apply Hg|done].
Qed.

(** Labels are a function of the GPUs that were found, not of the rest of what
    is known of the node; all of them are managed. *)
Lemma generateLabels_gpus cfg knode n n2 sc :
  igpu_Info (nr_GPU (nd_Resources n)) = igpu_Info (nr_GPU (nd_Resources n2)) →
  ∀ labels n', generateLabels cfg knode n sc = Ret (labels, n') →
  ∃ n2', generateLabels cfg knode n2 sc = Ret (labels, n2')
    ∧ cap_StorageClasses (nd_Capabilities n2') = cap_StorageClasses (nd_Capabilities n').
Proof.
  intros Heq labels n'. unfold generateLabels. intros (adj & -> & E)%obind_ret. cbn [obind].
  destruct (_ || _); [injection E as <- <-; eauto|]. apply obind_ret in E as (classes & -> & [= <- <-]). cbn [obind].
  rewrite Heq. eauto.
Qed.

Definition managed_only (res : label_map) : Prop := ∀ key v, res !! key = Some v → isLabelManaged key = true.

Lemma managed_insert res key v : isLabelManaged key = true → managed_only res → managed_only (<[key := v]> res).
Proof.
  intros Hk Hr key' v'. destruct (decide (key = key')) as [->|]; [done|]. rewrite lookup_insert_ne by done. apply Hr.
Qed.
Lemma managed_count (b : bool) res key : isLabelManaged key = true → managed_only res → managed_only (if b then count_label key res else res).
Proof. intros Hk Hr. destruct b; [|done]. unfold count_label. case_match; by apply managed_insert. Qed.
Lemma managed_foldl {A} (f : label_map → A → label_map) l res :
  (∀ res a, managed_only res → managed_only (f res a)) → managed_only res → managed_only (foldl f res l).
Proof. intros Hf. revert res. induction l; cbn [foldl]; auto. Qed.

Lemma generateLabels_managed cfg knode n sc labels n' :
  generateLabels cfg knode n sc = Ret (labels, n') → copyManagedLabels labels = labels.
Proof.
  unfold generateLabels. intros (adj & _ & E)%obind_ret. unfold copyManagedLabels.
  destruct (_ || _); [injection E as <- _; apply map_filter_empty|]. apply obind_ret in E as (classes & _ & [= <- _]).
  apply map_filter_id. intros key v. cbn [fst]. revert key v. apply managed_foldl; [|apply managed_foldl].
  - intros res i Hr. unfold gpu_labels. apply managed_count; [done|]. apply managed_count; [done|]. apply (managed_count true); [done|].
    destruct (_ && _); [by apply managed_insert|done].
  - intros res c Hr. by apply managed_insert.
  - intros key v [<- _]%lookup_singleton_Some. done.
Qed.

(** What labels depend on. *)
Definition same_gear (n n' : Node) : Prop :=
  igpu_Info (nr_GPU (nd_Resources n)) = igpu_Info (nr_GPU (nd_Resources n'))
  ∧ cap_StorageClasses (nd_Capabilities n) = cap_StorageClasses (nd_Capabilities n').

Lemma same_gear_trans n1 n2 n3 : same_gear n1 n2 → same_gear n2 n3 → same_gear n1 n3.
Proof. unfold same_gear. intros [? ?] [? ?]. split; congruence. Qed.

Lemma same_gear_foldl {A} (f : Node → A → Node) l n : (∀ n a, same_gear n (f n a)) → same_gear n (foldl f n l).
Proof. intros Hf. revert n. induction l as [|a l IH]; intros n; cbn [foldl]; [done|]. eapply same_gear_trans; [apply Hf|apply IH]. Qed.

Lemma account_gear op n pod : same_gear n (account_pod op n pod).
Proof.
  apply same_gear_foldl. intros n1 r. cbv zeta. eapply same_gear_trans; [|by apply same_gear_foldl].
  apply same_gear_foldl. intros n2 [name q]. destruct (kind_of _ name) as [k|]; [by destruct k|done].
Qed.

Lemma updateNodeInfo_gear knode n patterns : same_gear n (updateNodeInfo knode n patterns).
Proof.
  unfold updateNodeInfo, take_quantities. cbv zeta.
  eapply same_gear_trans; [|apply same_gear_foldl; intros n2 [name q]; destruct (kind_of _ name) as [k|]; [by destruct k|done]].
  eapply same_gear_trans; [|apply same_gear_foldl; intros n2 [name q]; destruct (kind_of _ name) as [k|]; [by destruct k|done]].
  done.
Qed.

Lemma restart_gear pods s s' :
  restartPodsWatcher pods s = Some s' → same_gear (mo_node s) (mo_node s') ∧ mo_cfg s' = mo_cfg s ∧ mo_knode s' = mo_knode s ∧ mo_sc s' = mo_sc s
  ∧ mo_labels s' = mo_labels s ∧ mo_labelch s' = mo_labelch s ∧ mo_labelled s' = mo_labelled s.
Proof.
  unfold restartPodsWatcher. destruct pods as [items|]; [|done]. intros [= <-]. split; [|done]. cbn [mo_node with_pods].
  eapply same_gear_trans; [|apply same_gear_foldl; intros; apply account_gear]. done.
Qed.

(** The labels are those the node should have, when no change is pending. *)
Definition synced (s : monitor) : Prop :=
  mo_labelch s = false → mo_labelled s = true →
  ∃ n', generateLabels (mo_cfg s) (mo_knode s) (mo_node s) (mo_sc s) = Ret (mo_labels s, n')
    ∧ cap_StorageClasses (nd_Capabilities n') = cap_StorageClasses (nd_Capabilities (mo_node s)).

Lemma synced_gear s s' :
  same_gear (mo_node s) (mo_node s') → mo_cfg s' = mo_cfg s → mo_knode s' = mo_knode s → mo_sc s' = mo_sc s → mo_labels s' = mo_labels s →
  mo_labelch s' = mo_labelch s → mo_labelled s' = mo_labelled s → synced s → synced s'.
Proof.
  intros [Hg Hc] Ecfg Ek Esc El Ech Eld Hs. unfold synced. rewrite Ecfg, Ek, Esc, El, Ech, Eld. intros H1' H2'.
  destruct (Hs H1' H2') as (n' & E & Hn). destruct (generateLabels_gpus _ _ _ (mo_node s') _ Hg _ _ E) as (n2' & E2 & Hn2).
  exists n2'. split; [done|congruence].
Qed.

(** The object of the node changes by modifications only: an event that adds
    it comes before the loop, one that deletes it ends the loop. *)
Definition follows (dp_name : string) (e : nd_event) : Prop :=
  match e with EvNode t obj _ _ => kn_Name obj = dp_name → t = WatchModified | _ => True end.

Lemma on_labels_synced s s' acts : on_labels s = Ret (NdContinue s' acts) → synced s'.
Proof.
  unfold on_labels. intros ([labels n'] & Eg & E)%obind_ret. cbn [with_labelch mo_cfg mo_knode mo_node mo_sc mo_labelled mo_labels] in Eg, E.
  pose proof (generateLabels_managed _ _ _ _ _ _ Eg) as Hm. destruct (generateLabels_node _ _ _ _ _ _ Eg) as [classes En].
  assert (∃ n2, generateLabels (mo_cfg s) (mo_knode s) n' (mo_sc s) = Ret (labels, n2)
    ∧ cap_StorageClasses (nd_Capabilities n2) = cap_StorageClasses (nd_Capabilities n')) as (n2 & E2 & Hn2).
  { apply (generateLabels_gpus _ _ (mo_node s)); [by subst n'|done]. }
  intros _ _. destruct (negb _ || _ || _) eqn:Ech; cbn [with_node with_labelled signalState with_statech with_labelch mo_labels] in E;
    [|apply orb_false_iff in Ech as [_ Hcl%negb_false_iff%bool_decide_eq_true_1]];
    case_bool_decide as El; injection E as <- _; cbn; rewrite ?Hm; subst; eauto.
Qed.

Lemma nd_next_synced dp_name s e s' acts : nd_next dp_name s e = Some (s', acts) → follows dp_name e → synced s → synced s'.
Proof.
  unfold nd_next. intros E Hf Hs. destruct e as [c|sc|ids gpus pci|t obj ib pods|t obj| |pods| | |]; cbn [nd_step follows] in *; try done.
  - by injection E as <- _.
  - by injection E as <- _.
  - by injection E as <- _.
  - destruct (String.eqb_spec (kn_Name obj) dp_name) as [Hn|]; [|by injection E as <- _]. rewrite (Hf Hn) in E. unfold on_node in E.
    destruct (nodeAllocatableChanged _ _); [|by injection E as <- _].
    destruct (restartPodsWatcher _ _) as [s1|] eqn:Er; [|done]. by injection E as <- _.
  - injection E as <- _. unfold on_pod.
    destruct t; repeat case_match; try exact Hs; refine (synced_gear s _ _ _ _ _ _ _ _ Hs); try done; apply account_gear.
  - destruct (restartPodsWatcher _ _) as [s1|] eqn:Er; [|done]. injection E as <- _.
    apply restart_gear in Er as (Hg & ? & ? & ? & ? & ? & ?). by apply (synced_gear s).
  - destruct (mo_statech s); [|done]. unfold on_state in E. repeat case_match; simplify_eq; exact Hs.
  - destruct (mo_labelch s); [|done]. destruct (on_labels s) as [r|] eqn:El; [|done]. destruct r as [s1 a1|]; [|done].
    injection E as <- _. exact (on_labels_synced _ _ _ El).
Qed.

End labels.

(** ** Placing workloads *)

Section placing.
Context `{GoUnicode} `{QuantityArith} `{!DiscoverySdk} `{MapOrder} `{!PairOps} `{Cosmos} `{Protocols} `{!KubeProtocols} `{!ManifestSdk} `{KubeSdk} `{ChainSdk}.

Lemma stamp_gpu_selectors vendor model sp sp' r :
  (∀ r g, sp_Resources sp = Some r → sr_GPU r = Some g → sg_MemorySize g = "" ∧ sg_Interface g = "") →
  sp_Resources sp' = sp_Resources (stamp_gpu vendor model sp) → sp_Resources sp' = Some r →
  nodeSelectorsFromResources r = [node_more (gpu_label vendor model)].
Proof.
  intros Hno -> E. destruct sp as [rc [[[g|] i]|] cc pl]; cbn in E; injection E as <-; [|done|done].
  destruct (Hno _ _ eq_refl eq_refl) as [Em Ei]. unfold nodeSelectorsFromResources. cbn in *. by rewrite Em, Ei.
Qed.

(** Claim C12.  The labels the operator last made for a node admit the workloads the
    inventory places on it.  Take the state of a node after any run in which its
    object is only modified, with labels made and no change of them pending,
    and not empty: a service that asks for at least one GPU, without a TEE and
    for no runtime class of confidential computing, that the inventory finds on the node,
    and whose persistent volumes have storage classes of the node, is
    given a node affinity that these labels satisfy.  (Vendors are registered in
    lower case.  The labels are those the operator has decided on; when the patch
    of the node fails the node does not have them.) *)
Theorem labels_admit dp_name cfg sc ids got pb pods s0 es acts s res sp rp' res' sp' w
  (Hstart : nd_start cfg sc ids got pb pods = Some s0)
  (Hrun : runs (nd_next dp_name) s0 es acts s)
  (Hfollows : Forall (follows dp_name) es)
  (Hidle : mo_labelch s = false ∧ mo_labelled s = true)
  (Hpublished : mo_labels s ≠ ∅)
  (Hlower : Forall (λ i, ToLower (gi_Vendor i) = gi_Vendor i) (igpu_Info (nr_GPU (nd_Resources (mo_node s)))))
  (Hunits : gpu_Units res ≠ 0%Z)
  (Hfresh : ∀ r g, sp_Resources sp = Some r → sr_GPU r = Some g → sg_MemorySize g = "" ∧ sg_Interface g = "")
  (Hplaced : tryAdjustGPU (nr_GPU (nd_Resources (mo_node s))) res sp TEETypeNone "" = Some (rp', res', sp'))
  (Hparams : w_params w = Some sp' ∧ RuntimeClass_Is (sp_RuntimeClass sp') [WithCC] = false)
  (Hvolumes : Forall (λ v, is_persistent v = true → (find_AsString (sto_Attributes v) StorageAttributeClass).1 ∈ cap_StorageClasses (nd_Capabilities (mo_node s)))
    (res_Storage (svc_Resources (w_service w)))) :
  Forall (λ r, admits (mo_labels s) r = true) (af_Node (affinity w)).
Proof.
  assert (synced s) as Hsync.
  { revert Hfollows. clear -Hstart Hrun. induction Hrun as [|es acts s1 e s2 acts1 Hrun' IH Hstep]; intros Hf.
    - unfold nd_start, restartPodsWatcher in Hstart. destruct pods; [|done]. injection Hstart as <-. intros _ [=].
    - rewrite Forall_app, Forall_singleton in Hf. eapply nd_next_synced; [done|apply Hf|apply IH, Hf]. }
  destruct (Hsync (proj1 Hidle) (proj2 Hidle)) as (n' & Eg & Hcls).
  destruct (generateLabels_spec _ _ _ _ _ _ Eg Hpublished) as (Hmark & Hclasses & Hgpus).
  destruct (generateLabels_node _ _ _ _ _ _ Eg) as [classes En].
  destruct (tryAdjustGPU_picked _ _ _ _ _ _ _ _ Hunits Hplaced) as (attrs & info & a & _ & Hin & _ & _ & Esp).
  destruct Hparams as [Hw Hcc]. unfold affinity. rewrite Hw. cbn [af_Node]. unfold cc_selectors. rewrite Hcc, app_nil_r.
  constructor; [|apply Forall_app; split].
  - unfold admits. cbn. rewrite Hmark. done.
  - destruct (sp_Resources sp') as [r|] eqn:Er; [|constructor].
    rewrite (stamp_gpu_selectors (ToLower (gi_Vendor info)) (gi_Name info) sp sp' r); [|done| |done].
    + constructor; [|constructor]. apply positive_admits. rewrite Forall_forall in Hlower. rewrite (Hlower _ Hin).
      apply Hgpus. by subst n'.
    + rewrite Esp. cbn zeta. by repeat case_match.
  - apply Forall_forall. intros r (v & Hr & Hv)%list_elem_of_bind. apply list_elem_of_In, List.filter_In in Hv as [Hv Hper].
    rewrite Forall_forall in Hvolumes. apply list_elem_of_In in Hv. specialize (Hvolumes _ Hv Hper).
    unfold storage_selector in Hr. destruct (find_AsString _ _) as [class []]; [|by apply not_elem_of_nil in Hr].
    apply list_elem_of_singleton in Hr as ->. apply positive_admits, Hclasses. rewrite Hcls. done.
Qed.

End placing.

(** ** The resource of the interconnect *)

Section interconnect.
Context `{Quantities} `{!DiscoverySdk}.

(** Among the names, [best] is the least that fits the pattern, or there is
    none. *)
Definition least_match (p : string) (names : list string) (best : string) : Prop :=
  (best = "" → ∀ name, name ∈ names → resourcePatternMatches p name = false)
  ∧ (best ≠ "" → best ∈ names ∧ resourcePatternMatches p best = true
       ∧ ∀ name, name ∈ names → resourcePatternMatches p name = true → string_le best name = true).

Lemma in_snoc (l : list string) x name : name ∈ (l ++ [x])%list → name ∈ l ∨ name = x.
Proof. rewrite elem_of_app, list_elem_of_singleton. done. Qed.

Lemma best_match_spec p names : "" ∉ names → least_match p names (best_match p names).
Proof.
  induction names as [|x names IH] using rev_ind; intros Hne.
  - split; [|done]. intros _ name Hn. by apply not_elem_of_nil in Hn.
  - unfold best_match. rewrite foldl_snoc. fold (best_match p names). rewrite not_elem_of_app, list_elem_of_singleton in Hne.
    destruct IH as [Hnone Hsome]; [by destruct Hne|]. set (best := best_match p names) in *.
    destruct (resourcePatternMatches p x) eqn:Ex; cbn [andb].
    + destruct (String.eqb_spec best "") as [Hb|Hb]; cbn [orb].
      * split; [by intros ->; destruct Hne|]. intros _. split_and!; [set_solver|done|].
        intros name [Hn| ->]%in_snoc; [by rewrite (Hnone Hb name Hn)|intros _; apply string_le_refl].
      * destruct (Hsome Hb) as (Hin & Hfit & Hle). destruct (string_lt x best) eqn:El.
        -- split; [by intros ->; destruct Hne|]. intros _. split_and!; [set_solver|done|].
           intros name [Hn| ->]%in_snoc; [intros Hm; by eapply string_lt_le_trans, Hle|intros _; apply string_le_refl].
        -- split; [done|]. intros _. split_and!; [set_solver|done|].
           intros name [Hn| ->]%in_snoc; [by apply Hle|intros _; by apply string_lt_false].
    + split; [intros Hb name [Hn| ->]%in_snoc; [by apply Hnone|done]|]. intros Hb. destruct (Hsome Hb) as (Hin & Hfit & Hle).
      split_and!; [set_solver|done|]. intros name [Hn| ->]%in_snoc; [by apply Hle|by rewrite Ex].
Qed.

Lemma least_match_unique p names names' b b' : names ≡ₚ names' → least_match p names b → least_match p names' b' → b = b'.
Proof.
  intros Hp [Hn Hs] [Hn' Hs']. destruct (decide (b = "")) as [->|Hb], (decide (b' = "")) as [->|Hb']; [done| | |].
  - destruct (Hs' Hb') as (Hin & Hfit & _). rewrite <- Hp in Hin. by rewrite (Hn eq_refl _ Hin) in Hfit.
  - destruct (Hs Hb) as (Hin & Hfit & _). rewrite Hp in Hin. by rewrite (Hn' eq_refl _ Hin) in Hfit.
  - destruct (Hs Hb) as (Hin & Hfit & Hle), (Hs' Hb') as (Hin' & Hfit' & Hle').
    apply string_le_antisym; [apply Hle; [by rewrite Hp|done]|apply Hle'; [by rewrite <- Hp|done]].
Qed.

Lemma first_match_perm effective names names' : "" ∉ names → names ≡ₚ names' → first_match effective names = first_match effective names'.
Proof.
  intros Hne Hp. induction effective as [|p effective IH]; cbn; [done|].
  rewrite (least_match_unique p names names' (best_match p names) (best_match p names') Hp); [by rewrite IH| |];
    apply best_match_spec; [done|by rewrite <- Hp].
Qed.

Lemma first_match_least effective names name :
  "" ∉ names → first_match effective names = name → name ≠ "" → ∃ p, p ∈ effective ∧ least_match p names name.
Proof.
  intros Hne. induction effective as [|p effective IH]; cbn; [by intros <-|].
  destruct (String.eqb_spec (best_match p names) "") as [Hb|Hb]; cbn [negb]; intros E Hn.
  - destruct (IH E Hn) as (p' & Hp' & Hl). exists p'. split; [by right|done].
  - subst name. exists p. split; [by left|]. by apply best_match_spec.
Qed.

(** The resource that stands for the interconnect does not depend
    on the order in which the map of the resources is gone through: two reads of
    the same node name the same resource, and it is the first pattern that
    decides, and then the least of the names. *)
Theorem interconnect_stable (o1 o2 : MapOrder) (quantities : gmap string Quantity) patterns
  (Hnames : quantities !! "" = None) :
  @matchInterconnectResourceName _ _ o1 quantities patterns = @matchInterconnectResourceName _ _ o2 quantities patterns
  ∧ (∀ name, matchInterconnectResourceName quantities patterns = name → name ≠ "" →
       ∃ p, p ∈ (match patterns with [] => [DefaultInterconnectResourcePattern] | _ => patterns end)
         ∧ is_Some (quantities !! name) ∧ resourcePatternMatches p name = true
         ∧ ∀ name', is_Some (quantities !! name') → resourcePatternMatches p name' = true → string_le name name' = true).
Proof.
  pose (names := (map_to_list quantities).*1).
  assert (∀ name, name ∈ names ↔ is_Some (quantities !! name)) as Hin.
  { intros name. unfold names. rewrite list_elem_of_fmap. split.
    - intros ([k v] & -> & E%elem_of_map_to_list). by exists v.
    - intros [v E]. exists (name, v). split; [done|]. by apply elem_of_map_to_list. }
  assert ("" ∉ names) as Hne by (rewrite Hin, Hnames; by intros [? ?]).
  assert (∀ o : MapOrder, @matchInterconnectResourceName _ _ o quantities patterns
    = first_match (match patterns with [] => [DefaultInterconnectResourcePattern] | _ => patterns end) names) as Heq.
  { intros o. unfold matchInterconnectResourceName. symmetry. apply first_match_perm; [done|]. by rewrite map_order_perm. }
  split; [by rewrite !Heq|]. intros name. rewrite Heq. intros E Hn. apply first_match_least in E as (p & Hp & _ & Hs); [|done..].
  destruct (Hs Hn) as (Hname & Hfit & Hle). exists p. rewrite <- Hin. split_and!; try done. intros name'. rewrite <- Hin. apply Hle.
Qed.

End interconnect.

(** ** Storage classes of a node *)

Lemma remove_while_keep gone places places' arr len :
  Forall (λ j, ∃ c, arr !! j = Some c ∧ gone c = false) places →
  remove_while gone (places ++ places') arr len = remove_while gone places' arr len.
Proof.
  induction 1 as [|j places (c & E & Hc) _ IH]; cbn [app remove_while]; [done|]. rewrite E. cbn [deref obind]. by rewrite Hc.
Qed.

Lemma filter_not_eq e l : e ∉ l → List.filter (λ c, negb (e =? c)) l = l.
Proof.
  induction l as [|c l IH]; cbn; [done|]. rewrite not_elem_of_cons. intros [Hc Hl].
  destruct (String.eqb_spec e c); [done|]. cbn. by rewrite IH.
Qed.

(** The loop that removes while it goes over the original places is right when
    one element is to go. *)
Lemma remove_one e l : NoDup l → remove_in_place (λ class, e =? class) l = Ret (List.filter (λ c, negb (e =? c)) l).
Proof.
  intros Hnd. unfold remove_in_place. destruct (decide (e ∈ l)) as [(l1 & l2 & ->)%list_elem_of_split|He].
  - apply NoDup_app in Hnd as (Hnd1 & Hdis & Hnd2). inversion Hnd2 as [|? ? He2 _]; subst.
    assert (e ∉ l1) as He1 by (intros ?; eapply Hdis; [done|by left]).
    rewrite List.filter_app. cbn [List.filter]. rewrite String.eqb_refl. cbn [negb]. rewrite !filter_not_eq by done.
    rewrite length_app. cbn [List.length]. rewrite seq_app, Nat.add_0_l, remove_while_keep.
    + cbn [seq remove_while]. rewrite list_lookup_middle by done. cbn [deref obind]. rewrite String.eqb_refl.
      unfold remove_at. rewrite (proj2 (Nat.leb_le _ _)) by lia. cbn [obind].
      replace (take (List.length l1) (l1 ++ e :: l2)) with l1 by (rewrite take_app_length; done).
      replace (drop (S (List.length l1)) (l1 ++ e :: l2)) with l2 by (rewrite drop_app_ge by lia; replace (S (List.length l1) - List.length l1)%nat with 1%nat by lia; done).
      replace (List.length l1 + S (List.length l2) - S (List.length l1))%nat with (List.length l2) by lia. rewrite firstn_all.
      replace (List.length l1 + S (List.length l2) - 1)%nat with (List.length l1 + List.length l2)%nat by lia.
      rewrite <- (app_nil_r (seq _ _)), remove_while_keep; cbn [remove_while].
      * f_equal. rewrite app_assoc, take_app_le by (rewrite length_app; lia). by rewrite <- length_app, firstn_all.
      * apply Forall_forall. intros j [Hj1 Hj2]%elem_of_seq. destruct l2 as [|x l2 _] using rev_ind; [cbn in Hj2; lia|].
        rewrite length_app in *. cbn [List.length] in *.
        assert (drop (List.length l1 + (List.length l2 + 1)) (l1 ++ e :: l2 ++ [x]) = [x]) as ->.
        { rewrite drop_app_ge by lia. replace (List.length l1 + (List.length l2 + 1) - List.length l1)%nat with (S (List.length l2)) by lia.
          cbn. by rewrite drop_app_length. }
        destruct (lookup_lt_is_Some_2 (l2 ++ [x; x]) (j - List.length l1)) as [c E]; [rewrite length_app; cbn; lia|].
        exists c. rewrite lookup_app_r by lia. rewrite <- app_assoc. cbn [app]. split; [done|].
        destruct (String.eqb_spec e c) as [->|]; [|done]. apply list_elem_of_lookup_2 in E. set_solver.
    + apply Forall_forall. intros j [_ Hj]%elem_of_seq. destruct (lookup_lt_is_Some_2 l1 j) as [c E]; [lia|].
      exists c. split; [by apply lookup_app_l_Some|]. destruct (String.eqb_spec e c) as [->|]; [|done]. by apply list_elem_of_lookup_2 in E.
  - rewrite filter_not_eq by done. rewrite <- (app_nil_r (seq _ _)), remove_while_keep; cbn; [by rewrite firstn_all|].
    apply Forall_forall. intros j [_ Hj]%elem_of_seq. destruct (lookup_lt_is_Some_2 l j) as [c E]; [lia|].
    exists c. split; [done|]. destruct (String.eqb_spec e c) as [->|]; [|done]. by apply list_elem_of_lookup_2 in E.
Qed.

Lemma remove_classes_filter l sc : NoDup sc → remove_classes l sc = Ret (List.filter (λ c, negb (existsb (λ e, e =? c) l)) sc).
Proof.
  revert sc. induction l as [|e l IH]; intros sc Hnd; cbn [remove_classes existsb].
  - f_equal. clear. induction sc as [|c sc IHsc]; cbn in *; [done|]. by rewrite <- IHsc.
  - rewrite remove_one by done. cbn [obind]. rewrite IH.
    + f_equal. clear. induction sc as [|c sc IH]; cbn; [done|]. destruct (e =? c) eqn:E; cbn; [done|].
      destruct (existsb _ l); cbn; by rewrite IH.
    + clear -Hnd. induction Hnd as [|c sc Hc Hnd IH]; cbn; [constructor|]. destruct (negb _); [|done].
      constructor; [|done]. intros Hin%list_elem_of_In%List.filter_In. apply Hc, list_elem_of_In, Hin.
Qed.

(** The storage classes a node is offered with are those of the
    cluster that no exclusion with a filter that fits the node names, in their
    order; in particular removing them in place never panics. *)
Theorem node_classes cfg name
  (Hclasses : NoDup (cf_ClusterStorage cfg)) :
  StorageClassesForNode cfg name = Ret (List.filter (λ class, negb (IsStorageNodeExcluded cfg name class)) (cf_ClusterStorage cfg)).
Proof.
  unfold StorageClassesForNode. rewrite remove_classes_filter by done. f_equal. apply List.filter_ext. intros class. f_equal.
  unfold IsStorageNodeExcluded. induction (cf_ExcludeStorage cfg) as [|r l IH]; cbn; [done|]. rewrite <- IH.
  destruct (es_NodeFilter r name) eqn:E; cbn [mbind list_bind].
  - rewrite existsb_app. f_equal. induction (es_Classes r) as [|c cs IHc]; cbn; [done|]. by rewrite andb_true_r, IHc.
  - induction (es_Classes r) as [|c cs IHc]; cbn; [done|]. by rewrite andb_false_r.
Qed.

(** * A node with GPUs

    A node with two GPUs and an interconnect, the pods that come and go on it,
    the witnesses of what is shown of the discovery, and what it misses. *)

Import MilliQuantities.


#[local] Existing Instance IpOperatorSample.protocols.
#[local] Existing Instance IpOperatorSample.kube_protocols.
#[local] Existing Instance IpOperatorSample.ascii_only.
#[local] Existing Instance PlainCosmos.plain.
#[local] Existing Instance listed_order.
#[local] Existing Instance InventorySample.Sample.sdk.
#[local] Existing Instance KubeSample.chain_sdk.
#[local] Existing Instance KubeSample.kube_sdk.

#[local] Instance milli_arith : QuantityArith := {| q_Add := Z.add; q_Sub := Z.sub; q_SetMilli z := z |}.
#[local] Instance milli_arith_laws : QuantityLaws.
Proof.
  refine (@Build_QuantityLaws milli_quantities milli_arith (λ q : Z, (q * 10 ^ 6)%Z) _ _ _ _ _); try done.
  - intros a b. apply Z.mul_add_distr_r.
  - intros a b. apply Z.mul_sub_distr_r.
  - intros q. cbn -[Z.mul Z.pow]. destruct (Z.ltb_spec q 0), (Z.ltb_spec (q * 10 ^ 6) 0); lia.
Defined.

(** Patterns with a star at the end. *)
Definition glob (pattern name : string) : option bool :=
  match str_rev pattern with String "*" rest => Some (HasPrefix name (str_rev rest)) | _ => Some (pattern =? name) end.
#[local] Instance discovery_sdk : DiscoverySdk :=
  {| filepath_Match := glob; sort_gpus l := l; sort_gpus_perm l := reflexivity l; dup_differs _ := false |}.

(** Another order of maps. *)
Definition reversed_order : MapOrder := {| map_order A l := rev l; map_order_perm A l := Permutation_sym (Permutation_rev l) |}.

(** ** The node *)

Definition cores (z : Z) : Z := (z * 1000)%Z.
Definition listed : gmap string Z :=
  {[ResourceCPU := cores 8; ResourceMemory := cores 64; ResourceGPUNvidia := cores 2; "rdma/rdma_shared_device_ib" := cores 4; "broadcom.com/rdma" := cores 1]}.
Definition ready : list Condition := [MkCondition "Ready" "True"].
Definition knode : KubeNode := MkKubeNode _ "n1" ∅ false [] ready "x86_64" listed listed.

Definition registry : RegistryGPUVendors :=
  {["10de" := MkRegistryVendor "nvidia" {["20b2" := MkRegistryDevice "a100" "sxm" "80Gi"; "20b0" := MkRegistryDevice "a100" "sxm" "40Gi"]}]}.
Definition card (address product : string) : GraphicsCard := MkCard address (Some (Some "10de", Some product)).
Definition probed (product : string) : probe :=
  MkProbe (λ _, Some 1%nat) (Some [card "0000:01:00.0" product; card "0000:02:00.0" product]) None (Some (MkIB ["mlx5"] "infiniband")).

Definition cfg : Config := MkConfig ["beta2"; "beta3"] [] [MkExcludeStorage (λ n, n =? "n1") ["beta3"]] [].
Definition scheduled : list Condition := [MkCondition PodScheduled "True"].
Definition pod (name : string) (requests : list (gmap string Z)) (volumes : list KubeVolume) : KubePod := MkKubePod _ "lease" name scheduled requests volumes.
Definition trainer : KubePod := pod "trainer" [{[ResourceCPU := cores 2; ResourceGPUNvidia := cores 1; "rdma/rdma_shared_device_ib" := cores 1]}] [].
Definition web : KubePod := pod "web" [{[ResourceCPU := 500%Z; ResourceMemory := cores 4]}] [].

Definition started (product : string) : option monitor :=
  nd_start cfg {["beta2"; "beta3"]} registry (Some knode) (probed product) (Some [trainer]).
Definition day : list nd_event :=
  [EvStorageClasses {["beta2"; "beta3"]}; EvLabels; EvState; EvPod WatchAdded web; EvPod WatchModified trainer; EvPod WatchDeleted trainer; EvState].

(** The state after the events, from the start. *)
Definition after (product : string) (es : list nd_event) : option (list nd_action * monitor) :=
  s ← started product; exec (nd_next "n1") s es.

Lemma after_runs product es acts s : after product es = Some (acts, s) → ∃ s0, started product = Some s0 ∧ runs (nd_next "n1") s0 es acts s.
Proof.
  unfold after. destruct (started product) as [s0|]; cbn; [|done]. intros E. exists s0. split; [done|]. by apply exec_runs.
Defined.

(** A fact about that state, by evaluation. *)
Lemma after_fact (P : monitor → bool) product es :
  match after product es with Some (_, s) => P s | None => false end = true →
  ∃ acts s0 s, started product = Some s0 ∧ runs (nd_next "n1") s0 es acts s ∧ P s = true.
Proof.
  destruct (after product es) as [[acts s]|] eqn:E; [|discriminate]. intros HP. destruct (after_runs _ _ _ _ E) as (s0 & Es & Hrun).
  exists acts, s0, s. done.
Defined.

Definition loads (k : rkind) (s : monitor) : Z := pods_ask (resource_name (mo_node s)) k (mo_pods s).
Definition day_loads (s : monitor) : bool := (loads KCPU s =? 500 * 10 ^ 6)%Z && (loads KInterconnect s =? 0)%Z.

Lemma day_evaluated : match after "20b2" day with Some (_, s) => day_loads s | None => false end = true.
Proof. vm_compute. reflexivity. Qed.

Lemma day_listings : NoDup (podKey <$> [trainer]) ∧ Forall (λ e, NoDup (podKey <$> listing e)) day.
Proof. split; [apply NoDup_singleton|]. do 7 (apply Forall_cons_2; [apply NoDup_nil_2|]). apply Forall_nil_2. Qed.

Lemma day_patterns : Forall (keeps_patterns (cf_ResourcePatterns cfg)) day.
Proof. do 7 (apply Forall_cons_2; [exact I|]). apply Forall_nil_2. Qed.

Lemma allocated_exact_witness :
  ∃ acts s0 s, started "20b2" = Some s0 ∧ runs (nd_next "n1") s0 day acts s
  ∧ allocated KCPU (mo_node s) = (500 * 10 ^ 6)%Z ∧ allocated KInterconnect (mo_node s) = 0%Z.
Proof.
  destruct (after_fact day_loads "20b2" day day_evaluated) as (acts & s0 & s & Es & Hrun & HP).
  apply andb_prop in HP as [Hcpu Hic]. apply Z.eqb_eq in Hcpu, Hic.
  exists acts, s0, s. split; [exact Es|]. split; [exact Hrun|].
  pose proof (λ k, allocated_exact k "n1" cfg _ _ _ _ _ s0 day acts s Es Hrun day_listings) as Ha. split.
  - rewrite <- Hcpu. apply (Ha KCPU); [left; discriminate|left; discriminate].
  - rewrite <- Hic. apply (Ha KInterconnect); [right; exact day_patterns|left; discriminate].
Defined.

(** ** Placing a service *)

(** A service with a GPU and a persistent volume. *)
Definition gpu_request : GPU := MkGPU 1 [MkAttr "vendor/nvidia/model/a100" "true"].
Definition model : Service :=
  MkService _ "model" "img" [] [] []
    (MkResources 1 (Some (MkCPU 500 [])) (Some (MkMemory 1048576 []))
      [MkStorage "data" 4096 [MkAttr "persistent" "true"; MkAttr "class" "beta2"]] (Some gpu_request) []) 1 [] None None "".
Definition placed (sp : SchedulerParams) : Workload := MkWorkload KubeSample.settings KubeSample.deployment model (Some sp) model.

Definition gpu_picked (s : monitor) : option (InvGPU * GPU * SchedulerParams) :=
  tryAdjustGPU (nr_GPU (nd_Resources (mo_node s))) gpu_request SParams_zero TEETypeNone "".
Definition offers (s : monitor) : bool :=
  negb (mo_labelch s) && mo_labelled s && bool_decide (mo_labels s ≠ ∅)
  && forallb (λ i, ToLower (gi_Vendor i) =? gi_Vendor i) (igpu_Info (nr_GPU (nd_Resources (mo_node s))))
  && match gpu_picked s with Some (_, _, sp) => negb (RuntimeClass_Is (sp_RuntimeClass sp) [WithCC]) | None => false end
  && bool_decide ("beta2" ∈ cap_StorageClasses (nd_Capabilities (mo_node s))).

Lemma day_offers : match after "20b2" day with Some (_, s) => offers s | None => false end = true.
Proof. vm_compute. reflexivity. Qed.
Lemma day_follows : Forall (follows "n1") day.
Proof. do 7 (apply Forall_cons_2; [exact I|]). apply Forall_nil_2. Qed.

Lemma labels_admit_witness :
  ∃ acts s0 s sp, started "20b2" = Some s0 ∧ runs (nd_next "n1") s0 day acts s
  ∧ (gpu_picked s ≫= λ p, Some p.2) = Some sp ∧ Forall (λ r, admits (mo_labels s) r = true) (af_Node (affinity (placed sp))).
Proof.
  destruct (after_fact offers "20b2" day day_offers) as (acts & s0 & s & Es & Hrun & HP). unfold offers in HP.
  apply andb_prop in HP as [HP Hclass]. apply andb_prop in HP as [HP Hpick]. apply andb_prop in HP as [HP Hvendors].
  apply andb_prop in HP as [HP Hlabels]. apply andb_prop in HP as [Hch Hlabelled].
  destruct (gpu_picked s) as [[[rp' res'] sp]|] eqn:Ep; [|discriminate Hpick]. exists acts, s0, s, sp.
  split; [exact Es|]. split; [exact Hrun|]. split; [rewrite Ep; reflexivity|].
  apply (labels_admit "n1" cfg _ _ _ _ _ s0 day acts s gpu_request SParams_zero rp' res' sp (placed sp) Es Hrun day_follows).
  - split; [exact (proj1 (negb_true_iff _) Hch)|exact Hlabelled].
  - exact (bool_decide_eq_true_1 _ Hlabels).
  - apply Forall_forall. intros i Hi%list_elem_of_In. apply String.eqb_eq. exact (proj1 (forallb_forall _ _) Hvendors i Hi).
  - discriminate.
  - intros r g [=].
  - exact Ep.
  - split; [reflexivity|exact (proj1 (negb_true_iff _) Hpick)].
  - apply Forall_cons_2; [|apply Forall_nil_2]. intros _. exact (bool_decide_eq_true_1 _ Hclass).
Defined.

Lemma interconnect_stable_witness :
  matchInterconnectResourceName listed [] = "rdma/rdma_shared_device_ib"
  ∧ @matchInterconnectResourceName _ _ reversed_order listed [] = "rdma/rdma_shared_device_ib".
Proof.
  assert (@matchInterconnectResourceName _ _ listed_order listed [] = "rdma/rdma_shared_device_ib") as E by (vm_compute; reflexivity).
  split; [exact E|]. rewrite <- E. symmetry. apply (interconnect_stable (H := milli_quantities) listed_order reversed_order listed []). vm_compute. reflexivity.
Defined.

Lemma cfg_classes : NoDup (cf_ClusterStorage cfg).
Proof. apply (bool_decide_eq_true_1 _). vm_compute. reflexivity. Qed.

Lemma node_classes_witness : StorageClassesForNode cfg "n1" = Ret ["beta2"] ∧ StorageClassesForNode cfg "n2" = Ret ["beta2"; "beta3"].
Proof.
  split; [exact (node_classes cfg "n1" cfg_classes)|exact (node_classes cfg "n2" cfg_classes)].
Defined.

(** ** What is missed *)

(** Two classes of an exclusion that the cluster does not have: the loop that
    takes them out panics, and the discovery of every node with it. *)
Lemma exclusion_panics :
  FilterOutStorageClasses (MkConfig ["beta2"; "beta3"; "ram"] [] [MkExcludeStorage (λ _, true) ["beta2"; "beta3"]] []) ["ram"] = Panic.
Proof. reflexivity. Qed.

(** The limit of a volume in memory counts for every container of the pod. *)
Definition shared_memory : KubePod := pod "shm" [∅; ∅] [MkKubeVolume _ (Some (StorageMediumMemory, Some (cores 3)))].
Lemma ram_counted_twice :
  pod_asks "" KMemory shared_memory = (3000 * 10 ^ 6)%Z
  ∧ ((λ s, allocated KMemory (addPodAllocatedResources (mo_node s) shared_memory) - allocated KMemory (mo_node s)) <$> started "20b2" = Some (2 * 3000 * 10 ^ 6))%Z.
Proof. split; vm_compute; reflexivity. Qed.

(** With two resources of GPUs, the order of a map decides how many a node has. *)
Definition mixed : gmap string Z := {[ResourceGPUNvidia := cores 0; ResourceGPUNvidiaPGPU := cores 4]}.
Definition mixed_node : KubeNode := MkKubeNode _ "n1" ∅ false [] ready "x86_64" mixed mixed.
Definition gpus_of (o : MapOrder) : option Z :=
  rp_Allocatable (igpu_Quantity (nr_GPU (nd_Resources (@initNodeInfo _ _ _ o registry mixed_node [] (probed "20b2"))))).
Lemma gpus_by_map_order : gpus_of listed_order ≠ gpus_of reversed_order.
Proof. vm_compute. discriminate. Qed.

(** Another pattern of the configuration names another resource: what the pods
    have of the old one stays, and what goes is not taken off. *)
Definition renaming : list nd_event :=
  [EvConfig (MkConfig (cf_ClusterStorage cfg) [] [] ["broadcom.com/*"]); EvPod WatchDeleted trainer].
Definition strands (s : monitor) : bool :=
  bool_decide (mo_pods s = ∅) && (allocated KInterconnect (mo_node s) =? 1000 * 10 ^ 6)%Z.
Lemma renaming_strands : match after "20b2" renaming with Some (_, s) => strands s | None => false end = true.
Proof. vm_compute. reflexivity. Qed.

(** Half a core less is no change: the values are compared rounded up. *)
Definition with_cpu (q : Z) : KubeNode := MkKubeNode _ "n1" ∅ false [] ready "x86_64" {[ResourceCPU := q]} {[ResourceCPU := q]}.
Lemma half_core_unnoticed : nodeAllocatableChanged (with_cpu 3900%Z) (with_cpu 3100%Z) = false.
Proof. vm_compute. reflexivity. Qed.

(** GPUs with 80 GiB of memory are asked for and found on one node, and the
    labels of a node with 40 GiB admit the service: the affinity names the model
    only. *)
Definition big_request : GPU := MkGPU 1 [MkAttr "vendor/nvidia/model/a100/ram/80Gi" "true"].
Definition picked_big (product : string) : option SchedulerParams :=
  '(_, s) ← after product day;
  '(_, _, sp) ← tryAdjustGPU (nr_GPU (nd_Resources (mo_node s))) big_request SParams_zero TEETypeNone "";
  Some sp.
Definition small_admits (sp : SchedulerParams) : bool :=
  match after "20b0" day with Some (_, s) => forallb (admits (mo_labels s)) (af_Node (affinity (placed sp))) | None => false end.
Lemma gpu_memory_not_selected :
  picked_big "20b0" = None ∧ match picked_big "20b2" with Some sp => small_admits sp | None => false end = true.
Proof. split; vm_compute; reflexivity. Qed.
