(* ===== verification/Gateway.v ===== *)
(** * The gateway: who may ask for what

    [gateway/utils/utils.go], [gateway/rest/auth.go], [middleware.go] and the
    routes of [router.go], with [gateway/grpc/server.go] and
    [utils/httperror].  A request is authenticated by a certificate, a bearer
    token of the PIR gate or a JSON web token, and passes the middlewares of its
    route before its handler.  The route of a request and its variables are what
    the router of the library found.  Claims of tokens, with what they authorize,
    and the parsing of tokens are those of libraries. *)
From Stdlib Require Import Ascii String.
From S2P Require Import Prelude GoStrings Json World LeaseBook ChainTypes LeaseNames ManifestService.

Open Scope string_scope.
Open Scope go_scope.

(** ** Errors with a status *)

Record HttpError := MkHttpError { he_StatusCode : Z; he_Err : string }.
Inductive gw_error := EHttp (e : HttpError) | EOther (msg : string).

Definition StatusOK : Z := 200.
Definition StatusBadRequest : Z := 400.
Definition StatusUnauthorized : Z := 401.
Definition StatusNotFound : Z := 404.
Definition StatusUnprocessableEntity : Z := 422.
Definition StatusInternalServerError : Z := 500.
Definition StatusBadGateway : Z := 502.
Definition StatusServiceUnavailable : Z := 503.

Definition ErrInvalidAuthHeader : HttpError := MkHttpError StatusBadRequest "invalid authorization header".
Definition ErrJWTInvalidClaims : HttpError := MkHttpError StatusBadRequest "JWT has invalid claims".
Definition ErrAuthAmbiguous : HttpError := MkHttpError StatusBadRequest "auth: ambiguous authentication. may not use mTLS and JWT at the same time".
Definition ErrUnauthorized : HttpError := MkHttpError StatusUnauthorized "unauthorized access".
Definition ErrJWTInvalid : HttpError := MkHttpError StatusUnauthorized "JWT is invalid".
Definition ErrJWTExpired : HttpError := MkHttpError StatusUnauthorized "JWT is expired".

Definition StatusCodeFrom (err : option gw_error) : Z :=
  match err with
  | None => StatusOK
  | Some (EHttp e) => he_StatusCode e
  | Some (EOther _) => StatusInternalServerError
  end.

Definition authErrorResponse (err : gw_error) : HttpError :=
  match err with EHttp e => e | EOther _ => MkHttpError StatusInternalServerError "unknown error while processing JWT" end.

(** ** Tokens *)

Inductive PermissionScope :=
| PermissionScopeSendManifest | PermissionScopeAttestation | PermissionScopeGetManifest | PermissionScopeStatus
| PermissionScopeEvents | PermissionScopeLogs | PermissionScopeShell.

(** From the library of tokens: kinds of access and the granted permissions. *)
Class Ajwt := {
  AccessType : Type;
  AccessType_eq_dec : EqDecision AccessType;
  AccessTypeNone : AccessType;
  AccessTypeFull : AccessType;
  AccessTypeEmpty : AccessType;
  full_not_none : AccessTypeFull ≠ AccessTypeNone;
  Permissions : Type;
  no_permissions : Permissions
}.
#[export] Existing Instance AccessType_eq_dec.

(** Times are seconds. *)
Record Claims `{Ajwt} := MkClaims {
  cl_Issuer : string; cl_Version : string; cl_IssuedAt : option Z; cl_NotBefore : option Z; cl_ExpiresAt : option Z;
  cl_Access : AccessType; cl_Permissions : Permissions }.
#[global] Arguments MkClaims {_}.

(** A key and the address it belongs to. *)
Record Verifier := MkVerifier { ve_PubKey : string; ve_Issuer : string }.

(** The predicates of [errors.Is] on an error of the parser. *)
Record jwt_error := MkJwtError { je_InvalidClaims : bool; je_Expired : bool }.
Record jwt_answer `{Ajwt} := MkJwtAnswer { ja_err : option jwt_error; ja_Valid : bool; ja_Claims : Claims }.
#[global] Arguments MkJwtAnswer {_}.

(** What claims answer, and [jwt.ParseWithClaims] with the function that finds
    the key of a token from what [GetIssuer] answers. *)
Class AjwtOps `{Ajwt} := {
  Claims_Validate : Claims → option string;
  IssuerAddress : Claims → string;
  AuthorizeForProvider : Claims → string → bool;
  AuthorizeForDeploymentID : Claims → DeploymentID → string → bool;
  AuthorizeForLeaseID : Claims → LeaseID → bool;
  AuthorizeDeploymentIDForPermissionScope : Claims → DeploymentID → string → PermissionScope → bool;
  AuthorizeLeaseIDForPermissionScope : Claims → LeaseID → PermissionScope → bool;
  ParseWithClaims : (result string string → result gw_error Verifier) → string → jwt_answer;
  signed_by : Verifier → string → Prop
}.

(** A token that is accepted was signed by the key found for its issuer. *)
Class AjwtLaws `{AjwtOps} : Prop :=
  parse_signed : ∀ key token, ja_err (ParseWithClaims key token) = None → ja_Valid (ParseWithClaims key token) = true →
    ∃ v, key (Ok (cl_Issuer (ja_Claims (ParseWithClaims key token)))) = Ok v ∧ signed_by v token.

(** [strings.Fields]. *)
Fixpoint Fields_go (fuel : nat) (s cur : string) : list string :=
  let word := match cur with EmptyString => [] | _ => [str_rev cur] end in
  match fuel, s with
  | O, _ | _, EmptyString => word
  | S fuel, String c s' =>
      match space_len s with
      | O => Fields_go fuel s' (String c cur)
      | n => (word ++ Fields_go fuel (str_drop n s) EmptyString)%list
      end
  end.
Definition Fields (s : string) : list string := Fields_go (S (String.length s)) s EmptyString.

Definition AuthHeaderTokenExtractor `{GoUnicode} (authHeader : string) : result HttpError string :=
  if authHeader =? "" then Ok ""
  else match Fields authHeader with
       | [scheme; token] => if ToLower scheme =? "bearer" then Ok token else Err ErrInvalidAuthHeader
       | _ => Err ErrInvalidAuthHeader
       end.

(** [strings.EqualFold] with a text of letters that no other character folds
    to. *)
Definition EqualFold_ascii (s t : string) : bool := str_map lower_ascii s =? t.

(** The token of a gRPC call: what is not of the form bearer and token is taken
    whole. *)
Definition grpc_token (authorization : list string) : string :=
  match authorization with
  | [] => ""
  | tok :: _ =>
      match Fields tok with
      | [scheme; token] => if EqualFold_ascii scheme "bearer" then token else tok
      | _ => tok
      end
  end.

Definition jwtErrorToHTTP (err : option jwt_error) (valid : bool) : HttpError :=
  match err with
  | None => ErrJWTInvalid
  | Some e => if je_InvalidClaims e then ErrJWTInvalidClaims else if je_Expired e then ErrJWTExpired else ErrJWTInvalid
  end.

(** ** Authentication *)

Section auth.
Context `{GoUnicode} `{Cosmos} `{AjwtOps}.

(** Of the store of accounts: none is configured, no such account, or another
    error. *)
Inductive account_error := AccountNotExist | AccountOther (msg : string).
Notation AccountQuerier := (result string (string → result account_error string)).

(** The function that finds the key of a token. *)
Definition token_key (querier : AccountQuerier) (issuer : result string string) : result gw_error Verifier :=
  match issuer with
  | Err e => Err (EOther e)
  | Ok issStr =>
      match AccAddress_String issStr with
      | Err e => Err (EOther e)
      | Ok iss =>
          match querier with
          | Err e => Err (EOther e)
          | Ok pstorage =>
              match pstorage iss with
              | Err AccountNotExist => Err (EHttp ErrJWTInvalid)
              | Err (AccountOther e) => Err (EOther e)
              | Ok pk => Ok (MkVerifier pk iss)
              end
          end
      end
  end.

Definition none_claims : Claims := MkClaims "" "" None None None AccessTypeNone no_permissions.
Definition full_claims (now : Z) (issuer : string) : Claims :=
  MkClaims issuer "v1" (Some now) (Some now) (Some (now + 900)%Z) AccessTypeFull no_permissions.

(** A single certificate, which the handshake has verified, names the owner. *)
Definition cert_claims (now : Z) (peerCerts : list string) : result gw_error Claims :=
  match peerCerts with
  | [name] =>
      match AccAddress_String name with
      | Err e => Err (EOther e)
      | Ok owner =>
          match Claims_Validate (full_claims now owner) with Some e => Err (EOther e) | None => Ok (full_claims now owner) end
      end
  | _ => Ok none_claims
  end.

Definition pir_issuer : string := "pir-derived-access".

Definition AuthProcess (env : string → string) (querier : AccountQuerier) (now : Z) (peerCerts : list string) (token : string) (st : PirState)
  : result gw_error Claims * PirState :=
  match cert_claims now peerCerts with
  | Err e => (Err e, st)
  | Ok claims =>
      if bool_decide (cl_Access claims ≠ AccessTypeNone) && negb (token =? "") then (Err (EHttp ErrAuthAmbiguous), st)
      else if token =? "" then (Ok claims, st)
      else
        let '(accepted, st) := AcceptBearer env token st in
        if accepted then
          (match Claims_Validate (full_claims now pir_issuer) with Some e => Err (EOther e) | None => Ok (full_claims now pir_issuer) end, st)
        else
          let parsed := ParseWithClaims (token_key querier) token in
          match ja_err parsed, ja_Valid parsed with
          | None, true => (Ok (ja_Claims parsed), st)
          | err, valid => (Err (EHttp (jwtErrorToHTTP err valid)), st)
          end
  end.

End auth.

(** ** Middlewares *)

(** The paths of deployments and leases, parsed by the chain's libraries. *)
Class ChainPaths := {
  ParseDeploymentPath : list string → result string DeploymentID;
  ParseLeasePath : list string → result string LeaseID
}.
(** What a path says is what is parsed. *)
Class ChainPathLaws `{ChainPaths} : Prop := {
  deployment_path_owner : ∀ owner dseq did, ParseDeploymentPath [owner; dseq] = Ok did → did_Owner did = owner;
  lease_path_parties : ∀ owner dseq gseq oseq provider lid,
    ParseLeasePath [owner; dseq; gseq; oseq; provider] = Ok lid → lid_Owner lid = owner ∧ lid_Provider lid = provider
}.

(** What the router passes on: the variables of the path, the query, the header,
    the certificates of the connection and the body.  A key that is not there
    reads as the empty text. *)
Record request := MkRequest {
  rq_Authorization : string; rq_PeerCerts : list string; rq_Vars : gmap string string; rq_Query : gmap string string; rq_Body : string }.
Definition vars_get (m : gmap string string) (key : string) : string := default "" (m !! key).

(** An error that is written, with its status. *)
Notation refusal := HttpError.

Definition ParseBool (s : string) : option bool :=
  if existsb (String.eqb s) ["1"; "t"; "T"; "true"; "TRUE"; "True"] then Some true
  else if existsb (String.eqb s) ["0"; "f"; "F"; "false"; "FALSE"; "False"] then Some false
  else None.

(** [strconv.ParseInt(s, 10, 32)]; [None] for an error. *)
Definition ParseInt32 (s : string) : option Z :=
  let '(neg, digits) := match s with
    | String "-" r => (true, r) | String "+" r => (false, r) | _ => (false, s) end in
  match ParseUint digits with
  | (_, Some _) => None
  | (n, None) =>
      if neg then if (n <=? 2 ^ 31)%Z then Some (- n)%Z else None
      else if (n <? 2 ^ 31)%Z then Some n else None
  end.

(** [follow], the number of lines and the services of a stream. *)
Record stream_params := MkStream { st_follow : bool; st_tailLines : option Z; st_services : string }.

Section rest.
Context `{GoUnicode} `{Cosmos} `{AjwtOps} `{ChainPaths}.

(** The values kept with a request; reading one that was not set panics. *)
Record reqctx := MkCtx {
  cx_provider : option string; cx_claims : option Claims; cx_owner : option string; cx_deployment : option DeploymentID;
  cx_lease : option LeaseID; cx_service : option string; cx_stream : option stream_params }.
Definition no_ctx : reqctx := MkCtx None None None None None None None.

(** A middleware hands on or refuses; the state is that of the PIR gate. *)
Notation middleware := (request → reqctx → PirState → outcome (result refusal reqctx * PirState)).
Definition pass (c : reqctx) (st : PirState) : outcome (result refusal reqctx * PirState) := Ret (Ok c, st).
Definition refuse (e : refusal) (st : PirState) : outcome (result refusal reqctx * PirState) := Ret (Err e, st).

Definition storeProvider (addr : string) : middleware := λ r c st,
  pass (MkCtx (Some addr) (cx_claims c) (cx_owner c) (cx_deployment c) (cx_lease c) (cx_service c) (cx_stream c)) st.

Definition prepareAuthMiddleware (env : string → string) (querier : result string (string → result account_error string)) (now : Z) : middleware := λ r c st,
  match AuthHeaderTokenExtractor (rq_Authorization r) with
  | Err e => refuse e st
  | Ok tok =>
      let '(claims, st) := AuthProcess env querier now (rq_PeerCerts r) tok st in
      match claims with
      | Err e => refuse (authErrorResponse e) st
      | Ok claims => pass (MkCtx (cx_provider c) (Some claims) (cx_owner c) (cx_deployment c) (cx_lease c) (cx_service c) (cx_stream c)) st
      end
  end.

Definition authorizeProviderMiddleware : middleware := λ r c st,
  let! provider := deref (cx_provider c) in
  let! claims := deref (cx_claims c) in
  if negb (AuthorizeForProvider claims provider) then refuse ErrUnauthorized st else pass c st.

Definition requireOwner : middleware := λ r c st,
  let! claims := deref (cx_claims c) in
  if IssuerAddress claims =? "" then refuse ErrUnauthorized st
  else pass (MkCtx (cx_provider c) (cx_claims c) (Some (IssuerAddress claims)) (cx_deployment c) (cx_lease c) (cx_service c) (cx_stream c)) st.

Definition parseDeploymentID (r : request) (c : reqctx) : outcome (result string DeploymentID) :=
  let! owner := deref (cx_owner c) in
  Ret (ParseDeploymentPath [owner; vars_get (rq_Vars r) "dseq"]).
Definition parseLeaseID (r : request) (c : reqctx) : outcome (result string LeaseID) :=
  let! owner := deref (cx_owner c) in
  let! provider := deref (cx_provider c) in
  Ret (ParseLeasePath [owner; vars_get (rq_Vars r) "dseq"; vars_get (rq_Vars r) "gseq"; vars_get (rq_Vars r) "oseq"; provider]).

Definition requireDeploymentID : middleware := λ r c st,
  let! id := parseDeploymentID r c in
  match id with
  | Err e => refuse (MkHttpError StatusBadRequest e) st
  | Ok id =>
      let! claims := deref (cx_claims c) in
      let! provider := deref (cx_provider c) in
      if negb (AuthorizeForDeploymentID claims id provider) then refuse ErrUnauthorized st
      else pass (MkCtx (cx_provider c) (cx_claims c) (cx_owner c) (Some id) (cx_lease c) (cx_service c) (cx_stream c)) st
  end.

Definition requireLeaseID : middleware := λ r c st,
  let! id := parseLeaseID r c in
  match id with
  | Err e => refuse (MkHttpError StatusBadRequest e) st
  | Ok id =>
      let! claims := deref (cx_claims c) in
      if negb (AuthorizeForLeaseID claims id) then refuse ErrUnauthorized st
      else pass (MkCtx (cx_provider c) (cx_claims c) (cx_owner c) (cx_deployment c) (Some id) (cx_service c) (cx_stream c)) st
  end.

Definition requireEndpointScopeForDeploymentID (scope : PermissionScope) : middleware := λ r c st,
  let! claims := deref (cx_claims c) in
  let! did := deref (cx_deployment c) in
  let! provider := deref (cx_provider c) in
  if negb (AuthorizeDeploymentIDForPermissionScope claims did provider scope) then refuse ErrUnauthorized st else pass c st.

Definition requireEndpointScopeForLeaseID (scope : PermissionScope) : middleware := λ r c st,
  let! claims := deref (cx_claims c) in
  let! lid := deref (cx_lease c) in
  if negb (AuthorizeLeaseIDForPermissionScope claims lid scope) then refuse ErrUnauthorized st else pass c st.

Definition requireService : middleware := λ r c st,
  let svc := vars_get (rq_Vars r) "serviceName" in
  if svc =? "" then refuse (MkHttpError StatusBadRequest "empty service name") st
  else pass (MkCtx (cx_provider c) (cx_claims c) (cx_owner c) (cx_deployment c) (cx_lease c) (Some svc) (cx_stream c)) st.

Definition stream_of (r : request) : result refusal stream_params :=
  let services := vars_get (rq_Query r) "service" in
  if HasSuffix services "," then Err (MkHttpError StatusBadRequest "parameter service must not contain trailing comma")
  else
    let* follow := match vars_get (rq_Query r) "follow" with
      | "" => Ok false
      | val => match ParseBool val with Some b => Ok b | None => Err (MkHttpError StatusBadRequest "invalid syntax") end
      end in
    let* vl := match vars_get (rq_Query r) "tail" with
      | "" => Ok (-1)%Z
      | val =>
          match ParseInt32 val with
          | None => Err (MkHttpError StatusBadRequest "invalid syntax")
          | Some vl => if (vl <? -1)%Z then Err (MkHttpError StatusBadRequest "parameter tail contains invalid value") else Ok vl
          end
      end in
    Ok (MkStream follow (if (-1 <? vl)%Z then Some vl else None) services).
Definition requestStreamParams : middleware := λ r c st,
  match stream_of r with
  | Err e => refuse e st
  | Ok s => pass (MkCtx (cx_provider c) (cx_claims c) (cx_owner c) (cx_deployment c) (cx_lease c) (cx_service c) (Some s)) st
  end.

(** ** Routes *)

Inductive endpoint :=
| GetVersion | GetAddress | GetStatus
| PostHostnameMigrate | PostEndpointMigrate
| PutManifest
| PostAttestationQuote | GetManifest | GetLeaseStatus | GetKubeEvents | GetLogs | GetServiceStatus | PostShell.

(** The middlewares of the sub-routers, from the outermost. *)
Definition authed : list middleware := [authorizeProviderMiddleware; requireOwner].
Definition drouter : list middleware := (authed ++ [requireDeploymentID])%list.
Definition lrouter : list middleware := (authed ++ [requireLeaseID])%list.
Definition route (ep : endpoint) : list middleware :=
  match ep with
  | GetVersion | GetAddress | GetStatus => []
  | PostHostnameMigrate | PostEndpointMigrate => authed
  | PutManifest => drouter ++ [requireEndpointScopeForDeploymentID PermissionScopeSendManifest]
  | PostAttestationQuote => lrouter ++ [requireEndpointScopeForLeaseID PermissionScopeAttestation]
  | GetManifest => lrouter ++ [requireEndpointScopeForLeaseID PermissionScopeGetManifest]
  | GetLeaseStatus => lrouter ++ [requireEndpointScopeForLeaseID PermissionScopeStatus]
  | GetKubeEvents => lrouter ++ [requestStreamParams; requireEndpointScopeForLeaseID PermissionScopeEvents]
  | GetLogs => lrouter ++ [requestStreamParams; requireEndpointScopeForLeaseID PermissionScopeLogs]
  | GetServiceStatus => lrouter ++ [requireService]
  | PostShell => lrouter ++ [requireEndpointScopeForLeaseID PermissionScopeShell]
  end%list.

Fixpoint run_chain (l : list middleware) (r : request) (c : reqctx) (st : PirState) : outcome (result refusal reqctx * PirState) :=
  match l with
  | [] => Ret (Ok c, st)
  | m :: l =>
      let! (res, st) := m r c st in
      match res with Ok c => run_chain l r c st | Err e => Ret (Err e, st) end
  end.

(** What reaches the handler of a route, or the refusal.  The middleware that the
    server passes to the router ([server.go]) only puts the clients of the provider beside the
    request and refuses nothing; it is left out. *)
Definition serve (env : string → string) (querier : result string (string → result account_error string)) (addr : string) (now : Z)
  (ep : endpoint) (r : request) (st : PirState) : outcome (result refusal reqctx * PirState) :=
  run_chain (storeProvider addr :: prepareAuthMiddleware env querier now :: route ep) r no_ctx st.

(** *** gRPC *)

(** [authInterceptor] and the check of [AttestationQuote]. *)
Definition authInterceptor (env : string → string) (querier : result string (string → result account_error string)) (now : Z)
  (peerCerts authorization : list string) (st : PirState) : result gw_error Claims * PirState :=
  AuthProcess env querier now peerCerts (grpc_token authorization) st.
Definition grpc_attestation_allowed (claims : Claims) (leaseID : LeaseID) : bool :=
  AuthorizeLeaseIDForPermissionScope claims leaseID PermissionScopeAttestation.

End rest.

Definition HTTPToGRPCCode (httpStatus : Z) : string :=
  if (httpStatus =? 404)%Z then "NotFound"
  else if (httpStatus =? 502)%Z then "Unavailable"
  else if ((400 <=? httpStatus) && (httpStatus <? 500))%Z then "InvalidArgument"
  else "Internal".
