(* ===== verification/GatewaySound.v ===== *)
(** * What the gateway lets through

    Who a request is taken for, and which requests reach the handler of their
    route. *)
From Stdlib Require Import Ascii String.
From S2P Require Import Prelude GoStrings Json World LeaseBook ChainTypes LeaseNames ManifestService Gateway.

Open Scope string_scope.
Open Scope go_scope.

Section auth.
Context `{FileSystem} `{GoUnicode} `{Cosmos} `{AjwtLaws}.

Lemma cert_claims_spec now certs claims :
  cert_claims now certs = Ok claims →
  (List.length certs ≠ 1%nat ∧ claims = none_claims)
  ∨ ∃ name owner, certs = [name] ∧ AccAddress_String name = Ok owner ∧ claims = full_claims now owner.
Proof.
  unfold cert_claims. destruct certs as [|name [|x l]]; [intros [= <-]; by left| |intros [= <-]; by left].
  destruct (AccAddress_String name) as [owner|] eqn:Ea; [|done]. destruct (Claims_Validate _); [done|]. intros [= <-]. right. eauto.
Qed.

Lemma token_key_ok querier issuer v :
  token_key querier (Ok issuer) = Ok v →
  ∃ pstorage, querier = Ok pstorage ∧ AccAddress_String issuer = Ok (ve_Issuer v) ∧ pstorage (ve_Issuer v) = Ok (ve_PubKey v).
Proof.
  cbn. destruct (AccAddress_String issuer) as [iss|] eqn:Ea; [|done]. destruct querier as [pstorage|]; [|done].
  destruct (pstorage iss) as [pk|[|]] eqn:Ep; [|done..]. intros [= <-]. eauto.
Qed.

(** Claim C3.  The claims a request is served with are those of nobody, of the
    owner named by the one verified certificate, of the bearer of an open lease
    of the PIR gate (or of its allow-list), or of a token that was signed with
    the stored key of its issuer; a certificate and a token together are
    refused. *)
Theorem claims_earned env querier now certs token st claims st'
  (Hauth : AuthProcess env querier now certs token st = (Ok claims, st')) :
  (token = "" ∧ List.length certs ≠ 1%nat ∧ claims = none_claims)
  ∨ (token = "" ∧ ∃ name owner, certs = [name] ∧ AccAddress_String name = Ok owner ∧ claims = full_claims now owner)
  ∨ (List.length certs ≠ 1%nat ∧ claims = full_claims now pir_issuer
     ∧ ∃ t, hexTok token = Some t ∧ (held_by (default ∅ (contents env st)) t ∨ t ∈ loadEnvOrFile env st))
  ∨ (List.length certs ≠ 1%nat ∧ ∃ pstorage v, querier = Ok pstorage ∧ AccAddress_String (cl_Issuer claims) = Ok (ve_Issuer v)
     ∧ pstorage (ve_Issuer v) = Ok (ve_PubKey v) ∧ signed_by v token).
Proof.
  unfold AuthProcess in Hauth. destruct (cert_claims now certs) as [cc|] eqn:Ec; [|done]. apply cert_claims_spec in Ec.
  destruct (String.eqb_spec token "") as [->|Ht].
  { rewrite andb_false_r in Hauth. injection Hauth as <- _. naive_solver. }
  rewrite andb_true_r in Hauth. case_bool_decide as Hn; [done|].
  destruct Ec as [[Hl ->]|(name & owner & -> & Ea & ->)]; [|exfalso; by apply full_not_none]. do 2 right.
  pose proof (proj1 (AcceptBearer_iff env token st)) as Hpir. destruct (AcceptBearer env token st) as [accepted st1].
  destruct accepted.
  - destruct (Claims_Validate _); [done|]. injection Hauth as <- _. left. auto.
  - destruct (ja_err _) eqn:Eerr; [done|]. destruct (ja_Valid _) eqn:Ev; [|done]. injection Hauth as <- _. right.
    destruct (parse_signed _ _ Eerr Ev) as (v & Ek & Hs). apply token_key_ok in Ek as (pstorage & -> & Ea & Ep).
    split; [done|]. by exists pstorage, v.
Qed.

End auth.

(** ** Routes *)

#[export] Instance endpoint_eq_dec : EqDecision endpoint.
Proof. solve_decision. Defined.

Section routes.
Context `{GoUnicode} `{Cosmos} `{AjwtOps} `{ChainPaths}.

(** The scope a route of a lease asks for. *)
Definition lease_scope (ep : endpoint) : option PermissionScope :=
  match ep with
  | PostAttestationQuote => Some PermissionScopeAttestation
  | GetManifest => Some PermissionScopeGetManifest
  | GetLeaseStatus => Some PermissionScopeStatus
  | GetKubeEvents => Some PermissionScopeEvents
  | GetLogs => Some PermissionScopeLogs
  | PostShell => Some PermissionScopeShell
  | _ => None
  end.
Definition public (ep : endpoint) : bool := match ep with GetVersion | GetAddress | GetStatus => true | _ => false end.
Definition of_lease (ep : endpoint) : bool := bool_decide (is_Some (lease_scope ep)) || match ep with GetServiceStatus => true | _ => false end.

(** What the parameters of a request have to be besides. *)
Definition well_formed (ep : endpoint) (r : request) : Prop :=
  match ep with
  | GetKubeEvents | GetLogs => ∃ s, stream_of r = Ok s
  | GetServiceStatus => vars_get (rq_Vars r) "serviceName" ≠ ""
  | _ => True
  end.

(** The claims a request comes with. *)
Definition comes_with env querier now (r : request) (st : PirState) (claims : Claims) : Prop :=
  ∃ tok, AuthHeaderTokenExtractor (rq_Authorization r) = Ok tok ∧ (AuthProcess env querier now (rq_PeerCerts r) tok st).1 = Ok claims.

(** What the claims must allow. *)
Definition allowed (ep : endpoint) (addr : string) (r : request) (claims : Claims) : Prop :=
  AuthorizeForProvider claims addr = true ∧ IssuerAddress claims ≠ ""
  ∧ (ep = PutManifest → ∃ did, ParseDeploymentPath [IssuerAddress claims; vars_get (rq_Vars r) "dseq"] = Ok did
       ∧ AuthorizeForDeploymentID claims did addr = true
       ∧ AuthorizeDeploymentIDForPermissionScope claims did addr PermissionScopeSendManifest = true)
  ∧ (of_lease ep = true → ∃ lid,
       ParseLeasePath [IssuerAddress claims; vars_get (rq_Vars r) "dseq"; vars_get (rq_Vars r) "gseq"; vars_get (rq_Vars r) "oseq"; addr] = Ok lid
       ∧ AuthorizeForLeaseID claims lid = true
       ∧ (∀ scope, lease_scope ep = Some scope → AuthorizeLeaseIDForPermissionScope claims lid scope = true)).

(** The context after the claims are known. *)
Definition claimed (addr : string) (claims : Claims) : reqctx := MkCtx (Some addr) (Some claims) None None None None None.

Definition owned (addr : string) (claims : Claims) : reqctx := MkCtx (Some addr) (Some claims) (Some (IssuerAddress claims)) None None None None.
Definition leased (addr : string) (claims : Claims) (lid : LeaseID) : reqctx :=
  MkCtx (Some addr) (Some claims) (Some (IssuerAddress claims)) None (Some lid) None None.

Lemma run_authed l addr r claims st :
  run_chain (authed ++ l) r (claimed addr claims) st
  = if AuthorizeForProvider claims addr && negb (IssuerAddress claims =? "") then run_chain l r (owned addr claims) st else Ret (Err ErrUnauthorized, st).
Proof. cbn. destruct (AuthorizeForProvider claims addr); cbn; [|done]. by destruct (IssuerAddress claims =? ""). Qed.

Lemma run_lease l addr r claims st :
  run_chain (requireLeaseID :: l) r (owned addr claims) st
  = match ParseLeasePath [IssuerAddress claims; vars_get (rq_Vars r) "dseq"; vars_get (rq_Vars r) "gseq"; vars_get (rq_Vars r) "oseq"; addr] with
    | Err e => Ret (Err (MkHttpError StatusBadRequest e), st)
    | Ok lid => if AuthorizeForLeaseID claims lid then run_chain l r (leased addr claims lid) st else Ret (Err ErrUnauthorized, st)
    end.
Proof. cbn. destruct (ParseLeasePath _) as [lid|]; cbn; [|done]. by destruct (AuthorizeForLeaseID claims lid). Qed.

(** The rest of the route of a lease. *)
Definition lease_rest (ep : endpoint) : list (request → reqctx → PirState → outcome (result HttpError reqctx * PirState)) :=
  match ep with
  | GetKubeEvents | GetLogs => [requestStreamParams]
  | GetServiceStatus => [requireService]
  | _ => []
  end ++ match lease_scope ep with Some scope => [requireEndpointScopeForLeaseID scope] | None => [] end.

Lemma lease_route ep : of_lease ep = true → route ep = (authed ++ requireLeaseID :: lease_rest ep)%list.
Proof. by destruct ep. Qed.

Lemma run_lease_rest ep addr r claims lid st :
  of_lease ep = true →
  ∃ res, run_chain (lease_rest ep) r (leased addr claims lid) st = Ret (res, st)
    ∧ ((∃ c, res = Ok c) ↔ well_formed ep r ∧ ∀ scope, lease_scope ep = Some scope → AuthorizeLeaseIDForPermissionScope claims lid scope = true).
Proof.
  intros Hep. destruct ep; try discriminate Hep; cbn; unfold requestStreamParams, requireService, requireEndpointScopeForLeaseID;
    try (destruct (stream_of r) as [s|e]; cbn); try (destruct (String.eqb_spec (vars_get (rq_Vars r) "serviceName") ""); cbn);
    try (destruct (AuthorizeLeaseIDForPermissionScope claims lid _) eqn:Es; cbn);
    (eexists; split; [reflexivity|]; split; [intros [? [=]]; (split; [by eauto|first [by intros ? [= <-]|by intros ? [=]]])|]; intros [Hw Hs]);
    first [by eauto|by destruct Hw|by rewrite (Hs _ eq_refl) in Es].
Qed.

(** A refusal: what would have to be allowed is not. *)
Ltac refused := split; [intros [? [=]]|intros [_ [[=]|(Hp & Hi & Hd & Hl)]]; first [congruence|destruct (Hd eq_refl) as (? & ? & ? & ?); congruence|destruct (Hl eq_refl) as (? & ? & ? & ?); congruence]].

(** With the claims at hand, a route lets through exactly what they allow. *)
Lemma route_decides ep addr r claims st :
  ∃ res, run_chain (route ep) r (claimed addr claims) st = Ret (res, st)
    ∧ ((∃ c, res = Ok c) ↔ well_formed ep r ∧ (public ep = true ∨ allowed ep addr r claims)).
Proof.
  destruct (public ep) eqn:Hpub.
  { destruct ep; try discriminate Hpub; (eexists; split; [reflexivity|]; split; [intros _; split; [done|by left]|intros _; by eexists]). }
  unfold allowed. destruct (of_lease ep) eqn:Hep.
  - rewrite (lease_route ep Hep), run_authed.
    destruct (AuthorizeForProvider claims addr); cbn [andb]; [|by eexists; split; [reflexivity|refused]].
    destruct (String.eqb_spec (IssuerAddress claims) ""); cbn [negb]; [by eexists; split; [reflexivity|refused]|].
    rewrite run_lease. destruct (ParseLeasePath _) as [lid|e]; [|by eexists; split; [reflexivity|refused]].
    destruct (AuthorizeForLeaseID claims lid) eqn:El; [|by eexists; split; [reflexivity|refused]].
    destruct (run_lease_rest ep addr r claims lid st Hep) as (res & E & Hiff). exists res. split; [exact E|]. rewrite Hiff.
    split; [|naive_solver]. intros [Hw Hs]. split; [done|]. right. split_and!; [done|done|by destruct ep|]. intros _. eauto.
  - assert (∃ rest, route ep = (authed ++ rest)%list ∧ (ep ≠ PutManifest → rest = [])
      ∧ (ep = PutManifest → rest = [requireDeploymentID; requireEndpointScopeForDeploymentID PermissionScopeSendManifest])) as (rest & -> & Hmig & Hput).
    { destruct ep; try discriminate Hpub; try discriminate Hep; (eexists; split; [reflexivity|done]). }
    rewrite run_authed. destruct (AuthorizeForProvider claims addr); cbn [andb]; [|by eexists; split; [reflexivity|refused]].
    destruct (String.eqb_spec (IssuerAddress claims) ""); cbn [negb]; [by eexists; split; [reflexivity|refused]|].
    destruct (decide (ep = PutManifest)) as [->|Hne].
    2: { rewrite (Hmig Hne). eexists. split; [reflexivity|]. split; [|by intros; eexists]. intros _. split; [by destruct ep|]. right. split_and!; done. }
    rewrite (Hput eq_refl). cbn.
    destruct (ParseDeploymentPath _) as [did|e]; cbn; [|by eexists; split; [reflexivity|refused]].
    destruct (AuthorizeForDeploymentID claims did addr) eqn:Ed; cbn; [|by eexists; split; [reflexivity|refused]].
    destruct (AuthorizeDeploymentIDForPermissionScope claims did addr _) eqn:Es; cbn; [|by eexists; split; [reflexivity|refused]].
    eexists. split; [reflexivity|]. split; [|by intros; eexists]. intros _. split; [done|]. right. split_and!; [done|done|eauto|done].
Qed.

(** Claim C4.  A request always gets an answer, and it reaches its handler
    exactly when its credentials are accepted, its parameters are well formed
    and, unless its route is public, its claims authorize the provider, name an
    owner, and authorize the deployment or the lease of that owner together with
    the scope of the route. *)
Theorem requests_authorized env querier addr now ep r st :
  ∃ res st', serve env querier addr now ep r st = Ret (res, st')
    ∧ ((∃ c, res = Ok c) ↔
       ∃ claims, comes_with env querier now r st claims ∧ well_formed ep r ∧ (public ep = true ∨ allowed ep addr r claims)).
Proof.
  unfold serve, comes_with. cbn [run_chain]. unfold storeProvider at 1, pass at 1. cbn [obind].
  unfold prepareAuthMiddleware. destruct (AuthHeaderTokenExtractor _) as [tok|e]; cbn [refuse obind].
  2: { eexists _, _. split; [reflexivity|]. naive_solver. }
  destruct (AuthProcess _ _ _ _ tok st) as [[claims|e] st1] eqn:Ea; cbn [refuse pass obind].
  2: { eexists _, _. split; [reflexivity|]. split; [naive_solver|]. intros (claims & (tok' & [= <-] & E) & _). rewrite Ea in E. done. }
  destruct (route_decides ep addr r claims st1) as (res & E & Hiff). exists res, st1. split; [exact E|]. rewrite Hiff. split.
  - intros Hr. exists claims. split; [|done]. exists tok. by rewrite Ea.
  - intros (claims' & (tok' & [= <-] & E') & Hr). rewrite Ea in E'. by injection E' as <-.
Qed.

End routes.
