(* ===== verification/GatewayHandlers.v ===== *)
(** * The gateway: handlers

    [gateway/rest/router.go], [router_migrate.go], [router_migrate_endpoint.go],
    [router_shell.go], [attestation.go] and [cluster_errors.go]: what a handler
    answers to a request that was let through, and what it changes.  Bodies are
    taken decoded, [None] for a body that is no such JSON; questions to the
    cluster are answered by arguments, and the resources a handler writes are
    those of [KubeDeclare]. *)
From Stdlib Require Import Ascii String.
From S2P Require Import Prelude GoStrings Json ChainTypes ClusterTypes LeaseNames CrdManifest Hostname HostRoutes OperatorCommon HostnameOperator MetalLb IpOperator KubeDeclare ManifestService Gateway.

Open Scope string_scope.
Open Scope go_scope.

(** ** Answers *)

Inductive answer (A : Type) := Refused (status : Z) (msg : string) | Answered (status : Z) (x : A).
Arguments Refused {A}.
Arguments Answered {A}.

(** [%q], of a text that needs no escape; one that does gets it in the code. *)
Definition quoted (s : string) : string := String dquote (s +:+ String dquote EmptyString).

(** Errors of the cluster, as [errors.Is] tells them apart; [refused]: a network
    error for a refused or reset connection. *)
Inductive cluster_error :=
| ErrNoDeploymentForLease | ErrLeaseNotFound | ErrNoManifestForLease | ErrNoServiceForLease
| ErrExecError (msg : string)
| KubeNotFound (msg : string)
| NetworkError (refused : bool) (msg : string)
| ClusterOther (msg : string).

Definition cluster_error_text (e : cluster_error) : string :=
  match e with
  | ErrNoDeploymentForLease => "kube: no deployments for lease" | ErrLeaseNotFound => "kube: lease not found"
  | ErrNoManifestForLease => "kube: no manifest for lease" | ErrNoServiceForLease => "kube: no service for that lease"
  | ErrExecError msg | KubeNotFound msg | NetworkError _ msg | ClusterOther msg => msg
  end.

Definition IsKubeAPIUnreachable (e : cluster_error) : bool :=
  match e with NetworkError true _ => true | _ => false end
  || (let msg := cluster_error_text e in
      Contains msg "apiserver not ready" || (TrimSpace msg =? "starting") || Contains msg "connection refused" || Contains msg "connection reset").

Definition clusterErrorToHTTP (e : cluster_error) : HttpError :=
  if IsKubeAPIUnreachable e then MkHttpError StatusServiceUnavailable (cluster_error_text e)
  else match e with
       | ErrNoDeploymentForLease | ErrLeaseNotFound | ErrNoManifestForLease | ErrNoServiceForLease | KubeNotFound _ =>
           MkHttpError StatusNotFound (cluster_error_text e)
       | _ => MkHttpError StatusInternalServerError (cluster_error_text e)
       end.
Definition writeClusterError {A} (e : cluster_error) : answer A := Refused (he_StatusCode (clusterErrorToHTTP e)) (he_Err (clusterErrorToHTTP e)).

Definition websocketInternalServerErrorCode : Z := 4000.
Definition websocketLeaseNotFound : Z := 4001.
Definition websocketServiceUnavailable : Z := 4002.
Definition websocketCloseCodeFrom (e : cluster_error) : Z :=
  let status := he_StatusCode (clusterErrorToHTTP e) in
  if (status =? StatusNotFound)%Z then websocketLeaseNotFound
  else if (status =? StatusServiceUnavailable)%Z then websocketServiceUnavailable
  else websocketInternalServerErrorCode.

Definition ErrorIsOkToSendToClient (e : cluster_error) : bool := match e with ErrExecError _ => true | _ => false end.

(** ** Manifests and status *)

Section status.
Context `{Protocols}.

(** [submit]: what the manifest service answers. *)
Definition createManifestHandler {M} (did : DeploymentID) (body : option M) (submit : DeploymentID → M → option gw_error) : answer () :=
  match body with
  | None => Refused StatusUnprocessableEntity "decode"
  | Some mani =>
      match submit did mani with
      | Some e => Refused (StatusCodeFrom (Some e)) (match e with EHttp e => he_Err e | EOther msg => msg end)
      | None => Answered StatusOK ()
      end
  end.

Notation group_query := (LeaseID → result cluster_error (option ManifestGroup)).

Definition getManifestHandler (GetManifestGroup : group_query) (lid : LeaseID) : answer Group :=
  match GetManifestGroup lid with
  | Err e => writeClusterError e
  | Ok None => Refused StatusNotFound "lease not found"
  | Ok (Some grp) =>
      match Group_FromCRD grp with
      | Err e => Refused StatusInternalServerError e
      | Ok (mgrp, _) => Answered StatusOK mgrp
      end
  end.

(** An address of a leased IP, as the IP operator answers. *)
Record LeaseIPStatus := MkLeaseIPStatus { ls_ServiceName : string; ls_Port : Z; ls_ExternalPort : Z; ls_Protocol : string; ls_IP : string }.

Definition all_exposes (g : ManifestGroup) : list ManifestServiceExpose := mg_Services g ≫= ms_Expose.
Definition hasLeasedIPs (g : ManifestGroup) : bool := existsb (λ e, negb (ce_IP e =? "")) (all_exposes g).
Definition hasForwardedPorts (g : ManifestGroup) : bool := existsb (λ e, ce_Global e && negb (ce_ExternalPort e =? 80)%Z) (all_exposes g).

Definition group_ips (l : list LeaseIPStatus) : gmap string (list LeaseIPStatus) :=
  foldl (λ m ip, <[ls_ServiceName ip := (default [] (m !! ls_ServiceName ip) ++ [ip])%list]> m) ∅ l.

Record lease_status (P S : Type) := MkLeaseStatus {
  le_IPs : option (gmap string (list LeaseIPStatus)); le_ForwardedPorts : option P; le_Services : S }.

(** [clIP]: the client of the IP operator, if there is one. *)
Definition leaseStatusHandler {P S} (GetManifestGroup : group_query) (clIP : option (LeaseID → result cluster_error (list LeaseIPStatus)))
  (ForwardedPortStatus : LeaseID → result cluster_error P) (LeaseStatus : LeaseID → result cluster_error S) (lid : LeaseID) : answer (lease_status P S) :=
  match GetManifestGroup lid with
  | Err e => writeClusterError e
  | Ok None => Refused StatusNotFound ""
  | Ok (Some g) =>
      match (match clIP with
             | Some GetIPAddressStatus => if hasLeasedIPs g then let* l := GetIPAddressStatus lid in Ok (Some (group_ips l)) else Ok None
             | None => Ok None
             end) with
      | Err e => writeClusterError e
      | Ok ips =>
          match (if hasForwardedPorts g then let* p := ForwardedPortStatus lid in Ok (Some p) else Ok None) with
          | Err e => writeClusterError e
          | Ok ports =>
              match LeaseStatus lid with
              | Err e => writeClusterError e
              | Ok services => Answered StatusOK (MkLeaseStatus _ _ ips ports services)
              end
          end
      end
  end.

Definition leaseServiceStatusHandler {S} (ServiceStatus : LeaseID → string → result cluster_error S) (lid : LeaseID) (service : string) : answer S :=
  match ServiceStatus lid service with Err e => writeClusterError e | Ok s => Answered StatusOK s end.

End status.

(** ** Moving hostnames *)

Record migrateRequestBody := MkMigrate { mb_Hostnames : list string; mb_DSeq : Z; mb_GSeq : Z }.

(** The services and external ports of the hosts of a group; the last one that
    names a host counts. *)
Definition host_targets (g : ManifestGroup) : gmap string (string * Z) :=
  foldl (λ m '(svc, e, host), <[host := (svc, if (ce_ExternalPort e =? 0)%Z then ce_Port e else ce_ExternalPort e)]> m) ∅
    (mg_Services g ≫= λ s, ms_Expose s ≫= λ e, (λ h, (ms_Name s, e, h)) <$> ce_Hosts e).

Section migrate.
Context `{GoUnicode} `{Owners} `{Cosmos} `{MapOrder}.

Notation host_store := (gmap string (resource ProviderHostSpec)).

(** [FindActiveLease]: an error, no such lease, or the lease and its group. *)
Notation lease_query := (string → Z → Z → result string (option (LeaseID * ManifestGroup))).

(** What the API server answers to one declaration, and the time. *)
Record declare_answers := MkDeclareAnswers { da_get : option kerror; da_put : option kerror; da_now : string }.

Definition TransferHostname (an : declare_answers) (lid : LeaseID) (hostname serviceName : string) (externalPort : Z) (st : host_store) : host_store * option kerror :=
  DeclareHostname (da_get an) (da_put an) (da_now an) lid hostname serviceName externalPort st.

(** One host after the other, up to the first error; [ans] are the answers for
    each. *)
Fixpoint transfer_all (targets : gmap string (string * Z)) (lid : LeaseID) (hostnames : list string) (ans : nat → declare_answers) (st : host_store)
  : host_store * option string :=
  match hostnames with
  | [] => (st, None)
  | h :: hostnames =>
      let '(svc, port) := default ("", 0%Z) (targets !! h) in
      let '(st, err) := TransferHostname (ans 0%nat) lid h svc port st in
      match err with
      | Some _ => (st, Some h)
      | None => transfer_all targets lid hostnames (λ n, ans (S n)) st
      end
  end.

Definition not_allowed (e : hostname_error) : bool := match e with ErrInUse _ | ErrBlockedName _ | ErrBlockedDomain _ => true | _ => false end.

Definition migrateHandler (owner : string) (body : option migrateRequestBody) (FindActiveLease : lease_query) (sent answered : arm)
  (ans : nat → declare_answers) (hs : hostnameService) (st : host_store) : answer (list string) * hostnameService * host_store :=
  match body with
  | None => (Refused StatusUnprocessableEntity "", hs, st)
  | Some body =>
      match mb_Hostnames body with
      | [] => (Refused StatusBadRequest "", hs, st)
      | hostnames =>
          match FindActiveLease owner (mb_DSeq body) (mb_GSeq body) with
          | Err _ => (Refused StatusInternalServerError "", hs, st)
          | Ok None => (Refused StatusBadRequest "destination deployment does not exist", hs, st)
          | Ok (Some (leaseID, mgroup)) =>
              let targets := host_targets mgroup in
              match List.find (λ h, negb (bool_decide (is_Some (targets !! h)))) hostnames with
              | Some h => (Refused StatusBadRequest ("the hostname " +:+ quoted h +:+ " is not used by this deployment"), hs, st)
              | None =>
                  let '(r, hs) := PrepareHostnamesForTransfer hs hostnames leaseID sent answered in
                  match r with
                  | Err e => (if not_allowed e then Refused StatusBadRequest "hostname not allowed" else Refused StatusInternalServerError "", hs, st)
                  | Ok _ =>
                      let '(st, failed) := transfer_all targets leaseID hostnames ans st in
                      match failed with
                      | Some h => (Refused StatusInternalServerError ("failed transferring " +:+ quoted h), hs, st)
                      | None => (Answered StatusOK hostnames, hs, st)
                      end
                  end
              end
          end
      end
  end.

End migrate.

(** ** Moving endpoints *)

Record endpointMigrateRequestBody := MkEndpointMigrate { eb_Endpoints : list string; eb_DSeq : Z; eb_GSeq : Z }.

Section endpoints.
Context `{Protocols} `{GoUnicode} `{Cosmos} `{MapOrder}.

Notation ip_store := (gmap string (resource LeasedIPSpec)).
Notation lease_query := (string → Z → Z → result string (option (LeaseID * ManifestGroup))).

Record serviceExposeWithName := MkExposeWithName { en_expose : ManifestServiceExpose; en_serviceName : string; en_proto : ServiceProtocol }.

(** The test whether an endpoint was requested looks it up among those of the
    destination, where it has just been put. *)
Fixpoint services_to_migrate (l : list (string * ManifestServiceExpose)) : result string (list serviceExposeWithName) :=
  match l with
  | [] => Ok []
  | (svc, e) :: l =>
      if negb (ce_Global e) || (ce_IP e =? "") then services_to_migrate l
      else
        let* proto := ParseServiceProtocol (ce_Proto e) in
        let* rest := services_to_migrate l in
        Ok (MkExposeWithName e svc proto :: rest)
  end.
Definition group_exposes (g : ManifestGroup) : list (string * ManifestServiceExpose) :=
  mg_Services g ≫= λ s, (λ e, (ms_Name s, e)) <$> ms_Expose s.
Definition endpointsInDestination (g : ManifestGroup) : gset string :=
  list_to_set (ce_IP ∘ snd <$> List.filter (λ p, ce_Global p.2 && negb (ce_IP p.2 =? "")) (group_exposes g)).

(** [ans]: the errors of reading and writing each. *)
Fixpoint declare_all (lid : LeaseID) (l : list serviceExposeWithName) (ans : nat → option kerror * option kerror) (st : ip_store) : ip_store * option declare_error :=
  match l with
  | [] => (st, None)
  | x :: l =>
      let e := en_expose x in
      let '(st, err) := DeclareIP (ans 0%nat).1 (ans 0%nat).2 lid (en_serviceName x) (ce_Port e) (DetermineExposedExternalPort e) (en_proto x)
        (MakeIPSharingKey lid (ce_IP e)) true st in
      match err with Some err => (st, Some err) | None => declare_all lid l (λ n, ans (S n)) st end
  end.

Definition declare_error_answer {A} (e : declare_error) : answer A :=
  match e with
  | DeclareExists => writeClusterError (ClusterOther "kube: resource already exists")
  | DeclareApi NotFound => writeClusterError (KubeNotFound "")
  | DeclareApi Conflict => writeClusterError (ClusterOther "conflict")
  | DeclareApi (OtherError msg) => writeClusterError (ClusterOther msg)
  end.

Definition migrateEndpointHandler (owner : string) (body : option endpointMigrateRequestBody) (FindActiveLease : lease_query)
  (ans : nat → option kerror * option kerror) (st : ip_store) : answer (list string) * ip_store :=
  match body with
  | None => (Refused StatusUnprocessableEntity "", st)
  | Some body =>
      match eb_Endpoints body with
      | [] => (Refused StatusBadRequest "", st)
      | endpoints =>
          match FindActiveLease owner (eb_DSeq body) (eb_GSeq body) with
          | Err _ => (Refused StatusInternalServerError "", st)
          | Ok None => (Refused StatusBadRequest "destination deployment does not exist", st)
          | Ok (Some (leaseID, mgroup)) =>
              match services_to_migrate (group_exposes mgroup) with
              | Err _ => (Refused StatusInternalServerError "", st)
              | Ok services =>
                  match List.find (λ n, negb (bool_decide (n ∈ endpointsInDestination mgroup))) endpoints with
                  | Some n => (Refused StatusBadRequest ("the endpoint " +:+ quoted n +:+ " does not exist in the destination deployment"), st)
                  | None =>
                      let '(st, err) := declare_all leaseID services ans st in
                      match err with
                      | Some e => (declare_error_answer e, st)
                      | None => (Answered StatusOK endpoints, st)
                      end
                  end
              end
          end
      end
  end.

End endpoints.

(** ** Shells *)

(** [strconv.ParseUint(s, 0, 31)]: the prefix names the base, and digits may be
    set apart by underscores. *)
Definition lower_code (c : ascii) : N := code (lower_ascii c).
Definition digit_of (c : ascii) : option N :=
  if is_digit c then Some (code c - 48)%N
  else if ((97 <=? lower_code c) && (lower_code c <=? 122))%N then Some (lower_code c - 87)%N
  else None.

Fixpoint underscores_ok (hex : bool) (s : string) (after : ascii) : bool :=
  match s with
  | EmptyString => negb (after =? "_")%char
  | String c s =>
      if is_digit c || hex && ((97 <=? lower_code c) && (lower_code c <=? 102))%N then underscores_ok hex s "0"
      else if (c =? "_")%char then (after =? "0")%char && underscores_ok hex s "_"
      else negb (after =? "_")%char && underscores_ok hex s "!"
  end.
Definition underscoreOK (s : string) : bool :=
  match s with
  | String "0" (String p r) =>
      if existsb (Ascii.eqb (lower_ascii p)) ["b"; "o"; "x"]%char then underscores_ok (lower_ascii p =? "x")%char r "0" else underscores_ok false s "^"
  | _ => underscores_ok false s "^"
  end.

Fixpoint parse_base (base max : N) (s : string) (n : N) : option N :=
  match s with
  | EmptyString => Some n
  | String c s =>
      if (c =? "_")%char then parse_base base max s n
      else match digit_of c with
           | Some d => if (d <? base)%N then let n := (n * base + d)%N in if (n <=? max)%N then parse_base base max s n else None else None
           | None => None
           end
  end.
Fixpoint has_char (c : ascii) (s : string) : bool := match s with EmptyString => false | String x s => (x =? c)%char || has_char c s end.

Definition ParseUint_base0 (max : N) (s : string) : option N :=
  let '(base, digits) := match s with
    | String "0" (String p (String x r)) =>
        if (lower_ascii p =? "b")%char then (2%N, String x r) else if (lower_ascii p =? "o")%char then (8%N, String x r)
        else if (lower_ascii p =? "x")%char then (16%N, String x r) else (8%N, String p (String x r))
    | String "0" r => (8%N, r)
    | _ => (10%N, s)
    end in
  if s =? "" then None
  else match parse_base base max digits 0%N with
       | Some n => if has_char "_" digits && negb (underscoreOK s) then None else Some n
       | None => None
       end.

(** The commands are the values of cmd0, cmd1 and so on, up to one that is not
    there: at most as many as there are parameters. *)
Fixpoint shell_commands (fuel : nat) (query : gmap string string) (i : N) : list string :=
  match fuel with
  | O => []
  | S fuel =>
      match vars_get query ("cmd" +:+ Itoa i) with
      | "" => []
      | v => v :: shell_commands fuel query (i + 1)%N
      end
  end.

Record shell_request := MkShell { sh_cmd : list string; sh_tty : bool; sh_service : string; sh_stdin : bool; sh_podIndex : N }.

Definition shell_params (query : gmap string string) : option shell_request :=
  let cmd := shell_commands (S (size query)) query 0 in
  let get := vars_get query in
  match cmd with
  | [] => None
  | _ =>
      if get "tty" =? "" then None
      else if get "service" =? "" then None
      else if get "stdin" =? "" then None
      else if get "podIndex" =? "" then None
      else podIndex ← ParseUint_base0 (2 ^ 31 - 1)%N (get "podIndex");
        Some (MkShell cmd (get "tty" =? "1") (get "service") (get "stdin" =? "1") podIndex)
  end.

(** The codes of the frames of a shell. *)
Definition LeaseShellCodeStdout : Z := 100.
Definition LeaseShellCodeStderr : Z := 101.
Definition LeaseShellCodeResult : Z := 102.
Definition LeaseShellCodeFailure : Z := 103.
Definition LeaseShellCodeStdin : Z := 104.
Definition LeaseShellCodeTerminalResize : Z := 105.

(** The last frame: the exit code and a message, or an empty failure. *)
Inductive shell_frame := FrameResult (exitCode : Z) (msg : string) | FrameFailure.

(** [status]: the ready replicas of the service; [exec]: the exit code of the
    command or an error, when it is run. *)
Definition shell_result (status : result cluster_error Z) (exec : result cluster_error Z) : shell_frame :=
  match status with
  | Err e => if ErrorIsOkToSendToClient e || match e with ErrNoServiceForLease => true | _ => false end
             then FrameResult 0 (cluster_error_text e) else FrameFailure
  | Ok replicas =>
      if (replicas =? 0)%Z then FrameResult 0 "no active replicase for service"
      else match exec with
           | Ok code => FrameResult code ""
           | Err e => if ErrorIsOkToSendToClient e then FrameResult 0 (cluster_error_text e) else FrameFailure
           end
  end.

(** *** Which pod a command runs in *)

Record exec_pod := MkExecPod { xp_Name : string; xp_Phase : string; xp_Conditions : list (string * string); xp_Containers : list string }.

(** [sort.Sort] by name. *)
Fixpoint insert_pod (p : exec_pod) (l : list exec_pod) : list exec_pod :=
  match l with [] => [p] | q :: l' => if string_le (xp_Name p) (xp_Name q) then p :: l else q :: insert_pod p l' end.
Definition sort_pods (l : list exec_pod) : list exec_pod := foldr insert_pod [] l.

(** The last condition of readiness counts. *)
Definition pod_ready (p : exec_pod) : bool :=
  foldl (λ ready '(type, status), if type =? "Ready" then status =? "True" else ready) false (xp_Conditions p).

Definition ErrExec (msg : string) : cluster_error := ErrExecError ("remote command execute error: " +:+ msg).
Definition ErrExecNoServiceWithName : cluster_error := ErrExec "no such service exists with that name".
Definition ErrExecServiceNotRunning (why : string) : cluster_error := ErrExec ("service with that name is not running" +:+ why).
Definition ErrExecPodIndexOutOfRange (last : nat) : cluster_error := ErrExec ("pod index out of range: valid range is [0, " +:+ Itoa (N.of_nat last) +:+ "]").
Definition ErrExecCommandDoesNotExist : cluster_error := ErrExec "command could not be executed because it does not exist".
Definition ErrExecCommandExecutionFailed : cluster_error := ErrExec "command execution failed".

(** [Exec] up to the call: the group of the manifest, the pods with the label of
    the service.  The test of the name is not made when there is no service. *)
Definition exec_selected (p : exec_pod) : result cluster_error exec_pod :=
  if xp_Phase p =? "Succeeded" then Err (ErrExecServiceNotRunning ": the service has completed")
  else if xp_Phase p =? "Failed" then Err (ErrExecServiceNotRunning ": the service has failed")
  else if pod_ready p then Ok p else Err (ErrExecServiceNotRunning ": the service is not ready").
Definition exec_target (namespace : string) (mani : result string ManifestGroup) (serviceName : string) (pods : result string (list exec_pod)) (podIndex : N)
  : result cluster_error exec_pod :=
  match mani with
  | Err e => Err (ClusterOther (e +:+ ": failed getting manifest"))
  | Ok g =>
      if negb (bool_decide (mg_Services g = [])) && negb (existsb (λ s, ms_Name s =? serviceName) (mg_Services g)) then Err ErrExecNoServiceWithName
      else match pods with
           | Err e => Err (ClusterOther (e +:+ ": failed getting pods in namespace " +:+ quoted namespace))
           | Ok [] => Err (ErrExecServiceNotRunning "")
           | Ok items =>
               match sort_pods items !! N.to_nat podIndex with
               | None => Err (ErrExecPodIndexOutOfRange (List.length items - 1))
               | Some p => exec_selected p
               end
           end
  end.

(** What a run of the command answers. *)
Inductive stream_outcome := StreamOk | StreamExit (code : Z) | StreamError (msg : string).
Definition exec_outcome (o : stream_outcome) : result cluster_error Z :=
  match o with
  | StreamOk => Ok 0%Z
  | StreamExit code => Ok code
  | StreamError msg =>
      if Contains msg "error executing command in container" then
        if Contains msg "no such file or directory" || Contains msg "executable file not found in $PATH"
        then Err ErrExecCommandDoesNotExist else Err ErrExecCommandExecutionFailed
      else Err (ClusterOther msg)
  end.

(** ** Attestation *)

Definition attestationSidecarContainerName : string := "akash-attestation-sidecar".

(** [pods]: those with the label of the service, or the managed ones when no
    service is named. *)
Definition findAttestationSidecarPod (pods : result string (list exec_pod)) (namespace service : string) (podIndex : N) : result string string :=
  match pods with
  | Err e => Err ("list pods in " +:+ namespace +:+ ": " +:+ e)
  | Ok items =>
      let candidates := List.filter (λ p, (xp_Phase p =? "Running") && existsb (String.eqb attestationSidecarContainerName) (xp_Containers p)) items in
      match candidates with
      | [] => Err ("no running pod with attestation sidecar" +:+ (if service =? "" then "" else " for service " +:+ quoted service) +:+ " in namespace " +:+ namespace)
      | first :: _ =>
          if service =? "" then Ok (xp_Name first)
          else match sort_pods candidates !! N.to_nat podIndex with
               | Some p => Ok (xp_Name p)
               | None => Err ("podIndex " +:+ Itoa podIndex +:+ " out of range: service " +:+ quoted service +:+ " has "
                              +:+ Itoa (N.of_nat (List.length candidates)) +:+ " attestation-capable pod(s)")
               end
      end
  end.

(** [exists]: the error of [leaseExists]; [proxy]: the answer of the sidecar, or
    the status of the API server if it has one, and the error. *)
Definition AttestationQuote (exist : option string) (pods : result string (list exec_pod)) (namespace service : string) (podIndex : N)
  (proxy : string → string → result (option Z * string) string) (body : string) : result (Z * string) (Z * string) :=
  match exist with
  | Some e => Err (StatusNotFound, e)
  | None =>
      match findAttestationSidecarPod pods namespace service podIndex with
      | Err e => Err (StatusNotFound, e)
      | Ok pod =>
          match proxy pod body with
          | Err (code, e) => Err (default StatusBadGateway code, "proxy to attestation sidecar: " +:+ e)
          | Ok resp => Ok (StatusOK, resp)
          end
      end
  end.

Definition createAttestationQuoteHandler (query : gmap string string) (body : option string)
  (quote : string → N → string → result (Z * string) (Z * string)) : answer string :=
  let service := vars_get query "service" in
  let pidx := vars_get query "podIndex" in
  match (if pidx =? "" then Ok 0%N
         else if service =? "" then Err "podIndex requires service parameter"
         else match ParseUint pidx with
              | (n, None) => if (n <? 2 ^ 31)%Z then Ok (Z.to_N n) else Err "invalid podIndex parameter"
              | _ => Err "invalid podIndex parameter"
              end) with
  | Err e => Refused StatusBadRequest e
  | Ok podIndex =>
      match body with
      | None => Refused StatusBadRequest "failed to read request body"
      | Some b =>
          match quote service podIndex (str_take 4096 b) with
          | Err (status, e) => Refused status ("attestation quote failed: " +:+ e)
          | Ok (status, resp) => Answered status resp
          end
      end
  end.

(** The platform of the cluster: the first node with one of the labels. *)
Definition DetectTEEPlatform (nodes : option (list label_map)) : string :=
  match List.find (λ l, bool_decide (l !! "intel.feature.node.kubernetes.io/tdx" = Some "true") || bool_decide (l !! "amd.feature.node.kubernetes.io/snp" = Some "true")) (default [] nodes) with
  | None => ""
  | Some l => if bool_decide (l !! "intel.feature.node.kubernetes.io/tdx" = Some "true") then TEEPlatformTDX else TEEPlatformSNP
  end.

(** *** The input of a shell *)

(** A binary message: input, a size, something unknown; an empty one is
    skipped.  Sizes are two numbers of two bytes, the high byte first. *)
Inductive shell_message := MsgSkip | MsgStdin (data : string) | MsgResize (width height : Z) | MsgBad.
Definition be16 (a b : ascii) : Z := Z.of_N (code a * 256 + code b).
Definition read_message (binary : bool) (data : string) : shell_message :=
  match data with
  | EmptyString => MsgSkip
  | String id msg =>
      if negb binary then MsgSkip
      else if (Z.of_N (code id) =? LeaseShellCodeStdin)%Z then MsgStdin msg
      else if (Z.of_N (code id) =? LeaseShellCodeTerminalResize)%Z then
        match msg with String a (String b (String c (String d _))) => MsgResize (be16 a b) (be16 c d) | _ => MsgBad end
      else MsgBad
  end.

(** The goroutine that reads the connection, and the handler.  The pipe for the
    input has no buffer: a write ends when the input is read, which only the
    library that runs the command does, by goroutines of its own ([sl_streams])
    that may outlive the command.  The queue of sizes holds one.  The handler
    closes the pipe after the reading goroutine has ended. *)
Inductive reader := Reading | WritingStdin | SendingSize | ReaderDone.
Inductive handler := Checking | Executing | WaitingReader | HandlerDone.
Record shell := MkShellState { sl_tty : bool; sl_reader : reader; sl_queued : bool; sl_handler : handler; sl_streams : bool }.
#[export] Instance reader_eq_dec : EqDecision reader.
Proof. solve_decision. Defined.
#[export] Instance handler_eq_dec : EqDecision handler.
Proof. solve_decision. Defined.

Inductive shell_event :=
| ShMessage (m : shell_message)   (** the connection delivers a message *)
| ShReadError                     (** or an error, as after it is closed *)
| ShCheckFails                    (** the service is not there or has no replica; the connection is closed *)
| ShExecStarts                    (** the command runs *)
| ShReadStdin                     (** its input is read *)
| ShReadSize                      (** a size is taken *)
| ShStreamsEnd                    (** input and sizes are no longer taken *)
| ShExecEnds                      (** the command ends; the connection is closed *)
| ShReturn.                       (** the handler has waited and returns *)

Definition set_reader (r : reader) (queued : bool) (s : shell) : shell := MkShellState (sl_tty s) r queued (sl_handler s) (sl_streams s).
Definition set_handler (h : handler) (streams : bool) (s : shell) : shell := MkShellState (sl_tty s) (sl_reader s) (sl_queued s) h streams.

(** What the goroutine does with a message; a size without a terminal is dropped. *)
Definition on_message (m : shell_message) (s : shell) : shell :=
  match m with
  | MsgSkip => s
  | MsgStdin _ => set_reader WritingStdin (sl_queued s) s
  | MsgResize _ _ => if negb (sl_tty s) then s else set_reader (if sl_queued s then SendingSize else Reading) true s
  | MsgBad => set_reader ReaderDone (sl_queued s) s
  end.

Definition shell_step (s : shell) (e : shell_event) : option shell :=
  match e with
  | ShMessage m =>
      match sl_reader s, sl_handler s with Reading, Checking | Reading, Executing => Some (on_message m s) | _, _ => None end
  | ShReadError => match sl_reader s with Reading => Some (set_reader ReaderDone (sl_queued s) s) | _ => None end
  | ShCheckFails => match sl_handler s with Checking => Some (set_handler WaitingReader (sl_streams s) s) | _ => None end
  | ShExecStarts => match sl_handler s with Checking => Some (set_handler Executing true s) | _ => None end
  | ShReadStdin => match sl_streams s, sl_reader s with true, WritingStdin => Some (set_reader Reading (sl_queued s) s) | _, _ => None end
  | ShReadSize =>
      match sl_streams s, sl_queued s with
      | true, true => Some (if bool_decide (sl_reader s = SendingSize) then set_reader Reading true s else set_reader (sl_reader s) false s)
      | _, _ => None
      end
  | ShStreamsEnd => if sl_streams s then Some (set_handler (sl_handler s) false s) else None
  | ShExecEnds => match sl_handler s with Executing => Some (set_handler WaitingReader (sl_streams s) s) | _ => None end
  | ShReturn => match sl_handler s, sl_reader s with WaitingReader, ReaderDone => Some (set_handler HandlerDone (sl_streams s) s) | _, _ => None end
  end.
Definition shell_start (tty : bool) : shell := MkShellState tty Reading false Checking false.
