(* ===== verification/GatewayHandlersSound.v ===== *)
(** * What the handlers of the gateway do

    Moving hostnames moves those the destination declares and no others; the pod
    of a shell does not depend on the order of a listing; a shell whose input
    nobody reads never ends. *)
From Stdlib Require Import Ascii String Sorting.Sorted.
From Stdlib Require Import Ascii String.
From S2P Require Import Prelude Traces GoStrings ChainTypes ClusterTypes LeaseNames CrdManifest Hostname HostRoutes OperatorCommon HostnameOperator MetalLb.
From S2P Require Import IpOperator KubeDeclare ManifestService Gateway GatewayHandlers Json World LeaseBook IpOperatorSample GatewaySound.

Open Scope string_scope.
Open Scope go_scope.

(** ** Hostnames *)

(** A host of a group has a service that exposes it, and its external port. *)
Definition declares (g : ManifestGroup) (host svc : string) (port : Z) : Prop :=
  ∃ s e, s ∈ mg_Services g ∧ e ∈ ms_Expose s ∧ host ∈ ce_Hosts e ∧ svc = ms_Name s
    ∧ port = (if (ce_ExternalPort e =? 0)%Z then ce_Port e else ce_ExternalPort e).

Lemma host_targets_declared g host svc port : host_targets g !! host = Some (svc, port) → declares g host svc port.
Proof.
  unfold host_targets. set (l := mg_Services g ≫= _).
  assert (∀ p, p ∈ l → ∃ s e, s ∈ mg_Services g ∧ e ∈ ms_Expose s ∧ p.2 ∈ ce_Hosts e ∧ p.1.1 = ms_Name s ∧ p.1.2 = e) as Hl.
  { intros p (s & (e & (h & -> & Hh)%list_elem_of_fmap & He)%list_elem_of_bind & Hs)%list_elem_of_bind. by exists s, e. }
  clearbody l. revert Hl. induction l as [|[[s e] h] l IH] using rev_ind; intros Hl; [done|].
  rewrite foldl_snoc. destruct (decide (h = host)) as [->|Hne].
  - rewrite lookup_insert_eq. intros [= <- <-]. destruct (Hl (s, e, host)) as (s' & e' & Hs & He & Hh & Hn & Hee); [apply elem_of_app; right; by left|].
    cbn in *. subst. by exists s', e'.
  - rewrite lookup_insert_ne by done. apply IH. intros p Hp. apply Hl, elem_of_app. by left.
Qed.

Section migrate.
Context `{GoUnicode} `{Owners} `{Cosmos} `{MapOrder}.

Notation host_store := (gmap string (resource ProviderHostSpec)).

Lemma TransferHostname_spec an lid h svc port (st st' : host_store) err :
  TransferHostname an lid h svc port st = (st', err) →
  (err ≠ None ∧ st' = st) ∨ (err = None ∧ ∃ r, st' = <[h := r]> st ∧ rs_Spec r = host_spec lid h svc port).
Proof.
  unfold TransferHostname, DeclareHostname, api_get, api_put. destruct (da_get an) as [[| |msg]|].
  1: destruct (da_put an); intros [= <- <-]; [by left|right; eauto].
  1,2: intros [= <- <-]; by left.
  destruct (da_put an); intros [= <- <-]; [by left|right; eauto].
Qed.

(** Which hosts have been moved. *)
Definition moved (targets : gmap string (string * Z)) (lid : LeaseID) (h : string) (r : resource ProviderHostSpec) : Prop :=
  let '(svc, port) := default ("", 0%Z) (targets !! h) in rs_Spec r = host_spec lid h svc port.

Lemma transfer_all_spec targets lid hostnames ans (st st' : host_store) failed :
  transfer_all targets lid hostnames ans st = (st', failed) →
  (∀ h r, st' !! h = Some r → st !! h = Some r ∨ h ∈ hostnames ∧ moved targets lid h r)
  ∧ (∀ h, is_Some (st !! h) → is_Some (st' !! h))
  ∧ (failed = None → ∀ h, h ∈ hostnames → ∃ r, st' !! h = Some r ∧ moved targets lid h r).
Proof.
  revert ans st. induction hostnames as [|x hostnames IH]; intros ans st; cbn [transfer_all].
  { intros [= <- <-]. split_and!; [by left|done|]. intros _ h Hh. by apply not_elem_of_nil in Hh. }
  destruct (default ("", 0%Z) (targets !! x)) as [svc port] eqn:Et.
  destruct (TransferHostname _ _ _ _ _ _) as [st1 err] eqn:E. apply TransferHostname_spec in E as [[Herr ->]|(-> & r & -> & Hr)].
  { destruct err; [|done]. intros [= <- <-]. split_and!; [by left|done|by intros [=]]. }
  assert (moved targets lid x r) as Hmv by (unfold moved; by rewrite Et).
  intros (H1' & H2' & H3')%IH. split_and!.
  - intros h r' Hh. destruct (H1' h r' Hh) as [Hst|[Hin Hm]]; [|right; split; [by right|done]].
    destruct (decide (x = h)) as [->|]; [rewrite lookup_insert_eq in Hst; injection Hst as <-; right; split; [by left|done]|].
    rewrite lookup_insert_ne in Hst by done. by left.
  - intros h Hh. apply H2'. destruct (decide (x = h)) as [->|]; [by rewrite lookup_insert_eq; eauto|by rewrite lookup_insert_ne].
  - intros Hf h [->|Hh]%elem_of_cons; [|by apply H3'].
    destruct (decide (x ∈ hostnames)); [by apply H3'|].
    destruct (H2' x) as [r' Hr']; [rewrite lookup_insert_eq; eauto|]. exists r'. split; [done|].
    destruct (H1' x r' Hr') as [Hst|[_ Hm]]; [|done]. rewrite lookup_insert_eq in Hst. by injection Hst as <-.
Qed.

Lemma find_none_all {A} (p : A → bool) l : List.find (λ x, negb (p x)) l = None → ∀ x, x ∈ l → p x = true.
Proof. intros Hf x Hx. apply negb_false_iff, (List.find_none _ _ Hf). by apply list_elem_of_In. Qed.

Lemma prepared_owner hs hostnames lid sent answered :
  (PrepareHostnamesForTransfer hs hostnames lid sent answered).1 = Ok () →
  ∃ hID, lease_hID lid = Ok hID ∧ ∀ h holder, h ∈ hostnames → hs_inUse hs !! h = Some holder → hid_owner holder = hid_owner hID.
Proof.
  unfold PrepareHostnamesForTransfer. destruct (lease_hID lid) as [hID|]; [|done]. destruct sent; [|done|by destruct answered].
  cbn. unfold prepareHostnamesImpl. pose proof (prepare_check_spec (hs_inUse hs) hostnames hID) as Hspec.
  destruct (prepare_check _ _ _) as [l|e]; [|by destruct answered]. intros _. exists hID. split; [done|]. intros h holder Hh Hst.
  destruct (decide (hid_owner holder = hid_owner hID)) as [|Hne]; [done|]. destruct (proj1 Hspec). exists h, holder. done.
Qed.

(** Claim C17.  A request to move hostnames moves, of those it names, only
    hosts that the manifest of its destination declares, each to the service and
    port declared for it and to a lease found for the owner; everything else
    stays.  When it is answered with success all of them have been moved, and
    none was held by another owner. *)
Theorem hostnames_moved owner body find sent answered ans hs (st : host_store) a hs' st'
  (Hrun : migrateHandler owner (Some body) find sent answered ans hs st = (a, hs', st')) :
  (∀ h r, st' !! h = Some r → st !! h = Some r
     ∨ ∃ lid g svc port, find owner (mb_DSeq body) (mb_GSeq body) = Ok (Some (lid, g)) ∧ h ∈ mb_Hostnames body
         ∧ declares g h svc port ∧ rs_Spec r = host_spec lid h svc port)
  ∧ (∀ h, is_Some (st !! h) → is_Some (st' !! h))
  ∧ (∀ status l, a = Answered status l →
       ∃ lid g hID, find owner (mb_DSeq body) (mb_GSeq body) = Ok (Some (lid, g)) ∧ l = mb_Hostnames body ∧ lease_hID lid = Ok hID
         ∧ ∀ h, h ∈ mb_Hostnames body →
             (∃ r svc port, st' !! h = Some r ∧ declares g h svc port ∧ rs_Spec r = host_spec lid h svc port)
             ∧ ∀ holder, hs_inUse hs !! h = Some holder → hid_owner holder = hid_owner hID).
Proof.
  unfold migrateHandler in Hrun.
  assert (∀ a', (a', hs, st) = (a, hs', st') → (∀ status l, a' ≠ Answered status l) →
    st' = st ∧ ∀ status l, a ≠ Answered status l) as Hkeep by (intros a' [= -> _ ->]; done).
  assert (st' = st ∧ (∀ status l, a ≠ Answered status l) ∨ ∃ lid g,
    find owner (mb_DSeq body) (mb_GSeq body) = Ok (Some (lid, g)) ∧ (∀ h, h ∈ mb_Hostnames body → is_Some (host_targets g !! h))
    ∧ (PrepareHostnamesForTransfer hs (mb_Hostnames body) lid sent answered).1 = Ok ()
    ∧ ∃ failed, transfer_all (host_targets g) lid (mb_Hostnames body) ans st = (st', failed)
      ∧ ∀ status l, a = Answered status l → failed = None ∧ l = mb_Hostnames body) as Hcases.
  { destruct (mb_Hostnames body) as [|x l] eqn:Eh; [left; by apply (Hkeep _ Hrun)|].
    destruct (find owner _ _) as [[[lid g]|]|]; [|left; by apply (Hkeep _ Hrun)..]. rewrite <- Eh in *.
    destruct (List.find _ _) eqn:Ef; [left; by apply (Hkeep _ Hrun)|].
    destruct (PrepareHostnamesForTransfer _ _ _ _ _) as [[[]|e] hs1] eqn:Ep.
    2: { left. injection Hrun as <- _ <-. split; [done|]. by destruct (not_allowed e). }
    right. exists lid, g. split; [done|]. split; [intros h Hh; by apply (bool_decide_eq_true_1 _), (find_none_all _ _ Ef)|].
    rewrite Ep. split; [done|]. destruct (transfer_all _ _ _ _ _) as [st1 failed].
    exists failed. destruct failed; injection Hrun as <- _ <-; [by split|]. split; [done|]. by intros ? ? [= _ <-]. }
  clear Hrun Hkeep. destruct Hcases as [[-> Hna]|(lid & g & Hfind & Hdecl & Hprep & failed & Htr & Hans)].
  { split_and!; [by left|done|]. intros status l Ha. by destruct (Hna status l). }
  assert (∀ h r, h ∈ mb_Hostnames body → moved (host_targets g) lid h r → ∃ svc port, declares g h svc port ∧ rs_Spec r = host_spec lid h svc port) as Hmoved.
  { intros h r Hh Hm. destruct (Hdecl h Hh) as [[svc port] Et]. unfold moved in Hm. rewrite Et in Hm. cbn in Hm.
    exists svc, port. split; [by apply host_targets_declared|done]. }
  destruct (transfer_all_spec _ _ _ _ _ _ _ Htr) as (Hfrom & Hstays & Hall). split_and!; [|done|].
  - intros h r Hr. destruct (Hfrom h r Hr) as [?|[Hh Hm]]; [by left|right]. destruct (Hmoved h r Hh Hm) as (svc & port & ? & ?). by exists lid, g, svc, port.
  - intros status l Ha. destruct (Hans status l Ha) as [-> ->]. apply prepared_owner in Hprep as (hID & Eh & Hown).
    exists lid, g, hID. split_and!; [done..|]. intros h Hh. split; [|by intros holder; apply Hown].
    destruct (Hall eq_refl h Hh) as (r & Er & Hm). destruct (Hmoved h r Hh Hm) as (svc & port & ? & ?). by exists r, svc, port.
Qed.

End migrate.

(** ** Shells *)

Lemma string_le_trans a b c : string_le a b = true → string_le b c = true → string_le a c = true.
Proof.
  intros Hab Hbc. destruct (string_lt a b) eqn:E; [by eapply string_lt_le_trans|]. apply string_lt_false in E.
  by rewrite (string_le_antisym a b Hab E).
Qed.
Lemma string_le_total a b : string_le a b = false → string_le b a = true.
Proof.
  intros E. destruct (string_lt b a) eqn:El; [by apply string_lt_le|]. apply string_lt_false in El. congruence.
Qed.

Lemma insert_pod_perm p l : insert_pod p l ≡ₚ p :: l.
Proof. induction l as [|q l IH]; cbn; [done|]. case_match; [done|]. rewrite IH. apply Permutation_swap. Qed.
Lemma sort_pods_perm l : sort_pods l ≡ₚ l.
Proof. induction l as [|p l IH]; cbn; [done|]. by rewrite insert_pod_perm, IH. Qed.

Definition pod_le (p q : exec_pod) : Prop := string_le (xp_Name p) (xp_Name q) = true.

Lemma sort_pods_sorted l : StronglySorted pod_le (sort_pods l).
Proof.
  induction l as [|p l IH]; [constructor|]. change (sort_pods (p :: l)) with (insert_pod p (sort_pods l)).
  induction IH as [|q l' Hs IH Hq]; cbn; [repeat constructor|].
  destruct (string_le (xp_Name p) (xp_Name q)) eqn:E.
  - constructor; [by constructor|]. constructor; [done|]. eapply Forall_impl; [exact Hq|]. intros x Hx. by eapply string_le_trans.
  - constructor; [done|]. rewrite insert_pod_perm. constructor; [by apply string_le_total|done].
Qed.

(** Claim C37.  The pod a shell is opened in does not depend on the order in
    which the API server lists the pods: the index counts them by name. *)
Theorem shell_pod_stable namespace mani service items items' podIndex
  (Hperm : items ≡ₚ items')
  (Hnames : NoDup (xp_Name <$> items)) :
  exec_target namespace mani service (Ok items) podIndex = exec_target namespace mani service (Ok items') podIndex
  ∧ ∀ p, exec_target namespace mani service (Ok items) podIndex = Ok p → p ∈ items ∧ pod_ready p = true
      ∧ sort_pods items !! N.to_nat podIndex = Some p.
Proof.
  assert (sort_pods items = sort_pods items') as Hsort.
  { apply (StronglySorted_unique_strong pod_le); [|apply sort_pods_sorted..|by rewrite !sort_pods_perm].
    intros p q Hp Hq Hpq Hqp. rewrite sort_pods_perm in Hp. rewrite sort_pods_perm, <- Hperm in Hq.
    assert (xp_Name p = xp_Name q) as En by (by apply string_le_antisym).
    apply list_elem_of_lookup in Hp as [i Hi], Hq as [j Hj].
    assert (i = j) as ->; [|congruence]. eapply NoDup_lookup; [exact Hnames| |]; rewrite list_lookup_fmap, ?Hi, ?Hj; cbn; [done|by rewrite En]. }
  split.
  - unfold exec_target. destruct mani as [g|]; [|done]. destruct (_ && _); [done|].
    destruct items as [|x l], items' as [|x' l']; [done| | |by rewrite Hsort, (Permutation_length Hperm)].
    + by apply Permutation_nil_cons in Hperm.
    + by apply symmetry, Permutation_nil_cons in Hperm.
  - unfold exec_target. intros p. destruct mani as [g|]; [|done]. destruct (_ && _); [done|].
    assert (∀ q, sort_pods items !! N.to_nat podIndex = Some q → exec_selected q = Ok p → p ∈ items ∧ pod_ready p = true ∧ sort_pods items !! N.to_nat podIndex = Some p) as Hone.
    { intros q Eq. unfold exec_selected. destruct (_ =? _); [done|]. destruct (_ =? _); [done|]. destruct (pod_ready q) eqn:Er; [|done]. intros [= <-].
      split_and!; [|done|done]. apply list_elem_of_lookup_2 in Eq. by rewrite sort_pods_perm in Eq. }
    destruct items as [|x l]; [done|]. destruct (sort_pods (x :: l) !! N.to_nat podIndex) as [q|] eqn:Eq; [|done]. by apply Hone.
Qed.

(** Input that comes before the check of the service fails is never read: the
    reading goroutine stays in the pipe and the handler waits for it, for
    good. *)
Theorem shell_hangs tty :
  ∃ s, shell_step (shell_start tty) (ShMessage (MsgStdin "x")) ≫= (λ s, shell_step s ShCheckFails) = Some s
    ∧ sl_handler s = WaitingReader ∧ ∀ e, shell_step s e = None.
Proof. eexists. split; [reflexivity|]. split; [done|]. by intros []. Qed.

(** Nor does the handler return when the command ends before it has read what it
    was sent. *)
Theorem shell_hangs_after tty :
  ∃ s, (s1 ← shell_step (shell_start tty) ShExecStarts; s2 ← shell_step s1 (ShMessage (MsgStdin "x")); s3 ← shell_step s2 ShStreamsEnd; shell_step s3 ShExecEnds) = Some s
    ∧ sl_handler s = WaitingReader ∧ ∀ e, shell_step s e = None.
Proof. eexists. split; [reflexivity|]. split; [done|]. by intros []. Qed.

(** Without such input the handler returns. *)
Lemma shell_ends s : sl_handler s = WaitingReader → sl_reader s = Reading →
  shell_step s ShReadError ≫= (λ s, shell_step s ShReturn) = Some (MkShellState (sl_tty s) ReaderDone (sl_queued s) HandlerDone (sl_streams s)).
Proof. intros Eh Er. unfold shell_step. rewrite Er. cbn. by rewrite Eh. Qed.

(** * A gateway with two tenants

    Tokens of two tenants, one of them for logs only, a destination with two
    endpoints; the witnesses of what is shown of the gateway, and what it lets
    through. *)

#[local] Existing Instance IpOperatorSample.protocols.
#[local] Existing Instance IpOperatorSample.ascii_only.
#[local] Existing Instance PlainCosmos.plain.
#[local] Existing Instance listed_order.
#[local] Instance file_system : FileSystem := {| mkdir_error _ := None; write_error _ := None |}.
#[local] Instance lease_owners : Owners := λ l, Ok (lid_Owner l).

(** Permissions are scopes. *)
#[local] Instance access : Ajwt.
Proof.
  refine {| AccessType := option bool; AccessTypeNone := None; AccessTypeFull := Some true; AccessTypeEmpty := Some false; Permissions := list PermissionScope; no_permissions := [] |}.
  discriminate.
Defined.
#[export] Instance PermissionScope_eq_dec : EqDecision PermissionScope.
Proof. solve_decision. Defined.

(** A token is the address of its issuer; that of alice is for logs. *)
Definition scopes_of (issuer : string) : list PermissionScope := if issuer =? "akash1alice" then [PermissionScopeLogs] else [].
Definition parse (key : result string string → result gw_error Verifier) (token : string) : jwt_answer :=
  match key (Ok token) with
  | Ok v => if ve_Issuer v =? token then MkJwtAnswer None true (MkClaims token "v1" None None None (Some false) (scopes_of token))
            else MkJwtAnswer (Some (MkJwtError false false)) false none_claims
  | Err _ => MkJwtAnswer (Some (MkJwtError false false)) false none_claims
  end.
#[local] Instance access_ops : AjwtOps := {|
  Claims_Validate _ := None;
  IssuerAddress c := if HasPrefix (cl_Issuer c) "akash1" then cl_Issuer c else "";
  AuthorizeForProvider c _ := bool_decide (cl_Access c ≠ None);
  AuthorizeForDeploymentID c _ _ := true;
  AuthorizeForLeaseID c _ := true;
  AuthorizeDeploymentIDForPermissionScope c _ _ s := bool_decide (cl_Access c = Some true) || bool_decide (s ∈ cl_Permissions c);
  AuthorizeLeaseIDForPermissionScope c _ s := bool_decide (cl_Access c = Some true) || bool_decide (s ∈ cl_Permissions c);
  ParseWithClaims := parse;
  signed_by v token := ve_Issuer v = token
|}.
#[local] Instance access_laws : AjwtLaws.
Proof.
  intros key token. cbn. unfold parse. destruct (key (Ok token)) as [v|] eqn:E; [|done].
  destruct (String.eqb_spec (ve_Issuer v) token) as [Ev|]; [|done]. intros _ _. exists v. by rewrite Ev.
Qed.
#[local] Instance paths : ChainPaths := {|
  ParseDeploymentPath l := match l with [o; d] => Ok (MkDID o (ParseUint d).1) | _ => Err "invalid path" end;
  ParseLeasePath l := match l with [o; d; g; s; p] => Ok (MkLeaseID o (ParseUint d).1 (ParseUint g).1 (ParseUint s).1 p) | _ => Err "invalid path" end
|}.

Definition env : string → string := λ _, "".
Definition nothing : PirState := MkPir None ∅.
Definition accounts : result string (string → result account_error string) :=
  Ok (λ a, if a =? "akash1alice" then Ok "key-of-alice" else Err AccountNotExist).
Definition of_alice (service : string) : request :=
  MkRequest "Bearer akash1alice" [] {["dseq" := "1"; "gseq" := "1"; "oseq" := "1"; "serviceName" := service]} ∅ "".

Lemma claims_earned_witness :
  ∃ claims st', AuthProcess env accounts 100 [] "akash1alice" nothing = (Ok claims, st')
    ∧ ∃ v, AccAddress_String (cl_Issuer claims) = Ok (ve_Issuer v) ∧ signed_by v "akash1alice".
Proof.
  destruct (AuthProcess env accounts 100 [] "akash1alice" nothing) as [[claims|e] st'] eqn:E; [|vm_compute in E; discriminate E].
  exists claims, st'. split; [reflexivity|].
  destruct (claims_earned env accounts 100 [] "akash1alice" nothing claims st' E) as [(Ht & _)|[(Ht & _)|[(_ & _ & t & Ht & _)|(_ & p & v & _ & Ha & _ & Hs)]]].
  - discriminate Ht.
  - discriminate Ht.
  - vm_compute in Ht. discriminate Ht.
  - exists v. split; [exact Ha|exact Hs].
Defined.

(** A token for logs reads the status of a service, and not that of the lease. *)
Definition reached (ep : endpoint) : bool :=
  match serve env accounts "akash1provider" 100 ep (of_alice "web") nothing with Ret (Ok _, _) => true | _ => false end.
Lemma service_status_unscoped : reached GetServiceStatus = true ∧ reached GetLeaseStatus = false ∧ reached GetLogs = true.
Proof. vm_compute. done. Qed.

(** It also moves the hostnames and the endpoints of all leases of its issuer. *)
Lemma migration_unscoped : reached PostHostnameMigrate = true ∧ reached PostEndpointMigrate = true.
Proof. vm_compute. done. Qed.

(** ** Moving *)

Definition no_http : CrdHTTPOptions := MkCrdHTTP 0 0 0 0 0 [] false 0 0 0 0 0.
Definition destination : ManifestGroup := MkCrdGroup "west"
  [MkCrdService "web" "img" [] [] [] (MkCrdResources 1 (MkRCPU 500 []) (MkRGPU 0 []) (MkRMemory "1024" []) []) 1
    [MkCrdExpose 80 0 "TCP" "" true ["app.example"] no_http "" 0; MkCrdExpose 53 0 "UDP" "" true [] no_http "dns" 1; MkCrdExpose 25 0 "TCP" "" true [] no_http "mail" 2]
    None None None ""].
Definition lid : LeaseID := MkLeaseID "akash1alice" 2 1 1 "akash1provider".
Definition find : string → Z → Z → result string (option (LeaseID * ManifestGroup)) := λ _ _ _, Ok (Some (lid, destination)).
Definition fine : nat → declare_answers := λ _, MkDeclareAnswers None None "now".
Definition holding : hostnameService := MkHostnames {["app.example" := MkHID "akash1alice" 1 1]} [] [].

Lemma hostnames_moved_witness :
  ∃ a hs' st', migrateHandler "akash1alice" (Some (MkMigrate ["app.example"] 2 1)) find Served Served fine holding ∅ = (a, hs', st')
    ∧ ∃ r svc port, st' !! "app.example" = Some r ∧ rs_Spec r = host_spec lid "app.example" svc port.
Proof.
  destruct (migrateHandler "akash1alice" (Some (MkMigrate ["app.example"] 2 1)) find Served Served fine holding ∅) as [[a hs'] st'] eqn:E.
  exists a, hs', st'. split; [reflexivity|].
  destruct (hostnames_moved _ _ _ _ _ _ _ _ _ _ _ E) as (_ & _ & Hall).
  assert (∃ l, a = Answered StatusOK l) as [l ->].
  { assert ((λ p, match p with (Answered s l, _, _) => Some (s, l) | _ => None end)
      (migrateHandler "akash1alice" (Some (MkMigrate ["app.example"] 2 1)) find Served Served fine holding ∅) = Some (StatusOK, ["app.example"])) as Hc by (vm_compute; reflexivity).
    rewrite E in Hc. destruct a; [discriminate Hc|]. injection Hc as -> ->. eexists. reflexivity. }
  destruct (Hall _ _ eq_refl) as (lid' & g & hID & Hf & _ & _ & Hh). injection Hf as <- <-.
  destruct (Hh "app.example" (list_elem_of_here _ _)) as [(r & svc & port & Er & _ & Es) _]. exists r, svc, port. split; [exact Er|exact Es].
Defined.

(** One endpoint is asked for and both are moved. *)
Lemma endpoint_not_asked_moves :
  let '(a, st) := migrateEndpointHandler "akash1alice" (Some (MkEndpointMigrate ["dns"] 2 1)) find (λ _, (None, None)) ∅ in
  a = Answered StatusOK ["dns"] ∧ size st = 2%nat.
Proof. vm_compute. done. Qed.

(** ** Shells *)

Definition pod_b : exec_pod := MkExecPod "b" "Running" [("Ready", "True")] ["web"].
Definition pod_a : exec_pod := MkExecPod "a" "Running" [("Ready", "True")] ["web"].

Lemma pods_named : NoDup (xp_Name <$> [pod_b; pod_a]).
Proof. apply (bool_decide_eq_true_1 _). vm_compute. reflexivity. Qed.

Lemma shell_pod_stable_witness :
  exec_target "ns" (Ok destination) "web" (Ok [pod_b; pod_a]) 0 = Ok pod_a ∧ exec_target "ns" (Ok destination) "web" (Ok [pod_a; pod_b]) 0 = Ok pod_a.
Proof.
  destruct (shell_pod_stable "ns" (Ok destination) "web" [pod_b; pod_a] [pod_a; pod_b] 0 (Permutation_swap _ _ _) pods_named) as [E _].
  split; [reflexivity|]. rewrite <- E. reflexivity.
Defined.
