(* ===== verification/Pconfig.v ===== *)
(** * The store of accounts and certificates

    [tools/pconfig]: the interface [Storage] and its two implementations, in
    memory ([memory/memory.go]) and in a database of nested buckets
    ([bbolt/bbolt.go]).  An operation is a request with an answer; the interface
    is what both promise, a map from addresses to keys and certificates. *)
From Stdlib Require Import Ascii String.
From S2P Require Import Prelude GoStrings Json LeaseBook.

Open Scope string_scope.
Open Scope go_scope.

(** ** Keys and certificates *)

(** [math/big]'s [Bytes]: the absolute value, the high byte first. *)
Fixpoint be_bytes (fuel : nat) (n : N) (acc : string) : string :=
  match fuel with
  | O => acc
  | S fuel => if (n =? 0)%N then acc else be_bytes fuel (n / 256) (String (byte_of (n mod 256)) acc)
  end.
Definition big_Bytes (z : Z) : string := be_bytes (S (N.to_nat (N.size (Z.abs_N z)))) (Z.abs_N z) EmptyString.

(** A public key of an account: its kind and bytes. *)
Record PubKey := MkPubKey { pk_Type : string; pk_Bytes : string }.
Definition secp256k1 : string := "secp256k1".
#[export] Instance PubKey_eq_dec : EqDecision PubKey.
Proof. solve_decision. Defined.

(** Certificates, their keys and their encodings, from the standard library. *)
Class Pki := {
  Certificate : Type;
  SerialNumber : Certificate → Z;
  cert_Raw : Certificate → string;
  CertKey : Type;
  is_ecdsa : CertKey → bool;
  pem_Encode : string → string;
  pem_Decode : string → option string;
  ParseCertificate : string → result string Certificate;
  MarshalPKIXPublicKey : CertKey → result string string;
  ParsePKIXPublicKey : string → result string CertKey
}.
Class PkiLaws `{Pki} : Prop := {
  pem_law : ∀ raw, pem_Decode (pem_Encode raw) = Some raw;
  cert_law : ∀ c, ParseCertificate (cert_Raw c) = Ok c;
  pkix_law : ∀ k raw, MarshalPKIXPublicKey k = Ok raw → ParsePKIXPublicKey raw = Ok k
}.

(** The text of an address. *)
Class AddressText := { Address_String : string → string; Address_String_inj : Inj (=) (=) Address_String }.
#[export] Existing Instance Address_String_inj.

(** ** Requests and answers *)

Inductive store_error :=
| ErrInvalidArgs | ErrAccountNotExists | ErrAccountExists | ErrCertificateNotExists | ErrCertificateExists
| ErrDBClosed | ErrUninitialized | ErrPEM | ErrInvalidPubKeyType | ErrLibrary (msg : string).

(** The empty text is the empty address; [None] is nil. *)
Inductive store_op `{Pki} :=
| AddAccount (address : string) (pubkey : option PubKey)
| DelAccount (address : string)
| GetAccountPublicKey (address : string)
| AddAccountCertificate (address : string) (cert : option Certificate) (pubkey : option CertKey)
| DelAccountCertificate (address : string) (serial : option Z)
| GetAccountCertificate (address : string) (serial : option Z)
| GetAllCertificates
| SetOrdersNextKey (nextkey : string)
| GetOrdersNextKey
| CloseStore.

Inductive store_answer `{Pki} :=
| ADone | AError (e : store_error) | AKey (k : PubKey) | ACert (c : Certificate) (k : CertKey) | ACerts (l : list Certificate) | ABytes (b : string).

(** What a store is to its clients. *)
Class Storage `{Pki} (T : Type) := { store_new : T; store_step : T → store_op → T * store_answer }.

Fixpoint store_run `{Storage T} (s : T) (ops : list store_op) : T * list store_answer :=
  match ops with
  | [] => (s, [])
  | o :: ops => let '(s, a) := store_step s o in let '(s, l) := store_run s ops in (s, a :: l)
  end.

(** ** The promise *)

Section spec.
Context `{Pki}.

Record book := MkBook { bk_accounts : gmap string (PubKey * gmap Z (Certificate * CertKey)); bk_nextkey : string }.

Definition all_certs (m : gmap string (PubKey * gmap Z (Certificate * CertKey))) : list Certificate :=
  (map_to_list m).*2 ≫= λ acc, fst <$> (map_to_list acc.2).*2.

Definition spec_step (s : book) (o : store_op) : book * store_answer :=
  let with_accounts m := MkBook m (bk_nextkey s) in
  let check (b : bool) (r : book * store_answer) := if b then (s, AError ErrInvalidArgs) else r in
  match o with
  | AddAccount a k =>
      check (a =? "") (match k with
        | None => (s, AError ErrInvalidArgs)
        | Some k => match bk_accounts s !! a with
                    | Some _ => (s, AError ErrAccountExists)
                    | None => (with_accounts (<[a := (k, ∅)]> (bk_accounts s)), ADone)
                    end
        end)
  | DelAccount a =>
      check (a =? "") (match bk_accounts s !! a with
        | None => (s, AError ErrAccountNotExists)
        | Some _ => (with_accounts (delete a (bk_accounts s)), ADone)
        end)
  | GetAccountPublicKey a =>
      check (a =? "") (match bk_accounts s !! a with None => (s, AError ErrAccountNotExists) | Some (k, _) => (s, AKey k) end)
  | AddAccountCertificate a c k =>
      check (a =? "") (match c, k with
        | Some c, Some k =>
            match bk_accounts s !! a with
            | None => (s, AError ErrAccountNotExists)
            | Some (pk, certs) =>
                match certs !! SerialNumber c with
                | Some _ => (s, AError ErrCertificateExists)
                | None => (with_accounts (<[a := (pk, <[SerialNumber c := (c, k)]> certs)]> (bk_accounts s)), ADone)
                end
            end
        | _, _ => (s, AError ErrInvalidArgs)
        end)
  | DelAccountCertificate a serial =>
      check (a =? "") (match serial with
        | None => (s, AError ErrInvalidArgs)
        | Some n =>
            match bk_accounts s !! a with
            | None => (s, AError ErrAccountNotExists)
            | Some (pk, certs) =>
                match certs !! n with
                | None => (s, AError ErrCertificateNotExists)
                | Some _ => (with_accounts (<[a := (pk, delete n certs)]> (bk_accounts s)), ADone)
                end
            end
        end)
  | GetAccountCertificate a serial =>
      check (a =? "") (match serial with
        | None => (s, AError ErrInvalidArgs)
        | Some n =>
            match bk_accounts s !! a with
            | None => (s, AError ErrAccountNotExists)
            | Some (_, certs) => match certs !! n with None => (s, AError ErrCertificateNotExists) | Some (c, k) => (s, ACert c k) end
            end
        end)
  | GetAllCertificates => (s, ACerts (all_certs (bk_accounts s)))
  | SetOrdersNextKey k => (MkBook (bk_accounts s) k, ADone)
  | GetOrdersNextKey => (s, ABytes (bk_nextkey s))
  | CloseStore => (s, ADone)
  end.

#[export] Instance spec_store : Storage book := {| store_new := MkBook ∅ ""; store_step := spec_step |}.

End spec.

(** ** In memory *)

Section memory.
Context `{Pki} `{AddressText} `{MapOrder}.

Record certificate := MkCert { ct_cert : Certificate; ct_pubkey : CertKey }.
Record account := MkAccount { ac_pubkey : PubKey; ac_certs : gmap string certificate }.
Record memory := MkMemory { me_closed : bool; me_accounts : gmap string account; me_nextkey : string }.

Definition NewMemory : memory := MkMemory false ∅ "".
Definition set_accounts (m : gmap string account) (i : memory) : memory := MkMemory (me_closed i) m (me_nextkey i).

Definition mem_AddAccount (address : string) (pubkey : option PubKey) (i : memory) : memory * store_answer :=
  match pubkey with
  | Some pubkey =>
      if address =? "" then (i, AError ErrInvalidArgs)
      else match me_accounts i !! Address_String address with
           | Some _ => (i, AError ErrAccountExists)
           | None => (set_accounts (<[Address_String address := MkAccount pubkey ∅]> (me_accounts i)) i, ADone)
           end
  | None => (i, AError ErrInvalidArgs)
  end.

Definition mem_DelAccount (address : string) (i : memory) : memory * store_answer :=
  if address =? "" then (i, AError ErrInvalidArgs)
  else match me_accounts i !! Address_String address with
       | None => (i, AError ErrAccountNotExists)
       | Some _ => (set_accounts (delete (Address_String address) (me_accounts i)) i, ADone)
       end.

Definition mem_GetAllCertificates (i : memory) : list Certificate :=
  map_order _ (map_to_list (me_accounts i)).*2 ≫= λ acc, ct_cert <$> map_order _ (map_to_list (ac_certs acc)).*2.

Definition mem_GetAccountPublicKey (address : string) (i : memory) : store_answer :=
  if address =? "" then AError ErrInvalidArgs
  else match me_accounts i !! Address_String address with None => AError ErrAccountNotExists | Some acc => AKey (ac_pubkey acc) end.

Definition mem_GetAccountCertificate (address : string) (serial : option Z) (i : memory) : store_answer :=
  match serial with
  | Some serial =>
      if address =? "" then AError ErrInvalidArgs
      else match me_accounts i !! Address_String address with
           | None => AError ErrAccountNotExists
           | Some acc => match ac_certs acc !! ItoaZ serial with None => AError ErrCertificateNotExists | Some c => ACert (ct_cert c) (ct_pubkey c) end
           end
  | None => AError ErrInvalidArgs
  end.

Definition mem_AddAccountCertificate (address : string) (cert : option Certificate) (pubkey : option CertKey) (i : memory) : memory * store_answer :=
  match cert, pubkey with
  | Some cert, Some pubkey =>
      if address =? "" then (i, AError ErrInvalidArgs)
      else match me_accounts i !! Address_String address with
           | None => (i, AError ErrAccountNotExists)
           | Some acc =>
               match ac_certs acc !! ItoaZ (SerialNumber cert) with
               | Some _ => (i, AError ErrCertificateExists)
               | None => (set_accounts (<[Address_String address := MkAccount (ac_pubkey acc) (<[ItoaZ (SerialNumber cert) := MkCert cert pubkey]> (ac_certs acc))]>
                            (me_accounts i)) i, ADone)
               end
           end
  | _, _ => (i, AError ErrInvalidArgs)
  end.

(** A certificate that is not there is deleted without an error. *)
Definition mem_DelAccountCertificate (address : string) (serial : option Z) (i : memory) : memory * store_answer :=
  match serial with
  | Some serial =>
      if address =? "" then (i, AError ErrInvalidArgs)
      else match me_accounts i !! Address_String address with
           | None => (i, AError ErrAccountNotExists)
           | Some acc => (set_accounts (<[Address_String address := MkAccount (ac_pubkey acc) (delete (ItoaZ serial) (ac_certs acc))]> (me_accounts i)) i, ADone)
           end
  | None => (i, AError ErrInvalidArgs)
  end.

Definition mem_Close (i : memory) : memory := MkMemory true (me_accounts i) (me_nextkey i).
Definition mem_SetOrdersNextKey (nextkey : string) (i : memory) : memory := MkMemory (me_closed i) (me_accounts i) nextkey.
Definition mem_GetOrdersNextKey (i : memory) : string := me_nextkey i.

#[export] Instance memory_store : Storage memory := {|
  store_new := NewMemory;
  store_step i o := match o with
    | AddAccount a k => mem_AddAccount a k i
    | DelAccount a => mem_DelAccount a i
    | GetAccountPublicKey a => (i, mem_GetAccountPublicKey a i)
    | AddAccountCertificate a c k => mem_AddAccountCertificate a c k i
    | DelAccountCertificate a n => mem_DelAccountCertificate a n i
    | GetAccountCertificate a n => (i, mem_GetAccountCertificate a n i)
    | GetAllCertificates => (i, ACerts (mem_GetAllCertificates i))
    | SetOrdersNextKey k => (mem_SetOrdersNextKey k i, ADone)
    | GetOrdersNextKey => (i, ABytes (mem_GetOrdersNextKey i))
    | CloseStore => (mem_Close i, ADone)
    end |}.

End memory.

(** ** In a database *)

Section bbolt.
Context `{Pki}.

(** The tree of buckets; the names of buckets and keys are fixed but for those of
    accounts, which are bytes of addresses, and of certificates, which are bytes
    of serial numbers.  A bucket or a value that is not there is [None]. *)
Record cert_bucket := MkCertBucket { cb_certificate : option string; cb_pubkey : option string }.
Record account_bucket := MkAccountBucket { ab_pubkey : option string; ab_certificates : option (gmap string cert_bucket) }.
Record buckets := MkBuckets { bu_accounts : option (gmap string account_bucket); bu_bidengine : option (option string) }.
Record bolt := MkBolt { bo_db : buckets; bo_closed : bool }.

(** [CreateBucket] refuses an empty name and one that is taken;
    [CreateBucketIfNotExists] the first. *)
Inductive bucket_error := ErrBucketExists | ErrBucketNotFound | ErrBucketNameRequired.
Definition CreateBucket {A} (name : string) (b : A) (m : gmap string A) : result bucket_error (gmap string A) :=
  if name =? "" then Err ErrBucketNameRequired
  else match m !! name with Some _ => Err ErrBucketExists | None => Ok (<[name := b]> m) end.
Definition DeleteBucket {A} (name : string) (m : gmap string A) : result bucket_error (gmap string A) :=
  match m !! name with None => Err ErrBucketNotFound | Some _ => Ok (delete name m) end.
Definition bucket_error_text (e : bucket_error) : string :=
  match e with ErrBucketExists => "bucket already exists" | ErrBucketNotFound => "bucket not found" | ErrBucketNameRequired => "bucket name required" end.
Definition errDatabaseNotOpen : store_error := ErrLibrary "database not open".

(** [Update] commits what a transaction leaves when it has no error; both it and
    [View] fail on a closed database. *)
Definition Update (b : bolt) (f : buckets → result store_error buckets) : bolt * store_answer :=
  if bo_closed b then (b, AError errDatabaseNotOpen)
  else match f (bo_db b) with Err e => (b, AError e) | Ok db => (MkBolt db (bo_closed b), ADone) end.
Definition View (b : bolt) (f : buckets → result store_error store_answer) : store_answer :=
  if bo_closed b then AError errDatabaseNotOpen else match f (bo_db b) with Err e => AError e | Ok a => a end.

Definition need {A} (e : store_error) (o : option A) : result store_error A := match o with Some x => Ok x | None => Err e end.
Definition put_accounts (m : gmap string account_bucket) (db : buckets) : buckets := MkBuckets (Some m) (bu_bidengine db).

Definition NewBBolt (db : buckets) : bolt :=
  MkBolt (MkBuckets (Some (default ∅ (bu_accounts db))) (Some (default None (bu_bidengine db)))) false.

Definition bolt_AddAccount (acc : string) (pubkey : option PubKey) (b : bolt) : bolt * store_answer :=
  if bo_closed b then (b, AError ErrDBClosed)
  else match pubkey with
       | Some pubkey =>
           if acc =? "" then (b, AError ErrInvalidArgs)
           else Update b (λ db,
             let* accounts := need ErrUninitialized (bu_accounts db) in
             match CreateBucket acc (MkAccountBucket (Some (pk_Bytes pubkey)) None) accounts with
             | Err ErrBucketExists => Err ErrAccountExists
             | Err e => Err (ErrLibrary (bucket_error_text e))
             | Ok accounts => Ok (put_accounts accounts db)
             end)
       | None => (b, AError ErrInvalidArgs)
       end.

(** The error of a bucket that is not there is not the one that is looked
    for. *)
Definition bolt_DelAccount (acc : string) (b : bolt) : bolt * store_answer :=
  if acc =? "" then (b, AError ErrInvalidArgs)
  else Update b (λ db,
    let* accounts := need ErrUninitialized (bu_accounts db) in
    match DeleteBucket acc accounts with
    | Err ErrBucketExists => Err ErrAccountNotExists
    | Err e => Err (ErrLibrary (bucket_error_text e))
    | Ok accounts => Ok (put_accounts accounts db)
    end).

Definition bolt_GetAccountPublicKey (acc : string) (b : bolt) : store_answer :=
  if acc =? "" then AError ErrInvalidArgs
  else View b (λ db,
    let* accounts := need ErrUninitialized (bu_accounts db) in
    let* account := need ErrAccountNotExists (accounts !! acc) in
    Ok (AKey (MkPubKey secp256k1 (default "" (ab_pubkey account))))).

Definition bolt_AddAccountCertificate (acc : string) (cert : option Certificate) (pubkey : option CertKey) (b : bolt) : bolt * store_answer :=
  match cert, pubkey with
  | Some cert, Some pubkey =>
      if acc =? "" then (b, AError ErrInvalidArgs)
      else Update b (λ db,
        let* accounts := need ErrUninitialized (bu_accounts db) in
        let* account := need ErrAccountNotExists (accounts !! acc) in
        let certs := default ∅ (ab_certificates account) in
        match CreateBucket (big_Bytes (SerialNumber cert)) (MkCertBucket None None) certs with
        | Err ErrBucketExists => Err ErrCertificateExists
        | Err e => Err (ErrLibrary (bucket_error_text e))
        | Ok certs =>
            match MarshalPKIXPublicKey pubkey with
            | Err e => Err (ErrLibrary (e +:+ ": failed extracting public key"))
            | Ok pk =>
                let certs := <[big_Bytes (SerialNumber cert) := MkCertBucket (Some (pem_Encode (cert_Raw cert))) (Some pk)]> certs in
                Ok (put_accounts (<[acc := MkAccountBucket (ab_pubkey account) (Some certs)]> accounts) db)
            end
        end)
  | _, _ => (b, AError ErrInvalidArgs)
  end.

Definition bolt_DelAccountCertificate (acc : string) (serial : option Z) (b : bolt) : bolt * store_answer :=
  match serial with
  | Some serial =>
      if acc =? "" then (b, AError ErrInvalidArgs)
      else Update b (λ db,
        let* accounts := need ErrUninitialized (bu_accounts db) in
        let* account := need ErrAccountNotExists (accounts !! acc) in
        let* certs := need ErrCertificateNotExists (ab_certificates account) in
        match DeleteBucket (big_Bytes serial) certs with
        | Err ErrBucketNotFound => Err ErrCertificateNotExists
        | Err e => Err (ErrLibrary (bucket_error_text e))
        | Ok certs => Ok (put_accounts (<[acc := MkAccountBucket (ab_pubkey account) (Some certs)]> accounts) db)
        end)
  | None => (b, AError ErrInvalidArgs)
  end.

Definition read_cert (c : cert_bucket) : result store_error Certificate :=
  let* raw := need ErrPEM (pem_Decode (default "" (cb_certificate c))) in
  match ParseCertificate raw with Err e => Err (ErrLibrary e) | Ok cert => Ok cert end.

Definition bolt_GetAccountCertificate (acc : string) (serial : option Z) (b : bolt) : store_answer :=
  match serial with
  | Some serial =>
      if acc =? "" then AError ErrInvalidArgs
      else View b (λ db,
        let* accounts := need ErrUninitialized (bu_accounts db) in
        let* account := need ErrAccountNotExists (accounts !! acc) in
        let* certs := need ErrCertificateNotExists (ab_certificates account) in
        let* certBucket := need ErrCertificateNotExists (certs !! big_Bytes serial) in
        let* cert := read_cert certBucket in
        match ParsePKIXPublicKey (default "" (cb_pubkey certBucket)) with
        | Err e => Err (ErrLibrary e)
        | Ok pk => if is_ecdsa pk then Ok (ACert cert pk) else Err ErrInvalidPubKeyType
        end)
  | None => AError ErrInvalidArgs
  end.

(** The buckets of a bucket, in the order of their names. *)
Fixpoint insert_named {A} (x : string * A) (l : list (string * A)) : list (string * A) :=
  match l with [] => [x] | y :: l' => if string_le x.1 y.1 then x :: l else y :: insert_named x l' end.
Definition ForEachBucket {A} (m : gmap string A) : list A := (foldr insert_named [] (map_to_list m)).*2.

Fixpoint read_certs (l : list cert_bucket) : result store_error (list Certificate) :=
  match l with
  | [] => Ok []
  | c :: l => let* cert := read_cert c in let* rest := read_certs l in Ok (cert :: rest)
  end.
Definition bolt_GetAllCertificates (b : bolt) : store_answer :=
  View b (λ db,
    let* accounts := need ErrUninitialized (bu_accounts db) in
    let* certs := read_certs (ForEachBucket accounts ≫= λ account, ForEachBucket (default ∅ (ab_certificates account))) in
    Ok (ACerts certs)).

Definition bolt_SetOrdersNextKey (nextkey : string) (b : bolt) : bolt * store_answer :=
  if bo_closed b then (b, AError ErrDBClosed)
  else Update b (λ db, let* _ := need ErrUninitialized (bu_bidengine db) in Ok (MkBuckets (bu_accounts db) (Some (Some nextkey)))).
Definition bolt_GetOrdersNextKey (b : bolt) : store_answer :=
  View b (λ db, let* bidengine := need ErrUninitialized (bu_bidengine db) in Ok (ABytes (default "" bidengine))).
Definition bolt_Close (b : bolt) : bolt := MkBolt (bo_db b) true.

#[export] Instance bolt_store : Storage bolt := {|
  store_new := NewBBolt (MkBuckets None None);
  store_step b o := match o with
    | AddAccount a k => bolt_AddAccount a k b
    | DelAccount a => bolt_DelAccount a b
    | GetAccountPublicKey a => (b, bolt_GetAccountPublicKey a b)
    | AddAccountCertificate a c k => bolt_AddAccountCertificate a c k b
    | DelAccountCertificate a n => bolt_DelAccountCertificate a n b
    | GetAccountCertificate a n => (b, bolt_GetAccountCertificate a n b)
    | GetAllCertificates => (b, bolt_GetAllCertificates b)
    | SetOrdersNextKey k => bolt_SetOrdersNextKey k b
    | GetOrdersNextKey => (b, bolt_GetOrdersNextKey b)
    | CloseStore => (bolt_Close b, ADone)
    end |}.

End bbolt.
