(* ===== verification/PconfigSound.v ===== *)
(** * Two stores, one promise

    The store in memory and the store in a database refine the same map, and so
    answer alike. *)
From Stdlib Require Import Ascii String.
From S2P Require Import Prelude GoStrings Json LeaseBook Pconfig.

Open Scope string_scope.
Open Scope go_scope.

(** ** Bytes of numbers *)

Fixpoint be_value (s : string) (n : N) : N := match s with EmptyString => n | String c s => be_value s (n * 256 + code c)%N end.

Lemma be_value_be_bytes fuel n acc : (n < 256 ^ N.of_nat fuel)%N → be_value (be_bytes fuel n acc) 0 = be_value acc n.
Proof.
  revert n acc. induction fuel as [|fuel IH]; intros n acc Hn; cbn [be_bytes]; [change (256 ^ N.of_nat 0)%N with 1%N in Hn; by replace n with 0%N by lia|].
  destruct (N.eqb_spec n 0) as [->|Hne]; [done|]. rewrite IH.
  - cbn [be_value]. rewrite code_byte_of by (by apply N.mod_lt). f_equal. pose proof (N.div_mod' n 256). lia.
  - apply N.Div0.div_lt_upper_bound. replace (N.of_nat (S fuel)) with (1 + N.of_nat fuel)%N in Hn by lia. rewrite N.pow_add_r in Hn. lia.
Qed.

Lemma big_Bytes_value z : be_value (big_Bytes z) 0 = Z.abs_N z.
Proof.
  unfold big_Bytes. rewrite be_value_be_bytes; [done|]. eapply N.lt_le_trans; [apply N.size_gt|].
  transitivity (2 ^ N.of_nat (S (N.to_nat (N.size (Z.abs_N z)))))%N; [apply N.pow_le_mono_r; lia|by apply N.pow_le_mono_l].
Qed.

#[export] Instance big_Bytes_pos_inj : Inj (=) (=) (λ p, big_Bytes (Zpos p)).
Proof. intros p q E. apply (f_equal (λ s, be_value s 0)) in E. rewrite !big_Bytes_value in E. cbn in E. by injection E. Qed.

Lemma big_Bytes_pos_nonempty p : big_Bytes (Zpos p) =? "" = false.
Proof.
  destruct (String.eqb_spec (big_Bytes (Zpos p)) "") as [E|]; [|done].
  apply (f_equal (λ s, be_value s 0)) in E. rewrite big_Bytes_value in E. done.
Qed.

Lemma Itoa_no_minus n s : Itoa n ≠ String "-" s.
Proof. intros E. pose proof (Itoa_digits n) as Hd. rewrite E in Hd. done. Qed.

#[export] Instance ItoaZ_inj : Inj (=) (=) ItoaZ.
Proof.
  intros x y. unfold ItoaZ. destruct (Z.ltb_spec x 0), (Z.ltb_spec y 0).
  - intros [= E%Itoa_inj]. lia.
  - intros E. by apply symmetry, Itoa_no_minus in E.
  - intros E. by apply Itoa_no_minus in E.
  - intros E%Itoa_inj. lia.
Qed.

(** ** Refinement *)

Section refinement.
Context `{Pki}.

(** Answers are the same up to the order of a list. *)
Inductive same_answer : store_answer → store_answer → Prop :=
| same_eq a : same_answer a a
| same_certs l l' : l ≡ₚ l' → same_answer (ACerts l) (ACerts l').

(** A store refines the map on the requests that are [ok]. *)
Class Refines (T : Type) `{!Storage T} (ok : store_op → book → Prop) := {
  refines_rel : book → T → Prop;
  refines_new : refines_rel store_new store_new;
  refines_step : ∀ s t o, refines_rel s t → ok o s →
    refines_rel (store_step s o).1 (store_step t o).1 ∧ same_answer (store_step s o).2 (store_step t o).2
}.

Fixpoint all_ok (ok : store_op → book → Prop) (s : book) (ops : list store_op) : Prop :=
  match ops with [] => True | o :: ops => ok o s ∧ all_ok ok (store_step s o).1 ops end.

Lemma refines_run `{!Storage T} (ok : store_op → book → Prop) `{!Refines T ok} ops :
  all_ok ok store_new ops → Forall2 same_answer (store_run (T := book) store_new ops).2 (store_run (T := T) store_new ops).2.
Proof.
  assert (∀ (s : book) (t : T), refines_rel s t → all_ok ok s ops → Forall2 same_answer (store_run s ops).2 (store_run t ops).2) as Hgen; [|apply Hgen, refines_new].
  induction ops as [|o ops IH]; intros s t Hr Hok; cbn [store_run]; [constructor|]. destruct Hok as [Ho Hok].
  pose proof (refines_step s t o Hr Ho) as [Hr' Ha]. specialize (IH _ _ Hr' Hok).
  destruct (store_step s o) as [s1 a1], (store_step t o) as [t1 b1]. cbn in *.
  destruct (store_run s1 ops), (store_run t1 ops). cbn in *. by constructor.
Qed.

End refinement.

Lemma bind_perm {A B} (f g : A → list B) l l' : l ≡ₚ l' → (∀ x, f x ≡ₚ g x) → l ≫= f ≡ₚ l' ≫= g.
Proof.
  intros Hl Hfg. rewrite Hl. clear Hl. induction l' as [|x l' IH]; cbn; [done|]. by rewrite Hfg, IH.
Qed.

Lemma fmap_of_bind {A B C} (f : B → C) (g : A → list B) l : f <$> (l ≫= g) = l ≫= λ x, f <$> g x.
Proof. induction l as [|x l IH]; cbn; [done|]. by rewrite fmap_app, <- IH. Qed.

Lemma kmap_values `{Countable K1, Countable K2} {A B} (f : K1 → K2) `{!Inj (=) (=) f} (g : A → B) (m : gmap K1 A) :
  (map_to_list (kmap f (g <$> m) : gmap K2 B)).*2 ≡ₚ g <$> (map_to_list m).*2.
Proof.
  rewrite map_to_list_kmap, map_to_list_fmap, <- !list_fmap_compose by apply _. done.
Qed.

(** *** In memory *)

Section memory.
Context `{Pki} `{AddressText} `{MapOrder}.

Definition mem_cert (p : Certificate * CertKey) : certificate := MkCert p.1 p.2.
Definition mem_account (p : PubKey * gmap Z (Certificate * CertKey)) : account := MkAccount p.1 (kmap ItoaZ (mem_cert <$> p.2)).
Definition mem_rel (s : book) (m : memory) : Prop :=
  me_accounts m = kmap Address_String (mem_account <$> bk_accounts s) ∧ me_nextkey m = bk_nextkey s.

(** Deleting a certificate that is not there is answered otherwise. *)
Definition mem_ok (o : store_op) (s : book) : Prop :=
  match o with DelAccountCertificate _ _ => (spec_step s o).2 ≠ AError ErrCertificateNotExists | _ => True end.

Lemma mem_lookup s m a : mem_rel s m → me_accounts m !! Address_String a = mem_account <$> bk_accounts s !! a.
Proof. intros [-> _]. by rewrite lookup_kmap, lookup_fmap by apply _. Qed.

Lemma mem_set s m acc : mem_rel s m → mem_rel (MkBook acc (bk_nextkey s)) (set_accounts (kmap Address_String (mem_account <$> acc)) m).
Proof. intros [_ E]. by split. Qed.

Lemma mem_insert s m a x : mem_rel s m →
  mem_rel (MkBook (<[a := x]> (bk_accounts s)) (bk_nextkey s)) (set_accounts (<[Address_String a := mem_account x]> (me_accounts m)) m).
Proof. intros Hr. rewrite (proj1 Hr), <- kmap_insert, <- fmap_insert by apply _. by apply mem_set. Qed.

Lemma mem_certs_lookup certs n : (kmap ItoaZ (mem_cert <$> certs) : gmap string certificate) !! ItoaZ n = mem_cert <$> (certs : gmap Z _) !! n.
Proof. by rewrite lookup_kmap, lookup_fmap by apply _. Qed.

Lemma mem_all s m : mem_rel s m → all_certs (bk_accounts s) ≡ₚ mem_GetAllCertificates m.
Proof.
  intros [E _]. unfold all_certs, mem_GetAllCertificates. rewrite E, map_order_perm, kmap_values, (list_fmap_bind mem_account) by apply _.
  apply bind_perm; [done|]. intros [k certs]. cbn. rewrite map_order_perm, kmap_values, <- !list_fmap_compose by apply _. done.
Qed.

#[export] Instance memory_refines : Refines memory mem_ok.
Proof.
  refine {| refines_rel := mem_rel |}; [done|]. intros s m o Hr Hok. cbn [store_step spec_store memory_store].
  destruct o as [a k|a|a|a c k|a n|a n| |k| |]; cbn [spec_step].
  - unfold mem_AddAccount. destruct k as [k|]; [|destruct (a =? ""); by split; [|constructor]].
    destruct (a =? ""); [by split; [|constructor]|]. rewrite (mem_lookup s m a Hr).
    destruct (bk_accounts s !! a); cbn [fmap option_fmap option_map]; [by split; [|constructor]|]. split; [|constructor].
    replace (MkAccount k ∅) with (mem_account (k, ∅)) by (unfold mem_account; cbn; by rewrite fmap_empty, kmap_empty).
    apply (mem_insert s m a (k, ∅) Hr).
  - unfold mem_DelAccount. destruct (a =? ""); [by split; [|constructor]|]. rewrite (mem_lookup s m a Hr).
    destruct (bk_accounts s !! a); cbn [fmap option_fmap option_map]; [|by split; [|constructor]]. split; [|constructor].
    rewrite (proj1 Hr), <- kmap_delete, <- fmap_delete by apply _. by apply mem_set.
  - unfold mem_GetAccountPublicKey. destruct (a =? ""); [by split; [|constructor]|]. rewrite (mem_lookup s m a Hr).
    destruct (bk_accounts s !! a) as [[pk certs]|]; by split; [|constructor].
  - unfold mem_AddAccountCertificate. destruct c as [c|], k as [k|]; try (destruct (a =? ""); by split; [|constructor]).
    destruct (a =? ""); [by split; [|constructor]|]. rewrite (mem_lookup s m a Hr).
    destruct (bk_accounts s !! a) as [[pk certs]|]; cbn [fmap option_fmap option_map mem_account ac_certs ac_pubkey fst snd]; [|by split; [|constructor]].
    rewrite mem_certs_lookup. destruct (certs !! SerialNumber c); cbn [fmap option_fmap option_map]; [by split; [|constructor]|].
    split; [|constructor]. change (MkCert c k) with (mem_cert (c, k)). rewrite <- kmap_insert, <- fmap_insert by apply _.
    exact (mem_insert s m a (pk, <[SerialNumber c := (c, k)]> certs) Hr).
  - unfold mem_DelAccountCertificate. destruct n as [n|]; [|destruct (a =? ""); by split; [|constructor]].
    cbn [mem_ok spec_step] in Hok. destruct (a =? ""); [by split; [|constructor]|]. rewrite (mem_lookup s m a Hr).
    destruct (bk_accounts s !! a) as [[pk certs]|]; cbn [fmap option_fmap option_map mem_account ac_certs ac_pubkey fst snd]; [|by split; [|constructor]].
    destruct (certs !! n); [|by destruct Hok]. split; [|constructor]. rewrite <- kmap_delete, <- fmap_delete by apply _.
    exact (mem_insert s m a (pk, delete n certs) Hr).
  - unfold mem_GetAccountCertificate. destruct n as [n|]; [|destruct (a =? ""); by split; [|constructor]].
    destruct (a =? ""); [by split; [|constructor]|]. rewrite (mem_lookup s m a Hr).
    destruct (bk_accounts s !! a) as [[pk certs]|]; cbn [fmap option_fmap option_map mem_account ac_certs ac_pubkey fst snd]; [|by split; [|constructor]].
    rewrite mem_certs_lookup. destruct (certs !! n) as [[c k]|]; by split; [|constructor].
  - split; [done|]. constructor. by apply mem_all.
  - split; [|constructor]. by destruct Hr.
  - split; [done|]. cbn. unfold mem_GetOrdersNextKey. rewrite (proj2 Hr). constructor.
  - by split; [|constructor].
Qed.

End memory.

(** *** In a database *)

Lemma insert_named_perm {A} (x : string * A) l : insert_named x l ≡ₚ x :: l.
Proof. induction l as [|y l IH]; cbn; [done|]. destruct (string_le x.1 y.1); [done|]. rewrite IH. apply Permutation_swap. Qed.

Lemma ForEachBucket_perm {A} (m : gmap string A) : ForEachBucket m ≡ₚ (map_to_list m).*2.
Proof.
  unfold ForEachBucket. apply fmap_Permutation. induction (map_to_list m) as [|x l IH]; cbn [foldr]; [done|]. by rewrite insert_named_perm, IH.
Qed.

Section database.
Context `{PkiLaws}.

(** What is kept of an account: the bytes of its key and, once there was a
    certificate, the certificates by their serial numbers. *)
Notation kept := (string * option (gmap positive (Certificate * CertKey)))%type.

Definition key_raw (k : CertKey) : string := match MarshalPKIXPublicKey k with Ok raw => raw | Err _ => "" end.
Definition readable (k : CertKey) : Prop := is_ecdsa k = true ∧ MarshalPKIXPublicKey k = Ok (key_raw k).
Definition bucket_of (p : Certificate * CertKey) : cert_bucket := MkCertBucket (Some (pem_Encode (cert_Raw p.1))) (Some (key_raw p.2)).
Definition certs_of (cp : gmap positive (Certificate * CertKey)) : gmap string cert_bucket := kmap (λ p, big_Bytes (Zpos p)) (bucket_of <$> cp).
Definition promised (x : kept) : PubKey * gmap Z (Certificate * CertKey) := (MkPubKey secp256k1 x.1, kmap Zpos (default ∅ x.2)).
Definition stored (x : kept) : account_bucket := MkAccountBucket (Some x.1) (certs_of <$> x.2).
Definition all_readable (x : kept) : Prop := map_Forall (λ _ p, readable p.2) (default ∅ x.2).

Definition bolt_rel (s : book) (b : bolt) : Prop :=
  ∃ M : gmap string kept, bk_accounts s = promised <$> M ∧ map_Forall (λ _ x, all_readable x) M
    ∧ bo_closed b = false ∧ bu_accounts (bo_db b) = Some (stored <$> M)
    ∧ ∃ o, bu_bidengine (bo_db b) = Some o ∧ default "" o = bk_nextkey s.

(** The requests both stores answer alike. *)
Definition bolt_ok (o : store_op) (s : book) : Prop :=
  match o with
  | AddAccount _ (Some k) => pk_Type k = secp256k1
  | DelAccount _ => (spec_step s o).2 ≠ AError ErrAccountNotExists
  | AddAccountCertificate _ (Some c) (Some k) => (0 < SerialNumber c)%Z ∧ readable k
  | DelAccountCertificate _ (Some n) | GetAccountCertificate _ (Some n) => (0 < n)%Z
  | CloseStore => False
  | _ => True
  end.

Lemma certs_of_lookup cp p : certs_of cp !! big_Bytes (Zpos p) = bucket_of <$> cp !! p.
Proof. unfold certs_of. by rewrite (lookup_kmap (λ p, big_Bytes (Zpos p))), lookup_fmap. Qed.

Lemma certs_of_insert cp p x : certs_of (<[p := x]> cp) = <[big_Bytes (Zpos p) := bucket_of x]> (certs_of cp).
Proof. unfold certs_of. by rewrite fmap_insert, (kmap_insert (λ p, big_Bytes (Zpos p))). Qed.

Lemma certs_of_delete cp p : certs_of (delete p cp) = delete (big_Bytes (Zpos p)) (certs_of cp).
Proof. unfold certs_of. by rewrite fmap_delete, (kmap_delete (λ p, big_Bytes (Zpos p))). Qed.

Lemma read_bucket c k : read_cert (bucket_of (c, k)) = Ok c.
Proof. unfold read_cert, bucket_of. cbn. by rewrite pem_law; cbn; rewrite cert_law. Qed.

Lemma read_certs_fmap l : read_certs (bucket_of <$> l) = Ok l.*1.
Proof. induction l as [|[c k] l IH]; [done|]. change (bucket_of <$> ?x :: ?l) with (bucket_of x :: (bucket_of <$> l)). cbn [read_certs]. rewrite read_bucket. cbn. by rewrite IH. Qed.

Lemma bolt_certs s b : bolt_rel s b → ∃ l, bolt_GetAllCertificates b = ACerts l ∧ all_certs (bk_accounts s) ≡ₚ l.
Proof.
  intros (M & Es & Hr & Hc & Ea & _). unfold bolt_GetAllCertificates, View. rewrite Hc, Ea. cbn [need].
  set (L := (map_to_list M).*2 ≫= λ x, (map_to_list (default ∅ x.2)).*2).
  assert ((ForEachBucket (stored <$> M) ≫= λ account, ForEachBucket (default ∅ (ab_certificates account))) ≡ₚ bucket_of <$> L) as HL.
  { rewrite ForEachBucket_perm, map_to_list_fmap, <- list_fmap_compose. unfold L.
    rewrite fmap_of_bind. replace (snd ∘ prod_map id stored) with (stored ∘ snd : string * kept → _) by done.
    rewrite list_fmap_compose, list_fmap_bind. apply bind_perm; [done|]. intros [pk o]. cbn.
    rewrite ForEachBucket_perm. destruct o as [cp|]; cbn; [|by rewrite !map_to_list_empty].
    unfold certs_of. by rewrite (kmap_values (λ p, big_Bytes (Zpos p))). }
  apply Permutation_map_inv in HL as (L' & E & HL). change (map bucket_of L') with (bucket_of <$> L') in E.
  cbn. rewrite E, read_certs_fmap. exists L'.*1. split; [done|]. rewrite <- HL. unfold all_certs, L. rewrite Es, map_to_list_fmap, <- list_fmap_compose.
  replace (snd ∘ prod_map id promised) with (promised ∘ snd : string * kept → _) by done.
  rewrite list_fmap_compose, list_fmap_bind, fmap_of_bind. apply bind_perm; [done|]. intros [pk o]. cbn.
  apply fmap_Permutation. pose proof (kmap_values Zpos id (default ∅ o)) as Hk. by rewrite map_fmap_id, list_fmap_id in Hk.
Qed.

#[local] Arguments big_Bytes : simpl never.
#[local] Arguments certs_of : simpl never.

Definition alike (s : book) (b : bolt) (o : store_op) : Prop :=
  bolt_rel (store_step s o).1 (store_step b o).1 ∧ same_answer (store_step s o).2 (store_step b o).2.

(** The account the two stores see at an address. *)
Lemma bolt_seen s b : bolt_rel s b → ∃ M : gmap string kept,
  bk_accounts s = promised <$> M ∧ bo_closed b = false ∧ bu_accounts (bo_db b) = Some (stored <$> M)
  ∧ (∀ a, bk_accounts s !! a = promised <$> M !! a) ∧ (∀ a, (stored <$> M) !! a = stored <$> M !! a)
  ∧ (∀ a x, M !! a = Some x → all_readable x)
  ∧ (∀ a x, all_readable x → bolt_rel (MkBook (promised <$> <[a := x]> M) (bk_nextkey s)) (MkBolt (put_accounts (stored <$> <[a := x]> M) (bo_db b)) false))
  ∧ (∀ a, bolt_rel (MkBook (promised <$> delete a M) (bk_nextkey s)) (MkBolt (put_accounts (stored <$> delete a M) (bo_db b)) false)).
Proof.
  intros (M & Es & Hr & Hc & Ea & o & Eo & Ek). exists M.
  assert (∀ M', map_Forall (λ _ x, all_readable x) M' →
    bolt_rel (MkBook (promised <$> M') (bk_nextkey s)) (MkBolt (put_accounts (stored <$> M') (bo_db b)) false)) as Hput.
  { intros M' HM'. exists M'. split_and!; [done..|]. exists o. by split. }
  split_and!; [done..| | | | |].
  - intros a. by rewrite Es, lookup_fmap.
  - intros a. by rewrite lookup_fmap.
  - intros a x Ex. by apply (Hr a).
  - intros a x Hx. by apply Hput, map_Forall_insert_2.
  - intros a. by apply Hput, map_Forall_delete.
Qed.

Ltac see Hrel :=
  pose proof (bolt_seen _ _ Hrel) as (M & Es & Hc & Ea & El & Eb & Hr & Hput & Hdel);
  unfold alike; cbn [store_step spec_store bolt_store spec_step].
Ltac same := by split; [|constructor].

Lemma add_account_alike s b a k : bolt_rel s b → bolt_ok (AddAccount a k) s → alike s b (AddAccount a k).
Proof.
  intros Hrel Hok. see Hrel. unfold bolt_AddAccount, Update. rewrite Hc. destruct k as [k|]; [|destruct (a =? ""); same].
  destruct (a =? "") eqn:Ene; [same|]. rewrite Ea. cbn. unfold CreateBucket. rewrite Ene, El, Eb.
  destruct (M !! a) as [x|] eqn:Ex; cbn; [same|]. split; [|constructor].
  replace (k, ∅) with (promised (pk_Bytes k, None)) by (unfold promised; cbn; rewrite kmap_empty; cbn in Hok; rewrite <- Hok; by destruct k).
  change (MkAccountBucket (Some (pk_Bytes k)) None) with (stored (pk_Bytes k, None)). rewrite Es, <- !fmap_insert. by apply Hput.
Qed.

Lemma del_account_alike s b a : bolt_rel s b → bolt_ok (DelAccount a) s → alike s b (DelAccount a).
Proof.
  intros Hrel Hok. see Hrel. unfold bolt_DelAccount, Update. cbn [bolt_ok spec_step] in Hok. destruct (a =? ""); [same|].
  rewrite Hc, Ea. cbn. unfold DeleteBucket. rewrite El in *. rewrite Eb.
  destruct (M !! a) as [x|] eqn:Ex; cbn in *; [|by destruct Hok]. split; [|constructor]. rewrite Es, <- !fmap_delete. apply Hdel.
Qed.

Lemma get_key_alike s b a : bolt_rel s b → alike s b (GetAccountPublicKey a).
Proof.
  intros Hrel. see Hrel. unfold bolt_GetAccountPublicKey, View. destruct (a =? ""); [same|]. rewrite Hc, Ea. cbn. rewrite El, Eb.
  destruct (M !! a) as [x|]; cbn; same.
Qed.

Lemma add_certificate_alike s b a c k : bolt_rel s b → bolt_ok (AddAccountCertificate a c k) s → alike s b (AddAccountCertificate a c k).
Proof.
  intros Hrel Hok. see Hrel. unfold bolt_AddAccountCertificate, Update. destruct c as [c|], k as [k|]; try (destruct (a =? ""); same).
  destruct (a =? ""); [same|]. rewrite Hc, Ea. cbn. rewrite El, Eb. destruct Hok as [Hn Hk].
  destruct (M !! a) as [[pk o]|] eqn:Ex; cbn [promised stored fmap option_fmap option_map fst snd need rbind ab_certificates]; [|same].
  assert (∃ p, SerialNumber c = Zpos p) as [p Ep] by (destruct (SerialNumber c) eqn:E; [lia|by eexists|lia]).
  rewrite !Ep, (lookup_kmap Zpos). unfold CreateBucket.
  rewrite big_Bytes_pos_nonempty. replace (default ∅ (certs_of <$> o)) with (certs_of (default ∅ o)) by (destruct o; [done|]; unfold certs_of; cbn; by rewrite fmap_empty, kmap_empty).
  rewrite certs_of_lookup. destruct (default ∅ o !! p) as [x|] eqn:Ec; cbn [fmap option_fmap option_map]; [same|].
  rewrite (proj2 Hk). split; [|constructor]. cbn [ab_pubkey fst].
  rewrite insert_insert_eq. change (MkCertBucket _ _) with (bucket_of (c, k)).
  rewrite <- certs_of_insert, Es, <- (kmap_insert Zpos).
  change (MkPubKey secp256k1 pk, kmap Zpos (<[p:=(c, k)]> (default ∅ o))) with (promised (pk, Some (<[p:=(c, k)]> (default ∅ o)))).
  change (MkAccountBucket (ab_pubkey (stored (pk, o))) (Some (certs_of ?x))) with (stored (pk, Some x)). rewrite <- !fmap_insert.
  apply Hput. apply map_Forall_insert_2; [done|]. by apply (Hr a _ Ex).
Qed.

Lemma pos_of n : (0 < n)%Z → ∃ p, n = Zpos p.
Proof. destruct n; [lia|by eexists|lia]. Qed.

Lemma del_certificate_alike s b a n : bolt_rel s b → bolt_ok (DelAccountCertificate a n) s → alike s b (DelAccountCertificate a n).
Proof.
  intros Hrel Hok. see Hrel. unfold bolt_DelAccountCertificate, Update. destruct n as [n|]; [|destruct (a =? ""); same].
  destruct (a =? ""); [same|]. rewrite Hc, Ea. cbn. rewrite El, Eb. apply pos_of in Hok as [p ->].
  destruct (M !! a) as [[pk o]|] eqn:Ex; cbn [promised stored fmap option_fmap option_map fst snd need rbind ab_certificates]; [|same].
  rewrite (lookup_kmap Zpos). destruct o as [cp|]; cbn [default fmap option_fmap option_map need rbind id]; [|same].
  unfold DeleteBucket. rewrite certs_of_lookup. destruct (cp !! p) as [x|]; cbn [fmap option_fmap option_map]; [|same].
  split; [|constructor]. rewrite <- certs_of_delete, Es, <- (kmap_delete Zpos).
  change (MkPubKey secp256k1 pk, kmap Zpos (delete p cp)) with (promised (pk, Some (delete p cp))).
  change (MkAccountBucket _ (Some (certs_of ?x))) with (stored (pk, Some x)). rewrite <- !fmap_insert.
  apply Hput, map_Forall_delete. by apply (Hr a _ Ex).
Qed.

Lemma get_certificate_alike s b a n : bolt_rel s b → bolt_ok (GetAccountCertificate a n) s → alike s b (GetAccountCertificate a n).
Proof.
  intros Hrel Hok. see Hrel. unfold bolt_GetAccountCertificate, View. destruct n as [n|]; [|destruct (a =? ""); same].
  destruct (a =? ""); [same|]. rewrite Hc, Ea. cbn. rewrite El, Eb. apply pos_of in Hok as [p ->].
  destruct (M !! a) as [[pk o]|] eqn:Ex; cbn [promised stored fmap option_fmap option_map fst snd need rbind ab_certificates]; [|same].
  rewrite (lookup_kmap Zpos). destruct o as [cp|]; cbn [default fmap option_fmap option_map need rbind id]; [|same].
  rewrite certs_of_lookup. destruct (cp !! p) as [[c k]|] eqn:Ep; cbn [fmap option_fmap option_map need rbind]; [|same].
  rewrite read_bucket. cbn [rbind bucket_of cb_pubkey snd default id].
  destruct (Hr a _ Ex p (c, k) Ep) as [Hk1 Hk2]. cbn in Hk1, Hk2. rewrite (pkix_law _ _ Hk2), Hk1. same.
Qed.

Lemma next_key_alike s b k : bolt_rel s b → alike s b (SetOrdersNextKey k) ∧ alike s b GetOrdersNextKey.
Proof.
  intros Hrel. pose proof Hrel as (M & Es & Hr & Hc & Ea & o & Eo & Ek). split; unfold alike; cbn [store_step spec_store bolt_store spec_step].
  - unfold bolt_SetOrdersNextKey, Update. rewrite Hc, Eo. cbn. split; [|constructor]. exists M. split_and!; [done..|]. by exists (Some k).
  - unfold bolt_GetOrdersNextKey, View. rewrite Hc, Eo. cbn. rewrite Ek. same.
Qed.

#[export] Instance bolt_refines : Refines bolt bolt_ok.
Proof.
  refine {| refines_rel := bolt_rel |}.
  { exists ∅. cbn. rewrite !fmap_empty. split_and!; [done|apply map_Forall_empty|done|done|]. by exists None. }
  intros s b o Hrel Hok. destruct o as [a k|a|a|a c k|a n|a n| |k| |].
  - by apply add_account_alike.
  - by apply del_account_alike.
  - by apply get_key_alike.
  - by apply add_certificate_alike.
  - by apply del_certificate_alike.
  - by apply get_certificate_alike.
  - destruct (bolt_certs s b Hrel) as (l & El & Hl). split; [done|]. cbn [store_step spec_store bolt_store spec_step snd]. rewrite El. by constructor.
  - by apply next_key_alike.
  - by apply (next_key_alike s b "").
  - done.
Qed.

End database.

(** ** The stores agree *)

Section agreement.
Context `{PkiLaws} `{AddressText} `{MapOrder}.

Lemma same_answer_via x y z : same_answer x y → same_answer x z → same_answer y z.
Proof.
  intros [a|l l' Hl]; [done|]. inversion 1; subst; [by constructor|]. constructor. by etrans.
Qed.

Lemma same_answers_via l l1 l2 : Forall2 same_answer l l1 → Forall2 same_answer l l2 → Forall2 same_answer l1 l2.
Proof.
  intros Hl. revert l2. induction Hl as [|x y l l1 Hxy _ IH]; intros l2; inversion 1; subst; constructor; [by eapply same_answer_via|by apply IH].
Qed.

(** Claim C25.  The store in memory and the store in a database give the same
    answers, up to the order of the certificates in a list, to every sequence of
    requests other than closing in which the keys of accounts are secp256k1
    keys, certificates have positive serial numbers and ECDSA keys that are read
    as they were written, and what is deleted is there; so does the map of
    accounts to keys and certificates by serial number that both implement.
    (Beyond these the stores part, see below.) *)
Theorem stores_agree ops :
  all_ok (λ o s, mem_ok o s ∧ bolt_ok o s) store_new ops →
  let promise := (store_run (store_new : book) ops).2 in
  Forall2 same_answer promise (store_run (store_new : memory) ops).2
  ∧ Forall2 same_answer promise (store_run (store_new : bolt) ops).2
  ∧ Forall2 same_answer (store_run (store_new : memory) ops).2 (store_run (store_new : bolt) ops).2.
Proof.
  intros Hok promise.
  assert (all_ok mem_ok store_new ops ∧ all_ok bolt_ok store_new ops) as [Hm Hb].
  { revert Hok. generalize (store_new : book). induction ops as [|o ops IH]; intros s; cbn; [done|]. intros [[??] ?]. naive_solver. }
  pose proof (refines_run (T := memory) mem_ok ops Hm) as HM. pose proof (refines_run (T := bolt) bolt_ok ops Hb) as HB.
  split_and!; [done..|]. by eapply same_answers_via.
Qed.

End agreement.

(** * The stores on a few requests

    A small key infrastructure, at which the agreement of the stores is
    evaluated and the requests on which they part are shown. *)

(** A certificate is its serial number, encoded by as many marks; a key is a
    name, that of an RSA key begins with r. *)
Fixpoint marks (n : nat) : string := match n with O => "" | S n => String "|" (marks n) end.
Lemma marks_length n : String.length (marks n) = n.
Proof. induction n as [|n IH]; cbn; [done|]. by rewrite IH. Qed.

#[local] Instance small_pki : Pki := {|
  Certificate := nat; SerialNumber := Z.of_nat; cert_Raw := marks;
  CertKey := string; is_ecdsa k := negb (HasPrefix k "r");
  pem_Encode raw := raw; pem_Decode := Some;
  ParseCertificate raw := Ok (String.length raw);
  MarshalPKIXPublicKey k := Ok k; ParsePKIXPublicKey raw := Ok raw
|}.
#[local] Instance small_pki_laws : PkiLaws.
Proof. split; cbn; [done| |by intros k raw [= ->]]. intros c. by rewrite marks_length. Qed.
#[local] Instance plain_address : AddressText := {| Address_String a := a; Address_String_inj _ _ E := E |}.
#[local] Existing Instance listed_order.

Definition alice_key : PubKey := MkPubKey secp256k1 "02aa".

(** Two accounts, certificates that come and go, a listing, and requests that
    are refused. *)
Definition a_day : list store_op :=
  [ AddAccount "alice" (Some alice_key); AddAccount "" (Some alice_key); AddAccount "alice" None; AddAccount "alice" (Some alice_key);
    GetAccountPublicKey "alice"; GetAccountPublicKey "bob"; AddAccount "bob" (Some (MkPubKey secp256k1 "03bb"));
    GetAccountCertificate "bob" (Some 7%Z); DelAccountCertificate "carol" (Some 7%Z);
    AddAccountCertificate "bob" (Some 7) (Some "k1"); AddAccountCertificate "bob" (Some 7) (Some "k2"); AddAccountCertificate "alice" (Some 300) (Some "k3");
    AddAccountCertificate "alice" (Some 2) (Some "k4"); GetAllCertificates; GetAccountCertificate "alice" (Some 300%Z);
    DelAccountCertificate "bob" (Some 7%Z); GetAccountCertificate "bob" (Some 7%Z); GetAllCertificates;
    GetOrdersNextKey; SetOrdersNextKey "page2"; GetOrdersNextKey; DelAccount "alice"; GetAllCertificates ].

Lemma stores_agree_witness :
  let promise := (store_run (store_new : book) a_day).2 in
  Forall2 same_answer promise (store_run (store_new : memory) a_day).2
  ∧ Forall2 same_answer promise (store_run (store_new : bolt) a_day).2
  ∧ Forall2 same_answer (store_run (store_new : memory) a_day).2 (store_run (store_new : bolt) a_day).2.
Proof.
  apply (stores_agree a_day). vm_compute. repeat (split; [split; try (discriminate || done); try (split; [reflexivity|split; reflexivity])|]). exact I.
Defined.

(** ** Where they part *)

Notation answers T ops := (store_run (store_new : T) ops).2.

(** Deleting an account that is not there: the database store looks for the wrong
    error and hands on the library's. *)
Example missing_account_error :
  answers memory [DelAccount "bob"] = [AError ErrAccountNotExists]
  ∧ answers bolt [DelAccount "bob"] = [AError (ErrLibrary "bucket not found")].
Proof. by split; vm_compute. Qed.

(** Deleting a certificate that is not there: the memory store says it is
    done. *)
Example missing_certificate_deleted :
  answers memory [AddAccount "bob" (Some alice_key); DelAccountCertificate "bob" (Some 7%Z)] = [ADone; ADone]
  ∧ answers bolt [AddAccount "bob" (Some alice_key); DelAccountCertificate "bob" (Some 7%Z)] = [ADone; AError ErrCertificateNotExists].
Proof. by split; vm_compute. Qed.

(** The database store takes a certificate with a key it will not give back. *)
Example unreadable_certificate :
  answers bolt [AddAccount "bob" (Some alice_key); AddAccountCertificate "bob" (Some 7) (Some "rsa"); GetAccountCertificate "bob" (Some 7%Z)]
  = [ADone; ADone; AError ErrInvalidPubKeyType].
Proof. by vm_compute. Qed.

(** A key of another type comes back as a secp256k1 key. *)
Example key_type_lost :
  answers bolt [AddAccount "bob" (Some (MkPubKey "ed25519" "aa")); GetAccountPublicKey "bob"] = [ADone; AKey (MkPubKey secp256k1 "aa")].
Proof. by vm_compute. Qed.

(** The bytes of a serial number have no sign, and those of zero are none. *)
Example serial_sign_lost :
  answers bolt [AddAccount "bob" (Some alice_key); AddAccountCertificate "bob" (Some 7) (Some "k"); GetAccountCertificate "bob" (Some (-7)%Z); AddAccountCertificate "bob" (Some 0) (Some "k")]
  = [ADone; ADone; ACert (7 : Certificate) ("k" : CertKey); AError (ErrLibrary "bucket name required")].
Proof. by vm_compute. Qed.
