(* ===== verification/Sha512.v ===== *)
(** * Go's crypto/sha512

    SHA-512 (FIPS 180-4) over byte strings, executable, with 64-bit words as
    [N] reduced modulo 2^64.  [Ch], [Maj] and the state are those of SHA-256,
    with words of twice the width. *)

From S2P Require Import Prelude GoStrings Sha256.
From Stdlib Require Import Ascii String.
Local Open Scope N_scope.

Definition w64 (n : N) : N := N.land n 18446744073709551615.
Definition rotr64 (k x : N) : N := w64 (N.lor (N.shiftr x k) (N.shiftl x (64 - k))).
Definition Ch64 (x y z : N) : N := N.lxor (N.land x y) (N.land (N.lxor x 18446744073709551615) z).
Definition xor3 (x y z : N) : N := N.lxor (N.lxor x y) z.
Definition Sigma0_512 (x : N) : N := xor3 (rotr64 28 x) (rotr64 34 x) (rotr64 39 x).
Definition Sigma1_512 (x : N) : N := xor3 (rotr64 14 x) (rotr64 18 x) (rotr64 41 x).
Definition sigma0_512 (x : N) : N := xor3 (rotr64 1 x) (rotr64 8 x) (N.shiftr x 7).
Definition sigma1_512 (x : N) : N := xor3 (rotr64 19 x) (rotr64 61 x) (N.shiftr x 6).

(** The first 64 bits of the fractional parts of the cube roots of the first 80
    primes, and of the square roots of the first 8. *)
Definition primes_80 : list N := Eval vm_compute in List.filter is_prime (map N.of_nat (seq 2 408)).
Definition cube_root_wide (n : N) : N :=
  foldl (λ r k, let r' := r + 2 ^ N.of_nat k in if r' * r' * r' <=? n then r' else r) 0 (reverse (seq 0 70)).
Definition K512 : list N := Eval vm_compute in map (λ p, w64 (cube_root_wide (p * 2 ^ 192))) primes_80.
Definition H0_512 : hstate :=
  Eval vm_compute in
  match map (λ p, w64 (N.sqrt (p * 2 ^ 128))) (take 8 primes_80) with
  | [a; b; c; d; e; f; g; h] => HS a b c d e f g h
  | _ => HS 0 0 0 0 0 0 0 0
  end.

Fixpoint pair_words (l : list N) : list N :=
  match l with a :: b :: l => (a * 4294967296 + b) :: pair_words l | _ => [] end.
Definition be64 (n : N) : string := be32 (n / 4294967296 mod 4294967296) +:+ be32 (n mod 4294967296).

(** A one bit, zeros, and the bit length in 128 bits. *)
Definition pad_512 (s : string) : string :=
  let l := strlen s in
  let z := N.to_nat ((239 - l mod 128) mod 128) in
  s +:+ String (byte_of 128) (zeros z) +:+ be64 (l * 8 / 18446744073709551616) +:+ be64 (l * 8 mod 18446744073709551616).

Fixpoint schedule_512 (n : nat) (w : list N) : list N :=
  match n with
  | O => w
  | S n =>
      let at_ i := nth i w 0 in
      schedule_512 n (w64 (sigma1_512 (at_ 1%nat) + at_ 6%nat + sigma0_512 (at_ 14%nat) + at_ 15%nat) :: w)
  end.

Definition round_512 (h : hstate) (kw : N * N) : hstate :=
  let t1 := w64 (hh h + Sigma1_512 (he h) + Ch64 (he h) (hf h) (hg h) + kw.1 + kw.2) in
  let t2 := w64 (Sigma0_512 (ha h) + Maj (ha h) (hb h) (hc h)) in
  HS (w64 (t1 + t2)) (ha h) (hb h) (hc h) (w64 (hd h + t1)) (he h) (hf h) (hg h).

Definition compress_512 (h : hstate) (block : list N) : hstate :=
  let r := foldl round_512 h (zip K512 (reverse (schedule_512 64 (reverse block)))) in
  HS (w64 (ha h + ha r)) (w64 (hb h + hb r)) (w64 (hc h + hc r)) (w64 (hd h + hd r))
     (w64 (he h + he r)) (w64 (hf h + hf r)) (w64 (hg h + hg r)) (w64 (hh h + hh r)).

Fixpoint blocks_512 (n : nat) (h : hstate) (ws : list N) : hstate :=
  match n with
  | O => h
  | S n => match ws with [] => h | _ => blocks_512 n (compress_512 h (take 16 ws)) (drop 16 ws) end
  end.

Definition sha512 (s : string) : string :=
  let ws := pair_words (be_words (pad_512 s)) in
  let h := blocks_512 (List.length ws) H0_512 ws in
  be64 (ha h) +:+ be64 (hb h) +:+ be64 (hc h) +:+ be64 (hd h) +:+
  be64 (he h) +:+ be64 (hf h) +:+ be64 (hg h) +:+ be64 (hh h).

Lemma sha512_length s : String.length (sha512 s) = 64%nat.
Proof. done. Qed.

Example sha512_abc :
  hex_EncodeToString (sha512 "abc")
  = "ddaf35a193617abacc417349ae20413112e6fa4e89a97ea20a9eeee64b55d39a2192992a274fc1a836ba3c23a3feebbd454d4423643ce80e2a9ac94fa54ca49f".
Proof. vm_compute. reflexivity. Qed.

Example sha512_two_blocks :
  hex_EncodeToString (sha512 "abcdefghbcdefghicdefghijdefghijkefghijklfghijklmghijklmnhijklmnoijklmnopjklmnopqklmnopqrlmnopqrsmnopqrstnopqrstu")
  = "8e959b75dae313da8cf4f72814fc143f8f7779c6eb9f7fa17299aeadb6889018501d289e4900f7e4331b99dec4b5433ac7d329eeb6dd26545e96e55b874be909".
Proof. vm_compute. reflexivity. Qed.
