(* ===== verification/Webhook.v ===== *)
(** * The attestation sidecar of a pod

    [cluster/kube/webhook]: which pods of the cluster are given the sidecar, the
    patch that adds it, the answer to an admission request; and
    [sidecar/attestation/server.go], what the sidecar answers. *)
From Stdlib Require Import Ascii String.
From S2P Require Import Prelude GoStrings World LeaseBook ChainTypes ClusterTypes LeaseNames CrdManifest HostRoutes KubeDeclare KubeObjects Workload Gateway.

Open Scope string_scope.
Open Scope go_scope.

Definition sidecarContainerName : string := "akash-attestation-sidecar".
Definition sidecarPort : Z := 8790.
Definition tsmVolumeName : string := "tsm-reports".
Definition sevGuestVolumeName : string := "sev-guest".

(** ** Pods *)

(** The sidecar's container; [sc_Mounts]: volumes and paths. *)
Record SidecarContainer := MkSidecar {
  sc_Name : string; sc_Image : string; sc_ImagePullPolicy : string; sc_Command : list string; sc_Ports : list (string * Z * string);
  sc_Privileged : bool; sc_RunAsUser : Z; sc_Resources : ResourceRequirements; sc_Env : list (string * string); sc_Mounts : list (string * string) }.

(** A pod has containers of its workload and others. *)
Inductive pod_container := Primary (c : Container) | Sidecar (c : SidecarContainer).
Inductive pod_volume := InMemory (v : RamVolume) | EmptyDir (name : string).
Definition pc_Name (c : pod_container) : string := match c with Primary c => c_Name c | Sidecar c => sc_Name c end.
Definition pc_Resources (c : pod_container) : ResourceRequirements := match c with Primary c => c_Resources c | Sidecar c => sc_Resources c end.

Record pod := MkPod { po_Labels : label_map; po_Annotations : label_map; po_RuntimeClassName : option string;
  po_Containers : list pod_container; po_Volumes : list pod_volume }.

(** The pod of a template. *)
Definition template_pod (t : PodTemplate) : pod :=
  MkPod (pt_Labels t) (pt_Annotations t) (ps_RuntimeClassName (pt_Spec t)) (Primary <$> ps_Containers (pt_Spec t)) (InMemory <$> ps_Volumes (pt_Spec t)).

(** ** The patch *)

Definition ShouldInject (p : pod) : bool :=
  if negb (vars_get (po_Labels p) AkashManagedLabelName =? "true") then false
  else match po_RuntimeClassName p with
       | None => false
       | Some rc =>
           if negb (RuntimeClass_Is rc [WithCC]) then false
           else if vars_get (po_Annotations p) AkashAttestationDisabledAnnotation =? "true" then false
           else negb (existsb (λ c, pc_Name c =? sidecarContainerName) (po_Containers p))
       end.

Definition isMockMode (extraEnv : list (string * string)) : bool :=
  existsb (λ '(name, value), (name =? "ATTESTATION_MOCK") && (value =? "true")) extraEnv.

Definition sidecarResources (isGPU : bool) : ResourceRequirements :=
  let memRequest := if isGPU then SidecarGPUMemoryRequestBytes else SidecarMemoryRequestBytes in
  let memLimit := if isGPU then SidecarGPUMemoryLimitBytes else SidecarMemoryLimitBytes in
  MkRequirements {[ResourceCPU := SidecarCPULimitMillicores; ResourceMemory := whole memLimit]}
    {[ResourceCPU := SidecarCPURequestMillicores; ResourceMemory := whole memRequest]}.

Definition buildSidecarContainer (image : string) (isGPU : bool) (extraEnv : list (string * string)) : SidecarContainer :=
  MkSidecar sidecarContainerName image "IfNotPresent" ["/attestation-sidecar"] [("attestation", sidecarPort, "TCP")] true 0 (sidecarResources isGPU)
    ((("ATTESTATION_LISTEN_ADDR", ":" +:+ ItoaZ sidecarPort) :: extraEnv)
     ++ (if isGPU then [("NVIDIA_VISIBLE_DEVICES", "all"); ("NVIDIA_DRIVER_CAPABILITIES", "utility")] else []))
    (if isMockMode extraEnv
     then (tsmVolumeName, "/var/run/mock-tee/tsm-report") :: (if isGPU then [] else [(sevGuestVolumeName, "/var/run/mock-tee/sev-guest")])
     else []).

Definition buildSidecarVolumes (isGPU mockMode : bool) : list pod_volume :=
  if mockMode then EmptyDir tsmVolumeName :: (if isGPU then [] else [EmptyDir sevGuestVolumeName]) else [].

Inductive patch_value := VContainers (l : list pod_container) | VContainer (c : pod_container) | VVolumes (l : list pod_volume) | VVolume (v : pod_volume).
Record jsonPatch := MkPatch { jp_Op : string; jp_Path : string; jp_Value : patch_value }.

Definition BuildSidecarPatch (p : pod) (sidecarImage : string) (extraEnv : list (string * string)) : result string (list jsonPatch) :=
  if sidecarImage =? "" then Err "attestation sidecar image not configured"
  else
    let runtimeClass := default "" (po_RuntimeClassName p) in
    let isGPU := RuntimeClass_Is runtimeClass [WithGPU] in
    let container := Sidecar (buildSidecarContainer sidecarImage isGPU extraEnv) in
    let volumes := buildSidecarVolumes isGPU (isMockMode extraEnv) in
    Ok ((match po_Containers p with
         | [] => [MkPatch "add" "/spec/containers" (VContainers [container])]
         | _ => [MkPatch "add" "/spec/containers/-" (VContainer container)]
         end)
        ++ (match volumes, po_Volumes p with
            | [], _ => []
            | _, [] => [MkPatch "add" "/spec/volumes" (VVolumes volumes)]
            | _, _ => (λ v, MkPatch "add" "/spec/volumes/-" (VVolume v)) <$> volumes
            end))%list.

(** What the API server does with a patch (RFC 6902): [add] sets a member, or
    appends to an array that is there; the array of volumes of a pod without
    volumes is not, nor is that of its containers. *)
Definition apply_patch (p : pod) (q : jsonPatch) : option pod :=
  let set_containers l := MkPod (po_Labels p) (po_Annotations p) (po_RuntimeClassName p) l (po_Volumes p) in
  let set_volumes l := MkPod (po_Labels p) (po_Annotations p) (po_RuntimeClassName p) (po_Containers p) l in
  if negb (jp_Op q =? "add") then None
  else match jp_Value q with
       | VContainers l => if jp_Path q =? "/spec/containers" then Some (set_containers l) else None
       | VContainer c =>
           if (jp_Path q =? "/spec/containers/-") && negb (Nat.eqb (List.length (po_Containers p)) 0)
           then Some (set_containers (po_Containers p ++ [c])%list) else None
       | VVolumes l => if jp_Path q =? "/spec/volumes" then Some (set_volumes l) else None
       | VVolume v =>
           if (jp_Path q =? "/spec/volumes/-") && negb (Nat.eqb (List.length (po_Volumes p)) 0)
           then Some (set_volumes (po_Volumes p ++ [v])%list) else None
       end.
Fixpoint apply_patches (p : pod) (l : list jsonPatch) : option pod :=
  match l with [] => Some p | q :: l => p ← apply_patch p q; apply_patches p l end.

(** ** Admission *)

Record webhook_config := MkWebhookConfig { wc_SidecarImage : string; wc_SidecarEnv : list (string * string) }.
Record AdmissionResponse := MkAdmission { ar_Allowed : bool; ar_Message : string; ar_Patch : option (list jsonPatch) }.

(** [raw]: the pod of the request, or the error of its JSON. *)
Definition mutate (cfg : webhook_config) (req : option (result string pod)) : AdmissionResponse :=
  match req with
  | None => MkAdmission true "" None
  | Some (Err e) => MkAdmission false ("failed to unmarshal pod: " +:+ e) None
  | Some (Ok p) =>
      if negb (ShouldInject p) then MkAdmission true "" None
      else match BuildSidecarPatch p (wc_SidecarImage cfg) (wc_SidecarEnv cfg) with
           | Err e => MkAdmission false ("failed to build attestation sidecar patch: " +:+ e) None
           | Ok patch => MkAdmission true "" (Some patch)
           end
  end.

(** [review]: an error of reading, an empty body or the decoded review, whose
    request may be missing and has an id. *)
Definition handleMutate (cfg : webhook_config) (body : result string (option (result string (option (string * result string pod)))))
  : result (Z * string) (string * AdmissionResponse) :=
  match body with
  | Err _ => Err (StatusBadRequest, "failed to read body")
  | Ok None => Err (StatusBadRequest, "empty body")
  | Ok (Some (Err e)) => Err (StatusBadRequest, "decode error: " +:+ e)
  | Ok (Some (Ok None)) => Err (StatusBadRequest, "missing request in admission review")
  | Ok (Some (Ok (Some (uid, raw)))) => Ok (uid, mutate cfg (Some raw))
  end.

(** What the API server, which fails closed, makes of a pod: the patched pod, or
    none. *)
Definition admission (cfg : webhook_config) (p : pod) : option pod :=
  match handleMutate cfg (Ok (Some (Ok (Some ("uid", Ok p))))) with
  | Err _ => None
  | Ok (_, r) => if ar_Allowed r then match ar_Patch r with None => Some p | Some l => apply_patches p l end else None
  end.

(** ** Registration *)

Definition webhookName : string := "attestation-sidecar-injector.akash.network".
Definition webhookConfigName : string := "akash-attestation-sidecar-injector".

(** Where the API server reaches the webhook. *)
Inductive client_config := ByURL (url : string) | ByService (name namespace path : string) (port : Z).
Record webhook_registration := MkRegistration {
  wr_FailurePolicy : string; wr_SideEffects : string; wr_MatchPolicy : string; wr_TimeoutSeconds : Z; wr_ClientConfig : client_config; wr_CABundle : string;
  wr_MatchLabels : label_map; wr_Exists : list string; wr_Operations : list string; wr_Resources : list string }.

Definition registration (serviceName serviceNamespace caBundle : string) (webhookPort : Z) (webhookURL : string) : webhook_registration :=
  MkRegistration "Fail" "None" "Equivalent" 5
    (if webhookURL =? "" then ByService serviceName serviceNamespace "/mutate" webhookPort else ByURL (webhookURL +:+ "/mutate")) caBundle
    {[AkashManagedLabelName := "true"]} ["akash.network/namespace"] ["CREATE"] ["pods"].

(** [get]: the resource version of what is registered. *)
Inductive registration_call := CreateRegistration (r : webhook_registration) | UpdateRegistration (version : string) (r : webhook_registration).
Definition RegisterWebhookConfiguration (r : webhook_registration) (get : result kerror string) (put : option kerror) : list registration_call * option string :=
  let report what := match put with None => None | Some _ => Some (what +:+ " MutatingWebhookConfiguration") end in
  match get with
  | Err NotFound => ([CreateRegistration r], report "create")
  | Err _ => ([], Some "get MutatingWebhookConfiguration")
  | Ok version => ([UpdateRegistration version r], report "update")
  end.

(** Whether a pod of a namespace is sent to the webhook when it is created. *)
Definition intercepts (r : webhook_registration) (namespace_labels : label_map) : bool :=
  bool_decide (map_Forall (λ k v, namespace_labels !! k = Some v) (wr_MatchLabels r))
  && forallb (λ k, bool_decide (is_Some (namespace_labels !! k))) (wr_Exists r)
  && existsb (String.eqb "CREATE") (wr_Operations r) && existsb (String.eqb "pods") (wr_Resources r).
