(* ===== verification/WebhookSound.v ===== *)
(** * Attested pods

    A confidential pod of a lease runs beside its sidecar, within what its
    tenant pays for, or not at all. *)
From Stdlib Require Import Ascii String.
From S2P Require Import Prelude GoStrings World LeaseBook ChainTypes ClusterTypes LeaseNames CrdManifest HostRoutes MetalLb KubeDeclare ManifestManager KubeObjects.
From S2P Require Import Workload WorkloadSound Gateway Webhook IpOperatorSample InventorySample KubeSample.

Open Scope string_scope.
Open Scope go_scope.

(** The confidential runtime classes. *)
Definition confidential (rc : string) : Prop :=
  rc ∈ [RuntimeClassKataQemuSNP; RuntimeClassKataQemuNvidiaGPUSNP; RuntimeClassKataQemuTDX; RuntimeClassKataQemuNvidiaGPUTDX].

(** A pod that is to be given a sidecar. *)
Definition needs_sidecar (p : pod) : Prop :=
  po_Labels p !! AkashManagedLabelName = Some "true"
  ∧ (∃ rc, po_RuntimeClassName p = Some rc ∧ confidential rc)
  ∧ po_Annotations p !! AkashAttestationDisabledAnnotation ≠ Some "true"
  ∧ ∀ c, c ∈ po_Containers p → pc_Name c ≠ sidecarContainerName.

Lemma vars_get_true m k : (vars_get m k =? "true") = true ↔ m !! k = Some "true".
Proof. unfold vars_get. rewrite String.eqb_eq. destruct (m !! k); cbn; naive_solver. Qed.

Lemma confidential_iff rc : RuntimeClass_Is rc [WithCC] = true ↔ confidential rc.
Proof.
  unfold RuntimeClass_Is, confidential. rewrite !elem_of_cons, elem_of_nil. split.
  - destruct (runtimeClassAttrs !! rc) as [f|] eqn:E; [|done]. intros _. unfold runtimeClassAttrs in E.
    repeat (rewrite lookup_insert_Some in E; destruct E as [[<- _]|[_ E]]; [tauto|]). rewrite lookup_singleton_Some in E. destruct E as [<- _]. tauto.
  - by intros [->|[->|[->|[->|[]]]]].
Qed.

Lemma ShouldInject_iff p : ShouldInject p = true ↔ needs_sidecar p.
Proof.
  unfold ShouldInject, needs_sidecar. pose proof (vars_get_true (po_Labels p) AkashManagedLabelName) as Hl.
  pose proof (vars_get_true (po_Annotations p) AkashAttestationDisabledAnnotation) as Ha.
  destruct (vars_get (po_Labels p) AkashManagedLabelName =? "true"); cbn [negb]; [|naive_solver].
  destruct (po_RuntimeClassName p) as [rc|]; [|naive_solver]. pose proof (confidential_iff rc) as Hc.
  destruct (RuntimeClass_Is rc [WithCC]); cbn [negb]; [|naive_solver].
  destruct (vars_get (po_Annotations p) AkashAttestationDisabledAnnotation =? "true"); [naive_solver|].
  rewrite negb_true_iff. split.
  - intros E. split_and!; [naive_solver..|]. intros c Hin En. rewrite <- not_true_iff_false in E. destruct E. apply existsb_exists. exists c.
    split; [by apply list_elem_of_In|]. by apply String.eqb_eq.
  - intros (_ & _ & _ & Hno). apply not_true_iff_false. rewrite existsb_exists. intros (c & Hin%list_elem_of_In & E%String.eqb_eq). by apply (Hno c).
Qed.

(** The sidecar a pod is given, and the pod with it. *)
Definition sidecar_of (cfg : webhook_config) (p : pod) : SidecarContainer :=
  buildSidecarContainer (wc_SidecarImage cfg) (RuntimeClass_Is (default "" (po_RuntimeClassName p)) [WithGPU]) (wc_SidecarEnv cfg).
Definition with_sidecar (cfg : webhook_config) (p : pod) : pod :=
  MkPod (po_Labels p) (po_Annotations p) (po_RuntimeClassName p) (po_Containers p ++ [Sidecar (sidecar_of cfg p)])
    (po_Volumes p ++ buildSidecarVolumes (RuntimeClass_Is (default "" (po_RuntimeClassName p)) [WithGPU]) (isMockMode (wc_SidecarEnv cfg))).

Lemma add_volumes l lab ann rc cs vs : vs ≠ [] →
  apply_patches (MkPod lab ann rc cs vs) ((λ v, MkPatch "add" "/spec/volumes/-" (VVolume v)) <$> l) = Some (MkPod lab ann rc cs (vs ++ l)%list).
Proof.
  revert vs. induction l as [|v l IH]; intros vs Hne; cbn [fmap list_fmap apply_patches]; [by rewrite app_nil_r|].
  assert (apply_patch (MkPod lab ann rc cs vs) (MkPatch "add" "/spec/volumes/-" (VVolume v)) = Some (MkPod lab ann rc cs (vs ++ [v])%list)) as -> by (by destruct vs).
  cbn [mbind option_bind]. change (list_fmap _ _ ?f l) with (f <$> l). rewrite IH by (by destruct vs). by rewrite <- app_assoc.
Qed.

Lemma apply_patches_app p l l' : apply_patches p (l ++ l')%list = p' ← apply_patches p l; apply_patches p' l'.
Proof. revert p. induction l as [|q l IH]; intros p; cbn [app apply_patches]; [done|]. destruct (apply_patch p q); [apply IH|done]. Qed.

Lemma patched cfg p : wc_SidecarImage cfg ≠ "" →
  ∃ l, BuildSidecarPatch p (wc_SidecarImage cfg) (wc_SidecarEnv cfg) = Ok l ∧ apply_patches p l = Some (with_sidecar cfg p).
Proof.
  intros Himg. unfold BuildSidecarPatch. rewrite (proj2 (String.eqb_neq _ _) Himg). eexists. split; [done|].
  rewrite apply_patches_app. destruct p as [lab ann rc cs vs]. unfold with_sidecar, sidecar_of. cbn [po_Labels po_Annotations po_RuntimeClassName po_Containers po_Volumes].
  set (s := Sidecar _). set (vols := buildSidecarVolumes _ _).
  replace (apply_patches (MkPod lab ann rc cs vs) _) with (Some (MkPod lab ann rc (cs ++ [s])%list vs)) by (by destruct cs). cbn [mbind option_bind].
  destruct vols as [|v l]; [by rewrite app_nil_r|]. destruct vs as [|x vs]; [done|]. by rewrite add_volumes.
Qed.

Lemma admit_unchanged cfg p : ShouldInject p = false → admission cfg p = Some p.
Proof. intros E. unfold admission, handleMutate, mutate. by rewrite E. Qed.

Lemma with_sidecar_settled cfg p : ShouldInject (with_sidecar cfg p) = false.
Proof.
  apply not_true_iff_false. rewrite ShouldInject_iff. intros (_ & _ & _ & Hno).
  apply (Hno (Sidecar (sidecar_of cfg p))); [|done]. cbn. rewrite elem_of_app, list_elem_of_singleton. by right.
Qed.

Lemma admit_injected cfg p : needs_sidecar p →
  admission cfg p = if wc_SidecarImage cfg =? "" then None else Some (with_sidecar cfg p).
Proof.
  intros Hp%ShouldInject_iff. unfold admission, handleMutate, mutate. rewrite Hp. cbn [negb].
  destruct (String.eqb_spec (wc_SidecarImage cfg) "") as [->|Hne]; [done|].
  destruct (patched cfg p Hne) as (l & -> & El). done.
Qed.

(** Claim C20.  Take a confidential pod of the provider that has not opted out
    and has no container of the sidecar's name: it is refused, when no image is
    configured, or it is created with the sidecar of that image as its last
    container and is otherwise unchanged but for the volumes of a mocked
    sidecar.  Every other pod is created as it is: one that is not confidential,
    has opted out, or has a container of the sidecar's name, as one that has
    been through the webhook before has (but also one that only uses the
    name). *)
Theorem attested_or_refused cfg p :
  (needs_sidecar p → admission cfg p = None ∧ wc_SidecarImage cfg = ""
     ∨ ∃ p' s, admission cfg p = Some p' ∧ admission cfg p' = Some p'
         ∧ po_Containers p' = (po_Containers p ++ [Sidecar s])%list ∧ sc_Name s = sidecarContainerName ∧ sc_Image s = wc_SidecarImage cfg
         ∧ po_Labels p' = po_Labels p ∧ po_Annotations p' = po_Annotations p ∧ po_RuntimeClassName p' = po_RuntimeClassName p
         ∧ (isMockMode (wc_SidecarEnv cfg) = false → po_Volumes p' = po_Volumes p))
  ∧ (¬ needs_sidecar p → admission cfg p = Some p).
Proof.
  split.
  - intros Hp. rewrite (admit_injected cfg p Hp). destruct (String.eqb_spec (wc_SidecarImage cfg) ""); [by left|right].
    exists (with_sidecar cfg p), (sidecar_of cfg p). split_and!; try done; [by apply admit_unchanged, with_sidecar_settled|].
    intros Hm. unfold with_sidecar. cbn. rewrite Hm. apply app_nil_r.
  - rewrite <- ShouldInject_iff. intros Hp. apply admit_unchanged. by apply not_true_iff_false.
Qed.

(** ** Pods of leases *)

Section lease.
Context `{GoUnicode} `{Cosmos} `{Protocols} `{!KubeProtocols} `{!ManifestSdk} `{KubeSdk} `{ChainSdk} `{!KubeSdkLaws}.

(** The pod of a workload, whatever its template was before. *)
Definition workload_pod (w : Workload) (current : label_map) (spec : PodSpec) : pod :=
  template_pod (MkTemplate (podLabels w current) (podAnnotations w) spec).

Lemma workload_managed w current : podLabels w current !! AkashManagedLabelName = Some "true".
Proof.
  unfold podLabels, workload_labels, builder_labels. repeat case_match; rewrite ?lookup_insert_ne by done; rewrite lookup_delete_ne by done; by repeat (rewrite lookup_insert_ne by done); rewrite lookup_insert_eq.
Qed.

Lemma workload_opted_out w p : w_params w = Some p →
  podAnnotations w !! AkashAttestationDisabledAnnotation = Some "true" ↔ sp_AttestationDisabled p = true.
Proof.
  intros Ew. unfold podAnnotations. rewrite Ew. set (obj := if sp_AttestationDisabled p then _ else _).
  assert (obj !! AkashAttestationDisabledAnnotation = Some "true" ↔ sp_AttestationDisabled p = true) as Ho
    by (unfold obj; destruct (sp_AttestationDisabled p); rewrite ?lookup_singleton_eq, ?lookup_empty; done).
  repeat case_match; rewrite ?lookup_insert_ne by done; exact Ho.
Qed.

Lemma confidential_named rc : confidential rc → (negb (rc =? "") && negb (rc =? "none")) = true.
Proof. unfold confidential. rewrite !elem_of_cons, elem_of_nil. by intros [->|[->|[->|[->|[]]]]]. Qed.

(** The container of a workload has the name of its service. *)
Lemma pod_spec_inv w nonroot spec : pod_spec w nonroot = Ret spec →
  ∃ c, container w = Ret c ∧ ps_Containers spec = [c] ∧ c_Name c = svc_Name (w_service w) ∧ ps_RuntimeClassName spec = runtimeClass w.
Proof.
  unfold pod_spec. rewrite obind_ret. intros (c & Hc & E). rewrite obind_ret in E. destruct E as (vs & _ & [= <-]). exists c. split_and!; try done.
  unfold container in Hc. rewrite obind_ret in Hc. by destruct Hc as (r & _ & [= <-]).
Qed.

Lemma workload_needs w current nonroot spec : pod_spec w nonroot = Ret spec → svc_Name (w_service w) ≠ sidecarContainerName →
  needs_sidecar (workload_pod w current spec) ↔ sidecar_enabled (w_params w) = true.
Proof.
  intros Hspec Hname. destruct (pod_spec_inv w nonroot spec Hspec) as (c & _ & Ec & En & Er).
  unfold needs_sidecar, workload_pod, template_pod. cbn [po_Labels po_Annotations po_RuntimeClassName po_Containers pt_Labels pt_Annotations pt_Spec].
  rewrite workload_managed, Ec, Er. unfold runtimeClass, sidecar_enabled. destruct (w_params w) as [p|] eqn:Ew; [|naive_solver].
  rewrite (workload_opted_out w p Ew), andb_true_iff, confidential_iff, negb_true_iff, <- not_true_iff_false. split.
  - intros (_ & (rc & Erc & Hrc) & Hd & _). case_match; [|done]. injection Erc as ->. done.
  - intros [Hrc Hd]. split_and!; [done| |done|].
    + exists (sp_RuntimeClass p). by rewrite confidential_named.
    + intros x [y [-> Hy%list_elem_of_singleton]]%list_elem_of_fmap. cbn. by subst y; rewrite En.
Qed.

(** The limits of all containers of a pod together. *)
Definition total_limit (p : pod) (name : string) : Z := foldr (λ c n, (default 0%Z (rq_Limits (pc_Resources c) !! name) + n)%Z) 0%Z (po_Containers p).

Definition has_sidecar (p : pod) : Prop := ∃ s, Sidecar s ∈ po_Containers p ∧ sc_Name s = sidecarContainerName.

Lemma ns_intercepted d service namespace ca port url : intercepts (registration service namespace ca port url) (rs_Labels (ns_Create d)) = true.
Proof.
  unfold intercepts, registration. cbn [wr_MatchLabels wr_Exists wr_Operations wr_Resources forallb]. by rewrite !andb_true_iff.
Qed.

(** The parts of the sidecar in the limits are those the builder leaves it. *)
Lemma sidecar_limits cfg w current nonroot spec : pod_spec w nonroot = Ret spec → sidecar_enabled (w_params w) = true →
  let r := sc_Resources (sidecar_of cfg (workload_pod w current spec)) in
  rq_Limits r !! ResourceMemory = Some (whole (sidecar_memory w)) ∧ rq_Limits r !! ResourceCPU = Some (sidecar_cpu w).
Proof.
  intros Hspec He. destruct (pod_spec_inv w nonroot spec Hspec) as (c & _ & _ & _ & Er). unfold sidecar_of, workload_pod, template_pod, sidecar_memory, sidecar_cpu.
  cbn [po_RuntimeClassName pt_Spec]. rewrite He, Er. unfold runtimeClass. unfold sidecar_enabled in He. destruct (w_params w) as [p|]; [|done].
  apply andb_true_iff in He as [Hc%confidential_iff _]. rewrite (confidential_named _ Hc). cbn [default id].
  by destruct (RuntimeClass_Is (sp_RuntimeClass p) [WithGPU]).
Qed.

(** Claim C19.  Every pod of a lease is sent to the webhook, is created where an
    image of the sidecar is configured, and runs beside
    the sidecar exactly when its service (of another name than the sidecar)
    asked for a confidential machine and did not opt out.  Its containers
    together are limited to exactly the memory, with the volumes in RAM, and the CPU
    that the service pays for; only a confidential service that pays for less
    than the sidecar and the minimum of its own container is given these
    two. *)
Theorem attested_pod_fits w cfg current nonroot spec mem cpu reg_service reg_namespace ca port url
  (Hspec : pod_spec w nonroot = Ret spec)
  (Hquantities : quantities_ok (svc_Resources (w_service w)))
  (Hname : svc_Name (w_service w) ≠ sidecarContainerName)
  (Himage : wc_SidecarImage cfg ≠ "")
  (Hmem : res_Memory (svc_Resources (w_service w)) = Some mem) (Hcpu : res_CPU (svc_Resources (w_service w)) = Some cpu)
  (Hfabric : ∀ ic, sparamsInterconnect (w_params w) = Some ic → si_ResourceName ic ≠ ResourceCPU) :
  intercepts (registration reg_service reg_namespace ca port url) (rs_Labels (ns_Create (w_deployment w))) = true
  ∧ ∃ p, admission cfg (workload_pod w current spec) = Some p
      ∧ (has_sidecar p ↔ sidecar_enabled (w_params w) = true)
      ∧ (let paid_memory := (mem_Quantity mem + ram_total (res_Storage (svc_Resources (w_service w))))%Z in
         let confidential := sidecar_enabled (w_params w) in
         total_limit p ResourceMemory = whole (if confidential then Z.max paid_memory (MinPrimaryMemoryBytes + sidecar_memory w) else paid_memory)
         ∧ total_limit p ResourceCPU = if confidential then Z.max (cpu_Units cpu) (MinPrimaryCPUMillicores + SidecarCPULimitMillicores) else cpu_Units cpu).
Proof.
  split; [by apply ns_intercepted|]. destruct (pod_spec_inv w nonroot spec Hspec) as (c & Hc & Ec & En & _).
  destruct (container_limits w c Hquantities Hc) as (_ & Lmem & Lcpu). specialize (Lmem mem Hmem). specialize (Lcpu cpu Hcpu Hfabric).
  pose proof Hquantities as (_ & _ & _ & Hst & _). pose proof (ram_total_nonneg _ Hst) as Hram.
  pose proof (workload_needs w current nonroot spec Hspec Hname) as Hneeds. cbv zeta.
  pose proof Hquantities as (Hqc & _ & Hqm & _). specialize (Hqc cpu Hcpu). destruct (Hqm mem Hmem) as [Hqm' _].
  destruct (sidecar_enabled (w_params w)) eqn:He.
  - exists (with_sidecar cfg (workload_pod w current spec)). rewrite admit_injected by naive_solver. rewrite (proj2 (String.eqb_neq _ _) Himage).
    destruct (sidecar_limits cfg w current nonroot spec Hspec He) as [Sm Sc]. split_and!; [done| | |].
    + split; [done|]. intros _. exists (sidecar_of cfg (workload_pod w current spec)). split; [|done]. cbn. rewrite Ec. cbn. rewrite !elem_of_cons. tauto.
    + unfold total_limit. cbn [with_sidecar po_Containers]. unfold workload_pod at 1, template_pod. cbn [po_Containers pt_Spec]. rewrite Ec.
      cbn [fmap list_fmap app foldr pc_Resources]. rewrite Lmem, Sm. cbn [default id]. unfold least. rewrite He. unfold whole in *. lia.
    + unfold total_limit. cbn [with_sidecar po_Containers]. unfold workload_pod at 1, template_pod. cbn [po_Containers pt_Spec]. rewrite Ec.
      cbn [fmap list_fmap app foldr pc_Resources]. rewrite Lcpu, Sc. cbn [default id]. unfold least, sidecar_cpu. rewrite He. lia.
  - exists (workload_pod w current spec). assert (sidecar_memory w = 0 ∧ sidecar_cpu w = 0)%Z as [Em Eu] by (unfold sidecar_memory, sidecar_cpu; by rewrite He).
    split_and!.
    + apply admit_unchanged, not_true_iff_false. rewrite ShouldInject_iff. naive_solver.
    + split; [|done]. intros (s & Hs & _). unfold workload_pod, template_pod in Hs. cbn in Hs. by apply list_elem_of_fmap in Hs as (y & ? & _).
    + unfold total_limit, workload_pod, template_pod. cbn [po_Containers pt_Spec]. rewrite Ec. cbn [fmap list_fmap foldr pc_Resources]. rewrite Lmem. cbn [default id].
      unfold least. rewrite He, Em. destruct Hqm'. unfold whole in *. lia.
    + unfold total_limit, workload_pod, template_pod. cbn [po_Containers pt_Spec]. rewrite Ec. cbn [fmap list_fmap foldr pc_Resources]. rewrite Lcpu. cbn [default id].
      unfold least. rewrite He, Eu. destruct Hqc. lia.
Qed.

End lease.

(** * A confidential service

    A service on a confidential machine and its pod, and a service whose name
    keeps the sidecar away. *)

#[local] Existing Instance IpOperatorSample.protocols.
#[local] Existing Instance IpOperatorSample.kube_protocols.
#[local] Existing Instance IpOperatorSample.ascii_only.
#[local] Existing Instance PlainCosmos.plain.
#[local] Existing Instance InventorySample.Sample.sdk.
#[local] Existing Instance KubeSample.chain_sdk.
#[local] Existing Instance KubeSample.kube_sdk.
#[local] Existing Instance KubeSample.kube_sdk_laws.

Definition named (name : string) : Service :=
  MkService _ name "img" [] [] [] (MkResources 1 (Some (MkCPU 1000 [])) (Some (MkMemory (512 * megabytes) [])) [] (Some (MkGPU 0 [])) []) 1 [] None None "".
Definition workload_named (name : string) : Workload := MkWorkload settings deployment (named name) (Some KubeSample.confidential) (named name).
Definition vault : Workload := workload_named "vault".
Definition hook : webhook_config := MkWebhookConfig "registry/attestation-sidecar:v1" [].

Lemma vault_quantities : quantities_ok (svc_Resources (w_service vault)).
Proof.
  unfold quantities_ok, amount. split; [|split; [|split; [|split]]].
  - intros cpu [= <-]. cbn. lia.
  - intros gpu [= <-]. cbn. lia.
  - intros mem [= <-]. vm_compute. intuition discriminate.
  - constructor.
  - cbn. lia.
Qed.

Definition vault_spec : PodSpec := match pod_spec vault false with Ret s => s | Panic => MkPodSpec (MkAffinity [] None) None false false "" [] [] [] end.

Lemma attested_pod_fits_witness :
  ∃ p, admission hook (workload_pod vault ∅ vault_spec) = Some p ∧ has_sidecar p
    ∧ total_limit p ResourceMemory = whole (512 * megabytes) ∧ total_limit p ResourceCPU = 1000%Z.
Proof.
  destruct (attested_pod_fits vault hook ∅ false vault_spec (MkMemory (512 * megabytes) []) (MkCPU 1000 []) "provider" "akash-services" "ca" 8443 "")
    as (_ & p & Hp & Hs & Hm & Hc).
  - reflexivity.
  - exact vault_quantities.
  - discriminate.
  - discriminate.
  - reflexivity.
  - reflexivity.
  - intros ic [=].
  - exists p. split; [exact Hp|]. split; [apply Hs; reflexivity|]. split; [rewrite Hm; reflexivity|exact Hc].
Defined.

Lemma attested_or_refused_witness :
  ∃ p' s, admission hook (workload_pod vault ∅ vault_spec) = Some p' ∧ po_Containers p' = (po_Containers (workload_pod vault ∅ vault_spec) ++ [Sidecar s])%list
    ∧ sc_Image s = "registry/attestation-sidecar:v1".
Proof.
  destruct (proj1 (attested_or_refused hook (workload_pod vault ∅ vault_spec))) as [[_ [=]]|(p' & s & Hp & _ & Hc & _ & Hi & _)].
  - apply (workload_needs vault ∅ false); [reflexivity|discriminate|reflexivity].
  - exists p', s. split; [exact Hp|]. split; [exact Hc|exact Hi].
Defined.

(** A service with the name of the sidecar is taken for one that has it: its pod
    is created without, on a confidential machine, and without opting out. *)
Example name_keeps_sidecar_away :
  let w := workload_named sidecarContainerName in
  sidecar_enabled (w_params w) = true
  ∧ match pod_spec w false with Ret s => admission hook (workload_pod w ∅ s) = Some (workload_pod w ∅ s) | Panic => False end.
Proof. split; [reflexivity|]. vm_compute. reflexivity. Qed.
