(* ===== verification/Attestation.v ===== *)
(** * The attestation sidecar

    [sidecar/attestation]: the evidence a guest gives of the machine it runs in.
    Bytes are strings.  What the kernel and the helper for GPUs answer is a
    record of functions ([guest]); a slice out of range panics. *)
From Stdlib Require Import Ascii String.
From S2P Require Import Prelude GoStrings Sha256 Sha512 LeaseBook ProxyConfig HostnameOperator MetalLb Gateway.

Open Scope string_scope.
Open Scope go_scope.

(** ** Bytes *)

Definition slice (s : string) (i j : N) : outcome string :=
  if ((i <=? j) && (j <=? strlen s))%N then Ret (str_take (N.to_nat (j - i)) (str_drop (N.to_nat i) s)) else Panic.

(** [binary.LittleEndian.Uint32] of four bytes, and [PutUint32]. *)
Definition le32 (s : string) : N :=
  match s with
  | String a (String b (String c (String d _))) => (code a + 256 * (code b + 256 * (code c + 256 * code d)))%N
  | _ => 0%N
  end.
Definition put32 (n : N) : string :=
  String (byte_of (n mod 256)) (String (byte_of (n / 256 mod 256)) (String (byte_of (n / 65536 mod 256)) (String (byte_of (n / 16777216 mod 256)) EmptyString))).

(** A step that may panic or fail, and the next. *)
Definition and_then_ok {A B} (c : outcome (result string A)) (k : A → outcome (result string B)) : outcome (result string B) :=
  let! r := c in match r with Ok x => k x | Err e => Ret (Err e) end.
Notation "'try' x ':=' c 'in' k" := (and_then_ok c (λ x, k)) (at level 200, x name, c at level 100, k at level 200, only parsing).

Definition read32 (data : string) (off : N) (err : string) : outcome (result string N) :=
  if (strlen data <? off + 4)%N then Ret (Err err) else let! b := slice data off (off + 4) in Ret (Ok (le32 b)).

(** ** GPUs *)

Record GPUDeviceReport := MkGPUReport { gr_DeviceIndex : N; gr_Report : string }.

(** One device: its report with what follows it, and where the next begins. *)
Definition gpu_device (data : string) (i off : N) : outcome (result string (GPUDeviceReport * N)) :=
  let at_device := "truncated output at device " +:+ Itoa i in
  try devIdx := read32 data off (at_device +:+ " index") in
  let off := (off + 4)%N in
  try reportSize := read32 data off (at_device +:+ " report size") in
  let off := (off + 4)%N in
  if (strlen data <? off + reportSize)%N
  then Ret (Err (at_device +:+ " report data (need " +:+ Itoa reportSize +:+ ", have " +:+ Itoa (strlen data - off) +:+ ")"))
  else
    let! report := slice data off (off + reportSize) in
    let off := (off + reportSize)%N in
    try cecSize := read32 data off (at_device +:+ " CEC size") in
    let off := (off + 4)%N in
    try cec := (if (0 <? cecSize)%N then
                  if (strlen data <? off + cecSize)%N then Ret (Err (at_device +:+ " CEC data"))
                  else let! c := slice data off (off + cecSize) in Ret (Ok (c, (off + cecSize)%N))
                else Ret (Ok ("", off))) in
    let off := cec.2 in
    let! cert := (if (off + 4 <=? strlen data)%N then
                    let! b := slice data off (off + 4) in
                    let certSize := le32 b in
                    let off := (off + 4)%N in
                    if (0 <? certSize)%N && (off + certSize <=? strlen data)%N
                    then let! c := slice data off (off + certSize) in Ret (c, (off + certSize)%N)
                    else Ret ("", off)
                  else Ret ("", off)) in
    Ret (Ok (MkGPUReport devIdx (report +:+ cec.1 +:+ cert.1), cert.2)).

(** The loop over the devices; every device takes bytes, so that as many steps as
    there are bytes are enough. *)
Fixpoint gpu_devices (fuel : nat) (data : string) (deviceCount i off : N) (reports : list GPUDeviceReport)
  : option (outcome (result string (list GPUDeviceReport))) :=
  if (deviceCount <=? i)%N then Some (Ret (Ok reports))
  else match fuel with
       | O => None
       | S fuel =>
           match gpu_device data i off with
           | Panic => Some Panic
           | Ret (Err e) => Some (Ret (Err e))
           | Ret (Ok (r, off)) => gpu_devices fuel data deviceCount (i + 1) off (reports ++ [r])%list
           end
       end.

(** [heap n]: that many bytes can be allocated at once; the program ends
    otherwise.  A report takes 32 bytes, the index and the slice; room is made for
    as many as the output announces, before any is read. *)
Definition parseMultiGPUOutput (heap : N → bool) (data : string) : option (outcome (result string (list GPUDeviceReport))) :=
  if (strlen data <? 4)%N then Some (Ret (Err "output too short for device count header"))
  else match slice data 0 4 with
       | Panic => Some Panic
       | Ret b =>
           let deviceCount := le32 b in
           if negb (heap (32 * deviceCount)%N) then Some Panic
           else
             res ← gpu_devices (S (String.length data)) data deviceCount 0 4 [];
             Some (match res with Ret (Ok []) => Ret (Err "attest-all returned 0 device reports") | r => r end)
       end.

(** ** The guest *)

Definition NameSNP : string := "snp".
Definition NameTDX : string := "tdx".
Definition NameSNPGPU : string := "snp-gpu".
Definition NameTDXGPU : string := "tdx-gpu".

Record QuoteResult := MkQuote { qr_Report : string; qr_CertChain : string; qr_AuxBlob : string; qr_GPUReports : list GPUDeviceReport }.

(** An entry of configfs for a report: its directory, the errors of making it and
    of writing the input, what is read of the output and of the auxiliary blob. *)
Record tsm_entry := MkTsmEntry { te_dir : string; te_mkdir : option string; te_inblob : option string; te_outblob : result string string; te_auxblob : option string }.

(** [gu_tsm_provider]: the attribute of a probing entry, if it can be made and
    read.  [gu_tsm]: the entry for report data.  [gu_sev]: the answer buffer, of 4128 bytes; [gu_tdx]: the 1024
    bytes of the report.  [gu_smi]: what nvidia-smi prints of the mode of the
    GPUs; [gu_helper]: what the helper prints for its arguments, [None] when it
    is not there.  [gu_heap]: what can be allocated at once. *)
Record guest := MkGuest {
  gu_configfs : bool; gu_sev_device : bool; gu_tdx_device : bool; gu_tdx_legacy : bool;
  gu_tsm_provider : option string; gu_tsm : string → tsm_entry;
  gu_sev : string → result string string; gu_tdx : string → result string string;
  gu_mount : option string; gu_smi : result string string; gu_helper : option (list string → result string string); gu_now : Z;
  gu_heap : N → bool }.

(** *** By configfs *)

Definition configfs_quote (e : tsm_entry) : result string QuoteResult :=
  match te_mkdir e with
  | Some err => Err ("configfs mkdir " +:+ te_dir e +:+ ": " +:+ err)
  | None =>
      match te_inblob e with
      | Some err => Err ("configfs write inblob: " +:+ err)
      | None =>
          match te_outblob e with
          | Err err => Err ("configfs read outblob: " +:+ err)
          | Ok report => Ok (MkQuote report "" (default "" (te_auxblob e)) [])
          end
      end
  end.

(** *** AMD *)

(** The report in the answer: the bounds are computed on 32 bits. *)
Definition snp_report (resp : string) : outcome (result string string) :=
  let! s := slice resp 0 4 in
  if negb (le32 s =? 0)%N then Ret (Err ("SNP_GET_REPORT firmware error: status=" +:+ Itoa (le32 s)))
  else
    let! z := slice resp 4 8 in
    let reportSize := le32 z in
    if (reportSize =? 0)%N then Ret (Err "SNP_GET_REPORT returned empty report (size=0)")
    else
      let upto := Z.to_N (u32 (32 + Z.of_N reportSize)) in
      if (strlen resp <? upto)%N then Ret (Err ("SNP_GET_REPORT report size " +:+ Itoa reportSize +:+ " exceeds response buffer"))
      else let! r := slice resp 32 upto in Ret (Ok (r +:+ zeros (N.to_nat reportSize - String.length r))).

(** *** Intel *)

Fixpoint all_zero (s : string) : bool := match s with EmptyString => true | String c s => (code c =? 0)%N && all_zero s end.
Definition tdx_report (report : string) : result string string :=
  if all_zero (str_take 64 report) then Err "TDX report appears empty (all zeros in first 64 bytes)" else Ok report.

(** *** Without hardware *)

(** [copy] of a text to a place of a buffer that holds it. *)
Definition copy_at (i : nat) (x buffer : string) : string := str_take i buffer +:+ x +:+ str_drop (i + String.length x) buffer.

Definition buildMockReport (now : Z) (reportData teeType : string) : string :=
  let tdx := (teeType =? NameTDX) || (teeType =? NameTDXGPU) in
  let size := if tdx then 1024%nat else 1184%nat in
  let report := copy_at 0 "MOCK" (zeros size) in
  let report := copy_at 4 (put32 (N.of_nat size)) report in
  let report := copy_at 8 ((if tdx then "TDX" else "SNP") +:+ zeros 1) report in
  let report := copy_at 12 (put32 (Z.to_N (u32 now))) report in
  let report := copy_at 80 reportData report in
  copy_at 144 (sha256 reportData) report.

Definition buildMockGPUReport (nonce : string) (deviceIndex : N) : string :=
  let report := copy_at 0 "MGPU" (zeros 512) in
  let report := copy_at 4 (put32 512) report in
  let report := copy_at 8 (put32 deviceIndex) report in
  let report := copy_at 12 nonce report in
  copy_at 76 (sha256 nonce) report.

Definition IsMockReport (report : string) : bool := (4 <=? strlen report)%N && (str_take 4 report =? "MOCK").
Definition ExtractMockReportData (report : string) : result string string :=
  if (strlen report <? 144)%N then Err ("report too short: " +:+ Itoa (strlen report) +:+ " bytes") else Ok (str_take 64 (str_drop 80 report)).

(** ** Providers of evidence *)

Inductive Provider :=
| ConfigfsTSM (teeType : string) | SEVGuest | TDX (legacy : bool)
| MockProvider (TEE : string) (WithGPU : bool) (GPUCount : Z)
| GPUCompositeProvider (CPU : Provider).

Definition Provider_Name_cpu (cpu : string) : string := if cpu =? NameTDX then NameTDXGPU else NameSNPGPU.
Fixpoint Provider_Name (p : Provider) : string :=
  match p with
  | ConfigfsTSM t => if t =? "" then NameSNP else t
  | SEVGuest => NameSNP
  | TDX _ => NameTDX
  | MockProvider t gpu _ => let base := if t =? "" then NameSNP else t in if gpu then Provider_Name_cpu base else base
  | GPUCompositeProvider cpu => Provider_Name_cpu (Provider_Name cpu)
  end.

Definition gpu_probe (g : guest) : result string string :=
  match gu_mount g with
  | Some e => Err ("guest rootfs: " +:+ e)
  | None =>
      match gu_smi g with
      | Err e => Err ("nvidia-smi conf-compute -f failed: " +:+ e)
      | Ok stdout =>
          if negb (Contains stdout "ON") then Err ("GPU CC mode not enabled (output: " +:+ TrimSpace stdout +:+ ")")
          else match gu_helper g with
               | Some helper => match helper ["probe"] with Err e => Err ("nvml_attestation probe failed: " +:+ e) | Ok out => Ok ("GPU CC enabled: " +:+ TrimSpace out) end
               | None => Ok ("GPU CC enabled: " +:+ TrimSpace stdout)
               end
      end
  end.

(** [None]: the parser has not enough steps. *)
Definition GetAllGPUAttestations (g : guest) (nonce : string) : option (outcome (result string (list GPUDeviceReport))) :=
  match gu_mount g with
  | Some e => Some (Ret (Err ("guest rootfs: " +:+ e)))
  | None =>
      match default (λ _, Err "fork/exec /tmp/nvml_attestation: no such file or directory") (gu_helper g) ["attest-all"; hex_EncodeToString (str_take 32 nonce)] with
      | Err e => Some (Ret (Err ("nvml_attestation attest-all failed: " +:+ e)))
      | Ok data => if (strlen data <? 4)%N then Some (Ret (Err ("attest-all output too short: " +:+ Itoa (strlen data) +:+ " bytes"))) else parseMultiGPUOutput (gu_heap g) data
      end
  end.

Fixpoint GetQuote (g : guest) (p : Provider) (reportData : string) : option (outcome (result string QuoteResult)) :=
  match p with
  | ConfigfsTSM _ => Some (Ret (configfs_quote (gu_tsm g reportData)))
  | SEVGuest =>
      Some (match gu_sev g reportData with
            | Err e => Ret (Err e)
            | Ok resp => let! r := snp_report resp in Ret (match r with Err e => Err e | Ok report => Ok (MkQuote report "" "" []) end)
            end)
  | TDX _ => Some (Ret (let* raw := gu_tdx g reportData in let* report := tdx_report raw in Ok (MkQuote report "" "" [])))
  | MockProvider t gpu count =>
      let reports := (λ i, MkGPUReport (Z.to_N (u32 (Z.of_nat i))) (buildMockGPUReport reportData (Z.to_N (u32 (Z.of_nat i))))) <$> seq 0 (Z.to_nat (if (count <=? 0)%Z then 1 else count)) in
      Some (Ret (Ok (MkQuote (buildMockReport (gu_now g) reportData (Provider_Name p)) "" "" (if gpu then reports else []))))
  | GPUCompositeProvider cpu =>
      q ← GetQuote g cpu reportData;
      match q with
      | Panic => Some Panic
      | Ret (Err e) => Some (Ret (Err ("cpu attestation: " +:+ e)))
      | Ret (Ok result) =>
          r ← GetAllGPUAttestations g reportData;
          Some (let! r := r in
                Ret (match r with
                     | Err e => Err ("gpu attestation: " +:+ e)
                     | Ok l => Ok (MkQuote (qr_Report result) (qr_CertChain result) (qr_AuxBlob result) l)
                     end))
      end
  end.

Definition maybeWrapWithGPU (g : guest) (cpu : Provider) : Provider :=
  match gpu_probe g with Err _ => cpu | Ok _ => GPUCompositeProvider cpu end.

Definition detectProvider (g : guest) : string :=
  match gu_tsm_provider g with None => "" | Some data => if TrimSpace data =? "tdx_guest" then NameTDX else NameSNP end.

Definition mock_gpu_count (v : string) : Z := if Atoi_ok v && (0 <? Atoi_value v)%Z then Atoi_value v else 1.
Definition Detect (env : string → string) (g : guest) : option Provider :=
  if env "ATTESTATION_MOCK" =? "true" then
    let tee := if env "ATTESTATION_MOCK_TEE" =? "" then NameSNP else env "ATTESTATION_MOCK_TEE" in
    Some (MockProvider tee (env "ATTESTATION_MOCK_GPU" =? "true") (mock_gpu_count (env "ATTESTATION_MOCK_GPU_COUNT")))
  else if gu_configfs g then Some (maybeWrapWithGPU g (ConfigfsTSM (detectProvider g)))
  else if gu_sev_device g then Some (maybeWrapWithGPU g SEVGuest)
  else if gu_tdx_device g then Some (maybeWrapWithGPU g (TDX false))
  else if gu_tdx_legacy g then Some (maybeWrapWithGPU g (TDX true))
  else None.

(** ** The server *)

Definition ComputeBoundReportData (pubKeyDER nonce : string) : string := str_take 64 (sha512 (pubKeyDER +:+ nonce)).

Record QuoteRequest := MkQuoteRequest { rq_Nonce : string; rq_BindTLS : bool }.
Record QuoteResponse := MkQuoteResponse {
  re_Report : string; re_CertChain : string; re_TEEPlatform : string; re_AuxBlob : string; re_GPUReports : list (N * string); re_TLSBound : bool }.

(** [req]: the decoded body, or the error. *)
Definition quoteHandler (g : guest) (p : Provider) (PubKeyDER : string) (req : result string QuoteRequest) : option (outcome (result (Z * string) QuoteResponse)) :=
  match req with
  | Err e => Some (Ret (Err (StatusBadRequest, "invalid request: " +:+ e)))
  | Ok req =>
      match b64_DecodeString false true (rq_Nonce req) with
      | None => Some (Ret (Err (StatusBadRequest, "nonce must be valid base64")))
      | Some nonce =>
          if negb (strlen nonce =? 64)%N then Some (Ret (Err (StatusBadRequest, "nonce must be exactly 64 bytes, got " +:+ Itoa (strlen nonce))))
          else
            let reportData := if rq_BindTLS req then ComputeBoundReportData PubKeyDER nonce else nonce in
            q ← GetQuote g p reportData;
            Some (let! q := q in
                  Ret (match q with
                       | Err e => Err (StatusServiceUnavailable, "failed to get attestation quote: " +:+ e)
                       | Ok report => Ok (MkQuoteResponse (b64_EncodeToString (qr_Report report)) (b64_EncodeToString (qr_CertChain report)) (Provider_Name p)
                           (b64_EncodeToString (qr_AuxBlob report)) ((λ r, (gr_DeviceIndex r, b64_EncodeToString (gr_Report r))) <$> qr_GPUReports report) (rq_BindTLS req))
                       end))
      end
  end.

Record InfoResponse := MkInfo { in_TEEPlatform : string; in_ProtocolVersion : string; in_GPUAvailable : bool; in_TLSPublicKey : string }.
Definition infoHandler (p : Provider) (PubKeyDER : string) : InfoResponse :=
  let name := Provider_Name p in
  MkInfo name "4" ((name =? NameSNPGPU) || (name =? NameTDXGPU)) (b64_EncodeToString PubKeyDER).
