(* ===== verification/AttestationSound.v ===== *)
(** * Evidence

    What the sidecar hands out is evidence for the nonce it was asked with, and
    whole; the output of the helper is read as it was written. *)
From Stdlib Require Import Ascii String.
From S2P Require Import Prelude GoStrings Sha256 Sha512 LeaseBook ProxyConfig HostnameOperator MetalLb Gateway Attestation.

Open Scope string_scope.
Open Scope go_scope.

(** ** Bytes *)

Lemma strlen_app s t : strlen (s +:+ t) = (strlen s + strlen t)%N.
Proof. unfold strlen. rewrite str_length_app. lia. Qed.

Lemma slice_total s i j : (i ≤ j)%N → (j ≤ strlen s)%N → ∃ r, slice s i j = Ret r ∧ strlen r = (j - i)%N.
Proof.
  intros Hij Hj. unfold slice. rewrite (proj2 (N.leb_le _ _) Hij), (proj2 (N.leb_le _ _) Hj). cbn. eexists. split; [done|].
  unfold strlen in *. rewrite str_take_length, str_drop_length. lia.
Qed.

Lemma slice_mid pre x post i j : strlen pre = i → (j = i + strlen x)%N → slice (pre +:+ x +:+ post) i j = Ret x.
Proof.
  intros <- ->. unfold slice. rewrite !strlen_app.
  rewrite (proj2 (N.leb_le _ _)), (proj2 (N.leb_le _ _)) by lia. cbn. f_equal.
  replace (N.to_nat (strlen pre)) with (String.length pre) by (unfold strlen; lia). rewrite str_drop_app.
  replace (N.to_nat (strlen pre + strlen x - strlen pre)) with (String.length x) by (unfold strlen; lia). apply str_take_app.
Qed.

Lemma put32_strlen n : strlen (put32 n) = 4%N.
Proof. done. Qed.

Lemma le32_put32 n s : (n < 2 ^ 32)%N → le32 (put32 n +:+ s) = n.
Proof.
  intros Hn. unfold put32, le32. cbn. rewrite !code_byte_of by (by apply N.mod_lt).
  pose proof (N.div_mod' n 256). pose proof (N.div_mod' (n / 256) 256). pose proof (N.div_mod' (n / 65536) 256).
  replace (n / 65536)%N with (n / 256 / 256)%N in * by (by rewrite N.Div0.div_div).
  replace (n / 16777216)%N with (n / 256 / 256 / 256)%N in * by (by rewrite !N.Div0.div_div).
  rewrite (N.mod_small (n / 256 / 256 / 256)); [lia|]. repeat apply N.Div0.div_lt_upper_bound. lia.
Qed.

Lemma read32_at pre n post err : (n < 2 ^ 32)%N → read32 (pre +:+ put32 n +:+ post) (strlen pre) err = Ret (Ok n).
Proof.
  intros Hn. unfold read32. rewrite !strlen_app, put32_strlen. rewrite (proj2 (N.ltb_ge _ _)) by lia.
  rewrite (slice_mid pre (put32 n) post) by (by rewrite ?put32_strlen). cbn [obind]. do 2 f_equal.
  rewrite <- (str_app_nil_r (put32 n)). by apply le32_put32.
Qed.

Lemma read32_total data off err : ∃ r, read32 data off err = Ret r ∧ (∀ n, r = Ok n → (off + 4 ≤ strlen data)%N).
Proof.
  unfold read32. destruct (N.ltb_spec (strlen data) (off + 4)); [by eexists|].
  destruct (slice_total data off (off + 4)) as (b & -> & _); [lia|done|]. by eexists.
Qed.

Lemma read32_eq data pre n post off err :
  data = pre +:+ put32 n +:+ post → off = strlen pre → (n < 2 ^ 32)%N → read32 data off err = Ret (Ok n).
Proof. intros -> -> Hn. by apply read32_at. Qed.

Lemma slice_eq data pre x post i j : data = pre +:+ x +:+ post → i = strlen pre → (j = i + strlen x)%N → slice data i j = Ret x.
Proof. intros -> -> ->. by apply slice_mid. Qed.

(** ** GPUs *)

Lemma gpu_device_total data i off : ∃ r, gpu_device data i off = Ret r
  ∧ ∀ rep off', r = Ok (rep, off') → (off' ≤ strlen data ∧ off + 12 + strlen (gr_Report rep) ≤ off')%N.
Proof.
  unfold gpu_device. generalize ("truncated output at device " +:+ Itoa i) as m. intros m. cbv zeta.
  destruct (read32_total data off (m +:+ " index")) as ([idx|] & -> & H1); cbn [and_then_ok obind]; [|by eexists].
  destruct (read32_total data (off + 4) (m +:+ " report size")) as ([sz|] & -> & H2); cbn [and_then_ok obind]; [|by eexists].
  specialize (H2 _ eq_refl). destruct (N.ltb_spec (strlen data) (off + 4 + 4 + sz)); [by eexists|].
  destruct (slice_total data (off + 4 + 4) (off + 4 + 4 + sz)) as (rep & -> & Hrep); [lia|done|]. cbn [obind].
  destruct (read32_total data (off + 4 + 4 + sz) (m +:+ " CEC size")) as ([csz|] & -> & H3); cbn [and_then_ok obind]; [|by eexists].
  specialize (H3 _ eq_refl). set (o := (off + 4 + 4 + sz + 4)%N) in *.
  assert (∃ r, (if (0 <? csz)%N then if (strlen data <? o + csz)%N then Ret (Err (m +:+ " CEC data"))
     else let! c := slice data o (o + csz) in Ret (Ok (c, (o + csz)%N)) else Ret (Ok ("", o))) = Ret r
     ∧ ∀ c o', r = Ok (c, o') → (o' ≤ strlen data ∧ o + strlen c ≤ o')%N) as ([[cec o']|] & -> & H4).
  { destruct (0 <? csz)%N; [|eexists; split; [done|]; intros ? ? [= <- <-]; change (strlen "") with 0%N; lia].
    destruct (N.ltb_spec (strlen data) (o + csz)); [by eexists|]. destruct (slice_total data o (o + csz)) as (c & -> & Hc); [lia|done|].
    eexists. split; [done|]. intros ? ? [= <- <-]. lia. }
  2: by eexists.
  specialize (H4 _ _ eq_refl). cbn [and_then_ok obind fst snd].
  assert (∃ c o'', (if (o' + 4 <=? strlen data)%N then
      let! b := slice data o' (o' + 4) in
      if (0 <? le32 b)%N && (o' + 4 + le32 b <=? strlen data)%N
      then let! c := slice data (o' + 4) (o' + 4 + le32 b) in Ret (c, (o' + 4 + le32 b)%N) else Ret ("", (o' + 4)%N)
    else Ret ("", o')) = Ret (c, o'') ∧ (o'' ≤ strlen data ∧ o' + strlen c ≤ o'')%N) as (cert & o'' & -> & H5).
  { destruct (N.leb_spec (o' + 4) (strlen data)); [|do 2 eexists; split; [done|]; change (strlen "") with 0%N; lia].
    destruct (slice_total data o' (o' + 4)) as (b & -> & _); [lia|done|]. cbn [obind].
    destruct (0 <? le32 b)%N; cbn [andb]; [|do 2 eexists; split; [done|]; change (strlen "") with 0%N; lia].
    destruct (N.leb_spec (o' + 4 + le32 b) (strlen data)); [|do 2 eexists; split; [done|]; change (strlen "") with 0%N; lia].
    destruct (slice_total data (o' + 4) (o' + 4 + le32 b)) as (c & -> & Hc); [lia|done|]. do 2 eexists. split; [done|]. lia. }
  cbn [obind fst snd]. eexists. split; [done|]. intros ? ? [= <- <-]. cbn [gr_Report]. rewrite !strlen_app. lia.
Qed.

Definition report_bytes (l : list GPUDeviceReport) : N := foldr (λ r n, (strlen (gr_Report r) + n)%N) 0%N l.

Lemma report_bytes_app l l' : report_bytes (l ++ l')%list = (report_bytes l + report_bytes l')%N.
Proof. unfold report_bytes. induction l as [|r l IH]; cbn [app foldr]; [done|]. rewrite IH. lia. Qed.

Lemma gpu_devices_total fuel data n i off acc : (off ≤ strlen data)%N → (N.to_nat (strlen data - off) < fuel)%nat →
  ∃ r, gpu_devices fuel data n i off acc = Some (Ret r)
    ∧ ∀ l, r = Ok l → (report_bytes l + off ≤ report_bytes acc + strlen data)%N.
Proof.
  revert i off acc. induction fuel as [|fuel IH]; intros i off acc Hoff Hf; [lia|]. cbn [gpu_devices].
  destruct (n <=? i)%N; [eexists; split; [done|]; intros ? [= <-]; lia|].
  destruct (gpu_device_total data i off) as ([[rep off']|e] & -> & Hd); [|by eexists].
  destruct (Hd _ _ eq_refl) as [H1 H2]. destruct (IH (i + 1)%N off' (acc ++ [rep])%list) as (r & -> & Hr); [done|lia|].
  exists r. split; [done|]. intros l Hl. specialize (Hr l Hl). rewrite report_bytes_app in Hr. cbn [report_bytes foldr] in Hr. lia.
Qed.

(** The format of the helper: an index, the report, the report of the
    controller and the certificates, each with its size before it. *)
Record helper_device := MkHelperDevice { hd_index : N; hd_report : string; hd_cec : string; hd_cert : string }.
Definition encode_device (d : helper_device) : string :=
  put32 (hd_index d) +:+ put32 (strlen (hd_report d)) +:+ hd_report d +:+ put32 (strlen (hd_cec d)) +:+ hd_cec d +:+ put32 (strlen (hd_cert d)) +:+ hd_cert d.
Definition encode_devices (l : list helper_device) : string := foldr (λ d s, encode_device d +:+ s) EmptyString l.
Definition device_fits (d : helper_device) : Prop :=
  (hd_index d < 2 ^ 32 ∧ strlen (hd_report d) < 2 ^ 32 ∧ strlen (hd_cec d) < 2 ^ 32 ∧ strlen (hd_cert d) < 2 ^ 32)%N.
Definition device_report (d : helper_device) : GPUDeviceReport := MkGPUReport (hd_index d) (hd_report d +:+ hd_cec d +:+ hd_cert d).

Lemma strlen_empty x : (strlen x ≤ 0)%N → x = "".
Proof. destruct x; [done|]. unfold strlen. cbn. lia. Qed.

Ltac place := first [done | by rewrite ?strlen_app, ?put32_strlen; lia | by rewrite !str_app_assoc].

(** The parts of a device after its report. *)
Lemma cec_read data pre cec post off (err : string) : data = pre +:+ cec +:+ post → off = strlen pre →
  (if (0 <? strlen cec)%N then if (strlen data <? off + strlen cec)%N then Ret (Err err)
   else let! c := slice data off (off + strlen cec) in Ret (Ok (c, (off + strlen cec)%N)) else Ret (Ok ("", off))) = Ret (Ok (cec, (off + strlen cec)%N)).
Proof.
  intros E ->. destruct (N.ltb_spec 0 (strlen cec)) as [|Hx%strlen_empty]; [|subst cec; do 3 f_equal; by rewrite N.add_0_r].
  rewrite (proj2 (N.ltb_ge _ _)) by (rewrite E, !strlen_app; lia). by rewrite (slice_eq data pre cec post).
Qed.

Lemma cert_read data pre cert post off : data = pre +:+ put32 (strlen cert) +:+ cert +:+ post → off = strlen pre → (strlen cert < 2 ^ 32)%N →
  (if (off + 4 <=? strlen data)%N then
     let! b := slice data off (off + 4) in
     if (0 <? le32 b)%N && (off + 4 + le32 b <=? strlen data)%N
     then let! c := slice data (off + 4) (off + 4 + le32 b) in Ret (c, (off + 4 + le32 b)%N) else Ret ("", (off + 4)%N)
   else Ret ("", off)) = Ret (cert, (off + 4 + strlen cert)%N).
Proof.
  intros E -> Hc. assert (strlen data = strlen pre + 4 + strlen cert + strlen post)%N as Hlen by (rewrite E, !strlen_app, put32_strlen; lia).
  rewrite (proj2 (N.leb_le _ _)) by lia. rewrite (slice_eq data pre (put32 (strlen cert)) (cert +:+ post)) by place. cbn [obind].
  replace (le32 (put32 (strlen cert))) with (strlen cert) by (rewrite <- (str_app_nil_r (put32 _)); by rewrite le32_put32).
  destruct (N.ltb_spec 0 (strlen cert)) as [|Hx%strlen_empty]; cbn [andb]; [|subst cert; do 2 f_equal; by rewrite N.add_0_r].
  rewrite (proj2 (N.leb_le _ _)) by lia. rewrite (slice_eq data (pre +:+ put32 (strlen cert)) cert post) by (rewrite ?E; place). done.
Qed.

Lemma gpu_device_read pre d post i : device_fits d →
  gpu_device (pre +:+ encode_device d +:+ post) i (strlen pre) = Ret (Ok (device_report d, (strlen pre + strlen (encode_device d))%N)).
Proof.
  intros (H1 & H2 & H3 & H4). destruct d as [idx rep cec cert]. unfold encode_device, device_report in *. cbn [hd_index hd_report hd_cec hd_cert] in *.
  rewrite (str_app_assoc _ _ post), !(str_app_assoc _ _ post). set (tail3 := put32 (strlen cert) +:+ cert +:+ post).
  set (tail2 := rep +:+ put32 (strlen cec) +:+ cec +:+ tail3).
  set (data := pre +:+ _). unfold gpu_device. generalize ("truncated output at device " +:+ Itoa i) as m. intros m. cbv zeta.
  assert (strlen data = strlen pre + 16 + strlen rep + strlen cec + strlen cert + strlen post)%N as Hlen by (unfold data, tail2, tail3; rewrite !strlen_app, !put32_strlen; lia).
  rewrite (read32_eq data pre idx (put32 (strlen rep) +:+ tail2)) by place. cbn [and_then_ok obind].
  rewrite (read32_eq data (pre +:+ put32 idx) (strlen rep) tail2) by (unfold data; place). cbn [and_then_ok obind].
  rewrite (proj2 (N.ltb_ge _ _)) by lia.
  rewrite (slice_eq data (pre +:+ put32 idx +:+ put32 (strlen rep)) rep (put32 (strlen cec) +:+ cec +:+ tail3)) by (unfold data, tail2; place). cbn [obind].
  rewrite (read32_eq data (pre +:+ put32 idx +:+ put32 (strlen rep) +:+ rep) (strlen cec) (cec +:+ tail3)) by (unfold data, tail2; place). cbn [and_then_ok obind].
  rewrite (cec_read data (pre +:+ put32 idx +:+ put32 (strlen rep) +:+ rep +:+ put32 (strlen cec)) cec tail3) by (unfold data, tail2; place). cbn [and_then_ok obind fst snd].
  rewrite (cert_read data (pre +:+ put32 idx +:+ put32 (strlen rep) +:+ rep +:+ put32 (strlen cec) +:+ cec) cert post) by (unfold data, tail2, tail3; place). cbn [obind fst snd].
  do 3 f_equal. rewrite !strlen_app, !put32_strlen. lia.
Qed.

Lemma gpu_devices_read fuel pre l i n acc : Forall device_fits l → n = (i + N.of_nat (List.length l))%N → (List.length l < fuel)%nat →
  gpu_devices fuel (pre +:+ encode_devices l) n i (strlen pre) acc = Some (Ret (Ok (acc ++ (device_report <$> l))%list)).
Proof.
  revert fuel pre i acc. induction l as [|d l IH]; intros fuel pre i acc Hl -> Hf; (destruct fuel as [|fuel]; [cbn in Hf; lia|]); cbn [gpu_devices].
  - rewrite (proj2 (N.leb_le _ _)) by (cbn; lia). by rewrite app_nil_r.
  - rewrite (proj2 (N.leb_gt _ _)) by (cbn; lia). apply Forall_cons in Hl as [Hd Hl]. cbn [encode_devices foldr].
    rewrite gpu_device_read by done. change (foldr _ _ l) with (encode_devices l). rewrite <- str_app_assoc, <- strlen_app.
    rewrite IH; [|done|cbn [List.length]; lia|cbn [List.length] in Hf; lia]. do 3 f_equal. by rewrite <- app_assoc.
Qed.

Lemma encode_devices_length l : (List.length l ≤ String.length (encode_devices l))%nat.
Proof.
  induction l as [|d l IH]; cbn [encode_devices foldr List.length]; [lia|]. change (foldr _ _ l) with (encode_devices l).
  rewrite str_length_app. assert (4 ≤ String.length (encode_device d))%nat; [|lia]. unfold encode_device. rewrite str_length_app. cbn. lia.
Qed.

Lemma le32_take n s : (4 ≤ n)%nat → le32 (str_take n s) = le32 s.
Proof. intros Hn. do 4 (destruct n as [|n]; [lia|]). by do 4 (destruct s as [|? s]; [done|]). Qed.

Lemma slice_inv s i j r : slice s i j = Ret r → (i ≤ j ≤ strlen s)%N ∧ r = str_take (N.to_nat (j - i)) (str_drop (N.to_nat i) s).
Proof. unfold slice. destruct (N.leb_spec i j), (N.leb_spec j (strlen s)); cbn; try done. intros [= <-]. done. Qed.

(** Claim C28.  The output of the helper for GPUs is read back, where there is
    room for as many reports as it announces: of devices written in the format
    of [attest-all], with the number of devices in front and the size of the
    certificates after each, each report is returned with the report of the
    controller and the certificates after it.  On any other output the parser
    returns too, within its bounds: it never reads beyond the output, the
    reports are no longer than it is, and there is at least one.  (Output in
    the older format without the size of the certificates is not read back;
    and an announced number that there is no room for ends the program.) *)
Theorem gpu_output_read (heap : N → bool) :
  (∀ l, l ≠ [] → Forall device_fits l → (N.of_nat (List.length l) < 2 ^ 32)%N → heap (32 * N.of_nat (List.length l))%N = true →
     parseMultiGPUOutput heap (put32 (N.of_nat (List.length l)) +:+ encode_devices l) = Some (Ret (Ok (device_report <$> l))))
  ∧ ∀ data, heap (32 * le32 data)%N = true → ∃ r, parseMultiGPUOutput heap data = Some (Ret r)
      ∧ ∀ reports, r = Ok reports → reports ≠ [] ∧ (report_bytes reports + 4 ≤ strlen data)%N.
Proof.
  split.
  - intros l Hne Hl Hn Hheap. unfold parseMultiGPUOutput. rewrite strlen_app, put32_strlen, (proj2 (N.ltb_ge _ _)) by lia.
    rewrite (slice_eq _ "" (put32 (N.of_nat (List.length l))) (encode_devices l)) by done.
    replace (le32 (put32 _)) with (N.of_nat (List.length l)) by (rewrite <- (str_app_nil_r (put32 _)); by rewrite le32_put32).
    cbv zeta. rewrite Hheap. cbn [negb].
    rewrite (gpu_devices_read _ (put32 (N.of_nat (List.length l))) l 0); [by destruct l|done|lia|].
    rewrite str_length_app. pose proof (encode_devices_length l). lia.
  - intros data Hheap. unfold parseMultiGPUOutput. destruct (N.ltb_spec (strlen data) 4); [by eexists|].
    destruct (slice_total data 0 4) as (b & Hb & _); [lia|done|]. rewrite Hb. apply slice_inv in Hb as [_ ->]. cbv zeta.
    rewrite le32_take by lia. change (str_drop (N.to_nat 0) data) with data. rewrite Hheap. cbn [negb].
    destruct (gpu_devices_total (S (String.length data)) data (le32 data) 0 4 []) as (r & -> & Hr); [done|unfold strlen; lia|]. cbn.
    destruct r as [[|x l]|e]; (eexists; split; [done|]); intros reports [= <-]. split; [done|]. specialize (Hr _ eq_refl). cbn [report_bytes foldr] in *. lia.
Qed.

(** ** Evidence *)

(** The report in an answer of the firmware: status zero, the size, and after 32
    bytes as many bytes. *)
Definition snp_holds (resp report : string) : Prop :=
  report ≠ "" ∧ le32 resp = 0%N ∧ le32 (str_drop 4 resp) = strlen report ∧ (32 + strlen report ≤ strlen resp)%N
  ∧ report = str_take (String.length report) (str_drop 32 resp).

Lemma snp_report_ok resp r : (strlen resp < 2 ^ 32)%N → snp_report resp = Ret (Ok r) → snp_holds resp r.
Proof.
  intros Hlen. unfold snp_report. rewrite obind_ret. intros (b & Hb & E). apply slice_inv in Hb as [_ ->].
  rewrite le32_take in E by lia. change (str_drop (N.to_nat 0) resp) with resp in E.
  destruct (N.eqb_spec (le32 resp) 0) as [E0|]; cbn [negb] in E; [|done]. rewrite obind_ret in E. destruct E as (z & Hz & E). apply slice_inv in Hz as [_ ->].
  rewrite le32_take in E by lia. change (N.to_nat 4) with 4%nat in E. set (sz := le32 (str_drop 4 resp)) in *.
  destruct (N.eqb_spec sz 0) as [|Hsz]; [done|]. destruct (N.ltb_spec (strlen resp) (Z.to_N (u32 (32 + Z.of_N sz)))) as [|Hup]; [done|].
  rewrite obind_ret in E. destruct E as (x & Hx & [= <-]). apply slice_inv in Hx as [[Hx1 Hx2] ->].
  assert (Z.to_N (u32 (32 + Z.of_N sz)) = 32 + sz)%N as Eu.
  { assert (sz < 2 ^ 32)%N as Hs.
    { unfold sz, le32. do 4 (case_match; [by vm_compute|]). match goal with |- (code ?a + 256 * (code ?b + 256 * (code ?c + 256 * code ?d)) < _)%N =>
        pose proof (code_lt a); pose proof (code_lt b); pose proof (code_lt c); pose proof (code_lt d) end. lia. }
    unfold u32 in *. destruct (decide (32 + Z.of_N sz < 2 ^ 32)%Z) as [|Hge]; [rewrite Z.mod_small by lia; lia|].
    exfalso. assert ((32 + Z.of_N sz) mod 2 ^ 32 = 32 + Z.of_N sz - 2 ^ 32)%Z as Em; [|rewrite Em in Hx1; lia].
    symmetry. apply (Z.mod_unique _ _ 1); lia. }
  rewrite Eu in *. replace (32 + sz - 32)%N with sz by lia. change (N.to_nat 32) with 32%nat.
  assert (String.length (str_take (N.to_nat sz) (str_drop 32 resp)) = N.to_nat sz) as El.
  { rewrite str_take_length, str_drop_length. unfold strlen in *. lia. }
  rewrite El, Nat.sub_diag. change (zeros 0) with "". rewrite str_app_nil_r. unfold snp_holds, strlen in *. rewrite El. split_and!; try done; try lia.
  intros E. rewrite E in El. cbn in El. lia.
Qed.

(** What is evidence for the report data, by the surface it comes from; with GPUs
    it is that of the CPU and that of the GPUs, for the first half of the data. *)
Inductive evidence (g : guest) (rd : string) : Provider → QuoteResult → Prop :=
| ev_tsm t e report : gu_tsm g rd = e → te_mkdir e = None → te_inblob e = None → te_outblob e = Ok report →
    evidence g rd (ConfigfsTSM t) (MkQuote report "" (default "" (te_auxblob e)) [])
| ev_sev resp report : gu_sev g rd = Ok resp → snp_holds resp report → evidence g rd SEVGuest (MkQuote report "" "" [])
| ev_tdx legacy report : gu_tdx g rd = Ok report → all_zero (str_take 64 report) = false → evidence g rd (TDX legacy) (MkQuote report "" "" [])
| ev_gpus cpu q helper out l :
    evidence g rd cpu q → gu_mount g = None → gu_helper g = Some helper → helper ["attest-all"; hex_EncodeToString (str_take 32 rd)] = Ok out →
    parseMultiGPUOutput (gu_heap g) out = Some (Ret (Ok l)) → l ≠ [] →
    evidence g rd (GPUCompositeProvider cpu) (MkQuote (qr_Report q) (qr_CertChain q) (qr_AuxBlob q) l).

(** Surfaces of hardware. *)
Fixpoint hardware (p : Provider) : Prop :=
  match p with MockProvider _ _ _ => False | GPUCompositeProvider cpu => hardware cpu | _ => True end.
(** The answers of the firmware are of bounded size. *)
Definition answers_bounded (g : guest) : Prop := ∀ rd resp, gu_sev g rd = Ok resp → (strlen resp < 2 ^ 32)%N.

Lemma parse_nonempty heap data l : parseMultiGPUOutput heap data = Some (Ret (Ok l)) → l ≠ [].
Proof.
  unfold parseMultiGPUOutput. destruct (_ <? _)%N; [done|]. destruct (slice _ _ _) as [b|]; [|done]. cbv zeta. destruct (heap _); [|done]. cbn [negb].
  destruct (gpu_devices _ _ _ _ _ _) as [[[[|x l']|]|]|]; cbn; congruence.
Qed.

Lemma GetQuote_evidence g rd p q : answers_bounded g → hardware p → GetQuote g p rd = Some (Ret (Ok q)) → evidence g rd p q.
Proof.
  intros Hb. revert q. induction p as [t| |legacy| |cpu IH]; intros q Hp E; cbn [GetQuote] in E.
  - unfold configfs_quote in E. destruct (te_mkdir _) eqn:E1; [done|]. destruct (te_inblob _) eqn:E2; [done|]. destruct (te_outblob _) as [report|] eqn:E3; [|done].
    injection E as <-. by econstructor.
  - destruct (gu_sev g rd) as [resp|] eqn:Es; [|done]. destruct (snp_report resp) as [[r|]|] eqn:Er; cbn in E; [|done..].
    injection E as <-. econstructor; [done|]. apply snp_report_ok; [by eapply Hb|done].
  - destruct (gu_tdx g rd) as [raw|] eqn:Et; [|done]. cbn in E. unfold tdx_report in E. destruct (all_zero _) eqn:Ez; [done|].
    injection E as <-. by constructor.
  - done.
  - destruct (GetQuote g cpu rd) as [[[result|]|]|]; [|done..]. specialize (IH _ Hp eq_refl). cbn in E.
    unfold GetAllGPUAttestations in E. destruct (gu_mount g) eqn:Em; [done|]. destruct (gu_helper g) as [helper|] eqn:Eh; [|done]. cbn in E.
    destruct (helper _) as [data|] eqn:Ed; [|done]. destruct (strlen data <? 4)%N; [done|].
    destruct (parseMultiGPUOutput (gu_heap g) data) as [[[l|]|]|] eqn:Ep; cbn in E; [|done..]. injection E as <-.
    econstructor; [done..|]. by eapply parse_nonempty.
Qed.

Lemma hardware_detected env g p : env "ATTESTATION_MOCK" ≠ "true" → Detect env g = Some p →
  hardware p ∧ ∃ cpu, (cpu = SEVGuest ∨ (∃ l, cpu = TDX l) ∨ ∃ t, cpu = ConfigfsTSM t ∧ (t = "" ∨ t = NameSNP ∨ t = NameTDX)) ∧ (p = cpu ∨ p = GPUCompositeProvider cpu).
Proof.
  unfold Detect. intros Hm. rewrite (proj2 (String.eqb_neq _ _) Hm).
  assert (∀ cpu, hardware cpu → hardware (maybeWrapWithGPU g cpu) ∧ (maybeWrapWithGPU g cpu = cpu ∨ maybeWrapWithGPU g cpu = GPUCompositeProvider cpu)) as Hw
    by (intros cpu Hc; unfold maybeWrapWithGPU; case_match; auto).
  assert (detectProvider g = "" ∨ detectProvider g = NameSNP ∨ detectProvider g = NameTDX) as Ht by (unfold detectProvider; repeat case_match; auto).
  repeat case_match; intros [= <-];
    (match goal with |- context [maybeWrapWithGPU g ?c] => destruct (Hw c I) as [? ?]; split; [done|]; exists c end); (split; [|done]); eauto 6.
Qed.

(** The platform names GPUs exactly when there are reports of GPUs. *)
Lemma platform_names_gpus env g p rd q key : env "ATTESTATION_MOCK" ≠ "true" → Detect env g = Some p → evidence g rd p q →
  (qr_GPUReports q ≠ [] ↔ in_GPUAvailable (infoHandler p key) = true).
Proof.
  intros Hm Hd He. destruct (hardware_detected env g p Hm Hd) as (_ & cpu & Hcpu & [->| ->]).
  - assert (qr_GPUReports q = []) as ->; [|split; [done|]; by destruct Hcpu as [->|[[l ->]|(t & -> & [->|[->| ->]])]]].
    destruct Hcpu as [->|[[l ->]|(t & -> & _)]]; by inversion He.
  - inversion He; subst. cbn [qr_GPUReports]. split; [|done]. intros _. unfold infoHandler. cbn [in_GPUAvailable Provider_Name].
    unfold Provider_Name_cpu. by destruct (_ =? NameTDX).
Qed.

Lemma b64_char_not_eol c : b64_char c = true → not_eol c = true.
Proof.
  unfold not_eol. intros Hc. apply negb_true_iff, orb_false_iff. split; apply N.eqb_neq; intros E;
    apply (f_equal byte_of) in E; rewrite byte_of_code in E; subst c; by vm_compute in Hc.
Qed.

Lemma b64_encode_chars s : str_forall b64_char (b64_EncodeToString s) = true.
Proof.
  induction s as [|x|x y|x y z s IH] using string_ind3; [done|..];
    pose proof (code_lt x); try pose proof (code_lt y); try pose proof (code_lt z); cbn [b64_EncodeToString str_forall];
    rewrite ?andb_true_iff; split_and?; try done; try (apply b64_digit_char; try (by apply N.mod_lt); apply N.Div0.div_lt_upper_bound; lia).
Qed.

Lemma b64_DecodeString_Encode s : b64_DecodeString false true (b64_EncodeToString s) = Some s.
Proof.
  unfold b64_DecodeString. rewrite str_filter_id; [apply b64_decode_encode|].
  eapply str_forall_impl; [|apply b64_encode_chars]. apply b64_char_not_eol.
Qed.

(** The answer carries the evidence. *)
Definition carries (resp : QuoteResponse) (q : QuoteResult) : Prop :=
  b64_DecodeString false true (re_Report resp) = Some (qr_Report q)
  ∧ b64_DecodeString false true (re_CertChain resp) = Some (qr_CertChain q)
  ∧ b64_DecodeString false true (re_AuxBlob resp) = Some (qr_AuxBlob q)
  ∧ Forall2 (λ r gr, r.1 = gr_DeviceIndex gr ∧ b64_DecodeString false true r.2 = Some (gr_Report gr)) (re_GPUReports resp) (qr_GPUReports q).

(** Claim C21.  A quote that is answered is evidence, from the hardware that was
    detected, for the nonce of 64 bytes that was sent or, when asked for, for the
    hash of the key of the channel and the nonce; it carries reports of GPUs
    exactly when the platform says there are some, and never those of the CPU
    alone.  A key and a nonce that give the same data are the same, or a
    collision of SHA-512. *)
Theorem quote_bound env g p key req resp
  (Hreal : env "ATTESTATION_MOCK" ≠ "true")
  (Hdetect : Detect env g = Some p)
  (Hbounded : answers_bounded g)
  (Hans : quoteHandler g p key (Ok req) = Some (Ret (Ok resp))) :
  ∃ nonce q, b64_DecodeString false true (rq_Nonce req) = Some nonce ∧ strlen nonce = 64%N
    ∧ evidence g (if rq_BindTLS req then sha512 (key +:+ nonce) else nonce) p q ∧ carries resp q
    ∧ re_TLSBound resp = rq_BindTLS req ∧ re_TEEPlatform resp = in_TEEPlatform (infoHandler p key)
    ∧ (re_GPUReports resp ≠ [] ↔ in_GPUAvailable (infoHandler p key) = true)
    ∧ ∀ key' nonce', strlen nonce' = 64%N → ComputeBoundReportData key' nonce' = ComputeBoundReportData key nonce →
        (key' = key ∧ nonce' = nonce) ∨ ∃ x y, x ≠ y ∧ sha512 x = sha512 y.
Proof.
  assert (∀ k n, ComputeBoundReportData k n = sha512 (k +:+ n)) as Hb by (intros k n; apply str_take_all; by rewrite sha512_length).
  unfold quoteHandler in Hans. destruct (b64_DecodeString false true (rq_Nonce req)) as [nonce|] eqn:En; [|done].
  destruct (N.eqb_spec (strlen nonce) 64) as [Hn|]; cbn [negb] in Hans; [|done]. rewrite Hb in Hans.
  destruct (GetQuote g p _) as [[[q|]|]|] eqn:Eq; cbn in Hans; [|done..]. injection Hans as <-. exists nonce, q.
  assert (evidence g (if rq_BindTLS req then sha512 (key +:+ nonce) else nonce) p q) as He
    by (apply GetQuote_evidence; [done|by eapply hardware_detected|done]).
  split_and!; try done.
  - split_and!; cbn; try apply b64_DecodeString_Encode. apply Forall2_fmap_l, Forall2_same_length_lookup_2; [done|].
    intros i x y Hx Hy. cbn. assert (x = y) as -> by congruence. split; [done|apply b64_DecodeString_Encode].
  - cbn [re_GPUReports]. rewrite <- (platform_names_gpus env g p _ q key Hreal Hdetect He). by destruct (qr_GPUReports q).
  - intros key' nonce' Hn' E. rewrite !Hb in E. destruct (decide (key' +:+ nonce' = key +:+ nonce)) as [Ek|Hne]; [left|by right; eexists _, _].
    assert (String.length nonce' = String.length nonce) as Hl by (unfold strlen in *; lia).
    apply str_app_inj; [|done]. apply (f_equal String.length) in Ek. rewrite !str_length_app in Ek. lia.
Qed.

(** *** Buffers *)

Lemma take_app_le n s t : (n ≤ String.length s)%nat → str_take n (s +:+ t) = str_take n s.
Proof. revert s. induction n as [|n IH]; intros [|c s]; cbn; intros Hn; [done..|lia|]. f_equal. apply IH. lia. Qed.
Lemma drop_app_le n s t : (n ≤ String.length s)%nat → str_drop n (s +:+ t) = str_drop n s +:+ t.
Proof. revert s. induction n as [|n IH]; intros [|c s]; cbn; intros Hn; [done..|lia|]. apply IH. lia. Qed.
Lemma take_drop_take n j i b : (j + n ≤ i)%nat → str_take n (str_drop j (str_take i b)) = str_take n (str_drop j b).
Proof.
  revert i b. induction j as [|j IH]; intros i b Hn.
  - change (str_drop 0 ?x) with x. revert i b Hn. induction n as [|n IHn]; intros [|i] [|c b] Hn; cbn; [done..|lia|lia|done|]. f_equal. apply IHn. lia.
  - destruct i as [|i]; [lia|]. destruct b as [|c b]; [done|]. apply IH. lia.
Qed.

Lemma copy_at_length i x b : (i + String.length x ≤ String.length b)%nat → String.length (copy_at i x b) = String.length b.
Proof. intros Hi. unfold copy_at. rewrite !str_length_app, str_take_length, str_drop_length. lia. Qed.
Lemma copy_at_read i x b : (i ≤ String.length b)%nat → str_take (String.length x) (str_drop i (copy_at i x b)) = x.
Proof.
  intros Hi. unfold copy_at. assert (String.length (str_take i b) = i) as Hl by (rewrite str_take_length; lia).
  pose proof (str_drop_app (str_take i b) (x +:+ str_drop (i + String.length x) b)) as E. rewrite Hl in E. rewrite E. apply str_take_app.
Qed.
Lemma copy_at_before n j i x b : (j + n ≤ i ≤ String.length b)%nat → str_take n (str_drop j (copy_at i x b)) = str_take n (str_drop j b).
Proof.
  intros [Hn Hi]. unfold copy_at. assert (String.length (str_take i b) = i) as Hl by (rewrite str_take_length; lia).
  rewrite drop_app_le, take_app_le by (rewrite ?str_drop_length; lia). by apply take_drop_take.
Qed.
Lemma zeros_length n : String.length (zeros n) = n.
Proof. induction n as [|n IH]; cbn; [done|]. by rewrite IH. Qed.

Lemma put32_length n : String.length (put32 n) = 4%nat.
Proof. done. Qed.

(** A synthetic report says that it is one and gives the data back. *)
Theorem mock_report_echoes now rd teeType : strlen rd = 64%N →
  IsMockReport (buildMockReport now rd teeType) = true ∧ ExtractMockReportData (buildMockReport now rd teeType) = Ok rd.
Proof.
  intros Hrd. assert (String.length rd = 64%nat) as Hl by (unfold strlen in Hrd; lia). unfold buildMockReport.
  set (tdx := _ || _). set (size := if tdx then 1024%nat else 1184%nat). assert (1024 ≤ size)%nat as Hs by (unfold size; destruct tdx; lia).
  set (b0 := copy_at 0 "MOCK" (zeros size)). set (b1 := copy_at 4 _ b0). set (b2 := copy_at 8 _ b1). set (b3 := copy_at 12 _ b2). set (b4 := copy_at 80 rd b3).
  assert (String.length b0 = size) as H0 by (unfold b0; rewrite copy_at_length; rewrite zeros_length; cbn; lia).
  assert (String.length b1 = size) as H1 by (unfold b1; rewrite copy_at_length; rewrite ?put32_length; lia).
  assert (String.length b2 = size) as H2 by (unfold b2; rewrite copy_at_length; [done|]; rewrite str_length_app, zeros_length; destruct tdx; cbn [String.length]; lia).
  assert (String.length b3 = size) as H3 by (unfold b3; rewrite copy_at_length; rewrite ?put32_length; lia).
  assert (String.length b4 = size) as H4 by (unfold b4; rewrite copy_at_length; lia).
  assert (String.length (copy_at 144 (sha256 rd) b4) = size) as H5 by (rewrite copy_at_length; rewrite ?sha256_length; lia).
  unfold IsMockReport, ExtractMockReportData, strlen. rewrite H5, (proj2 (N.leb_le _ _)), (proj2 (N.ltb_ge _ _)) by lia. split.
  - assert (∀ x i b, (4 ≤ i ≤ String.length b)%nat → str_take 4 (copy_at i x b) = str_take 4 b) as Hk by (intros x i b ?; by apply (copy_at_before 4 0)).
    rewrite Hk by lia. unfold b4. rewrite Hk by lia. unfold b3. rewrite Hk by lia. unfold b2. rewrite Hk by lia. unfold b1. rewrite Hk by lia.
    apply String.eqb_eq. apply (copy_at_read 0 "MOCK"). lia.
  - rewrite (copy_at_before 64 80) by lia. f_equal. rewrite <- Hl at 1. apply copy_at_read. lia.
Qed.

(** * A guest with two GPUs *)

Definition two_gpus : list helper_device := [MkHelperDevice 0 "report-0" "cec-0" "-----BEGIN CERTIFICATE-----"; MkHelperDevice 1 "report-1" "" ""].

Lemma two_gpus_fit : Forall device_fits two_gpus.
Proof. do 2 (apply Forall_cons_2; [by vm_compute|]). apply Forall_nil_2. Qed.

(** A gibibyte at once. *)
Definition small_heap (n : N) : bool := (n <=? 2 ^ 30)%N.

Lemma gpu_output_read_witness :
  parseMultiGPUOutput small_heap (put32 2 +:+ encode_devices two_gpus)
  = Some (Ret (Ok [MkGPUReport 0 "report-0cec-0-----BEGIN CERTIFICATE-----"; MkGPUReport 1 "report-1"])).
Proof. exact (proj1 (gpu_output_read small_heap) two_gpus ltac:(discriminate) two_gpus_fit ltac:(reflexivity) ltac:(reflexivity)). Defined.

(** The firmware answers with a report that repeats the data. *)
Definition firmware (rd : string) : result string string :=
  if Nat.eqb (String.length rd) 64 then Ok (put32 0 +:+ put32 64 +:+ zeros 24 +:+ rd +:+ zeros 4032) else Err "invalid argument".
Definition snp_guest : guest :=
  MkGuest false true false false None (λ _, MkTsmEntry "" (Some "no configfs") None (Err "") None) firmware (λ _, Err "no device") None (Ok "CC status: ON")
    (Some (λ args, match args with ["attest-all"; _] => Ok (put32 2 +:+ encode_devices two_gpus) | _ => Ok "2 GPUs" end)) 0 small_heap.
Definition no_env : string → string := λ _, "".
Definition a_nonce : string := b64_EncodeToString (zeros 64).
Definition answered (bind : bool) : option QuoteResponse :=
  match quoteHandler snp_guest (GPUCompositeProvider SEVGuest) "the key" (Ok (MkQuoteRequest a_nonce bind)) with Some (Ret (Ok r)) => Some r | _ => None end.

Lemma snp_bounded : answers_bounded snp_guest.
Proof.
  intros rd resp. change (gu_sev snp_guest rd) with (firmware rd). unfold firmware. destruct (Nat.eqb_spec (String.length rd) 64) as [E|]; [|done].
  intros Hok. apply (f_equal (λ r, match r with Ok x => x | Err _ => "" end)) in Hok. cbv beta iota in Hok. subst resp. rewrite !strlen_app, !put32_strlen. unfold strlen. rewrite !zeros_length, E. lia.
Qed.

Lemma bound_answer : ∃ r, quoteHandler snp_guest (GPUCompositeProvider SEVGuest) "the key" (Ok (MkQuoteRequest a_nonce true)) = Some (Ret (Ok r))
  ∧ List.length (re_GPUReports r) = 2%nat.
Proof. eexists. split; vm_compute; reflexivity. Qed.

Lemma quote_bound_witness :
  ∃ resp nonce q, b64_DecodeString false true a_nonce = Some nonce ∧ strlen nonce = 64%N
    ∧ evidence snp_guest (sha512 ("the key" +:+ nonce)) (GPUCompositeProvider SEVGuest) q ∧ carries resp q ∧ re_GPUReports resp ≠ [].
Proof.
  destruct bound_answer as (r & Er & Hr).
  destruct (quote_bound no_env snp_guest (GPUCompositeProvider SEVGuest) "the key" (MkQuoteRequest a_nonce true) r ltac:(discriminate) ltac:(reflexivity) snp_bounded Er)
    as (nonce & q & En & Hn & He & Hc & _ & _ & _ & _).
  exists r, nonce, q. split; [exact En|]. split; [exact Hn|]. split; [exact He|]. split; [exact Hc|]. intros E. rewrite E in Hr. discriminate Hr.
Defined.

(** ** What the bounds let through *)

(** Four bytes of output ask for room for 2^32 - 1 reports, about 137 GB, before
    any of them is looked for. *)
Example announced_reports_allocated : parseMultiGPUOutput small_heap (put32 4294967295) = Some Panic.
Proof. vm_compute. reflexivity. Qed.

(** The size of a report is added on 32 bits: a size near 2^32 passes the check
    and the slice panics. *)
Example snp_size_wraps : snp_report (put32 0 +:+ put32 4294967295 +:+ zeros 4120) = Panic.
Proof. vm_compute. reflexivity. Qed.

(** The output of an older helper, without certificates: read for one device, and
    for two the index of the second is taken for a size. *)
Definition old_device (i : N) (report : string) : string := put32 i +:+ put32 (strlen report) +:+ report +:+ put32 0.
Example old_output_one : parseMultiGPUOutput small_heap (put32 1 +:+ old_device 0 "report-0") = Some (Ret (Ok [MkGPUReport 0 "report-0"])).
Proof. vm_compute. reflexivity. Qed.
Example old_output_two : ∃ e, parseMultiGPUOutput small_heap (put32 2 +:+ old_device 0 "report-0" +:+ old_device 1 "report-1") = Some (Ret (Err e)).
Proof. eexists. vm_compute. reflexivity. Qed.

(** Certificates that are cut off are left out without an error. *)
Example cut_certificates : parseMultiGPUOutput small_heap (put32 1 +:+ old_device 0 "report-0" +:+ put32 1000 +:+ "-----BEGIN") = Some (Ret (Ok [MkGPUReport 0 "report-0"])).
Proof. vm_compute. reflexivity. Qed.
