(* ===== verification/Migrations.v ===== *)
(** * Migrations

    [migrations]: the registry of migrations and the file of those that were
    applied ([registry.go], [state.go]), the command that runs them at a start
    ([cmd/provider-services/cmd/migrate_run.go]), and the migration of ingresses
    to routes ([ingress_to_httproute.go]). *)
From Stdlib Require Import Ascii String.
From S2P Require Import Prelude GoStrings LeaseBook ChainTypes LeaseNames ProxyConfig MetalLb HostRoutes.

Open Scope string_scope.
Open Scope go_scope.

(** ** Versions *)

Fixpoint before_dash (s : string) : string := match s with EmptyString => EmptyString | String c s => if (c =? "-")%char then EmptyString else String c (before_dash s) end.
Definition stripVersionSuffix (s : string) : string := before_dash s.

(** [fmt.Sscanf] of [%d] into an int: blanks, a sign and digits; nothing is stored
    when there is no digit or the number does not fit.  (Blanks are ASCII; a line
    feed is an error.) *)
Fixpoint skip_blanks (s : string) : string :=
  match s with String c t => if existsb (N.eqb (code c)) [9; 11; 12; 32]%N then skip_blanks t else s | EmptyString => s end.
Fixpoint digits_prefix (s : string) : string :=
  match s with String c t => if (48 <=? code c)%N && (code c <=? 57)%N then String c (digits_prefix t) else EmptyString | EmptyString => EmptyString end.
Definition Sscanf_d (s : string) : Z :=
  let s := skip_blanks s in
  let '(neg, s) := match s with
    | String c t => if (c =? "-")%char then (true, t) else if (c =? "+")%char then (false, t) else (false, s)
    | EmptyString => (false, s)
    end in
  match ParseUint (digits_prefix s) with
  | (n, None) => if neg then (if (n <=? 2 ^ 63)%Z then - n else 0)%Z else if (n <? 2 ^ 63)%Z then n else 0%Z
  | _ => 0%Z
  end.

Definition parseVersionPart (parts : list string) (index : nat) : Z :=
  match parts !! index with None => 0%Z | Some part => Sscanf_d (stripVersionSuffix part) end.

Fixpoint parts_less (n i : nat) (v1Parts v2Parts : list string) : bool :=
  match n with
  | O => false
  | S n =>
      let v1Part := parseVersionPart v1Parts i in
      let v2Part := parseVersionPart v2Parts i in
      if (v1Part <? v2Part)%Z then true else if (v2Part <? v1Part)%Z then false else parts_less n (S i) v1Parts v2Parts
  end.
Definition version_parts (v : string) : list string := Split (TrimPrefix (stripVersionSuffix v) "v") ".".
Definition versionLessThan (v1 v2 : string) : bool :=
  if (v1 =? "") || (v2 =? "") then false
  else
    let v1Parts := version_parts v1 in
    let v2Parts := version_parts v2 in
    parts_less (Nat.max (List.length v1Parts) (List.length v2Parts)) 0 v1Parts v2Parts.

(** ** The file *)

Record State := MkState { st_Applied : list string; st_LastRun : Z; st_ProviderVersion : string }.
Inductive state_file := NoFile | Garbage (err : string) | File (s : State).

(** What reading and writing the file answers; a write that fails leaves the file
    as it was or something else. *)
Record io := MkIo { io_read : option string; io_mkdir : option string; io_write : option (string * option state_file); io_now : Z }.
Definition io_fine (a : io) : Prop := io_read a = None ∧ io_mkdir a = None ∧ io_write a = None.

Section registry.
Context {W : Type} `{MapOrder}.

(** The file, what migrations change, and the answers to come. *)
Record host := MkHost { h_file : state_file; h_world : W; h_io : nat → io }.
Definition with_file (f : state_file) (h : host) : host := MkHost f (h_world h) (h_io h).
Definition later (h : host) : host := MkHost (h_file h) (h_world h) (λ n, h_io h (S n)).

Definition load_file (a : io) (f : state_file) : result string State :=
  match io_read a with
  | Some e => Err ("could not read state file: " +:+ e)
  | None => match f with NoFile => Ok (MkState [] 0 "") | Garbage e => Err ("unable to unmarshal state: " +:+ e) | File s => Ok s end
  end.
Definition Load (h : host) : result string State := load_file (h_io h 0) (h_file h).

Definition Save (state : State) (h : host) : host * option string :=
  let a := h_io h 0 in
  match io_mkdir a with
  | Some e => (later h, Some ("could not create state directory: " +:+ e))
  | None =>
      match io_write a with
      | Some (e, kept) => (later (match kept with Some f => with_file f h | None => h end), Some ("could not write state file: " +:+ e))
      | None => (later (with_file (File (MkState (st_Applied state) (io_now a) (st_ProviderVersion state))) h), None)
      end
  end.

Definition IsApplied (name : string) (h : host) : host * result string bool :=
  (later h, match Load h with Err e => Err e | Ok state => Ok (existsb (String.eqb name) (st_Applied state)) end).

Definition MarkApplied (name : string) (h : host) : host * option string :=
  match Load h with
  | Err e => (later h, Some e)
  | Ok state =>
      if existsb (String.eqb name) (st_Applied state) then (later h, None)
      else Save (MkState (st_Applied state ++ [name])%list (st_LastRun state) (st_ProviderVersion state)) h
  end.

Definition SetProviderVersion (version : string) (h : host) : host * option string :=
  match Load h with
  | Err e => (later h, Some e)
  | Ok state => Save (MkState (st_Applied state) (st_LastRun state) version) h
  end.

Definition GetProviderVersion (h : host) : host * result string string :=
  (later h, match Load h with Err e => Err e | Ok state => Ok (st_ProviderVersion state) end).

(** ** The registry *)

Record Migration := MkMigration { mi_Name : string; mi_FromVersion : string; mi_Run : W → W * option string }.

Definition Register (m : option Migration) (registry : gmap string Migration) : outcome (gmap string Migration) :=
  match m with
  | None => Panic
  | Some m => if mi_Name m =? "" then Panic else match registry !! mi_Name m with Some _ => Panic | None => Ret (<[mi_Name m := m]> registry) end
  end.

Fixpoint insert_migration (m : Migration) (l : list Migration) : list Migration :=
  match l with [] => [m] | x :: l' => if string_le (mi_Name m) (mi_Name x) then m :: l else x :: insert_migration m l' end.
Definition GetAll (registry : gmap string Migration) : list Migration := foldr insert_migration [] (map_order _ (map_to_list registry).*2).
Definition Get (registry : gmap string Migration) (name : string) : option Migration := registry !! name.

(** Whether a migration that was not applied is to run. *)
Definition version_matches (previousVersion fromVersion : string) : bool :=
  let normalizedPrevious := TrimPrefix previousVersion "v" in
  let normalizedFrom := TrimPrefix fromVersion "v" in
  versionLessThan normalizedPrevious normalizedFrom || (normalizedPrevious =? normalizedFrom).

Fixpoint pending_of (previousVersion : string) (l : list Migration) (h : host) : host * result string (list Migration) :=
  match l with
  | [] => (h, Ok [])
  | m :: l =>
      let '(h, applied) := IsApplied (mi_Name m) h in
      match applied with
      | Err e => (h, Err ("failed to check if migration is applied: " +:+ e))
      | Ok applied =>
          let '(h, rest) := pending_of previousVersion l h in
          (h, match rest with
              | Err e => Err e
              | Ok rest =>
                  Ok (if applied || (mi_FromVersion m =? "") || (previousVersion =? "") || negb (version_matches previousVersion (mi_FromVersion m)) then rest else m :: rest)
              end)
      end
  end.

Definition GetPending (registry : gmap string Migration) (h : host) : host * result string (list Migration) :=
  let '(h, previousVersion) := GetProviderVersion h in
  match previousVersion with
  | Err e => (h, Err ("failed to get previous provider version: " +:+ e))
  | Ok previousVersion => pending_of previousVersion (GetAll registry) h
  end.

(** The migrations that were run, each with the error of its run; the errors that
    are reported, and the number of successes. *)
Record run_report := MkReport { rp_runs : list (string * option string); rp_errors : list string; rp_success : nat }.

Fixpoint run_pending (l : list Migration) (h : host) (r : run_report) : host * run_report :=
  match l with
  | [] => (h, r)
  | m :: l =>
      let '(w, err) := mi_Run m (h_world h) in
      let h := MkHost (h_file h) w (h_io h) in
      let runs := (rp_runs r ++ [(mi_Name m, err)])%list in
      match err with
      | Some e => run_pending l h (MkReport runs (rp_errors r ++ ["migration failed: " +:+ e])%list (rp_success r))
      | None =>
          let '(h, err) := MarkApplied (mi_Name m) h in
          match err with
          | Some e => run_pending l h (MkReport runs (rp_errors r ++ ["failed to mark migration as applied: " +:+ e])%list (rp_success r))
          | None => run_pending l h (MkReport runs (rp_errors r) (S (rp_success r)))
          end
      end
  end.

Definition RunMigrations (registry : gmap string Migration) (currentVersion : string) (h : host) : host * run_report :=
  let '(h, pending) := GetPending registry h in
  match pending with
  | Err e => (h, MkReport [] [e] 0)
  | Ok pending =>
      let '(h, r) := run_pending pending h (MkReport [] [] 0) in
      if currentVersion =? "" then (h, r)
      else let '(h, err) := SetProviderVersion currentVersion h in
           match err with
           | None => (h, r)
           | Some e => (h, MkReport (rp_runs r) (rp_errors r ++ ["failed to update provider version: " +:+ e])%list (rp_success r))
           end
  end.

(** ** A start *)

Fixpoint mark_all (l : list Migration) (h : host) : host * option string :=
  match l with
  | [] => (h, None)
  | m :: l => let '(h, err) := MarkApplied (mi_Name m) h in match err with Some e => (h, Some e) | None => mark_all l h end
  end.

Definition version_or_default (version : string) : string := if version =? "" then "0.0.0" else version.

(** [runMigrations]: the report, or the error that ends it.  The questions that
    are only logged are left out. *)
Definition runMigrations (registry : gmap string Migration) (version : string) (h : host) : host * result string run_report :=
  let currentVersion := version_or_default version in
  let set h what := let '(h, err) := SetProviderVersion currentVersion h in
                    (h, match err with Some e => Err (what +:+ e) | None => Ok (MkReport [] [] 0) end) in
  let '(h, previousVersion) := GetProviderVersion h in
  match previousVersion with
  | Err e => (h, Err ("failed to get previous provider version: " +:+ e))
  | Ok previousVersion =>
      if previousVersion =? "" then
        let '(h, err) := mark_all (GetAll registry) h in
        match err with
        | Some e => (h, Err ("failed to mark migration as applied: " +:+ e))
        | None => set h "failed to set provider version: "
        end
      else match GetAll registry with
           | [] => set h "failed to update provider version: "
           | _ =>
               let '(h, pending) := GetPending registry h in
               match pending with
               | Err e => (h, Err ("failed to get pending migrations: " +:+ e))
               | Ok [] => set h "failed to update provider version: "
               | Ok _ => let '(h, r) := RunMigrations registry currentVersion h in (h, Ok r)
               end
           end
  end.

(** The provider is started again and again, with what it is built from. *)
Fixpoint starts (l : list (gmap string Migration * string)) (h : host) : host * list (result string run_report) :=
  match l with
  | [] => (h, [])
  | (registry, version) :: l => let '(h, r) := runMigrations registry version h in let '(h, rs) := starts l h in (h, r :: rs)
  end.

End registry.

(** ** Ingresses to routes *)

(** [strconv.ParseFloat] of a text, rounded up to an integer. *)
Class ParseFloat := ParseFloat_Ceil : string → option Z.

(** An ingress as it is listed: its namespace and its rules, of which the paths
    and the service of a path may be missing. *)
Record listed_ingress := MkListed {
  li_Namespace : string; li_Name : string; li_Labels : label_map; li_Annotations : label_map; li_Rules : list (string * list (option (string * Z))) }.

(** Routes by namespace and name, with their annotations. *)
Record annotated_route := MkAnnotated { an_Route : HTTPRoute; an_Annotations : label_map }.
Notation route_store := (gmap (string * string) annotated_route).

Section ingress.
Context `{ParseFloat}.

Definition ingressRoot : string := "nginx.ingress.kubernetes.io".
Definition gatewayRoot : string := "nginx.org".

Definition getAnnotationValue (annotations : label_map) (key defaultValue : string) : string := default defaultValue (annotations !! key).
Definition getAnnotationInt (annotations : label_map) (key : string) (defaultValue : Z) : Z :=
  match annotations !! key with
  | Some val => if Atoi_ok val then Atoi_value val else default defaultValue (ParseFloat_Ceil val)
  | None => defaultValue
  end.

Definition convertAnnotations (ingressAnnotations : label_map) : label_map :=
  let readTimeout := getAnnotationInt ingressAnnotations (ingressRoot +:+ "/proxy-read-timeout") 60 in
  let sendTimeout := getAnnotationInt ingressAnnotations (ingressRoot +:+ "/proxy-send-timeout") 60 in
  let annotations : label_map := <[gatewayRoot +:+ "/proxy-send-timeout" := ItoaZ sendTimeout]> {[gatewayRoot +:+ "/proxy-read-timeout" := ItoaZ readTimeout]} in
  let annotations := <[gatewayRoot +:+ "/client-max-body-size" := getAnnotationValue ingressAnnotations (ingressRoot +:+ "/proxy-body-size") "1m"]> annotations in
  let annotations := <[gatewayRoot +:+ "/proxy-next-upstream-tries" := getAnnotationValue ingressAnnotations (ingressRoot +:+ "/proxy-next-upstream-tries") "3"]> annotations in
  let nextTimeout := getAnnotationValue ingressAnnotations (ingressRoot +:+ "/proxy-next-upstream-timeout") "0" in
  let annotations :=
    if negb (nextTimeout =? "0") && Atoi_ok nextTimeout && (0 <? Atoi_value nextTimeout)%Z
    then <[gatewayRoot +:+ "/proxy-next-upstream-timeout" := ItoaZ (Atoi_value nextTimeout) +:+ "s"]> annotations else annotations in
  let nextUpstream := getAnnotationValue ingressAnnotations (ingressRoot +:+ "/proxy-next-upstream") "" in
  if negb (nextUpstream =? "") then <[gatewayRoot +:+ "/proxy-next-upstream" := nextUpstream]> annotations else annotations.

Definition mig_buildHTTPRoute (name : string) (labels ingressAnnotations : label_map) (gatewayName gatewayNamespace hostname serviceName : string) (servicePort : Z) : annotated_route :=
  MkAnnotated (MkRoute name labels (MkRouteSpec [(gatewayNamespace, gatewayName)] [hostname] [MkRouteRule [] [(serviceName, Some servicePort)]]))
    (convertAnnotations ingressAnnotations).

(** What the API server answers beyond what it has stored. *)
Record mig_answers := MkMigAnswers { ma_get : option kerror; ma_put : option kerror }.

Definition migrateIngress (an : mig_answers) (i : listed_ingress) (gatewayName gatewayNamespace : string) (st : route_store) : route_store * option kerror :=
  match li_Rules i with
  | (host, Some (serviceName, servicePort) :: _) :: _ =>
      let key := (li_Namespace i, li_Name i) in
      let u := mig_buildHTTPRoute (li_Name i) (li_Labels i) (li_Annotations i) gatewayName gatewayNamespace host serviceName servicePort in
      match (match ma_get an with Some e => Some e | None => match st !! key with Some _ => None | None => Some NotFound end end) with
      | None => match ma_put an with Some e => (st, Some e) | None => (<[key := u]> st, None) end
      | Some NotFound =>
          match ma_put an, st !! key with
          | Some e, _ => (st, Some e)
          | None, Some _ => (st, Some (OtherError "already exists"))
          | None, None => (<[key := u]> st, None)
          end
      | Some e => (st, Some e)
      end
  | _ => (st, None)
  end.

Fixpoint migrate_all (an : nat → mig_answers) (l : list listed_ingress) (gatewayName gatewayNamespace : string) (st : route_store) : route_store * option kerror :=
  match l with
  | [] => (st, None)
  | i :: l =>
      let '(st, err) := migrateIngress (an 0%nat) i gatewayName gatewayNamespace st in
      match err with Some e => (st, Some e) | None => migrate_all (λ n, an (S n)) l gatewayName gatewayNamespace st end
  end.

(** The ingresses of all namespaces with the label of the provider. *)
Definition managed_ingresses (all : list listed_ingress) : list listed_ingress :=
  List.filter (λ i, bool_decide (li_Labels i !! AkashManagedLabelName = Some "true")) all.

(** [Run]; [listing]: the ingresses, or the error of listing them. *)
Definition ingress_Run (listing : result string (list listed_ingress)) (an : nat → mig_answers) (gatewayName gatewayNamespace : string) (st : route_store)
  : route_store * option string :=
  match listing with
  | Err e => (st, Some ("failed to list ingresses: " +:+ e))
  | Ok all =>
      let '(st, err) := migrate_all an (managed_ingresses all) gatewayName gatewayNamespace st in
      (st, match err with Some _ => Some "failed to migrate ingress" | None => None end)
  end.

Definition ingressToHTTPRoute (listing : result string (list listed_ingress)) (an : nat → mig_answers) (gatewayName gatewayNamespace : string) : @Migration route_store :=
  MkMigration "ingress-to-httproute-001" "0.10.6" (ingress_Run listing an gatewayName gatewayNamespace).

End ingress.
