(* ===== verification/MigrationsSound.v ===== *)
(** * Migrations run once

    Versions are ordered as numbers; what is due at a start is run, and not
    again once it succeeded; routes made of ingresses are the same
    connections. *)
From Stdlib Require Import Ascii String.
From S2P Require Import Prelude GoStrings LeaseBook ChainTypes LeaseNames ProxyConfig MetalLb HostRoutes Migrations.

Open Scope string_scope.
Open Scope go_scope.

(** ** Versions *)

(** The numbers of a version, followed by zeros. *)
Definition number (v : string) (i : nat) : Z := parseVersionPart (version_parts v) i.
(** The first number in which two versions differ is smaller. *)
Definition lex (a b : nat → Z) : Prop := ∃ i, (∀ j, (j < i)%nat → a j = b j) ∧ (a i < b i)%Z.

Lemma parts_less_iff n i p q :
  parts_less n i p q = true ↔ ∃ k, (i ≤ k < i + n)%nat ∧ (∀ j, (i ≤ j < k)%nat → parseVersionPart p j = parseVersionPart q j) ∧ (parseVersionPart p k < parseVersionPart q k)%Z.
Proof.
  revert i. induction n as [|n IH]; intros i; cbn [parts_less]; [split; [done|intros (k & ? & _); lia]|].
  destruct (Z.ltb_spec (parseVersionPart p i) (parseVersionPart q i)) as [Hl|Hl].
  { split; [intros _; exists i; split_and!; [lia|lia|intros; lia|done]|done]. }
  destruct (Z.ltb_spec (parseVersionPart q i) (parseVersionPart p i)) as [Hg|Hg].
  { split; [done|]. intros (k & Hk & Heq & Hlt). destruct (decide (k = i)) as [->|]; [lia|]. specialize (Heq i). lia. }
  rewrite IH. split; intros (k & Hk & Heq & Hlt); exists k.
  - split_and!; [lia|lia| |done]. intros j Hj. destruct (decide (j = i)) as [->|]; [lia|apply Heq; lia].
  - destruct (decide (k = i)) as [->|]; [lia|]. split_and!; [lia|lia| |done]. intros j Hj. apply Heq. lia.
Qed.

Lemma number_beyond v i : (List.length (version_parts v) ≤ i)%nat → number v i = 0%Z.
Proof. intros Hi. unfold number, parseVersionPart. by rewrite lookup_ge_None_2. Qed.

Lemma versionLessThan_iff v w : v ≠ "" → w ≠ "" → versionLessThan v w = true ↔ lex (number v) (number w).
Proof.
  intros Hv Hw. unfold versionLessThan. rewrite (proj2 (String.eqb_neq v "") Hv), (proj2 (String.eqb_neq w "") Hw). cbn [orb].
  rewrite parts_less_iff. unfold lex, number. split.
  - intros (k & _ & Heq & Hlt). exists k. split; [intros j Hj; apply Heq; lia|done].
  - intros (k & Heq & Hlt). exists k. split_and!; [lia| |intros j Hj; apply Heq; lia|done].
    destruct (decide (k < Nat.max (List.length (version_parts v)) (List.length (version_parts w)))%nat) as [|Hge]; [lia|].
    pose proof (number_beyond v k) as E1. pose proof (number_beyond w k) as E2. unfold number in E1, E2. lia.
Qed.

Lemma lex_trans a b c : lex a b → lex b c → lex a c.
Proof.
  intros (i & Hi & Hli) (j & Hj & Hlj). destruct (Nat.lt_trichotomy i j) as [Hij|[->|Hij]].
  - exists i. split; [intros k Hk; rewrite Hi, Hj by lia; done|]. rewrite <- Hj by done. done.
  - exists j. split; [intros k Hk; by rewrite Hi, Hj|lia].
  - exists j. split; [intros k Hk; rewrite Hi, Hj by lia; done|]. by rewrite Hi.
Qed.

(** Versions are compared by their numbers, from the first that differs, with
    missing ones as zero; this is a strict order. *)
Theorem version_order u v w : u ≠ "" → v ≠ "" → w ≠ "" →
  (versionLessThan u v = true ↔ lex (number u) (number v))
  ∧ versionLessThan u u = false
  ∧ (versionLessThan u v = true → versionLessThan v w = true → versionLessThan u w = true)
  ∧ (versionLessThan u v = true → versionLessThan v u = false).
Proof.
  intros Hu Hv Hw. assert (∀ x, x ≠ "" → versionLessThan x x = false) as Hirr.
  { intros x Hx. apply not_true_iff_false. rewrite versionLessThan_iff by done. intros (i & _ & Hlt). lia. }
  split_and!; [by apply versionLessThan_iff|by apply Hirr| |].
  - rewrite !versionLessThan_iff by done. apply lex_trans.
  - rewrite <- not_true_iff_false, !versionLessThan_iff by done. intros H1 H2. apply (lex_trans _ _ _ H1) in H2 as (i & _ & Hlt). lia.
Qed.

(** *** Versions of numbers *)

(** A version as it is published: numbers with dots between them, with or
    without a leading [v]. *)
Fixpoint dotted_numbers (l : list Z) : string :=
  match l with [] => "" | [z] => FormatUint z | z :: l => FormatUint z +:+ String "." (dotted_numbers l) end.
Definition is_version (v : string) (l : list Z) : Prop :=
  l ≠ [] ∧ Forall (λ z, 0 ≤ z < 2 ^ 63)%Z l ∧ (v = dotted_numbers l ∨ v = String "v" (dotted_numbers l)).
(** In the first number in which they differ, the missing ones being zero, [l]
    is smaller. *)
Definition older (l l' : list Z) : Prop := lex (λ i, default 0%Z (l !! i)) (λ i, default 0%Z (l' !! i)).

Definition digit_or_dot (c : ascii) : bool := is_digit c || (c =? ".")%char.

Lemma is_digit_facts c : is_digit c = true →
  (c =? "-")%char = false ∧ (c =? "+")%char = false ∧ (c =? ".")%char = false ∧ (c =? "v")%char = false ∧ existsb (N.eqb (code c)) [9; 11; 12; 32]%N = false
  ∧ ((48 <=? code c)%N && (code c <=? 57)%N) = true.
Proof.
  intros Hc. enough (implb (is_digit c) (negb (c =? "-")%char && negb (c =? "+")%char && negb (c =? ".")%char && negb (c =? "v")%char
    && negb (existsb (N.eqb (code c)) [9; 11; 12; 32]%N) && ((48 <=? code c)%N && (code c <=? 57)%N)) = true) as E.
  { rewrite Hc in E. cbn [implb] in E. rewrite !andb_true_iff, !negb_true_iff in E. rewrite andb_true_iff. tauto. }
  clear Hc. by_bytes c.
Qed.

Lemma FormatUint_digits z : str_forall is_digit (FormatUint z) = true.
Proof. apply Itoa_digits. Qed.

Lemma digits_prefix_all s : str_forall is_digit s = true → digits_prefix s = s.
Proof.
  induction s as [|c s IH]; [done|]. cbn [str_forall digits_prefix]. intros [Hc Hs]%andb_true_iff.
  destruct (is_digit_facts c Hc) as (_ & _ & _ & _ & _ & ->). by rewrite IH.
Qed.

Lemma before_dash_id s : str_forall digit_or_dot s = true → before_dash s = s.
Proof.
  induction s as [|c s IH]; [done|]. cbn [str_forall before_dash]. intros [Hc Hs]%andb_true_iff.
  assert ((c =? "-")%char = false) as ->; [|by rewrite IH]. unfold digit_or_dot in Hc. apply orb_true_iff in Hc as [Hc|Hc%Ascii.eqb_eq]; [by apply is_digit_facts|by subst].
Qed.

Lemma digits_dots s : str_forall is_digit s = true → str_forall digit_or_dot s = true.
Proof. apply str_forall_impl. intros c Hc. unfold digit_or_dot. by rewrite Hc. Qed.

Lemma Sscanf_FormatUint z : (0 ≤ z < 2 ^ 63)%Z → Sscanf_d (stripVersionSuffix (FormatUint z)) = z.
Proof.
  intros Hz. unfold stripVersionSuffix. rewrite before_dash_id by (apply digits_dots, FormatUint_digits). pose proof (FormatUint_digits z) as Hd.
  pose proof (ParseUint_FormatUint z ltac:(lia)) as Hp. unfold Sscanf_d. set (s := FormatUint z) in *.
  assert (skip_blanks s = s ∧ (match s with String c t => if (c =? "-")%char then (true, t) else if (c =? "+")%char then (false, t) else (false, s) | EmptyString => (false, s) end) = (false, s)) as [-> ->].
  { destruct s as [|c t]; [done|]. cbn [str_forall] in Hd. apply andb_true_iff in Hd as [Hc _]. destruct (is_digit_facts c Hc) as (E1 & E2 & _ & _ & E3 & _).
    cbn [skip_blanks]. by rewrite E1, E2, E3. }
  rewrite digits_prefix_all, Hp by done. by rewrite (proj2 (Z.ltb_lt _ _)) by lia.
Qed.

Lemma dotted_numbers_dots l : str_forall digit_or_dot (dotted_numbers l) = true.
Proof.
  induction l as [|z l IH]; [done|]. destruct l as [|z' l]; [apply digits_dots, FormatUint_digits|].
  change (dotted_numbers (z :: z' :: l)) with (FormatUint z +:+ String "." (dotted_numbers (z' :: l))). rewrite str_forall_app. cbn [str_forall].
  by rewrite digits_dots, IH by apply FormatUint_digits.
Qed.

Lemma Split_dotted l : l ≠ [] → Split (dotted_numbers l) "." = FormatUint <$> l.
Proof.
  unfold Split. assert (∀ z, str_forall (λ c, negb (c =? ".")%char) (FormatUint z) = true) as Hno.
  { intros z. apply (str_forall_impl is_digit); [|apply FormatUint_digits]. intros c Hc. apply negb_true_iff. by apply is_digit_facts. }
  induction l as [|z l IH]; [done|]. intros _. destruct l as [|z' l]; [cbn [dotted_numbers]; by rewrite split_no_sep|].
  change (dotted_numbers (z :: z' :: l)) with (FormatUint z +:+ String "." (dotted_numbers (z' :: l))). rewrite split_sep by apply Hno. by rewrite IH.
Qed.

Lemma trim_v_id s : str_forall digit_or_dot s = true → TrimPrefix s "v" = s.
Proof.
  destruct s as [|c s]; [done|]. cbn [str_forall]. intros [Hc _]%andb_true_iff. unfold TrimPrefix, digit_or_dot in *.
  assert ((c =? "v")%char = false) as Hv by (apply orb_true_iff in Hc as [Hc|Hc%Ascii.eqb_eq]; [by apply is_digit_facts|by subst]).
  apply Ascii.eqb_neq in Hv. unfold HasPrefix. cbn [String.prefix]. destruct (ascii_dec "v" c) as [<-|]; [by destruct Hv|done].
Qed.

Lemma version_trimmed v l : is_version v l → TrimPrefix v "v" = dotted_numbers l.
Proof.
  intros (_ & _ & [->| ->]); [apply trim_v_id, dotted_numbers_dots|]. exact (TrimPrefix_app "v" (dotted_numbers l)).
Qed.

Lemma version_number l i : l ≠ [] → Forall (λ z, 0 ≤ z < 2 ^ 63)%Z l → number (dotted_numbers l) i = default 0%Z (l !! i).
Proof.
  intros Hl Hz. unfold number, version_parts, stripVersionSuffix. rewrite before_dash_id, trim_v_id, Split_dotted by first [apply dotted_numbers_dots|done].
  unfold parseVersionPart. rewrite list_lookup_fmap. destruct (l !! i) as [z|] eqn:E; [|done]. cbn [fmap option_fmap option_map default].
  apply Sscanf_FormatUint. rewrite Forall_lookup in Hz. by apply (Hz i).
Qed.

Lemma dotted_numbers_some l : l ≠ [] → Forall (λ z, 0 ≤ z < 2 ^ 63)%Z l → dotted_numbers l ≠ "".
Proof.
  intros Hl Hz E. pose proof (Split_dotted l Hl) as Hs. rewrite E in Hs. destruct l as [|z l]; [done|]. injection Hs as Hs _.
  apply Forall_cons in Hz as [Hz _]. pose proof (ParseUint_FormatUint z ltac:(lia)) as Hp. rewrite <- Hs in Hp. discriminate Hp.
Qed.

Lemma lex_ext a b a' b' : (∀ i, a i = a' i) → (∀ i, b i = b' i) → lex a b ↔ lex a' b'.
Proof. intros Ha Hb. unfold lex. split; intros (i & Heq & Hlt); exists i; (split; [intros j Hj; specialize (Heq j Hj)|]); rewrite ?Ha, ?Hb in *; congruence || lia. Qed.

(** What the filter says of such versions, but for equal ones. *)
Lemma version_matches_numbers p f l l' : is_version p l → is_version f l' →
  (older l l' → version_matches p f = true) ∧ (older l' l → version_matches p f = false).
Proof.
  intros Hp Hf. unfold version_matches. cbv zeta. rewrite (version_trimmed p l Hp), (version_trimmed f l' Hf). destruct Hp as (Hl & Hz & _), Hf as (Hl' & Hz' & _).
  pose proof (λ i, version_number l i Hl Hz) as En. pose proof (λ i, version_number l' i Hl' Hz') as En'.
  pose proof (versionLessThan_iff _ _ (dotted_numbers_some l Hl Hz) (dotted_numbers_some l' Hl' Hz')) as Hless. rewrite (lex_ext _ _ _ _ En En') in Hless. split.
  - intros Ho. apply orb_true_iff. left. by apply Hless.
  - intros Ho. apply orb_false_iff. split.
    + apply not_true_iff_false. intros E%Hless. destruct (lex_trans _ _ _ E Ho) as (i & _ & ?). lia.
    + apply String.eqb_neq. intros E. destruct Ho as (i & _ & Hlt). rewrite <- En, <- En', E in Hlt. lia.
Qed.

(** ** Runs *)

Section runs.
Context {W : Type} `{MapOrder}.
Implicit Types h : host (W := W).

Definition applied h : list string := match h_file h with File s => st_Applied s | _ => [] end.
Definition recorded h : string := match h_file h with File s => st_ProviderVersion s | _ => "" end.
(** The file can be read, and reading and writing it work. *)
Definition sound_host h : Prop := (∀ n, io_fine (h_io h n)) ∧ ∀ e, h_file h ≠ Garbage e.
Definition keyed (registry : gmap string (Migration (W := W))) : Prop := ∀ k m, registry !! k = Some m → mi_Name m = k.

(** What the filter lets through. *)
Definition due h (m : Migration (W := W)) : bool :=
  negb (existsb (String.eqb (mi_Name m)) (applied h) || (mi_FromVersion m =? "") || (recorded h =? "") || negb (version_matches (recorded h) (mi_FromVersion m))).

Lemma later_sound h : sound_host h → sound_host (later h) ∧ applied (later h) = applied h ∧ recorded (later h) = recorded h ∧ h_world (later h) = h_world h.
Proof. intros [Hio Hf]. split; [split; [intros n; exact (Hio (S n))|exact Hf]|done]. Qed.

Lemma load_sound h : sound_host h → ∃ s, Load h = Ok s ∧ st_Applied s = applied h ∧ st_ProviderVersion s = recorded h.
Proof.
  intros [Hio Hf]. destruct (Hio 0%nat) as (Hr & _). unfold Load, load_file, applied, recorded. rewrite Hr.
  destruct (h_file h) as [|e|s]; [by eexists|by destruct (Hf e)|by eexists].
Qed.

Lemma save_sound h s : sound_host h →
  ∃ h', Save s h = (h', None) ∧ sound_host h' ∧ applied h' = st_Applied s ∧ recorded h' = st_ProviderVersion s ∧ h_world h' = h_world h.
Proof.
  intros [Hio Hf]. destruct (Hio 0%nat) as (_ & Hm & Hw). unfold Save. rewrite Hm, Hw. eexists. split; [done|]. split; [|done].
  split; [intros n; exact (Hio (S n))|done].
Qed.

Lemma existsb_elem name l : existsb (String.eqb name) l = true ↔ name ∈ l.
Proof.
  rewrite existsb_exists. split; [intros (x & Hx%list_elem_of_In & ->%String.eqb_eq); done|]. intros Hn%list_elem_of_In. exists name. by rewrite String.eqb_refl.
Qed.

Lemma mark_sound name h : sound_host h →
  ∃ h', MarkApplied name h = (h', None) ∧ sound_host h' ∧ recorded h' = recorded h ∧ h_world h' = h_world h
    ∧ ∀ x, x ∈ applied h' ↔ x = name ∨ x ∈ applied h.
Proof.
  intros Hs. destruct (load_sound h Hs) as (s & El & Ea & Ev). unfold MarkApplied. rewrite El, Ea.
  destruct (existsb _ _) eqn:E.
  - apply existsb_elem in E. destruct (later_sound h Hs) as (Hs' & Ea' & Ev' & Ew). eexists. split; [done|]. split_and!; try done. intros x. rewrite Ea'. naive_solver.
  - destruct (save_sound h (MkState (applied h ++ [name])%list (st_LastRun s) (st_ProviderVersion s)) Hs) as (h' & -> & Hs' & Ea' & Ev' & Ew).
    eexists. split; [done|]. split_and!; try done; [by rewrite Ev'|]. intros x. rewrite Ea'. cbn [st_Applied]. rewrite elem_of_app, list_elem_of_singleton. tauto.
Qed.

Lemma set_version_sound v h : sound_host h →
  ∃ h', SetProviderVersion v h = (h', None) ∧ sound_host h' ∧ recorded h' = v ∧ applied h' = applied h ∧ h_world h' = h_world h.
Proof.
  intros Hs. destruct (load_sound h Hs) as (s & El & Ea & Ev). unfold SetProviderVersion. rewrite El.
  destruct (save_sound h (MkState (st_Applied s) (st_LastRun s) v) Hs) as (h' & -> & Hs' & Ea' & Ev' & Ew).
  eexists. split; [done|]. split_and!; try done. by rewrite Ea'.
Qed.

Lemma pending_sound h l : sound_host h →
  ∃ h', pending_of (recorded h) l h = (h', Ok (List.filter (due h) l)) ∧ sound_host h' ∧ h_file h' = h_file h ∧ h_world h' = h_world h.
Proof.
  intros Hs. assert (∀ l h0, sound_host h0 → h_file h0 = h_file h → h_world h0 = h_world h →
    ∃ h', pending_of (recorded h) l h0 = (h', Ok (List.filter (due h) l)) ∧ sound_host h' ∧ h_file h' = h_file h ∧ h_world h' = h_world h) as Hgen; [|by apply Hgen].
  clear l. induction l as [|m l IH]; intros h0 Hs0 Ef Ew; cbn [pending_of List.filter]; [by eexists|].
  destruct (load_sound h0 Hs0) as (s & El & Ea & _). unfold IsApplied. rewrite El.
  destruct (later_sound h0 Hs0) as (Hs1 & _ & _ & Ew1). destruct (IH (later h0) Hs1 Ef ltac:(congruence)) as (h' & -> & Hs' & Ef' & Ew').
  exists h'. split; [|done]. do 2 f_equal. rewrite Ea. unfold due. replace (applied h0) with (applied h) by (unfold applied; by rewrite Ef).
  by destruct (existsb _ _ || _ || _ || _).
Qed.

Lemma run_pending_sound l h r : sound_host h →
  ∃ h' r' new, run_pending l h r = (h', r') ∧ rp_runs r' = (rp_runs r ++ new)%list ∧ new.*1 = mi_Name <$> l
    ∧ sound_host h' ∧ recorded h' = recorded h ∧ ∀ x, x ∈ applied h' ↔ x ∈ applied h ∨ (x, None) ∈ new.
Proof.
  revert h r. induction l as [|m l IH]; intros h r Hs; cbn [run_pending].
  { exists h, r, []. rewrite app_nil_r. split_and!; try done. intros x. rewrite elem_of_nil. tauto. }
  destruct (mi_Run m (h_world h)) as [w err]. set (h1 := MkHost (h_file h) w (h_io h)). assert (sound_host h1) as Hs1 by exact Hs.
  destruct err as [e|].
  - destruct (IH h1 (MkReport (rp_runs r ++ [(mi_Name m, Some e)])%list (rp_errors r ++ ["migration failed: " +:+ e])%list (rp_success r)) Hs1)
      as (h' & r' & new & -> & Er & En & Hs' & Ev & Ha).
    exists h', r', ((mi_Name m, Some e) :: new). split_and!; try done.
    + rewrite Er. cbn [rp_runs]. by rewrite <- app_assoc.
    + cbn. by rewrite En.
    + intros x. rewrite Ha, elem_of_cons. change (applied h1) with (applied h). naive_solver.
  - destruct (mark_sound (mi_Name m) h1 Hs1) as (h2 & -> & Hs2 & Ev2 & _ & Ha2).
    destruct (IH h2 (MkReport (rp_runs r ++ [(mi_Name m, None)])%list (rp_errors r) (S (rp_success r))) Hs2) as (h' & r' & new & -> & Er & En & Hs' & Ev & Ha).
    exists h', r', ((mi_Name m, None) :: new). split_and!; try done.
    + rewrite Er. cbn [rp_runs]. by rewrite <- app_assoc.
    + cbn. by rewrite En.
    + by rewrite Ev, Ev2.
    + intros x. rewrite Ha, Ha2, elem_of_cons. change (applied h1) with (applied h). naive_solver.
Qed.

Lemma mark_all_sound (l : list (Migration (W := W))) h : sound_host h →
  ∃ h', mark_all l h = (h', None) ∧ sound_host h' ∧ recorded h' = recorded h ∧ ∀ x, x ∈ applied h' ↔ x ∈ applied h ∨ x ∈ mi_Name <$> l.
Proof.
  revert h. induction l as [|m l IH]; intros h Hs; cbn [mark_all]; [exists h; split_and!; try done; intros x; rewrite elem_of_nil; tauto|].
  destruct (mark_sound (mi_Name m) h Hs) as (h1 & -> & Hs1 & Ev1 & _ & Ha1). destruct (IH h1 Hs1) as (h' & -> & Hs' & Ev & Ha).
  exists h'. split_and!; try done; [congruence|]. intros x. rewrite Ha, Ha1, fmap_cons, elem_of_cons. tauto.
Qed.

Lemma insert_migration_perm (m : Migration (W := W)) l : insert_migration m l ≡ₚ m :: l.
Proof. induction l as [|x l IH]; cbn; [done|]. case_match; [done|]. rewrite IH. apply Permutation_swap. Qed.

Lemma GetAll_perm (registry : gmap string (Migration (W := W))) : GetAll registry ≡ₚ (map_to_list registry).*2.
Proof.
  unfold GetAll. etrans; [|apply map_order_perm]. induction (map_order _ _) as [|m l IH]; cbn [foldr]; [done|]. by rewrite insert_migration_perm, IH.
Qed.

Lemma GetAll_elem (registry : gmap string (Migration (W := W))) m : keyed registry → m ∈ GetAll registry ↔ registry !! mi_Name m = Some m.
Proof.
  intros Hk. rewrite GetAll_perm, list_elem_of_fmap. split.
  - intros ([k m'] & -> & Hm%elem_of_map_to_list). cbn. by rewrite (Hk _ _ Hm).
  - intros Hm. exists (mi_Name m, m). split; [done|]. by apply elem_of_map_to_list.
Qed.

Lemma GetAll_names (registry : gmap string (Migration (W := W))) : keyed registry → NoDup (mi_Name <$> GetAll registry).
Proof.
  intros Hk. rewrite GetAll_perm, <- list_fmap_compose.
  assert ((mi_Name ∘ snd) <$> map_to_list registry = (map_to_list registry).*1) as ->; [|apply NoDup_fst_map_to_list].
  apply list_fmap_ext. intros i [k m] Hi. cbn. apply Hk. apply elem_of_map_to_list. by eapply list_elem_of_lookup_2.
Qed.

Lemma GetPending_sound (registry : gmap string (Migration (W := W))) h : sound_host h →
  ∃ h', GetPending registry h = (h', Ok (List.filter (due h) (GetAll registry))) ∧ sound_host h' ∧ h_file h' = h_file h.
Proof.
  intros Hs. destruct (load_sound h Hs) as (s & El & _ & Ev). unfold GetPending, GetProviderVersion. rewrite El, Ev.
  destruct (later_sound h Hs) as (Hs1 & _ & Ev1 & _). destruct (pending_sound (later h) (GetAll registry) Hs1) as (h' & E & Hs' & Ef & _).
  rewrite Ev1 in E. rewrite E. by exists h'.
Qed.

(** What a start does, in terms of the filter. *)
Definition start_does (registry : gmap string (Migration (W := W))) (version : string) h h' (rep : run_report) : Prop :=
  recorded h' = version_or_default version
  ∧ NoDup (rp_runs rep).*1
  ∧ (∀ name, name ∈ (rp_runs rep).*1 ↔ ∃ m, registry !! name = Some m ∧ due h m = true)
  ∧ ∀ x, x ∈ applied h' ↔ x ∈ applied h ∨ (x, None) ∈ rp_runs rep ∨ (recorded h = "" ∧ is_Some (registry !! x)).

Lemma due_names (registry : gmap string (Migration (W := W))) h name : keyed registry →
  name ∈ (mi_Name <$> List.filter (due h) (GetAll registry)) ↔ ∃ m, registry !! name = Some m ∧ due h m = true.
Proof.
  intros Hk. rewrite list_elem_of_fmap. split.
  - intros (m & -> & Hm%list_elem_of_In%filter_In). destruct Hm as [Hin%list_elem_of_In Hd]. exists m. split; [by apply GetAll_elem|done].
  - intros (m & Hm & Hd). exists m. pose proof (Hk _ _ Hm) as En. split; [done|]. apply list_elem_of_In, filter_In. split; [|done].
    apply list_elem_of_In, GetAll_elem; [done|]. by rewrite En.
Qed.

Lemma no_runs registry version h h' : sound_host h' → recorded h' = version_or_default version →
  (∀ x, x ∈ applied h' ↔ x ∈ applied h ∨ (recorded h = "" ∧ is_Some (registry !! x))) →
  (∀ name m, registry !! name = Some m → due h m = false) → start_does registry version h h' (MkReport [] [] 0).
Proof.
  intros _ Hv Ha Hd. split_and!; [done|constructor| |].
  - intros name. cbn. rewrite elem_of_nil. split; [done|]. intros (m & Hm & E). by rewrite (Hd _ _ Hm) in E.
  - intros x. rewrite Ha. cbn. rewrite elem_of_nil. tauto.
Qed.

Lemma fresh_start (registry : gmap string (Migration (W := W))) version h h1 : sound_host h1 → keyed registry → recorded h = "" → h_file h1 = h_file h →
  ∃ h', (let '(h2, err) := mark_all (GetAll registry) h1 in
         match err with
         | Some e => (h2, Err ("failed to mark migration as applied: " +:+ e))
         | None => let '(h3, err) := SetProviderVersion (version_or_default version) h2 in
                   (h3, match err with Some e => Err ("failed to set provider version: " +:+ e) | None => Ok (MkReport [] [] 0) end)
         end) = (h', Ok (MkReport [] [] 0)) ∧ sound_host h' ∧ start_does registry version h h' (MkReport [] [] 0).
Proof.
  intros Hs1 Hk E0 Ef. destruct (mark_all_sound (GetAll registry) h1 Hs1) as (h2 & -> & Hs2 & Ev2 & Ha2).
  destruct (set_version_sound (version_or_default version) h2 Hs2) as (h3 & -> & Hs3 & Ev3 & Ea3 & _). eexists. split; [done|]. split; [done|].
  apply no_runs; [done|done| |].
  - intros x. rewrite Ea3, Ha2. unfold applied at 1. rewrite Ef. change (match h_file h with File s => st_Applied s | _ => [] end) with (applied h). f_equiv.
    rewrite list_elem_of_fmap. split.
    + intros (m & -> & Hm%GetAll_elem); [|done]. by split; [|eexists].
    + intros [_ [m Hm]]. exists m. pose proof (Hk _ _ Hm) as <-. split; [done|]. by apply GetAll_elem.
  - intros name m _. unfold due. rewrite E0. cbn. by rewrite orb_true_r.
Qed.

Lemma idle_start (registry : gmap string (Migration (W := W))) version h h2 : sound_host h2 → h_file h2 = h_file h → recorded h ≠ "" →
  (∀ name m, registry !! name = Some m → due h m = false) →
  ∃ h', (let '(h3, err) := SetProviderVersion (version_or_default version) h2 in
      (h3, match err with Some e => Err ("failed to update provider version: " +:+ e) | None => Ok (MkReport [] [] 0) end)) = (h', Ok (MkReport [] [] 0))
      ∧ sound_host h' ∧ start_does registry version h h' (MkReport [] [] 0).
Proof.
  intros Hs2 Ef E0 Hd. destruct (set_version_sound (version_or_default version) h2 Hs2) as (h3 & -> & Hs3 & Ev3 & Ea3 & _). eexists. split; [done|]. split; [done|].
  apply no_runs; [done|done| |done]. intros x. rewrite Ea3. unfold applied. rewrite Ef. tauto.
Qed.

Lemma version_set version : version_or_default version =? "" = false.
Proof. unfold version_or_default. destruct (String.eqb_spec version "") as [|Hn]; [done|by rewrite (proj2 (String.eqb_neq _ _) Hn)]. Qed.

Lemma due_file h h' (l : list (Migration (W := W))) : h_file h' = h_file h → List.filter (due h') l = List.filter (due h) l.
Proof. intros Ef. apply filter_ext. intros m. unfold due, applied, recorded. by rewrite Ef. Qed.

Lemma filter_names_NoDup h (l : list (Migration (W := W))) : NoDup (mi_Name <$> l) → NoDup (mi_Name <$> List.filter (due h) l).
Proof.
  induction l as [|m l IH]; cbn [List.filter]; [done|]. rewrite fmap_cons. intros [Hm Hn]%NoDup_cons. specialize (IH Hn).
  destruct (due h m); [|done]. rewrite fmap_cons. apply NoDup_cons. split; [|done].
  intros (x & Ex & Hx%list_elem_of_In%filter_In)%list_elem_of_fmap. apply Hm. rewrite Ex. apply list_elem_of_fmap_2, list_elem_of_In. by destruct Hx.
Qed.

Lemma busy_start (registry : gmap string (Migration (W := W))) version h h2 : sound_host h2 → keyed registry → h_file h2 = h_file h → recorded h ≠ "" →
  ∃ h' rep, RunMigrations registry (version_or_default version) h2 = (h', rep) ∧ sound_host h' ∧ start_does registry version h h' rep.
Proof.
  intros Hs2 Hk Ef E0. unfold RunMigrations. destruct (GetPending_sound registry h2 Hs2) as (h3 & -> & Hs3 & Ef3). rewrite (due_file h h2 _ Ef).
  destruct (run_pending_sound (List.filter (due h) (GetAll registry)) h3 (MkReport [] [] 0) Hs3) as (h4 & r & new & -> & Er & En & Hs4 & _ & Ha4).
  rewrite version_set. destruct (set_version_sound (version_or_default version) h4 Hs4) as (h5 & -> & Hs5 & Ev5 & Ea5 & _).
  eexists _, _. split; [done|]. split; [done|]. cbn in Er. split_and!; [done| | |].
  - rewrite Er, En. by apply filter_names_NoDup, GetAll_names.
  - intros name. rewrite Er, En. by apply due_names.
  - intros x. rewrite Ea5, Ha4, Er. unfold applied. rewrite Ef3, Ef. tauto.
Qed.

Lemma start_sound (registry : gmap string (Migration (W := W))) version h : sound_host h → keyed registry →
  ∃ h' rep, runMigrations registry version h = (h', Ok rep) ∧ sound_host h' ∧ start_does registry version h h' rep.
Proof.
  intros Hs Hk. destruct (load_sound h Hs) as (s & El & _ & Ev). unfold runMigrations, GetProviderVersion. rewrite El, Ev.
  destruct (later_sound h Hs) as (Hs1 & Ea1 & Ev1 & _). set (h1 := later h) in *.
  destruct (String.eqb_spec (recorded h) "") as [E0|E0].
  { destruct (fresh_start registry version h h1 Hs1 Hk E0 eq_refl) as (h' & -> & ? & ?). eauto. }
  assert (∀ name m, registry !! name = Some m → m ∈ GetAll registry) as Hall by (intros name m Hm; apply GetAll_elem; [done|]; by rewrite (Hk _ _ Hm)).
  destruct (GetAll registry) as [|m0 l0] eqn:Eall.
  { destruct (idle_start registry version h h1 Hs1 eq_refl E0) as (h' & -> & ? & ?); [|eauto]. intros name m Hm%Hall. by apply elem_of_nil in Hm. }
  rewrite <- Eall in *. destruct (GetPending_sound registry h1 Hs1) as (h2 & -> & Hs2 & Ef2). rewrite (due_file h h1 _ eq_refl).
  destruct (List.filter (due h) (GetAll registry)) as [|m1 l1] eqn:Epend.
  { destruct (idle_start registry version h h2 Hs2 Ef2 E0) as (h' & -> & ? & ?); [|eauto]. intros name m Hm%Hall. destruct (due h m) eqn:Ed; [|done].
    assert (m ∈ List.filter (due h) (GetAll registry)) as Hin by (apply list_elem_of_In, filter_In; split; [by apply list_elem_of_In|done]).
    rewrite Epend in Hin. by apply elem_of_nil in Hin. }
  destruct (busy_start registry version h h2 Hs2 Hk Ef2 E0) as (h' & rep & -> & ? & ?). eauto.
Qed.

(** What a start promises.  It runs no migration twice, none that is applied, and
    none on a fresh install; between versions of numbers it runs those for a
    newer version than the one recorded, and none for an older one.  (For the
    same version, and for migrations without one, comment and code differ, and
    nothing is promised.)  It records its own version, and what succeeded or, on
    a fresh install, everything, as applied. *)
Definition start_promise (registry : gmap string (Migration (W := W))) (version : string) h h' (rep : run_report) : Prop :=
  recorded h' = (if version =? "" then "0.0.0" else version)
  ∧ NoDup (rp_runs rep).*1
  ∧ (∀ name, name ∈ (rp_runs rep).*1 → is_Some (registry !! name) ∧ name ∉ applied h ∧ recorded h ≠ "")
  ∧ (∀ m p f, registry !! mi_Name m = Some m → mi_Name m ∉ applied h → is_version (recorded h) p → is_version (mi_FromVersion m) f →
       (older p f → mi_Name m ∈ (rp_runs rep).*1) ∧ (older f p → mi_Name m ∉ (rp_runs rep).*1))
  ∧ ∀ x, x ∈ applied h' ↔ x ∈ applied h ∨ (x, None) ∈ rp_runs rep ∨ (recorded h = "" ∧ is_Some (registry !! x)).

Lemma is_version_some v l : is_version v l → v ≠ "".
Proof. intros (Hl & Hz & [->| ->]); [by apply dotted_numbers_some|done]. Qed.

Lemma start_promised (registry : gmap string (Migration (W := W))) version h h' rep : keyed registry →
  start_does registry version h h' rep → start_promise registry version h h' rep.
Proof.
  intros Hk (Hv & Hnd & Hdue & Ha). split_and!; [done|done| | |done].
  - intros name (m & Hm & Hd)%Hdue. unfold due in Hd. rewrite negb_true_iff, !orb_false_iff in Hd. destruct Hd as (((Happ & _) & Hrec) & _).
    split_and!; [by eexists| |by apply String.eqb_neq]. intros Hin%existsb_elem. rewrite (Hk _ _ Hm) in Happ. congruence.
  - intros m p f Hm Hn Hp Hf. rewrite Hdue. destruct (version_matches_numbers _ _ _ _ Hp Hf) as [Hold Hnew].
    assert (due h m = version_matches (recorded h) (mi_FromVersion m)) as Ed.
    { unfold due. rewrite (proj2 (String.eqb_neq _ _) (is_version_some _ _ Hp)), (proj2 (String.eqb_neq _ _) (is_version_some _ _ Hf)).
      destruct (existsb _ _) eqn:E; [by apply existsb_elem in E|]. cbn [orb]. apply negb_involutive. }
    split; [intros Ho; exists m; split; [done|]; rewrite Ed; by apply Hold|].
    intros Ho (m' & Hm' & Hd). assert (m' = m) as -> by congruence. rewrite Ed, Hnew in Hd by done. done.
Qed.

(** The runs of all starts, in order. *)
Definition runs_of (r : result string run_report) : list (string * option string) := match r with Ok rep => rp_runs rep | Err _ => [] end.
Definition all_runs (rs : list (result string run_report)) : list (string * option string) := rs ≫= runs_of.

Lemma due_not_applied h (m : Migration (W := W)) : due h m = true → mi_Name m ∉ applied h.
Proof. unfold due. rewrite negb_true_iff, !orb_false_iff. intros (((Ha & _) & _) & _) Hin%existsb_elem. congruence. Qed.

Lemma starts_sound l h : sound_host h → Forall (λ p, keyed p.1) l →
  ∃ h' rs, starts l h = (h', rs) ∧ Forall (λ r, ∃ rep, r = Ok rep) rs
    ∧ (∀ x, x ∈ applied h ∨ (x, None) ∈ all_runs rs → x ∈ applied h')
    ∧ (∀ x e, (x, e) ∈ all_runs rs → x ∉ applied h)
    ∧ ∀ i j x e, (i < j)%nat → all_runs rs !! i = Some (x, None) → all_runs rs !! j = Some (x, e) → False.
Proof.
  revert h. induction l as [|[registry version] l IH]; intros h Hs Hl; cbn [starts].
  { exists h, []. split_and!; try done; [|intros x e; by rewrite elem_of_nil]. intros x. cbn. rewrite elem_of_nil. tauto. }
  apply Forall_cons in Hl as [Hk Hl]. destruct (start_sound registry version h Hs Hk) as (h1 & rep & -> & Hs1 & Hv & Hnd & Hdue & Ha).
  destruct (IH h1 Hs1 Hl) as (h' & rs & -> & Hok & Happ & Hnew & Honce). exists h', (Ok rep :: rs).
  change (all_runs (Ok rep :: rs)) with (rp_runs rep ++ all_runs rs)%list.
  assert (∀ x e, (x, e) ∈ rp_runs rep → x ∉ applied h) as Hfresh.
  { intros x e Hx. apply (list_elem_of_fmap_2 fst), Hdue in Hx as (m & Hm & Hd). cbn in Hm. rewrite <- (Hk _ _ Hm). by apply due_not_applied. }
  split_and!; [done|constructor; [by eexists|done]| | |].
  - intros x Hx. apply Happ. rewrite elem_of_app in Hx. rewrite Ha. tauto.
  - intros x e [Hx|Hx]%elem_of_app; [by eapply Hfresh|]. intros Hin. apply (Hnew _ _ Hx). rewrite Ha. tauto.
  - intros i j x e Hij Hi Hj. apply lookup_app_Some in Hi as [Hi|[Hi1 Hi]], Hj as [Hj|[Hj1 Hj]].
    + assert (i = j) by (eapply NoDup_lookup; [exact Hnd|by rewrite list_lookup_fmap, Hi|by rewrite list_lookup_fmap, Hj]). lia.
    + apply list_elem_of_lookup_2 in Hi, Hj. apply (Hnew _ _ Hj). rewrite Ha. tauto.
    + apply lookup_lt_Some in Hj. lia.
    + by apply (Honce (i - List.length (rp_runs rep))%nat (j - List.length (rp_runs rep))%nat x e); [lia|..].
Qed.

End runs.

(** Claim C26.  As long as the file of migrations can be read and written, every
    start ends with a report.  It runs no migration twice, none that is already
    applied and, on a fresh install, none at all; when the recorded version and
    the version of a migration are numbers with dots, it runs the migration if
    the recorded one is older, and does not if it is newer; it records its own
    version, and as applied what succeeded (on a fresh install, everything).
    Through any sequence of starts a migration that succeeded is not run
    again.  Nothing is claimed for equal versions or for migrations without a
    version, where the comments and the code differ. *)
Theorem migrations_once {W : Type} `{MapOrder} (l : list (gmap string (Migration (W := W)) * string)) h
  (Hs : sound_host h) (Hk : Forall (λ p, keyed p.1) l) :
  (∀ registry version, (registry, version) ∈ l →
     ∃ h' rep, runMigrations registry version h = (h', Ok rep) ∧ start_promise registry version h h' rep)
  ∧ ∃ h' rs, starts l h = (h', rs) ∧ Forall (λ r, ∃ rep, r = Ok rep) rs
      ∧ ∀ i j name e, (i < j)%nat → all_runs rs !! i = Some (name, None) → all_runs rs !! j ≠ Some (name, e).
Proof.
  split.
  - intros registry version Hin. assert (keyed registry) as Hr by (rewrite Forall_forall in Hk; by apply (Hk (registry, version))).
    destruct (start_sound registry version h Hs Hr) as (h' & rep & ? & _ & ?). eauto using start_promised.
  - destruct (starts_sound l h Hs Hk) as (h' & rs & E & Hok & _ & _ & Honce). exists h', rs. split_and!; [done|done|].
    intros i j name e Hij Hi Hj. by apply (Honce i j name e).
Qed.

(** ** Ingresses to routes *)

Section routes.
Context `{ParseFloat}.

Definition ingress_key (i : listed_ingress) : string * string := (li_Namespace i, li_Name i).
(** An ingress of the hostname operator, as it is listed. *)
Definition listed (namespace : string) (i : Ingress) : listed_ingress :=
  MkListed namespace (in_Name i) (in_Labels i) (in_Annotations i) ((λ r, (ir_Host r, Some <$> ir_Paths r)) <$> in_Rules i).
(** The first rule of an ingress has a service. *)
Definition route_of (i : listed_ingress) (gatewayName gatewayNamespace : string) : option annotated_route :=
  match li_Rules i with
  | (host, Some (service, port) :: _) :: _ => Some (mig_buildHTTPRoute (li_Name i) (li_Labels i) (li_Annotations i) gatewayName gatewayNamespace host service port)
  | _ => None
  end.
Definition answering (an : nat → mig_answers) : Prop := ∀ n, ma_get (an n) = None ∧ ma_put (an n) = None.
Definition put_route (gw gns : string) (i : listed_ingress) (st : gmap (string * string) annotated_route) : gmap (string * string) annotated_route :=
  match route_of i gw gns with Some r => <[ingress_key i := r]> st | None => st end.

Lemma migrate_fine a i gw gns st : ma_get a = None → ma_put a = None → migrateIngress a i gw gns st = (put_route gw gns i st, None).
Proof.
  intros Eg Ep. unfold migrateIngress, put_route, route_of, ingress_key. rewrite Eg, Ep.
  destruct (li_Rules i) as [|[host [|[[service port]|] ps]] rs]; try done. by destruct (st !! _).
Qed.

Lemma migrate_all_fine an l gw gns st : answering an → migrate_all an l gw gns st = (foldl (λ st i, put_route gw gns i st) st l, None).
Proof.
  revert an st. induction l as [|i l IH]; intros an st Han; cbn [migrate_all foldl]; [done|]. destruct (Han 0%nat) as [Eg Ep].
  rewrite (migrate_fine _ _ _ _ _ Eg Ep). apply IH. intros n. exact (Han (S n)).
Qed.

Lemma put_other gw gns i st k : k ≠ ingress_key i → put_route gw gns i st !! k = st !! k.
Proof. intros Hk. unfold put_route. destruct (route_of _ _ _); [by rewrite lookup_insert_ne|done]. Qed.

Lemma puts_other gw gns l st k : k ∉ ingress_key <$> l → foldl (λ st i, put_route gw gns i st) st l !! k = st !! k.
Proof.
  revert st. induction l as [|i l IH]; intros st; cbn [foldl]; [done|]. rewrite fmap_cons, not_elem_of_cons. intros [Hk Hl].
  rewrite IH by done. by apply put_other.
Qed.

Lemma puts_own gw gns l st i r : NoDup (ingress_key <$> l) → i ∈ l → route_of i gw gns = Some r →
  foldl (λ st i, put_route gw gns i st) st l !! ingress_key i = Some r.
Proof.
  revert st. induction l as [|j l IH]; intros st; [by rewrite elem_of_nil|]. rewrite fmap_cons, NoDup_cons, elem_of_cons. cbn [foldl].
  intros [Hj Hl] [<-|Hi] Er; [|by apply IH]. rewrite puts_other by done. unfold put_route. rewrite Er. by rewrite lookup_insert_eq.
Qed.

Lemma puts_twice gw gns l st : NoDup (ingress_key <$> l) →
  let st' := foldl (λ st i, put_route gw gns i st) st l in foldl (λ st i, put_route gw gns i st) st' l = st'.
Proof.
  intros Hl st'. apply map_eq. intros k. destruct (decide (k ∈ ingress_key <$> l)) as [Hk|Hk]; [|by apply puts_other].
  apply list_elem_of_fmap in Hk as (i & -> & Hi). destruct (route_of i gw gns) as [r|] eqn:Er.
  - unfold st'. by rewrite !(puts_own _ _ _ _ i r).
  - assert (∀ st0, foldl (λ st i, put_route gw gns i st) st0 l !! ingress_key i = st0 !! ingress_key i) as Hn; [|by rewrite Hn].
    clear st'. revert Hl Hi. induction l as [|j l IH]; intros Hl Hi st0; [by apply elem_of_nil in Hi|]. cbn [foldl].
    rewrite fmap_cons, NoDup_cons in Hl. destruct Hl as [Hj Hl]. apply elem_of_cons in Hi as [<-|Hi].
    + rewrite puts_other by done. unfold put_route. by rewrite Er.
    + rewrite IH by done. apply put_other. intros E. apply Hj. rewrite <- E. by apply list_elem_of_fmap_2.
Qed.

Lemma listed_route ns i c gw gns : ingress_connection i = Ok c →
  ∃ r, route_of (listed ns i) gw gns = Some r ∧ route_connection (an_Route r) = Ok (Some c) ∧ rs_ParentRefs (ro_Spec (an_Route r)) = [(gns, gw)].
Proof.
  unfold ingress_connection, route_of, listed, route_connection. cbn [li_Rules li_Labels].
  destruct (RecoverLeaseIDFromLabels (in_Labels i)) as [lid|e] eqn:El; [|done].
  destruct (in_Rules i) as [|[host [|[service port] [|? ?]]] [|? ?]]; try done. cbn. intros [= <-].
  eexists. split; [done|]. cbn. rewrite El. done.
Qed.

End routes.

(** Claim C27.  When the API server answers, the migration of ingresses succeeds
    from whatever an earlier, broken off run left: every ingress of the hostname
    operator has a route, at the gateway, that is read back as the same
    connection of the same lease; routes of other names are as they were; and a
    second run changes nothing. *)
Theorem ingresses_migrated `{ParseFloat} (all : list listed_ingress) an gw gns st
  (Han : answering an) (Hnd : NoDup (ingress_key <$> managed_ingresses all)) :
  ∃ st', ingress_Run (Ok all) an gw gns st = (st', None)
    ∧ (∀ ns i c, listed ns i ∈ all → in_Labels i !! AkashManagedLabelName = Some "true" → ingress_connection i = Ok c →
         ∃ r, st' !! (ns, in_Name i) = Some r ∧ route_connection (an_Route r) = Ok (Some c) ∧ rs_ParentRefs (ro_Spec (an_Route r)) = [(gns, gw)])
    ∧ (∀ k, k ∉ ingress_key <$> managed_ingresses all → st' !! k = st !! k)
    ∧ ingress_Run (Ok all) an gw gns st' = (st', None).
Proof.
  unfold ingress_Run. rewrite (migrate_all_fine an (managed_ingresses all) gw gns st Han). eexists. split; [done|]. split_and!.
  - intros ns i c Hin Hlab Hc. destruct (listed_route ns i c gw gns Hc) as (r & Er & Hr). exists r. split; [|done].
    change (ns, in_Name i) with (ingress_key (listed ns i)). apply puts_own; [done| |done].
    apply list_elem_of_In, filter_In. split; [by apply list_elem_of_In|by apply bool_decide_eq_true].
  - intros k Hk. by apply puts_other.
  - rewrite (migrate_all_fine _ _ _ _ _ Han). by rewrite puts_twice.
Qed.

(** * Two starts

    A provider that is upgraded with a migration that works and one that fails,
    the ingress of a hostname, and versions that are not what they seem. *)

#[local] Existing Instance listed_order.
#[local] Instance no_floats : ParseFloat := λ _, None.

Definition fine_io (n : nat) : io := MkIo None None None (Z.of_nat n).
Definition installed (version : string) : host (W := nat) := MkHost (File (MkState [] 0 version)) 0%nat fine_io.
Definition counting (name from : string) : Migration (W := nat) := MkMigration name from (λ w, (S w, None)).
Definition failing (name from : string) : Migration (W := nat) := MkMigration name from (λ w, (w, Some "no route to host")).
Definition registered (m1 m2 : Migration (W := nat)) : gmap string (Migration (W := nat)) := <[mi_Name m2 := m2]> {[mi_Name m1 := m1]}.

Lemma registered_keyed m1 m2 : keyed (registered m1 m2).
Proof.
  intros k m. unfold registered. rewrite lookup_insert_Some, lookup_singleton_Some. naive_solver.
Qed.

Lemma installed_sound version : sound_host (installed version).
Proof. split; [done|]. intros e. discriminate. Qed.

Definition twice : list (gmap string (Migration (W := nat)) * string) :=
  [(registered (counting "a" "0.10.6") (failing "b" "0.10.6"), "0.11.0"); (registered (counting "a" "0.10.6") (failing "b" "0.10.6"), "0.11.0")].

Lemma twice_keyed : Forall (λ p, keyed p.1) twice.
Proof. repeat constructor; apply registered_keyed. Qed.

Lemma migrations_once_witness :
  (∃ h' rep, runMigrations (registered (counting "a" "0.10.6") (failing "b" "0.10.6")) "0.11.0" (installed "0.10.5") = (h', Ok rep) ∧ "a" ∈ (rp_runs rep).*1)
  ∧ ∃ h' rs, starts twice (installed "0.10.5") = (h', rs)
    ∧ ∀ i j name e, (i < j)%nat → all_runs rs !! i = Some (name, None) → all_runs rs !! j ≠ Some (name, e).
Proof.
  destruct (migrations_once twice (installed "0.10.5") (installed_sound _) twice_keyed) as (Hstart & h' & rs & E & _ & Honce). split; [|exists h', rs; split; [exact E|exact Honce]].
  destruct (Hstart (registered (counting "a" "0.10.6") (failing "b" "0.10.6")) "0.11.0") as (h1 & rep & E1 & _ & _ & _ & Hdue & _); [left|]. exists h1, rep. split; [exact E1|].
  refine (proj1 (Hdue (counting "a" "0.10.6") [0; 10; 5]%Z [0; 10; 6]%Z _ _ _ _) _).
  - vm_compute. reflexivity.
  - apply not_elem_of_nil.
  - split; [discriminate|]. split; [repeat constructor; lia|]. left. vm_compute. reflexivity.
  - split; [discriminate|]. split; [repeat constructor; lia|]. left. vm_compute. reflexivity.
  - exists 2%nat. split; [|cbn; lia]. intros [|[|j]] Hj; [reflexivity|reflexivity|lia].
Defined.

(** A migration that fails is not tried again: the start records the new version
    all the same, and from that the migration is not due. *)
Theorem failed_migration_forgotten :
  (starts twice (installed "0.10.5")).2
  = [Ok (MkReport [("a", None); ("b", Some "no route to host")] ["migration failed: no route to host"] 1); Ok (MkReport [] [] 0)].
Proof. vm_compute. reflexivity. Qed.

(** A migration without a version is never run. *)
Theorem unversioned_never_runs :
  (starts [(registered (counting "a" "") (counting "b" "0.10.6"), "0.11.0")] (installed "0.10.5")).2 = [Ok (MkReport [("b", None)] [] 1)].
Proof. vm_compute. reflexivity. Qed.

(** From a release candidate of the version a migration is for, it is not run;
    from the version itself it is. *)
Theorem release_candidate_skipped :
  (starts [(registered (counting "a" "0.10.6") (counting "b" "0.10.6"), "0.11.0")] (installed "v0.10.6-rc1")).2 = [Ok (MkReport [] [] 0)]
  ∧ (starts [(registered (counting "a" "0.10.6") (counting "b" "0.10.6"), "0.11.0")] (installed "v0.10.6")).2 = [Ok (MkReport [("a", None); ("b", None)] [] 2)].
Proof. vm_compute. done. Qed.

(** ** Routes *)

Definition blog_lease : LeaseID := MkLeaseID "akash1owner" 7 1 1 "akash1provider".
Definition blog : Ingress := MkIngress "blog.example" (managed_labels blog_lease) ∅ (ingressRules "blog.example" "web" 80).
Definition answers_all (n : nat) : mig_answers := MkMigAnswers None None.

Lemma blog_connection : ingress_connection blog = Ok (MkConnection blog_lease "blog.example" 80 "web").
Proof. vm_compute. reflexivity. Qed.

Lemma blog_keys : NoDup (ingress_key <$> managed_ingresses [listed "ns" blog]).
Proof. vm_compute. apply NoDup_singleton. Qed.

Lemma ingresses_migrated_witness :
  ∃ st' r, ingress_Run (Ok [listed "ns" blog]) answers_all "gw" "gwns" ∅ = (st', None) ∧ st' !! ("ns", "blog.example") = Some r
    ∧ route_connection (an_Route r) = Ok (Some (MkConnection blog_lease "blog.example" 80 "web")).
Proof.
  destruct (ingresses_migrated [listed "ns" blog] answers_all "gw" "gwns" ∅ (λ _, conj eq_refl eq_refl) blog_keys) as (st' & E & Hc & _).
  destruct (Hc "ns" blog (MkConnection blog_lease "blog.example" 80 "web")) as (r & Hr & Hcon & _); [by left|vm_compute; reflexivity|exact blog_connection|].
  exists st', r. split; [exact E|split; [exact Hr|exact Hcon]].
Defined.
