(* ===== verification/LeaseStatus.v ===== *)
(** * The status of a lease

    [cluster/kube/client.go]: what is reported of a lease, of one of its services
    and of its forwarded ports, and that a deployed lease is reported whole.  The
    controllers of the cluster fill in the status of what they control. *)
From Stdlib Require Import Ascii String.
From S2P Require Import Prelude GoStrings ChainTypes ClusterTypes LeaseNames CrdManifest HostRoutes HostnameOperator MetalLb KubeDeclare.
From S2P Require Import ManifestManager KubeObjects Workload WorkloadSound NetPol KubeApi KubeApply KubeApplySound KubeDeploy KubeDeploySound Gateway GatewayHandlers.
From S2P Require Import IpOperatorSample InventorySample KubeSample.

Open Scope string_scope.
Open Scope go_scope.

(** The status of a deployment or a stateful set. *)
Record controller_status := MkControllerStatus {
  ct_Replicas : Z; ct_Available : Z; ct_Current : Z; ct_Updated : Z; ct_Ready : Z; ct_ObservedGeneration : Z }.
Record controllers := MkControllers { ct_deployment : string → controller_status; ct_stateful : string → controller_status }.

Record ServiceStatus := MkServiceStatus {
  ss_Name : string; ss_Available : Z; ss_Total : Z; ss_URIs : list string; ss_ObservedGeneration : Z; ss_Replicas : Z; ss_UpdatedReplicas : Z;
  ss_ReadyReplicas : Z; ss_AvailableReplicas : Z }.
Definition with_URIs (l : list string) (s : ServiceStatus) : ServiceStatus :=
  MkServiceStatus (ss_Name s) (ss_Available s) (ss_Total s) l (ss_ObservedGeneration s) (ss_Replicas s) (ss_UpdatedReplicas s) (ss_ReadyReplicas s) (ss_AvailableReplicas s).

Definition deployment_status (c : controllers) (name : string) : ServiceStatus :=
  let s := ct_deployment c name in
  MkServiceStatus name (ct_Available s) (ct_Replicas s) [] (ct_ObservedGeneration s) (ct_Replicas s) (ct_Updated s) (ct_Ready s) (ct_Available s).
Definition stateful_status (c : controllers) (name : string) : ServiceStatus :=
  let s := ct_stateful c name in
  MkServiceStatus name (ct_Current s) (ct_Replicas s) [] (ct_ObservedGeneration s) (ct_Replicas s) (ct_Updated s) (ct_Ready s) (ct_Current s).

(** An error of the API server, wrapped: it is still told that something was not
    found. *)
Definition internal (e : kerror) : cluster_error := match e with NotFound => KubeNotFound "internal error: not found" | _ => ClusterOther "internal error" end.
Definition plain_error (e : kerror) : cluster_error := match e with NotFound => KubeNotFound "not found" | Conflict => ClusterOther "conflict" | OtherError msg => ClusterOther msg end.

Section status.
Context `{GoUnicode} `{Cosmos} `{Protocols} `{!KubeProtocols} `{!ManifestSdk} `{KubeSdk} `{ChainSdk} `{MapOrder}.
Notation host_store := (gmap string (resource ProviderHostSpec)).

Definition checked_settings (settings : option Settings) : option cluster_error :=
  match settings with
  | None => Some (ClusterOther "not configured with settings in the context passed to function")
  | Some s => match ValidateSettings s with Some e => Some (ClusterOther e) | None => None end
  end.

Definition leaseExists (lid : LeaseID) : M (option cluster_error) :=
  let% r := kc_get Namespaces (LidNS lid) in
  kret (match r with Ok _ => None | Err NotFound => Some ErrLeaseNotFound | Err e => Some (internal e) end).

Definition deploymentsForLease (c : controllers) (lid : LeaseID) : M (result cluster_error (gmap string ServiceStatus)) :=
  let% missing := leaseExists lid in
  match missing with
  | Some e => kret (Err e)
  | None =>
      let% deployments := kc_list Deployments [] in
      match deployments with
      | Err e => kret (Err (internal e))
      | Ok deployments =>
          let% statefulsets := kc_list StatefulSets [] in
          match statefulsets with
          | Err e => kret (Err (internal e))
          | Ok statefulsets =>
              let serviceStatus : gmap string ServiceStatus := foldl (λ m '(name, _), <[name := deployment_status c name]> m) ∅ deployments in
              let serviceStatus := foldl (λ m '(name, _), <[name := stateful_status c name]> m) serviceStatus statefulsets in
              kret (if decide (serviceStatus = ∅) then Err ErrNoDeploymentForLease else Ok serviceStatus)
          end
      end
  end.

(** The hosts of a lease, in the namespace of the provider. *)
Definition list_hosts (hosts : host_store) (lid : LeaseID) : M (result kerror (list ProviderHostSpec)) :=
  KubeApi.request (kret (Ok (rs_Spec <$> api_list (kubeSelectorForLease lid) hosts))).

Definition add_host (m : gmap string ServiceStatus) (ph : ProviderHostSpec) : gmap string ServiceStatus :=
  match m !! ph_ServiceName ph with
  | Some entry => <[ph_ServiceName ph := with_URIs (ss_URIs entry ++ [ph_Hostname ph])%list entry]> m
  | None => m
  end.

Definition LeaseStatus (settings : option Settings) (c : controllers) (hosts : host_store) (lid : LeaseID) : M (result cluster_error (gmap string ServiceStatus)) :=
  match checked_settings settings with
  | Some e => kret (Err e)
  | None =>
      let% serviceStatus := deploymentsForLease c lid in
      match serviceStatus with
      | Err e => kret (Err e)
      | Ok serviceStatus =>
          let% phResult := list_hosts hosts lid in
          kret (match phResult with Err e => Err (plain_error e) | Ok items => Ok (foldl add_host serviceStatus items) end)
      end
  end.

(** An expose of the stored manifest, as far as it is looked at. *)
Definition stored_expose (proto : ServiceProtocol) (e : ManifestServiceExpose) : ServiceExpose :=
  MkExpose _ (ce_Port e) (ce_ExternalPort e) proto (ce_Service e) (ce_Global e) (ce_Hosts e) (MkHTTP 0 0 0 0 0 [] None) "" 0.

(** Whether an expose has hostnames, up to the first that has. *)
Fixpoint has_ingress (l : list ManifestServiceExpose) : result string bool :=
  match l with
  | [] => Ok false
  | e :: l => let* proto := ParseServiceProtocol (ce_Proto e) in if IsIngress (stored_expose proto e) then Ok true else has_ingress l
  end.
Fixpoint expose_check (name : string) (l : list ManifestService) : result string bool :=
  match l with
  | [] => Ok false
  | s :: l => if ms_Name s =? name then let* b := has_ingress (ms_Expose s) in if b then Ok true else expose_check name l else expose_check name l
  end.

Definition stored_persistent (s : ManifestService) : bool :=
  existsb (λ v, (find_AsBool (rv_Attributes v) StorageAttributePersistent).1) (r_Storage (ms_Resources s)).

Definition get_controller (c : controllers) (persistent : bool) (name : string) : M (result cluster_error ServiceStatus) :=
  if persistent
  then let% r := kc_get StatefulSets name in kret (match r with Err e => Err (internal e) | Ok _ => Ok (stateful_status c name) end)
  else let% r := kc_get Deployments name in kret (match r with Err e => Err (internal e) | Ok _ => Ok (deployment_status c name) end).

Definition service_status (c : controllers) (hosts : host_store) (lid : LeaseID) (name : string) : M (result cluster_error ServiceStatus) :=
  let% missing := leaseExists lid in
  match missing with
  | Some e => kret (Err e)
  | None =>
      let% mani := kc_get Manifests (LidNS lid) in
      match mani with
      | Err _ => kret (Err ErrNoManifestForLease)
      | Ok mani =>
          let services := mg_Services (mf_Group (rs_Spec (o_res mani))) in
          match List.find (λ s, ms_Name s =? name) services with
          | None => kret (Err ErrNoServiceForLease)
          | Some svc =>
              let% result := get_controller c (stored_persistent svc) name in
              match result with
              | Err e => kret (Err e)
              | Ok result =>
                  match expose_check name services with
                  | Err e => kret (Err (ClusterOther e))
                  | Ok false => kret (Ok result)
                  | Ok true =>
                      let% phs := list_hosts hosts lid in
                      kret (match phs with Err e => Err (internal e) | Ok items => Ok (with_URIs (ph_Hostname <$> items) result) end)
                  end
              end
          end
      end
  end.

(** ** Forwarded ports *)

Record ForwardedPort := MkForwarded { fp_Host : string; fp_Port : Z; fp_ExternalPort : Z; fp_Proto : string; fp_Name : string }.

(** [service.Name] without the suffix that its creation gave it; a shorter name
    panics. *)
Definition deployment_name (serviceName : string) : outcome string :=
  let n := String.length SuffixForNodePortServiceName in
  if (String.length serviceName <? n)%nat then Panic else Ret (str_take (String.length serviceName - n) serviceName).

Definition forwarded_port (host name : string) (port : SvcPort) : option ForwardedPort :=
  if (0 <? vp_NodePort port)%Z && ((vp_Protocol port =? "TCP") || (vp_Protocol port =? "UDP"))
  then Some (MkForwarded host (u16 (match vp_TargetPort port with IntVal z => z | StrVal _ => 0 end)) (u16 (vp_NodePort port)) (vp_Protocol port) name) else None.

Fixpoint forwarded (host : string) (l : list (string * object ServiceSpec)) (acc : gmap string (list ForwardedPort)) : outcome (gmap string (list ForwardedPort)) :=
  match l with
  | [] => Ret acc
  | (name, o) :: l =>
      let spec := rs_Spec (o_res o) in
      if negb (vs_Type spec =? "NodePort") then forwarded host l acc
      else
        let! deploymentName := deployment_name name in
        forwarded host l (match vs_Ports spec with [] => acc | ports => <[deploymentName := omap (forwarded_port host deploymentName) ports]> acc end)
  end.

Definition ForwardedPortStatus (settings : option Settings) : M (result cluster_error (gmap string (list ForwardedPort))) :=
  match checked_settings settings with
  | Some e => kret (Err e)
  | None =>
      let% services := kc_list Services [] in
      match services with
      | Err e => kret (Err (internal e))
      | Ok services =>
          let host := match settings with Some s => s_ClusterPublicHostname s | None => "" end in
          let% ports := of_outcome (forwarded host services ∅) in kret (Ok ports)
      end
  end.

End status.

(** ** What is reported *)

Section sound.
Context `{GoUnicode} `{Cosmos} `{Protocols} `{!KubeProtocols} `{!ManifestSdk} `{KubeSdk} `{ChainSdk} `{MapOrder}.
Notation host_store := (gmap string (resource ProviderHostSpec)).

(** The hostnames declared for a service of a lease, as they are listed. *)
Definition hosts_of (hosts : host_store) (lid : LeaseID) (name : string) : list string :=
  ph_Hostname <$> List.filter (λ ph, ph_ServiceName ph =? name) (rs_Spec <$> api_list (kubeSelectorForLease lid) hosts).

(** The answer to the [i]th request from here. *)
Definition reply (l : list (option kerror)) (i : nat) : option kerror := default None (l !! i).

Lemma reply_tail l i : reply (tail l) i = reply l (S i).
Proof. unfold reply. by destruct l as [|a [|b l]]. Qed.

Lemma request_run {A} (act : M (result kerror A)) k l :
  KubeApi.request act (MkServer k l) = match reply l 0 with Some e => (Ret (Err e), MkServer k (tail l)) | None => act (MkServer k (tail l)) end.
Proof. unfold KubeApi.request, kbind, KubeApi.answer. by destruct l as [|[e|] l]. Qed.

Lemma filter_everything {A} (l : list (string * object A)) : List.filter (selected []) l = l.
Proof. induction l as [|x l IH]; cbn [List.filter]; [done|]. by rewrite IH. Qed.

Lemma named_lookup {A B} (f : string → B) (l : list (string * A)) (m : gmap string B) name :
  foldl (λ m '(n, _), <[n := f n]> m) m l !! name = if decide (name ∈ l.*1) then Some (f name) else m !! name.
Proof.
  revert m. induction l as [|[n a] l IH]; intros m; cbn [foldl]; [rewrite decide_False; [done|apply not_elem_of_nil]|]. rewrite IH, fmap_cons. cbn [fst].
  destruct (decide (name ∈ l.*1)) as [Hin|Hout]; [by rewrite decide_True by (by right)|]. destruct (decide (n = name)) as [->|Hne].
  - rewrite lookup_insert_eq, decide_True by (by left). done.
  - rewrite lookup_insert_ne, decide_False by (try done; by intros [|]%elem_of_cons). done.
Qed.

Lemma elem_listed {A} (m : gmap string A) name : name ∈ (map_order _ (map_to_list m)).*1 ↔ is_Some (m !! name).
Proof.
  rewrite list_elem_of_fmap. split.
  - intros ([n a] & -> & Hin). rewrite map_order_perm in Hin. apply elem_of_map_to_list in Hin. cbn [fst]. by rewrite Hin.
  - intros [a Ha]. exists (name, a). split; [done|]. rewrite map_order_perm. by apply elem_of_map_to_list.
Qed.

Lemma URIs_id s : with_URIs (ss_URIs s) s = s.
Proof. by destruct s. Qed.

(** Each entry gets the hostnames of its own service, in their order. *)
Lemma add_hosts_lookup items m name :
  foldl add_host m items !! name
  = s ← m !! name; Some (with_URIs (ss_URIs s ++ (ph_Hostname <$> List.filter (λ ph, ph_ServiceName ph =? name) items))%list s).
Proof.
  revert m. induction items as [|ph l IH]; intros m; cbn [foldl List.filter].
  { destruct (m !! name) as [s|]; cbn; [|done]. by rewrite app_nil_r, URIs_id. }
  rewrite IH. unfold add_host. destruct (String.eqb_spec (ph_ServiceName ph) name) as [E|Hne].
  - rewrite E. destruct (m !! name) as [s|] eqn:Em; [|by rewrite Em]. rewrite lookup_insert_eq. cbn [mbind option_bind]. rewrite fmap_cons. cbn [ss_URIs with_URIs]. rewrite <- app_assoc. done.
  - destruct (m !! ph_ServiceName ph); [|done]. by rewrite lookup_insert_ne.
Qed.

Lemma hosts_of_elem hosts lid name h : h ∈ hosts_of hosts lid name ↔
  ∃ key res, hosts !! key = Some res ∧ rs_Labels res !! AkashLeaseOwnerLabelName = Some (lid_Owner lid) ∧ rs_Labels res !! AkashLeaseDSeqLabelName = Some (FormatUint (lid_DSeq lid))
    ∧ rs_Labels res !! AkashLeaseGSeqLabelName = Some (FormatUint (lid_GSeq lid)) ∧ rs_Labels res !! AkashLeaseOSeqLabelName = Some (FormatUint (lid_OSeq lid))
    ∧ ph_ServiceName (rs_Spec res) = name ∧ ph_Hostname (rs_Spec res) = h.
Proof.
  assert (∀ labels : label_map, matches (kubeSelectorForLease lid) labels = true ↔
    labels !! AkashLeaseOwnerLabelName = Some (lid_Owner lid) ∧ labels !! AkashLeaseDSeqLabelName = Some (FormatUint (lid_DSeq lid))
    ∧ labels !! AkashLeaseGSeqLabelName = Some (FormatUint (lid_GSeq lid)) ∧ labels !! AkashLeaseOSeqLabelName = Some (FormatUint (lid_OSeq lid))) as Hm.
  { intros labels. unfold kubeSelectorForLease. cbn [matches forallb]. rewrite !andb_true_iff.
    assert (∀ (o : option string) x, (match o with Some v' => v' =? x | None => false end) = true ↔ o = Some x) as He.
    { intros [v|] x; [|done]. rewrite String.eqb_eq. split; congruence. }
    rewrite !He. tauto. }
  unfold hosts_of, api_list. rewrite list_elem_of_fmap. split.
  - intros (ph & -> & Hin%list_elem_of_In%filter_In). destruct Hin as [Hin%list_elem_of_In Hn%String.eqb_eq]. apply list_elem_of_fmap in Hin as (res & -> & Hin%list_elem_of_In%filter_In).
    destruct Hin as [Hin%list_elem_of_In Hl%Hm]. apply list_elem_of_fmap in Hin as ([key res'] & -> & Hin). rewrite map_order_perm in Hin. apply elem_of_map_to_list in Hin.
    cbn [snd] in *. exists key, res'. tauto.
  - intros (key & res & Hk & Ho & Hd & Hg & Hs & Hn & <-). exists (rs_Spec res). split; [done|]. apply list_elem_of_In, filter_In. rewrite String.eqb_eq. split; [|done].
    apply list_elem_of_In, list_elem_of_fmap_2, list_elem_of_In, filter_In. rewrite Hm. split; [|done]. apply list_elem_of_In, list_elem_of_fmap. exists (key, res). split; [done|].
    rewrite map_order_perm. by apply elem_of_map_to_list.
Qed.

(** What the entry of a name has to say: there is one exactly if a controller has
    that name, with the counts of the stateful set if there is one and of the
    deployment otherwise, and with the hostnames declared for that lease and that
    service. *)
Definition entry_true (c : controllers) (hosts : host_store) (lid : LeaseID) (k : kube) (name : string) (entry : option ServiceStatus) : Prop :=
  match entry with
  | None => k_stateful k !! name = None ∧ k_deployments k !! name = None
  | Some s =>
      ss_Name s = name
      ∧ (is_Some (k_stateful k !! name) ∧ (let t := ct_stateful c name in
           ss_Available s = ct_Current t ∧ ss_AvailableReplicas s = ct_Current t ∧ ss_Total s = ct_Replicas t ∧ ss_Replicas s = ct_Replicas t
           ∧ ss_UpdatedReplicas s = ct_Updated t ∧ ss_ReadyReplicas s = ct_Ready t ∧ ss_ObservedGeneration s = ct_ObservedGeneration t)
         ∨ k_stateful k !! name = None ∧ is_Some (k_deployments k !! name) ∧ (let t := ct_deployment c name in
           ss_Available s = ct_Available t ∧ ss_AvailableReplicas s = ct_Available t ∧ ss_Total s = ct_Replicas t ∧ ss_Replicas s = ct_Replicas t
           ∧ ss_UpdatedReplicas s = ct_Updated t ∧ ss_ReadyReplicas s = ct_Ready t ∧ ss_ObservedGeneration s = ct_ObservedGeneration t))
      ∧ ∀ h, h ∈ ss_URIs s ↔ ∃ key res, hosts !! key = Some res
          ∧ rs_Labels res !! AkashLeaseOwnerLabelName = Some (lid_Owner lid) ∧ rs_Labels res !! AkashLeaseDSeqLabelName = Some (FormatUint (lid_DSeq lid))
          ∧ rs_Labels res !! AkashLeaseGSeqLabelName = Some (FormatUint (lid_GSeq lid)) ∧ rs_Labels res !! AkashLeaseOSeqLabelName = Some (FormatUint (lid_OSeq lid))
          ∧ ph_ServiceName (rs_Spec res) = name ∧ ph_Hostname (rs_Spec res) = h
  end.

(** What is reported, as the code makes it. *)
Definition entry_of (c : controllers) (hosts : host_store) (lid : LeaseID) (k : kube) (name : string) : option ServiceStatus :=
  if decide (is_Some (k_stateful k !! name)) then Some (with_URIs (hosts_of hosts lid name) (stateful_status c name))
  else if decide (is_Some (k_deployments k !! name)) then Some (with_URIs (hosts_of hosts lid name) (deployment_status c name)) else None.

Lemma entry_of_true c hosts lid k name : entry_true c hosts lid k name (entry_of c hosts lid k name).
Proof.
  unfold entry_of. destruct (k_stateful k !! name) as [o|] eqn:Es; [|destruct (k_deployments k !! name) as [o|] eqn:Ed].
  - rewrite decide_True by by eexists. cbn [entry_true]. split; [done|]. split; [left; rewrite Es; by split; [eexists|]|]. apply hosts_of_elem.
  - rewrite decide_False, decide_True by (by eexists || by intros []). cbn [entry_true]. split; [done|]. split; [right; rewrite Ed; by split_and!; [|eexists|..]|]. apply hosts_of_elem.
  - rewrite !decide_False by by intros []. done.
Qed.

(** The four questions, of the namespace, the deployments, the stateful sets and
    the hosts: none is answered with an error. *)
Definition answered (l : list (option kerror)) : Prop := ∀ i, (i < 4)%nat → reply l i = None.

Definition status_outcome (c : controllers) (hosts : host_store) (lid : LeaseID) (k : kube) (l : list (option kerror)) (r : result cluster_error (gmap string ServiceStatus)) : Prop :=
  match r with
  | Ok m => answered l ∧ is_Some (k_namespaces k !! LidNS lid) ∧ (k_deployments k ≠ ∅ ∨ k_stateful k ≠ ∅) ∧ ∀ name, m !! name = entry_of c hosts lid k name
  | Err e => (e = ErrLeaseNotFound ∧ (k_namespaces k !! LidNS lid = None ∨ reply l 0 = Some NotFound))
             ∨ (e = ErrNoDeploymentForLease ∧ k_deployments k = ∅ ∧ k_stateful k = ∅)
             ∨ ∃ i x, (i < 4)%nat ∧ reply l i = Some x ∧ e = (if decide (i = 3)%nat then plain_error x else internal x)
  end.

Lemma status_run settings c hosts lid k l : ValidateSettings settings = None →
  ∃ r s', LeaseStatus (Some settings) c hosts lid (MkServer k l) = (Ret r, s') ∧ sv_kube s' = k ∧ status_outcome c hosts lid k l r.
Proof.
  intros Hset. unfold LeaseStatus, checked_settings. rewrite Hset. unfold deploymentsForLease, leaseExists, kc_get, kc_list, list_hosts.
  unfold kbind at 1 2 3. rewrite request_run. destruct (reply l 0) as [x|] eqn:E0.
  { destruct x; (eexists _, _; split; [done|]; split; [done|]); [left; split; [done|by right]|right; right; exists 0%nat, Conflict; split_and!; [lia|done|done]|
      right; right; eexists 0%nat, _; split_and!; [lia|exact E0|done]]. }
  unfold kbind at 1, read at 1. cbn [sv_kube kd_get Namespaces]. destruct (k_namespaces k !! LidNS lid) as [o|] eqn:En; cbn [kret].
  2:{ eexists _, _. split; [done|]. split; [done|]. left. by split; [|left]. }
  unfold kbind at 1. rewrite request_run, reply_tail. destruct (reply l 1) as [x|] eqn:E1.
  { eexists _, _. split; [done|]. split; [done|]. right. right. exists 1%nat, x. split_and!; [lia|done|done]. }
  unfold kbind at 1, read at 1. cbn [sv_kube kd_get Deployments]. unfold kret at 1. unfold kbind at 1. rewrite request_run, !reply_tail. destruct (reply l 2) as [x|] eqn:E2.
  { eexists _, _. split; [done|]. split; [done|]. right. right. exists 2%nat, x. split_and!; [lia|done|done]. }
  unfold kbind at 1, read at 1. cbn [sv_kube kd_get StatefulSets]. unfold kret at 1. rewrite !filter_everything.
  set (m := foldl _ (foldl _ ∅ _) _).
  assert (∀ name, m !! name = if decide (is_Some (k_stateful k !! name)) then Some (stateful_status c name)
      else if decide (is_Some (k_deployments k !! name)) then Some (deployment_status c name) else None) as Hm.
  { intros name. unfold m. rewrite !named_lookup. pose proof (elem_listed (k_stateful k) name). pose proof (elem_listed (k_deployments k) name).
    rewrite lookup_empty. repeat case_decide; tauto. }
  destruct (decide (m = ∅)) as [Hempty|Hsome]; cbn [kret].
  - eexists _, _. split; [done|]. split; [done|]. right. left. split_and!; [done| |]; apply map_eq; intros name; rewrite lookup_empty; specialize (Hm name); rewrite Hempty, lookup_empty in Hm;
      apply eq_None_not_Some; intros Hs; repeat case_decide; by try done.
  - unfold kbind at 1. rewrite request_run, !reply_tail. destruct (reply l 3) as [x|] eqn:E3.
    { eexists _, _. split; [done|]. split; [done|]. right. right. exists 3%nat, x. split_and!; [lia|done|done]. }
    eexists _, _. split; [done|]. split; [done|]. split; [|split; [done|split]].
    + intros [|[|[|[|i]]]] Hi; [done..|lia].
    + destruct (decide (k_deployments k = ∅)) as [Ed|]; [|by left]. right. intros Es. apply Hsome, map_eq. intros name. by rewrite Hm, Ed, Es, !lookup_empty, !decide_False by by intros [].
    + intros name. rewrite add_hosts_lookup, Hm. unfold entry_of, hosts_of. by repeat case_decide.
Qed.

End sound.

(** Claim C39.  Asking for the status of a lease changes nothing, whatever the API
    server answers.  A status is reported only when the server answered each of
    the four questions, and then it has exactly an entry for each controller of the lease, with
    the counts of that controller and the hostnames declared for that very lease
    and service.  An error is that the lease is not there, that nothing of it
    runs, or the error that the server gave.  A lease that is deployed is reported whole, where the server
    answers: each of its services has its entry. *)
Theorem lease_reported `{GoUnicode} `{Cosmos} `{Protocols} `{!KubeProtocols} `{!ManifestSdk} `{KubeSdk} `{ChainSdk} `{MapOrder}
  (settings : Settings) (c : controllers) (hosts : gmap string (resource ProviderHostSpec)) (lid : LeaseID) (k : kube) (l : list (option kerror))
  (Hsettings : ValidateSettings settings = None) :
  ∃ r s', LeaseStatus (Some settings) c hosts lid (MkServer k l) = (Ret r, s') ∧ sv_kube s' = k
  ∧ match r with
    | Ok m => answered l ∧ is_Some (k_namespaces k !! LidNS lid) ∧ (k_deployments k ≠ ∅ ∨ k_stateful k ≠ ∅)
              ∧ ∀ name, entry_true c hosts lid k name (m !! name)
    | Err e => (e = ErrLeaseNotFound ∧ (k_namespaces k !! LidNS lid = None ∨ reply l 0 = Some NotFound))
               ∨ (e = ErrNoDeploymentForLease ∧ k_deployments k = ∅ ∧ k_stateful k = ∅)
               ∨ ∃ i x, (i < 4)%nat ∧ reply l i = Some x ∧ e = (if decide (i = 3)%nat then plain_error x else internal x)
    end
  ∧ ∀ settings' d, deployed settings' d k → cd_Lid d = lid → is_Some (k_namespaces k !! LidNS lid) → g_Services (cd_Group d) ≠ [] → answered l →
      ∃ m, r = Ok m ∧ ∀ service, service ∈ g_Services (cd_Group d) → is_Some (m !! svc_Name service).
Proof.
  destruct (status_run settings c hosts lid k l Hsettings) as (r & s' & Er & Es & Hr). exists r, s'. split; [done|]. split; [done|]. split.
  - destruct r as [m|e]; [|exact Hr]. destruct Hr as (Ha & Hn & Hc & Hm). split_and!; [done..|]. intros name. rewrite Hm. apply entry_of_true.
  - intros settings' d (mani & _ & Hall) _ Hns Hne Hans.
    assert (∀ service, service ∈ g_Services (cd_Group d) → is_Some (k_stateful k !! svc_Name service) ∨ is_Some (k_deployments k !! svc_Name service)) as Hrun.
    { intros service [i Hi]%list_elem_of_lookup. destruct (Hall i service Hi) as (w & Hb & Hw). apply built_declared in Hb as (Hd & _ & _).
      assert (workload_Name w = svc_Name service) as En by (unfold workload_Name; congruence). unfold runs_workload in Hw. rewrite En in Hw.
      case_match; destruct Hw as (o & -> & _); eauto. }
    destruct r as [m|e].
    + exists m. split; [done|]. intros service Hs%Hrun. destruct Hr as (_ & _ & _ & ->). unfold entry_of. repeat case_decide; [by eexists..|tauto].
    + exfalso. destruct Hr as [(_ & [Hn|H0'])|[(_ & Ed & Est)|(i & x & Hi & Hx & _)]].
      * rewrite Hn in Hns. by destruct Hns.
      * by rewrite (Hans 0%nat) in H0' by lia.
      * destruct (g_Services (cd_Group d)) as [|service ?]; [done|]. destruct (Hrun service) as [Hc|Hc]; [by left|..]; rewrite ?Ed, ?Est, lookup_empty in Hc; by destruct Hc.
      * by rewrite (Hans i) in Hx.
Qed.

(** The name of a service that forwards ports is read back. *)
Theorem forwarded_name (basename : string) : deployment_name (makeGlobalServiceNameFromBasename basename) = Ret basename.
Proof.
  unfold deployment_name, makeGlobalServiceNameFromBasename. rewrite str_length_app. case_match eqn:E; [apply Nat.ltb_lt in E; lia|].
  f_equal. replace (_ + _ - _)%nat with (String.length basename) by lia. apply str_take_app.
Qed.

(** * The status of the deployed lease

    The lease with a website and a database, with a hostname for each. *)

Module StatusSample.

#[local] Existing Instance IpOperatorSample.protocols.
#[local] Existing Instance IpOperatorSample.kube_protocols.
#[local] Existing Instance IpOperatorSample.ascii_only.
#[local] Existing Instance PlainCosmos.plain.
#[local] Existing Instance listed_order.
#[local] Existing Instance InventorySample.Sample.sdk.
#[local] Existing Instance KubeSample.chain_sdk.
#[local] Existing Instance KubeSample.kube_sdk.

Definition counted : controller_status := MkControllerStatus 1 1 1 1 1 1.
Definition all_counted : controllers := MkControllers (λ _, counted) (λ _, counted).
Definition host (name service : string) : resource ProviderHostSpec := MkResource (managed_labels KubeSample.lid) ∅ (host_spec KubeSample.lid name service 80).
Definition hosts : gmap string (resource ProviderHostSpec) := <["www.example" := host "www.example" "web"]> {["db.example" := host "db.example" "db"]}.
Definition deployed_kube : kube := sv_kube KubeSample.first.2.

Lemma settings_valid : ValidateSettings KubeSample.settings = None.
Proof. vm_compute. reflexivity. Qed.

(** The lease of the sample is deployed. *)
Lemma lease_deployed : ∃ settings' d, cd_Lid d = KubeSample.lid ∧ cd_Group d = KubeSample.group ∧ deployed settings' d deployed_kube.
Proof.
  assert (KubeSample.first.1 = None) as Hn by (vm_compute; reflexivity). unfold deployed_kube. destruct KubeSample.first as [err s'] eqn:E. cbn [fst] in Hn. subst err.
  unfold KubeSample.first, KubeSample.run in E.
  exact (deploy_deployed KubeSample.settings "ns" (Ok []) [] KubeSample.lid KubeSample.group KubeSample.reservation "" KubeSample.nobody s' KubeSample.group_names E).
Qed.

Lemma lease_there : is_Some (k_namespaces deployed_kube !! LidNS KubeSample.lid).
Proof. apply (bool_decide_eq_true_1 _). vm_compute. reflexivity. Qed.

Lemma web_hosts : hosts !! "www.example" = Some (host "www.example" "web").
Proof. reflexivity. Qed.

(** The website is reported with its hostname, the database without a word about
    it; a refused question is passed on. *)
Lemma lease_reported_witness :
  (∃ m s s', LeaseStatus (Some KubeSample.settings) all_counted hosts KubeSample.lid (MkServer deployed_kube []) = (Ret (Ok m), s')
     ∧ m !! "web" = Some s ∧ ss_Name s = "web" ∧ "www.example" ∈ ss_URIs s ∧ is_Some (m !! "db"))
  ∧ ∃ e s', LeaseStatus (Some KubeSample.settings) all_counted hosts KubeSample.lid (MkServer deployed_kube [None; None; Some (OtherError "down")]) = (Ret (Err e), s').
Proof.
  pose proof lease_deployed as (settings' & d & El & Eg & Hdep). pose proof lease_there as Hns. revert Hdep Hns. generalize deployed_kube. intros k Hdep Hns. split.
  - destruct (lease_reported KubeSample.settings all_counted hosts KubeSample.lid k [] settings_valid) as (r & s' & E & _ & Hr & Hwhole).
    destruct (Hwhole settings' d Hdep El Hns) as (m & -> & Hall); [rewrite Eg; discriminate|intros i _; reflexivity|]. rewrite Eg in Hall.
    destruct (Hall KubeSample.web ltac:(left)) as [s Hs]. change (svc_Name KubeSample.web) with "web" in Hs. exists m, s, s'.
    destruct Hr as (_ & _ & _ & Hentry). specialize (Hentry "web"). rewrite Hs in Hentry. destruct Hentry as (Hn & _ & Hu).
    split; [exact E|]. split; [exact Hs|]. split; [exact Hn|]. split; [|exact (Hall KubeSample.db ltac:(right; left))]. apply Hu.
    exists "www.example", (host "www.example" "web"). split; [exact web_hosts|]. repeat split; vm_compute; reflexivity.
  - destruct (lease_reported KubeSample.settings all_counted hosts KubeSample.lid k [None; None; Some (OtherError "down")] settings_valid) as ([m|e] & s' & E & _ & Hr & _); [|exists e, s'; exact E].
    destruct Hr as (Ha & _). specialize (Ha 2%nat ltac:(lia)). discriminate Ha.
Defined.

Definition names_of (r : outcome (result cluster_error ServiceStatus) * server) : list string := match r.1 with Ret (Ok s) => ss_URIs s | _ => [] end.
Definition lease_names_of (r : outcome (result cluster_error (gmap string ServiceStatus)) * server) (name : string) : list string :=
  match r.1 with Ret (Ok m) => match m !! name with Some s => ss_URIs s | None => [] end | _ => [] end.

(** The status of a single service has the hostnames of the whole lease; the
    status of the lease tells them apart. *)
Theorem hostnames_of_all_services :
  names_of (service_status all_counted hosts KubeSample.lid "web" (MkServer deployed_kube [])) ≡ₚ ["www.example"; "db.example"]
  ∧ lease_names_of (LeaseStatus (Some KubeSample.settings) all_counted hosts KubeSample.lid (MkServer deployed_kube [])) "web" = ["www.example"].
Proof. split; vm_compute; [apply Permutation_swap || reflexivity|reflexivity]. Qed.

End StatusSample.
