(* ===== verification/InventoryState.v ===== *)
(** * The inventory of a cluster

    [operator/inventory]: the storage of a cluster as its drivers keep it
    ([ceph.go], [rancher.go]), its nodes ([nodes.go]), and the state that is
    published of both ([state.go], [diagnostics.go]).  Each goroutine is a step
    on its state; what the API server answers comes with the event. *)
From Stdlib Require Import Ascii String.
From S2P Require Import Prelude GoStrings ChainTypes ClusterTypes NullInventory HostRoutes MetalLb LeaseNames KubeObjects Gateway NodeDiscovery.

Open Scope string_scope.
Open Scope go_scope.

(** ** Volumes and classes *)

(** [vo_Capacity]: its capacity of storage, if it has one. *)
Record PersistentVolume `{Quantities} := MkVolume { vo_Name : string; vo_Class : string; vo_Capacity : option Quantity }.
Record StorageClass := MkClass { cl_Name : string; cl_Labels : label_map; cl_Provisioner : string; cl_Parameters : gmap string string }.

(** The client answers a failed request with an empty object. *)
Definition got_class (r : result kerror StorageClass) : StorageClass := match r with Ok c => c | Err _ => MkClass "" ∅ "" ∅ end.

(** The label of a class; one that is not a truth value counts as false. *)
Definition falseVal : string := "false".
Definition is_managed (labels : label_map) : bool :=
  let lblVal := default "" (labels !! AkashManagedLabelName) in
  default false (ParseBool (if lblVal =? "" then falseVal else lblVal)).

Section drivers.
Context `{QuantityArith} `{!NewPairs} `{MapOrder}.

Inductive storage_action :=
| PubStorage (driver : string) (storage : list ClusterStorage)
| LogNegative (driver class volume : string)
| LogUntracked (driver class volume : string).

(** [subStorageAllocatedResource]: what is left, and whether it is reported as
    negative. *)
Definition subStorageAllocatedResource (driver class volume : string) (allocated val : Quantity) : Quantity * list storage_action :=
  let after := q_Sub allocated val in
  (after, if q_negative after then [LogNegative driver class volume] else []).

(** ** Ceph *)

Record cephStorageClass := MkCephClass { cc_isCeph : bool; cc_isAkashManaged : bool; cc_pool : string; cc_clusterID : string; cc_allocated : Quantity }.
Definition cc_with (q : Quantity) (c : cephStorageClass) : cephStorageClass := MkCephClass (cc_isCeph c) (cc_isAkashManaged c) (cc_pool c) (cc_clusterID c) q.

(** The pools of a cluster with what is available of them. *)
Record dfResp := MkDf { df_Pools : list (string * Z) }.

(** [ce_out]: the clusters of the scrape that is under way; while there is one
    the channel of scrapes is nil, and it takes a request otherwise. *)
Record ceph_state := MkCephState {
  ce_scs : gmap string cephStorageClass; ce_clusters : gmap string string; ce_pvMap : gmap string PersistentVolume;
  ce_out : option (gmap string string); ce_scrapecnt : nat; ce_informed : bool }.
Definition ceph_start : ceph_state := MkCephState ∅ ∅ ∅ None 0 false.

Definition ce_with_scs (scs : gmap string cephStorageClass) (s : ceph_state) : ceph_state :=
  MkCephState scs (ce_clusters s) (ce_pvMap s) (ce_out s) (ce_scrapecnt s) (ce_informed s).
Definition ce_with_clusters (cs : gmap string string) (s : ceph_state) : ceph_state :=
  MkCephState (ce_scs s) cs (ce_pvMap s) (ce_out s) (ce_scrapecnt s) (ce_informed s).
Definition ce_with_pvMap (m : gmap string PersistentVolume) (s : ceph_state) : ceph_state :=
  MkCephState (ce_scs s) (ce_clusters s) m (ce_out s) (ce_scrapecnt s) (ce_informed s).

Definition signalScrape (s : ceph_state) : ceph_state :=
  match ce_out s with
  | None => MkCephState (ce_scs s) (ce_clusters s) (ce_pvMap s) (Some (ce_clusters s)) 0 (ce_informed s)
  | Some out => MkCephState (ce_scs s) (ce_clusters s) (ce_pvMap s) (Some out) (S (ce_scrapecnt s)) (ce_informed s)
  end.

Definition isCeph (provisioner : string) : bool := HasSuffix provisioner ".csi.ceph.com".
Definition ceph_class (obj : StorageClass) (allocated : Quantity) : cephStorageClass :=
  MkCephClass (isCeph (cl_Provisioner obj)) (is_managed (cl_Labels obj)) (default "" (cl_Parameters obj !! "pool")) (default "" (cl_Parameters obj !! "clusterID")) allocated.

Definition ceph_on_class (t : watch_type) (obj : StorageClass) (s : ceph_state) : ceph_state :=
  match t with
  | WatchAdded | WatchModified =>
      let allocated := match ce_scs s !! cl_Name obj with Some sc => cc_allocated sc | None => q_Set 0 end in
      signalScrape (ce_with_scs (<[cl_Name obj := ceph_class obj allocated]> (ce_scs s)) s)
  | WatchDeleted => signalScrape (ce_with_scs (delete (cl_Name obj) (ce_scs s)) s)
  | WatchOther => s
  end.

Definition ceph_on_cluster (t : watch_type) (name namespace : string) (created : bool) (s : ceph_state) : ceph_state :=
  signalScrape
    match t with
    | WatchAdded | WatchModified => if created then ce_with_clusters (<[name := namespace]> (ce_clusters s)) s else s
    | WatchDeleted => ce_with_clusters (delete name (ce_clusters s)) s
    | WatchOther => s
    end.

(** [got]: the class of the volume, asked for when it is not tracked. *)
Definition ceph_add_volume (obj : PersistentVolume) (got : result kerror StorageClass) (s : ceph_state) : ceph_state :=
  match vo_Capacity obj with
  | None => s
  | Some capacity =>
      let '(key, sc, s) :=
        match ce_scs s !! vo_Class obj with
        | Some sc => (vo_Class obj, sc, s)
        | None =>
            let scItem := got_class got in
            let sc := ceph_class scItem (q_Set 0) in
            (cl_Name scItem, sc, ce_with_scs (<[cl_Name scItem := sc]> (ce_scs s)) s)
        end in
      match ce_pvMap s !! vo_Name obj with
      | Some _ => s
      | None => ce_with_pvMap (<[vo_Name obj := obj]> (ce_pvMap s)) (ce_with_scs (<[key := cc_with (q_Add (cc_allocated sc) capacity) sc]> (ce_scs s)) s)
      end
  end.

Definition ceph_delete_volume (obj : PersistentVolume) (s : ceph_state) : ceph_state * list storage_action :=
  match vo_Capacity obj with
  | None => (s, [])
  | Some res =>
      let s := ce_with_pvMap (delete (vo_Name obj) (ce_pvMap s)) s in
      match ce_scs s !! vo_Class obj with
      | None => (s, [LogUntracked "ceph" (vo_Class obj) (vo_Name obj)])
      | Some sc =>
          let '(after, acts) := subStorageAllocatedResource "ceph" (vo_Class obj) (vo_Name obj) (cc_allocated sc) res in
          (ce_with_scs (<[vo_Class obj := cc_with after sc]> (ce_scs s)) s, acts)
      end
  end.

Definition ceph_on_volume (t : watch_type) (obj : PersistentVolume) (got : result kerror StorageClass) (s : ceph_state) : ceph_state * list storage_action :=
  match t with
  | WatchAdded | WatchModified => (signalScrape (ceph_add_volume obj got s), [])
  | WatchDeleted => let '(s, acts) := ceph_delete_volume obj s in (signalScrape s, acts)
  | WatchOther => (signalScrape s, [])
  end.

(** [scraper]: an answer for each cluster of the request, empty when the command
    failed; [exec]: the answer of the tools of a namespace. *)
Definition scraper (exec : string → dfResp) (clusters : gmap string string) : gmap string dfResp := exec <$> clusters.

Definition ceph_storage (res : gmap string dfResp) (entry : string * cephStorageClass) : option ClusterStorage :=
  let '(class, params) := entry in
  if negb (cc_isCeph params) then None
  else match res !! cc_clusterID params with
       | None => None
       | Some df =>
           if negb (cc_isAkashManaged params) then None
           else match List.find (λ pool, pool.1 =? cc_pool params) (df_Pools df) with
                | Some (_, maxAvail) => Some (MkClusterStorage class (MkPair _ (Some (q_Set (i64 maxAvail))) (Some (q_Set (i64 maxAvail))) (Some (cc_allocated params))))
                | None => None
                end
       end.

Definition ceph_result (res : gmap string dfResp) (s : ceph_state) : list ClusterStorage := omap (ceph_storage res) (map_order _ (map_to_list (ce_scs s))).

Definition ceph_scraped (res : gmap string dfResp) (s : ceph_state) : ceph_state * list storage_action :=
  let acts := if decide (res = ∅) then [] else match ceph_result res s with [] => [] | result => [PubStorage "ceph" result] end in
  let cnt := ce_scrapecnt s in
  let s := MkCephState (ce_scs s) (ce_clusters s) (ce_pvMap s) None cnt (ce_informed s) in
  (if (0 <? cnt)%nat then signalScrape s else s, acts).

Inductive ceph_event :=
| CephTick (installed : bool)
| CephClass (t : watch_type) (obj : StorageClass)
| CephCluster (t : watch_type) (name namespace : string) (created : bool)
| CephVolume (t : watch_type) (obj : PersistentVolume) (got : result kerror StorageClass)
| CephScraped (exec : string → dfResp).

(** [(ceph).run]; the resource of clusters is watched once it is there. *)
Definition ceph_step (s : ceph_state) (e : ceph_event) : option (ceph_state * list storage_action) :=
  match e with
  | CephTick installed =>
      if ce_informed s then None else Some (MkCephState (ce_scs s) (ce_clusters s) (ce_pvMap s) (ce_out s) (ce_scrapecnt s) installed, [])
  | CephClass t obj => Some (ceph_on_class t obj s, [])
  | CephCluster t name namespace created => if ce_informed s then Some (ceph_on_cluster t name namespace created s, []) else None
  | CephVolume t obj got => Some (ceph_on_volume t obj got s)
  | CephScraped exec => clusters ← ce_out s; Some (ceph_scraped (scraper exec clusters) s)
  end.

(** ** Local paths *)

Record rancherStorage := MkRancherClass { rn_isRancher : bool; rn_isAkashManaged : bool; rn_allocated : Quantity }.
Definition rn_with (q : Quantity) (c : rancherStorage) : rancherStorage := MkRancherClass (rn_isRancher c) (rn_isAkashManaged c) q.

(** [ra_watching]: volumes are watched; [ra_scrape]: the loop is told to
    publish. *)
Record rancher_state := MkRancher {
  ra_scs : gmap string rancherStorage; ra_pvMap : gmap string PersistentVolume; ra_allocatable : Z; ra_watching : bool; ra_scrape : bool }.
Definition rancher_start : rancher_state := MkRancher ∅ ∅ (2 ^ 63 - 1) false false.

Definition ra_with_scs (scs : gmap string rancherStorage) (s : rancher_state) : rancher_state := MkRancher scs (ra_pvMap s) (ra_allocatable s) (ra_watching s) (ra_scrape s).
Definition ra_with_pvMap (m : gmap string PersistentVolume) (s : rancher_state) : rancher_state := MkRancher (ra_scs s) m (ra_allocatable s) (ra_watching s) (ra_scrape s).
Definition tryScrape (s : rancher_state) : rancher_state := MkRancher (ra_scs s) (ra_pvMap s) (ra_allocatable s) (ra_watching s) true.

Definition rancher_class (obj : StorageClass) (allocated : Quantity) : rancherStorage :=
  MkRancherClass (cl_Provisioner obj =? "rancher.io/local-path") (is_managed (cl_Labels obj)) allocated.

Definition rancher_add_volume (obj : PersistentVolume) (got : result kerror StorageClass) (s : rancher_state) : rancher_state :=
  match vo_Capacity obj with
  | None => s
  | Some res =>
      let '(params, s) :=
        match ra_scs s !! vo_Class obj with
        | Some params => (params, s)
        | None => let params := rancher_class (got_class got) (q_Set 0) in (params, ra_with_scs (<[vo_Class obj := params]> (ra_scs s)) s)
        end in
      match ra_pvMap s !! vo_Name obj with
      | Some _ => s
      | None => ra_with_pvMap (<[vo_Name obj := obj]> (ra_pvMap s)) (ra_with_scs (<[vo_Class obj := rn_with (q_Add (rn_allocated params) res) params]> (ra_scs s)) s)
      end
  end.

Definition rancher_delete_volume (obj : PersistentVolume) (s : rancher_state) : rancher_state * list storage_action :=
  match vo_Capacity obj with
  | None => (s, [])
  | Some res =>
      let s := ra_with_pvMap (delete (vo_Name obj) (ra_pvMap s)) s in
      match ra_scs s !! vo_Class obj with
      | None => (s, [LogUntracked "rancher" (vo_Class obj) (vo_Name obj)])
      | Some params =>
          let '(after, acts) := subStorageAllocatedResource "rancher" (vo_Class obj) (vo_Name obj) (rn_allocated params) res in
          (ra_with_scs (<[vo_Class obj := rn_with after params]> (ra_scs s)) s, acts)
      end
  end.

Definition rancher_on_volume (t : watch_type) (obj : PersistentVolume) (got : result kerror StorageClass) (s : rancher_state) : rancher_state * list storage_action :=
  match t with
  | WatchAdded | WatchModified => (tryScrape (rancher_add_volume obj got s), [])
  | WatchDeleted => let '(s, acts) := rancher_delete_volume obj s in (tryScrape s, acts)
  | WatchOther => (tryScrape s, [])
  end.

(** The volumes that are there when the watch starts; those without a class are
    left to its events. *)
Fixpoint rancher_listed (pvs : list PersistentVolume) (s : rancher_state) : rancher_state :=
  match pvs with
  | [] => s
  | pv :: pvs =>
      rancher_listed pvs
        match vo_Capacity pv, ra_scs s !! vo_Class pv with
        | Some capacity, Some params =>
            ra_with_pvMap (<[vo_Name pv := pv]> (ra_pvMap s)) (ra_with_scs (<[vo_Class pv := rn_with (q_Add (rn_allocated params) capacity) params]> (ra_scs s)) s)
        | _, _ => s
        end
  end.

(** [classes]: how many classes there are, [watch]: whether the watch could be
    started, [pvs]: the listing; what fails to be listed is empty. *)
Definition rancher_on_class (t : watch_type) (obj : StorageClass) (classes : nat) (watch : bool) (pvs : list PersistentVolume) (s : rancher_state) : outcome rancher_state :=
  match t with
  | WatchAdded | WatchModified =>
      let allocated := match ra_scs s !! cl_Name obj with Some sc => rn_allocated sc | None => q_Set 0 end in
      let s := ra_with_scs (<[cl_Name obj := rancher_class obj allocated]> (ra_scs s)) s in
      if (classes =? size (ra_scs s))%nat && negb (ra_watching s)
      then if watch then Ret (tryScrape (rancher_listed pvs (MkRancher (ra_scs s) (ra_pvMap s) (ra_allocatable s) true (ra_scrape s)))) else Panic
      else Ret (tryScrape s)
  | WatchDeleted | WatchOther => Ret (tryScrape s)
  end.

Definition rancher_on_node (allocatable : option Quantity) (s : rancher_state) : rancher_state :=
  tryScrape (match allocatable with Some val => MkRancher (ra_scs s) (ra_pvMap s) (q_Value val) (ra_watching s) (ra_scrape s) | None => s end).

Definition rancher_result (s : rancher_state) : list ClusterStorage :=
  omap (λ '(class, params),
      if rn_isRancher params && rn_isAkashManaged params
      then Some (MkClusterStorage class (NewResourcePair (ra_allocatable s) (ra_allocatable s) (q_Value (rn_allocated params)))) else None)
    (map_order _ (map_to_list (ra_scs s))).

Definition rancher_scraped (s : rancher_state) : rancher_state * list storage_action :=
  (MkRancher (ra_scs s) (ra_pvMap s) (ra_allocatable s) (ra_watching s) false,
   match rancher_result s with [] => [] | res => [PubStorage "rancher" res] end).

Inductive rancher_event :=
| RancherVolume (t : watch_type) (obj : PersistentVolume) (got : result kerror StorageClass)
| RancherClass (t : watch_type) (obj : StorageClass) (classes : nat) (watch : bool) (pvs : list PersistentVolume)
| RancherNode (allocatable : option Quantity)
| RancherOther
| RancherScrape.

(** [(rancher).run]. *)
Definition rancher_step (s : rancher_state) (e : rancher_event) : option (outcome (rancher_state * list storage_action)) :=
  match e with
  | RancherVolume t obj got => if ra_watching s then Some (Ret (rancher_on_volume t obj got s)) else None
  | RancherClass t obj classes watch pvs => Some (let! s := rancher_on_class t obj classes watch pvs s in Ret (s, []))
  | RancherNode allocatable => Some (Ret (rancher_on_node allocatable s, []))
  | RancherOther => Some (Ret (tryScrape s, []))
  | RancherScrape => if ra_scrape s then Some (Ret (rancher_scraped s)) else None
  end.

End drivers.

(** ** The state of the cluster *)

Section state.
Context `{Quantities} `{MapOrder}.

(** A quantity below zero: the node or class, the resource and the field. *)
Record negativeInventoryResource := MkNegative {
  ng_Scope : string; ng_Node : string; ng_StorageClass : string; ng_Resource : string; ng_Field : string; ng_Value : Quantity }.

Definition appendNegativeQuantity (result : list negativeInventoryResource) (scope node class name field : string) (quantity : option Quantity) : list negativeInventoryResource :=
  match quantity with
  | Some q => if q_negative q then (result ++ [MkNegative scope node class name field q])%list else result
  | None => result
  end.
Definition appendNegativeResourcePair (result : list negativeInventoryResource) (scope node class name : string) (pair : ResourcePair) : list negativeInventoryResource :=
  let result := appendNegativeQuantity result scope node class name "capacity" (rp_Capacity pair) in
  let result := appendNegativeQuantity result scope node class name "allocatable" (rp_Allocatable pair) in
  appendNegativeQuantity result scope node class name "allocated" (rp_Allocated pair).

Definition negative_of_node (result : list negativeInventoryResource) (node : Node) : list negativeInventoryResource :=
  let r := nd_Resources node in
  let result := appendNegativeResourcePair result "node" (nd_Name node) "" "cpu" (icpu_Quantity (nr_CPU r)) in
  let result := appendNegativeResourcePair result "node" (nd_Name node) "" "memory" (nr_Memory r) in
  let result := appendNegativeResourcePair result "node" (nd_Name node) "" "gpu" (igpu_Quantity (nr_GPU r)) in
  let result := appendNegativeResourcePair result "node" (nd_Name node) "" "ephemeral_storage" (nr_EphemeralStorage r) in
  let result := appendNegativeResourcePair result "node" (nd_Name node) "" "volumes_attached" (nr_VolumesAttached r) in
  appendNegativeResourcePair result "node" (nd_Name node) "" "volumes_mounted" (nr_VolumesMounted r).

Definition negativeInventoryResources (cluster : Cluster) : list negativeInventoryResource :=
  foldl (λ result storage, appendNegativeResourcePair result "storage" "" (cs_Class storage) "storage" (cs_Quantity storage))
    (foldl negative_of_node [] (cl_Nodes cluster)) (cl_Storage cluster).

Record cluster_state := MkClusterState { st_storage : gmap string (list ClusterStorage); st_state : Cluster; st_cfg : Config; st_signal : bool }.
Definition no_config : Config := MkConfig [] [] [] [].
Definition state_start : cluster_state := MkClusterState ∅ (MkCluster [] []) no_config false.

Inductive state_event :=
| StConfig (cfg : Config)
| StNodes (nodes : list Node)
| StStorage (driver : string) (storage : list ClusterStorage)
| StQuery
| StSignal.
(** What is published, with the quantities that are reported as negative. *)
Inductive state_action := StReply (c : Cluster) | StPub (c : Cluster) (negative : list negativeInventoryResource).

(** [(clusterState).run]. *)
Definition state_step (s : cluster_state) (e : state_event) : option (cluster_state * list state_action) :=
  match e with
  | StConfig cfg => Some (MkClusterState (st_storage s) (st_state s) cfg (st_signal s), [])
  | StNodes nodes => Some (MkClusterState (st_storage s) (MkCluster nodes (cl_Storage (st_state s))) (st_cfg s) true, [])
  | StStorage driver storage =>
      let all := <[driver := storage]> (st_storage s) in
      let classes := List.filter (λ class, HasStorageClass (st_cfg s) (cs_Class class)) (concat (map_order _ (map_to_list all).*2)) in
      Some (MkClusterState all (MkCluster (cl_Nodes (st_state s)) classes) (st_cfg s) true, [])
  | StQuery => Some (s, [StReply (st_state s)])
  | StSignal => if st_signal s then Some (MkClusterState (st_storage s) (st_state s) (st_cfg s) false, [StPub (st_state s) (negativeInventoryResources (st_state s))]) else None
  end.

End state.

(** ** Nodes *)

(** The order of nodes, of the SDK. *)
Class NodeSort `{Quantities} := { sort_nodes : list Node → list Node; sort_nodes_perm : ∀ l, sort_nodes l ≡ₚ l }.

Section nodes.
Context `{NodeSort} `{MapOrder}.

Inductive nodes_event := NodeState (state : nodeStateEnum) (name : string) (node : Node) | NodesQuery.
Inductive nodes_action := PubNodes (l : list Node) | ReplyNodes (l : list Node).

Definition snapshot (nodes : gmap string Node) : list Node := sort_nodes (map_order _ (map_to_list nodes).*2).

(** [(clusterNodes).run]. *)
Definition nodes_step (nodes : gmap string Node) (e : nodes_event) : option (gmap string Node * list nodes_action) :=
  match e with
  | NodeState nodeStateUpdated name node => let nodes := <[name := node]> nodes in Some (nodes, [PubNodes (snapshot nodes)])
  | NodeState nodeStateRemoved name _ => let nodes := delete name nodes in Some (nodes, [PubNodes (snapshot nodes)])
  | NodesQuery => Some (nodes, [ReplyNodes (snapshot nodes)])
  end.

End nodes.

(** ** Discoveries

    [(clusterNodes).connector]: the discovery of each node, and those that have
    not ended yet, also when nothing refers to them any more; one that ends puts
    its name into the channel [co_done], which holds one name. *)
Record connector := MkConnector { co_nodes : gmap string nat; co_running : gmap nat string; co_next : nat; co_done : option string }.
Definition connector_start : connector := MkConnector ∅ ∅ 0 None.

Definition newNodeDiscovery (name : string) (s : connector) : connector :=
  MkConnector (<[name := co_next s]> (co_nodes s)) (<[co_next s := name]> (co_running s)) (S (co_next s)) (co_done s).

(** [shutdown] waits until the discovery has ended; [None]: for ever. *)
Definition shutdown (id : nat) (s : connector) : option connector :=
  match co_running s !! id, co_done s with
  | None, _ => Some s
  | Some name, None => Some (MkConnector (co_nodes s) (delete id (co_running s)) (co_next s) (Some name))
  | Some _, Some _ => None
  end.
Definition forget (name : string) (s : connector) : connector := MkConnector (delete name (co_nodes s)) (co_running s) (co_next s) (co_done s).

Inductive connector_event :=
| NodeAdded (name : string)
| NodeDeleted (name : string)
| DiscoveryEnds (id : nat)
| DoneReceived.

Definition connector_step (s : connector) (e : connector_event) : option (connector * list connector_event) :=
  match e with
  | NodeAdded name => Some (newNodeDiscovery name s, [])
  | NodeDeleted name =>
      match co_nodes s !! name with
      | None => Some (s, [])
      | Some id => s ← shutdown id s; Some (forget name s, [])
      end
  | DiscoveryEnds id => if decide (is_Some (co_running s !! id)) then s ← shutdown id s; Some (s, []) else None
  | DoneReceived =>
      name ← co_done s;
      let s := MkConnector (co_nodes s) (co_running s) (co_next s) None in
      s ← match co_nodes s !! name with None => Some s | Some id => shutdown id (forget name s) end;
      Some (newNodeDiscovery name s, [])
  end.
