(* ===== verification/InventoryStateSound.v ===== *)
(** * What is published of a cluster

    The storage that is allocated is what the volumes of its class take; the
    state that is published is what the drivers and the nodes last said. *)
From Stdlib Require Import Ascii String.
From S2P Require Import Prelude Traces GoStrings ChainTypes ClusterTypes NullInventory HostRoutes MetalLb LeaseNames KubeObjects InventorySound InventoryMetrics Gateway NodeDiscovery InventoryState.
From S2P Require Import InventorySample NodeDiscoverySound.

Open Scope string_scope.
Open Scope go_scope.

Section volumes.
Context `{QuantityLaws} `{!NewPairs} `{MapOrder}.
Notation volumes := (gmap string PersistentVolume).

(** ** Volumes *)

Definition volume_load (class : string) (v : PersistentVolume) : Z :=
  if decide (vo_Class v = class) then match vo_Capacity v with Some q => q_nano q | None => 0 end else 0.
(** What the volumes of a class take. *)
Definition class_load (class : string) (vols : volumes) : Z := sum_Z ((λ p, volume_load class p.2) <$> map_to_list vols).

Lemma class_load_insert class n v vols : vols !! n = None → class_load class (<[n := v]> vols) = (volume_load class v + class_load class vols)%Z.
Proof. intros Hn. unfold class_load. by rewrite (sum_Z_map_perm _ _ _ (map_to_list_insert vols n v Hn)). Qed.

Lemma class_load_delete class n v vols : vols !! n = Some v → class_load class (delete n vols) = (class_load class vols - volume_load class v)%Z.
Proof. intros Hn. rewrite <- (insert_delete_id vols n v Hn) at 2. rewrite class_load_insert by apply lookup_delete_eq. lia. Qed.

Lemma class_load_none class vols : (∀ n v, vols !! n = Some v → vo_Class v ≠ class) → class_load class vols = 0%Z.
Proof.
  induction vols as [|n v vols Hn IH] using map_ind; intros Hv; [done|]. rewrite class_load_insert by done. unfold volume_load.
  rewrite decide_False by (by apply (Hv n); rewrite lookup_insert_eq). rewrite IH; [done|].
  intros m w Hm. apply (Hv m). rewrite lookup_insert_ne; congruence.
Qed.

Definition capacities_fine (vols : volumes) : Prop := ∀ n v q, vols !! n = Some v → vo_Capacity v = Some q → (0 ≤ q_nano q)%Z.

Lemma class_load_nonneg class vols : capacities_fine vols → (0 ≤ class_load class vols)%Z.
Proof.
  induction vols as [|n v vols Hn IH] using map_ind; intros Hv; [done|]. rewrite class_load_insert by done.
  assert (0 ≤ class_load class vols)%Z by (apply IH; intros m w q Hm; apply (Hv m); rewrite lookup_insert_ne; congruence).
  unfold volume_load. destruct (decide _); [|lia]. destruct (vo_Capacity v) eqn:E; [|lia]. pose proof (Hv n v _ (lookup_insert_eq _ _ _) E). lia.
Qed.

(** The volumes, with capacity, that a driver has been told of: what an event of
    the watch says, and when it fits what was said before. A volume is not
    resized, and deleted as it was. *)
Definition told (t : watch_type) (v : PersistentVolume) (vols : volumes) : volumes :=
  match vo_Capacity v, t with
  | Some _, (WatchAdded | WatchModified) => <[vo_Name v := v]> vols
  | Some _, WatchDeleted => delete (vo_Name v) vols
  | _, _ => vols
  end.
Definition fits (t : watch_type) (v : PersistentVolume) (vols : volumes) : Prop :=
  ∀ q, vo_Capacity v = Some q →
    (0 ≤ q_nano q)%Z ∧
    match t with
    | WatchAdded | WatchModified => vols !! vo_Name v = None ∨ vols !! vo_Name v = Some v
    | WatchDeleted => vols !! vo_Name v = Some v
    | WatchOther => True
    end.

Lemma told_fine t v vols : fits t v vols → capacities_fine vols → capacities_fine (told t v vols).
Proof.
  intros Hf Hv n w q. unfold told. destruct (vo_Capacity v) as [c|] eqn:Ec; [|by apply Hv]. destruct (Hf c Ec) as [Hc _].
  destruct t; try by apply Hv.
  - rewrite lookup_insert_Some. intros [[_ <-]|[_ Hn]] E; [congruence|by eapply Hv].
  - rewrite lookup_insert_Some. intros [[_ <-]|[_ Hn]] E; [congruence|by eapply Hv].
  - rewrite lookup_delete_Some. intros [_ Hn]. by eapply Hv.
Qed.

(** The classes a driver keeps account of, each with what is allocated. *)
Definition accounts (allocated : gmap string Quantity) (pvMap vols : volumes) : Prop :=
  pvMap = vols ∧ (∀ n v, vols !! n = Some v → is_Some (allocated !! vo_Class v))
  ∧ ∀ class q, allocated !! class = Some q → q_nano q = class_load class vols.

(** A volume that is new is added to its class. *)
Lemma accounts_add allocated pvMap vols v q c : accounts allocated pvMap vols → vo_Capacity v = Some c → vols !! vo_Name v = None →
  allocated !! vo_Class v = Some q → accounts (<[vo_Class v := q_Add q c]> allocated) (<[vo_Name v := v]> pvMap) (<[vo_Name v := v]> vols).
Proof.
  intros (-> & Htr & Hal) Ec Hn Hq. split_and!; [done| |].
  - intros n w [[_ <-]|[_ Hw]]%lookup_insert_Some; [by rewrite lookup_insert_eq|]. apply lookup_insert_is_Some'. right. by eapply Htr.
  - intros class x [[<- <-]|[Hne Hx]]%lookup_insert_Some; rewrite class_load_insert by done; unfold volume_load.
    + rewrite decide_True by done. rewrite Ec, Add_law, (Hal _ _ Hq). lia.
    + rewrite decide_False by done. by rewrite (Hal _ _ Hx).
Qed.

(** One that goes is taken out again, and does not leave less than nothing. *)
Lemma accounts_delete allocated pvMap vols v q c : accounts allocated pvMap vols → capacities_fine vols → vo_Capacity v = Some c → vols !! vo_Name v = Some v →
  allocated !! vo_Class v = Some q →
  accounts (<[vo_Class v := q_Sub q c]> allocated) (delete (vo_Name v) pvMap) (delete (vo_Name v) vols) ∧ q_negative (q_Sub q c) = false.
Proof.
  intros (-> & Htr & Hal) Hfine Ec Hn Hq.
  assert (q_nano (q_Sub q c) = class_load (vo_Class v) (delete (vo_Name v) vols)) as Hs.
  { rewrite Sub_law, (Hal _ _ Hq), (class_load_delete _ _ v) by done. unfold volume_load. rewrite decide_True, Ec by done. lia. }
  split; [split_and!; [done| |]|].
  - intros n w [_ Hw]%lookup_delete_Some. apply lookup_insert_is_Some'. right. by eapply Htr.
  - intros class x [[<- <-]|[Hne Hx]]%lookup_insert_Some; [done|]. rewrite (Hal _ _ Hx), (class_load_delete _ _ v) by done. unfold volume_load.
    rewrite decide_False by done. lia.
  - rewrite negative_law, Hs. apply Z.ltb_ge, class_load_nonneg. intros n w x [_ Hw]%lookup_delete_Some. by eapply Hfine.
Qed.

(** A class that comes, or is there already, keeps its account. *)
Lemma accounts_class allocated pvMap vols class : accounts allocated pvMap vols →
  accounts (<[class := default (q_Set 0) (allocated !! class)]> allocated) pvMap vols.
Proof.
  intros (-> & Htr & Hal). split_and!; [done| |].
  - intros n v Hv. apply lookup_insert_is_Some'. right. by eapply Htr.
  - intros c x [[<- <-]|[_ Hx]]%lookup_insert_Some; [|by apply Hal]. destruct (allocated !! class) eqn:E; [by apply Hal|]. cbn [default id].
    rewrite Set_zero_law. symmetry. apply class_load_none. intros n v Hv Hc. destruct (Htr n v Hv) as [q Hq]. congruence.
Qed.

Lemma accounts_class_gone allocated pvMap vols class : accounts allocated pvMap vols → (∀ n v, vols !! n = Some v → vo_Class v ≠ class) →
  accounts (delete class allocated) pvMap vols.
Proof.
  intros (-> & Htr & Hal) Hv. split_and!; [done| |].
  - intros n v Hn. rewrite lookup_delete_ne by (intros E; by apply (Hv n v)). by eapply Htr.
  - intros c x [_ Hx]%lookup_delete_Some. by apply Hal.
Qed.

(** What a driver may publish of its classes, and that nothing else is
    reported. *)
Definition reported (vols : volumes) (x : ClusterStorage) : Prop :=
  ∃ q, q_nano q = class_load (cs_Class x) vols ∧ (rp_Allocated (cs_Quantity x) = Some q ∨ ∃ a, cs_Quantity x = NewResourcePair a a (q_Value q)).
Definition act_fine (driver : string) (vols : volumes) (a : storage_action) : Prop :=
  match a with PubStorage d l => d = driver ∧ Forall (reported vols) l | _ => False end.

(** ** Ceph *)

Definition ceph_told (e : ceph_event) (vols : volumes) : volumes := match e with CephVolume t v _ => told t v vols | _ => vols end.
(** The class of a volume is found, and no class goes before its volumes. *)
Definition ceph_fits (e : ceph_event) (vols : volumes) : Prop :=
  match e with
  | CephVolume t v got => fits t v vols ∧ ∃ obj, got = Ok obj ∧ cl_Name obj = vo_Class v
  | CephClass WatchDeleted obj => ∀ n v, vols !! n = Some v → vo_Class v ≠ cl_Name obj
  | _ => True
  end.

(** A state of the loop, with the volumes it has been told of. *)
Inductive ceph_reach : ceph_state → volumes → Prop :=
| ceph_reach_start : ceph_reach ceph_start ∅
| ceph_reach_step s vols e s' acts : ceph_reach s vols → ceph_fits e vols → ceph_step s e = Some (s', acts) → ceph_reach s' (ceph_told e vols).

Definition ceph_inv (s : ceph_state) (vols : volumes) : Prop := accounts (cc_allocated <$> ce_scs s) (ce_pvMap s) vols ∧ capacities_fine vols.

Lemma signalScrape_inv s vols : ceph_inv s vols → ceph_inv (signalScrape s) vols.
Proof. unfold ceph_inv, signalScrape. by destruct (ce_out s). Qed.

Lemma cc_lookup scs class : (cc_allocated <$> scs) !! class = cc_allocated <$> (scs : gmap string cephStorageClass) !! class.
Proof. apply lookup_fmap. Qed.

Lemma ceph_class_inv obj s vols : ceph_inv s vols →
  ceph_inv (ce_with_scs (<[cl_Name obj := ceph_class obj match ce_scs s !! cl_Name obj with Some sc => cc_allocated sc | None => q_Set 0 end]> (ce_scs s)) s) vols.
Proof.
  intros [Ha Hf]. split; [|done]. cbn [ce_scs ce_pvMap ce_with_scs]. rewrite fmap_insert. apply (accounts_class _ _ _ (cl_Name obj)) in Ha.
  rewrite cc_lookup in Ha. by destruct (ce_scs s !! cl_Name obj).
Qed.

Lemma ceph_add_tracked v c sc s vols : ceph_inv s vols → fits WatchAdded v vols → vo_Capacity v = Some c → ce_scs s !! vo_Class v = Some sc →
  ceph_inv match ce_pvMap s !! vo_Name v with
           | Some _ => s
           | None => ce_with_pvMap (<[vo_Name v := v]> (ce_pvMap s)) (ce_with_scs (<[vo_Class v := cc_with (q_Add (cc_allocated sc) c) sc]> (ce_scs s)) s)
           end (<[vo_Name v := v]> vols).
Proof.
  intros [Ha Hf] Hfit Ec Esc. pose proof Ha as (Em & _ & _). rewrite Em. destruct (Hfit c Ec) as [Hc Hv].
  destruct (vols !! vo_Name v) as [w|] eqn:Ev.
  - destruct Hv as [Hv|Hv]; [done|]. injection Hv as ->. by rewrite insert_id.
  - split; [|apply (told_fine WatchAdded) in Hfit; [|done]; unfold told in Hfit; by rewrite Ec in Hfit].
    cbn [ce_scs ce_pvMap ce_with_scs ce_with_pvMap]. rewrite fmap_insert. rewrite Em in Ha. cbn [cc_allocated cc_with].
    apply accounts_add; try done. by rewrite cc_lookup, Esc.
Qed.

Lemma ceph_add_inv v got s vols : ceph_inv s vols → fits WatchAdded v vols → (∃ obj, got = Ok obj ∧ cl_Name obj = vo_Class v) →
  ceph_inv (ceph_add_volume v got s) (told WatchAdded v vols).
Proof.
  intros Hi Hfit (obj & -> & En). unfold ceph_add_volume, told. destruct (vo_Capacity v) as [c|] eqn:Ec; [|done].
  destruct (ce_scs s !! vo_Class v) as [sc|] eqn:Esc; [by apply ceph_add_tracked|]. cbn [got_class].
  pose proof (ceph_class_inv obj s vols Hi) as Hi2. rewrite En, Esc in *. apply (ceph_add_tracked v c _ _ _ Hi2 Hfit Ec). cbn [ce_scs ce_with_scs]. by rewrite lookup_insert_eq.
Qed.

Lemma ceph_delete_inv v s vols s' acts : ceph_inv s vols → fits WatchDeleted v vols → ceph_delete_volume v s = (s', acts) →
  ceph_inv s' (told WatchDeleted v vols) ∧ acts = [].
Proof.
  intros [Ha Hf] Hfit. unfold ceph_delete_volume, told. destruct (vo_Capacity v) as [c|] eqn:Ec; [|by intros [= <- <-]].
  destruct (Hfit c Ec) as [_ Hv]. pose proof Ha as (_ & Htr & _). destruct (Htr _ _ Hv) as [q Hq]. rewrite cc_lookup in Hq.
  cbn [ce_scs ce_with_pvMap]. destruct (ce_scs s !! vo_Class v) as [sc|] eqn:Esc; [|done]. injection Hq as <-.
  destruct (accounts_delete _ _ _ v (cc_allocated sc) c Ha Hf Ec Hv) as [Hacc Hneg]; [by rewrite cc_lookup, Esc|].
  unfold subStorageAllocatedResource. rewrite Hneg. intros [= <- <-]. split; [|done]. split.
  - cbn [ce_scs ce_pvMap ce_with_scs ce_with_pvMap]. by rewrite fmap_insert.
  - intros n w x [_ Hw]%lookup_delete_Some. by eapply Hf.
Qed.

Lemma ceph_result_reported res s vols : ceph_inv s vols → Forall (reported vols) (ceph_result res s).
Proof.
  intros [(_ & _ & Hal) _]. apply Forall_forall. unfold ceph_result. intros x ([class params] & Hin & Hx)%list_elem_of_omap.
  rewrite map_order_perm in Hin. apply elem_of_map_to_list in Hin. unfold ceph_storage in Hx. repeat case_match; simplify_eq.
  exists (cc_allocated params). split; [|by left]. apply Hal. cbn [cs_Class]. by rewrite cc_lookup, Hin.
Qed.

Lemma ceph_step_inv s vols e s' acts : ceph_inv s vols → ceph_fits e vols → ceph_step s e = Some (s', acts) →
  ceph_inv s' (ceph_told e vols) ∧ Forall (act_fine "ceph" (ceph_told e vols)) acts.
Proof.
  intros Hi Hfit. destruct e as [b|t obj|t name ns cr|t v got|exec]; cbn [ceph_step ceph_told ceph_fits] in *.
  - destruct (ce_informed s); [done|]. intros [= <- <-]. by split.
  - intros [= <- <-]. split; [|done]. destruct t; cbn [ceph_on_class]; try done; apply signalScrape_inv; try by apply ceph_class_inv.
    destruct Hi as [Ha Hf]. split; [|done]. cbn [ce_scs ce_pvMap ce_with_scs]. rewrite fmap_delete. by apply accounts_class_gone.
  - destruct (ce_informed s); [|done]. intros [= <- <-]. split; [|done]. apply signalScrape_inv. by destruct t, cr.
  - destruct Hfit as [Hfit Hgot]. destruct t; cbn [ceph_on_volume]; [intros [= <- <-]..| |intros [= <- <-]].
    + split; [|done]. apply signalScrape_inv. by apply ceph_add_inv.
    + split; [|done]. apply signalScrape_inv. by apply ceph_add_inv.
    + destruct (ceph_delete_volume v s) as [s1 acts1] eqn:Ed. intros [= <- <-]. destruct (ceph_delete_inv v s vols s1 acts1 Hi Hfit Ed) as [? ->].
      split; [by apply signalScrape_inv|done].
    + split; [|done]. apply signalScrape_inv. unfold told. by destruct (vo_Capacity v).
  - destruct (ce_out s) as [clusters|]; cbn; [|done]. intros [= <- <-]. split.
    + case_match; [apply signalScrape_inv|]; exact Hi.
    + pose proof (ceph_result_reported (scraper exec clusters) s vols Hi) as Hr. destruct (decide _); [done|]. destruct (ceph_result _ s); [done|]. repeat constructor; [by inversion Hr..].
Qed.

Lemma ceph_reach_inv s vols : ceph_reach s vols → ceph_inv s vols.
Proof.
  induction 1 as [|s vols e s' acts _ IH Hfit Hstep]; [|by eapply ceph_step_inv]. split; [|intros n v q Hn; by rewrite lookup_empty in Hn].
  split_and!; [done|intros n v Hn; by rewrite lookup_empty in Hn|]. intros c q. cbn. by rewrite lookup_fmap, lookup_empty.
Qed.

(** ** Local paths *)

(** A class event starts the watch of volumes. *)
Definition watch_starts (s : rancher_state) (t : watch_type) (obj : StorageClass) (classes : nat) : bool :=
  match t with
  | WatchAdded | WatchModified => (classes =? size (<[cl_Name obj := rancher_class obj (q_Set 0)]> (ra_scs s)))%nat && negb (ra_watching s)
  | _ => false
  end.
(** Of the listing, the volumes of classes that are known. *)
Fixpoint told_listed (known : string → Prop) `{!∀ class, Decision (known class)} (pvs : list PersistentVolume) (vols : volumes) : volumes :=
  match pvs with
  | [] => vols
  | v :: pvs => told_listed known pvs (if decide (is_Some (vo_Capacity v) ∧ known (vo_Class v)) then <[vo_Name v := v]> vols else vols)
  end.
Definition known_with (s : rancher_state) (obj : StorageClass) (class : string) : Prop := class = cl_Name obj ∨ is_Some (ra_scs s !! class).

Definition rancher_told (s : rancher_state) (e : rancher_event) (vols : volumes) : volumes :=
  match e with
  | RancherVolume t v _ => told t v vols
  | RancherClass t obj classes _ pvs => if watch_starts s t obj classes then told_listed (known_with s obj) pvs vols else vols
  | _ => vols
  end.
Definition rancher_fits (e : rancher_event) (vols : volumes) : Prop :=
  match e with
  | RancherVolume t v _ => fits t v vols
  | RancherClass _ _ _ _ pvs => NoDup (vo_Name <$> pvs) ∧ Forall (λ v, ∀ q, vo_Capacity v = Some q → (0 ≤ q_nano q)%Z) pvs
  | _ => True
  end.

Inductive rancher_reach : rancher_state → volumes → Prop :=
| rancher_reach_start : rancher_reach rancher_start ∅
| rancher_reach_step s vols e s' acts :
    rancher_reach s vols → rancher_fits e vols → rancher_step s e = Some (Ret (s', acts)) → rancher_reach s' (rancher_told s e vols).

Definition rancher_inv (s : rancher_state) (vols : volumes) : Prop :=
  accounts (rn_allocated <$> ra_scs s) (ra_pvMap s) vols ∧ capacities_fine vols ∧ (ra_watching s = false → vols = ∅).

Lemma rn_lookup scs class : (rn_allocated <$> scs) !! class = rn_allocated <$> (scs : gmap string rancherStorage) !! class.
Proof. apply lookup_fmap. Qed.

Lemma rancher_class_inv key c s vols : rancher_inv s vols →
  rn_allocated c = match ra_scs s !! key with Some sc => rn_allocated sc | None => q_Set 0 end → rancher_inv (ra_with_scs (<[key := c]> (ra_scs s)) s) vols.
Proof.
  intros (Ha & Hf) Hc. split; [|done]. cbn [ra_scs ra_pvMap ra_with_scs]. rewrite fmap_insert, Hc. apply (accounts_class _ _ _ key) in Ha.
  rewrite rn_lookup in Ha. by destruct (ra_scs s !! key).
Qed.

(** A new volume of a known class. *)
Lemma rancher_new_volume v c params s vols : rancher_inv s vols → ra_watching s = true → (0 ≤ q_nano c)%Z → vo_Capacity v = Some c → vols !! vo_Name v = None →
  ra_scs s !! vo_Class v = Some params →
  rancher_inv (ra_with_pvMap (<[vo_Name v := v]> (ra_pvMap s)) (ra_with_scs (<[vo_Class v := rn_with (q_Add (rn_allocated params) c) params]> (ra_scs s)) s)) (<[vo_Name v := v]> vols).
Proof.
  intros (Ha & Hf & _) Hw Hc Ec Hn Hp. split_and!.
  - cbn [ra_scs ra_pvMap ra_with_scs ra_with_pvMap]. rewrite fmap_insert. cbn [rn_allocated rn_with]. apply accounts_add; try done. by rewrite rn_lookup, Hp.
  - intros n w q [[_ <-]|[_ Hx]]%lookup_insert_Some E; [congruence|by eapply Hf].
  - cbn [ra_watching ra_with_pvMap ra_with_scs]. congruence.
Qed.

Lemma rancher_add_inv v got s vols : rancher_inv s vols → ra_watching s = true → fits WatchAdded v vols → rancher_inv (rancher_add_volume v got s) (told WatchAdded v vols).
Proof.
  intros Hi Hw Hfit. unfold rancher_add_volume, told. destruct (vo_Capacity v) as [c|] eqn:Ec; [|done]. destruct (Hfit c Ec) as [Hc Hv].
  assert (∀ s' params, rancher_inv s' vols → ra_watching s' = true → ra_scs s' !! vo_Class v = Some params →
    rancher_inv match ra_pvMap s' !! vo_Name v with
      | Some _ => s'
      | None => ra_with_pvMap (<[vo_Name v := v]> (ra_pvMap s')) (ra_with_scs (<[vo_Class v := rn_with (q_Add (rn_allocated params) c) params]> (ra_scs s')) s')
      end (<[vo_Name v := v]> vols)) as Hgen.
  { intros s' params Hi' Hw' Hp. pose proof Hi' as ((Em & _) & _). replace (ra_pvMap s' !! vo_Name v) with (vols !! vo_Name v) by (by rewrite Em).
    destruct (vols !! vo_Name v) as [w|] eqn:Ev; [|by apply rancher_new_volume]. destruct Hv as [Hv|Hv]; [done|]. injection Hv as ->. by rewrite insert_id. }
  destruct (ra_scs s !! vo_Class v) as [params|] eqn:Ep; [by apply Hgen|]. apply Hgen; [|done|apply lookup_insert_eq].
  apply rancher_class_inv; [done|]. by rewrite Ep.
Qed.

Lemma rancher_delete_inv v s vols s' acts : rancher_inv s vols → ra_watching s = true → fits WatchDeleted v vols → rancher_delete_volume v s = (s', acts) →
  rancher_inv s' (told WatchDeleted v vols) ∧ acts = [].
Proof.
  intros (Ha & Hf & Hw0) Hw Hfit. unfold rancher_delete_volume, told. destruct (vo_Capacity v) as [c|] eqn:Ec; [|by intros [= <- <-]].
  destruct (Hfit c Ec) as [_ Hv]. pose proof Ha as (_ & Htr & _). destruct (Htr _ _ Hv) as [q Hq]. rewrite rn_lookup in Hq.
  cbn [ra_scs ra_with_pvMap]. destruct (ra_scs s !! vo_Class v) as [sc|] eqn:Esc; [|done]. injection Hq as <-.
  destruct (accounts_delete _ _ _ v (rn_allocated sc) c Ha Hf Ec Hv) as [Hacc Hneg]; [by rewrite rn_lookup, Esc|].
  unfold subStorageAllocatedResource. rewrite Hneg. intros [= <- <-]. split; [|done]. split_and!.
  - cbn [ra_scs ra_pvMap ra_with_scs ra_with_pvMap]. by rewrite fmap_insert.
  - intros n w x [_ Hx]%lookup_delete_Some. by eapply Hf.
  - cbn. congruence.
Qed.

Lemma rancher_listed_inv (known : string → Prop) `{!∀ class, Decision (known class)} pvs s vols : rancher_inv s vols → ra_watching s = true →
  NoDup (vo_Name <$> pvs) → Forall (λ v, ∀ q, vo_Capacity v = Some q → (0 ≤ q_nano q)%Z) pvs → (∀ v, v ∈ pvs → vols !! vo_Name v = None) →
  (∀ class, known class ↔ is_Some (ra_scs s !! class)) → rancher_inv (rancher_listed pvs s) (told_listed known pvs vols).
Proof.
  revert s vols. induction pvs as [|v pvs IH]; intros s vols Hi Hw Hnd Hcap Hnew Hk; cbn [rancher_listed told_listed]; [done|].
  rewrite fmap_cons in Hnd. apply NoDup_cons in Hnd as [Hv Hnd]. apply Forall_cons in Hcap as [Hc Hcap].
  destruct (vo_Capacity v) as [c|] eqn:Ec.
  2:{ rewrite decide_False by (intros [[? ?] _]; done). apply IH; try done. intros w Hw'. apply Hnew. by right. }
  destruct (ra_scs s !! vo_Class v) as [params|] eqn:Ep.
  - rewrite decide_True by (split; [done|apply Hk; by rewrite Ep]). apply IH; try done.
    + apply rancher_new_volume; auto. apply Hnew. by left.
    + intros w Hin. rewrite lookup_insert_ne; [apply Hnew; by right|]. intros E. apply Hv. rewrite E. by apply list_elem_of_fmap_2.
    + intros class. rewrite Hk. cbn [ra_scs ra_with_pvMap ra_with_scs]. rewrite lookup_insert_is_Some'. split; [by right|]. intros [<-|?]; [by rewrite Ep|done].
  - rewrite decide_False by (intros [_ Hkn%Hk]; rewrite Ep in Hkn; by destruct Hkn). apply IH; try done. intros w Hin. apply Hnew. by right.
Qed.

Lemma tryScrape_inv s vols : rancher_inv s vols → rancher_inv (tryScrape s) vols.
Proof. done. Qed.

(** A class arrives; when all are known the volumes are listed. *)
Lemma rancher_class_arrives obj c (all watch : bool) pvs s vols s' : rancher_inv s vols →
  NoDup (vo_Name <$> pvs) → Forall (λ v, ∀ q, vo_Capacity v = Some q → (0 ≤ q_nano q)%Z) pvs →
  rn_allocated c = match ra_scs s !! cl_Name obj with Some sc => rn_allocated sc | None => q_Set 0 end →
  let s1 := ra_with_scs (<[cl_Name obj := c]> (ra_scs s)) s in
  (if all && negb (ra_watching s1)
   then if watch then Ret (tryScrape (rancher_listed pvs (MkRancher (ra_scs s1) (ra_pvMap s1) (ra_allocatable s1) true (ra_scrape s1)))) else Panic
   else Ret (tryScrape s1)) = Ret s' →
  rancher_inv s' (if all && negb (ra_watching s) then told_listed (known_with s obj) pvs vols else vols).
Proof.
  intros Hi Hnd Hcap Hc s1. pose proof (rancher_class_inv (cl_Name obj) c s vols Hi Hc) as Hi'. change (ra_watching s1) with (ra_watching s).
  destruct all; cbn [andb]; [|intros [= <-]; by apply tryScrape_inv]. destruct (ra_watching s) eqn:Ew; cbn [negb]; [intros [= <-]; by apply tryScrape_inv|].
  destruct watch; [|done]. intros [= <-]. apply tryScrape_inv. pose proof (proj2 (proj2 Hi) Ew) as ->. apply rancher_listed_inv; try done.
  - by destruct Hi' as (? & ? & _).
  - intros class. cbn [ra_scs ra_with_scs s1]. rewrite lookup_insert_is_Some'. unfold known_with. naive_solver.
Qed.

Lemma rancher_on_class_inv t obj classes watch pvs s vols s' : rancher_inv s vols →
  rancher_fits (RancherClass t obj classes watch pvs) vols → rancher_on_class t obj classes watch pvs s = Ret s' →
  rancher_inv s' (rancher_told s (RancherClass t obj classes watch pvs) vols).
Proof.
  intros Hi [Hnd Hcap] E. cbn [rancher_told]. unfold rancher_on_class in E. unfold watch_starts. set (c := rancher_class obj _) in E.
  replace (size (<[cl_Name obj := rancher_class obj (q_Set 0)]> (ra_scs s))) with (size (<[cl_Name obj := c]> (ra_scs s)))
    by (rewrite <- !(size_dom (D := gset string)), !dom_insert; done).
  destruct t; [by eapply (rancher_class_arrives obj c)..| |]; injection E as <-; by apply tryScrape_inv.
Qed.

Lemma rancher_result_reported s vols : rancher_inv s vols → Forall (reported vols) (rancher_result s).
Proof.
  intros ((_ & _ & Hal) & _). apply Forall_forall. unfold rancher_result. intros x ([class params] & Hin & Hx)%list_elem_of_omap.
  rewrite map_order_perm in Hin. apply elem_of_map_to_list in Hin. destruct (rn_isRancher params && rn_isAkashManaged params); [|done]. injection Hx as <-.
  exists (rn_allocated params). split; [|right; by eexists]. cbn [cs_Class]. apply Hal. by rewrite rn_lookup, Hin.
Qed.

Lemma rancher_step_inv s vols e s' acts : rancher_inv s vols → rancher_fits e vols → rancher_step s e = Some (Ret (s', acts)) →
  rancher_inv s' (rancher_told s e vols) ∧ Forall (act_fine "rancher" (rancher_told s e vols)) acts.
Proof.
  intros Hi Hfit. destruct e as [t v got|t obj classes watch pvs|a| |]; cbn [rancher_step] in *.
  - cbn [rancher_told rancher_fits] in *. destruct (ra_watching s) eqn:Ew; [|done].
    destruct t; cbn [rancher_on_volume]; [intros [= <- <-]..| |intros [= <- <-]].
    + split; [|done]. by apply tryScrape_inv, rancher_add_inv.
    + split; [|done]. by apply tryScrape_inv, rancher_add_inv.
    + destruct (rancher_delete_volume v s) as [s1 acts1] eqn:Ed. intros [= <- <-]. by destruct (rancher_delete_inv v s vols s1 acts1 Hi Ew Hfit Ed) as [? ->].
    + split; [|done]. unfold told. by destruct (vo_Capacity v).
  - destruct (rancher_on_class t obj classes watch pvs s) as [s1|] eqn:Eo; cbn [obind]; [|done]. intros [= <- <-]. split; [|done]. by eapply rancher_on_class_inv.
  - intros [= <- <-]. split; [|done]. by destruct a.
  - intros [= <- <-]. done.
  - destruct (ra_scrape s); [|done]. intros [= <- <-]. split; [done|]. cbn [rancher_told].
    pose proof (rancher_result_reported s vols Hi) as Hr. destruct (rancher_result s); [done|]. repeat constructor; by inversion Hr.
Qed.

Lemma rancher_reach_inv s vols : rancher_reach s vols → rancher_inv s vols.
Proof.
  induction 1 as [|s vols e s' acts _ IH Hfit Hstep]; [|by eapply rancher_step_inv]. split_and!; [|intros n v q Hn; by rewrite lookup_empty in Hn|done].
  split_and!; [done|intros n v Hn; by rewrite lookup_empty in Hn|]. intros c q. cbn. by rewrite lookup_fmap, lookup_empty.
Qed.

End volumes.

(** ** The state of the cluster *)

Section state.
Context `{Quantities} `{MapOrder}.

(** What the events say: the nodes, the storage of each driver, and the
    configuration as it was when a driver last spoke. *)
Definition latest_nodes (es : list state_event) : list Node := foldl (λ acc e, match e with StNodes l => l | _ => acc end) [] es.
Definition latest_storage (es : list state_event) : gmap string (list ClusterStorage) :=
  foldl (λ acc e, match e with StStorage d l => <[d := l]> acc | _ => acc end) ∅ es.
Definition configs (es : list state_event) : Config * Config :=
  foldl (λ acc e, match e with StConfig c => (c, acc.2) | StStorage _ _ => (acc.1, acc.1) | _ => acc end) (no_config, no_config) es.
Definition config_used (es : list state_event) : Config := (configs es).2.
Definition last_pub (acts : list state_action) : option Cluster := foldl (λ acc a, match a with StPub c _ => Some c | _ => acc end) None acts.
Definition is_data (e : state_event) : bool := match e with StNodes _ | StStorage _ _ => true | _ => false end.

Lemma last_pub_app acts acts1 : last_pub (acts ++ acts1) = match last_pub acts1 with Some c => Some c | None => last_pub acts end.
Proof.
  unfold last_pub. rewrite foldl_app. generalize (foldl (λ acc a, match a with StPub c _ => Some c | StReply _ => acc end) None acts) as o.
  induction acts1 as [|a l IH] using rev_ind; intros o; [done|]. rewrite !foldl_app. cbn. by destruct a.
Qed.

Definition state_inv (es : list state_event) (acts : list state_action) (s : cluster_state) : Prop :=
  cl_Nodes (st_state s) = latest_nodes es ∧ st_storage s = latest_storage es ∧ st_cfg s = (configs es).1
  ∧ (∀ x, x ∈ cl_Storage (st_state s) ↔ ∃ d l, latest_storage es !! d = Some l ∧ x ∈ l ∧ HasStorageClass (config_used es) (cs_Class x) = true)
  ∧ (st_signal s = false → (last_pub acts = Some (st_state s) ∨ existsb is_data es = false))
  ∧ (∀ c negative, StPub c negative ∈ acts → negative = negativeInventoryResources c).

Lemma elem_classes cfg (m : gmap string (list ClusterStorage)) x :
  x ∈ List.filter (λ class, HasStorageClass cfg (cs_Class class)) (concat (map_order _ (map_to_list m).*2))
  ↔ ∃ d l, m !! d = Some l ∧ x ∈ l ∧ HasStorageClass cfg (cs_Class x) = true.
Proof.
  rewrite list_elem_of_In, filter_In, in_concat. split.
  - intros ((l & Hl & Hx) & Hc). apply list_elem_of_In in Hl. rewrite map_order_perm in Hl. apply list_elem_of_fmap in Hl as ([d l'] & -> & Hd%elem_of_map_to_list).
    exists d, l'. split_and!; [done|by apply list_elem_of_In|done].
  - intros (d & l & Hd & Hx & Hc). split; [|done]. exists l. split; [|by apply list_elem_of_In]. apply list_elem_of_In. rewrite map_order_perm.
    apply list_elem_of_fmap. exists (d, l). split; [done|by apply elem_of_map_to_list].
Qed.

Lemma state_run_inv es acts s : runs state_step state_start es acts s → state_inv es acts s.
Proof.
  apply runs_invariant.
  { split_and!; try done; [|by right|intros c n; by rewrite elem_of_nil]. intros x. cbn. rewrite elem_of_nil. split; [done|]. intros (d & l & Hd & _). by rewrite lookup_empty in Hd. }
  clear es acts s. intros es acts s e s' acts1 (En & Est & Ec & Hx & Hsig & Hneg) Hstep.
  unfold state_inv, latest_nodes, latest_storage, config_used, configs in *. rewrite !foldl_app, existsb_app. cbn [foldl existsb].
  destruct e as [cfg|l|d l| |]; cbn [state_step] in Hstep; [injection Hstep as <- <-..|]; rewrite ?app_nil_r, ?orb_false_r; cbn [is_data].
  - split_and!; done.
  - split_and!; try done.
  - cbn [st_storage st_state st_cfg st_signal cl_Nodes cl_Storage fst snd]. rewrite Est, Ec. split_and!; try done. intros x. apply elem_classes.
  - split_and!; try done; [by rewrite last_pub_app|]. intros c n [Hin|Hin%list_elem_of_singleton]%elem_of_app; [by eapply Hneg|done].
  - destruct (st_signal s); [|done]. injection Hstep as <- <-. rewrite ?orb_false_r. split_and!; try done; [left; by rewrite last_pub_app|].
    intros c n [Hin|Hin%list_elem_of_singleton]%elem_of_app; [by eapply Hneg|]. by injection Hin as -> ->.
Qed.

End state.

(** ** Negative quantities *)

Section negative.
Context `{QuantityLaws}.

Definition quantity_fine (o : option Quantity) : Prop := ∀ q, o = Some q → (0 ≤ q_nano q)%Z.
Definition pair_fine (p : ResourcePair) : Prop := quantity_fine (rp_Capacity p) ∧ quantity_fine (rp_Allocatable p) ∧ quantity_fine (rp_Allocated p).
Definition node_fine (n : Node) : Prop :=
  let r := nd_Resources n in
  pair_fine (icpu_Quantity (nr_CPU r)) ∧ pair_fine (nr_Memory r) ∧ pair_fine (igpu_Quantity (nr_GPU r)) ∧ pair_fine (nr_EphemeralStorage r)
  ∧ pair_fine (nr_VolumesAttached r) ∧ pair_fine (nr_VolumesMounted r).

Lemma append_quantity_nil r scope node class name field o : appendNegativeQuantity r scope node class name field o = [] ↔ r = [] ∧ quantity_fine o.
Proof.
  unfold appendNegativeQuantity, quantity_fine. destruct o as [q|]; [|naive_solver]. rewrite negative_law.
  destruct (Z.ltb_spec (q_nano q) 0) as [Hq|Hq]; [|naive_solver lia]. split; [by destruct r|]. intros [_ Hf]. specialize (Hf q eq_refl). lia.
Qed.

Lemma append_pair_nil r scope node class name p : appendNegativeResourcePair r scope node class name p = [] ↔ r = [] ∧ pair_fine p.
Proof. unfold appendNegativeResourcePair, pair_fine. rewrite !append_quantity_nil. tauto. Qed.

Lemma foldl_nil {A B} (f : list B → A → list B) (P : A → Prop) l r : (∀ r x, f r x = [] ↔ r = [] ∧ P x) → foldl f r l = [] ↔ r = [] ∧ Forall P l.
Proof.
  intros Hf. revert r. induction l as [|x l IH]; intros r; cbn [foldl]; [rewrite Forall_nil; tauto|]. rewrite IH, Hf, Forall_cons. tauto.
Qed.

(** What is reported as negative is empty exactly when nothing is. *)
Lemma negative_iff c : negativeInventoryResources c = [] ↔ Forall node_fine (cl_Nodes c) ∧ Forall (λ x, pair_fine (cs_Quantity x)) (cl_Storage c).
Proof.
  unfold negativeInventoryResources. rewrite (foldl_nil _ (λ x, pair_fine (cs_Quantity x))) by (intros r x; apply append_pair_nil).
  rewrite (foldl_nil _ node_fine); [tauto|]. intros r x. unfold negative_of_node, node_fine. rewrite !append_pair_nil. tauto.
Qed.

End negative.

(** ** From volumes to the cluster *)

Section published.
Context `{QuantityLaws} `{!NewPairs} `{MapOrder}.

(** A driver publishes this of the volumes it has been told of. *)
Definition published (driver : string) (l : list ClusterStorage) (vols : gmap string PersistentVolume) : Prop :=
  (∃ s0 vols0 e s acts, ceph_reach s0 vols0 ∧ ceph_fits e vols0 ∧ ceph_step s0 e = Some (s, acts) ∧ PubStorage driver l ∈ acts ∧ vols = ceph_told e vols0)
  ∨ (∃ s0 vols0 e s acts, rancher_reach s0 vols0 ∧ rancher_fits e vols0 ∧ rancher_step s0 e = Some (Ret (s, acts)) ∧ PubStorage driver l ∈ acts ∧ vols = rancher_told s0 e vols0).

Lemma published_reported driver l vols : published driver l vols → Forall (reported vols) l ∧ capacities_fine vols.
Proof.
  intros [(s0 & vols0 & e & s & acts & Hr & Hf & Hs & Ha & ->)|(s0 & vols0 & e & s & acts & Hr & Hf & Hs & Ha & ->)].
  - destruct (ceph_step_inv s0 vols0 e s acts (ceph_reach_inv _ _ Hr) Hf Hs) as [[_ Hc] Hacts]. rewrite Forall_forall in Hacts. by destruct (Hacts _ Ha).
  - destruct (rancher_step_inv s0 vols0 e s acts (rancher_reach_inv _ _ Hr) Hf Hs) as [(_ & Hc & _) Hacts]. rewrite Forall_forall in Hacts. by destruct (Hacts _ Ha).
Qed.

Lemma latest_said (es : list state_event) d l : latest_storage es !! d = Some l → StStorage d l ∈ es.
Proof.
  induction es as [|e es IH] using rev_ind; [unfold latest_storage; cbn [foldl]; by rewrite lookup_empty|]. unfold latest_storage in *. rewrite foldl_app, elem_of_app, list_elem_of_singleton. cbn [foldl].
  destruct e as [c|n|d' l'| |]; try (intros Hl; left; by apply IH). intros [[-> ->]|[_ Hl]]%lookup_insert_Some; [by right|left; by apply IH].
Qed.

End published.

(** Claim C13.  The volumes that a driver has been told of are accounted for, class
    by class, and never with less than nothing; the drivers publish that, and the
    cluster that is published has the nodes it last heard of and, of every
    driver, what that last said of the configured classes: each class with what
    its volumes take.  This is for drivers in whose runs no volume changes its
    size or class, capacities are not negative, a volume is deleted as it was, a class is deleted after its
    volumes, and the class of a volume is found when it is looked up; without
    these the accounts go wrong (below).  When nothing is waiting to be
    published, that is what was published last; and what is reported as negative
    there is exactly what is. *)
Theorem cluster_storage_exact `{QuantityLaws} `{!NewPairs} `{MapOrder} es acts s
  (Hrun : runs state_step state_start es acts s) (Hdrivers : ∀ d l, StStorage d l ∈ es → ∃ vols, published d l vols) :
  (∀ cs vols class sc, ceph_reach cs vols → ce_scs cs !! class = Some sc → q_nano (cc_allocated sc) = class_load class vols ∧ (0 ≤ class_load class vols)%Z)
  ∧ (∀ rs vols class sc, rancher_reach rs vols → ra_scs rs !! class = Some sc → q_nano (rn_allocated sc) = class_load class vols ∧ (0 ≤ class_load class vols)%Z)
  ∧ cl_Nodes (st_state s) = latest_nodes es
  ∧ (∀ x, x ∈ cl_Storage (st_state s) ↔ ∃ d l, latest_storage es !! d = Some l ∧ x ∈ l ∧ HasStorageClass (config_used es) (cs_Class x) = true)
  ∧ (∀ x, x ∈ cl_Storage (st_state s) → ∃ d l vols, StStorage d l ∈ es ∧ published d l vols ∧ reported vols x ∧ (0 ≤ class_load (cs_Class x) vols)%Z)
  ∧ (st_signal s = false → last_pub acts = Some (st_state s) ∨ existsb is_data es = false)
  ∧ ∀ c negative, StPub c negative ∈ acts → (negative = [] ↔ Forall node_fine (cl_Nodes c) ∧ Forall (λ x, pair_fine (cs_Quantity x)) (cl_Storage c)).
Proof.
  destruct (state_run_inv es acts s Hrun) as (En & _ & _ & Hx & Hsig & Hneg). split_and!; [| |done|done| |done|].
  - intros cs vols class sc [(_ & _ & Hal) Hf]%ceph_reach_inv Hc. split; [|by apply class_load_nonneg]. apply Hal. by rewrite cc_lookup, Hc.
  - intros rs vols class sc [(_ & _ & Hal) [Hf _]]%rancher_reach_inv Hc. split; [|by apply class_load_nonneg]. apply Hal. by rewrite rn_lookup, Hc.
  - intros x (d & l & Hl & Hin & _)%Hx. apply latest_said in Hl. destruct (Hdrivers d l Hl) as [vols Hp]. exists d, l, vols.
    destruct (published_reported d l vols Hp) as [Hr Hf]. rewrite Forall_forall in Hr. split_and!; [done|done|by apply Hr|by apply class_load_nonneg].
  - intros c negative Hin. rewrite (Hneg c negative Hin). apply negative_iff.
Qed.

(** ** Nodes *)

Section nodes.
Context `{NodeSort} `{MapOrder}.

Definition latest_states (es : list nodes_event) : gmap string Node :=
  foldl (λ acc e, match e with NodeState nodeStateUpdated name node => <[name := node]> acc | NodeState nodeStateRemoved name _ => delete name acc | NodesQuery => acc end) ∅ es.
Definition nodes_of (a : nodes_action) : list Node := match a with PubNodes l | ReplyNodes l => l end.

Lemma snapshot_perm nodes : snapshot nodes ≡ₚ (map_to_list nodes).*2.
Proof. unfold snapshot. by rewrite sort_nodes_perm, map_order_perm. Qed.

(** Every change of a node is published, and every question answered, with the
    nodes as they were last heard of. *)
Theorem nodes_published es e acts nodes nodes' acts1 :
  runs nodes_step ∅ es acts nodes → nodes_step nodes e = Some (nodes', acts1) →
  nodes' = latest_states (es ++ [e]) ∧ ∃ a, acts1 = [a] ∧ nodes_of a ≡ₚ (map_to_list (latest_states (es ++ [e]))).*2.
Proof.
  intros Hrun. assert (nodes = latest_states es) as ->.
  { revert Hrun. apply (runs_invariant _ (λ es _ nodes, nodes = latest_states es)); [done|]. clear. intros es acts s e s' acts1 -> Hstep.
    unfold latest_states. rewrite foldl_app. cbn [foldl]. destruct e as [[|] name node|]; cbn [nodes_step] in Hstep; by injection Hstep as <- _. }
  unfold latest_states. rewrite foldl_app. cbn [foldl]. destruct e as [[|] name node|]; cbn [nodes_step]; intros [= <- <-];
    (split; [done|]; eexists; split; [done|]; cbn [nodes_of]; apply snapshot_perm).
Qed.

End nodes.

(** ** Discoveries *)

(** A node that was added, and not deleted since, has a discovery. *)
Definition present (es : list connector_event) : gset string :=
  foldl (λ acc e, match e with NodeAdded n => {[n]} ∪ acc | NodeDeleted n => acc ∖ {[n]} | _ => acc end) ∅ es.

Lemma shutdown_nodes id s s' : shutdown id s = Some s' → co_nodes s' = co_nodes s.
Proof. unfold shutdown. repeat case_match; intros; by simplify_eq. Qed.

Theorem nodes_discovered es acts s : runs connector_step connector_start es acts s → ∀ n, n ∈ present es → is_Some (co_nodes s !! n).
Proof.
  apply (runs_invariant _ (λ es _ s, ∀ n, n ∈ present es → is_Some (co_nodes s !! n))); [intros n; cbn; set_solver|]. clear.
  intros es acts s e s' acts1 IH Hstep n. unfold present. rewrite foldl_app. cbn [foldl]. fold (present es). destruct e as [m|m|id|]; cbn [connector_step] in Hstep.
  - injection Hstep as <- _. rewrite elem_of_union, elem_of_singleton. cbn. rewrite lookup_insert_is_Some'. intros [->|Hn]; [by left|right; by apply IH].
  - rewrite elem_of_difference, elem_of_singleton. intros [Hn Hne]. destruct (co_nodes s !! m) as [id|]; [|injection Hstep as <- _; by apply IH].
    destruct (shutdown id s) as [s1|] eqn:Es; [|done]. injection Hstep as <- _. cbn. rewrite lookup_delete_ne by done. rewrite (shutdown_nodes _ _ _ Es). by apply IH.
  - intros Hn. destruct (decide _); [|done]. destruct (shutdown id s) as [s1|] eqn:Es; [|done]. injection Hstep as <- _. rewrite (shutdown_nodes _ _ _ Es). by apply IH.
  - intros Hn. destruct (co_done s) as [m|]; [|done]. cbn in Hstep. destruct (co_nodes s !! m) as [id|] eqn:Em.
    + destruct (shutdown id _) as [s1|] eqn:Es; [|done]. injection Hstep as <- _. cbn. rewrite (shutdown_nodes _ _ _ Es). cbn.
      rewrite lookup_insert_is_Some'. destruct (decide (m = n)) as [->|Hne]; [by left|right]. rewrite lookup_delete_ne by done. by apply IH.
    + injection Hstep as <- _. cbn. rewrite lookup_insert_is_Some'. right. by apply IH.
Qed.

(** * A cluster with storage

    Volumes of a class of Ceph, what the drivers miss, and a node that is
    discovered for ever. *)

Module StorageSample.
Import MilliQuantities.

#[local] Existing Instance listed_order.
#[local] Existing Instance NodeDiscoverySound.milli_arith.
#[local] Existing Instance NodeDiscoverySound.milli_arith_laws.
#[local] Existing Instance InventorySample.new_pairs.

Definition beta : StorageClass := MkClass "beta3" {[AkashManagedLabelName := "true"]} "rook-ceph.rbd.csi.ceph.com" (<["clusterID" := "rook"]> {["pool" := "replicapool"]}).
Definition disk (gib : Z) : PersistentVolume := MkVolume _ "pvc-1" "beta3" (Some (gib * 1000)%Z).
Definition answer : string → dfResp := λ _, MkDf [("replicapool", 500%Z)].
Definition ceph_opening : list ceph_event :=
  [CephTick true; CephClass WatchAdded beta; CephCluster WatchAdded "rook" "rook-ceph" true; CephVolume WatchAdded (disk 10) (Ok beta); CephScraped answer].

Fixpoint all_fit (es : list ceph_event) (vols : gmap string PersistentVolume) : Prop :=
  match es with [] => True | e :: es => ceph_fits e vols ∧ all_fit es (ceph_told e vols) end.

Lemma exec_reach es s vols acts s' : ceph_reach s vols → all_fit es vols → exec ceph_step s es = Some (acts, s') → ceph_reach s' (foldl (λ m e, ceph_told e m) vols es).
Proof.
  revert s vols acts. induction es as [|e es IH]; intros s vols acts Hr Hf; cbn [exec foldl]; [by intros [= _ <-]|]. destruct Hf as [He Hf].
  destruct (ceph_step s e) as [[s1 a1]|] eqn:Es; cbn; [|done]. destruct (exec ceph_step s1 es) as [[a2 s2]|] eqn:Ee; cbn; [|done]. intros [= _ <-].
  eapply IH; [|exact Hf|exact Ee]. by eapply ceph_reach_step.
Qed.

(** The outcome of a run that goes through. *)
Definition acts_of {S E A} (step : S → E → option (S * list A)) (s : S) (es : list E) : list A := match exec step s es with Some (acts, _) => acts | None => [] end.
Definition end_of {S E A} (step : S → E → option (S * list A)) (s : S) (es : list E) : S := match exec step s es with Some (_, s') => s' | None => s end.
Definition goes {S E A} (step : S → E → option (S * list A)) (s : S) (es : list E) : bool := match exec step s es with Some _ => true | None => false end.
Lemma goes_exec {S E A} (step : S → E → option (S * list A)) s es : goes step s es = true → exec step s es = Some (acts_of step s es, end_of step s es).
Proof. unfold goes, acts_of, end_of. by destruct (exec step s es) as [[]|]. Qed.

Definition opened : ceph_state := end_of ceph_step ceph_start ceph_opening.
Lemma opened_run : exec ceph_step ceph_start ceph_opening = Some (acts_of ceph_step ceph_start ceph_opening, opened).
Proof. unfold opened. apply goes_exec. vm_compute. reflexivity. Qed.
Lemma opening_fits : all_fit ceph_opening ∅.
Proof.
  split; [exact I|split; [exact I|split; [exact I|split; [|split; exact I]]]]. split; [|by exists beta].
  intros q Hq. split; [|left; apply lookup_empty]. assert (q = 10000%Z) as -> by (by injection Hq). vm_compute. discriminate.
Qed.
Lemma opened_reach : ceph_reach opened {["pvc-1" := disk 10]}.
Proof. exact (exec_reach _ _ _ _ _ ceph_reach_start opening_fits opened_run). Qed.

Definition beta_storage : list ClusterStorage := [MkClusterStorage "beta3" (MkPair _ (Some 500000%Z) (Some 500000%Z) (Some 10000%Z))].
Lemma beta_published : ∃ vols, published "ceph" beta_storage vols.
Proof.
  exists {["pvc-1" := disk 10]}. left. exists opened, {["pvc-1" := disk 10]}, (CephScraped answer).
  assert (goes ceph_step opened [CephScraped answer] = true) as Hg%goes_exec by (vm_compute; reflexivity). cbn [exec] in Hg.
  destruct (ceph_step opened (CephScraped answer)) as [[s acts]|]; [|done]. exists s, acts.
  split; [exact opened_reach|split; [exact I|split; [reflexivity|split; [|reflexivity]]]]. cbn in Hg. rewrite app_nil_r in Hg.
  apply (f_equal (λ o, match o with Some (a, _) => a | None => [] end)) in Hg. cbv beta match in Hg. rewrite Hg.
  assert (acts_of ceph_step opened [CephScraped answer] = [PubStorage "ceph" beta_storage]) as -> by (vm_compute; reflexivity). by left.
Qed.

Definition cfg : Config := MkConfig ["beta3"] [] [] [].
Definition said : list state_event := [StConfig cfg; StStorage "ceph" beta_storage; StSignal].
Definition told_cluster : cluster_state := end_of state_step state_start said.
Lemma said_run : exec state_step state_start said = Some (acts_of state_step state_start said, told_cluster).
Proof. unfold told_cluster. apply goes_exec. vm_compute. reflexivity. Qed.

Lemma said_drivers d l : StStorage d l ∈ said → ∃ vols, published d l vols.
Proof.
  intros Hin. assert ((d, l) = ("ceph", beta_storage)) as E; [|injection E as -> ->; exact beta_published].
  unfold said in Hin. rewrite !elem_of_cons in Hin. destruct Hin as [E|[E|[E|E]]]; [done| |done|by apply elem_of_nil in E]. by injection E as -> ->.
Qed.

Lemma cluster_storage_exact_witness :
  (∀ class sc, ce_scs opened !! class = Some sc → q_nano (cc_allocated sc) = class_load class {["pvc-1" := disk 10]} ∧ (0 ≤ class_load class {["pvc-1" := disk 10]})%Z)
  ∧ ∀ x, x ∈ cl_Storage (st_state told_cluster) → ∃ d l vols, StStorage d l ∈ said ∧ published d l vols ∧ reported vols x ∧ (0 ≤ class_load (cs_Class x) vols)%Z.
Proof.
  destruct (cluster_storage_exact said _ told_cluster (exec_runs _ _ _ _ _ said_run) said_drivers) as (Hceph & _ & _ & _ & Hst & _).
  split; [intros class sc; exact (Hceph opened _ class sc opened_reach)|exact Hst].
Defined.

(** What is allocated of the class, and the actions, after these events. *)
Definition outcome_of (es : list ceph_event) : option Z * list storage_action :=
  (match ce_scs (end_of ceph_step ceph_start es) !! "beta3" with Some c => Some (cc_allocated c) | None => None end, acts_of ceph_step ceph_start es).

(** A class that is made anew has forgotten its volumes; when one goes, less than
    nothing is allocated. *)
Theorem recreated_class_negative :
  outcome_of [CephClass WatchAdded beta; CephVolume WatchAdded (disk 10) (Ok beta); CephClass WatchDeleted beta; CephClass WatchAdded beta] = (Some 0%Z, [])
  ∧ outcome_of [CephClass WatchAdded beta; CephVolume WatchAdded (disk 10) (Ok beta); CephClass WatchDeleted beta; CephClass WatchAdded beta; CephVolume WatchDeleted (disk 10) (Ok beta)]
    = (Some (-10000)%Z, [LogNegative "ceph" "beta3" "pvc-1"]).
Proof. split; vm_compute; reflexivity. Qed.

(** A volume that has grown counts with its first size, and is taken out with its
    last. *)
Theorem resized_volume_negative :
  outcome_of [CephClass WatchAdded beta; CephVolume WatchAdded (disk 10) (Ok beta); CephVolume WatchModified (disk 30) (Ok beta)] = (Some 10000%Z, [])
  ∧ outcome_of [CephClass WatchAdded beta; CephVolume WatchAdded (disk 10) (Ok beta); CephVolume WatchModified (disk 30) (Ok beta); CephVolume WatchDeleted (disk 30) (Ok beta)]
    = (Some (-20000)%Z, [LogNegative "ceph" "beta3" "pvc-1"]).
Proof. split; vm_compute; reflexivity. Qed.

(** When the class of a volume cannot be asked for, the volume counts for no
    class, also not when the class is heard of. *)
Theorem failed_lookup_uncounted :
  outcome_of [CephVolume WatchAdded (disk 10) (Err (OtherError "timeout")); CephClass WatchAdded beta; CephVolume WatchModified (disk 10) (Ok beta)] = (Some 0%Z, []).
Proof. vm_compute. reflexivity. Qed.

(** A watch of volumes that cannot be started ends the process. *)
Theorem failed_watch_panics : rancher_step rancher_start (RancherClass WatchAdded beta 1 false []) = Some Panic.
Proof. vm_compute. reflexivity. Qed.

(** The size of local storage is that of the node that was heard of last. *)
Theorem last_node_sizes (s : rancher_state) a b : ra_allocatable (rancher_on_node (Some a) (rancher_on_node (Some b) s)) = q_Value a.
Proof. done. Qed.

(** A configuration takes effect on the storage when a driver speaks again. *)
Theorem configuration_waits :
  cl_Storage (st_state (end_of state_step state_start [StStorage "ceph" beta_storage; StConfig cfg; StNodes []])) = []
  ∧ cl_Storage (st_state (end_of state_step state_start [StConfig cfg; StStorage "ceph" beta_storage; StNodes []])) = beta_storage.
Proof. split; vm_compute; reflexivity. Qed.

(** A node that is deleted is discovered again. *)
Theorem deleted_node_discovered :
  co_nodes (end_of connector_step connector_start [NodeAdded "a"; NodeDeleted "a"; DoneReceived]) = {["a" := 1%nat]}.
Proof. vm_compute. reflexivity. Qed.

(** When a node comes back before that, its discovery is started again and again:
    each one is ended by the end of the one before. *)
Definition restarting (name : string) (s : connector) : Prop :=
  co_done s = Some name ∧ ∃ id, co_nodes s !! name = Some id ∧ co_running s !! id = Some name ∧ (id < co_next s)%nat.
Theorem restarted_for_ever :
  restarting "a" (end_of connector_step connector_start [NodeAdded "a"; NodeDeleted "a"; NodeAdded "a"])
  ∧ ∀ name s, restarting name s → ∃ s', connector_step s DoneReceived = Some (s', []) ∧ restarting name s'.
Proof.
  split.
  - split; [vm_compute; reflexivity|]. exists 1%nat. split; [vm_compute; reflexivity|]. split; [vm_compute; reflexivity|]. vm_compute. lia.
  - intros name s (Ed & id & En & Er & Hid). unfold connector_step. rewrite Ed. cbn. rewrite En. cbn. unfold shutdown. cbn. rewrite Er. cbn.
    eexists. split; [done|]. split; [done|]. exists (co_next s). cbn. rewrite !lookup_insert_eq. split_and!; [done|done|lia].
Qed.

(** Two nodes that end at once block the loop for ever. *)
Theorem two_ends_block :
  connector_step (end_of connector_step connector_start [NodeAdded "a"; NodeAdded "b"; DiscoveryEnds 0]) (NodeDeleted "b") = None.
Proof. vm_compute. reflexivity. Qed.

End StorageSample.
