(* ===== verification/ProviderAttributes.v ===== *)
(** * The provider's attributes and their signatures

    [bidengine/provider_attributes.go]: one loop that answers two kinds of
    questions of the bid engine, which attributes an auditor has signed (with a
    cache), and which attributes the provider has now (through a channel that
    holds one value).  Fetches run beside the loop; a fetch under way and the
    state of every channel are part of the state. *)
From Stdlib Require Import Ascii String.
From S2P Require Import Prelude Traces.

Open Scope string_scope.

(** ** Signatures of auditors *)

(** [atypes.AuditedProviders]: for each entry its attributes. *)
Notation Attributes := (list (string * string)).
Notation AuditedProviders := (list Attributes).

Definition providerAttrSize (entries : AuditedProviders) : Z := foldr (λ x n, (Z.of_nat (List.length x) + n)%Z) 0%Z entries.

Record providerAttrEntry := MkAttrEntry { ae_providerAttr : AuditedProviders; ae_at : Z }.

(** [sg_fetches]: the auditors of the fetches that run, one for each. *)
Record signatures := MkSignatures {
  sg_data : gmap string providerAttrEntry;
  sg_inProgress : gset string;
  sg_pending : gmap string (list nat);
  sg_fetches : list string
}.

Inductive sgaction := SgReply (id : nat) (r : result string AuditedProviders) | SgFetch (auditor : string).

Inductive sgevent :=
| SgRequest (id : nat) (auditor : string) (now : Z)
| SgFetched (auditor : string) (r : result string AuditedProviders) (now : Z)
| SgAuditorChanged (owner auditor : string).

Definition maxEntries : Z := 50000.

Section signatures.
Context `{MapOrder}.
Variables (ttl : Z) (providerAddr : string).

Definition noSignatures : signatures := MkSignatures ∅ ∅ ∅ [].

Definition pending_of (auditor : string) (s : signatures) : list nat := default [] (sg_pending s !! auditor).

Definition addRequest (id : nat) (auditor : string) (now : Z) (s : signatures) : signatures * list sgaction * bool :=
  let wait := (MkSignatures (sg_data s) (sg_inProgress s) (<[auditor := (pending_of auditor s ++ [id])%list]> (sg_pending s)) (sg_fetches s), [], true) in
  match sg_data s !! auditor with
  | Some entry => if (now - ae_at entry <? ttl)%Z then (s, [SgReply id (Ok (ae_providerAttr entry))], false) else wait
  | None => wait
  end.

Definition maybeStart (auditor : string) (s : signatures) : signatures * list sgaction :=
  if bool_decide (pending_of auditor s = []) then (s, [])
  else if bool_decide (auditor ∈ sg_inProgress s) then (s, [])
  else (MkSignatures (sg_data s) (sg_inProgress s) (sg_pending s) (sg_fetches s ++ [auditor])%list, [SgFetch auditor]).

(** [trimCache]: expired entries, and half of the rest when it is too large. *)
Fixpoint trim_half (l : list (string * providerAttrEntry)) (size : Z) : list string :=
  match l with
  | [] => []
  | (auditor, entry) :: l =>
      let size := (size + providerAttrSize (ae_providerAttr entry))%Z in
      auditor :: (if (maxEntries / 2 <=? size)%Z then [] else trim_half l size)
  end.

Definition cache_size (m : gmap string providerAttrEntry) : Z :=
  foldr (λ e n, (providerAttrSize (ae_providerAttr e.2) + n)%Z) 0%Z (map_to_list m).

Definition trimCache (now : Z) (data : gmap string providerAttrEntry) : gmap string providerAttrEntry :=
  let data := filter (λ e, ¬ (ttl < now - ae_at e.2)%Z) data in
  if (maxEntries <? cache_size data)%Z then foldl (λ m k, delete k m) data (trim_half (map_order _ (map_to_list data)) 0) else data.

Definition failAllPending (auditor : string) (err : string) (s : signatures) : list sgaction :=
  (λ id, SgReply id (Err err)) <$> pending_of auditor s.
Definition completeAllPending (auditor : string) (v : AuditedProviders) (now : Z) (s : signatures) : signatures * list sgaction :=
  (MkSignatures (trimCache now (<[auditor := MkAttrEntry v now]> (sg_data s))) (sg_inProgress s) (delete auditor (sg_pending s)) (sg_fetches s),
   (λ id, SgReply id (Ok v)) <$> pending_of auditor s).

Definition purgeAuditor (auditor : string) (s : signatures) : signatures :=
  MkSignatures (delete auditor (sg_data s)) (sg_inProgress s) (sg_pending s) (sg_fetches s).

Fixpoint take_fetch (auditor : string) (l : list string) : option (list string) :=
  match l with
  | [] => None
  | x :: l => if bool_decide (x = auditor) then Some l else l' ← take_fetch auditor l; Some (x :: l')
  end.

Definition sgstep (s : signatures) (e : sgevent) : option (signatures * list sgaction) :=
  match e with
  | SgRequest id auditor now =>
      let '(s, acts, start) := addRequest id auditor now s in
      Some (if start then let '(s, acts') := maybeStart auditor s in (s, (acts ++ acts')%list) else (s, acts))
  | SgFetched auditor r now =>
      fetches ← take_fetch auditor (sg_fetches s);
      let s := MkSignatures (sg_data s) (sg_inProgress s) (sg_pending s) fetches in
      let '(s, acts) :=
        match r with
        | Err err => (s, failAllPending auditor err s)
        | Ok v => completeAllPending auditor v now s
        end in
      Some (MkSignatures (sg_data s) (sg_inProgress s) (delete auditor (sg_pending s)) (sg_fetches s), acts)
  | SgAuditorChanged owner auditor => Some (if owner =? providerAddr then purgeAuditor auditor s else s, [])
  end.

Definition sgruns : list sgevent → list sgaction → signatures → Prop := runs sgstep noSignatures.

(** *** Every request is answered once *)

Definition reply_ids (acts : list sgaction) : list nat := omap (λ a, match a with SgReply id _ => Some id | _ => None end) acts.
Definition request_ids (es : list sgevent) : list nat := omap (λ e, match e with SgRequest id _ _ => Some id | _ => None end) es.
Definition waiting_ids (s : signatures) : list nat := concat (map_to_list (sg_pending s)).*2.

Lemma waiting_insert auditor (l : list nat) (m : gmap string (list nat)) :
  m !! auditor = None → concat (map_to_list (<[auditor := l]> m)).*2 ≡ₚ (l ++ concat (map_to_list m).*2)%list.
Proof. intros Hm. by rewrite map_to_list_insert. Qed.

Lemma waiting_split auditor s :
  waiting_ids s ≡ₚ (pending_of auditor s ++ concat (map_to_list (delete auditor (sg_pending s))).*2)%list.
Proof.
  unfold waiting_ids, pending_of. destruct (sg_pending s !! auditor) as [l|] eqn:E; cbn.
  - rewrite <- waiting_insert by apply lookup_delete_eq. by rewrite insert_delete_id.
  - by rewrite delete_id.
Qed.

Lemma take_fetch_elem a l l' x : take_fetch a l = Some l' → x ∈ l → x = a ∨ x ∈ l'.
Proof.
  revert l'. induction l as [|y l IH]; intros l'; cbn; [done|]. case_bool_decide as Hy.
  - intros [= <-] [->|?]%elem_of_cons; auto.
  - destruct (take_fetch a l) as [l1|]; cbn; [|done]. intros [= <-] [->|Hx]%elem_of_cons; [right; set_solver|].
    destruct (IH _ eq_refl Hx); [by left|right; set_solver].
Qed.

(** What holds at any time: no auditor is marked as in progress, and whoever
    waits has a fetch under way. *)
Definition sg_inv (s : signatures) : Prop :=
  sg_inProgress s = ∅ ∧ map_Forall (λ auditor ids, ids ≠ [] → auditor ∈ sg_fetches s) (sg_pending s).

Lemma reply_ids_fmap (f : nat → result string AuditedProviders) ids : reply_ids ((λ id, SgReply id (f id)) <$> ids) = ids.
Proof. unfold reply_ids. induction ids as [|id ids IH]; [done|]. cbn in *. by rewrite IH. Qed.

Lemma reply_ids_app a b : reply_ids (a ++ b)%list = (reply_ids a ++ reply_ids b)%list.
Proof. apply omap_app. Qed.
Lemma request_ids_app a b : request_ids (a ++ b)%list = (request_ids a ++ request_ids b)%list.
Proof. apply omap_app. Qed.

Lemma waiting_more auditor id s :
  concat (map_to_list (<[auditor := (pending_of auditor s ++ [id])%list]> (sg_pending s))).*2 ≡ₚ id :: waiting_ids s.
Proof.
  rewrite <- insert_delete_eq, waiting_insert by apply lookup_delete_eq. rewrite (waiting_split auditor s).
  rewrite <- app_assoc. cbn. by rewrite <- Permutation_middle.
Qed.

Lemma sgstep_inv s e s' acts :
  sg_inv s → sgstep s e = Some (s', acts) →
  sg_inv s' ∧ (request_ids [e] ++ waiting_ids s)%list ≡ₚ (reply_ids acts ++ waiting_ids s')%list.
Proof.
  intros [Hp Hw]. destruct e as [id auditor now|auditor r now|owner auditor]; cbn [sgstep].
  - unfold addRequest. set (wait := MkSignatures _ _ _ _).
    assert (∀ s2 acts2, maybeStart auditor wait = (s2, acts2) → sg_inv s2 ∧ (id :: waiting_ids s ≡ₚ (reply_ids acts2 ++ waiting_ids s2)%list)) as Hwait.
    { intros s2 acts2. unfold maybeStart.
      assert (pending_of auditor wait = (pending_of auditor s ++ [id])%list) as Hpw by (unfold pending_of at 1; cbn; by rewrite lookup_insert_eq).
      rewrite bool_decide_eq_false_2 by (rewrite Hpw; by destruct (pending_of auditor s)).
      rewrite bool_decide_eq_false_2 by (cbn; rewrite Hp; set_solver). intros [= <- <-]. split; [split; [done|]|].
      - intros a ids Ha Hids. cbn in *. apply elem_of_app. apply lookup_insert_Some in Ha as [[<- _]|[_ Ha]]; [right; set_solver|].
        left. by eapply Hw.
      - cbn. symmetry. apply waiting_more. }
    destruct (sg_data s !! auditor) as [entry|]; [destruct (Z.ltb_spec (now - ae_at entry) ttl)|].
    + intros [= <- <-]. split; [by split|done].
    + destruct (maybeStart auditor wait) as [s2 acts2] eqn:E. intros [= <- <-]. by apply Hwait.
    + destruct (maybeStart auditor wait) as [s2 acts2] eqn:E. intros [= <- <-]. by apply Hwait.
  - destruct (take_fetch auditor (sg_fetches s)) as [fetches|] eqn:Ef; [|done]. cbn [option_bind mbind].
    assert (∀ data, sg_inv (MkSignatures data (sg_inProgress s) (delete auditor (sg_pending s)) fetches)) as Hinv.
    { intros data. split; [done|]. intros a ids Ha Hids. cbn in *. apply lookup_delete_Some in Ha as [Hne Ha].
      destruct (take_fetch_elem _ _ _ a Ef); [by eapply Hw|congruence|done]. }
    destruct r as [v|err]; cbn; intros [= <- <-]; rewrite ?delete_delete_eq; (split; [apply Hinv|]); unfold failAllPending;
      rewrite reply_ids_fmap; cbn; exact (waiting_split auditor s).
  - intros [= <- <-]. destruct (owner =? providerAddr); by split.
Qed.

(** Every question about an auditor is answered exactly once or is
    still waiting, and while anyone waits for an auditor a fetch for it is
    under way, whatever is cached, purged or fails. *)
Theorem attr_requests_answered (es : list sgevent) (acts : list sgaction) (s : signatures) (Hrun : sgruns es acts s) :
  request_ids es ≡ₚ (reply_ids acts ++ waiting_ids s)%list
  ∧ map_Forall (λ auditor ids, ids ≠ [] → auditor ∈ sg_fetches s) (sg_pending s).
Proof.
  assert (sg_inv s ∧ request_ids es ≡ₚ (reply_ids acts ++ waiting_ids s)%list) as [[_ Hw] Hp]; [|done].
  revert es acts s Hrun. apply runs_invariant; [by split; [split; [done|apply map_Forall_empty]|]|].
  intros es acts s e s' acts1 [Hi Hp] Hs. destruct (sgstep_inv _ _ _ _ Hi Hs) as [Hi' Hp']. split; [done|].
  rewrite request_ids_app, reply_ids_app, Hp, <- !app_assoc, <- Hp'. f_equiv. apply Permutation_app_comm.
Qed.

End signatures.

(** ** The attributes of the provider *)

(** The fetch that holds [fetchInProgress]: none, under way, or its value was
    taken and the token is not yet released. *)
Inductive fetcher := NoFetch | Fetching | FetchTaken.
#[export] Instance fetcher_eq_dec : EqDecision fetcher.
Proof. solve_decision. Defined.

(** The channels [currAttr], [fetchAttr] and [pushAttr] hold one value each;
    [at_errs] counts the errors sent or to be sent, [at_timers] the retries to
    come, [at_holders] the requests that took the value and have yet to ask for
    the next push. *)
Record attributes := MkAttributes {
  at_attr : Attributes;
  at_curr : option Attributes;
  at_fetchFlag : bool;
  at_pushFlag : bool;
  at_fetcher : fetcher;
  at_errs : nat;
  at_timers : nat;
  at_waiting : list nat;
  at_holders : nat
}.

Inductive atevent :=
| AtUpdated (owner : string)
| AtFetchFlag
| AtNewAttr (v : Attributes)
| AtReleased
| AtFetchFailed
| AtErr
| AtTimer
| AtPush
| AtRequest (id : nat)
| AtTake (id : nat)
| AtTimeout (id : nat)
| AtAsk.

Inductive ataction := AtFetch | AtReply (id : nat) (r : option Attributes).

(** [run] asks for the first fetch before its loop. *)
Definition attributes_start : attributes := MkAttributes [] None true false NoFetch 0 0 [] 0.

Definition remove_id (id : nat) (l : list nat) : list nat := List.filter (λ i, negb (i =? id)%nat) l.

Section attributes.
Variable providerAddr : string.

Definition atstep (s : attributes) (e : atevent) : option (attributes * list ataction) :=
  let '(MkAttributes attr curr ff pf f errs timers waiting holders) := s in
  match e with
  | AtUpdated owner => Some (MkAttributes attr curr (ff || (owner =? providerAddr)) pf f errs timers waiting holders, [])
  | AtFetchFlag =>
      if negb ff then None
      else match f with
      | NoFetch => Some (MkAttributes attr curr false pf Fetching errs timers waiting holders, [AtFetch])
      | _ => Some (MkAttributes attr curr false pf f errs timers waiting holders, [])
      end
  | AtNewAttr v => match f with Fetching => Some (MkAttributes v curr ff true FetchTaken errs timers waiting holders, []) | _ => None end
  | AtReleased => match f with FetchTaken => Some (MkAttributes attr curr ff pf NoFetch errs timers waiting holders, []) | _ => None end
  | AtFetchFailed => match f with Fetching => Some (MkAttributes attr curr ff pf NoFetch (S errs) timers waiting holders, []) | _ => None end
  | AtErr => match errs with S errs => Some (MkAttributes attr curr ff pf f errs (S timers) waiting holders, []) | 0%nat => None end
  | AtTimer => match timers with S timers => Some (MkAttributes attr curr true pf f errs timers waiting holders, []) | 0%nat => None end
  | AtPush =>
      if negb pf then None
      else Some (MkAttributes attr (match curr with None => Some attr | Some v => Some v end) ff false f errs timers waiting holders, [])
  | AtRequest id => Some (MkAttributes attr curr ff pf f errs timers (waiting ++ [id])%list holders, [])
  | AtTake id =>
      v ← curr;
      if bool_decide (id ∈ waiting) then Some (MkAttributes attr None ff pf f errs timers (remove_id id waiting) (S holders), [AtReply id (Some v)])
      else None
  | AtTimeout id =>
      if bool_decide (id ∈ waiting) then Some (MkAttributes attr curr ff pf f errs timers (remove_id id waiting) holders, [AtReply id None])
      else None
  | AtAsk => match holders with S holders => Some (MkAttributes attr curr ff true f errs timers waiting holders, []) | 0%nat => None end
  end.

Definition atruns : list atevent → list ataction → attributes → Prop := runs atstep attributes_start.

Definition fetched (es : list atevent) : list Attributes := omap (λ e, match e with AtNewAttr v => Some v | _ => None end) es.

Lemma fetched_snoc es e : fetched (es ++ [e])%list = (fetched es ++ fetched [e])%list.
Proof. apply omap_app. Qed.

(** Before the first value one is on its way, after it one is ready or will be
    when the loop comes round. *)
Definition on_its_way (s : attributes) : Prop :=
  at_curr s = None ∧ at_pushFlag s = false ∧ at_holders s = 0%nat ∧ at_fetcher s ≠ FetchTaken
  ∧ (at_fetchFlag s = true ∨ at_fetcher s = Fetching ∨ at_errs s ≠ 0%nat ∨ at_timers s ≠ 0%nat).
Definition ready (s : attributes) : Prop := is_Some (at_curr s) ∨ at_pushFlag s = true ∨ at_holders s ≠ 0%nat.

Ltac open_at Hs :=
  unfold atstep, mbind, option_bind in Hs; repeat match type of Hs with
  | context [if ?b then _ else _] => destruct b eqn:?
  | context [match ?x with _ => _ end] => is_var x; destruct x
  end; try discriminate Hs; injection Hs as <- <-.

Lemma ready_step s e s' acts : ready s → atstep s e = Some (s', acts) → ready s'.
Proof.
  destruct s as [attr curr ff pf f errs timers waiting holders]. unfold ready. cbn. intros Hr Hs.
  destruct e; open_at Hs; cbn; try (by auto); destruct Hr as [[v Hv]|[Hr|Hr]]; simplify_eq/=; eauto.
Qed.

Lemma first_value s e s' acts :
  on_its_way s → atstep s e = Some (s', acts) → match e with AtNewAttr v => at_attr s' = v ∧ ready s' | _ => on_its_way s' end.
Proof.
  destruct s as [attr curr ff pf f errs timers waiting holders]. unfold on_its_way, ready. cbn. intros (-> & -> & -> & Hf & Hw) Hs.
  destruct e; open_at Hs; cbn; try done; split_and!; try done; naive_solver.
Qed.

(** Values come from a fetch. *)
Definition from_fetch (F : list Attributes) (s : attributes) : Prop :=
  (∀ v, at_curr s = Some v → v ∈ F) ∧ (at_pushFlag s = true ∨ at_holders s ≠ 0%nat ∨ is_Some (at_curr s) → at_attr s ∈ F).

Lemma from_fetch_step F s e s' acts :
  from_fetch F s → atstep s e = Some (s', acts) →
  from_fetch (F ++ fetched [e])%list s' ∧ ∀ id v, AtReply id (Some v) ∈ acts → v ∈ F.
Proof.
  destruct s as [attr curr ff pf f errs timers waiting holders]. unfold from_fetch. cbn. intros [Hc Ha] Hs.
  assert (∀ v, v ∈ F → v ∈ (F ++ fetched [e])%list) as Hm by set_solver.
  destruct e; open_at Hs; (split; [split|]); cbn [at_curr at_attr at_pushFlag at_holders];
    try (by intros id' v' ?%elem_of_nil); try (intros v' Hv'; apply Hm; try injection Hv' as <-; by eauto 6);
    try (intros Hor; apply Hm, Ha; cbn in *; destruct Hor as [?|[?|?]]; by eauto).
  - by intros id' v' ?%list_elem_of_singleton.
  - set_solver.
  - intros v' [= <-]. apply Hm, Ha. left. by destruct pf.
  - intros _. apply Hm, Ha. left. by destruct pf.
  - intros id' v' E%list_elem_of_singleton. simplify_eq. by apply Hc.
  - by intros id' v' ?%list_elem_of_singleton.
Qed.

Lemma atruns_inv es acts s :
  atruns es acts s →
  from_fetch (fetched es) s ∧ (fetched es = [] → on_its_way s) ∧ (fetched es ≠ [] → ready s)
  ∧ ∀ id v, AtReply id (Some v) ∈ acts → v ∈ fetched es.
Proof.
  revert es acts s. apply runs_invariant.
  { split; [split; cbn; [done|by intros [?|[?|[? ?]]]]|]. split; [intros _; unfold on_its_way; cbn; by auto 10|].
    split; [done|]. by intros ???%elem_of_nil. }
  intros es acts s e s' acts1 (Hf & Hn & Hr & Hrep) Hs. destruct (from_fetch_step _ _ _ _ _ Hf Hs) as [Hf' Hrep']. rewrite fetched_snoc.
  assert (ready s' ∨ (fetched es = [] ∧ fetched [e] = [] ∧ on_its_way s')) as Hstep.
  { destruct (decide (fetched es = [])) as [En|En]; [|left; by eapply ready_step; eauto].
    pose proof (first_value _ _ _ _ (Hn En) Hs) as Hv. destruct e; naive_solver. }
  split_and!; [done| | |].
  - intros [E1 E2]%app_nil. destruct Hstep as [Hready|(_ & _ & ?)]; [|done].
    pose proof (first_value _ _ _ _ (Hn E1) Hs) as Hv. by destruct e.
  - intros Hne. destruct Hstep as [?|(E1 & E2 & _)]; [done|]. by rewrite E1, E2 in Hne.
  - intros id v [Hv|Hv]%elem_of_app; apply elem_of_app; left; eauto.
Qed.

(** Whoever asks for the attributes gets attributes that were
    fetched, and can get them soon: before the first fetch succeeds one is
    wanted, under way or to be retried, and after it every waiting request can
    be answered within three steps. *)
Theorem attributes_served (es : list atevent) (acts : list ataction) (s : attributes) (Hrun : atruns es acts s) :
  (∀ id v, AtReply id (Some v) ∈ acts → v ∈ fetched es)
  ∧ (fetched es = [] → at_fetchFlag s = true ∨ at_fetcher s = Fetching ∨ at_errs s ≠ 0%nat ∨ at_timers s ≠ 0%nat)
  ∧ (fetched es ≠ [] → ∀ id, id ∈ at_waiting s →
       ∃ es' acts' s' v, (List.length es' ≤ 3)%nat ∧ runs atstep s es' acts' s' ∧ AtReply id (Some v) ∈ acts').
Proof.
  destruct (atruns_inv _ _ _ Hrun) as (_ & Hn & Hr & Hrep). split_and!; [done|by intros ?%Hn; apply H|].
  intros Hf id Hid. specialize (Hr Hf). clear Hrun Hn Hrep Hf.
  destruct s as [attr curr ff pf f errs timers waiting holders]. unfold ready in Hr. cbn in Hr, Hid.
  destruct curr as [v|].
  { exists [AtTake id]. do 2 eexists. exists v. split; [cbn; lia|]. split; [apply exec_runs; cbn; rewrite bool_decide_eq_true_2 by done; reflexivity|]. set_solver. }
  destruct pf.
  { exists [AtPush; AtTake id]. do 2 eexists. exists attr. split; [cbn; lia|]. split; [apply exec_runs; cbn; rewrite bool_decide_eq_true_2 by done; reflexivity|]. set_solver. }
  destruct holders as [|holders]; [by destruct Hr as [[? ?]|[?|?]]|].
  exists [AtAsk; AtPush; AtTake id]. do 2 eexists. exists attr. split; [cbn; lia|].
  split; [apply exec_runs; cbn; rewrite bool_decide_eq_true_2 by done; reflexivity|]. set_solver.
Qed.

End attributes.

(** ** Runs *)

Module AttrSample.

#[local] Existing Instance listed_order.

Definition old : Attributes := [("region", "us")].
Definition new : Attributes := [("region", "eu")].

(** Two questions about one auditor, a change of the auditor while it is
    fetched, and a third question after the answer. *)
Definition questions : list sgevent :=
  [SgRequest 1 "auditor" 0; SgRequest 2 "auditor" 1; SgAuditorChanged "p" "auditor"; SgFetched "auditor" (Ok [old]) 2; SgRequest 3 "auditor" 3].
Definition replies : list sgaction :=
  [SgFetch "auditor"; SgFetch "auditor"; SgReply 1 (Ok [old]); SgReply 2 (Ok [old]); SgReply 3 (Ok [old])].

Definition asked : signatures :=
  match exec (sgstep 100 "p") noSignatures questions with Some (_, s) => s | None => noSignatures end.

Lemma questions_run : sgruns 100 "p" questions replies asked.
Proof. apply exec_runs. vm_compute. reflexivity. Qed.

(** The attributes change while the old ones lie in the channel. *)
Definition changed : list atevent :=
  [AtFetchFlag; AtNewAttr old; AtReleased; AtPush; AtUpdated "p"; AtFetchFlag; AtNewAttr new; AtReleased; AtPush; AtRequest 1; AtTake 1].
Definition answered : attributes :=
  match exec (atstep "p") attributes_start changed with Some (_, s) => s | None => attributes_start end.

Lemma changed_run : atruns "p" changed [AtFetch; AtFetch; AtReply 1 (Some old)] answered.
Proof. apply exec_runs. vm_compute. reflexivity. Qed.

(** The provider is updated while a fetch is under way. *)
Definition overtaken : list atevent := [AtFetchFlag; AtUpdated "p"; AtFetchFlag; AtNewAttr old; AtReleased; AtPush].
Definition overtaken_end : attributes :=
  match exec (atstep "p") attributes_start overtaken with Some (_, s) => s | None => attributes_start end.

End AttrSample.

Lemma attr_requests_answered_witness :
  request_ids AttrSample.questions ≡ₚ (reply_ids AttrSample.replies ++ waiting_ids AttrSample.asked)%list.
Proof. exact (proj1 (attr_requests_answered (H := listed_order) 100 "p" _ _ _ AttrSample.questions_run)). Defined.

Lemma attributes_served_witness : AttrSample.old ∈ fetched AttrSample.changed.
Proof. apply (proj1 (attributes_served "p" _ _ _ AttrSample.changed_run) 1%nat). set_solver. Defined.

(** The mark of a fetch in progress is never set: each of two questions starts
    a fetch; and what was asked for before an auditor changed is cached after
    the change and answers later questions. *)
Theorem signatures_fetched_twice_and_stale :
  sgruns (H := listed_order) 100 "p" AttrSample.questions AttrSample.replies AttrSample.asked
  ∧ sg_fetches AttrSample.asked = ["auditor"].
Proof. split; [exact AttrSample.questions_run|by vm_compute]. Qed.

(** After new attributes were fetched and pushed the next request is answered
    with the old ones. *)
Theorem stale_attributes_served :
  atruns "p" AttrSample.changed [AtFetch; AtFetch; AtReply 1 (Some AttrSample.old)] AttrSample.answered
  ∧ at_attr AttrSample.answered = AttrSample.new.
Proof. split; [exact AttrSample.changed_run|by vm_compute]. Qed.

(** An update that arrives while a fetch is under way is dropped: nothing is
    wanted, under way or to be retried afterwards. *)
Theorem update_lost_while_fetching :
  atruns "p" AttrSample.overtaken [AtFetch] AttrSample.overtaken_end
  ∧ at_fetchFlag AttrSample.overtaken_end = false ∧ at_fetcher AttrSample.overtaken_end = NoFetch
  ∧ at_errs AttrSample.overtaken_end = 0%nat ∧ at_timers AttrSample.overtaken_end = 0%nat.
Proof. split; [apply exec_runs; vm_compute; reflexivity|by vm_compute]. Qed.
